(* ===== verification/_CoqProject ===== *)
-Q . S2P
Prelude.v
RustStr.v
Amount.v
Json.v
Bytes.v
RuleProposal.v
Toml.v
AssetId.v
PolicyTypes.v
StateStore.v
Value.v
Context.v
Criteria.v
Allowlist.v
CapProps.v
Engine.v
Canonical.v
Loader.v
CanonicalProps.v
LoaderProps.v
EngineProps.v
EngineWindow.v
BundleProps.v
Nonce.v
Attestation.v
Approval.v
ApprovalWire.v
ApprovalStore.v
ApprovalWireProps.v
ApprovalDemo.v
ApprovalStoreProps.v
Attest.v
AttestProps.v
ToolsetGrant.v
OperatorCredentials.v
Sanitise.v
Capability.v
ToolsetArgs.v
Frontmatter.v
FrontmatterProps.v
ToolsetRuntime.v
ToolsetProps.v
Time.v
AuditEntry.v
AuditFiles.v
AuditVerify.v
AuditChainProps.v
AuditFilesProps.v
AuditVerifyProps.v
AuditWriter.v
AuditOpen.v
AuditRunProps.v
AuditWriterProps.v
AuditRotateProps.v
AuditLogged.v
AuditDemo.v
Receipts.v
ReceiptsProps.v
Keyring.v
WindowStore.v
WindowStoreProps.v
WindowCapProps.v
WindowCrash.v
WindowReconcile.v
WindowReconcileProps.v
WindowDemo.v
Network.v
Submit.v
SubmissionRecord.v
SubmitProps.v
SubmissionRecordProps.v
IdempotentProps.v
SubmitDemo.v
Mpp.v
MppStore.v
MppProps.v
MppCharge.v
MppService.v
MppServiceProps.v
MppDemo.v
