(* ===== verification/Prelude.v ===== *)
(** * Stellar Agent Wallet: a verification development

    The repository is a wallet for software agents on the Stellar network.  An
    agent asks for a tool call; before anything is signed, the owner's signed
    policy document decides whether the call is allowed, refused, or sent to a
    human; a two-step tool is simulated first and committed with a single-use
    nonce, and an approval is bound to what was shown by an attestation.  The
    amounts are reserved in a durable spending window before the transaction is
    sent, a receipt records what became of it, and every consent and outcome is a
    row of a hash-chained audit log.  Third-party toolsets call tools through a
    dispatcher that checks their capabilities and asks a human on first use.
    Servers are paid per request by signing one authorization that they submit
    themselves; its credential is released once.

    ** Files

    Paths are under [src/crates/stellar-agent-core/src/] unless said otherwise.

    Foundations.
    - [Prelude]: [Result] as a monad, machine integer types with their checked
      and saturating arithmetic, the tactics ([res_inv], [cases_in]) and the hint
      database [wallet].
    - [RustStr]: what the code uses of Rust's [str] (trimming, splitting, lines,
      integer parsing and printing, sorting), on UTF-8 byte strings.
    - [Amount] ([amount.rs], and [ValidationError] of [error.rs]), [Json]
      ([wire_stroops.rs]), [AssetId] ([asset_id.rs]), [Time] ([timefmt.rs]):
      amounts, wire integers and the text forms.
    - [Bytes] ([hex.rs]): byte strings and hexadecimal text; SHA-256 and HMAC as the
      class [Sha2] and base64 as the class [Base64], each with an executable instance.
    - [Toml]: documents and record files of the TOML crates.

    Policy.
    - [PolicyTypes] ([policy/mod.rs], [approval/error.rs]), [StateStore], [Value], [Context], [Criteria],
      [Allowlist] ([policy/v1/value.rs], [bundle.rs], [criteria/*.rs]): the data, the
      windows in memory, the legs of a call, the [Criterion] trait as a type class
      and its instances.
    - [Engine] ([policy/v1/mod.rs]): the criterion as a trait object, first matching rule, criteria loop with
      escalation, two-phase bundle evaluation, recording.
    - [Canonical], [Loader] ([policy/v1/canonical.rs], [loader.rs], [schema.rs],
      [signature.rs], [counterparty.rs]): the form that is signed, the key schema,
      the signature check and all parsers.
    - [CapProps], [EngineProps], [EngineWindow], [BundleProps], [CanonicalProps],
      [LoaderProps]: the theorems on them.

    Consent.
    - [Nonce] ([src/crates/stellar-agent-nonce/src/] and the commit function of
      [src/crates/stellar-agent-mcp/src/tools/common.rs]): mint, verification,
      replay window.
    - [Attestation] ([approval/attestation.rs]): the approval MAC and the digests.
    - [RuleProposal] (with the syntax of IP addresses), [Approval], [ApprovalWire], [ApprovalStore]
      ([approval/*.rs]): the records, their field checks and constructors, the file,
      and the store with its rewriting that can fail; [ApprovalWireProps],
      [ApprovalDemo], [ApprovalStoreProps]: theorems and inputs.
    - [Attest], [AttestProps] ([approval/attest.rs] and the approve command of the
      command line): who may answer, and the order in which an answer takes effect.
    - [OperatorCredentials] ([approval/operator_credentials.rs]): passkeys.

    Toolsets (crates stellar-agent-toolsets, -runtime and -install).
    - [Sanitise], [Capability], [ToolsetArgs], [Frontmatter], [FrontmatterProps]: text
      of others, capability sets, arguments, manifests.
    - [ToolsetGrant] ([approval/toolset_grant.rs]), [ToolsetRuntime], [ToolsetProps]:
      first-use grants, dispatch and its gate.

    Audit log ([audit_log/*.rs]).
    - [AuditEntry], [AuditFiles], [AuditVerify]: the hash chain, the files and their
      readers, the verifier; [AuditWriter], [AuditOpen]: the writer with rotation,
      pruning, outbox and anchor, what opening does, and the sinks of consent rows.
    - [AuditChainProps], [AuditFilesProps], [AuditVerifyProps], [AuditRunProps],
      [AuditWriterProps], [AuditRotateProps], [AuditLogged], [AuditDemo]: theorems,
      the runs of the writer, and inputs.

    Submission.
    - [Receipts], [ReceiptsProps] ([profile/receipt.rs]): the receipt file of a
      profile; every call is a session that reads, changes and rewrites it.
    - [Keyring] ([profile/owner_key.rs], [profile/name.rs], [keyring_errors.rs], and
      [keyring.rs] of stellar-agent-network): keys in the credential store.
    - [WindowStore] (stellar-agent-network, [policy_state/*.rs]): the durable windows;
      [WindowStoreProps], [WindowCapProps], [WindowCrash]: runs, caps, failing writes.
    - [WindowReconcile], [WindowReconcileProps] (the same, with the result codes of
      [submit.rs]): settling reservations from the chain; [WindowDemo]: inputs.
    - [Network] (stellar-agent-network, [retry.rs], [client.rs], [endpoint_identity.rs],
      [account.rs], [signing/verify_binding.rs]): awaited answers with deadlines, retries,
      which network an endpoint serves, whose signatures an envelope carries.
    - [Submit] ([submit.rs], [idempotent_submit.rs]): both ways of sending an envelope and
      waiting for its outcome; [SubmissionRecord] ([submission_record.rs]): the wallet's
      recorder over receipts, audit log, windows and approvals.
    - [SubmitProps], [SubmissionRecordProps], [IdempotentProps], [SubmitDemo]: theorems
      and runs.

    Machine payments (stellar-agent-mpp).
    - [Mpp] ([state.rs], [context.rs], [error.rs], [policy.rs], [limits.rs]): request
      contexts, the stored artifact, the record and its states.
    - [MppStore] ([store.rs], [receipt.rs]): the authenticated file with its generation
      counter, and every call on it; [MppProps]: its history.
    - [MppCharge] ([sponsored.rs], [credential.rs]): preparing and signing a charge.
    - [MppService] ([service.rs], [reconcile.rs]): prepare, commit and status as programs
      of requests, and reconciliation with the ledger; [MppServiceProps], [MppDemo].

    ** State and effects

    A criterion runs in [M A := World -> result PolicyError A * World]; the world
    holds the state store and the number of clock readings.  Each reading of the
    system clock consumes one tick of the class [Clock]; [MonotoneClock] is the
    assumption, where a theorem needs it, that readings do not go back.  The store is
    behind a mutex in the code: a store operation is one step here, and a
    poisoned mutex is a flag that turns every operation into its error.  Integers
    are [Z] with [i64], [i128], [u32], [u64] bounds written out at every operation
    (checked, saturating or wrapping as in the source, release semantics for
    casts).  A panic is a value where the code can panic on its input ([LoadStop]).

    The durable stores keep what is on disk and in the keyring as state; the
    audit writer has its own state monad over a directory, open files, the keyring
    and a list of outcomes of system calls, the window store one over its file and
    the keyring.  Every read, write, rename and keyring call can fail, and a write can
    fail after it took effect, so that a process that dies is a call that fails.
    Processes exclude each other by file locks in the code: a call is one step of a
    run, and runs are sequences of calls of any processes; the window store's runs
    also let anyone replace its file at any time.  The consent row of an answer goes to a
    sink, the class [ConsentAudit] of [Attest]; the theorem on answers holds of every sink,
    and [AuditOpen] gives the two of the code, the audit writer and its outbox.  A
    reconciliation pass records each client call it makes.

    A submission runs in [NM] over a world with a clock, the endpoint's answers, a trace
    of what was sent and answered, and a store of any type that other processes may
    change at every await.  The calls of the payment store run in [MppM] over the file
    and the credential store, with the system's answers as an environment per call.
    A commit of a payment is a [Prog], a tree of requests with a continuation per answer;
    [system] interleaves any number of them, request by request, with other users of
    the store and with whoever puts an earlier file back.

    Code outside the repository is a parameter: the strkey codec (class [Strkey],
    laws in [StrkeyLaws]), the URL parser (argument [url_parse]), the clock, the
    TOML and YAML parsers and printers ([TomlCrate], [TomlRecords], [Yaml]), the JSON
    of entries, receipts and windows ([AuditJson], [ReceiptJson], [WindowJson], with
    the law that what is written reads back), BLAKE3 and Ed25519 ([PolicyCrypto]),
    SHA-256 and HMAC ([Sha2], with the law on output lengths), base64, XDR ([Xdr],
    [SponsoredXdr], [ChargeXdr] with [ChargeXdrLaws]), the verification of signatures
    ([Ed25519Verify]), the transaction builder ([ChargeBuilder]), URLs and the canonical
    JSON of contexts and credentials ([UrlCrate], [ContextJson], [CredentialJson]), the
    answers of the endpoint, the keyring and random bytes.  No theorem assumes that a
    hash or a MAC has no collisions: where one is needed, the conclusion exhibits it at
    the inputs, or the collision is excluded among inputs that are named.

    ** What the theorems show

    - Amounts: the parsers accept exactly a stated language and compute exact
      stroops; display, wire, asset, hexadecimal and time forms round trip.
    - Windows in memory: the evicting store refines a log that never forgets.
    - Criteria, engine and bundles: caps, reserve and allowlist are characterised by
      an if-and-only-if; the per-period cap holds in every sliding interval for
      arbitrary sequences of engine calls, and for a bundle as a whole; the exact
      condition of a permit; refusal of what cannot be sized; bundles are not recorded
      under per-call windows, so any sequence of them is decided as if none had been made.
    - Loader: the policy that is enforced is the one in the signed bytes; the bounds
      the engine's theorems ask for hold of every loaded document.
    - Nonces and attestations: a nonce is bound and accepted once, but its salt is not
      authenticated; attestations bind profile, chain, nonce, digest and owner.
    - Approvals: an acknowledged change is on disk, and an approval is answered at most
      once; as long as what is inserted passes the reader's checks, which the constructors
      do not ensure, the records stay well-formed and the file opens again after any
      failing rewrite.  Approvals and grants change only after the sink acknowledged the
      consent row, whatever the sink does.  The file's reader is exact.
    - Toolsets: the manifest machine does what the tree says (keys repeated inside ignored
      values are not refused), accepted manifests are sound, arguments are bounded, the
      gate's outcome is exact.
    - Audit log: the tip determines the log, an anchored log only grows; without failing
      calls, and with archive names that sort in the order of time, what the writer
      leaves verifies until the first pruning, which breaks verification.
    - Receipts: an outcome once written stays, and a receipt is removed only while it is
      not marked as sent; at most one receipt carries an approval, and
      [begin_submission] opens no second submission for an account and sequence number,
      which [try_begin] can.
    - Durable windows: runs refine the effects of the acknowledged calls, whatever
      fails or is put into the file; an acknowledged reservation leaves each of its entries
      within its limit at its time; the file and the in-memory store agree on every window;
      settlements are atomic; a reservation is let go only on proof and after its
      receipt; a pass makes a bounded number of client calls, which are what it reports.  A key that cannot be read once is replaced, which
      locks the store.
    - Submission: an envelope is sent only after the receipt, the audit row and the
      reservation are written; the outcome told to the recorder is the one the endpoint's
      answers justify.  Idempotent submission sends again only after the endpoint said that
      it does not know the receipt's transaction, a success it reports is backed by an
      answer or a receipt, and a success is called reorganised only after two misses with
      a ledger between them.  A run in [SubmitDemo] shows a receipt whose mark as sent was
      lost being withdrawn although its envelope is out.
    - Machine payments: any number of interleaved commits of one authorization release
      one credential; a release follows one sequence of requests and answers; the
      credential carries what was prepared and is accepted by reconciliation, which
      does not compare the nonce of the entry; a record that was stored but does not
      pass its own check locks the store.

    ** Bounds

    Every loop of the source is structural on a list or a string here, or has fuel
    that its theorems show to be enough: one unit per 365 days for the years of a
    date, the length of the file for the backward scan of the last line, the number
    of YAML events, the nodes of the arguments of a tool, one poll per interval and one
    more until the deadline of a submission.  Retries of locks, opens and sends (five) and
    the polls of a loser (120) are counted as in the code.  In the runs of the payment
    store a call's time is at most 30 days before that of an earlier call, the time
    after which settled records are pruned.  The number of inner calls of a bundle is bounded by the
    code itself (50).  The step relations and runs have any length.

    ** Not modelled

    - Of the network crate: the builders of transactions and fee bumps, sequence floors,
      the documents of counterparties, and the signers, which are keyring and
      hardware calls.  Of the audit log: re-signing of sidecars, the inspection of the outbox,
      the payloads of event kinds other than the log's own, and reports.  Of the core crate: the profile loader
      and schema, which read configuration, and XDR cross-checks.
    - Of the payments: the parsing and selection of challenges and receipts (headers and
      canonical JSON).  Signing and sending for simulation is one request of a commit; a reset
      of the store is modelled as a call and is not part of the runs.
    - Smart accounts, the other payment protocols, the SEP and DeFi clients, the pool, the
      approval interfaces, the servers and the command line beyond the functions named
      above: drivers of third-party libraries and hosts.  The contracts run on
      the host interface of an SDK that is not in the repository.
    - Evaluating a call and recording it are atomic in the step relations of the engine; what
      other processes do between the two is what the admission under the lock of the
      durable window answers.  The recorder's calls within one step of a submission are not
      interleaved with others. *)

From stdpp Require Export base option list numbers strings gmap sorting.
From stdpp Require Import options.

(** ** Results, as Rust's [Result<T, E>] *)

Inductive result (E A : Type) : Type :=
| Ok (a : A)
| Err (e : E).
Arguments Ok {E A} a.
Arguments Err {E A} e.

Global Instance result_ret {E} : MRet (result E) := fun A a => Ok a.
Global Instance result_bind {E} : MBind (result E) := fun A B f m =>
  match m with Ok a => f a | Err e => Err e end.
Global Instance result_fmap {E} : FMap (result E) := fun A B f m =>
  match m with Ok a => Ok (f a) | Err e => Err e end.

(** [Result::map_err], [Option::ok_or_else] and [Result::ok]. *)
Definition map_err {E F A} (f : E -> F) (m : result E A) : result F A :=
  match m with Ok a => Ok a | Err e => Err (f e) end.

Definition ok_or {E A} (e : E) (o : option A) : result E A :=
  match o with Some a => Ok a | None => Err e end.

Definition ok {E A} (m : result E A) : option A :=
  match m with Ok a => Some a | Err _ => None end.

Definition is_ok {E A} (m : result E A) : bool :=
  match m with Ok _ => true | Err _ => false end.

(** A [for] loop over a slice that may return early with an error. *)
Fixpoint mapM_res {E A B} (f : A -> result E B) (l : list A) : result E (list B) :=
  match l with
  | [] => Ok []
  | x :: l' => y ← f x; ys ← mapM_res f l'; Ok (y :: ys)
  end.

(** The same loop with the element's index, [iter().enumerate()]. *)
Fixpoint imapM_res {E A B} (f : nat -> A -> result E B) (i : nat) (l : list A)
  : result E (list B) :=
  match l with
  | [] => Ok []
  | x :: l' => y ← f i x; ys ← imapM_res f (S i) l'; Ok (y :: ys)
  end.

(** ** Machine integers

    A [w]-bit Rust integer is a [Z] inside the range of its type.  The
    operations below write out what the Rust operation does at the border. *)
Record int_ty := IntTy { lo : Z; hi : Z }.

Definition i64 : int_ty := IntTy (-2 ^ 63) (2 ^ 63 - 1).
Definition i128 : int_ty := IntTy (-2 ^ 127) (2 ^ 127 - 1).
Definition u8 : int_ty := IntTy 0 (2 ^ 8 - 1).
Definition u16 : int_ty := IntTy 0 (2 ^ 16 - 1).
Definition u32 : int_ty := IntTy 0 (2 ^ 32 - 1).
Definition u64 : int_ty := IntTy 0 (2 ^ 64 - 1).
Definition u128 : int_ty := IntTy 0 (2 ^ 128 - 1).

Definition in_range (t : int_ty) (z : Z) : Prop := (lo t <= z <= hi t)%Z.

Definition in_rangeb (t : int_ty) (z : Z) : bool := (lo t <=? z)%Z && (z <=? hi t)%Z.

(** [saturating_*]: clamp the mathematical result. *)
Definition clamp (t : int_ty) (z : Z) : Z := Z.max (lo t) (Z.min (hi t) z).
Definition sat_add (t : int_ty) (a b : Z) : Z := clamp t (a + b).
Definition sat_sub (t : int_ty) (a b : Z) : Z := clamp t (a - b).
Definition sat_mul (t : int_ty) (a b : Z) : Z := clamp t (a * b).

(** [checked_*] and [try_from]: [None] outside the range. *)
Definition checked (t : int_ty) (z : Z) : option Z :=
  if in_rangeb t z then Some z else None.

(** [as u64] on a wider unsigned value: truncation. *)
Definition wrap_u (bits z : Z) : Z := (z mod 2 ^ bits)%Z.

(** ** Generic lemmas *)

Lemma in_rangeb_spec t z : in_rangeb t z = true <-> in_range t z.
Proof. unfold in_rangeb, in_range. rewrite andb_true_iff, !Z.leb_le. done. Qed.

Lemma checked_Some t z z' : checked t z = Some z' <-> z' = z /\ in_range t z.
Proof.
  unfold checked. destruct (in_rangeb t z) eqn:E.
  - apply in_rangeb_spec in E. naive_solver.
  - split; [done|]. intros [-> H%in_rangeb_spec]. congruence.
Qed.

Lemma checked_in_range t z : in_range t z -> checked t z = Some z.
Proof. intros H. by apply checked_Some. Qed.

Lemma clamp_in_range t z : (lo t <= hi t)%Z -> in_range t (clamp t z).
Proof. unfold in_range, clamp. lia. Qed.

Lemma clamp_id t z : in_range t z -> clamp t z = z.
Proof. unfold in_range, clamp. lia. Qed.

Lemma clamp_mono t a b : (a <= b)%Z -> (clamp t a <= clamp t b)%Z.
Proof. unfold clamp. lia. Qed.

(** Below its ceiling a clamped value has not been cut from above. *)
Lemma clamp_below t z m : (clamp t z <= m)%Z -> (m < hi t)%Z -> (z <= m)%Z.
Proof. unfold clamp. lia. Qed.

Lemma wrap_u_small bits z : (0 <= z < 2 ^ bits)%Z -> wrap_u bits z = z.
Proof. intros. by apply Z.mod_small. Qed.

Lemma ok_Some {E A} (m : result E A) a : ok m = Some a <-> m = Ok a.
Proof. destruct m; naive_solver. Qed.

Lemma map_err_Ok {E F A} (f : E -> F) (m : result E A) a :
  map_err f m = Ok a <-> m = Ok a.
Proof. destruct m; naive_solver. Qed.

Lemma ok_or_Ok {E A} (e : E) (o : option A) a : ok_or e o = Ok a <-> o = Some a.
Proof. destruct o; naive_solver. Qed.

Lemma res_bind_Ok {E A B} (m : result E A) (f : A -> result E B) b :
  (m ≫= f) = Ok b <-> exists a, m = Ok a /\ f a = Ok b.
Proof. destruct m; naive_solver. Qed.

Lemma mapM_res_Ok {E A B} (f : A -> result E B) l ys :
  mapM_res f l = Ok ys <-> Forall2 (fun x y => f x = Ok y) l ys.
Proof.
  revert ys. induction l as [|x l IH]; intros ys; simpl.
  - split; [intros [= <-]; constructor|]. by intros ->%Forall2_nil_inv_l.
  - rewrite res_bind_Ok. setoid_rewrite res_bind_Ok. split.
    + intros (y & Hy & ys' & Hys & [= <-]). constructor; [done|by apply IH].
    + intros (y & ys' & Hy & Hys & ->)%Forall2_cons_inv_l.
      exists y. split; [done|]. exists ys'. split; [by apply IH|done].
Qed.

Lemma imapM_res_lookup {E A B} (f : nat -> A -> result E B) i l ys :
  imapM_res f i l = Ok ys ->
  length ys = length l /\
  forall k x, l !! k = Some x -> exists y, ys !! k = Some y /\ f (i + k)%nat x = Ok y.
Proof.
  revert i ys. induction l as [|x l IH]; intros i ys; simpl.
  - intros [= <-]. split; [done|]. by intros [].
  - rewrite res_bind_Ok. setoid_rewrite res_bind_Ok.
    intros (y & Hy & ys' & Hys & [= <-]). destruct (IH _ _ Hys) as [Hlen Hk].
    split; [simpl; lia|]. intros [|k] x'; simpl.
    + intros [= <-]. exists y. by rewrite Nat.add_0_r.
    + intros H. destruct (Hk _ _ H) as (y' & ? & Hf). exists y'.
      split; [done|]. by replace (i + S k)%nat with (S i + k)%nat by lia.
Qed.

(** ** Automation *)

Create HintDb wallet.
#[export] Hint Resolve checked_in_range clamp_id clamp_in_range : wallet.

(** Inversion of a sequence of [Result] binds that ended in [Ok]. *)
Ltac res_inv :=
  repeat match goal with
  | H : Ok _ = Ok _ |- _ => injection H as H; try subst
  | H : Err _ = Ok _ |- _ => discriminate H
  | H : Ok _ = Err _ |- _ => discriminate H
  | H : (_ ≫= _) = Ok _ |- _ =>
      let x := fresh "x" in let H1 := fresh H in
      apply res_bind_Ok in H as (x & H1 & H)
  | H : map_err _ _ = Ok _ |- _ => apply map_err_Ok in H
  | H : ok_or _ _ = Ok _ |- _ => apply ok_or_Ok in H
  end.

(** Case analysis on every [if] and [match] scrutinee of a hypothesis. *)
Ltac cases_in H :=
  repeat match type of H with
  | context [match ?x with _ => _ end] => let E := fresh "E" in destruct x eqn:E; try discriminate H
  end.
