(* ===== verification/RustStr.v ===== *)
(** * Rust strings

    The part of [core::str], [u8] and the integer [FromStr]/[Display]
    implementations the wallet's code uses.  A Rust [&str] is its sequence of
    UTF-8 bytes, a Rocq [string]; [len] is the number of bytes, as in Rust.
    Operations on Unicode scalar values ([trim]) decode the byte patterns of
    the characters they look for. *)

From Stdlib Require Export Ascii.
From S2P Require Import Prelude.
From stdpp Require Export pretty.
From stdpp Require Import options.

Local Open Scope string_scope.
Local Open Scope Z_scope.

(** ** Bytes *)

Definition byte_val (a : ascii) : Z := Z.of_N (Ascii.N_of_ascii a).

Definition byte_in (l h : Z) (a : ascii) : bool := (l <=? byte_val a) && (byte_val a <=? h).

(** [u8::is_ascii_digit], [is_ascii_alphanumeric], [is_ascii_whitespace]. *)
Definition is_ascii_digit (a : ascii) : bool := byte_in 48 57 a.
Definition is_ascii_upper (a : ascii) : bool := byte_in 65 90 a.
Definition is_ascii_lower (a : ascii) : bool := byte_in 97 122 a.
Definition is_ascii_alphanumeric (a : ascii) : bool :=
  is_ascii_digit a || is_ascii_upper a || is_ascii_lower a.
Definition is_ascii_hexdigit (a : ascii) : bool :=
  is_ascii_digit a || byte_in 65 70 a || byte_in 97 102 a.
Definition is_ascii_whitespace (a : ascii) : bool :=
  bool_decide (byte_val a ∈ [9; 10; 12; 13; 32]).

Definition to_lower (a : ascii) : ascii :=
  if is_ascii_upper a then Ascii.ascii_of_N (Ascii.N_of_ascii a + 32) else a.

(** ** Whole strings *)

(** [len()] of a string and of a slice. *)
Definition len (s : string) : Z := Z.of_nat (String.length s).
Definition count {A} (l : list A) : Z := Z.of_nat (length l).

Fixpoint str_all (f : ascii -> bool) (s : string) : bool :=
  match s with EmptyString => true | String a s' => f a && str_all f s' end.

Fixpoint str_map (f : ascii -> ascii) (s : string) : string :=
  match s with EmptyString => EmptyString | String a s' => String (f a) (str_map f s') end.

Definition is_empty (s : string) : bool :=
  match s with EmptyString => true | String _ _ => false end.

Definition contains (c : ascii) (s : string) : bool :=
  negb (str_all (fun a => negb (bool_decide (a = c))) s).

Definition starts_with (c : ascii) (s : string) : bool :=
  match s with EmptyString => false | String a _ => bool_decide (a = c) end.

(** [str::strip_prefix] with a [char] and with a [&str] pattern. *)
Definition strip_char (c : ascii) (s : string) : option string :=
  match s with
  | EmptyString => None
  | String a s' => if bool_decide (a = c) then Some s' else None
  end.

Fixpoint strip_prefix (p s : string) : option string :=
  match p, s with
  | EmptyString, _ => Some s
  | String a p', String b s' => if bool_decide (a = b) then strip_prefix p' s' else None
  | String _ _, EmptyString => None
  end.

Definition starts_with_str (p s : string) : bool :=
  match strip_prefix p s with Some _ => true | None => false end.

Definition to_ascii_lowercase : string -> string := str_map to_lower.

Definition eq_ignore_ascii_case (a b : string) : bool :=
  bool_decide (to_ascii_lowercase a = to_ascii_lowercase b).

(** [str::split_once]: cut at the first occurrence. *)
Fixpoint split_once (c : ascii) (s : string) : option (string * string) :=
  match s with
  | EmptyString => None
  | String a s' =>
      if bool_decide (a = c) then Some (EmptyString, s')
      else '(l, r) ← split_once c s'; Some (String a l, r)
  end.

(** [str::split]: all the pieces between the occurrences. *)
Fixpoint split (c : ascii) (s : string) : list string :=
  match s with
  | EmptyString => [EmptyString]
  | String a s' =>
      if bool_decide (a = c) then EmptyString :: split c s'
      else match split c s' with
           | [] => [String a EmptyString]
           | w :: ws => String a w :: ws
           end
  end.

(** [str::split_ascii_whitespace]: the non-empty pieces. *)
Fixpoint split_ws_go (s : string) : list string :=
  match s with
  | EmptyString => [EmptyString]
  | String a s' =>
      if is_ascii_whitespace a then EmptyString :: split_ws_go s'
      else match split_ws_go s' with
           | [] => [String a EmptyString]
           | w :: ws => String a w :: ws
           end
  end.

Definition split_ascii_whitespace (s : string) : list string :=
  filter (fun w => is_empty w = false) (split_ws_go s).

(** [str::trim]: the characters with the Unicode White_Space property, by
    their UTF-8 encodings of one, two and three bytes. *)
Definition ws1 (a : ascii) : bool := byte_in 9 13 a || (byte_val a =? 32).
Definition ws2 (a b : ascii) : bool :=
  (byte_val a =? 0xC2) && ((byte_val b =? 0x85) || (byte_val b =? 0xA0)).
Definition ws3 (a b c : ascii) : bool :=
  let x := byte_val a in let y := byte_val b in let z := byte_val c in
  (x =? 0xE1) && (y =? 0x9A) && (z =? 0x80)
  || (x =? 0xE2) && (y =? 0x80)
     && ((0x80 <=? z) && (z <=? 0x8A) || (z =? 0xA8) || (z =? 0xA9) || (z =? 0xAF))
  || (x =? 0xE2) && (y =? 0x81) && (z =? 0x9F)
  || (x =? 0xE3) && (y =? 0x80) && (z =? 0x80).

Fixpoint trim_with (w2 : ascii -> ascii -> bool) (w3 : ascii -> ascii -> ascii -> bool)
    (s : string) : string :=
  match s with
  | EmptyString => EmptyString
  | String a s1 =>
      if ws1 a then trim_with w2 w3 s1
      else match s1 with
           | EmptyString => s
           | String b s2 =>
               if w2 a b then trim_with w2 w3 s2
               else match s2 with
                    | EmptyString => s
                    | String c s3 => if w3 a b c then trim_with w2 w3 s3 else s
                    end
           end
  end.

Definition str_rev (s : string) : string := String.rev s.
Definition trim_start (s : string) : string := trim_with ws2 ws3 s.
Definition trim_end (s : string) : string :=
  str_rev (trim_with (fun a b => ws2 b a) (fun a b c => ws3 c b a) (str_rev s)).
Definition trim (s : string) : string := trim_end (trim_start s).

(** ** Decimal integers *)

Definition digit_val (a : ascii) : Z := byte_val a - 48.

(** The number a digit string denotes, most significant digit first. *)
Fixpoint dec_val_from (acc : Z) (s : string) : Z :=
  match s with
  | EmptyString => acc
  | String a s' => dec_val_from (acc * 10 + digit_val a) s'
  end.
Definition dec_val (s : string) : Z := dec_val_from 0 s.

(** [core::num::ParseIntError] by kind, and its [Display]. *)
Inductive ParseIntError := PieEmpty | PieInvalidDigit | PiePosOverflow | PieNegOverflow.

Definition ParseIntError_to_string (e : ParseIntError) : string :=
  match e with
  | PieEmpty => "cannot parse integer from empty string"
  | PieInvalidDigit => "invalid digit found in string"
  | PiePosOverflow => "number too large to fit in target type"
  | PieNegOverflow => "number too small to fit in target type"
  end.

(** The accumulation loop of [from_str_radix(_, 10)]: each byte is checked to
    be a digit first, then the product and the sum for overflow. *)
Fixpoint parse_loop (t : int_ty) (neg : bool) (acc : Z) (s : string)
  : result ParseIntError Z :=
  match s with
  | EmptyString => Ok acc
  | String a s' =>
      if is_ascii_digit a then
        let acc' := if neg then acc * 10 - digit_val a else acc * 10 + digit_val a in
        if in_rangeb t acc' then parse_loop t neg acc' s'
        else Err (if neg then PieNegOverflow else PiePosOverflow)
      else Err PieInvalidDigit
  end.

(** [<int>::from_str]: an optional sign ([-] only on a signed type), then at
    least one digit. *)
Definition parse_int (t : int_ty) (s : string) : result ParseIntError Z :=
  match s with
  | EmptyString => Err PieEmpty
  | String c rest =>
      if bool_decide (c = "+"%char) then
        if is_empty rest then Err PieInvalidDigit else parse_loop t false 0 rest
      else if bool_decide (c = "-"%char) then
        if is_empty rest then Err PieInvalidDigit
        else if lo t <? 0 then parse_loop t true 0 rest
        else Err PieInvalidDigit
      else parse_loop t false 0 s
  end.

(** [Display] of an integer, and zero padding ([{:07}]). *)
Definition show_Z (z : Z) : string := pretty z.
Definition show_nat (n : nat) : string := pretty n.

Fixpoint zeros (n : nat) : string :=
  match n with O => EmptyString | S k => String "0"%char (zeros k) end.
Definition pad_left0 (w : nat) (s : string) : string := zeros (w - String.length s) +:+ s.
Definition pad_right0 (w : nat) (s : string) : string := s +:+ zeros (w - String.length s).

(** ** Lemmas *)

#[local] Arguments String.append !_ _ /.

Lemma str_app_cons a s t : String a s +:+ t = String a (s +:+ t).
Proof. reflexivity. Qed.

Lemma str_app_nil_r s : s +:+ EmptyString = s.
Proof. induction s as [|a s IH]; simpl; congruence. Qed.

Lemma str_app_assoc s1 s2 s3 : s1 +:+ (s2 +:+ s3) = (s1 +:+ s2) +:+ s3.
Proof. induction s1 as [|a s1 IH]; simpl; congruence. Qed.

Lemma str_length_app s1 s2 :
  String.length (s1 +:+ s2) = (String.length s1 + String.length s2)%nat.
Proof. induction s1; simpl; congruence. Qed.

Lemma str_all_app f s1 s2 : str_all f (s1 +:+ s2) = str_all f s1 && str_all f s2.
Proof. induction s1 as [|a s1 IH]; simpl; [done|]. by rewrite IH, andb_assoc. Qed.

Lemma str_all_impl (f g : ascii -> bool) s :
  (forall a, f a = true -> g a = true) -> str_all f s = true -> str_all g s = true.
Proof.
  intros H. induction s as [|a s IH]; simpl; [done|].
  rewrite !andb_true_iff. naive_solver.
Qed.

Lemma dec_val_from_app acc s1 s2 :
  dec_val_from acc (s1 +:+ s2) = dec_val_from (dec_val_from acc s1) s2.
Proof. revert acc. induction s1 as [|a s1 IH]; intros acc; simpl; [done|]. apply IH. Qed.

Lemma zeros_length n : String.length (zeros n) = n.
Proof. induction n; simpl; congruence. Qed.

Lemma zeros_digits n : str_all is_ascii_digit (zeros n) = true.
Proof. induction n; simpl; auto. Qed.

Lemma dec_val_zeros acc n : dec_val_from acc (zeros n) = acc * 10 ^ Z.of_nat n.
Proof.
  revert acc. induction n as [|n IH]; intros acc; [simpl; lia|].
  change (dec_val_from (acc * 10 + 0) (zeros n) = acc * 10 ^ Z.of_nat (S n)).
  rewrite IH, Nat2Z.inj_succ, Z.pow_succ_r; lia.
Qed.

Lemma is_ascii_digit_spec a : is_ascii_digit a = true <-> 0 <= digit_val a <= 9.
Proof. unfold is_ascii_digit, byte_in, digit_val. rewrite andb_true_iff, !Z.leb_le. lia. Qed.

Lemma dec_val_from_mono acc s :
  0 <= acc -> str_all is_ascii_digit s = true -> acc <= dec_val_from acc s.
Proof.
  revert acc. induction s as [|a s IH]; intros acc Hacc; simpl; [lia|].
  rewrite andb_true_iff, is_ascii_digit_spec. intros [Ha Hs].
  specialize (IH (acc * 10 + digit_val a) ltac:(lia) Hs). lia.
Qed.

Lemma dec_val_nonneg s : str_all is_ascii_digit s = true -> 0 <= dec_val s.
Proof. intros. by apply (dec_val_from_mono 0 s). Qed.

(** The value of a digit string is below the power of ten of its length. *)
Lemma dec_val_from_bound acc s :
  0 <= acc -> str_all is_ascii_digit s = true ->
  dec_val_from acc s < (acc + 1) * 10 ^ Z.of_nat (String.length s).
Proof.
  revert acc. induction s as [|a s IH]; intros acc Hacc; simpl; [lia|].
  rewrite andb_true_iff, is_ascii_digit_spec. intros [Ha Hs].
  specialize (IH (acc * 10 + digit_val a) ltac:(lia) Hs).
  rewrite Nat2Z.inj_succ, Z.pow_succ_r by lia. nia.
Qed.

Lemma dec_val_from_split acc s :
  dec_val_from acc s = acc * 10 ^ Z.of_nat (String.length s) + dec_val s.
Proof.
  unfold dec_val. revert acc. induction s as [|a s IH]; intros acc; [simpl; lia|].
  change (dec_val_from (acc * 10 + digit_val a) s =
    acc * 10 ^ Z.of_nat (S (String.length s)) + dec_val_from (0 * 10 + digit_val a) s).
  rewrite IH, (IH (0 * 10 + _)), Nat2Z.inj_succ, Z.pow_succ_r; lia.
Qed.

(** *** Printing *)

Lemma pretty_N_char_digit x :
  (x < 10)%N ->
  is_ascii_digit (pretty_N_char x) = true /\ digit_val (pretty_N_char x) = Z.of_N x.
Proof.
  intros H. assert (Hx : (x = 0 \/ x = 1 \/ x = 2 \/ x = 3 \/ x = 4 \/ x = 5 \/ x = 6
    \/ x = 7 \/ x = 8 \/ x = 9)%N) by lia.
  destruct_or! Hx; subst; done.
Qed.

Lemma pretty_N_go_spec x s :
  exists p, pretty_N_go x s = p +:+ s /\ str_all is_ascii_digit p = true /\
    dec_val p = Z.of_N x /\ (x ≠ 0%N -> p ≠ EmptyString).
Proof.
  revert s. induction (N.lt_wf_0 x) as [x _ IH]; intros s.
  destruct (decide (x = 0)%N) as [->|Hx].
  - exists EmptyString. by rewrite pretty_N_go_0.
  - rewrite pretty_N_go_step by lia.
    pose proof (N.div_lt x 10 ltac:(lia) ltac:(lia)) as Hlt.
    pose proof (N.mod_lt x 10 ltac:(lia)) as Hm.
    destruct (pretty_N_char_digit _ Hm) as [Hd Hv].
    destruct (IH _ Hlt (String (pretty_N_char (x `mod` 10)) s)) as (p & -> & Hp & Hpv & _).
    exists (p +:+ String (pretty_N_char (x `mod` 10)) EmptyString). split_and!.
    + by rewrite <-str_app_assoc.
    + rewrite str_all_app, Hp. simpl. by rewrite Hd.
    + unfold dec_val in *. rewrite dec_val_from_app, Hpv. simpl. rewrite Hv.
      pose proof (N.div_mod x 10 ltac:(lia)). lia.
    + by destruct p.
Qed.

Lemma pretty_N_digits (n : N) :
  str_all is_ascii_digit (pretty n) = true /\ dec_val (pretty n) = Z.of_N n /\
  is_empty (pretty n) = false.
Proof.
  unfold pretty, pretty_N. case_decide as Hn; [by subst|].
  destruct (pretty_N_go_spec n EmptyString) as (p & -> & ? & ? & Hne).
  rewrite str_app_nil_r. split_and!; try done. destruct p; [by destruct Hne|done].
Qed.

Lemma show_Z_nonneg z : 0 <= z -> show_Z z = pretty (Z.to_N z).
Proof. by destruct z. Qed.

Lemma show_Z_neg z : z < 0 -> show_Z z = String "-" (pretty (Z.to_N (- z))).
Proof. by destruct z. Qed.

Lemma show_nonneg_digits z :
  0 <= z ->
  str_all is_ascii_digit (show_Z z) = true /\ dec_val (show_Z z) = z /\
  is_empty (show_Z z) = false.
Proof.
  intros Hz. rewrite show_Z_nonneg by done.
  destruct (pretty_N_digits (Z.to_N z)) as (? & -> & ?). split_and!; [done|lia|done].
Qed.

(** *** Parsing *)

Lemma parse_loop_pos t acc s :
  lo t <= 0 -> 0 <= acc -> str_all is_ascii_digit s = true ->
  parse_loop t false acc s =
    if bool_decide (s = EmptyString) || (dec_val_from acc s <=? hi t)
    then Ok (dec_val_from acc s) else Err PiePosOverflow.
Proof.
  intros Hlo. revert acc. induction s as [|a s IH]; intros acc Hacc; [done|].
  cbn [str_all parse_loop dec_val_from]. rewrite andb_true_iff. intros [Ha Hs].
  rewrite Ha. apply is_ascii_digit_spec in Ha.
  rewrite bool_decide_false by done. cbn [orb].
  pose proof (dec_val_from_mono (acc * 10 + digit_val a) s ltac:(lia) Hs).
  destruct (in_rangeb t _) eqn:Hr.
  - apply in_rangeb_spec in Hr. unfold in_range in Hr. rewrite IH by (done || lia).
    destruct s as [|b s]; [|done]. cbn. by rewrite (proj2 (Z.leb_le _ _)) by lia.
  - unfold in_rangeb in Hr. apply andb_false_iff in Hr. rewrite !Z.leb_gt in Hr.
    by rewrite (proj2 (Z.leb_gt _ _)) by lia.
Qed.

Lemma parse_loop_neg t acc s :
  0 <= hi t -> acc <= 0 -> str_all is_ascii_digit s = true ->
  parse_loop t true acc s =
    if bool_decide (s = EmptyString) || (lo t <=? - dec_val_from (- acc) s)
    then Ok (- dec_val_from (- acc) s) else Err PieNegOverflow.
Proof.
  intros Hhi. revert acc. induction s as [|a s IH]; intros acc Hacc.
  { intros _. cbn. by rewrite Z.opp_involutive. }
  cbn [str_all parse_loop dec_val_from]. rewrite andb_true_iff. intros [Ha Hs].
  rewrite Ha. apply is_ascii_digit_spec in Ha.
  rewrite bool_decide_false by done. cbn [orb].
  replace (- acc * 10 + digit_val a) with (- (acc * 10 - digit_val a)) by lia.
  pose proof (dec_val_from_mono (- (acc * 10 - digit_val a)) s ltac:(lia) Hs).
  destruct (in_rangeb t _) eqn:Hr.
  - apply in_rangeb_spec in Hr. unfold in_range in Hr. rewrite IH by (done || lia).
    destruct s as [|b s]; [|done]. cbn. by rewrite (proj2 (Z.leb_le _ _)) by lia.
  - unfold in_rangeb in Hr. apply andb_false_iff in Hr. rewrite !Z.leb_gt in Hr.
    by rewrite (proj2 (Z.leb_gt _ _)) by lia.
Qed.

(** Every integer of the type parses back from its decimal form. *)
Lemma parse_int_show t z : lo t <= 0 <= hi t -> in_range t z -> parse_int t (show_Z z) = Ok z.
Proof.
  intros Ht Hz. unfold in_range in Hz. destruct (decide (0 <= z)) as [Hp|Hn].
  - destruct (show_nonneg_digits z Hp) as (Hd & Hv & Hne).
    destruct (show_Z z) as [|c r] eqn:E; [done|]. cbn [str_all] in Hd.
    pose proof Hd as Hd'. apply andb_true_iff in Hd as [Hc _].
    unfold parse_int. rewrite !bool_decide_false by (intros ->; discriminate Hc).
    rewrite parse_loop_pos by (done || lia). unfold dec_val in Hv. rewrite Hv.
    cbn. by rewrite (proj2 (Z.leb_le _ _)) by lia.
  - rewrite show_Z_neg by lia.
    destruct (pretty_N_digits (Z.to_N (- z))) as (Hd & Hv & Hne).
    unfold parse_int. rewrite bool_decide_false, bool_decide_true by done. rewrite Hne.
    rewrite (proj2 (Z.ltb_lt _ _)) by lia. rewrite parse_loop_neg by (done || lia).
    unfold dec_val in Hv. change (- 0) with 0. rewrite Hv.
    destruct (pretty (Z.to_N (- z))); [done|]. cbn.
    rewrite (proj2 (Z.leb_le _ _)) by lia. f_equal. lia.
Qed.

Lemma parse_loop_in_range t neg acc s z :
  in_range t acc -> parse_loop t neg acc s = Ok z -> in_range t z.
Proof.
  revert acc. induction s as [|a s IH]; intros acc Hacc; cbn [parse_loop]; [by intros [= <-]|].
  destruct (is_ascii_digit a); [|done].
  destruct (in_rangeb t _) eqn:Hr; [|by destruct neg].
  apply IH. by apply in_rangeb_spec.
Qed.

(** A parsed integer is in the range of its type. *)
Lemma parse_int_in_range t s z : lo t <= 0 <= hi t -> parse_int t s = Ok z -> in_range t z.
Proof.
  intros Ht. assert (H0 : in_range t 0) by (unfold in_range; lia).
  unfold parse_int. destruct s as [|c r]; [done|]. repeat case_match; intros; try done;
    by eapply parse_loop_in_range.
Qed.

(** *** Trimming *)

(** A byte below 0x80 that is not ASCII white space. *)
Definition plain (a : ascii) : bool := negb (ws1 a) && (byte_val a <? 128).

Lemma plain_ws2 a b : plain a = true -> ws2 a b = false /\ ws2 b a = false.
Proof.
  unfold plain, ws2. rewrite andb_true_iff, Z.ltb_lt. intros [_ H].
  split; apply not_true_iff_false; rewrite andb_true_iff, orb_true_iff, !Z.eqb_eq; lia.
Qed.

Lemma ws3_high a b c : ws3 a b c = true -> 128 <= byte_val a /\ 128 <= byte_val c.
Proof.
  unfold ws3. cbv zeta.
  rewrite !orb_true_iff, !andb_true_iff, !orb_true_iff, !andb_true_iff, !Z.leb_le, !Z.eqb_eq.
  lia.
Qed.

Lemma plain_ws3 a b c : plain a = true -> ws3 a b c = false /\ ws3 c b a = false.
Proof.
  unfold plain. rewrite andb_true_iff, Z.ltb_lt. intros [_ H].
  split; apply not_true_iff_false; intros ?%ws3_high; lia.
Qed.

Lemma trim_with_plain w2 w3 a s :
  plain a = true -> (forall b, w2 a b = false) -> (forall b c, w3 a b c = false) ->
  trim_with w2 w3 (String a s) = String a s.
Proof.
  intros Ha H2 H3. cbn [trim_with].
  assert (ws1 a = false) as ->.
  { unfold plain in Ha. by destruct (ws1 a). }
  destruct s as [|b [|c s]]; rewrite ?H2; [done|done|by rewrite H3].
Qed.

Lemma rev_app_app s1 s2 s3 :
  String.rev_app s1 (s2 +:+ s3) = String.rev_app s1 s2 +:+ s3.
Proof. revert s2. induction s1 as [|a s1 IH]; intros s2; [done|]. apply (IH (String a s2)). Qed.

Lemma str_rev_app s1 s2 : str_rev (s1 +:+ s2) = str_rev s2 +:+ str_rev s1.
Proof.
  assert (H : forall t, String.rev_app (s1 +:+ s2) t = String.rev_app s2 (String.rev_app s1 t)).
  { induction s1 as [|a s1 IH]; intros t; simpl; [done|apply IH]. }
  unfold str_rev, String.rev. rewrite H. apply (rev_app_app s2 EmptyString).
Qed.

Lemma str_all_rev f s : str_all f (str_rev s) = str_all f s.
Proof.
  induction s as [|a s IH]; [done|]. change (String a s) with (String a EmptyString +:+ s).
  rewrite str_rev_app, !str_all_app, IH. cbn. by rewrite andb_true_r, andb_comm.
Qed.

Lemma substring_prefix s t : String.substring 0 (String.length s) (s +:+ t) = s.
Proof.
  induction s as [|a s IH]; [by destruct t|]. rewrite str_app_cons. cbn [String.length String.substring].
  by rewrite IH.
Qed.

Lemma str_rev_involutive s : str_rev (str_rev s) = s.
Proof.
  induction s as [|a s IH]; [done|].
  change (String a s) with (String a EmptyString +:+ s).
  by rewrite !str_rev_app, IH.
Qed.

(** [trim] is the identity on a string that starts and ends with a plain byte. *)
Lemma trim_plain a s b t :
  plain a = true -> plain b = true ->
  String a s = t +:+ String b EmptyString -> trim (String a s) = String a s.
Proof.
  intros Ha Hb Heq. unfold trim, trim_start, trim_end.
  rewrite trim_with_plain;
    [|done|intros; by destruct (plain_ws2 a b0 Ha)|intros; by destruct (plain_ws3 a b0 c Ha)].
  rewrite Heq, str_rev_app. cbn [str_rev String.rev String.rev_app].
  change (str_rev (String b EmptyString)) with (String b EmptyString). cbn [String.append].
  rewrite trim_with_plain;
    [|done|intros; by destruct (plain_ws2 b b0 Hb)|intros; by destruct (plain_ws3 b b0 c Hb)].
  change (String b (str_rev t)) with (String b EmptyString +:+ str_rev t).
  by rewrite str_rev_app, str_rev_involutive.
Qed.

(** *** Splitting *)

Lemma split_once_Some c s l r : split_once c s = Some (l, r) -> s = l +:+ String c r.
Proof.
  revert l r. induction s as [|a s IH]; intros l r; cbn [split_once]; [done|].
  case_bool_decide as Hc; [intros [= <- <-]; by subst|].
  destruct (split_once c s) as [[l' r']|] eqn:E; [|done]. intros [= <- <-].
  cbn. by rewrite (IH _ _ eq_refl).
Qed.

Lemma split_once_first c s l r : split_once c s = Some (l, r) -> contains c l = false.
Proof.
  unfold contains. rewrite negb_false_iff.
  revert l r. induction s as [|a s IH]; intros l r; cbn [split_once]; [done|].
  case_bool_decide as Hc; [by intros [= <- <-]|].
  destruct (split_once c s) as [[l' r']|] eqn:E; [|done]. intros [= <- <-].
  cbn. rewrite bool_decide_false by done. by rewrite (IH _ _ eq_refl).
Qed.

Lemma contains_false c s :
  contains c s = false <-> str_all (fun a => negb (bool_decide (a = c))) s = true.
Proof. unfold contains. by rewrite negb_false_iff. Qed.

Lemma split_once_app c l r :
  contains c l = false -> split_once c (l +:+ String c r) = Some (l, r).
Proof.
  rewrite contains_false. induction l as [|a l IH]; cbn; [by rewrite bool_decide_true|].
  rewrite andb_true_iff, negb_true_iff. intros [-> H]. by rewrite (IH H).
Qed.

Lemma split_once_None c s : split_once c s = None <-> contains c s = false.
Proof.
  rewrite contains_false. induction s as [|a s IH]; cbn; [done|].
  case_bool_decide; [done|]. cbn. rewrite <-IH.
  destruct (split_once c s) as [[]|]; naive_solver.
Qed.

Lemma digits_no_char c s :
  is_ascii_digit c = false -> str_all is_ascii_digit s = true -> contains c s = false.
Proof.
  intros Hc Hs. apply contains_false. eapply str_all_impl; [|exact Hs].
  intros a Ha. apply negb_true_iff, bool_decide_false. congruence.
Qed.

(** A string whose first byte is a digit has no sign. *)
Lemma digits_no_sign s c :
  str_all is_ascii_digit s = true -> is_ascii_digit c = false -> strip_char c s = None.
Proof.
  destruct s as [|a s]; cbn; [done|]. rewrite andb_true_iff. intros [Ha _] Hc.
  rewrite bool_decide_false; [done|congruence].
Qed.

Definition no_ws (s : string) : bool := str_all (fun a => negb (is_ascii_whitespace a)) s.

Lemma split_ws_go_no_ws s : no_ws s = true -> split_ws_go s = [s].
Proof.
  unfold no_ws. induction s as [|a s IH]; cbn; [done|].
  rewrite andb_true_iff, negb_true_iff. intros [-> H]. by rewrite (IH H).
Qed.

Lemma split_ws_go_app s c t :
  no_ws s = true -> is_ascii_whitespace c = true ->
  split_ws_go (s +:+ String c t) = s :: split_ws_go t.
Proof.
  intros Hs Hc. revert Hs. unfold no_ws. induction s as [|a s IH]; cbn; [by rewrite Hc|].
  rewrite andb_true_iff, negb_true_iff. intros [-> H]. by rewrite (IH H).
Qed.

(** Two words separated by one space. *)
Lemma split_ascii_whitespace_two s t :
  no_ws s = true -> no_ws t = true -> is_empty s = false -> is_empty t = false ->
  split_ascii_whitespace (s +:+ String " " t) = [s; t].
Proof.
  intros Hs Ht Hs' Ht'. unfold split_ascii_whitespace.
  rewrite split_ws_go_app, (split_ws_go_no_ws t) by done.
  by rewrite !filter_cons_True by done.
Qed.

(** *** Length of a printed number *)

Lemma pretty_go_length x s k :
  (x < 10 ^ N.of_nat k)%N -> (String.length (pretty_N_go x s) <= k + String.length s)%nat.
Proof.
  revert x s. induction k as [|k IH]; intros x s Hx.
  - assert (x = 0%N) as -> by (cbn in Hx; lia). by rewrite pretty_N_go_0.
  - destruct (decide (x = 0%N)) as [->|Hne]; [rewrite pretty_N_go_0; lia|].
    rewrite pretty_N_go_step by lia. etrans; [apply IH|cbn; lia].
    apply N.Div0.div_lt_upper_bound. rewrite Nat2N.inj_succ, N.pow_succ_r' in Hx. lia.
Qed.

Lemma show_length z k :
  0 <= z < 10 ^ Z.of_nat k -> (0 < k)%nat -> (String.length (show_Z z) <= k)%nat.
Proof.
  intros Hz Hk. rewrite show_Z_nonneg by lia. unfold pretty, pretty_N.
  case_decide; [cbn; lia|].
  etrans; [apply pretty_go_length with (k := k)|cbn; lia].
  apply N2Z.inj_lt. rewrite N2Z.inj_pow, nat_N_Z, Z2N.id by lia. simpl. lia.
Qed.

Lemma is_ascii_digit_plain a : is_ascii_digit a = true -> plain a = true.
Proof.
  rewrite is_ascii_digit_spec. unfold digit_val, plain, ws1, byte_in. intros Ha.
  rewrite andb_true_iff, negb_true_iff, orb_false_iff, andb_false_iff, Z.ltb_lt, Z.eqb_neq,
    !Z.leb_gt. lia.
Qed.

Lemma str_last s : is_empty s = false -> exists t b, s = t +:+ String b EmptyString.
Proof.
  induction s as [|a s IH]; [done|]. intros _. destruct s as [|a' s].
  - by exists EmptyString, a.
  - destruct (IH eq_refl) as (t & b & ->). by exists (String a t), b.
Qed.

(** [trim] is the identity on a string of plain bytes. *)
Lemma trim_bytes s : str_all plain s = true -> is_empty s = false -> trim s = s.
Proof.
  intros Hs Hne. destruct (str_last s Hne) as (t & b & Heq). destruct s as [|a s]; [done|].
  assert (Hb : plain b = true).
  { rewrite Heq, str_all_app in Hs. apply andb_true_iff in Hs as [_ Hs]. cbn in Hs.
    by destruct (plain b). }
  cbn in Hs. apply andb_true_iff in Hs as [Ha _]. by eapply trim_plain.
Qed.

Lemma lowercase_app s1 s2 :
  to_ascii_lowercase (s1 +:+ s2) = to_ascii_lowercase s1 +:+ to_ascii_lowercase s2.
Proof. unfold to_ascii_lowercase. induction s1 as [|a s1 IH]; simpl; congruence. Qed.

(** ** Characters, lines and radix 16 *)

(** A byte that continues a UTF-8 sequence. *)
Definition is_continuation (a : ascii) : bool := byte_in 128 191 a.

(** [s.chars().count()] *)
Fixpoint chars_count (s : string) : Z :=
  match s with
  | EmptyString => 0
  | String a s' => (if is_continuation a then 0 else 1) + chars_count s'
  end.

Definition ends_with (c : ascii) (s : string) : bool := starts_with c (str_rev s).

Definition newline : ascii := "010".
Definition carriage_return : ascii := "013".

(** [line.strip_suffix(CR).unwrap_or(line)] *)
Definition strip_cr (s : string) : string :=
  match strip_char carriage_return (str_rev s) with Some r => str_rev r | None => s end.

(** [str::lines]: a line ends in LF or CR LF; an unterminated last line counts
    unless it is empty. *)
Fixpoint lines_of (pieces : list string) : list string :=
  match pieces with
  | [] => []
  | [p] => if is_empty p then [] else [p]
  | p :: ps => strip_cr p :: lines_of ps
  end.
Definition lines (s : string) : list string := lines_of (split newline s).

Definition hex_digit (a : ascii) : option Z :=
  if is_ascii_digit a then Some (byte_val a - 48)
  else if byte_in 97 102 a then Some (byte_val a - 87)
  else if byte_in 65 70 a then Some (byte_val a - 55)
  else None.

Fixpoint radix16_loop (acc : Z) (s : string) : option Z :=
  match s with
  | EmptyString => Some acc
  | String a s' => d ← hex_digit a; acc' ← checked u8 (acc * 16 + d); radix16_loop acc' s'
  end.

(** [u8::from_str_radix(s, 16).ok()]: an unsigned type accepts a leading plus. *)
Definition u8_from_hex (s : string) : option Z :=
  match s with
  | EmptyString => None
  | String a EmptyString => radix16_loop 0 s
  | String a s' => if bool_decide (a = "+"%char) then radix16_loop 0 s' else radix16_loop 0 s
  end.

(** ** Slices and debug text *)

(** A byte index is a character boundary when it is an end of the text or does
    not point into a multi-byte character. *)
Definition is_char_boundary (s : string) (i : nat) : bool :=
  match String.get i s with
  | Some a => negb (is_continuation a) || (i =? 0)%nat
  | None => (i =? String.length s)%nat
  end.

(** [str::get(a..b)]: [None] outside the text or inside a character. *)
Definition str_get (s : string) (a b : nat) : option string :=
  if (a <=? b)%nat && is_char_boundary s a && is_char_boundary s b
  then Some (String.substring a (b - a) s) else None.

Definition str_tail (s : string) : string :=
  match s with EmptyString => EmptyString | String _ s' => s' end.

Definition is_ascii_graphic (a : ascii) : bool := byte_in 33 126 a.

Definition double_quote : string := String "034" EmptyString.

(** The spelling of a character of a text in a message ([escape_debug]) is left
    open; [{s:?}] puts it between double quotes. *)
Class EscapeDebug := { escape_debug : string -> string }.

Definition debug_str `{!EscapeDebug} (s : string) : string :=
  double_quote +:+ escape_debug s +:+ double_quote.

(** [str::contains] of a text. *)
Fixpoint contains_str (p s : string) : bool :=
  starts_with_str p s || match s with EmptyString => false | String _ s' => contains_str p s' end.

(** [str::from_utf8]: the well-formed byte sequences of the Unicode standard. *)
Fixpoint utf8_valid (s : string) : bool :=
  match s with
  | EmptyString => true
  | String a r =>
      if byte_val a <=? 0x7F then utf8_valid r
      else match r with
           | EmptyString => false
           | String b r1 =>
               if byte_in 0xC2 0xDF a then is_continuation b && utf8_valid r1
               else match r1 with
                    | EmptyString => false
                    | String c r2 =>
                        let x := byte_val a in
                        if byte_in 0xE0 0xEF a
                        then byte_in (if x =? 0xE0 then 0xA0 else 0x80) (if x =? 0xED then 0x9F else 0xBF) b
                             && is_continuation c && utf8_valid r2
                        else match r2 with
                             | EmptyString => false
                             | String d r3 =>
                                 byte_in 0xF0 0xF4 a
                                 && byte_in (if x =? 0xF0 then 0x90 else 0x80)
                                      (if x =? 0xF4 then 0x8F else 0xBF) b
                                 && is_continuation c && is_continuation d && utf8_valid r3
                             end
                    end
           end
  end.

(** [Vec::sort] of strings: by bytes. *)
Fixpoint sort_insert (x : string) (l : list string) : list string :=
  match l with
  | [] => [x]
  | y :: l' => if String.leb x y then x :: l else y :: sort_insert x l'
  end.
Definition sort_strings (l : list string) : list string := foldr sort_insert [] l.

Lemma sort_insert_elem x y l : x ∈ sort_insert y l <-> x = y \/ x ∈ l.
Proof.
  induction l as [|z l IH]; simpl; [set_solver|]. destruct (String.leb y z); [set_solver|].
  rewrite !elem_of_cons, IH. naive_solver.
Qed.

Lemma sort_strings_elem x l : x ∈ sort_strings l <-> x ∈ l.
Proof. induction l as [|y l IH]; [done|]. simpl. rewrite sort_insert_elem, IH. set_solver. Qed.

(** *** Splitting *)

Lemma split_no_char c s : contains c s = false -> split c s = [s].
Proof.
  rewrite contains_false. induction s as [|a s IH]; cbn; [done|].
  rewrite andb_true_iff, negb_true_iff. intros [-> H]. by rewrite (IH H).
Qed.

Lemma split_at_char c l r : contains c l = false -> split c (l +:+ String c r) = l :: split c r.
Proof.
  rewrite contains_false. induction l as [|a l IH]; cbn; [by rewrite bool_decide_true|].
  rewrite andb_true_iff, negb_true_iff. intros [-> H]. by rewrite (IH H).
Qed.

Lemma split_inv c s w ws :
  split c s = w :: ws ->
  contains c w = false /\ match ws with [] => s = w | _ => exists r, s = w +:+ String c r /\ split c r = ws end.
Proof.
  revert w ws. induction s as [|a s IH]; intros w ws; cbn; [by intros [= <- <-]|].
  destruct (bool_decide (a = c)) eqn:Ea.
  - apply bool_decide_eq_true in Ea as ->. intros [= <- <-]. split; [done|].
    destruct (split c s) eqn:Es; [|by exists s].
    destruct s as [|b s]; [done|]. cbn in Es. destruct (bool_decide _); [done|]. by destruct (split c s).
  - destruct (split c s) as [|w' ws'] eqn:Es.
    { destruct s as [|b s]; [done|]. cbn in Es. destruct (bool_decide _); [done|]. by destruct (split c s). }
    intros [= <- <-]. destruct (IH _ _ eq_refl) as [Hc Hr]. split.
    + unfold contains in *. cbn. by rewrite Ea.
    + destruct ws'; [by subst|]. destruct Hr as (r & -> & Hr). by exists r.
Qed.

(** *** Decimal numerals without leading zeros *)

Definition canonical_decimal (s : string) : bool :=
  negb (is_empty s) && str_all is_ascii_digit s && negb ((1 <? len s) && starts_with "0" s).

Lemma dec_val_inj s t :
  str_all is_ascii_digit s = true -> str_all is_ascii_digit t = true ->
  String.length s = String.length t -> dec_val s = dec_val t -> s = t.
Proof.
  revert t. induction s as [|a s IH]; intros [|b t]; try done. cbn [str_all String.length].
  rewrite !andb_true_iff, !is_ascii_digit_spec. intros [Ha Hs] [Hb Ht] [= Hl].
  unfold dec_val. cbn [dec_val_from]. rewrite !(dec_val_from_split (_ + _)), <- Hl.
  pose proof (dec_val_nonneg s Hs). pose proof (dec_val_nonneg t Ht).
  pose proof (dec_val_from_bound 0 s ltac:(lia) Hs) as Bs.
  pose proof (dec_val_from_bound 0 t ltac:(lia) Ht) as Bt. rewrite <- Hl in Bt.
  fold (dec_val s) in Bs. fold (dec_val t) in Bt. intros HH.
  assert (digit_val a = digit_val b) by (clear -HH Bs Bt H H0 Ha Hb; nia). f_equal; [|apply IH; nia || done].
  unfold digit_val, byte_val in *.
  rewrite <- (Ascii.ascii_N_embedding a), <- (Ascii.ascii_N_embedding b). f_equal. lia.
Qed.

(** The value tells the length. *)
Lemma canonical_decimal_bound s :
  canonical_decimal s = true ->
  (1 < String.length s)%nat -> 10 ^ Z.of_nat (String.length s - 1) <= dec_val s.
Proof.
  unfold canonical_decimal, len. rewrite !andb_true_iff. intros [[_ Hd] H0] Hl.
  destruct s as [|a s]; [cbn in Hl; lia|]. replace (1 <? _) with true in H0 by lia.
  apply negb_true_iff, bool_decide_eq_false in H0. cbn [str_all] in Hd.
  apply andb_true_iff in Hd as [Ha Hd]. apply is_ascii_digit_spec in Ha.
  unfold dec_val. cbn [dec_val_from]. rewrite dec_val_from_split. cbn [String.length].
  replace (S (String.length s) - 1)%nat with (String.length s) by lia.
  pose proof (dec_val_nonneg s Hd). enough (1 <= digit_val a) by nia.
  destruct (decide (digit_val a = 0)) as [Hz|]; [|lia]. destruct H0.
  unfold digit_val, byte_val in Hz. rewrite <- (Ascii.ascii_N_embedding a).
  by replace (Ascii.N_of_ascii a) with 48%N by lia.
Qed.

Lemma canonical_decimal_unique s t :
  canonical_decimal s = true -> canonical_decimal t = true -> dec_val s = dec_val t -> s = t.
Proof.
  intros Hs Ht H. pose proof (canonical_decimal_bound s Hs) as Bs.
  pose proof (canonical_decimal_bound t Ht) as Bt.
  unfold canonical_decimal in Hs, Ht. rewrite !andb_true_iff in Hs, Ht.
  destruct Hs as [[Es Ds] _], Ht as [[Et Dt] _].
  pose proof (dec_val_from_bound 0 s ltac:(lia) Ds) as Us.
  pose proof (dec_val_from_bound 0 t ltac:(lia) Dt) as Ut.
  fold (dec_val s) in Us. fold (dec_val t) in Ut.
  apply dec_val_inj; try done.
  assert (forall x y, dec_val x < (0 + 1) * 10 ^ Z.of_nat (String.length x) ->
    ((1 < String.length y)%nat -> 10 ^ Z.of_nat (String.length y - 1) <= dec_val y) ->
    is_empty x = false -> dec_val x = dec_val y -> (String.length y <= String.length x)%nat) as Hle.
  { intros x y Hx Hy Hne Hv. destruct (decide (1 < String.length y)%nat) as [H1|H1].
    - specialize (Hy H1). destruct (decide (String.length y <= String.length x)%nat); [done|].
      assert (10 ^ Z.of_nat (String.length x) <= 10 ^ Z.of_nat (String.length y - 1))
        by (apply Z.pow_le_mono_r; lia). lia.
    - destruct x; [done|]. cbn. lia. }
  apply negb_true_iff in Es, Et.
  pose proof (Hle s t Us Bt Es H). pose proof (Hle t s Ut Bs Et (eq_sym H)). lia.
Qed.

Lemma canonical_decimal_show n : 0 <= n -> canonical_decimal (show_Z n) = true.
Proof.
  intros Hn. destruct (show_nonneg_digits n Hn) as (Hd & Hv & He). unfold canonical_decimal.
  rewrite He, Hd. cbn [negb andb]. apply negb_true_iff, andb_false_iff.
  destruct (decide (1 < String.length (show_Z n))%nat) as [Hl|Hl]; [right|left; unfold len; lia].
  destruct (show_Z n) as [|a s] eqn:Es; [done|]. cbn [starts_with].
  apply bool_decide_eq_false. intros ->. cbn [str_all] in Hd. apply andb_true_iff in Hd as [_ Hd].
  pose proof (dec_val_from_bound 0 s ltac:(lia) Hd) as Hb. cbn [String.length] in Hl.
  pose proof (show_length n (String.length s)) as Hs. rewrite Es in Hs. cbn [String.length] in Hs.
  unfold dec_val in Hv. cbn [dec_val_from] in Hv. change (0 * 10 + digit_val "0") with 0 in Hv. lia.
Qed.

Lemma canonical_decimal_parse t s :
  lo t <= 0 <= hi t -> canonical_decimal s = true -> dec_val s <= hi t -> parse_int t s = Ok (dec_val s).
Proof.
  intros Ht Hs Hv. pose proof Hs as Hc. unfold canonical_decimal in Hs. rewrite !andb_true_iff in Hs.
  destruct Hs as [[_ Hd] _]. pose proof (dec_val_nonneg s Hd) as Hp.
  destruct (show_nonneg_digits _ Hp) as (_ & Hval & _).
  rewrite <- (canonical_decimal_unique (show_Z (dec_val s)) s); try done.
  - rewrite Hval. apply parse_int_show; [done|]. unfold in_range. lia.
  - by apply canonical_decimal_show.
Qed.

(** *** Text of plain bytes *)

Lemma utf8_ascii s : str_all (fun a => byte_val a <? 128) s = true -> utf8_valid s = true.
Proof.
  induction s as [|a s IH]; [done|]. cbn [str_all utf8_valid]. rewrite andb_true_iff. intros [Ha H].
  replace (byte_val a <=? 0x7F) with true by lia. by apply IH.
Qed.

(** A final newline is trimmed. *)
Lemma trim_newline s :
  str_all plain s = true -> is_empty s = false -> trim (s +:+ String newline EmptyString) = s.
Proof.
  intros Hs Hne. destruct (str_last s Hne) as (t & b & Heq).
  assert (Hb : plain b = true).
  { rewrite Heq, str_all_app in Hs. apply andb_true_iff in Hs as [_ Hs]. cbn in Hs. by destruct (plain b). }
  destruct s as [|a s]; [done|]. cbn [str_all] in Hs. apply andb_true_iff in Hs as [Ha _].
  unfold trim, trim_start, trim_end. rewrite str_app_cons, trim_with_plain;
    [|done|intros; by destruct (plain_ws2 a b0 Ha)|intros; by destruct (plain_ws3 a b0 c Ha)].
  rewrite <- str_app_cons, Heq, !str_rev_app.
  change (trim_with ?w2 ?w3 (str_rev (String newline EmptyString) +:+ ?x)) with (trim_with w2 w3 x).
  change (str_rev (String b EmptyString) +:+ str_rev t) with (String b (str_rev t)).
  rewrite trim_with_plain;
    [|done|intros; by destruct (plain_ws2 b b0 Hb)|intros; by destruct (plain_ws3 b b0 c Hb)].
  change (String b (str_rev t)) with (str_rev (String b EmptyString) +:+ str_rev t).
  by rewrite <- str_rev_app, str_rev_involutive.
Qed.

(** *** Sorting *)

Definition str_le (s t : string) : Prop := String.leb s t = true.

Lemma ascii_compare_spec a b : Ascii.compare a b = (byte_val a ?= byte_val b).
Proof. unfold Ascii.compare, byte_val. by rewrite N2Z.inj_compare. Qed.

Lemma str_le_cons a s b t :
  str_le (String a s) (String b t) <-> byte_val a < byte_val b \/ a = b /\ str_le s t.
Proof.
  unfold str_le, String.leb. cbn [String.compare]. rewrite ascii_compare_spec.
  destruct (Z.compare_spec (byte_val a) (byte_val b)) as [H|H|H].
  - assert (a = b) as ->.
    { unfold byte_val in H. apply N2Z.inj in H.
      by rewrite <- (Ascii.ascii_N_embedding a), <- (Ascii.ascii_N_embedding b), H. }
    split; [intros; right; done|]. intros [?|[_ ?]]; [lia|done].
  - split; [by left|done].
  - split; [done|]. intros [?|[-> _]]; lia.
Qed.

Global Instance str_le_trans : Transitive str_le.
Proof.
  intros s t u. revert t u. induction s as [|a s IH]; intros [|b t] [|c u]; try done.
  rewrite !str_le_cons. intros [?|[-> ?]] [?|[-> ?]]; [left; lia|by left|by left|right].
  split; [done|]. by eapply IH.
Qed.

Global Instance str_le_antisym : AntiSymm (=) str_le.
Proof. intros s t. apply String.leb_antisym. Qed.

Lemma sort_insert_perm x l : sort_insert x l ≡ₚ x :: l.
Proof.
  induction l as [|y l IH]; [done|]. cbn. destruct (String.leb x y); [done|]. rewrite IH. constructor.
Qed.

Lemma sort_strings_perm l : sort_strings l ≡ₚ l.
Proof. induction l as [|x l IH]; [done|]. cbn. by rewrite sort_insert_perm, IH. Qed.

Lemma sort_insert_sorted x l : StronglySorted str_le l -> StronglySorted str_le (sort_insert x l).
Proof.
  induction 1 as [|y l Hs IH Hy]; [repeat constructor|]. cbn. destruct (String.leb x y) eqn:E.
  - constructor; [by constructor|]. constructor; [done|]. eapply Forall_impl; [exact Hy|].
    intros z Hz. by transitivity y.
  - constructor; [done|]. rewrite sort_insert_perm. constructor; [|done].
    by destruct (String.leb_total x y); [congruence|].
Qed.

Lemma sort_strings_sorted l : StronglySorted str_le (sort_strings l).
Proof. induction l; [constructor|]. by apply sort_insert_sorted. Qed.

(** The sorted form is determined by the elements. *)
Lemma sort_strings_unique l k : StronglySorted str_le k -> k ≡ₚ l -> sort_strings l = k.
Proof.
  intros Hk Hp. apply (StronglySorted_unique str_le); [apply sort_strings_sorted|done|].
  by rewrite sort_strings_perm.
Qed.
