(* ===== verification/Amount.v ===== *)
(** * Amounts (stellar-agent-core, [amount.rs], [wire_stroops.rs])

    [StellarAmount] and its unit-enforcing parsers and printer, the validated
    MCP memo text and the SEP-24 anchor amount.  A stroop count is a [Z] in the
    range of [i64]; the accumulation loops keep Rust's checked [i128] and
    [u128] steps. *)

From S2P Require Import Prelude RustStr.
From stdpp Require Import options.

Local Open Scope string_scope.
Local Open Scope Z_scope.

Definition STELLAR_DECIMALS : nat := 7.
Definition STROOPS_PER_XLM : Z := 10000000.

(** The validation errors the amount and asset parsers return. *)
Inductive ValidationError :=
| AmountUnitsRequired
| AmountPrecisionExceeded (amount : string)
| AssetInvalid (input : string)
| AmountMalformed (input : string)
| AmountUnitMismatch (input expected supplied : string)
| AmountOutOfRange (amount : string).

(** The [#[error("...")]] texts. *)
Definition ValidationError_to_string (e : ValidationError) : string :=
  match e with
  | AmountUnitsRequired => "amount must specify units (e.g. '100 XLM' or '100.0000000')"
  | AmountPrecisionExceeded amount =>
      "amount '" +:+ amount +:+ "' exceeds the maximum precision of 7 decimal places"
  | AssetInvalid input => "asset '" +:+ input +:+ "' is not a valid asset descriptor"
  | AmountMalformed input => "amount '" +:+ input +:+ "' could not be parsed as a valid amount"
  | AmountUnitMismatch input expected supplied =>
      "amount '" +:+ input +:+ "' has unit '" +:+ supplied +:+ "'; expected unit '"
        +:+ expected +:+ "'"
  | AmountOutOfRange amount =>
      "amount '" +:+ amount +:+ "' is outside the representable i64 stroop range"
  end.

Record StellarAmount := from_stroops { stroops : Z }.

Definition as_stroops (a : StellarAmount) : Z := stroops a.

(** ** Digit loops *)

(** The loop of [parse_digits_to_i64] and [parse_digits_to_u64]: checked
    multiply and add in the [wide] type, then the comparison with [bound]. *)
Fixpoint digits_loop (wide : int_ty) (bound : Z) (original : string) (acc : Z) (s : string)
  : result ValidationError Z :=
  match s with
  | EmptyString => Ok acc
  | String b s' =>
      match (v ← checked wide (acc * 10); checked wide (v + digit_val b)) with
      | None => Err (AmountOutOfRange original)
      | Some acc' =>
          if bound <? acc' then Err (AmountOutOfRange original)
          else digits_loop wide bound original acc' s'
      end
  end.

Definition parse_digits_to_i64 (digits original : string) : result ValidationError Z :=
  if is_empty digits || negb (str_all is_ascii_digit digits)
  then Err (AmountMalformed original)
  else digits_loop i128 (hi i64) original 0 digits.

Definition parse_digits_to_u64 (digits original : string) : result ValidationError Z :=
  if is_empty digits || negb (str_all is_ascii_digit digits)
  then Err (AmountMalformed original)
  else digits_loop u128 (hi u64) original 0 digits.

(** ** Parsing decimals *)

Definition looks_like_bare_number (s : string) : bool :=
  if is_empty s then false
  else
    let s := default s (strip_char "-" s) in
    negb (is_empty s) && str_all (fun b => is_ascii_digit b || bool_decide (b = "."%char)) s.

(** The sign: [-] is taken off, [+] is refused. *)
Definition split_sign (numeric_str original : string) : result ValidationError (bool * string) :=
  match strip_char "-" numeric_str with
  | Some rest => Ok (true, rest)
  | None =>
      if starts_with "+" numeric_str then Err (AmountMalformed original)
      else Ok (false, numeric_str)
  end.

(** The parts on both sides of the only dot. *)
Definition split_dot (unsigned_str original : string)
  : result ValidationError (string * string) :=
  match split_once "." unsigned_str with
  | None => Ok (unsigned_str, EmptyString)
  | Some (before, after_dot) =>
      if contains "." after_dot then Err (AmountMalformed original)
      else Ok (before, after_dot)
  end.

(** The arithmetic half: pad the fraction, parse both parts, combine them with
    checked arithmetic and apply the sign. *)
Definition combine_parts (neg : bool) (ip fp original : string) : result ValidationError StellarAmount :=
  int_val ← parse_digits_to_i64 ip original;
  frac_val ← parse_digits_to_i64 (pad_right0 STELLAR_DECIMALS fp) original;
  abs_stroops ← ok_or (AmountOutOfRange original)
    (v ← checked i64 (int_val * STROOPS_PER_XLM); checked i64 (v + frac_val));
  if (neg : bool) then
    from_stroops <$> ok_or (AmountOutOfRange original) (checked i64 (- abs_stroops))
  else Ok (from_stroops abs_stroops).

Definition parse_decimal_to_stroops (numeric_str original : string)
  : result ValidationError StellarAmount :=
  if is_empty numeric_str then Err (AmountMalformed original) else
  '(negative, unsigned_str) ← split_sign numeric_str original;
  if is_empty unsigned_str then Err (AmountMalformed original) else
  '(integer_part, frac_part_raw) ← split_dot unsigned_str original;
  if negb (str_all is_ascii_digit integer_part) || negb (str_all is_ascii_digit frac_part_raw)
  then Err (AmountMalformed original) else
  if is_empty integer_part then Err (AmountMalformed original) else
  if (STELLAR_DECIMALS <? String.length frac_part_raw)%nat
  then Err (AmountPrecisionExceeded original) else
  combine_parts negative integer_part frac_part_raw original.

Definition parse_unit (input expected_unit : string) (case_insensitive : bool)
  : result ValidationError StellarAmount :=
  '(numeric_str, unit_str) ←
    match split_ascii_whitespace (trim input) with
    | [numeric; unit] => Ok (numeric, unit)
    | [numeric] =>
        if looks_like_bare_number numeric then Err AmountUnitsRequired
        else Err (AmountMalformed input)
    | _ => Err (AmountMalformed input)
    end;
  let unit_matches :=
    if case_insensitive then eq_ignore_ascii_case unit_str expected_unit
    else bool_decide (unit_str = expected_unit) in
  if negb unit_matches then Err (AmountUnitMismatch input expected_unit unit_str)
  else parse_decimal_to_stroops numeric_str input.

Definition parse_with_unit (s : string) : result ValidationError StellarAmount :=
  parse_unit s "XLM" true.

Definition parse_with_unit_for (s expected_unit : string) : result ValidationError StellarAmount :=
  parse_unit s expected_unit false.

(** [parse_stroops]: the error carries the trimmed input, the shadowed [s]. *)
Definition parse_stroops (s : string) : result ValidationError StellarAmount :=
  let s := trim s in
  if is_empty s then Err (AmountMalformed s) else
  let '(negative, digits) :=
    match strip_char "-" s with Some rest => (true, rest) | None => (false, s) end in
  if is_empty digits || negb (str_all is_ascii_digit digits) then Err (AmountMalformed s) else
  abs_val ← parse_digits_to_u64 digits s;
  if (negative : bool) then
    let min_abs := hi i64 + 1 in
    if min_abs <? abs_val then Err (AmountOutOfRange s)
    else if abs_val =? min_abs then Ok (from_stroops (lo i64))
    else Ok (from_stroops (- abs_val))
  else if hi i64 <? abs_val then Err (AmountOutOfRange s)
  else Ok (from_stroops abs_val).

(** ** Printing *)

(** [unsigned_abs] is the mathematical absolute value, a [u64]. *)
Definition format_stroops_as_xlm (stroops : Z) : string :=
  let negative := stroops <? 0 in
  let abs := Z.abs stroops in
  let whole := abs / STROOPS_PER_XLM in
  let frac := abs mod STROOPS_PER_XLM in
  if negative then "-" +:+ show_Z whole +:+ "." +:+ pad_left0 7 (show_Z frac)
  else show_Z whole +:+ "." +:+ pad_left0 7 (show_Z frac).

Definition as_xlm_decimal_string (a : StellarAmount) : string :=
  format_stroops_as_xlm (stroops a).

Definition StellarAmount_to_string (a : StellarAmount) : string :=
  format_stroops_as_xlm (stroops a) +:+ " XLM".

(** ** MCP memo text *)

Definition MCP_MEMO_TEXT_MAX_BYTES : nat := 28.

Inductive McpMemoTextArgumentError := MemoTooLong (max actual : nat).

Record McpMemoTextArgument := MkMemo { memo_text : string }.

Definition McpMemoTextArgument_new (value : string)
  : result McpMemoTextArgumentError McpMemoTextArgument :=
  let actual := String.length value in
  if (MCP_MEMO_TEXT_MAX_BYTES <? actual)%nat
  then Err (MemoTooLong MCP_MEMO_TEXT_MAX_BYTES actual)
  else Ok (MkMemo value).

(** ** Anchor amounts *)

Definition ANCHOR_AMOUNT_MAX_LEN : nat := 40.
Definition ANCHOR_AMOUNT_MAX_DECIMAL_PLACES : nat := 18.

Inductive AnchorAmountError :=
| AnchorEmpty
| AnchorLeadingSign
| AnchorScientificNotation
| AnchorInvalidChar (ch : string)
| AnchorMultipleDots
| AnchorLeadingDot
| AnchorTrailingDot
| AnchorZero
| AnchorTooLong (max actual : nat)
| AnchorTooManyDecimals (max actual : nat).

(** The UTF-8 bytes of the first character of a string. *)
Definition first_char (s : string) : string :=
  match s with
  | EmptyString => EmptyString
  | String a _ =>
      let n := byte_val a in
      let width := if n <? 0x80 then 1%nat else if n <? 0xE0 then 2%nat
                   else if n <? 0xF0 then 3%nat else 4%nat in
      String.substring 0 width s
  end.

(** The character scan: the dot count and whether the last character was a dot.
    Every accepted character is one byte, so the scan moves by bytes up to the
    first refused character. *)
Fixpoint anchor_scan (dot_count : nat) (last_is_dot : bool) (s : string)
  : result AnchorAmountError (nat * bool) :=
  match s with
  | EmptyString => Ok (dot_count, last_is_dot)
  | String ch s' =>
      if bool_decide (ch = "e"%char) || bool_decide (ch = "E"%char)
      then Err AnchorScientificNotation
      else if bool_decide (ch = "."%char) then
        if (1 <? S dot_count)%nat then Err AnchorMultipleDots
        else anchor_scan (S dot_count) true s'
      else if is_ascii_digit ch then anchor_scan dot_count false s'
      else Err (AnchorInvalidChar (first_char s))
  end.

(** [s.bytes().filter(is_ascii_digit).all(== b'0')] *)
Definition all_digits_zero (s : string) : bool :=
  str_all (fun b => negb (is_ascii_digit b) || bool_decide (b = "0"%char)) s.

Record AnchorAmount := MkAnchorAmount { anchor_str : string }.

Definition AnchorAmount_parse (s : string) : result AnchorAmountError AnchorAmount :=
  if is_empty s then Err AnchorEmpty else
  if (ANCHOR_AMOUNT_MAX_LEN <? String.length s)%nat
  then Err (AnchorTooLong ANCHOR_AMOUNT_MAX_LEN (String.length s)) else
  if starts_with "+" s || starts_with "-" s then Err AnchorLeadingSign else
  '(dot_count, last_is_dot) ← anchor_scan 0 false s;
  if starts_with "." s then Err AnchorLeadingDot else
  if (last_is_dot : bool) then Err AnchorTrailingDot else
  let dp := String.length (default EmptyString (split "." s !! 1%nat)) in
  if (0 <? dot_count)%nat && (ANCHOR_AMOUNT_MAX_DECIMAL_PLACES <? dp)%nat
  then Err (AnchorTooManyDecimals ANCHOR_AMOUNT_MAX_DECIMAL_PLACES dp) else
  if all_digits_zero s then Err AnchorZero
  else Ok (MkAnchorAmount s).

(** ** Lemmas *)

Lemma digits_loop_spec wide bound orig acc s :
  lo wide <= 0 -> bound * 10 + 9 <= hi wide ->
  0 <= acc <= bound -> str_all is_ascii_digit s = true ->
  digits_loop wide bound orig acc s =
    if dec_val_from acc s <=? bound then Ok (dec_val_from acc s) else Err (AmountOutOfRange orig).
Proof.
  intros Hlo Hhi. revert acc. induction s as [|b s IH]; intros acc Hacc;
    cbn [digits_loop dec_val_from str_all].
  { intros _. by rewrite (proj2 (Z.leb_le _ _)) by lia. }
  rewrite andb_true_iff, is_ascii_digit_spec. intros [Hb Hs].
  rewrite checked_in_range by (unfold in_range; lia). cbn [mbind option_bind].
  rewrite checked_in_range by (unfold in_range; lia).
  pose proof (dec_val_from_mono (acc * 10 + digit_val b) s ltac:(lia) Hs).
  destruct (Z.ltb_spec bound (acc * 10 + digit_val b)).
  - by rewrite (proj2 (Z.leb_gt _ _)) by lia.
  - by rewrite IH by (done || lia).
Qed.

Lemma parse_digits_to_i64_spec s orig :
  str_all is_ascii_digit s = true -> is_empty s = false ->
  parse_digits_to_i64 s orig =
    if dec_val s <=? hi i64 then Ok (dec_val s) else Err (AmountOutOfRange orig).
Proof.
  intros Hd Hne. unfold parse_digits_to_i64. rewrite Hd, Hne. cbn [orb negb].
  apply digits_loop_spec; [done|done|done|done].
Qed.

Lemma parse_digits_to_u64_spec s orig :
  str_all is_ascii_digit s = true -> is_empty s = false ->
  parse_digits_to_u64 s orig =
    if dec_val s <=? hi u64 then Ok (dec_val s) else Err (AmountOutOfRange orig).
Proof.
  intros Hd Hne. unfold parse_digits_to_u64. rewrite Hd, Hne. cbn [orb negb].
  apply digits_loop_spec; [done|done|done|done].
Qed.

(** ** What the decimal parser accepts *)

(** [num] is an optional [-], one or more digits, and optionally a dot and at
    most seven digits. *)
Definition decimal_form (num : string) (neg : bool) (ip fp : string) : Prop :=
  (exists body, num = (if neg then String "-" body else body) /\
     (body = ip /\ fp = EmptyString \/ body = ip +:+ String "." fp)) /\
  str_all is_ascii_digit ip = true /\ str_all is_ascii_digit fp = true /\
  is_empty ip = false /\ (String.length fp <= STELLAR_DECIMALS)%nat.

(** The stroops of integer digits [ip] and fraction digits [fp]. *)
Definition decimal_stroops (ip fp : string) : Z :=
  dec_val ip * STROOPS_PER_XLM + dec_val fp * 10 ^ Z.of_nat (STELLAR_DECIMALS - String.length fp).

Lemma pad_right0_val w fp :
  dec_val (pad_right0 w fp) = dec_val fp * 10 ^ Z.of_nat (w - String.length fp).
Proof. unfold pad_right0, dec_val. by rewrite dec_val_from_app, dec_val_zeros. Qed.

Lemma pad_right0_digits w fp :
  str_all is_ascii_digit fp = true -> str_all is_ascii_digit (pad_right0 w fp) = true.
Proof. intros H. unfold pad_right0. by rewrite str_all_app, H, zeros_digits. Qed.

Lemma pad_right0_length w fp :
  (String.length fp <= w)%nat -> String.length (pad_right0 w fp) = w.
Proof. intros H. unfold pad_right0. rewrite str_length_app, zeros_length. lia. Qed.

Lemma is_empty_length s : is_empty s = false <-> (0 < String.length s)%nat.
Proof. destruct s; cbn; split; (done || lia). Qed.

Lemma combine_parts_spec neg ip fp original :
  str_all is_ascii_digit ip = true -> str_all is_ascii_digit fp = true ->
  is_empty ip = false -> (String.length fp <= STELLAR_DECIMALS)%nat ->
  combine_parts neg ip fp original =
    if decimal_stroops ip fp <=? hi i64
    then Ok (from_stroops (if neg then - decimal_stroops ip fp else decimal_stroops ip fp))
    else Err (AmountOutOfRange original).
Proof.
  intros Hi Hf Hie Hfl. unfold combine_parts, decimal_stroops.
  pose proof (pad_right0_digits STELLAR_DECIMALS fp Hf) as Hpd.
  pose proof (pad_right0_length STELLAR_DECIMALS fp Hfl) as Hpl.
  pose proof (dec_val_nonneg ip Hi) as Hip. pose proof (dec_val_nonneg _ Hpd) as Hfp.
  pose proof (dec_val_from_bound 0 _ ltac:(lia) Hpd) as Hb. rewrite Hpl in Hb.
  change (dec_val_from 0 ?s) with (dec_val s) in Hb.
  rewrite <-(pad_right0_val STELLAR_DECIMALS fp).
  set (F := dec_val (pad_right0 STELLAR_DECIMALS fp)) in *.
  change ((0 + 1) * 10 ^ Z.of_nat STELLAR_DECIMALS) with 10000000 in Hb.
  rewrite !parse_digits_to_i64_spec
    by (done || (apply is_empty_length; rewrite Hpl; unfold STELLAR_DECIMALS; lia)).
  fold F. unfold STROOPS_PER_XLM. destruct (Z.leb_spec (dec_val ip) (hi i64)) as [H1|H1];
    cbn [mbind result_bind].
  2: { rewrite (proj2 (Z.leb_gt _ _)) by lia. done. }
  rewrite (proj2 (Z.leb_le F (hi i64))) by (cbn; lia). cbn [mbind result_bind].
  destruct (Z.leb_spec (dec_val ip * 10000000 + F) (hi i64)) as [H2|H2].
  - rewrite checked_in_range by (unfold in_range; cbn in *; lia). cbn [mbind option_bind].
    rewrite checked_in_range by (unfold in_range; cbn in *; lia). cbn [ok_or mbind result_bind].
    destruct neg; [|done].
    by rewrite checked_in_range by (unfold in_range; cbn in *; lia).
  - destruct (checked i64 (dec_val ip * 10000000)) as [v|] eqn:E; [|done].
    apply checked_Some in E as [-> _]. cbn [mbind option_bind].
    assert (checked i64 (dec_val ip * 10000000 + F) = None) as ->; [|done].
    apply eq_None_not_Some. intros [? [_ Hr]%checked_Some]. unfold in_range in Hr. lia.
Qed.

Lemma split_sign_spec num orig neg u :
  split_sign num orig = Ok (neg, u) <->
  num = (if neg then String "-" u else u) /\
  (neg = false -> strip_char "-" u = None /\ starts_with "+" u = false).
Proof.
  unfold split_sign. destruct num as [|a num]; cbn.
  { destruct neg, u; naive_solver. }
  case_bool_decide as Ha; [subst a; destruct neg|case_bool_decide as Ha'].
  - split; [intros [= <-]; done|]. intros [[= ->] _]. done.
  - split; [done|]. intros [<- H]. by destruct (H eq_refl).
  - split; [done|]. intros [Hn H]. destruct neg; [by inversion Hn|].
    destruct u; [done|]. injection Hn as <- <-. destruct (H eq_refl) as [_ H'].
    cbn in H'. by rewrite bool_decide_true in H'.
  - destruct neg; [split; [done|intros [[=] _]; done]|].
    split; [intros [= <-]|intros [<- _]; done].
    split; [done|]. intros _. cbn. by rewrite !bool_decide_false.
Qed.

Lemma split_dot_spec u orig ip fp :
  split_dot u orig = Ok (ip, fp) <->
  contains "." ip = false /\ contains "." fp = false /\
  (u = ip /\ fp = EmptyString \/ u = ip +:+ String "." fp).
Proof.
  unfold split_dot. split.
  - destruct (split_once "." u) as [[b a]|] eqn:E.
    + destruct (contains "." a) eqn:Ea; [done|]. intros [= <- <-].
      apply split_once_Some in E as Hu. split_and!; [|done|by right].
      apply split_once_first in E. done.
    + intros [= <- <-]. apply split_once_None in E. naive_solver.
  - intros (Hi & Hf & [[-> ->]| ->]).
    + by rewrite (proj2 (split_once_None _ _) Hi).
    + by rewrite split_once_app, Hf by done.
Qed.

(** The parser accepts exactly the decimal forms whose value fits. *)
Lemma parse_decimal_to_stroops_spec num orig a :
  parse_decimal_to_stroops num orig = Ok a <->
  exists neg ip fp, decimal_form num neg ip fp /\ decimal_stroops ip fp <= hi i64 /\
    a = from_stroops (if neg then - decimal_stroops ip fp else decimal_stroops ip fp).
Proof.
  unfold parse_decimal_to_stroops, decimal_form. split.
  - destruct (is_empty num) eqn:?; [done|]. rewrite res_bind_Ok.
    intros ([neg u] & Hs & H). apply split_sign_spec in Hs as [-> Hs].
    destruct (is_empty u) eqn:?; [done|]. apply res_bind_Ok in H as ([ip fp] & Hd & H).
    apply split_dot_spec in Hd as (_ & _ & Hd).
    destruct (negb _ || negb _) eqn:Hdig; [done|].
    apply orb_false_iff in Hdig as [?%negb_false_iff ?%negb_false_iff].
    destruct (is_empty ip) eqn:?; [done|]. destruct (Nat.ltb_spec STELLAR_DECIMALS (String.length fp)); [done|].
    rewrite combine_parts_spec in H by (done || lia).
    destruct (Z.leb_spec (decimal_stroops ip fp) (hi i64)); [|done]. injection H as <-.
    exists neg, ip, fp. split_and!; try done; try lia. by exists u.
  - intros (neg & ip & fp & ((u & -> & Hu) & Hi & Hf & Hie & Hfl) & Hv & ->).
    assert (Hui : exists b t, u = String b t /\ is_ascii_digit b = true).
    { destruct ip as [|b t]; [done|]. cbn [str_all] in Hi. apply andb_true_iff in Hi as [Hb _].
      destruct Hu as [[-> _]| ->]; by eauto. }
    destruct Hui as (b & t & Hbt & Hb).
    assert (is_empty (if neg then String "-" u else u) = false) as ->.
    { destruct neg; [done|]. by subst u. }
    rewrite (proj2 (split_sign_spec _ orig neg u)).
    2: { split; [done|]. intros _. rewrite Hbt. cbn.
         rewrite !bool_decide_false; [done|by intros ->|by intros ->]. }
    cbn [mbind result_bind]. assert (is_empty u = false) as -> by by subst u.
    rewrite (proj2 (split_dot_spec u orig ip fp)).
    2: { split_and!; [by apply digits_no_char|by apply digits_no_char|done]. }
    cbn [mbind result_bind]. rewrite Hi, Hf, Hie. cbn [negb orb].
    rewrite (proj2 (Nat.ltb_ge _ _)) by lia.
    rewrite combine_parts_spec by done. by rewrite (proj2 (Z.leb_le _ _)) by lia.
Qed.

Lemma show_Z_frac z : 0 <= z < 10000000 ->
  str_all is_ascii_digit (pad_left0 7 (show_Z z)) = true /\
  String.length (pad_left0 7 (show_Z z)) = 7%nat /\ dec_val (pad_left0 7 (show_Z z)) = z.
Proof.
  intros Hz. destruct (show_nonneg_digits z ltac:(lia)) as (Hd & Hv & _).
  unfold pad_left0. rewrite str_all_app, str_length_app, zeros_length, zeros_digits, Hd.
  split_and!; [done| |].
  - enough (String.length (show_Z z) <= 7)%nat by lia.
    apply show_length; [|lia]. change (10 ^ Z.of_nat 7) with 10000000. lia.
  - unfold dec_val in *. by rewrite dec_val_from_app, dec_val_zeros, Z.mul_0_l.
Qed.

Lemma parse_unit_accepts input unit ci a :
  parse_unit input unit ci = Ok a <->
  exists num u neg ip fp,
    split_ascii_whitespace (trim input) = [num; u] /\
    (if ci then eq_ignore_ascii_case u unit = true else u = unit) /\
    decimal_form num neg ip fp /\ decimal_stroops ip fp <= hi i64 /\
    a = from_stroops (if neg then - decimal_stroops ip fp else decimal_stroops ip fp).
Proof.
  unfold parse_unit. rewrite res_bind_Ok. split.
  - intros ([num u] & Hw & H). cases_in Hw. injection Hw as -> ->.
    destruct (if ci then _ else _) eqn:Hu; [|done]. cbn [negb] in H.
    apply parse_decimal_to_stroops_spec in H as (neg & ip & fp & ? & ? & ?).
    exists num, u, neg, ip, fp. split_and!; try done.
    destruct ci; [done|]. by apply bool_decide_eq_true in Hu.
  - intros (num & u & neg & ip & fp & -> & Hu & H). exists (num, u). split; [done|].
    assert ((if ci then eq_ignore_ascii_case u unit else bool_decide (u = unit)) = true) as ->.
    { destruct ci; [done|]. by apply bool_decide_eq_true. }
    cbn [negb]. apply parse_decimal_to_stroops_spec. eauto.
Qed.


Lemma format_decimal_form n :
  in_range i64 n ->
  decimal_form (format_stroops_as_xlm n) (n <? 0)
    (show_Z (Z.abs n / STROOPS_PER_XLM)) (pad_left0 7 (show_Z (Z.abs n mod STROOPS_PER_XLM))) /\
  decimal_stroops (show_Z (Z.abs n / STROOPS_PER_XLM))
    (pad_left0 7 (show_Z (Z.abs n mod STROOPS_PER_XLM))) = Z.abs n.
Proof.
  intros Hn. unfold decimal_stroops, STROOPS_PER_XLM.
  pose proof (Z.mod_pos_bound (Z.abs n) 10000000 ltac:(lia)) as Hm.
  destruct (show_Z_frac _ Hm) as (Hfd & Hfl & Hfv).
  destruct (show_nonneg_digits (Z.abs n / 10000000)) as (Hd & Hv & He);
    [apply Z.div_pos; lia|].
  split.
  - unfold decimal_form. rewrite Hfl. split_and!; [|done|done|done|done].
    eexists. split; [|by right]. unfold format_stroops_as_xlm, STROOPS_PER_XLM. cbv zeta.
    by destruct (n <? 0).
  - rewrite Hfl, Hv, Hfv. cbn [STELLAR_DECIMALS Nat.sub Z.of_nat Z.pow].
    pose proof (Z.div_mod (Z.abs n) 10000000). lia.
Qed.

(** The bytes of a printed amount. *)
Definition amount_byte (a : ascii) : bool :=
  is_ascii_digit a || bool_decide (a = "."%char) || bool_decide (a = "-"%char).

Lemma amount_byte_plain a :
  amount_byte a = true -> plain a = true /\ is_ascii_whitespace a = false.
Proof.
  unfold amount_byte. rewrite !orb_true_iff, !bool_decide_eq_true.
  intros [[Ha| ->]| ->]; [|done|done].
  apply is_ascii_digit_spec in Ha. unfold digit_val in Ha.
  unfold plain, ws1, byte_in, is_ascii_whitespace. split.
  - rewrite andb_true_iff, negb_true_iff, orb_false_iff, andb_false_iff, Z.ltb_lt, Z.eqb_neq,
      !Z.leb_gt. lia.
  - apply bool_decide_eq_false. rewrite !elem_of_cons, elem_of_nil. lia.
Qed.

Lemma decimal_form_bytes num neg ip fp :
  decimal_form num neg ip fp ->
  str_all amount_byte num = true /\ is_empty num = false.
Proof.
  intros ((body & -> & Hb) & Hi & Hf & Hie & _).
  assert (Hdig : forall a, is_ascii_digit a = true -> amount_byte a = true)
    by (unfold amount_byte; by intros a ->).
  assert (str_all amount_byte body = true /\ is_empty body = false) as [Hbb Hbe].
  { destruct Hb as [[-> ->]| ->].
    - split; [by eapply str_all_impl|done].
    - rewrite str_all_app. cbn [str_all].
      rewrite (str_all_impl _ amount_byte _ Hdig Hi), (str_all_impl _ amount_byte _ Hdig Hf).
      by destruct ip. }
  by destruct neg.
Qed.

(** [trim] and the split give back the two words of a printed amount. *)
Lemma words_of_amount num u b :
  str_all amount_byte num = true -> is_empty num = false ->
  no_ws (u +:+ String b EmptyString) = true -> plain b = true ->
  split_ascii_whitespace (trim (num +:+ String " " (u +:+ String b EmptyString))) =
    [num; u +:+ String b EmptyString].
Proof.
  intros Hn Hne Hu Hb.
  assert (no_ws num = true) as Hnw.
  { eapply str_all_impl; [|exact Hn]. intros a [_ ->]%amount_byte_plain. done. }
  destruct num as [|a num]; [done|]. cbn [str_all] in Hn. apply andb_true_iff in Hn as [Ha _].
  change (String a num +:+ ?t) with (String a (num +:+ t)).
  rewrite (trim_plain _ _ b (String a num +:+ String " " u));
    [|by apply amount_byte_plain|done|by rewrite <-str_app_assoc].
  change (String a (num +:+ ?t)) with (String a num +:+ t).
  apply split_ascii_whitespace_two; [done|done|done|by destruct u].
Qed.

(** ** Properties *)

(** An amount string is accepted exactly when it is two words, a decimal
    number and the expected unit (up to ASCII case only where the caller asks
    for it), and the number of stroops of the decimal fits [i64]; the result is
    that number of stroops.  So a bare number, a foreign unit, a second dot, a
    sign other than a leading minus or an eighth decimal never give an amount. *)
Theorem parse_unit_exact input unit ci a :
  parse_unit input unit ci = Ok a <->
  exists num u neg ip fp,
    split_ascii_whitespace (trim input) = [num; u] /\
    (if ci then eq_ignore_ascii_case u unit = true else u = unit) /\
    decimal_form num neg ip fp /\ decimal_stroops ip fp <= hi i64 /\
    a = from_stroops (if neg then - decimal_stroops ip fp else decimal_stroops ip fp).
Proof. apply parse_unit_accepts. Qed.

(** Every [i64] amount except [i64::MIN] parses back from its display form
    ["<decimal> XLM"]; [i64::MIN] prints but is refused as out of range, since
    the parser negates a positive [i64]. *)
Theorem amount_display_roundtrip n :
  in_range i64 n ->
  parse_with_unit (StellarAmount_to_string (from_stroops n)) =
    if n =? lo i64 then Err (AmountOutOfRange "-922337203685.4775808 XLM")
    else Ok (from_stroops n).
Proof.
  intros Hn. destruct (Z.eqb_spec n (lo i64)) as [->|Hmin]; [by vm_compute|].
  destruct (format_decimal_form n Hn) as [Hform Hval].
  destruct (decimal_form_bytes _ _ _ _ Hform) as [Hb He].
  apply parse_unit_accepts. do 5 eexists. split_and!; [| |exact Hform| |].
  - apply (words_of_amount _ "XL" "M"); done.
  - done.
  - rewrite Hval. unfold in_range in Hn. cbn in *. lia.
  - rewrite Hval. f_equal. destruct (Z.ltb_spec n 0); lia.
Qed.

(** A base-unit string parses back from the decimal form of every [i64]
    stroop count, [i64::MIN] included. *)
Theorem parse_stroops_roundtrip n :
  in_range i64 n -> parse_stroops (show_Z n) = Ok (from_stroops n).
Proof.
  intros Hn. unfold in_range in Hn.
  destruct (show_nonneg_digits (Z.abs n) ltac:(lia)) as (Hd & Hv & He).
  assert (Hs : show_Z n = if n <? 0 then String "-" (show_Z (Z.abs n)) else show_Z (Z.abs n)).
  { destruct (Z.ltb_spec n 0); [|by rewrite Z.abs_eq].
    rewrite show_Z_neg, show_Z_nonneg, Z.abs_neq by lia. done. }
  assert (Ht : trim (show_Z n) = show_Z n).
  { rewrite Hs. apply trim_bytes; [|by destruct (n <? 0)].
    destruct (n <? 0); cbn [str_all]; [change (plain "-") with true; cbn [andb]|];
      (eapply str_all_impl; [apply is_ascii_digit_plain|done]). }
  unfold parse_stroops. rewrite Ht, Hs.
  destruct (Z.ltb_spec n 0) as [Hneg|Hpos].
  - cbn [is_empty strip_char]. rewrite bool_decide_true, He, Hd by done. cbn [orb negb].
    rewrite parse_digits_to_u64_spec, Hv by done.
    rewrite (proj2 (Z.leb_le _ _)) by (cbn in *; lia). cbn [mbind result_bind].
    rewrite (proj2 (Z.ltb_ge _ _)) by (cbn in *; lia).
    destruct (Z.eqb_spec (Z.abs n) (hi i64 + 1)); do 2 f_equal; cbn in *; lia.
  - rewrite He. rewrite digits_no_sign, He, Hd by done. cbn [orb negb].
    rewrite parse_digits_to_u64_spec, Hv by done.
    rewrite (proj2 (Z.leb_le _ _)) by (cbn in *; lia). cbn [mbind result_bind].
    rewrite (proj2 (Z.ltb_ge _ _)) by (cbn in *; lia). do 2 f_equal. lia.
Qed.

Lemma parse_unit_exact_witness :
  parse_unit " 12.5  usdc" "USDC" true = Ok (from_stroops 125000000).
Proof.
  apply parse_unit_exact. exists "12.5", "usdc", false, "12", "5".
  split_and!; [by vm_compute|by vm_compute| |by vm_compute..].
  split; [exists "12.5"; split; [done|by right]|].
  split_and!; try done. unfold STELLAR_DECIMALS. cbn. lia.
Defined.

Lemma amount_display_roundtrip_witness :
  parse_with_unit (StellarAmount_to_string (from_stroops (-50000001))) =
    Ok (from_stroops (-50000001)).
Proof. apply (amount_display_roundtrip (-50000001)). split; by vm_compute. Defined.

Lemma parse_stroops_roundtrip_witness :
  parse_stroops (show_Z (-9223372036854775808)) = Ok (from_stroops (-9223372036854775808)).
Proof. apply (parse_stroops_roundtrip (-9223372036854775808)). split; by vm_compute. Defined.

(** ** What the anchor parser accepts *)

Definition anchor_form (s : string) (ip fp : string) : Prop :=
  str_all is_ascii_digit ip = true /\ str_all is_ascii_digit fp = true /\ is_empty ip = false /\
  (s = ip /\ fp = EmptyString \/ s = ip +:+ String "." fp /\ is_empty fp = false).

Lemma anchor_scan_digits n l s :
  str_all is_ascii_digit s = true ->
  anchor_scan n l s = Ok (n, if is_empty s then l else false).
Proof.
  revert l. induction s as [|a s IH]; intros l; [done|]. cbn [str_all anchor_scan].
  rewrite andb_true_iff. intros [Ha Hs].
  rewrite !bool_decide_false by (intros ->; discriminate Ha). cbn [orb]. rewrite Ha, IH by done.
  by destruct (is_empty s).
Qed.

Lemma anchor_scan_one l s r :
  anchor_scan 1 l s = Ok r ->
  str_all is_ascii_digit s = true /\ r = (1%nat, if is_empty s then l else false).
Proof.
  revert l. induction s as [|a s IH]; intros l; cbn [anchor_scan]; [by intros [= <-]|].
  destruct (_ || _); [done|]. case_bool_decide; [done|].
  destruct (is_ascii_digit a) eqn:Ha; [|done]. intros [Hs ->]%IH.
  cbn [str_all is_empty]. rewrite Ha, Hs. by destruct (is_empty s).
Qed.

Lemma anchor_scan_zero l s n l' :
  anchor_scan 0 l s = Ok (n, l') ->
  (str_all is_ascii_digit s = true /\ n = 0%nat /\ l' = (if is_empty s then l else false)) \/
  exists ip fp, s = ip +:+ String "." fp /\ str_all is_ascii_digit ip = true /\
    str_all is_ascii_digit fp = true /\ n = 1%nat /\ l' = is_empty fp.
Proof.
  revert l. induction s as [|a s IH]; intros l; cbn [anchor_scan].
  { intros [= <- <-]. by left. }
  destruct (_ || _); [done|]. case_bool_decide as Hdot.
  - subst. intros [Hs [= -> ->]]%anchor_scan_one. right.
    exists EmptyString, s. split_and!; try done. by destruct (is_empty s).
  - destruct (is_ascii_digit a) eqn:Ha; [|done].
    intros [(Hs & -> & ->)|(ip & fp & -> & Hi & Hf & -> & ->)]%IH.
    + left. cbn [str_all is_empty]. rewrite Ha, Hs. by destruct (is_empty s).
    + right. exists (String a ip), fp. split_and!; try done. cbn [str_all]. by rewrite Ha.
Qed.

Lemma anchor_scan_dot l ip fp :
  str_all is_ascii_digit ip = true -> str_all is_ascii_digit fp = true ->
  anchor_scan 0 l (ip +:+ String "." fp) = Ok (1%nat, is_empty fp).
Proof.
  intros Hi Hf. revert l. induction ip as [|a ip IH]; intros l.
  - change (EmptyString +:+ String "." fp) with (String "." fp). cbn [anchor_scan].
    cbn -[anchor_scan]. rewrite anchor_scan_digits by done. by destruct (is_empty fp).
  - change (String a ip +:+ ?t) with (String a (ip +:+ t)). cbn [anchor_scan].
    cbn [str_all] in Hi. apply andb_true_iff in Hi as [Ha Hi].
    rewrite !bool_decide_false by (intros ->; discriminate Ha). cbn [orb]. rewrite Ha. by apply IH.
Qed.

Lemma dec_val_zero_iff s :
  str_all is_ascii_digit s = true ->
  (all_digits_zero s = true <-> dec_val s = 0).
Proof.
  unfold all_digits_zero, dec_val. induction s as [|a s IH]; [done|].
  cbn [str_all dec_val_from]. rewrite andb_true_iff. intros [Ha Hs].
  rewrite Ha. cbn [negb orb]. rewrite andb_true_iff, bool_decide_eq_true.
  apply is_ascii_digit_spec in Ha.
  rewrite (dec_val_from_split (0 * 10 + digit_val a)).
  pose proof (dec_val_nonneg s Hs). unfold dec_val in *. rewrite IH by done.
  split.
  - intros [-> ->]. done.
  - intros Hz. pose proof (Z.pow_pos_nonneg 10 (Z.of_nat (String.length s))).
    assert (digit_val a = 0) as Hd by nia. split; [|nia].
    rewrite <-(Ascii.ascii_N_embedding a). unfold digit_val, byte_val in Hd.
    by replace (Ascii.N_of_ascii a) with 48%N by lia.
Qed.

Lemma nonzero_value s :
  str_all is_ascii_digit s = true -> (all_digits_zero s = false <-> 0 < dec_val s).
Proof.
  intros Hd. pose proof (dec_val_nonneg s Hd). pose proof (dec_val_zero_iff s Hd).
  destruct (all_digits_zero s); naive_solver lia.
Qed.

Lemma split_dot_second ip fp :
  contains "." ip = false -> contains "." fp = false ->
  split "." (ip +:+ String "." fp) = [ip; fp].
Proof.
  rewrite !contains_false. intros Hi Hf.
  assert (Hf' : split "." fp = [fp]).
  { clear Hi. induction fp as [|a fp IH]; [done|]. cbn [str_all] in Hf.
    apply andb_true_iff in Hf as [Ha Hf]. cbn [split].
    apply negb_true_iff in Ha. rewrite Ha. by rewrite IH. }
  induction ip as [|a ip IH].
  - change (EmptyString +:+ ?t) with t. cbn [split]. rewrite bool_decide_true by done. by rewrite Hf'.
  - cbn [str_all] in Hi. apply andb_true_iff in Hi as [Ha Hi]. apply negb_true_iff in Ha.
    change (String a ip +:+ ?t) with (String a (ip +:+ t)). cbn [split]. rewrite Ha. by rewrite IH.
Qed.

Lemma all_digits_zero_dot ip fp :
  all_digits_zero (ip +:+ String "." fp) = all_digits_zero (ip +:+ fp).
Proof. unfold all_digits_zero. by rewrite !str_all_app. Qed.

Lemma anchor_form_first s ip fp c :
  anchor_form s ip fp -> is_ascii_digit c = false -> starts_with c s = false.
Proof.
  intros (Hi & _ & Hie & Hs) Hc. destruct ip as [|a ip]; [done|]. cbn [str_all] in Hi.
  apply andb_true_iff in Hi as [Ha _].
  destruct Hs as [[-> _]|[-> _]]; apply bool_decide_eq_false; congruence.
Qed.

(** An anchor amount is accepted exactly when it is at most 40 bytes of
    one or more digits, optionally followed by a dot and 1 to 18 digits, and its
    value is not zero; the accepted string is kept unchanged. *)
Theorem anchor_amount_exact s a :
  AnchorAmount_parse s = Ok a <->
  a = MkAnchorAmount s /\ (String.length s <= ANCHOR_AMOUNT_MAX_LEN)%nat /\
  exists ip fp, anchor_form s ip fp /\
    (String.length fp <= ANCHOR_AMOUNT_MAX_DECIMAL_PLACES)%nat /\ 0 < dec_val (ip +:+ fp).
Proof.
  unfold AnchorAmount_parse. split.
  - destruct (is_empty s) eqn:He; [done|].
    destruct (Nat.ltb_spec ANCHOR_AMOUNT_MAX_LEN (String.length s)); [done|].
    destruct (_ || _); [done|]. rewrite res_bind_Ok. intros ([n l] & Hscan & H0).
    destruct (starts_with "." s) eqn:Hld; [done|]. destruct l; [done|]. cbv zeta in H0.
    destruct (_ && _) eqn:Hdp; [done|]. destruct (all_digits_zero s) eqn:Hz; [done|].
    injection H0 as <-. split_and!; [done|done|].
    apply anchor_scan_zero in Hscan as [(Hd & -> & _)|(ip & fp & -> & Hi & Hf & -> & Hfe)].
    + exists s, EmptyString. split_and!; [|cbn; lia|]. { unfold anchor_form. naive_solver. }
      rewrite str_app_nil_r. by apply nonzero_value.
    + assert (Hif : str_all is_ascii_digit (ip +:+ fp) = true) by by rewrite str_all_app, Hi, Hf.
      rewrite split_dot_second in Hdp by by apply digits_no_char.
      change ((ANCHOR_AMOUNT_MAX_DECIMAL_PLACES <? String.length fp)%nat = false) in Hdp.
      apply Nat.ltb_ge in Hdp. exists ip, fp. split_and!; [|done|].
      * unfold anchor_form. split_and!; try done; [by destruct ip|]. right. by destruct fp.
      * rewrite all_digits_zero_dot in Hz. by apply nonzero_value.
  - intros (-> & Hlen & ip & fp & Hform & Hfl & Hpos).
    rewrite !(anchor_form_first s ip fp) by done.
    destruct Hform as (Hi & Hf & Hie & Hs).
    assert (Hif : str_all is_ascii_digit (ip +:+ fp) = true) by by rewrite str_all_app, Hi, Hf.
    pose proof (proj2 (nonzero_value _ Hif) Hpos) as Hz.
    rewrite (proj2 (Nat.ltb_ge _ _)) by lia. cbn [orb].
    destruct Hs as [[-> ->]|[-> Hfe]].
    + rewrite Hie, anchor_scan_digits by done. rewrite str_app_nil_r in Hz.
      cbn [mbind result_bind]. rewrite Hie. cbn [Nat.ltb Nat.leb andb]. by rewrite Hz.
    + assert (is_empty (ip +:+ String "." fp) = false) as -> by by destruct ip.
      rewrite anchor_scan_dot by done. cbn [mbind result_bind]. rewrite Hfe.
      rewrite split_dot_second by by apply digits_no_char.
      change (default EmptyString ([ip; fp] !! 1%nat)) with fp.
      rewrite (proj2 (Nat.ltb_ge ANCHOR_AMOUNT_MAX_DECIMAL_PLACES _)) by done.
      by rewrite all_digits_zero_dot, Hz.
Qed.

Lemma anchor_amount_exact_witness :
  AnchorAmount_parse "100.50" = Ok (MkAnchorAmount "100.50").
Proof.
  apply anchor_amount_exact. split_and!; [done|cbn; unfold ANCHOR_AMOUNT_MAX_LEN; lia|].
  exists "100", "50". split_and!; [|cbn; unfold ANCHOR_AMOUNT_MAX_DECIMAL_PLACES; lia|by vm_compute].
  split_and!; [done..|]. by right.
Defined.
