(* ===== verification/Json.v ===== *)
(** * JSON values and the strkey codec

    The tool arguments reach the policy code as a [serde_json::Value]; this file
    has that type with the readers the code calls on it, the stroop reader of
    [wire_stroops.rs], and the interface of the [stellar_strkey] crate. *)

From S2P Require Import Prelude RustStr Amount.
From stdpp Require Import options.

Local Open Scope string_scope.
Local Open Scope Z_scope.

(** [serde_json::Number]: an unsigned integer, a negative integer or a float.
    No reader of the modelled code looks inside a float. *)
Inductive Number :=
| PosInt (n : Z)
| NegInt (n : Z)
| Float (bits : Z).

Inductive JsonValue :=
| JNull
| JBool (b : bool)
| JNumber (n : Number)
| JString (s : string)
| JArray (l : list JsonValue)
| JObject (fields : list (string * JsonValue)).

(** A key of a JSON object occurs once; the first occurrence is its value. *)
Fixpoint assoc {A} (key : string) (fields : list (string * A)) : option A :=
  match fields with
  | [] => None
  | (k, v) :: rest => if bool_decide (k = key) then Some v else assoc key rest
  end.

Definition jget (v : JsonValue) (key : string) : option JsonValue :=
  match v with JObject fields => assoc key fields | _ => None end.

Definition as_str (v : JsonValue) : option string :=
  match v with JString s => Some s | _ => None end.

Definition as_u64 (v : JsonValue) : option Z :=
  match v with JNumber (PosInt n) => Some n | _ => None end.

Definition as_i64 (v : JsonValue) : option Z :=
  match v with
  | JNumber (PosInt n) => if n <=? hi i64 then Some n else None
  | JNumber (NegInt n) => Some n
  | _ => None
  end.

(** The numbers [serde_json] builds: [u64] for a non-negative integer, [i64]
    for a negative one. *)
Definition wf_number (n : Number) : Prop :=
  match n with
  | PosInt n => in_range u64 n
  | NegInt n => lo i64 <= n < 0
  | Float _ => True
  end.

(** ** The boundary encoding of stroop fields ([wire_stroops.rs]) *)

(** [StrOrNum<T>]: the untagged union a stroop field is read through.  A number
    matches when it fits the type. *)
Definition num_as (t : int_ty) (n : Number) : option Z :=
  match n with
  | PosInt n | NegInt n => checked t n
  | Float _ => None
  end.

(** The numeric branch's type is [tn] and the string branch's type is [ts]; the
    two differ only in the [i128] encoder. *)
Definition wire_deserialize (tn ts : int_ty) (v : JsonValue) : option Z :=
  match v with
  | JString s => ok (parse_int ts s)
  | JNumber n => num_as tn n
  | _ => None
  end.

Definition wire_deserialize_opt (t : int_ty) (v : JsonValue) : option (option Z) :=
  match v with
  | JNull => Some None
  | JString s => Some <$> ok (parse_int t s)
  | JNumber n => Some <$> num_as t n
  | _ => None
  end.

Definition wire_serialize (z : Z) : JsonValue := JString (show_Z z).

Definition wire_serialize_opt (z : option Z) : JsonValue :=
  match z with Some z => JString (show_Z z) | None => JNull end.

(** A stroop field read out of a decoded value: a negative one is absent. *)
Definition value_as_stroops_i64 (value : JsonValue) : option Z :=
  parsed ← match value with
           | JString s => ok (parse_int i64 s)
           | _ => as_i64 value
           end;
  if 0 <=? parsed then Some parsed else None.

(** ** The strkey codec

    [stellar_strkey]'s parsers return the key's 32 bytes or an error, here its
    [Display] text; its printers give the strkey of a key. *)
Class Strkey := {
  public_key_from_string : string -> result string (list Z);
  public_key_to_string : list Z -> string;
  contract_from_string : string -> result string (list Z);
  contract_to_string : list Z -> string;
}.

(** ** Properties *)

(** The boundary encoding loses nothing: each of the integer encoders reads
    back every value of its type from the decimal string it writes, whatever
    the type of the numeric branch. *)
Theorem wire_stroops_roundtrip tn t z :
  t ∈ [i64; i128; u32; u64] -> in_range t z ->
  wire_deserialize tn t (wire_serialize z) = Some z /\
  wire_deserialize_opt t (wire_serialize_opt (Some z)) = Some (Some z).
Proof.
  intros Ht Hz. assert (lo t <= 0 <= hi t).
  { rewrite !elem_of_cons, elem_of_nil in Ht. destruct_or! Ht; subst; cbn; lia. }
  cbn. by rewrite parse_int_show.
Qed.

Lemma wire_stroops_roundtrip_witness :
  wire_deserialize i64 i128 (wire_serialize (2 ^ 127 - 1)) = Some (2 ^ 127 - 1) /\
  wire_deserialize_opt i128 (wire_serialize_opt (Some (2 ^ 127 - 1))) = Some (Some (2 ^ 127 - 1)).
Proof.
  apply (wire_stroops_roundtrip i64 i128); [|split; by vm_compute].
  rewrite !elem_of_cons. tauto.
Defined.

(** A stroop field is a non-negative [i64]. *)
Lemma value_as_stroops_bounds v n :
  (forall k, v = JNumber k -> wf_number k) ->
  value_as_stroops_i64 v = Some n -> 0 <= n <= hi i64.
Proof.
  intros Hwf. unfold value_as_stroops_i64. rewrite bind_Some. intros (p & Hp & H).
  destruct (Z.leb_spec 0 p); [|done]. injection H as <-. split; [done|].
  destruct v as [| |k|s| |]; try done; cbn in Hp.
  - specialize (Hwf k eq_refl). destruct k; cbn in *; try done.
    + cases_in Hp. injection Hp as <-. by apply Z.leb_le.
    + injection Hp as <-. lia.
  - apply ok_Some, parse_int_in_range in Hp; [|cbn; lia]. by destruct Hp.
Qed.
