(* ===== verification/Bytes.v ===== *)
(** * Byte strings, hashes, base64 and hexadecimal text

    Big-endian integers and the bytes of a string, as the preimages of hashes
    and MACs use them.  The two functions of the [sha2] and [hmac] crates are
    the class [Sha2], of which only the form of the output is assumed; the base64
    codec is the class [Base64].  An executable instance of each, and the hexadecimal
    text of stellar-agent-core ([hex.rs]), follow. *)

From S2P Require Import Prelude RustStr.
From stdpp Require Import options.

Local Open Scope list_scope.
Local Open Scope Z_scope.

Class Sha2 := {
  sha256 : list Z -> list Z;
  hmac_sha256 : list Z -> list Z -> list Z;
}.

Definition bytes_ok (l : list Z) : Prop := Forall (in_range u8) l.

Class Sha2Laws `{!Sha2} := {
  sha256_length x : length (sha256 x) = 32%nat;
  hmac_length k x : length (hmac_sha256 k x) = 32%nat;
  sha256_bytes x : bytes_ok (sha256 x);
  hmac_bytes k x : bytes_ok (hmac_sha256 k x);
}.

(** [to_be_bytes] of a [w]-byte unsigned integer. *)
Fixpoint be_bytes (w : nat) (n : Z) : list Z :=
  match w with
  | O => []
  | S w' => (n / 256 ^ Z.of_nat w') mod 256 :: be_bytes w' n
  end.

Definition as_bytes (s : string) : list Z := byte_val <$> String.list_ascii_of_string s.

(** ** Lemmas *)

Definition be_val (l : list Z) : Z := foldl (fun acc b => acc * 256 + b) 0 l.

Lemma be_val_acc l acc :
  foldl (fun acc b => acc * 256 + b) acc l = acc * 256 ^ Z.of_nat (length l) + be_val l.
Proof.
  unfold be_val. revert acc. induction l as [|b l IH]; intros acc; [cbn; lia|]. cbn [foldl length].
  rewrite IH, (IH (0 * 256 + b)), Nat2Z.inj_succ, Z.pow_succ_r by lia. lia.
Qed.

Lemma be_bytes_length w n : length (be_bytes w n) = w.
Proof. induction w; cbn; congruence. Qed.

Lemma be_val_bytes w n : be_val (be_bytes w n) = n mod 256 ^ Z.of_nat w.
Proof.
  induction w as [|w IH]; [cbn; by rewrite Z.mod_1_r|].
  cbn [be_bytes]. unfold be_val. cbn [foldl]. rewrite be_val_acc, be_bytes_length, IH.
  rewrite Nat2Z.inj_succ, Z.pow_succ_r by lia.
  rewrite (Z.mul_comm 256), Z.rem_mul_r by lia. lia.
Qed.

Lemma be_bytes_inj w a b :
  0 <= a < 256 ^ Z.of_nat w -> 0 <= b < 256 ^ Z.of_nat w -> be_bytes w a = be_bytes w b -> a = b.
Proof.
  intros Ha Hb H%(f_equal be_val). rewrite !be_val_bytes, !Z.mod_small in H by done. done.
Qed.

Lemma as_bytes_inj s t : as_bytes s = as_bytes t -> s = t.
Proof.
  unfold as_bytes. intros H. rewrite <- (String.string_of_list_ascii_of_string s),
    <- (String.string_of_list_ascii_of_string t). f_equal.
  assert (Inj (=) (=) byte_val).
  { intros a b Hab. unfold byte_val in Hab. apply N2Z.inj in Hab.
    by rewrite <- (Ascii.ascii_N_embedding a), <- (Ascii.ascii_N_embedding b), Hab. }
  by apply (inj (fmap byte_val)).
Qed.

Lemma as_bytes_length s : length (as_bytes s) = String.length s.
Proof. unfold as_bytes. rewrite length_fmap. induction s; cbn; congruence. Qed.

(** ** Length-prefixed fields *)

(** [u32::try_from(len).unwrap_or(u32::MAX).to_be_bytes()] and the field. *)
Definition prefixed (l : list Z) : list Z :=
  be_bytes 4 (default (hi u32) (checked u32 (Z.of_nat (length l)))) ++ l.

Definition fits_u32 (l : list Z) : Prop := Z.of_nat (length l) <= hi u32.

(** A prefixed field can be cut off the front in one way only. *)
Lemma prefixed_inj a b x y :
  fits_u32 a -> fits_u32 b -> prefixed a ++ x = prefixed b ++ y -> a = b /\ x = y.
Proof.
  unfold prefixed, fits_u32. intros Ha Hb H.
  assert (Hr : forall l : list Z, Z.of_nat (length l) <= hi u32 -> in_range u32 (Z.of_nat (length l))).
  { intros l Hl. split; [apply Nat2Z.is_nonneg|done]. }
  rewrite !checked_in_range in H by auto. cbn [from_option] in H. unfold id in H.
  rewrite <- !app_assoc in H. apply app_inj_1 in H as [Hl H]; [|by rewrite !be_bytes_length].
  change (hi u32) with 4294967295 in *.
  apply be_bytes_inj in Hl; [|change (256 ^ Z.of_nat 4) with 4294967296; lia..].
  apply app_inj_1 in H; [done|lia].
Qed.

(** ** A demonstration instance: it depends on the key and the last byte. *)

Definition demo_sha2 : Sha2 := {|
  sha256 x := replicate 31 0 ++ [be_val x mod 256];
  hmac_sha256 k x := replicate 31 (be_val k mod 256) ++ [be_val x mod 256];
|}.

Lemma demo_sha2_laws : @Sha2Laws demo_sha2.
Proof.
  assert (Hm : forall z, in_range u8 (z mod 256)).
  { intros z. unfold in_range. change (lo u8) with 0. change (hi u8) with 255.
    pose proof (Z.mod_pos_bound z 256). lia. }
  split; [done|done|..]; intros; apply Forall_app; (split; [by apply Forall_replicate|]);
    by apply Forall_singleton.
Qed.

(** ** URL-safe base64 without padding

    The codec [URL_SAFE_NO_PAD] of the [base64] crate is the class [Base64]; its
    documented behaviour is [Base64Laws]: what was encoded decodes to itself, and
    [n] bytes are written as [ceil (4 n / 3)] letters of the URL-safe alphabet.
    [rfc4648] is the codec of the RFC, for which the laws are proved. *)

Local Open Scope list_scope.
Local Open Scope Z_scope.

Class Base64 := {
  base64_encode : list Z -> string;
  base64_decode : string -> option (list Z);
}.

Definition is_base64url (a : ascii) : bool :=
  is_ascii_alphanumeric a || bool_decide (a = "-"%char) || bool_decide (a = "_"%char).

Class Base64Laws `{!Base64} := {
  base64_roundtrip b : bytes_ok b -> base64_decode (base64_encode b) = Some b;
  base64_alphabet b : bytes_ok b -> str_all is_base64url (base64_encode b) = true;
  base64_length b : String.length (base64_encode b) = ((4 * length b + 2) / 3)%nat;
}.

(** ** The codec of RFC 4648, section 5 *)

Definition sextet_char (n : Z) : ascii :=
  Ascii.ascii_of_N (Z.to_N (
    if n <? 26 then n + 65 else if n <? 52 then n + 71 else if n <? 62 then n - 4
    else if n =? 62 then 45 else 95)).

Definition char_sextet (a : ascii) : option Z :=
  let b := byte_val a in
  if is_ascii_upper a then Some (b - 65) else if is_ascii_lower a then Some (b - 71)
  else if is_ascii_digit a then Some (b + 4)
  else if b =? 45 then Some 62 else if b =? 95 then Some 63 else None.

Fixpoint sextets (l : list Z) : list Z :=
  match l with
  | a :: b :: c :: l' =>
      a / 4 :: a mod 4 * 16 + b / 16 :: b mod 16 * 4 + c / 64 :: c mod 64 :: sextets l'
  | [a; b] => [a / 4; a mod 4 * 16 + b / 16; b mod 16 * 4]
  | [a] => [a / 4; a mod 4 * 16]
  | [] => []
  end.

Fixpoint octets (l : list Z) : option (list Z) :=
  match l with
  | w :: x :: y :: z :: l' =>
      r ← octets l'; Some (w * 4 + x / 16 :: x mod 16 * 16 + y / 4 :: y mod 4 * 64 + z :: r)
  | [w; x; y] => if y mod 4 =? 0 then Some [w * 4 + x / 16; x mod 16 * 16 + y / 4] else None
  | [w; x] => if x mod 16 =? 0 then Some [w * 4 + x / 16] else None
  | [_] => None
  | [] => Some []
  end.

Definition rfc4648 : Base64 := {|
  base64_encode l := String.string_of_list_ascii (sextet_char <$> sextets l);
  base64_decode s := mapM char_sextet (String.list_ascii_of_string s) ≫= octets;
|}.

Definition sextet_ok (n : Z) : Prop := 0 <= n < 64.

(** A decidable statement about the 64 sextets, checked at each. *)
Lemma sextet_cases (P : Z -> bool) :
  forallb P (Z.of_nat <$> seq 0 64) = true -> forall n, sextet_ok n -> P n = true.
Proof.
  intros H n Hn. rewrite forallb_forall in H. apply H, list_elem_of_In.
  apply list_elem_of_fmap. exists (Z.to_nat n). unfold sextet_ok in Hn.
  rewrite elem_of_seq. lia.
Qed.

Lemma char_sextet_char n : sextet_ok n -> char_sextet (sextet_char n) = Some n.
Proof.
  intros Hn. apply (bool_decide_eq_true_1 (char_sextet (sextet_char n) = Some n)).
  revert n Hn. by apply (sextet_cases (fun n => bool_decide (char_sextet (sextet_char n) = Some n))).
Qed.

Lemma sextet_char_alphabet n : sextet_ok n -> is_base64url (sextet_char n) = true.
Proof. revert n. by apply sextet_cases. Qed.

(** Induction over a byte list three bytes at a time. *)
Lemma triple_ind (P : list Z -> Prop) :
  P [] -> (forall a, P [a]) -> (forall a b, P [a; b]) ->
  (forall a b c l, P l -> P (a :: b :: c :: l)) -> forall l, P l.
Proof.
  intros H0 H1 H2 H3. fix IH 1. intros [|a [|b [|c l]]]; [done..|]. apply H3, IH.
Qed.

Lemma bytes_ok_cons b l : bytes_ok (b :: l) <-> 0 <= b <= 255 /\ bytes_ok l.
Proof. unfold bytes_ok. by rewrite Forall_cons. Qed.

Ltac div_lia := Z.to_euclidean_division_equations; lia.

Ltac bytes_inv :=
  repeat match goal with
  | H : bytes_ok (_ :: _) |- _ => apply bytes_ok_cons in H as [? H]
  end.

Lemma sextets_ok l : bytes_ok l -> Forall sextet_ok (sextets l).
Proof.
  induction l as [|a|a b|a b c l IH] using triple_ind; intros H; bytes_inv; simpl.
  4: specialize (IH H).
  all: repeat (apply Forall_cons; split); try apply Forall_nil_2; try done.
  all: unfold sextet_ok; div_lia.
Qed.

Lemma octets_sextets l : bytes_ok l -> octets (sextets l) = Some l.
Proof.
  induction l as [|a|a b|a b c l IH] using triple_ind; intros H; bytes_inv; simpl; [done|..].
  - rewrite (proj2 (Z.eqb_eq _ _)) by div_lia. do 2 f_equal. div_lia.
  - rewrite (proj2 (Z.eqb_eq _ _)) by div_lia. do 2 f_equal; [div_lia|]. f_equal. div_lia.
  - rewrite (IH H). simpl. do 2 f_equal; [div_lia|]. f_equal; [div_lia|]. f_equal. div_lia.
Qed.

Lemma sextets_length l : length (sextets l) = ((4 * length l + 2) / 3)%nat.
Proof.
  induction l as [|a|a b|a b c l IH] using triple_ind; [done..|]. simpl sextets. simpl length.
  rewrite IH. replace (4 * S (S (S (length l))) + 2)%nat with (4 * length l + 2 + 4 * 3)%nat by lia.
  rewrite Nat.div_add by lia. lia.
Qed.

Lemma mapM_char_sextet l :
  Forall sextet_ok l -> mapM char_sextet (sextet_char <$> l) = Some l.
Proof.
  intros H. apply mapM_Some. induction H as [|n l Hn _ IH]; constructor; [|done].
  by apply char_sextet_char.
Qed.

Lemma str_all_of_list f l :
  str_all f (String.string_of_list_ascii l) = forallb f l.
Proof. induction l as [|a l IH]; [done|]. simpl. by rewrite IH. Qed.

Lemma str_length_of_list l : String.length (String.string_of_list_ascii l) = length l.
Proof. induction l as [|a l IH]; [done|]. simpl. by rewrite IH. Qed.

Lemma rfc4648_laws : @Base64Laws rfc4648.
Proof.
  split; simpl.
  - intros b Hb. rewrite String.list_ascii_of_string_of_list_ascii, mapM_char_sextet by
      by apply sextets_ok. by apply octets_sextets.
  - intros b Hb. rewrite str_all_of_list, forallb_forall. intros a Ha%list_elem_of_In.
    apply list_elem_of_fmap in Ha as (n & -> & Hn). apply sextet_char_alphabet.
    by eapply Forall_forall in Hn; [|apply sextets_ok].
  - intros b. by rewrite str_length_of_list, length_fmap, sextets_length.
Qed.

(** ** Hexadecimal text (stellar-agent-core, [hex.rs]) *)

Local Open Scope string_scope.
Local Open Scope list_scope.
Local Open Scope Z_scope.

Inductive HexDecodeError :=
| InvalidLength (expected actual : Z)
| InvalidChar (offset : Z) (ch : ascii).

(** The digits of [{b:02x}]. *)
Definition nibble_char (n : Z) : ascii :=
  Ascii.ascii_of_N (Z.to_N (if n <? 10 then n + 48 else n + 87)).

Definition hex_byte (b : Z) : string :=
  String (nibble_char (b / 16)) (String (nibble_char (b mod 16)) EmptyString).

Definition encode (bytes : list Z) : string :=
  foldl (fun acc b => acc +:+ hex_byte b) EmptyString bytes.

Definition char_to_nibble (b : ascii) : option Z :=
  if byte_in 48 57 b then Some (byte_val b - 48)
  else if byte_in 97 102 b then Some (byte_val b - 97 + 10)
  else if byte_in 65 70 b then Some (byte_val b - 65 + 10)
  else None.

(** The loop over the two-byte chunks; the length is checked before it. *)
Fixpoint decode_chunks (i : Z) (hex : string) : result HexDecodeError (list Z) :=
  match hex with
  | String a (String b rest) =>
      hi ← ok_or (InvalidChar (i * 2) a) (char_to_nibble a);
      lo ← ok_or (InvalidChar (i * 2 + 1) b) (char_to_nibble b);
      out ← decode_chunks (i + 1) rest;
      Ok (Z.lor (Z.shiftl hi 4) lo :: out)
  | _ => Ok []
  end.

Definition decode_hex32 (hex : string) : result HexDecodeError (list Z) :=
  if negb (String.length hex =? 64)%nat
  then Err (InvalidLength 32 (Z.of_nat (String.length hex)))
  else decode_chunks 0 hex.

(** ** Lemmas *)

Lemma encode_cons b bs : encode (b :: bs) = hex_byte b +:+ encode bs.
Proof.
  unfold encode. cbn [foldl]. change (EmptyString +:+ hex_byte b) with (hex_byte b).
  generalize (hex_byte b). induction bs as [|c bs IH]; intros s; cbn [foldl].
  - by rewrite str_app_nil_r.
  - change (EmptyString +:+ hex_byte c) with (hex_byte c).
    by rewrite (IH (s +:+ _)), (IH (hex_byte c)), str_app_assoc.
Qed.

Lemma encode_length bs : String.length (encode bs) = (2 * length bs)%nat.
Proof.
  induction bs as [|b bs IH]; [done|]. rewrite encode_cons, str_length_app, IH. cbn. lia.
Qed.

(** The sixteen digits. *)
Lemma nibble_char_spec n :
  0 <= n < 16 ->
  byte_val (nibble_char n) = (if n <? 10 then n + 48 else n + 87).
Proof.
  intros Hn. unfold nibble_char, byte_val. rewrite Ascii.N_ascii_embedding; [|case_match; lia].
  case_match; lia.
Qed.

Lemma nibble_char_digit n :
  0 <= n < 16 ->
  char_to_nibble (nibble_char n) = Some n /\ hex_digit (nibble_char n) = Some n /\
  nibble_char n ≠ "+"%char /\ byte_val (nibble_char n) < 128.
Proof.
  intros Hn. pose proof (nibble_char_spec n Hn) as Hv.
  assert (nibble_char n ≠ "+"%char).
  { intros E. rewrite E in Hv. change (byte_val "+") with 43 in Hv. destruct (n <? 10); lia. }
  unfold char_to_nibble, hex_digit, is_ascii_digit, byte_in. rewrite Hv.
  destruct (Z.ltb_spec n 10).
  - assert (((48 <=? n + 48) && (n + 48 <=? 57)) = true) as ->.
    { by apply andb_true_iff; split; apply Z.leb_le; lia. }
    split_and!; [f_equal; lia|f_equal; lia|done|lia].
  - assert (((48 <=? n + 87) && (n + 87 <=? 57)) = false) as ->.
    { apply andb_false_iff; right; apply Z.leb_gt; lia. }
    assert (((97 <=? n + 87) && (n + 87 <=? 102)) = true) as ->.
    { apply andb_true_iff; split; apply Z.leb_le; lia. }
    split_and!; [f_equal; lia|f_equal; lia|done|lia].
Qed.

Lemma byte_nibbles b : in_range u8 b -> 0 <= b / 16 < 16 /\ 0 <= b mod 16 < 16.
Proof.
  intros [? ?]. change (hi u8) with 255 in *. change (lo u8) with 0 in *. split; [split|].
  - by apply Z.div_pos.
  - apply Z.div_lt_upper_bound; lia.
  - by apply Z.mod_pos_bound.
Qed.

Lemma nibbles_byte b : Z.lor (Z.shiftl (b / 16) 4) (b mod 16) = b.
Proof.
  change 16 with (2 ^ 4). rewrite <- Z.shiftr_div_pow2, <- Z.land_ones by done.
  apply Z.bits_inj'. intros n Hn. rewrite Z.lor_spec, Z.land_spec.
  destruct (Z.ltb_spec n 4).
  - rewrite Z.shiftl_spec_low, Z.ones_spec_low by lia. by rewrite andb_true_r.
  - rewrite Z.shiftl_spec, Z.shiftr_spec, Z.ones_spec_high by lia.
    rewrite andb_false_r, orb_false_r. f_equal. lia.
Qed.

Lemma decode_chunks_encode i bs :
  Forall (in_range u8) bs -> decode_chunks i (encode bs) = Ok bs.
Proof.
  intros Hbs. revert i. induction Hbs as [|b bs Hb Hbs IH]; intros i; [done|].
  rewrite encode_cons. apply byte_nibbles in Hb as [H1 H2].
  change (hex_byte b +:+ encode bs)
    with (String (nibble_char (b / 16)) (String (nibble_char (b mod 16)) (encode bs))).
  cbn [decode_chunks]. rewrite (proj1 (nibble_char_digit _ H1)), (proj1 (nibble_char_digit _ H2)).
  cbn [ok_or mbind result_bind]. by rewrite IH, nibbles_byte.
Qed.

(** Hashes and keys survive their hexadecimal form: the strict 32-byte
    decoder reads back every byte string [encode] writes. *)
Theorem hex32_roundtrip bs :
  length bs = 32%nat -> Forall (in_range u8) bs -> decode_hex32 (encode bs) = Ok bs.
Proof.
  intros Hlen Hbs. unfold decode_hex32. rewrite encode_length, Hlen. by apply decode_chunks_encode.
Qed.

Lemma hex32_roundtrip_witness :
  decode_hex32 (encode (replicate 31 7 ++ [255])) = Ok (replicate 31 7 ++ [255]).
Proof.
  apply hex32_roundtrip; [done|]. repeat constructor; by vm_compute.
Defined.

(** ** SHA-256 and HMAC-SHA256 (FIPS 180-4, RFC 2104)

    An executable instance of the class [Sha2] of [Bytes].  The theorems of
    the development are stated for any hash with 32-byte output; this instance
    shows that their hypotheses hold of the function the program links, and
    the witnesses that compare with hash constants of the source evaluate it. *)

Local Open Scope list_scope.
Local Open Scope Z_scope.

Module Sha256.

(** Words of 32 bits. *)
Definition w32 (z : Z) : Z := Z.land z (Z.ones 32).
Definition rotr (n x : Z) : Z := Z.lor (Z.shiftr x n) (w32 (Z.shiftl x (32 - n))).
Definition not32 (x : Z) : Z := Z.lxor x (Z.ones 32).

Definition ch (x y z : Z) : Z := Z.lxor (Z.land x y) (Z.land (not32 x) z).
Definition maj (x y z : Z) : Z := Z.lxor (Z.lxor (Z.land x y) (Z.land x z)) (Z.land y z).
Definition big0 (x : Z) : Z := Z.lxor (Z.lxor (rotr 2 x) (rotr 13 x)) (rotr 22 x).
Definition big1 (x : Z) : Z := Z.lxor (Z.lxor (rotr 6 x) (rotr 11 x)) (rotr 25 x).
Definition small0 (x : Z) : Z := Z.lxor (Z.lxor (rotr 7 x) (rotr 18 x)) (Z.shiftr x 3).
Definition small1 (x : Z) : Z := Z.lxor (Z.lxor (rotr 17 x) (rotr 19 x)) (Z.shiftr x 10).

(** The round constants: cube roots of the first 64 primes. *)
Definition round_constants : list Z :=
  [1116352408; 1899447441; 3049323471; 3921009573; 961987163; 1508970993;
   2453635748; 2870763221; 3624381080; 310598401; 607225278; 1426881987;
   1925078388; 2162078206; 2614888103; 3248222580; 3835390401; 4022224774;
   264347078; 604807628; 770255983; 1249150122; 1555081692; 1996064986;
   2554220882; 2821834349; 2952996808; 3210313671; 3336571891; 3584528711;
   113926993; 338241895; 666307205; 773529912; 1294757372; 1396182291;
   1695183700; 1986661051; 2177026350; 2456956037; 2730485921; 2820302411;
   3259730800; 3345764771; 3516065817; 3600352804; 4094571909; 275423344;
   430227734; 506948616; 659060556; 883997877; 958139571; 1322822218;
   1537002063; 1747873779; 1955562222; 2024104815; 2227730452; 2361852424;
   2428436474; 2756734187; 3204031479; 3329325298].

(** The initial state: square roots of the first eight primes. *)
Definition initial_state : list Z :=
  [1779033703; 3144134277; 1013904242; 2773480762; 1359893119; 2600822924;
   528734635; 1541459225].

(** The message: a one bit, zeros, and the bit length in 64 bits. *)
Definition pad (m : list Z) : list Z :=
  let n := Z.of_nat (length m) in
  m ++ [128] ++ replicate (Z.to_nat ((55 - n) mod 64)) 0 ++ be_bytes 8 (8 * n).

Fixpoint words (l : list Z) : list Z :=
  match l with
  | a :: b :: c :: d :: l' => be_val [a; b; c; d] :: words l'
  | _ => []
  end.

(** The message schedule: the sixteen words of the block, then the 48 derived
    ones.  [recent] holds the last sixteen words, newest first. *)
Fixpoint schedule (n : nat) (recent : list Z) : list Z :=
  match n with
  | O => []
  | S n' =>
      let w := w32 (small1 (recent !!! 1%nat) + recent !!! 6%nat
                    + small0 (recent !!! 14%nat) + recent !!! 15%nat) in
      w :: schedule n' (w :: take 15 recent)
  end.

Definition round (st : list Z) (kw : Z * Z) : list Z :=
  match st with
  | [a; b; c; d; e; f; g; h] =>
      let t1 := h + big1 e + ch e f g + fst kw + snd kw in
      let t2 := big0 a + maj a b c in
      [w32 (t1 + t2); a; b; c; w32 (d + t1); e; f; g]
  | _ => st
  end.

Definition compress (st block : list Z) : list Z :=
  let ws := words block in
  let full := ws ++ schedule 48 (rev ws) in
  zip_with (fun a b => w32 (a + b)) st (foldl round st (zip round_constants full)).

Fixpoint blocks (n : nat) (st l : list Z) : list Z :=
  match n with
  | O => st
  | S n' => blocks n' (compress st (take 64 l)) (drop 64 l)
  end.

(** The digest: the eight words of the state, big endian. *)
Definition digest (m : list Z) : list Z :=
  let l := pad m in
  flat_map (be_bytes 4) (blocks (length l / 64) initial_state l).

Definition hmac (key m : list Z) : list Z :=
  let k := if (64 <? length key)%nat then digest key else key in
  let k := k ++ replicate (64 - length k) 0 in
  digest (map (Z.lxor 92) k ++ digest (map (Z.lxor 54) k ++ m)).

End Sha256.

Definition fips : Sha2 := {| sha256 := Sha256.digest; hmac_sha256 := Sha256.hmac |}.

(** ** Laws *)

Lemma round_length st kw : length (Sha256.round st kw) = length st.
Proof. do 9 (destruct st; [done|]). done. Qed.

Lemma compress_length st block : length st = 8%nat -> length (Sha256.compress st block) = 8%nat.
Proof.
  intros H. unfold Sha256.compress. rewrite length_zip_with.
  assert (Hf : forall l s, length (foldl Sha256.round s l) = length s).
  { induction l as [|x l IH]; intros s; [done|]. simpl. by rewrite IH, round_length. }
  rewrite Hf. lia.
Qed.

Lemma blocks_length n st l : length st = 8%nat -> length (Sha256.blocks n st l) = 8%nat.
Proof.
  revert st l. induction n as [|n IH]; intros st l H; [done|]. simpl. by apply IH, compress_length.
Qed.

Lemma be_bytes_ok w n : bytes_ok (be_bytes w n).
Proof.
  induction w as [|w IH]; constructor; [|done].
  unfold in_range. change (lo u8) with 0. change (hi u8) with 255.
  pose proof (Z.mod_pos_bound (n / 256 ^ Z.of_nat w) 256). lia.
Qed.

Lemma flat_map_words st :
  length (flat_map (be_bytes 4) st) = (4 * length st)%nat /\ bytes_ok (flat_map (be_bytes 4) st).
Proof.
  induction st as [|x st [IH1 IH2]]; [split; [done|constructor]|]. cbn [flat_map length].
  rewrite length_app, be_bytes_length. split; [lia|]. apply Forall_app; split; [|done].
  apply be_bytes_ok.
Qed.

Lemma digest_ok m : length (Sha256.digest m) = 32%nat /\ bytes_ok (Sha256.digest m).
Proof.
  unfold Sha256.digest. split; [|apply flat_map_words].
  rewrite (proj1 (flat_map_words _)), blocks_length; done.
Qed.

(** The function meets what the development asks of a hash. *)
Lemma fips_laws : @Sha2Laws fips.
Proof. split; intros; apply digest_ok. Qed.

(** Published test vectors: FIPS 180-4 for the message "abc", a message of two
    blocks, and RFC 4231, test case 2. *)
Example sha256_abc :
  encode (Sha256.digest (as_bytes "abc"))
  = "ba7816bf8f01cfea414140de5dae2223b00361a396177a9cb410ff61f20015ad".
Proof. vm_compute. reflexivity. Qed.

Example sha256_two_blocks :
  encode (Sha256.digest (as_bytes "abcdbcdecdefdefgefghfghighijhijkijkljklmklmnlmnomnopnopq"))
  = "248d6a61d20638b8e5c026930c3e6039a33ce45964ff2167f6ecedd419db06c1".
Proof. vm_compute. reflexivity. Qed.

Example hmac_rfc4231 :
  encode (Sha256.hmac (as_bytes "Jefe") (as_bytes "what do ya want for nothing?"))
  = "5bdcc146bf60754e6a042426089575c75a003f089d2739839dec58b964ec3843".
Proof. vm_compute. reflexivity. Qed.
