(* ===== verification/RuleProposal.v ===== *)
(** * Inputs a human confirms (stellar-agent-core, [approval/rule_proposal.rs],
      [approval/assertion_input.rs], [approval/registration_input.rs])

    The resolved definition of a smart-account rule as it is shown for approval,
    the WebAuthn assertion and registration a browser hands back, and the field
    checks each of them passes before it is stored or loaded; the syntax of IP
    addresses comes first, since a relying party must not be one. *)

From S2P Require Import Prelude RustStr Bytes.
From stdpp Require Import options.

(** ** IP address literals

    The grammar of [IpAddr::from_str] of the standard library, as the identity
    checks of a relying party use it: only whether a text is an address matters,
    so the parsers return the rest of the input. *)

Local Open Scope string_scope.
Local Open Scope Z_scope.

Definition digit_of (radix : Z) (a : ascii) : option Z :=
  d ← hex_digit a; if d <? radix then Some d else None.

(** [read_number]: at most [max_digits] digits, a value of at most [max], and no
    leading zero unless [allow_zero_prefix]. *)
Fixpoint read_digits (radix max : Z) (fuel : nat) (digit_count : nat) (result : Z) (s : string)
  : option (nat * string) :=
  match s with
  | EmptyString => Some (digit_count, s)
  | String a s' =>
      match digit_of radix a with
      | None => Some (digit_count, s)
      | Some d =>
          let result := result * radix + d in
          match fuel with
          | O => None
          | S fuel' => if result <=? max then read_digits radix max fuel' (S digit_count) result s'
                       else None
          end
      end
  end.

Definition read_number (radix max : Z) (max_digits : nat) (allow_zero_prefix : bool) (s : string)
  : option string :=
  '(digit_count, rest) ← read_digits radix max max_digits 0 0 s;
  if (digit_count =? 0)%nat then None
  else if negb allow_zero_prefix && starts_with "0" s && (1 <? digit_count)%nat then None
  else Some rest.

(** [read_separator]: the separator comes before every group but the first. *)
Definition read_separator (sep : ascii) (index : nat) (inner : string -> option string) (s : string)
  : option string :=
  match index with
  | O => inner s
  | S _ => rest ← strip_char sep s; inner rest
  end.

Definition read_octet (i : nat) : string -> option string :=
  read_separator "." i (read_number 10 255 3 false).

Definition read_ipv4_addr (s : string) : option string :=
  a ← read_octet 0 s; b ← read_octet 1 a; c ← read_octet 2 b; read_octet 3 c.

(** [read_groups] of a slice with [todo] groups left: the number of groups read,
    whether the last two were an embedded IPv4 address, and the rest. *)
Fixpoint read_groups (todo i : nat) (s : string) : nat * bool * string :=
  match todo with
  | O => (i, false, s)
  | S todo' =>
      match (if (0 <? todo')%nat then read_separator ":" i read_ipv4_addr s else None) with
      | Some rest => ((i + 2)%nat, true, rest)
      | None =>
          match read_separator ":" i (read_number 16 65535 4 true) s with
          | Some rest => read_groups todo' (S i) rest
          | None => (i, false, s)
          end
      end
  end.

Definition read_ipv6_addr (s : string) : option string :=
  let '(head_size, head_ipv4, rest) := read_groups 8 0 s in
  if (head_size =? 8)%nat then Some rest
  else if head_ipv4 then None
  else
    rest ← strip_char ":" rest;
    rest ← strip_char ":" rest;
    let '(_, _, rest) := read_groups (8 - (head_size + 1)) 0 rest in
    Some rest.

(** [s.parse::<IpAddr>().is_ok()] *)
Definition is_ip_addr (s : string) : bool :=
  match (match read_ipv4_addr s with Some rest => Some rest | None => read_ipv6_addr s end) with
  | Some rest => is_empty rest
  | None => false
  end.

Example ip_addr_examples :
  is_ip_addr <$> ["127.0.0.1"; "255.255.255.255"; "::1"; "::"; "1:2:3:4:5:6:7:8"; "::ffff:10.0.0.1";
                  "fe80::1:2"; "1:2:3:4:5:6:1.2.3.4"]
    = replicate 8 true /\
  is_ip_addr <$> ["localhost"; "1.2.3"; "01.2.3.4"; "256.1.1.1"; "1.2.3.4.5"; ":::"; "1::2::3";
                  "1:2:3:4:5:6:7:8:9"; "1.2.3.4::"; "12345::"; "1:2:3:4:5:6:7:1.2.3.4"]
    = replicate 11 false.
Proof. split; vm_compute; reflexivity. Qed.

Local Open Scope string_scope.
Local Open Scope list_scope.
Local Open Scope Z_scope.

(** ** Shapes shared by the field checks *)

Definition is_base32 (a : ascii) : bool := is_ascii_upper a || byte_in 50 55 a.

(** [^<prefix>[A-Z2-7]{n-1}$] *)
Definition strkey_shape (n : Z) (prefix : ascii) (s : string) : bool :=
  (len s =? n) && starts_with prefix s && str_all is_base32 (str_tail s).

(** ** Rule proposals *)

Definition CONTEXT_RULE_PROPOSAL_SNAPSHOT_VERSION : Z := 1.
Definition RULE_PROPOSAL_MAX_SIGNERS : Z := 15.
Definition RULE_PROPOSAL_MAX_POLICIES : Z := 5.
Definition RULE_PROPOSAL_MAX_NAME_BYTES : Z := 20.
Definition RULE_PROPOSAL_MAX_EXTERNAL_KEY_BYTES : Z := 256.
Definition RULE_PROPOSAL_MAX_AUTH_RULE_IDS : Z := 8.
Definition RULE_PROPOSAL_MAX_POLICY_PARAMS_BYTES : Z := 8192.

Inductive RuleProposalContextType :=
| DefaultContext
| CallContract (contract : string)
| CreateContract (wasm_hash_hex : string).

Definition variant_name (t : RuleProposalContextType) : string :=
  match t with
  | DefaultContext => "Default"
  | CallContract _ => "CallContract"
  | CreateContract _ => "CreateContract"
  end.

Inductive RuleProposalSignerKind := Delegated | External.

Record RuleProposalSigner := {
  signer_kind : RuleProposalSignerKind;
  signer_address : option string;
  verifier : option string;
  pubkey_data : option (list Z);
  is_proposer : bool;
}.

Definition delegated (address : string) (is_proposer : bool) : RuleProposalSigner :=
  {| signer_kind := Delegated; signer_address := Some address; verifier := None;
     pubkey_data := None; is_proposer := is_proposer |}.

Definition external (verifier : string) (pubkey_data : list Z) (is_proposer : bool)
  : RuleProposalSigner :=
  {| signer_kind := External; signer_address := None; verifier := Some verifier;
     pubkey_data := Some pubkey_data; is_proposer := is_proposer |}.

Record RuleProposalPolicy := {
  policy_address : string;
  params_xdr_b64 : string;
}.

Record ContextRuleProposalSnapshot := {
  snapshot_version : Z;
  context_type : RuleProposalContextType;
  rule_name : string;
  valid_until : option Z;
  signers : list RuleProposalSigner;
  policies : list RuleProposalPolicy;
  auth_rule_ids : list Z;
  accept_mutable_verifier : bool;
  accept_unknown_verifier : bool;
}.

Definition snapshot_new (context_type : RuleProposalContextType) (name : string)
    (valid_until : option Z) (signers : list RuleProposalSigner)
    (policies : list RuleProposalPolicy) (auth_rule_ids : list Z)
    (accept_mutable_verifier accept_unknown_verifier : bool) : ContextRuleProposalSnapshot :=
  {| snapshot_version := CONTEXT_RULE_PROPOSAL_SNAPSHOT_VERSION;
     context_type := context_type; rule_name := name; valid_until := valid_until;
     signers := signers; policies := policies; auth_rule_ids := auth_rule_ids;
     accept_mutable_verifier := accept_mutable_verifier;
     accept_unknown_verifier := accept_unknown_verifier |}.

Global Instance RuleProposalContextType_eq_dec : EqDecision RuleProposalContextType.
Proof. solve_decision. Defined.
Global Instance RuleProposalSignerKind_eq_dec : EqDecision RuleProposalSignerKind.
Proof. solve_decision. Defined.
Global Instance RuleProposalSigner_eq_dec : EqDecision RuleProposalSigner.
Proof. solve_decision. Defined.
Global Instance RuleProposalPolicy_eq_dec : EqDecision RuleProposalPolicy.
Proof. solve_decision. Defined.
Global Instance ContextRuleProposalSnapshot_eq_dec : EqDecision ContextRuleProposalSnapshot.
Proof. solve_decision. Defined.

Definition validate_strkey_shape (s : string) (prefix : ascii) (field : string)
  : result string unit :=
  let p := String prefix EmptyString in
  if strkey_shape 56 prefix s then Ok tt
  else Err (field +:+ " must be a valid " +:+ p +:+ "-strkey (56 chars, ^" +:+ p
            +:+ "[A-Z2-7]{55}$)").

Definition validate_rule_proposal_signer (signer : RuleProposalSigner) : result string unit :=
  match signer_kind signer with
  | Delegated =>
      address ← ok_or "Delegated signer must carry `address`" (signer_address signer);
      if negb (is_ok (validate_strkey_shape address "G" "address"))
         && negb (is_ok (validate_strkey_shape address "C" "address"))
      then Err "address must be a valid G-strkey or C-strkey (56 chars, ^[GC][A-Z2-7]{55}$)"
      else if bool_decide (is_Some (verifier signer)) || bool_decide (is_Some (pubkey_data signer))
      then Err "Delegated signer must not carry `verifier` or `pubkey_data`"
      else Ok tt
  | External =>
      verifier ← ok_or "External signer must carry `verifier`" (verifier signer);
      _ ← validate_strkey_shape verifier "C" "verifier";
      pubkey_data ← ok_or "External signer must carry `pubkey_data`" (pubkey_data signer);
      if RULE_PROPOSAL_MAX_EXTERNAL_KEY_BYTES <? count pubkey_data
      then Err ("pubkey_data must be at most 256 bytes (OZ MAX_EXTERNAL_KEY_SIZE), got "
                +:+ show_Z (count pubkey_data))
      else if bool_decide (is_Some (signer_address signer))
      then Err "External signer must not carry `address`"
      else Ok tt
  end.

Section snapshot.
Context `{!Base64}.

(** The text of a decoding error of the codec is left open. *)
Definition validate_rule_proposal_policy (policy : RuleProposalPolicy) : result string unit :=
  _ ← validate_strkey_shape (policy_address policy) "C" "policy_address";
  decoded ← ok_or "params_xdr_b64 is not valid URL-safe base64"
                  (base64_decode (params_xdr_b64 policy));
  if RULE_PROPOSAL_MAX_POLICY_PARAMS_BYTES <? count decoded
  then Err ("params_xdr_b64 decodes to at most 8192 bytes, got " +:+ show_Z (count decoded)
            +:+ " bytes")
  else Ok tt.

Definition validate_context_type (t : RuleProposalContextType) : result string unit :=
  match t with
  | DefaultContext => Ok tt
  | CallContract contract => validate_strkey_shape contract "C" "context_type.contract"
  | CreateContract wasm_hash_hex =>
      if negb (len wasm_hash_hex =? 64) || negb (str_all is_ascii_hexdigit wasm_hash_hex)
      then Err ("context_type.wasm_hash_hex must be exactly 64 hex characters, got "
                +:+ show_Z (len wasm_hash_hex) +:+ " characters")
      else Ok tt
  end.

Definition indexed {A} (what : string) (f : A -> result string unit) (idx : nat) (x : A)
  : result string unit :=
  map_err (fun reason => what +:+ "[" +:+ show_nat idx +:+ "]: " +:+ reason) (f x).

Definition validate_context_rule_proposal_snapshot (snapshot : ContextRuleProposalSnapshot)
  : result string unit :=
  if negb (snapshot_version snapshot =? CONTEXT_RULE_PROPOSAL_SNAPSHOT_VERSION)
  then Err ("snapshot_version must be 1, got " +:+ show_Z (snapshot_version snapshot))
  else
  _ ← validate_context_type (context_type snapshot);
  if is_empty (rule_name snapshot) || (RULE_PROPOSAL_MAX_NAME_BYTES <? len (rule_name snapshot))
  then Err ("name must be 1-20 bytes, got " +:+ show_Z (len (rule_name snapshot)) +:+ " bytes")
  else if bool_decide (signers snapshot = [])
  then Err "signers must be non-empty (a rule with no signers can never authorize)"
  else if RULE_PROPOSAL_MAX_SIGNERS <? count (signers snapshot)
  then Err ("signers must have at most 15 entries (OZ MAX_SIGNERS), got "
            +:+ show_Z (count (signers snapshot)))
  else
  _ ← imapM_res (indexed "signers" validate_rule_proposal_signer) 0 (signers snapshot);
  if RULE_PROPOSAL_MAX_POLICIES <? count (policies snapshot)
  then Err ("policies must have at most 5 entries (OZ MAX_POLICIES), got "
            +:+ show_Z (count (policies snapshot)))
  else
  _ ← imapM_res (indexed "policies" validate_rule_proposal_policy) 0 (policies snapshot);
  if bool_decide (auth_rule_ids snapshot = [])
  then Err "auth_rule_ids must be non-empty (at least one context rule ID required)"
  else if RULE_PROPOSAL_MAX_AUTH_RULE_IDS <? count (auth_rule_ids snapshot)
  then Err ("auth_rule_ids must have at most 8 entries, got "
            +:+ show_Z (count (auth_rule_ids snapshot)))
  else Ok tt.
End snapshot.

(** ** WebAuthn assertions *)

(** Half the order of the P-256 group, big-endian. *)
Definition P256_HALF_ORDER_BE : list Z :=
  [0x7f; 0xff; 0xff; 0xff; 0x80; 0x00; 0x00; 0x00; 0x7f; 0xff; 0xff; 0xff; 0xff; 0xff; 0xff; 0xff;
   0xde; 0x73; 0x7d; 0x56; 0xd3; 0x8b; 0xcf; 0x42; 0x79; 0xdc; 0xe5; 0x61; 0x7e; 0x31; 0x92; 0xa8].

Record AssertionInput := {
  ai_credential_id : list Z;
  authenticator_data : list Z;
  client_data_json : list Z;
  signature_compact : list Z;
}.

(** [a > b] on byte slices: lexicographic. *)
Fixpoint slice_gt (a b : list Z) : bool :=
  match a, b with
  | [], _ => false
  | _ :: _, [] => true
  | x :: a', y :: b' => (y <? x) || ((x =? y) && slice_gt a' b')
  end.

Definition validate_signature_compact (signature_compact : list Z) : result string unit :=
  if negb (count signature_compact =? 64)
  then Err ("AssertionInput.signature_compact MUST be 64 bytes (r||s big-endian); got "
            +:+ show_Z (count signature_compact))
  else if slice_gt (drop 32 signature_compact) P256_HALF_ORDER_BE
  then Err "AssertionInput.signature_compact MUST be low-S normalised"
  else Ok tt.

Definition assertion_input_new (credential_id authenticator_data client_data_json
    signature_compact : list Z) : result string AssertionInput :=
  _ ← validate_signature_compact signature_compact;
  Ok {| ai_credential_id := credential_id; authenticator_data := authenticator_data;
        client_data_json := client_data_json; signature_compact := signature_compact |}.

(** ** WebAuthn registrations *)

Definition CREDENTIAL_ID_MIN_BYTES : Z := 16.
Definition CREDENTIAL_ID_MAX_BYTES : Z := 64.
Definition PUBLIC_KEY_UNCOMPRESSED_SEC1_LEN : Z := 65.
Definition TRANSPORTS_MAX_COUNT : Z := 4.
Definition VALID_TRANSPORTS : list string := ["usb"; "internal"; "ble"; "nfc"; "hybrid"].

Record RegistrationInput := {
  ri_credential_id : list Z;
  public_key_uncompressed_sec1 : list Z;
  ri_attestation_blob_b64 : option string;
  transports : list string;
}.

Global Instance RegistrationInput_eq_dec : EqDecision RegistrationInput.
Proof. solve_decision. Defined.

Definition is_base64_std (a : ascii) : bool :=
  is_ascii_alphanumeric a || bool_decide (a = "+"%char) || bool_decide (a = "/"%char)
  || bool_decide (a = "="%char).

Section registration.
Context `{!EscapeDebug}.

Definition VALID_TRANSPORTS_text : string :=
  "[" +:+ String.concat ", " (debug_str <$> VALID_TRANSPORTS) +:+ "]".

Definition validate_transport (t : string) : result string unit :=
  if bool_decide (t ∈ VALID_TRANSPORTS) then Ok tt
  else Err ("transport " +:+ debug_str t +:+ " is not a valid CTAP2 transport (must be one of "
            +:+ VALID_TRANSPORTS_text +:+ ")").

(** The length of the credential id, checked alike for both ceremonies. *)
Definition validate_credential_id_len (credential_id : list Z) : result string unit :=
  if (count credential_id <? CREDENTIAL_ID_MIN_BYTES) || (CREDENTIAL_ID_MAX_BYTES <? count credential_id)
  then Err ("credential_id must be 16–64 bytes (CTAP2 §4.2 / WebAuthn-2 §5.4.7), got "
            +:+ show_Z (count credential_id) +:+ " bytes")
  else Ok tt.

Definition validate_registration_input_invariants (credential_id public_key : list Z)
    (attestation_blob_b64 : option string) (transports : list string) : result string unit :=
  _ ← validate_credential_id_len credential_id;
  if negb (count public_key =? PUBLIC_KEY_UNCOMPRESSED_SEC1_LEN)
  then Err ("public_key_uncompressed_sec1 must be exactly 65 bytes (uncompressed SEC1 P-256: 0x04 || X || Y), got "
            +:+ show_Z (count public_key) +:+ " bytes")
  else if negb (bool_decide (head public_key = Some 4))
  then Err ("public_key_uncompressed_sec1[0] must be 0x04 (uncompressed SEC1 P-256 marker), got 0x"
            +:+ hex_byte (from_option id 0 (head public_key)))
  else if TRANSPORTS_MAX_COUNT <? count transports
  then Err ("transports must have at most 4 entries (CTAP2 transport hints), got "
            +:+ show_Z (count transports))
  else
  _ ← mapM_res validate_transport transports;
  match attestation_blob_b64 with
  | Some blob =>
      if str_all is_base64_std blob then Ok tt
      else Err ("attestation_blob_b64 contains characters outside the standard "
                +:+ "base64 alphabet ([A-Za-z0-9+/=]) per RFC 4648 §4")
  | None => Ok tt
  end.

Definition validate_registration (r : RegistrationInput) : result string unit :=
  validate_registration_input_invariants (ri_credential_id r) (public_key_uncompressed_sec1 r)
    (ri_attestation_blob_b64 r) (transports r).

Definition registration_input_new (credential_id public_key : list Z)
    (attestation_blob_b64 : option string) (transports : list string)
  : result string RegistrationInput :=
  _ ← validate_registration_input_invariants credential_id public_key attestation_blob_b64 transports;
  Ok {| ri_credential_id := credential_id; public_key_uncompressed_sec1 := public_key;
        ri_attestation_blob_b64 := attestation_blob_b64; transports := transports |}.
End registration.

(** ** Low S *)

Lemma be_val_bound l : bytes_ok l -> 0 <= be_val l < 256 ^ Z.of_nat (length l).
Proof.
  induction l as [|b l IH]; intros H; [done|]. bytes_inv. specialize (IH H).
  unfold be_val. cbn [foldl length]. rewrite be_val_acc, Nat2Z.inj_succ, Z.pow_succ_r by lia. nia.
Qed.

(** On byte strings of one length the order of slices is the order of numbers. *)
Lemma slice_gt_be_val a b :
  length a = length b -> bytes_ok a -> bytes_ok b -> slice_gt a b = bool_decide (be_val b < be_val a).
Proof.
  revert b. induction a as [|x a IH]; intros [|y b] Hl Ha Hb; try done.
  bytes_inv. injection Hl as Hl. simpl. rewrite (IH _ Hl Ha Hb).
  unfold be_val. cbn [foldl]. rewrite (be_val_acc a (0 * 256 + x)), (be_val_acc b (0 * 256 + y)), Hl.
  pose proof (be_val_bound a Ha) as Ba. pose proof (be_val_bound b Hb) as Bb.
  rewrite Hl in Ba. unfold be_val in *. set (P := 256 ^ Z.of_nat (length b)) in *.
  destruct (Z.lt_total y x) as [?|[->|?]].
  - rewrite (proj2 (Z.ltb_lt y x)) by done. symmetry. apply bool_decide_eq_true.
    assert (y * P + P <= x * P) by nia. lia.
  - rewrite Z.ltb_irrefl, Z.eqb_refl. apply bool_decide_ext. lia.
  - rewrite (proj2 (Z.ltb_ge y x)), (proj2 (Z.eqb_neq x y)) by lia. symmetry.
    apply bool_decide_eq_false. assert (x * P + P <= y * P) by nia. lia.
Qed.

Definition P256_ORDER : Z :=
  0xffffffff00000000ffffffffffffffffbce6faada7179e84f3b9cac2fc632551.

(** The stored signatures are exactly the 64-byte ones whose second half is a
    scalar of at most half the group order: one of the two equivalent ones. *)
Theorem low_s_exact sig :
  bytes_ok sig ->
  validate_signature_compact sig = Ok tt <->
  length sig = 64%nat /\ be_val (drop 32 sig) <= P256_ORDER / 2.
Proof.
  intros Hb. unfold validate_signature_compact, count.
  destruct (Z.eqb_spec (Z.of_nat (length sig)) 64) as [Hl|Hl]; simpl; [|split; [done|lia]].
  rewrite slice_gt_be_val; [|rewrite length_drop; simpl; lia|by apply Forall_drop|].
  - replace (be_val P256_HALF_ORDER_BE) with (P256_ORDER / 2) by reflexivity.
    case_bool_decide; split; try done; lia.
  - unfold bytes_ok, P256_HALF_ORDER_BE. repeat (apply Forall_cons_2; [done|]). apply Forall_nil_2.
Qed.

Lemma low_s_exact_witness :
  bytes_ok (replicate 64 5) /\ validate_signature_compact (replicate 64 5) = Ok tt.
Proof.
  assert (H : bytes_ok (replicate 64 5)) by by apply Forall_replicate.
  split; [exact H|]. apply (low_s_exact (replicate 64 5) H). by vm_compute.
Defined.
