(* ===== verification/Toml.v ===== *)
(** * TOML documents, as the policy code sees them

    The data of the [toml_edit] crate's [Item] and [Value], with the formatting
    (comments, whitespace, number spelling) the crate keeps next to each value
    as an opaque text [decor].  Tables are insertion-ordered maps.  Only the
    documented accessors the policy code calls are here; the crate's parser and
    printer are the class [TomlCrate].  Files that are lists of records come last. *)

From S2P Require Import Prelude RustStr.
From stdpp Require Import options.

Local Open Scope string_scope.
Local Open Scope list_scope.
Local Open Scope Z_scope.

Record Formatted (A : Type) := MkFormatted { decor : string; fvalue : A }.
Arguments MkFormatted {A} _ _.
Arguments decor {A} _.
Arguments fvalue {A} _.

Record MapOf (A : Type) := MkMap { map_decor : string; entries : list (string * A) }.
Arguments MkMap {A} _ _.
Arguments map_decor {A} _.
Arguments entries {A} _.

(** A float is its 64-bit pattern and a datetime its text: both are only copied. *)
Inductive TomlValue :=
| TString (f : Formatted string)
| TInteger (f : Formatted Z)
| TFloat (f : Formatted Z)
| TBoolean (f : Formatted bool)
| TDatetime (f : Formatted string)
| TArray (array_decor : string) (elems : list TomlValue)
| TInlineTable (t : MapOf TomlValue).

Inductive Item :=
| INone
| IValue (v : TomlValue)
| ITable (t : MapOf Item)
| IArrayOfTables (ts : list (MapOf Item)).

#[local] Abbreviation InlineTable := (MapOf TomlValue).
#[local] Abbreviation Table := (MapOf Item).

(** [IndexMap::get] and [insert]. *)
Fixpoint assoc {A} (k : string) (l : list (string * A)) : option A :=
  match l with
  | [] => None
  | (k', v) :: l' => if bool_decide (k' = k) then Some v else assoc k l'
  end.

Fixpoint assoc_insert {A} (k : string) (v : A) (l : list (string * A)) : list (string * A) :=
  match l with
  | [] => [(k, v)]
  | (k', v') :: l' =>
      if bool_decide (k' = k) then (k, v) :: l' else (k', v') :: assoc_insert k v l'
  end.

Definition map_new {A} : MapOf A := MkMap EmptyString [].
Definition map_insert {A} (k : string) (v : A) (t : MapOf A) : MapOf A :=
  MkMap (map_decor t) (assoc_insert k v (entries t)).
Definition map_clear_decor {A} (t : MapOf A) : MapOf A := MkMap EmptyString (entries t).

Definition inline_get (t : InlineTable) (k : string) : option TomlValue := assoc k (entries t).

(** [Table::get] does not show a slot that holds no item. *)
Definition table_get (t : Table) (k : string) : option Item :=
  match assoc k (entries t) with Some INone => None | o => o end.

Definition as_str (v : TomlValue) : option string :=
  match v with TString f => Some (fvalue f) | _ => None end.
Definition as_integer (v : TomlValue) : option Z :=
  match v with TInteger f => Some (fvalue f) | _ => None end.
Definition as_bool (v : TomlValue) : option bool :=
  match v with TBoolean f => Some (fvalue f) | _ => None end.
Definition as_array (v : TomlValue) : option (list TomlValue) :=
  match v with TArray _ l => Some l | _ => None end.
Definition as_inline_table (v : TomlValue) : option InlineTable :=
  match v with TInlineTable t => Some t | _ => None end.

Definition as_value (i : Item) : option TomlValue :=
  match i with IValue v => Some v | _ => None end.
Definition item_as_str (i : Item) : option string := v ← as_value i; as_str v.
Definition item_as_integer (i : Item) : option Z := v ← as_value i; as_integer v.
Definition item_as_bool (i : Item) : option bool := v ← as_value i; as_bool v.

(** [&dyn TableLike]: a table or an inline table. *)
Inductive TableLike :=
| TlTable (t : Table)
| TlInline (t : InlineTable).

Definition tl_get (t : TableLike) (k : string) : option Item :=
  match t with TlTable t => table_get t k | TlInline t => IValue <$> inline_get t k end.

Definition is_item (i : Item) : bool := match i with INone => false | _ => true end.

Definition tl_keys (t : TableLike) : list string :=
  match t with
  | TlTable t => fst <$> List.filter (fun e => is_item (snd e)) (entries t)
  | TlInline t => fst <$> entries t
  end.

Definition as_table_like (i : Item) : option TableLike :=
  match i with
  | ITable t => Some (TlTable t)
  | IValue (TInlineTable t) => Some (TlInline t)
  | _ => None
  end.

(** [DocumentMut::from_str] and [to_string]. *)
Class TomlCrate := {
  toml_parse : string -> result string Table;
  toml_render : Table -> string;
}.

(** ** Well-formed documents

    The keys of a table are distinct (a TOML document that defines a key twice
    does not parse) and an integer is an [i64]. *)
Fixpoint value_wf (v : TomlValue) : bool :=
  match v with
  | TArray _ l => forallb value_wf l
  | TInteger f => in_rangeb i64 (fvalue f)
  | TInlineTable t =>
      bool_decide (NoDup (map fst (entries t))) && forallb (fun e => value_wf (snd e)) (entries t)
  | _ => true
  end.

Fixpoint item_wf (i : Item) : bool :=
  match i with
  | INone => true
  | IValue v => value_wf v
  | ITable t =>
      bool_decide (NoDup (map fst (entries t))) && forallb (fun e => item_wf (snd e)) (entries t)
  | IArrayOfTables ts =>
      forallb (fun t => bool_decide (NoDup (map fst (entries t)))
                        && forallb (fun e => item_wf (snd e)) (entries t)) ts
  end.

Definition table_wf (t : Table) : bool := item_wf (ITable t).

Class TomlCrateLaws `{!TomlCrate} := {
  toml_parse_wf s t : toml_parse s = Ok t -> table_wf t = true;
}.

(** ** Lemmas *)

(** Induction over values, with the hypothesis for every nested value. *)
Lemma TomlValue_nested_ind (P : TomlValue -> Prop) :
  (forall f, P (TString f)) -> (forall f, P (TInteger f)) -> (forall f, P (TFloat f)) ->
  (forall f, P (TBoolean f)) -> (forall f, P (TDatetime f)) ->
  (forall d l, Forall P l -> P (TArray d l)) ->
  (forall t, Forall (fun e => P (snd e)) (entries t) -> P (TInlineTable t)) ->
  forall v, P v.
Proof.
  intros Hs Hi Hf Hb Hd Ha Ht. fix IH 1. intros [f|f|f|f|f|d l|[d l]]; [auto..| |].
  - apply Ha. induction l; constructor; auto.
  - apply Ht. cbn. induction l as [|[k v] l IHl]; constructor; [apply IH|apply IHl].
Qed.

Lemma assoc_insert_get {A} k (v : A) l : assoc k (assoc_insert k v l) = Some v.
Proof.
  induction l as [|[k' v'] l IH]; simpl; [by rewrite bool_decide_true|].
  destruct (bool_decide_reflect (k' = k)); simpl; [by rewrite bool_decide_true|].
  by rewrite bool_decide_false.
Qed.

Lemma assoc_insert_get_ne {A} k k' (v : A) l : k ≠ k' -> assoc k (assoc_insert k' v l) = assoc k l.
Proof.
  intros Hk. induction l as [|[k0 v0] l IH]; simpl; [by rewrite bool_decide_false by congruence|].
  destruct (bool_decide_reflect (k0 = k')) as [->|]; simpl; [|by rewrite IH].
  by rewrite !bool_decide_false by congruence.
Qed.

(** Inserting the entries of a map one by one copies it. *)
Lemma assoc_insert_fresh {A} k (v : A) l :
  k ∉ map fst l -> assoc_insert k v l = l ++ [(k, v)].
Proof.
  induction l as [|[k0 v0] l IH]; simpl; [done|]. rewrite not_elem_of_cons. intros [? ?].
  rewrite bool_decide_false by congruence. by rewrite IH.
Qed.

Lemma assoc_elem {A} k (v : A) l : assoc k l = Some v -> (k, v) ∈ l.
Proof.
  induction l as [|[k0 v0] l IH]; simpl; [done|].
  destruct (bool_decide_reflect (k0 = k)) as [->|]; intros H.
  - simplify_eq. apply list_elem_of_here.
  - apply list_elem_of_further. auto.
Qed.

Lemma assoc_map {A B} (f : A -> B) k l :
  assoc k (map (fun e => (fst e, f (snd e))) l) = f <$> assoc k l.
Proof. induction l as [|[k0 v0] l IH]; simpl; [done|]. by case_bool_decide. Qed.

(** ** Files of records

    The small stores of the approval code keep one TOML array of records.  The
    [toml] crate is the class [TomlRecords]: what the derived code writes and
    reads, up to the list of records.  [records_demo] stands for it in witnesses. *)

Local Open Scope string_scope.
Local Open Scope list_scope.

Class TomlRecords (Rec Text : Type) := {
  to_string_pretty : list Rec -> result string Text;
  from_str : Text -> result string (list Rec);
}.

(** What is written is read back, and records whose integers fit TOML's signed
    64-bit numbers ([fits]) can be written. *)
Class TomlRecordsLaws {Rec Text : Type} (fits : Rec -> Prop) `{!TomlRecords Rec Text} := {
  records_roundtrip l t : to_string_pretty l = Ok t -> from_str t = Ok l;
  records_written l : Forall fits l -> is_ok (to_string_pretty l) = true;
}.

Section demo.
Context {Rec : Type} (fitsb : Rec -> bool).

Definition records_demo : TomlRecords Rec (list Rec) := {|
  to_string_pretty l := if forallb fitsb l then Ok l else Err "out-of-range value for u64 type";
  from_str t := Ok t;
|}.

Lemma records_demo_laws (fits : Rec -> Prop) :
  (forall r, fits r -> fitsb r = true) -> @TomlRecordsLaws Rec (list Rec) fits records_demo.
Proof.
  intros Hf. split; unfold to_string_pretty, from_str; simpl.
  - intros l t. destruct (forallb _ l); [|done]. by intros [= <-].
  - intros l H. rewrite (proj2 (forallb_forall _ _)); [done|]. intros d Hd%list_elem_of_In.
    rewrite Forall_forall in H. by apply Hf, H.
Qed.
End demo.
