(* ===== verification/AssetId.v ===== *)
(** * Asset identities (stellar-agent-core, [asset_id.rs])

    [CanonicalAsset] with its parsers over the strkey codec, and the amount
    extractor of the pay and create-account tools
    ([policy/v1/criteria/amount_extract.rs]). *)

From S2P Require Import Prelude RustStr Amount Json.
From stdpp Require Import options.

Local Open Scope string_scope.
Local Open Scope Z_scope.

Inductive CanonicalAsset :=
| Native
| Classic (code issuer : string)
| ContractAsset (id : string).

Inductive AssetIdError := AssetNative | AssetForm | AssetCode | AssetIssuer | AssetContract.

Definition AssetIdError_to_string (e : AssetIdError) : string :=
  match e with
  | AssetNative =>
      "is the native asset, whose threshold is cross_check_threshold_stroops; remove the entry"
  | AssetForm => "is not CODE:ISSUER or a contract address (C...)"
  | AssetCode => "has an asset code that is not 1 to 12 ASCII letters and digits"
  | AssetIssuer => "has an issuer that is not a valid account address (G...)"
  | AssetContract => "is not a valid contract address (C...)"
  end.

Definition CanonicalAsset_to_string (a : CanonicalAsset) : string :=
  match a with
  | Native => "native"
  | Classic code issuer => code +:+ ":" +:+ issuer
  | ContractAsset id => id
  end.

Definition parse_amount (a : CanonicalAsset) (input : string)
  : result ValidationError StellarAmount :=
  match a with
  | Native => parse_with_unit input
  | Classic code _ => parse_with_unit_for input code
  | ContractAsset _ => Err (AssetInvalid (CanonicalAsset_to_string a))
  end.

Section parse.
Context `{Strkey}.

Definition classic (code issuer : string) : result AssetIdError CanonicalAsset :=
  if is_empty code || (12 <? String.length code)%nat || negb (str_all is_ascii_alphanumeric code)
  then Err AssetCode else
  key ← map_err (fun _ => AssetIssuer) (public_key_from_string issuer);
  if bool_decide (public_key_to_string key = issuer) then Ok (Classic code issuer)
  else Err AssetIssuer.

Definition contract (id : string) : result AssetIdError CanonicalAsset :=
  key ← map_err (fun _ => AssetContract) (contract_from_string id);
  if bool_decide (contract_to_string key = id) then Ok (ContractAsset id)
  else Err AssetContract.

Definition parse_threshold_key (key : string) : result AssetIdError CanonicalAsset :=
  if eq_ignore_ascii_case key "native" || eq_ignore_ascii_case key "xlm" then Err AssetNative else
  match split_once ":" key with
  | Some (code, issuer) => classic code issuer
  | None => if starts_with "C" key then contract key else Err AssetForm
  end.

(** [Deserialize for CanonicalAsset], on the string it reads. *)
Definition CanonicalAsset_deserialize (text : string) : result AssetIdError CanonicalAsset :=
  if bool_decide (text = "native") then Ok Native else parse_threshold_key text.

(** The assets [classic] and [contract] build: a code of 1 to 12 letters and
    digits with a canonical issuer, or a canonical contract address. *)
Definition wf_asset (a : CanonicalAsset) : Prop :=
  match a with
  | Native => True
  | Classic code issuer => classic code issuer = Ok a
  | ContractAsset id => contract id = Ok a
  end.

Lemma classic_Ok code issuer a :
  classic code issuer = Ok a ->
  a = Classic code issuer /\ str_all is_ascii_alphanumeric code = true /\ is_empty code = false.
Proof.
  unfold classic. destruct (is_empty code); [done|]. cbn [orb].
  destruct (_ <? _)%nat; [done|]. cbn [orb].
  destruct (str_all _ code); [|done]. cbn [negb]. intros Hx. res_inv.
  case_bool_decide; by res_inv.
Qed.

Lemma contract_Ok id a : contract id = Ok a -> a = ContractAsset id.
Proof. unfold contract. intros Hx. res_inv. case_bool_decide; by res_inv. Qed.

Lemma parse_threshold_key_wf key a :
  parse_threshold_key key = Ok a -> wf_asset a /\ CanonicalAsset_to_string a = key.
Proof.
  unfold parse_threshold_key. destruct (_ || _); [done|].
  destruct (split_once ":" key) as [[code issuer]|] eqn:E.
  - intros Hc. destruct (classic_Ok _ _ _ Hc) as [-> _]. split; [done|].
    by apply split_once_Some in E.
  - destruct (starts_with "C" key); [|done]. intros Hc.
    pose proof (contract_Ok _ _ Hc). by subst a.
Qed.

(** What the codec documents of contract addresses: they are base-32 text that
    starts with [C]. *)
Class StrkeyLaws : Prop := {
  contract_text s k :
    contract_from_string s = Ok k -> starts_with "C" s = true /\ contains ":" s = false;
}.

Lemma alphanumeric_no_colon s :
  str_all is_ascii_alphanumeric s = true -> contains ":" s = false.
Proof.
  intros Hs. apply contains_false. eapply str_all_impl; [|exact Hs].
  intros a Ha. apply negb_true_iff, bool_decide_false. by intros ->.
Qed.

Lemma no_colon_not_alias code issuer alias :
  contains ":" (to_ascii_lowercase alias) = false ->
  eq_ignore_ascii_case (code +:+ String ":" issuer) alias = false.
Proof.
  intros Ha. apply bool_decide_eq_false. intros Heq. rewrite <-Heq in Ha.
  rewrite contains_false, lowercase_app, str_all_app, andb_true_iff in Ha. by destruct Ha.
Qed.

(** A canonical asset survives its text form: every asset the parsers can
    build prints to a string that reads back as the same asset. *)
Theorem asset_text_roundtrip `{!StrkeyLaws} a :
  wf_asset a -> CanonicalAsset_deserialize (CanonicalAsset_to_string a) = Ok a.
Proof.
  destruct a as [|code issuer|id]; cbn; intros Hwf; [done| |].
  - unfold CanonicalAsset_deserialize, parse_threshold_key.
    pose proof (classic_Ok _ _ _ Hwf) as (_ & Halnum & _).
    change (code +:+ ":" +:+ issuer) with (code +:+ String ":" issuer).
    rewrite !no_colon_not_alias by done. cbn [orb].
    rewrite split_once_app by by apply alphanumeric_no_colon.
    rewrite bool_decide_false; [done|]. intros Heq.
    pose proof (no_colon_not_alias code issuer "native" eq_refl) as Hn.
    rewrite Heq in Hn. done.
  - unfold contract in Hwf. apply res_bind_Ok in Hwf as (k & Hk & Hc).
    apply map_err_Ok in Hk. pose proof Hk as [HC Hcolon]%contract_text.
    unfold CanonicalAsset_deserialize, parse_threshold_key.
    assert (Hal : eq_ignore_ascii_case id "native" = false /\ eq_ignore_ascii_case id "xlm" = false).
    { destruct id as [|c id]; [done|]. cbn in HC. apply bool_decide_eq_true in HC as ->.
      split; by apply bool_decide_eq_false. }
    destruct Hal as [Hn ->]. rewrite Hn. cbn [orb].
    rewrite (proj2 (split_once_None _ _) Hcolon), HC.
    rewrite bool_decide_false by (intros ->; discriminate Hn).
    unfold contract. by rewrite Hk.
Qed.
End parse.

(** ** A concrete codec for the witnesses

    Letters and digits after the version letter, the key being the bytes. *)
Fixpoint bytes_of (s : string) : list Z :=
  match s with EmptyString => [] | String a s' => byte_val a :: bytes_of s' end.
Fixpoint text_of (l : list Z) : string :=
  match l with [] => EmptyString | z :: l' => String (Ascii.ascii_of_N (Z.to_N z)) (text_of l') end.

Definition demo_parse (c : ascii) (s : string) : result string (list Z) :=
  if starts_with c s && str_all is_ascii_alphanumeric s then Ok (bytes_of s) else Err "the strkey is invalid".

Definition demo_strkey : Strkey := {|
  public_key_from_string := demo_parse "G";
  public_key_to_string := text_of;
  contract_from_string := demo_parse "C";
  contract_to_string := text_of;
|}.

Lemma demo_strkey_laws : @StrkeyLaws demo_strkey.
Proof.
  split. intros s k. cbn. unfold demo_parse.
  destruct (starts_with "C" s) eqn:E1, (str_all is_ascii_alphanumeric s) eqn:E2; try done.
  intros _. split; [done|]. by apply alphanumeric_no_colon.
Defined.

Lemma asset_text_roundtrip_witness :
  @CanonicalAsset_deserialize demo_strkey "USDC:GISSUER" = Ok (Classic "USDC" "GISSUER") /\
  @CanonicalAsset_deserialize demo_strkey "CTOKEN" = Ok (ContractAsset "CTOKEN").
Proof.
  split.
  - apply (@asset_text_roundtrip demo_strkey demo_strkey_laws (Classic "USDC" "GISSUER")).
    by vm_compute.
  - apply (@asset_text_roundtrip demo_strkey demo_strkey_laws (ContractAsset "CTOKEN")).
    by vm_compute.
Defined.
