(* ===== verification/PolicyTypes.v ===== *)
(** * Policy decisions and errors (stellar-agent-core, [policy/mod.rs])

    The tool descriptors, decisions, refusals and errors every policy engine
    uses, the approval request with its URL check, and the no-op engine; before them
    the errors of the approval code. *)

From S2P Require Import Prelude RustStr.
From stdpp Require Import options.

(** ** Errors of the approval code (stellar-agent-core, [approval/error.rs]) *)

Local Open Scope string_scope.
Local Open Scope Z_scope.

(** The kind of an I/O error; its source text is not kept. *)
Inductive IoErrorKind := InvalidInput | WouldBlock | OtherIo (code : Z).

Inductive ApprovalError :=
| Io (kind : IoErrorKind)
| TomlError (detail : string)
| WriterLocked
| DuplicateNonce (approval_nonce_redacted : string)
| NotFound
| Expired
| AlreadyAttested
| Permission (detail : string)
| InvalidNonceLength (expected actual : Z)
| ProcessUidUnavailable (detail : string)
| InvalidEntry (detail : string)
| WrongKind (expected actual : string)
| Invalid (reason : string)
| PendingStoreFull (max : Z)
| DuplicateCredentialId (credential_id_redacted : string)
| SignCounterRegression (credential_id_redacted : string) (presented stored : Z).

(** The slices are by bytes; nonces and credential ids are base64url text. *)
Definition redact_nonce (nonce : string) : string :=
  if 10 <? len nonce
  then String.substring 0 5 nonce +:+ "..."
       +:+ String.substring (String.length nonce - 5) 5 nonce
  else nonce.

Definition duplicate_nonce (nonce : string) : ApprovalError := DuplicateNonce (redact_nonce nonce).
Definition pending_store_full (max : Z) : ApprovalError := PendingStoreFull max.
Definition duplicate_credential_id (id : string) : ApprovalError :=
  DuplicateCredentialId (redact_nonce id).
Definition sign_counter_regression (id : string) (presented stored : Z) : ApprovalError :=
  SignCounterRegression (redact_nonce id) presented stored.

Local Open Scope string_scope.
Local Open Scope list_scope.
Local Open Scope Z_scope.

(** ** Tools *)

Inductive ToolValueKind := TvkReadOnly | TvkMovesValue | TvkOpaqueSign.

Global Instance ToolValueKind_eq_dec : EqDecision ToolValueKind.
Proof. solve_decision. Defined.

Record ToolDescriptor := {
  tool_name : string;
  destructive_hint : bool;
  read_only_hint : bool;
  chain_id_required : bool;
  tool_chain_id : string;
  value_kind : ToolValueKind;
}.

Record McpToolRegistration := {
  reg_name : string;
  reg_destructive_hint : bool;
  reg_read_only_hint : bool;
  reg_chain_id_required : bool;
  reg_value_kind : ToolValueKind;
}.

Definition from_registration (reg : McpToolRegistration) : ToolDescriptor := {|
  tool_name := reg_name reg;
  destructive_hint := reg_destructive_hint reg;
  read_only_hint := reg_read_only_hint reg;
  chain_id_required := reg_chain_id_required reg;
  tool_chain_id := EmptyString;
  value_kind := reg_value_kind reg;
|}.

(** ** Refusals *)

Inductive DenyReason :=
| PerTxCapExceeded (asset : string) (max_stroops attempted_stroops : Z)
| ApprovalAboveExceeded (asset : string) (max_stroops attempted_stroops : Z)
| PerPeriodCapExceeded (asset window : string)
    (max_stroops attempted_stroops period_used_stroops : Z)
| RateLimitExceeded (window : string) (max_calls calls_in_window : Z)
| CounterpartyDenied (kind value : string)
| MinimumReserveBreached (reserve_required_stroops balance_stroops : Z)
| OwnerSignatureStale (rotated_at : string)
| NoMatchingRule
| ExplicitRuleDeny
| CounterpartyKindUnsupported (kind : string)
| EvaluationError (detail : string)
| UnsizableValueEffect (detail : string)
| InnerInvocationCountCapExceeded (max attempted : Z)
| BundleAggregateCapExceeded (asset : option string) (max sum : Z)
| BundleContainsGenericKind (inner_index : Z)
| BundleDenied (inner_index : Z) (deny_reason : DenyReason)
| QuorumNotSatisfied (groups_short_by : list string) (combinator : string)
| HomeDomainNotResolved (home_domain : string)
| Sep10SessionMissing (account_id : string)
| Sep45SessionMissing (contract_id : string).

Definition code (r : DenyReason) : string :=
  match r with
  | PerTxCapExceeded _ _ _ => "per_tx_cap_exceeded"
  | ApprovalAboveExceeded _ _ _ => "approval_above_exceeded"
  | PerPeriodCapExceeded _ _ _ _ _ => "per_period_cap_exceeded"
  | RateLimitExceeded _ _ _ => "rate_limit_exceeded"
  | CounterpartyDenied _ _ => "counterparty_denied"
  | MinimumReserveBreached _ _ => "minimum_reserve_breached"
  | OwnerSignatureStale _ => "owner_signature_stale"
  | NoMatchingRule => "no_matching_rule"
  | CounterpartyKindUnsupported _ => "counterparty_kind_unsupported"
  | EvaluationError _ => "evaluation_error"
  | UnsizableValueEffect _ => "unsizable_value_effect"
  | ExplicitRuleDeny => "explicit_rule_deny"
  | InnerInvocationCountCapExceeded _ _ => "inner_invocation_count_cap_exceeded"
  | BundleAggregateCapExceeded _ _ _ => "bundle_aggregate_cap_exceeded"
  | BundleContainsGenericKind _ => "bundle_contains_generic_kind"
  | BundleDenied _ _ => "bundle_denied"
  | QuorumNotSatisfied _ _ => "quorum_not_satisfied"
  | HomeDomainNotResolved _ => "home_domain_not_resolved"
  | Sep10SessionMissing _ => "sep10.session_missing"
  | Sep45SessionMissing _ => "sep45.session_missing"
  end.

Definition wire_code (r : DenyReason) : string :=
  match r with
  | PerTxCapExceeded _ _ _ => "policy.deny.per_tx_cap_exceeded"
  | ApprovalAboveExceeded _ _ _ => "policy.deny.approval_above_exceeded"
  | PerPeriodCapExceeded _ _ _ _ _ => "policy.deny.per_period_cap_exceeded"
  | RateLimitExceeded _ _ _ => "policy.deny.rate_limit_exceeded"
  | CounterpartyDenied _ _ => "policy.deny.counterparty_denied"
  | MinimumReserveBreached _ _ => "policy.deny.minimum_reserve_breached"
  | OwnerSignatureStale _ => "policy.deny.owner_signature_stale"
  | NoMatchingRule => "policy.deny.no_matching_rule"
  | CounterpartyKindUnsupported _ => "policy.deny.counterparty_kind_unsupported"
  | EvaluationError _ => "policy.deny.evaluation_error"
  | UnsizableValueEffect _ => "policy.deny.unsizable_value_effect"
  | ExplicitRuleDeny => "policy.deny.explicit_rule_deny"
  | InnerInvocationCountCapExceeded _ _ => "policy.deny.inner_invocation_count_cap_exceeded"
  | BundleAggregateCapExceeded _ _ _ => "policy.deny.bundle_aggregate_cap_exceeded"
  | BundleContainsGenericKind _ => "policy.deny.bundle_contains_generic_kind"
  | BundleDenied _ _ => "policy.deny.bundle_denied"
  | QuorumNotSatisfied _ _ => "policy.deny.quorum_not_satisfied"
  | HomeDomainNotResolved _ => "policy.deny.home_domain_not_resolved"
  | Sep10SessionMissing _ => "policy.deny.sep10.session_missing"
  | Sep45SessionMissing _ => "policy.deny.sep45.session_missing"
  end.

(** ** Approval requests *)

Record ApprovalRequest := {
  nonce : string;
  ttl_seconds : Z;
  reason : option string;
  approval_url : option string;
}.

Definition ApprovalRequest_new (n : string) (ttl : Z) : ApprovalRequest :=
  {| nonce := n; ttl_seconds := ttl; reason := None; approval_url := None |}.

Definition with_reason (r : ApprovalRequest) (s : string) : ApprovalRequest :=
  {| nonce := nonce r; ttl_seconds := ttl_seconds r; reason := Some s;
     approval_url := approval_url r |}.

(** The part of a parsed [url::Url] the check reads, and the crate's parser. *)
Record Url := {
  url_scheme : string;
  url_host_str : option string;
  url_port : option Z;
  url_path : string;
}.

Section approval_url.
Context (url_parse : string -> result string Url).

Definition validate_approval_url (candidate : string) : result ApprovalError unit :=
  parsed ← map_err (fun e => Invalid ("approval_url must be a valid URL: " +:+ e))
             (url_parse candidate);
  if negb (bool_decide (url_scheme parsed = "http"))
  then Err (Invalid "approval_url scheme must be http") else
  match url_host_str parsed with
  | None => Err (Invalid "approval_url host is required")
  | Some host =>
      if negb (bool_decide (host = "127.0.0.1")) && negb (eq_ignore_ascii_case host "localhost")
      then Err (Invalid "approval_url host must be 127.0.0.1 or localhost") else
      if negb (bool_decide (is_Some (url_port parsed)))
      then Err (Invalid "approval_url port is required") else
      if negb (starts_with_str "/approve/" (url_path parsed))
         && negb (starts_with_str "/register/" (url_path parsed))
      then Err (Invalid "approval_url path must start with /approve/ or /register/")
      else Ok tt
  end.

Definition with_approval_url (r : ApprovalRequest) (url : string)
  : result ApprovalError ApprovalRequest :=
  _ ← validate_approval_url url;
  Ok {| nonce := nonce r; ttl_seconds := ttl_seconds r; reason := reason r;
        approval_url := Some url |}.
End approval_url.

(** ** Decisions and errors *)

Inductive Decision :=
| Allow
| Deny (r : DenyReason)
| RequireApproval (r : ApprovalRequest).

Inductive PolicyError :=
| NotImplemented
| PolicyFileLoadFailed (detail : string)
| PolicyFileParseFailed (detail : string)
| OwnerSignatureInvalid (profile : string) (rules_with_signed_optional_keys : list nat)
| MissingOwnerKey (profile : string)
| ScopeResolutionFailed (detail : string)
| CriterionEvaluationFailed (detail : string).

Definition str_join (sep : string) (l : list string) : string := String.concat sep l.

(** [split_last]: the last element and the ones before it. *)
Definition signed_optional_keys_remedy (rules : list nat) : string :=
  match reverse rules with
  | [] => EmptyString
  | last_rule :: before =>
      let subject :=
        match before with
        | [] => "rule " +:+ show_nat last_rule +:+ " carries"
        | [first] => "rules " +:+ show_nat first +:+ " and " +:+ show_nat last_rule +:+ " carry"
        | _ => "rules " +:+ str_join ", " (show_nat <$> reverse before) +:+ ", and "
                 +:+ show_nat last_rule +:+ " carry"
        end in
      "; " +:+ subject +:+ " `reason`, `ttl_secs` or `allow_opaque_signing`, which the policy "
      +:+ "signature covers; review the policy and re-sign it with "
      +:+ "`stellar-agent profile sign-policy`"
  end.

(** The [#[error("...")]] texts. *)
Definition PolicyError_to_string (e : PolicyError) : string :=
  match e with
  | NotImplemented =>
      "policy engine not implemented for mainnet destructive tools; "
      +:+ "configure a full policy engine to enable mainnet writes "
      +:+ "(policy.engine_required)"
  | PolicyFileLoadFailed detail => "policy file load failed: " +:+ detail
  | PolicyFileParseFailed detail => "policy file parse failed: " +:+ detail
  | OwnerSignatureInvalid profile rules =>
      "owner signature invalid for profile " +:+ profile +:+ signed_optional_keys_remedy rules
  | MissingOwnerKey profile => "missing owner key in keyring for profile " +:+ profile
  | ScopeResolutionFailed detail => "scope resolution failed: " +:+ detail
  | CriterionEvaluationFailed detail => "criterion evaluation failed: " +:+ detail
  end.

Definition PolicyError_wire_code (e : PolicyError) : string :=
  match e with
  | NotImplemented => "policy.engine_required"
  | PolicyFileLoadFailed _ => "policy.policy_file_load_failed"
  | PolicyFileParseFailed _ => "policy.policy_file_parse_failed"
  | OwnerSignatureInvalid _ _ => "policy.owner_signature_invalid"
  | MissingOwnerKey _ => "policy.missing_owner_key"
  | ScopeResolutionFailed _ => "policy.scope_resolution_failed"
  | CriterionEvaluationFailed _ => "policy.criterion_evaluation_failed"
  end.

(** ** The profile, as far as policy evaluation reads it *)

Record Profile := {
  mcp_signer_default_account : string;
  is_mainnet : bool;
}.

(** ** The no-op engine *)

Definition NoopPolicyEngine_evaluate (tool : ToolDescriptor) (profile : Profile)
  : result PolicyError Decision :=
  if negb (is_mainnet profile) then Ok Allow
  else if negb (destructive_hint tool) then Ok Allow
  else Err NotImplemented.

(** ** Properties *)

(** A refusal's wire code is its local code under [policy.deny.]. *)
Lemma wire_code_prefix r : wire_code r = "policy.deny." +:+ code r.
Proof. by destruct r. Qed.

(** An approval URL is attached only when it is an [http] URL on the loopback
    host with an explicit port, under [/approve/] or [/register/]; nothing else
    of the request changes. *)
Theorem approval_url_loopback_only url_parse r url r' :
  with_approval_url url_parse r url = Ok r' ->
  exists u host, url_parse url = Ok u /\ url_scheme u = "http" /\
    url_host_str u = Some host /\
    (host = "127.0.0.1" \/ eq_ignore_ascii_case host "localhost" = true) /\
    is_Some (url_port u) /\
    (starts_with_str "/approve/" (url_path u) = true \/
     starts_with_str "/register/" (url_path u) = true) /\
    r' = {| nonce := nonce r; ttl_seconds := ttl_seconds r; reason := reason r;
            approval_url := Some url |}.
Proof.
  unfold with_approval_url, validate_approval_url. intros H. res_inv.
  exists x0. destruct (bool_decide (url_scheme x0 = "http")) eqn:Es; [|done].
  apply bool_decide_eq_true in Es. cbn [negb] in *.
  destruct (url_host_str x0) as [host|]; [|done]. exists host.
  destruct (negb _ && negb _) eqn:Eh; [done|].
  destruct (bool_decide (is_Some (url_port x0))) eqn:Ep; [|done]. cbn [negb] in *.
  apply bool_decide_eq_true in Ep. destruct (negb _ && negb _) eqn:Epa in H0; [done|].
  apply andb_false_iff in Eh, Epa. rewrite !negb_false_iff in Eh, Epa.
  rewrite bool_decide_eq_true in Eh. by split_and!.
Qed.

(** A parser that answers one URL, for the witnesses. *)
Definition demo_url : Url := {|
  url_scheme := "http"; url_host_str := Some "LocalHost"; url_port := Some 8080;
  url_path := "/approve/abc"
|}.

Lemma approval_url_loopback_only_witness :
  exists u host, Ok (E := string) demo_url = Ok u /\ url_scheme u = "http" /\
    url_host_str u = Some host /\
    (host = "127.0.0.1" \/ eq_ignore_ascii_case host "localhost" = true) /\
    is_Some (url_port u) /\
    (starts_with_str "/approve/" (url_path u) = true \/
     starts_with_str "/register/" (url_path u) = true) /\
    {| nonce := "n"; ttl_seconds := 60; reason := None;
       approval_url := Some "http://LocalHost:8080/approve/abc" |} =
    {| nonce := "n"; ttl_seconds := 60; reason := None;
       approval_url := Some "http://LocalHost:8080/approve/abc" |}.
Proof.
  apply (approval_url_loopback_only (fun _ => Ok demo_url) (ApprovalRequest_new "n" 60)
    "http://LocalHost:8080/approve/abc"). by vm_compute.
Defined.
