(* ===== verification/StateStore.v ===== *)
(** * The rolling-window state store
      (stellar-agent-core, [policy/v1/criteria/state_store.rs])

    [PolicyStateStore] keeps, per [StateKey], the deque of the entries of a
    rolling window: confirmed entries, which a query evicts once they are older
    than the window, and pending reservations, which it never evicts.  The
    mutex is a flag that says whether it is poisoned.  The file ends with the
    refinement of the evicting store to a log that forgets nothing. *)

From S2P Require Import Prelude RustStr PolicyTypes.
From stdpp Require Import options.

Local Open Scope string_scope.
Local Open Scope list_scope.
Local Open Scope Z_scope.

Definition CLOCK_SKEW_TOLERANCE_MS : Z := 30000.

Record StateKey := StateKey_new {
  profile_name : string;
  scope_specificity : Z;
  bucket : string;
  window_secs : Z;
}.

Global Instance StateKey_eq_dec : EqDecision StateKey.
Proof. solve_decision. Defined.

Global Instance StateKey_countable : Countable StateKey.
Proof.
  refine (inj_countable' (fun k => (profile_name k, scope_specificity k, bucket k, window_secs k))
    (fun '(p, s, b, w) => StateKey_new p s b w) _). by intros [].
Defined.

(** ** Limits and the entries a criterion records *)

Inductive WindowLimit :=
| LimitAmount (asset window : string) (max_stroops : Z)
| LimitCount (window : string) (max_calls : Z).

Record WindowEntry := WindowEntry_new {
  we_key : StateKey;
  we_timestamp_ms : Z;
  we_amount : Z;
  we_limit : WindowLimit;
}.

Definition refusal (e : WindowEntry) (used_stroops calls : Z) : option DenyReason :=
  match we_limit e with
  | LimitAmount asset window max_stroops =>
      let would_use := sat_add i128 used_stroops (we_amount e) in
      if max_stroops <? would_use
      then Some (PerPeriodCapExceeded asset window max_stroops (we_amount e) used_stroops)
      else None
  | LimitCount window max_calls =>
      if max_calls <=? calls then Some (RateLimitExceeded window max_calls calls) else None
  end.

(** ** The store *)

Record StateEntry := MkEntry { timestamp_ms : Z; amount : Z; pending : bool }.

Global Instance StateEntry_eq_dec : EqDecision StateEntry.
Proof. solve_decision. Defined.

Record PolicyStateStore := MkStore {
  inner : gmap StateKey (list StateEntry);
  poisoned : bool;
}.

Inductive StateStoreError :=
| LockPoisoned (detail : string)
| ClockSkewExceeded (entry_ts_ms now_ms : Z).

Definition StateStoreError_to_string (e : StateStoreError) : string :=
  match e with
  | LockPoisoned detail => "state store lock poisoned: " +:+ detail
  | ClockSkewExceeded entry_ts_ms now_ms =>
      "host clock is " +:+ show_Z (sat_sub u64 entry_ts_ms now_ms)
      +:+ " ms behind a pending reservation timestamp; maximum tolerated offset is 30000 ms (host="
      +:+ show_Z now_ms +:+ " ms, reservation=" +:+ show_Z entry_ts_ms +:+ " ms)"
  end.

(** [PoisonError]'s [Display]. *)
Definition poison_detail : string := "poisoned lock: another task failed inside".

Definition PolicyStateStore_new : PolicyStateStore := MkStore ∅ false.

(** [guard.entry(key).or_default()] *)
Definition deque_of (m : gmap StateKey (list StateEntry)) (key : StateKey) : list StateEntry :=
  default [] (m !! key).

Definition cutoff (key : StateKey) (now_ms : Z) : Z :=
  sat_sub u64 now_ms (sat_mul u64 (window_secs key) 1000).

(** The entries [retain] keeps. *)
Definition live (key : StateKey) (now_ms : Z) (e : StateEntry) : bool :=
  pending e || (cutoff key now_ms <=? timestamp_ms e).

(** The first pending entry that is too far in the future. *)
Definition skewed (now_ms : Z) (e : StateEntry) : bool :=
  pending e && (sat_add u64 now_ms CLOCK_SKEW_TOLERANCE_MS <? timestamp_ms e).

(** The accumulation loop over the retained entries. *)
Definition window_sum (l : list StateEntry) : Z :=
  foldl (fun sum e => sat_add i128 sum (amount e)) 0 l.
Definition window_count (l : list StateEntry) : Z :=
  foldl (fun count _ => sat_add u32 count 1) 0 l.

Definition keep (f : StateEntry -> bool) (l : list StateEntry) : list StateEntry :=
  filter (fun e => f e = true) l.

Definition query_window (st : PolicyStateStore) (key : StateKey) (now_ms : Z)
  : result StateStoreError (Z * Z) * PolicyStateStore :=
  if poisoned st then (Err (LockPoisoned poison_detail), st) else
  let deque := deque_of (inner st) key in
  match keep (skewed now_ms) deque with
  | e :: _ =>
      (Err (ClockSkewExceeded (timestamp_ms e) now_ms),
       MkStore (<[key := deque]> (inner st)) (poisoned st))
  | [] =>
      let deque := keep (live key now_ms) deque in
      (Ok (window_sum deque, window_count deque),
       MkStore (<[key := deque]> (inner st)) (poisoned st))
  end.

Definition append_entry (st : PolicyStateStore) (key : StateKey) (ts amt : Z) (pend : bool)
  : result StateStoreError unit * PolicyStateStore :=
  if poisoned st then (Err (LockPoisoned poison_detail), st) else
  (Ok tt, MkStore (<[key := deque_of (inner st) key ++ [MkEntry ts amt pend]]> (inner st))
            (poisoned st)).

Definition append (st : PolicyStateStore) (key : StateKey) (ts amt : Z)
  : result StateStoreError unit * PolicyStateStore := append_entry st key ts amt false.

Definition append_pending (st : PolicyStateStore) (key : StateKey) (ts amt : Z)
  : result StateStoreError unit * PolicyStateStore := append_entry st key ts amt true.

Definition clear (st : PolicyStateStore) : result StateStoreError unit * PolicyStateStore :=
  if poisoned st then (Err (LockPoisoned poison_detail), st)
  else (Ok tt, MkStore ∅ (poisoned st)).

(** ** Lemmas *)

(** *** Sums *)

Fixpoint amounts (l : list StateEntry) : Z :=
  match l with [] => 0 | e :: l' => amount e + amounts l' end.

Lemma amounts_app l1 l2 : amounts (l1 ++ l2) = amounts l1 + amounts l2.
Proof. induction l1 as [|e l1 IH]; cbn; [done|]. rewrite IH. lia. Qed.

Lemma amounts_nonneg l : Forall (fun e => 0 <= amount e) l -> 0 <= amounts l.
Proof. induction 1; cbn; lia. Qed.

(** On non-negative amounts the saturating sum is the sum cut at [i128::MAX]. *)
Lemma sat_foldl_nonneg l s :
  0 <= s <= hi i128 -> Forall (fun e => 0 <= amount e) l ->
  foldl (fun sum e => sat_add i128 sum (amount e)) s l = Z.min (hi i128) (s + amounts l).
Proof.
  intros Hs Hl. revert s Hs. induction Hl as [|e l He Hl IH]; intros s Hs; cbn [foldl amounts].
  - lia.
  - pose proof (amounts_nonneg l Hl). unfold sat_add, clamp in *. rewrite IH; cbn in *; lia.
Qed.

Lemma window_sum_nonneg l :
  Forall (fun e => 0 <= amount e) l -> window_sum l = Z.min (hi i128) (amounts l).
Proof. intros. unfold window_sum. by rewrite sat_foldl_nonneg by (done || cbn; lia). Qed.

Lemma window_count_spec l : window_count l = Z.min (hi u32) (Z.of_nat (length l)).
Proof.
  unfold window_count.
  enough (H : forall s, 0 <= s <= hi u32 ->
    foldl (fun count (_ : StateEntry) => sat_add u32 count 1) s l = Z.min (hi u32) (s + Z.of_nat (length l))).
  { rewrite H; [done|]. cbn. lia. }
  induction l as [|e l IH]; intros s Hs; cbn [foldl length]; [lia|].
  unfold sat_add, clamp in *. rewrite IH; cbn in *; lia.
Qed.

Lemma elem_of_list_length (e : StateEntry) l : e ∈ l -> (1 <= length l)%nat.
Proof. destruct 1; cbn; lia. Qed.

(** *** Liveness *)

Lemma cutoff_mono key t t' : t <= t' -> cutoff key t <= cutoff key t'.
Proof. intros. unfold cutoff, sat_sub. apply clamp_mono. lia. Qed.

Lemma live_mono key t t' e : t <= t' -> live key t' e = true -> live key t e = true.
Proof.
  intros Ht. unfold live. rewrite !orb_true_iff, !Z.leb_le.
  pose proof (cutoff_mono key t t' Ht). naive_solver lia.
Qed.

Lemma keep_app f l1 l2 : keep f (l1 ++ l2) = keep f l1 ++ keep f l2.
Proof. apply filter_app. Qed.

Lemma keep_keep (f g : StateEntry -> bool) l :
  (forall e, g e = true -> f e = true) -> keep g (keep f l) = keep g l.
Proof. intros H. unfold keep. by rewrite list_filter_filter_l by done. Qed.

Lemma Forall_keep (P : StateEntry -> Prop) f l : Forall P l -> Forall P (keep f l).
Proof. rewrite !Forall_forall. intros H e [_ He]%list_elem_of_filter. by apply H. Qed.

Lemma keep_id f l : Forall (fun e => f e = true) l -> keep f l = l.
Proof.
  unfold keep. induction 1 as [|e l He Hl IH]; [done|]. rewrite filter_cons_True by done. congruence.
Qed.

(** The pending entries, which skew looks at, survive an eviction. *)
Lemma skewed_keep_live key t now l :
  keep (skewed now) (keep (live key t) l) = keep (skewed now) l.
Proof. apply keep_keep. intros e. unfold skewed, live. by destruct (pending e). Qed.

Lemma deque_of_insert m key l : deque_of (<[key := l]> m) key = l.
Proof. unfold deque_of. by rewrite lookup_insert_eq. Qed.

Lemma deque_of_insert_ne m key key' l :
  key ≠ key' -> deque_of (<[key := l]> m) key' = deque_of m key'.
Proof. intros. unfold deque_of. by rewrite lookup_insert_ne. Qed.

(** *** The operations *)

(** A query of a healthy store without a skewed reservation. *)
Lemma query_window_Ok st key now r st' :
  query_window st key now = (Ok r, st') ->
  poisoned st = false /\ keep (skewed now) (deque_of (inner st) key) = [] /\
  r = (window_sum (keep (live key now) (deque_of (inner st) key)),
       window_count (keep (live key now) (deque_of (inner st) key))) /\
  st' = MkStore (<[key := keep (live key now) (deque_of (inner st) key)]> (inner st)) false.
Proof.
  unfold query_window. destruct (poisoned st) eqn:Hp; [done|].
  destruct (keep (skewed now) _); [|done]. by intros [= <- <-].
Qed.

Lemma append_entry_Ok st key ts amt pend u st' :
  append_entry st key ts amt pend = (Ok u, st') ->
  poisoned st = false /\
  st' = MkStore (<[key := deque_of (inner st) key ++ [MkEntry ts amt pend]]> (inner st)) false.
Proof. unfold append_entry. destruct (poisoned st) eqn:Hp; [done|]. by intros [= _ <-]. Qed.

(** ** Refinement: the evicting store is a log that forgets nothing *)

Inductive StoreOp :=
| OpQuery (key : StateKey) (now_ms : Z)
| OpAppend (key : StateKey) (ts amt : Z)
| OpAppendPending (key : StateKey) (ts amt : Z)
| OpClear.

Inductive StoreOut :=
| OutQuery (r : result StateStoreError (Z * Z))
| OutUnit (r : result StateStoreError unit).

Definition store_step (st : PolicyStateStore) (op : StoreOp) : StoreOut * PolicyStateStore :=
  match op with
  | OpQuery key now => let '(r, st') := query_window st key now in (OutQuery r, st')
  | OpAppend key ts amt => let '(r, st') := append st key ts amt in (OutUnit r, st')
  | OpAppendPending key ts amt =>
      let '(r, st') := append_pending st key ts amt in (OutUnit r, st')
  | OpClear => let '(r, st') := clear st in (OutUnit r, st')
  end.

(** The specification: a log per key, on which a query is a pure function of
    the entries that are live at its time. *)
Definition Log := gmap StateKey (list StateEntry).

Definition log_query (l : Log) (key : StateKey) (now_ms : Z) : result StateStoreError (Z * Z) :=
  match keep (skewed now_ms) (deque_of l key) with
  | e :: _ => Err (ClockSkewExceeded (timestamp_ms e) now_ms)
  | [] =>
      let entries := keep (live key now_ms) (deque_of l key) in
      Ok (window_sum entries, window_count entries)
  end.

Definition log_add (l : Log) (key : StateKey) (e : StateEntry) : Log :=
  <[key := deque_of l key ++ [e]]> l.

Definition log_step (l : Log) (op : StoreOp) : StoreOut * Log :=
  match op with
  | OpQuery key now => (OutQuery (log_query l key now), l)
  | OpAppend key ts amt => (OutUnit (Ok tt), log_add l key (MkEntry ts amt false))
  | OpAppendPending key ts amt => (OutUnit (Ok tt), log_add l key (MkEntry ts amt true))
  | OpClear => (OutUnit (Ok tt), ∅)
  end.

Fixpoint run {S} (step : S -> StoreOp -> StoreOut * S) (s : S) (ops : list StoreOp)
  : list StoreOut :=
  match ops with
  | [] => []
  | op :: ops' => let '(o, s') := step s op in o :: run step s' ops'
  end.

(** The clock of the queries does not go back. *)
Fixpoint monotone_queries (t : Z) (ops : list StoreOp) : Prop :=
  match ops with
  | [] => True
  | OpQuery _ now :: ops' => t <= now /\ monotone_queries now ops'
  | _ :: ops' => monotone_queries t ops'
  end.

(** The simulation at time [t]: the two hold the same entries that are live. *)
Definition sim (t : Z) (st : PolicyStateStore) (l : Log) : Prop :=
  poisoned st = false /\
  forall key, keep (live key t) (deque_of (inner st) key) = keep (live key t) (deque_of l key).

Lemma sim_later t t' st l : t <= t' -> sim t st l -> sim t' st l.
Proof.
  intros Ht [Hp Hs]. split; [done|]. intros key.
  rewrite <-(keep_keep (live key t)), <-(keep_keep (live key t) _ (deque_of l key)), Hs
    by (intros e; by apply live_mono). done.
Qed.

Lemma sim_skewed t st l key now :
  sim t st l -> keep (skewed now) (deque_of (inner st) key) = keep (skewed now) (deque_of l key).
Proof.
  intros [_ Hs]. by rewrite <-(skewed_keep_live key t), Hs, skewed_keep_live.
Qed.

Lemma sim_query t st l key now r st' :
  sim t st l -> t <= now -> query_window st key now = (r, st') ->
  r = log_query l key now /\ sim now st' l.
Proof.
  intros Hsim Ht. pose proof (sim_later _ _ _ _ Ht Hsim) as [Hp Hs].
  unfold query_window, log_query. rewrite Hp, <-(sim_skewed t st l key now Hsim).
  destruct (keep (skewed now) _) as [|e es]; intros [= <- <-].
  - split; [by rewrite Hs|]. split; [done|]. intros key'. cbn.
    destruct (decide (key = key')) as [<-|Hne].
    + rewrite deque_of_insert, keep_keep; [apply Hs|done].
    + by rewrite deque_of_insert_ne.
  - split; [done|]. split; [done|]. intros key'. cbn.
    destruct (decide (key = key')) as [<-|Hne].
    + by rewrite deque_of_insert.
    + by rewrite deque_of_insert_ne.
Qed.

Lemma sim_append t st l key ts amt pend r st' :
  sim t st l -> append_entry st key ts amt pend = (r, st') ->
  r = Ok tt /\ sim t st' (log_add l key (MkEntry ts amt pend)).
Proof.
  intros [Hp Hs]. unfold append_entry. rewrite Hp. intros [= <- <-].
  split; [done|]. split; [done|]. intros key'. unfold log_add. cbn.
  destruct (decide (key = key')) as [<-|Hne].
  - by rewrite !deque_of_insert, !keep_app, Hs.
  - by rewrite !deque_of_insert_ne.
Qed.

Lemma run_refines ops t st l :
  sim t st l -> monotone_queries t ops -> run store_step st ops = run log_step l ops.
Proof.
  revert t st l. induction ops as [|op ops IH]; intros t st l Hsim Hm; [done|].
  destruct op as [key now|key ts amt|key ts amt|]; cbn in *.
  - destruct Hm as [Ht Hm]. destruct (query_window st key now) as [r st'] eqn:E.
    destruct (sim_query _ _ _ _ _ _ _ Hsim Ht E) as [-> Hsim']. f_equal. by eapply IH.
  - destruct (append st key ts amt) as [r st'] eqn:E.
    destruct (sim_append _ _ _ _ _ _ _ _ _ Hsim E) as [-> Hsim']. f_equal. by eapply IH.
  - destruct (append_pending st key ts amt) as [r st'] eqn:E.
    destruct (sim_append _ _ _ _ _ _ _ _ _ Hsim E) as [-> Hsim']. f_equal. by eapply IH.
  - destruct Hsim as [Hp Hs]. unfold clear. rewrite Hp. f_equal.
    eapply (IH t); [|done]. split; [done|]. done.
Qed.

(** ** Properties *)

(** C20: eviction is invisible.  Under a clock that does not go back, any sequence
    of queries, appends, pending appends and clears answers exactly as on a log
    that never drops an entry and whose queries sum and count the entries that
    are pending or not older than the window. *)
Theorem store_refines_log ops t st :
  poisoned st = false -> monotone_queries t ops ->
  run store_step st ops = run log_step (inner st) ops.
Proof. intros Hp Hm. by eapply run_refines. Qed.

Definition demo_key : StateKey := StateKey_new "alice" 1 "native" 60.

Lemma store_refines_log_witness :
  run store_step PolicyStateStore_new
    [OpAppend demo_key 1000 5; OpQuery demo_key 2000; OpQuery demo_key 62000;
     OpAppendPending demo_key 62000 7; OpQuery demo_key 900000] =
  run log_step ∅
    [OpAppend demo_key 1000 5; OpQuery demo_key 2000; OpQuery demo_key 62000;
     OpAppendPending demo_key 62000 7; OpQuery demo_key 900000].
Proof. apply (store_refines_log _ 0 PolicyStateStore_new); [done|]. cbn. lia. Defined.

(** A pending reservation holds its room until the store is cleared: whatever
    the query time, even past the window, a successful query keeps it in the
    deque and counts it. *)
Theorem pending_never_evicted st key now r st' e :
  query_window st key now = (Ok r, st') ->
  e ∈ deque_of (inner st) key -> pending e = true ->
  e ∈ deque_of (inner st') key /\ 1 <= snd r /\
  (Forall (fun e => 0 <= amount e) (deque_of (inner st) key) -> amount e <= hi i128 ->
   amount e <= fst r).
Proof.
  intros (Hp & Hsk & -> & ->)%query_window_Ok He Hpe. cbn [inner fst snd].
  rewrite deque_of_insert.
  assert (Hk : e ∈ keep (live key now) (deque_of (inner st) key)).
  { apply list_elem_of_filter. split; [|done]. unfold live. by rewrite Hpe. }
  split_and!; [done| |].
  - rewrite window_count_spec. apply elem_of_list_length in Hk. cbn in *. lia.
  - intros Hnn Hmax.
    assert (Hf : Forall (fun e => 0 <= amount e) (keep (live key now) (deque_of (inner st) key)))
      by by apply Forall_keep.
    rewrite window_sum_nonneg by done. apply Z.min_glb; [done|].
    clear -Hk Hf. induction Hk; apply Forall_cons in Hf as [? Hf]; cbn.
    + pose proof (amounts_nonneg _ Hf). lia.
    + specialize (IHHk Hf). lia.
Qed.

Lemma pending_never_evicted_witness :
  let e := MkEntry 1000 7 true in
  let st := MkStore {[demo_key := [MkEntry 0 5 false; e]]} false in
  let st' := MkStore {[demo_key := [e]]} false in
  e ∈ deque_of (inner st') demo_key /\ 1 <= snd (7, 1) /\
  (Forall (fun e => 0 <= amount e) (deque_of (inner st) demo_key) -> amount e <= hi i128 ->
   amount e <= fst (7, 1)).
Proof.
  cbv zeta.
  apply (pending_never_evicted (MkStore {[demo_key := [MkEntry 0 5 false; MkEntry 1000 7 true]]} false)
    demo_key 900000 (7, 1)).
  - by vm_compute.
  - vm_compute. right. left.
  - done.
Defined.
