(* ===== verification/Value.v ===== *)
(** * Bundles and value classes
      (stellar-agent-core, [policy/v1/bundle.rs], [policy/v1/value.rs],
       [policy/v1/criteria/amount_extract.rs])

    The decomposition of a multicall bundle into recognised token transfers, the
    overlay that accumulates the bundle's own use of a window, and the typed
    value effects a call is sized by. *)

From S2P Require Import Prelude RustStr Amount Json AssetId PolicyTypes StateStore.
From stdpp Require Import options.

Local Open Scope string_scope.
Local Open Scope list_scope.
Local Open Scope Z_scope.

(** ** Bundles *)

Inductive InnerOpDescriptor :=
| TokenTransfer (asset from to : string) (amount : Z)
| Generic (target fn_name : string).

(** [BundleStateOverlay] *)
Definition Overlay := gmap StateKey Z.

Definition overlay_get (o : gmap StateKey Z) (key : StateKey) : Z := default 0 (o !! key).

Definition overlay_accumulate (o : gmap StateKey Z) (key : StateKey) (attempted : Z)
  : gmap StateKey Z :=
  <[key := sat_add i128 (overlay_get o key) attempted]> o.

Record BundleView := { inners : list InnerOpDescriptor; overlay : Overlay }.

(** A string, an unsigned number or a signed number, in this order. *)
Definition parse_i128_arg (v : JsonValue) : option Z :=
  match as_str v with
  | Some s => ok (parse_int i128 s)
  | None =>
      match as_u64 v with
      | Some n => Some n
      | None => as_i64 v
      end
  end.

Section decompose.
Context `{Strkey}.

Definition try_decompose_as_token_transfer (target fn_name : string) (args : list JsonValue)
  : option InnerOpDescriptor :=
  _ ← ok (contract_from_string target);
  if negb (bool_decide (fn_name = "transfer")) then None else
  match args with
  | [a0; a1; a2] =>
      from_str ← as_str a0;
      _ ← ok (public_key_from_string from_str);
      to_str ← as_str a1;
      _ ← ok (public_key_from_string to_str);
      amount ← parse_i128_arg a2;
      if amount <? 0 then None else Some (TokenTransfer target from_str to_str amount)
  | _ => None
  end.

Definition decompose_bundle (raw : list (string * string * list JsonValue))
  : list InnerOpDescriptor :=
  (fun '(target, fn_name, args) =>
     default (Generic target fn_name) (try_decompose_as_token_transfer target fn_name args)) <$> raw.
End decompose.

(** ** Value effects *)

Inductive ActionKind :=
| Payment | AccountCreation | Claim | Trustline | DexTrade | Lend | LendWithdraw
| VaultDeposit | VaultWithdraw | X402Payment | MppCharge | ContractInvoke
| PathPaymentReceive.

Definition carries_debit (k : ActionKind) : bool :=
  match k with
  | Payment | AccountCreation | DexTrade | Lend | VaultDeposit | X402Payment | MppCharge
  | ContractInvoke => true
  | Claim | Trustline | LendWithdraw | VaultWithdraw | PathPaymentReceive => false
  end.

Record ValueLeg := MkLeg {
  leg_kind : ActionKind;
  leg_amount : option Z;
  leg_asset : option string;
  leg_destination : option string;
}.

Record ValueEffects := MkEffects { legs : list ValueLeg }.

Inductive OpaqueReason := RawTransactionSignature | RawAuthEntrySignature.

Definition OpaqueReason_as_str (r : OpaqueReason) : string :=
  match r with
  | RawTransactionSignature => "raw_transaction_signature"
  | RawAuthEntrySignature => "raw_auth_entry_signature"
  end.

Inductive ValueClass :=
| VcReadOnly
| VcValue (effects : ValueEffects)
| VcOpaque (reason : OpaqueReason).

Definition single (leg : ValueLeg) : ValueClass := VcValue (MkEffects [leg]).

Definition sole_value_leg (v : ValueClass) : option ValueLeg :=
  match v with
  | VcValue (MkEffects [leg]) => Some leg
  | _ => None
  end.

Definition asset_normalise (asset : string) : string :=
  if eq_ignore_ascii_case asset "native" || eq_ignore_ascii_case asset "xlm"
  then "native" else asset.

Definition is_native_debit (leg : ValueLeg) : bool :=
  carries_debit (leg_kind leg) &&
  match leg_asset leg with
  | Some a => bool_decide (asset_normalise a = "native")
  | None => false
  end.

(** The value class of one inner call of a bundle. *)
Definition value_class_for_inner (inner : InnerOpDescriptor) : ValueClass :=
  match inner with
  | TokenTransfer asset _ to amount =>
      single (MkLeg Payment (Some amount) (Some (asset_normalise asset)) (Some to))
  | Generic _ _ => VcReadOnly
  end.

(** ** Deriving the value class from a tool call *)

Section derive.
Context `{Strkey}.

Definition legacy_asset (caller legacy_key : string) (args : JsonValue)
  : result PolicyError CanonicalAsset :=
  if bool_decide (legacy_key = "amount") then
    let descriptor := default "native" (jget args "asset" ≫= as_str) in
    match parse_threshold_key descriptor with
    | Ok (Classic code issuer) => Ok (Classic code issuer)
    | Err AssetNative => Ok Native
    | Ok _ => Err (CriterionEvaluationFailed
                     (caller +:+ ": payment asset must be native or issued"))
    | Err error => Err (CriterionEvaluationFailed
                     (caller +:+ ": invalid payment asset: " +:+ AssetIdError_to_string error))
    end
  else Ok Native.

Definition resolve_pay_or_create_account_stroops (tool_name : string) (args : JsonValue)
    (caller : string) : result PolicyError (option Z) :=
  match
    (if bool_decide (tool_name = "stellar_pay") || bool_decide (tool_name = "stellar_pay_commit")
     then Some ("amount_stroops", "amount")
     else if bool_decide (tool_name = "stellar_create_account")
             || bool_decide (tool_name = "stellar_create_account_commit")
     then Some ("starting_balance_stroops", "starting_balance")
     else None)
  with
  | None => Ok None
  | Some (resolved_key, legacy_key) =>
      match jget args resolved_key with
      | Some v =>
          ok_or (CriterionEvaluationFailed
                   (caller +:+ ": field '" +:+ resolved_key
                    +:+ "' present but not a valid stroop amount for tool '" +:+ tool_name +:+ "'"))
                (Some <$> value_as_stroops_i64 v)
      | None =>
          match jget args legacy_key ≫= as_str with
          | None => Ok None
          | Some v =>
              asset ← legacy_asset caller legacy_key args;
              let parsed :=
                match parse_amount asset v with
                | Ok a => Ok a
                | Err error => map_err (fun _ => error) (parse_stroops v)
                end in
              stroops ← map_err
                (fun e => CriterionEvaluationFailed
                   (caller +:+ ": failed to parse legacy field '" +:+ legacy_key +:+ "' value '"
                    +:+ v +:+ "' for tool '" +:+ tool_name +:+ "': "
                    +:+ ValidationError_to_string e))
                (as_stroops <$> parsed);
              Ok (Some stroops)
          end
      end
  end.

(** [.ok().flatten()] on the resolved amount. *)
Definition resolved_amount (tool_name : string) (args : JsonValue) : option Z :=
  match resolve_pay_or_create_account_stroops tool_name args "derive" with
  | Ok a => a
  | Err _ => None
  end.

Definition str_field (args : JsonValue) (key : string) : option string :=
  jget args key ≫= as_str.

Definition derive_pay (tool_name : string) (args : JsonValue) : ValueClass :=
  let amount := resolved_amount tool_name args in
  let asset := asset_normalise <$> str_field args "asset" in
  let destination := str_field args "destination" in
  let debit_leg := MkLeg Payment amount asset destination in
  let dest_amount := str_field args "dest_amount_stroops" ≫= fun s => ok (parse_int i64 s) in
  let dest_asset := asset_normalise <$> str_field args "dest_asset" in
  if bool_decide (is_Some dest_amount) || bool_decide (is_Some dest_asset)
  then VcValue (MkEffects [debit_leg; MkLeg PathPaymentReceive dest_amount dest_asset destination])
  else single debit_leg.

Definition derive_value_class (tool_name : string) (args : JsonValue) : ValueClass :=
  let named n := bool_decide (tool_name = n) in
  if named "stellar_pay" || named "stellar_pay_commit" then derive_pay tool_name args
  else if named "stellar_create_account" || named "stellar_create_account_commit" then
    single (MkLeg AccountCreation (resolved_amount tool_name args) (Some "native")
              (str_field args "destination"))
  else if named "stellar_claim" || named "stellar_claim_commit" then
    single (MkLeg Claim None None None)
  else if named "stellar_trustline" || named "stellar_trustline_commit" then
    let asset :=
      match asset_normalise <$> str_field args "asset" with
      | Some a => Some a
      | None =>
          code ← str_field args "asset_code";
          issuer ← str_field args "asset_issuer";
          Some (asset_normalise (code +:+ ":" +:+ issuer))
      end in
    single (MkLeg Trustline None asset None)
  else if named "stellar_sep43_sign_transaction"
          || named "stellar_sep43_sign_and_submit_transaction"
  then VcOpaque RawTransactionSignature
  else if named "stellar_sep43_sign_auth_entry" then VcOpaque RawAuthEntrySignature
  else VcReadOnly.
End derive.

(** ** Lemmas *)

Lemma asset_normalise_idem a : asset_normalise (asset_normalise a) = asset_normalise a.
Proof. unfold asset_normalise at 2 3. destruct (_ || _) eqn:E; [done|]. unfold asset_normalise. by rewrite E. Qed.

Lemma overlay_get_accumulate o key n :
  overlay_get (overlay_accumulate o key n) key = sat_add i128 (overlay_get o key) n.
Proof. unfold overlay_get at 1, overlay_accumulate. by rewrite lookup_insert_eq. Qed.

Lemma overlay_get_accumulate_ne o key key' n :
  key ≠ key' -> overlay_get (overlay_accumulate o key n) key' = overlay_get o key'.
Proof. intros. unfold overlay_get at 1, overlay_accumulate. by rewrite lookup_insert_ne. Qed.

Lemma parse_i128_arg_range v n :
  (forall k, v = JNumber k -> wf_number k) -> parse_i128_arg v = Some n -> in_range i128 n.
Proof.
  intros Hwf. unfold parse_i128_arg, in_range.
  destruct v as [| |k|s| |]; cbn; try done.
  - specialize (Hwf k eq_refl). destruct k; cbn in *; try done; intros [= <-]; unfold in_range in *; cbn in *; lia.
  - intros Hx%ok_Some%parse_int_in_range; [done|]. cbn. lia.
Qed.

(** ** Properties *)

Section properties.
Context `{Strkey}.

(** The calls a bundle recognises as a token transfer. *)
Definition is_transfer (target fn_name : string) (args : list JsonValue)
    (from to : string) (amount : Z) : Prop :=
  fn_name = "transfer" /\ is_ok (contract_from_string target) = true /\
  is_ok (public_key_from_string from) = true /\ is_ok (public_key_from_string to) = true /\
  0 <= amount /\
  exists a2, args = [JString from; JString to; a2] /\ parse_i128_arg a2 = Some amount.

Lemma is_ok_Some {E A} (m : result E A) : is_ok m = true <-> exists a, ok m = Some a.
Proof. destruct m; cbn; naive_solver. Qed.

Lemma as_str_Some v s : as_str v = Some s <-> v = JString s.
Proof. destruct v; cbn; naive_solver. Qed.

Lemma try_decompose_Some target fn_name args d :
  try_decompose_as_token_transfer target fn_name args = Some d <->
  exists from to amount,
    d = TokenTransfer target from to amount /\ is_transfer target fn_name args from to amount.
Proof.
  unfold try_decompose_as_token_transfer, is_transfer. split.
  - rewrite bind_Some. intros (k & Hk & Hd).
    case_bool_decide; [|done]. cbn [negb] in Hd.
    destruct args as [|a0 [|a1 [|a2 [|]]]]; try done.
    apply bind_Some in Hd as (from & ->%as_str_Some & Hd).
    apply bind_Some in Hd as (kf & Hkf & Hd).
    apply bind_Some in Hd as (to & ->%as_str_Some & Hd).
    apply bind_Some in Hd as (kt & Hkt & Hd).
    apply bind_Some in Hd as (amount & Ha & Hd).
    destruct (Z.ltb_spec amount 0); [done|]. injection Hd as <-.
    exists from, to, amount. split; [done|]. rewrite !is_ok_Some. split_and!; eauto.
  - intros (from & to & amount & -> & -> & Hk & Hkf & Hkt & Hnn & a2 & -> & Ha).
    apply is_ok_Some in Hk as [k ->]. apply is_ok_Some in Hkf as [kf Hkf].
    apply is_ok_Some in Hkt as [kt Hkt]. cbn. rewrite Hkf. cbn. rewrite Hkt, Ha. cbn.
    by rewrite (proj2 (Z.ltb_ge _ _)) by lia.
Qed.

(** Bundle decomposition is positional and exact: the [i]-th inner call is a
    token transfer exactly when its target is a contract address, its function is
    [transfer], and its three arguments are two account addresses and a
    non-negative integer; every other call stays a generic call of the same
    target and function, so no call is dropped, reordered or sized wrongly. *)
Theorem decompose_bundle_exact raw i target fn_name args :
  raw !! i = Some (target, fn_name, args) ->
  length (decompose_bundle raw) = length raw /\
  ((exists from to amount, is_transfer target fn_name args from to amount /\
      decompose_bundle raw !! i = Some (TokenTransfer target from to amount)) \/
   (~ (exists from to amount, is_transfer target fn_name args from to amount) /\
      decompose_bundle raw !! i = Some (Generic target fn_name))).
Proof.
  intros Hi. unfold decompose_bundle. rewrite length_fmap, list_lookup_fmap, Hi. cbn.
  split; [done|].
  destruct (try_decompose_as_token_transfer target fn_name args) as [d|] eqn:E; cbn.
  - apply try_decompose_Some in E as (from & to & amount & -> & Ht). left. eauto.
  - right. split; [|done]. intros (from & to & amount & Ht).
    rewrite (proj2 (try_decompose_Some _ _ _ (TokenTransfer target from to amount))) in E; [done|].
    eauto.
Qed.
End properties.

Lemma decompose_bundle_exact_witness :
  let raw := [("CTOK", "transfer", [JString "GA"; JString "GB"; JNumber (PosInt 7)]);
              ("CTOK", "transfer", [JString "GA"; JString "GB"; JString "-1"])] in
  length (@decompose_bundle demo_strkey raw) = 2%nat /\
  ((exists from to amount,
      @is_transfer demo_strkey "CTOK" "transfer" [JString "GA"; JString "GB"; JString "-1"]
        from to amount /\
      @decompose_bundle demo_strkey raw !! 1%nat = Some (TokenTransfer "CTOK" from to amount)) \/
   (~ (exists from to amount,
      @is_transfer demo_strkey "CTOK" "transfer" [JString "GA"; JString "GB"; JString "-1"]
        from to amount) /\
      @decompose_bundle demo_strkey raw !! 1%nat = Some (Generic "CTOK" "transfer"))).
Proof.
  cbv zeta. apply (@decompose_bundle_exact demo_strkey
    [("CTOK", "transfer", [JString "GA"; JString "GB"; JNumber (PosInt 7)]);
     ("CTOK", "transfer", [JString "GA"; JString "GB"; JString "-1"])] 1). done.
Defined.
