(* ===== verification/Context.v ===== *)
(** * Evaluation context, effects and the criterion interface
      (stellar-agent-core, [policy/v1/mod.rs], [policy/v1/criteria/mod.rs],
       [classify_value] of [policy/v1/value.rs])

    A criterion reads its context, the host clock and the shared window store.
    [M] is the monad of these effects: the store persists when a call fails, as
    it does behind the mutex, and every clock read advances a tick, so two reads
    of one evaluation may differ. *)

From S2P Require Import Prelude RustStr Amount Json AssetId PolicyTypes StateStore Value.
From stdpp Require Import options.

Local Open Scope string_scope.
Local Open Scope list_scope.
Local Open Scope Z_scope.

(** ** Views *)

Record AccountReservesView := {
  reserves_stroops : Z -> Z;
  balance_stroops : result string Z;
}.

(** [AccountReserveLookupError]'s [Display]. *)
Definition AccountReserveLookupError_to_string (detail : string) : string :=
  "account reserves view error: " +:+ detail.

Record AccountIdentityView := {
  id_home_domain : option string;
  id_account_id : string;
}.

Record QuorumView := { groups_short : list string; combinator_label : string }.

Record CounterpartyCacheView := {
  has_resolved : string -> bool;
  is_account_listed : string -> string -> bool;
}.

(** [Sep10SessionView] and [Sep45SessionView]: whether a session is active at a
    time in seconds. *)
Definition SessionView := string -> Z -> bool.

Record EvalContext := MkCtx {
  ctx_tool : ToolDescriptor;
  ctx_args : JsonValue;
  ctx_profile_name : string;
  ctx_profile : Profile;
  ctx_value : ValueClass;
  ctx_account_view : option AccountReservesView;
  ctx_identity_view : option AccountIdentityView;
  ctx_quorum : option QuorumView;
  ctx_counterparty_cache : option CounterpartyCacheView;
  ctx_sep10_sessions : option SessionView;
  ctx_sep45_sessions : option SessionView;
  ctx_bundle : option BundleView;
}.

(** [EvalContext::new]; the store is in the world. *)
Definition EvalContext_new (tool : ToolDescriptor) (args : JsonValue) (pname : string)
    (profile : Profile) : EvalContext :=
  MkCtx tool args pname profile VcReadOnly None None None None None None None.

(** ** The value gate *)

Inductive ValueGate :=
| GateNotApplicable
| GateEffects (effects : ValueEffects)
| GateDeny (r : DenyReason).

Definition classify_value (ctx : EvalContext) : ValueGate :=
  match ctx_value ctx with
  | VcValue effects => GateEffects effects
  | VcOpaque _ =>
      match ctx_bundle ctx with
      | Some _ => GateNotApplicable
      | None =>
          GateDeny (UnsizableValueEffect
            ("tool '" +:+ tool_name (ctx_tool ctx)
             +:+ "' signs opaque material whose value effect cannot be "
             +:+ "sized; a value rule matched it without allow_opaque_signing"))
      end
  | VcReadOnly =>
      match value_kind (ctx_tool ctx), ctx_bundle ctx with
      | TvkMovesValue, None =>
          GateDeny (UnsizableValueEffect
            ("tool '" +:+ tool_name (ctx_tool ctx)
             +:+ "' is classified MovesValue but the dispatch site resolved "
             +:+ "no value effects; refusing rather than sizing it as read-only"))
      | _, _ => GateNotApplicable
      end
  end.

(** ** Effects *)

Record World := MkWorld { w_store : PolicyStateStore; w_ticks : nat }.

Definition M (A : Type) : Type := World -> result PolicyError A * World.

Global Instance M_ret : MRet M := fun A a w => (Ok a, w).
Global Instance M_bind : MBind M := fun A B f m w =>
  match m w with
  | (Ok a, w') => f a w'
  | (Err e, w') => (Err e, w')
  end.

Definition lift {A} (r : result PolicyError A) : M A := fun w => (r, w).
Definition throw {A} (e : PolicyError) : M A := fun w => (Err e, w).

(** [SystemTime::now().duration_since(UNIX_EPOCH)] at the [n]-th read: the
    milliseconds since the epoch, or the text of a [SystemTimeError]. *)
Class Clock := clock : nat -> result string Z.

Section effects.
Context `{Clock}.

Definition read_clock : M (result string Z) := fun w =>
  (Ok (clock (w_ticks w)), MkWorld (w_store w) (S (w_ticks w))).

(** The clock in milliseconds, [as_millis() as u64], or a criterion error. *)
Definition now_ms (label : string) : M Z :=
  r ← read_clock;
  match r with
  | Ok ms => mret (wrap_u 64 ms)
  | Err e => throw (CriterionEvaluationFailed (label +:+ e))
  end.

(** The clock in seconds, [as_secs()], or [u64::MAX]. *)
Definition now_unix : M Z :=
  r ← read_clock;
  mret (match r with Ok ms => ms / 1000 | Err _ => hi u64 end).
End effects.

Definition store_op {A} (label : string)
    (f : PolicyStateStore -> result StateStoreError A * PolicyStateStore) : M A := fun w =>
  let '(r, st) := f (w_store w) in
  (map_err (fun e => CriterionEvaluationFailed (label +:+ StateStoreError_to_string e)) r,
   MkWorld st (w_ticks w)).

(** A [for] loop whose body may fail; the results in order. *)
Fixpoint forM {A B} (f : A -> M B) (l : list A) : M (list B) :=
  match l with
  | [] => mret []
  | x :: l' => y ← f x; ys ← forM f l'; mret (y :: ys)
  end.

(** ** The criterion trait *)

Class Criterion (C : Type) := {
  kind : C -> string;
  evaluate : C -> EvalContext -> M (option DenyReason);
  evaluate_decision : C -> EvalContext -> M Decision;
  is_bundle_level : C -> bool;
  accumulate_overlay : C -> EvalContext -> InnerOpDescriptor -> Overlay -> Overlay;
  record_confirmed : C -> EvalContext -> M (list WindowEntry);
}.

(** The trait's default method bodies. *)
Definition default_evaluate_decision {C} (ev : C -> EvalContext -> M (option DenyReason))
    (c : C) (ctx : EvalContext) : M Decision :=
  d ← ev c ctx;
  mret (match d with None => Allow | Some r => Deny r end).

Definition default_accumulate_overlay {C} (_ : C) (_ : EvalContext) (_ : InnerOpDescriptor)
    (o : Overlay) : Overlay := o.

Definition default_record_confirmed {C} (_ : C) (_ : EvalContext) : M (list WindowEntry) := mret [].

(** ** Lemmas *)

Lemma M_bind_Ok {A B} (m : M A) (f : A -> M B) w b w' :
  (m ≫= f) w = (Ok b, w') <-> exists a w1, m w = (Ok a, w1) /\ f a w1 = (Ok b, w').
Proof.
  unfold mbind, M_bind. destruct (m w) as [[a|e] w1]; split; intros Hx; naive_solver.
Qed.

Lemma M_ret_Ok {A} (a b : A) w w' : (mret a : M A) w = (Ok b, w') <-> a = b /\ w = w'.
Proof. unfold mret, M_ret. naive_solver. Qed.

Lemma lift_Ok {A} (r : result PolicyError A) a w w' :
  lift r w = (Ok a, w') <-> r = Ok a /\ w = w'.
Proof. unfold lift. naive_solver. Qed.

Lemma store_op_Ok {A} label (f : PolicyStateStore -> result StateStoreError A * PolicyStateStore)
    w a w' :
  store_op label f w = (Ok a, w') <->
  exists st, f (w_store w) = (Ok a, st) /\ w' = MkWorld st (w_ticks w).
Proof.
  unfold store_op. destruct (f (w_store w)) as [[x|e] st]; cbn; naive_solver.
Qed.

Lemma now_ms_Ok `{Clock} label w t w' :
  now_ms label w = (Ok t, w') <->
  exists ms, clock (w_ticks w) = Ok ms /\ t = wrap_u 64 ms /\
    w' = MkWorld (w_store w) (S (w_ticks w)).
Proof.
  unfold now_ms, read_clock. rewrite M_bind_Ok. split.
  - intros (r & w1 & [= <- <-] & Hr). destruct (clock _) as [ms|e] eqn:E; [|done].
    injection Hr as <- <-. eauto.
  - intros (ms & E & -> & ->). eexists _, _. split; [done|]. by rewrite E.
Qed.

(** Inversion of a run of [M] that ended in [Ok]. *)
Ltac m_inv :=
  repeat match goal with
  | Hx : (_ ≫= _) ?w = (Ok _, _) |- _ =>
      let a := fresh "a" in let w1 := fresh "w" in let H1 := fresh Hx in
      apply M_bind_Ok in Hx as (a & w1 & H1 & Hx)
  | Hx : (mret _) _ = (Ok _, _) |- _ => apply M_ret_Ok in Hx as [Hx ?]; try subst
  | Hx : lift _ _ = (Ok _, _) |- _ => apply lift_Ok in Hx as [Hx ?]; try subst
  | Hx : throw _ _ = (Ok _, _) |- _ => discriminate Hx
  | Hx : store_op _ _ _ = (Ok _, _) |- _ =>
      let st := fresh "st" in apply store_op_Ok in Hx as (st & Hx & ->)
  end.
