(* ===== verification/Criteria.v ===== *)
(** * The policy criteria (stellar-agent-core, [policy/v1/criteria/])

    One record per criterion with its [Criterion] instance: the transaction and
    rolling-window caps, the rate limits, the reserve guard, the bundle-level
    caps and the session, quorum and home-domain guards.  The counterparty
    allowlist is in [Allowlist.v]. *)

From S2P Require Import Prelude RustStr Amount Json AssetId PolicyTypes StateStore Value Context.
From stdpp Require Import options.

Local Open Scope string_scope.
Local Open Scope list_scope.
Local Open Scope Z_scope.

Definition crit_failed {A} (detail : string) : result PolicyError A :=
  Err (CriterionEvaluationFailed detail).

(** ** Debit sums ([per_tx_cap.rs], [asset_debit_sum]) *)

Inductive AssetDebitSum :=
| SumNotApplicable
| SumDeny (r : DenyReason)
| SumAmount (sum : Z).

(** The loop over the legs: skip inflows and other assets, refuse a debit
    without an asset or without an amount, add up the rest. *)
Fixpoint debit_loop (criterion tool_name criterion_asset : string)
    (matched : bool) (sum : Z) (ls : list ValueLeg) : result PolicyError (bool * Z) :=
  match ls with
  | [] => Ok (matched, sum)
  | leg :: ls' =>
      if negb (carries_debit (leg_kind leg))
      then debit_loop criterion tool_name criterion_asset matched sum ls' else
      match leg_asset leg with
      | None => crit_failed (criterion +:+ ": debit leg of tool '" +:+ tool_name
                             +:+ "' carries no asset")
      | Some leg_asset =>
          if negb (bool_decide (asset_normalise leg_asset = criterion_asset))
          then debit_loop criterion tool_name criterion_asset matched sum ls' else
          match leg_amount leg with
          | None => crit_failed (criterion +:+ ": unresolvable amount for a debit leg of tool '"
                                 +:+ tool_name +:+ "'")
          | Some a => debit_loop criterion tool_name criterion_asset true (sat_add i128 sum a) ls'
          end
      end
  end.

Definition asset_debit_sum (ctx : EvalContext) (asset criterion : string)
  : result PolicyError AssetDebitSum :=
  let criterion_asset := asset_normalise asset in
  match classify_value ctx with
  | GateNotApplicable => Ok SumNotApplicable
  | GateDeny r => Ok (SumDeny r)
  | GateEffects effects =>
      '(matched, sum) ← debit_loop criterion (tool_name (ctx_tool ctx)) criterion_asset
                          false 0 (legs effects);
      Ok (if (matched : bool) then SumAmount sum else SumNotApplicable)
  end.

(** ** Per-transaction cap *)

Record PerTxCapCriterion := { ptc_asset : string; ptc_max_stroops : Z }.

Definition PerTxCap_evaluate (c : PerTxCapCriterion) (ctx : EvalContext)
  : M (option DenyReason) := lift (
  s ← asset_debit_sum ctx (ptc_asset c) "per_tx_cap";
  Ok (match s with
      | SumNotApplicable => None
      | SumDeny r => Some r
      | SumAmount sum =>
          if ptc_max_stroops c <? sum
          then Some (PerTxCapExceeded (ptc_asset c) (ptc_max_stroops c) sum) else None
      end)).

Global Instance PerTxCap_criterion : Criterion PerTxCapCriterion := {
  kind _ := "per_tx_cap";
  evaluate := PerTxCap_evaluate;
  evaluate_decision := default_evaluate_decision PerTxCap_evaluate;
  is_bundle_level _ := false;
  accumulate_overlay := default_accumulate_overlay;
  record_confirmed := default_record_confirmed;
}.

(** ** Approval threshold *)

(** [(DEFAULT_TTL_MS / 1_000) as u32] with the approval store's 24-hour default. *)
Definition DEFAULT_TTL_MS : Z := 86400000.
Definition DEFAULT_APPROVAL_TTL_SECONDS : Z := wrap_u 32 (DEFAULT_TTL_MS / 1000).

Record ApprovalAboveCriterion := { aa_asset : string; aa_max_stroops : Z }.

Definition ApprovalAbove_evaluate (c : ApprovalAboveCriterion) (ctx : EvalContext)
  : M (option DenyReason) := lift (
  s ← asset_debit_sum ctx (aa_asset c) "approval_above";
  Ok (match s with
      | SumNotApplicable => None
      | SumDeny r => Some r
      | SumAmount sum =>
          if aa_max_stroops c <? sum
          then Some (ApprovalAboveExceeded (aa_asset c) (aa_max_stroops c) sum) else None
      end)).

Definition ApprovalAbove_evaluate_decision (c : ApprovalAboveCriterion) (ctx : EvalContext)
  : M Decision :=
  d ← ApprovalAbove_evaluate c ctx;
  mret (match d with
        | None => Allow
        | Some (ApprovalAboveExceeded asset max_stroops attempted_stroops) =>
            RequireApproval (with_reason
              (ApprovalRequest_new EmptyString DEFAULT_APPROVAL_TTL_SECONDS)
              ("approval_above: " +:+ show_Z attempted_stroops +:+ " stroops of " +:+ asset
               +:+ " exceeds threshold " +:+ show_Z max_stroops +:+ " stroops"))
        | Some r => Deny r
        end).

Global Instance ApprovalAbove_criterion : Criterion ApprovalAboveCriterion := {
  kind _ := "approval_above";
  evaluate := ApprovalAbove_evaluate;
  evaluate_decision := ApprovalAbove_evaluate_decision;
  is_bundle_level _ := false;
  accumulate_overlay := default_accumulate_overlay;
  record_confirmed := default_record_confirmed;
}.

(** ** Windows *)

Record Window := { secs : Z; label : string }.

Definition Window_parse (s : string) : result PolicyError Window :=
  if bool_decide (s = "1m") then Ok {| secs := 60; label := "1m" |}
  else if bool_decide (s = "5m") then Ok {| secs := 300; label := "5m" |}
  else if bool_decide (s = "1h") then Ok {| secs := 3600; label := "1h" |}
  else if bool_decide (s = "1d") then Ok {| secs := 86400; label := "1d" |}
  else if bool_decide (s = "1w") then Ok {| secs := 604800; label := "1w" |}
  else Err (PolicyFileParseFailed
         ("per_period_cap: unsupported window '" +:+ s +:+ "'; accepted: 1m, 5m, 1h, 1d, 1w")).

(** ** Per-period cap *)

Record PerPeriodCapCriterion := {
  ppc_asset : string;
  ppc_window : Window;
  ppc_max_stroops : Z;
}.

Definition ppc_window_limit (c : PerPeriodCapCriterion) : WindowLimit :=
  LimitAmount (ppc_asset c) (label (ppc_window c)) (ppc_max_stroops c).

(** The key of an amount window, shared by [per_period_cap] and
    [bundle_per_period_cap]. *)
Definition amount_key (ctx : EvalContext) (criterion_asset : string) (w : Window) : StateKey :=
  StateKey_new (ctx_profile_name ctx) 1 criterion_asset (secs w).

(** The key of a call-count window, shared by [rate_limit] and
    [bundle_rate_limit]. *)
Definition rate_key (ctx : EvalContext) (w : Window) : StateKey :=
  StateKey_new (ctx_profile_name ctx) 1 "rate_limit" (secs w).

(** What the bundle under evaluation has already used of a window. *)
Definition bundle_accumulated (ctx : EvalContext) (key : StateKey) : Z :=
  match ctx_bundle ctx with Some view => overlay_get (overlay view) key | None => 0 end.

(** The legs [record_confirmed] adds up; it skips what [evaluate] refuses. *)
Fixpoint record_loop (criterion_asset : string) (matched : bool) (sum : Z) (ls : list ValueLeg)
  : bool * Z :=
  match ls with
  | [] => (matched, sum)
  | leg :: ls' =>
      match carries_debit (leg_kind leg), leg_asset leg, leg_amount leg with
      | true, Some leg_asset, Some a =>
          if bool_decide (asset_normalise leg_asset = criterion_asset)
          then record_loop criterion_asset true (sat_add i128 sum a) ls'
          else record_loop criterion_asset matched sum ls'
      | _, _, _ => record_loop criterion_asset matched sum ls'
      end
  end.

Section clocked.
Context `{Clock}.

Definition check_window (c : PerPeriodCapCriterion) (ctx : EvalContext)
    (criterion_asset : string) (attempted_stroops : Z) : M (option DenyReason) :=
  now ← now_ms "per_period_cap: system clock is before UNIX epoch: ";
  let state_key := amount_key ctx criterion_asset (ppc_window c) in
  used ← store_op "per_period_cap: state store error: " (fun st => query_window st state_key now);
  let period_used_stroops := sat_add i128 (fst used) (bundle_accumulated ctx state_key) in
  let would_use := sat_add i128 period_used_stroops attempted_stroops in
  mret (if ppc_max_stroops c <? would_use
        then Some (PerPeriodCapExceeded (ppc_asset c) (label (ppc_window c)) (ppc_max_stroops c)
                     attempted_stroops period_used_stroops)
        else None).

Definition PerPeriodCap_evaluate (c : PerPeriodCapCriterion) (ctx : EvalContext)
  : M (option DenyReason) :=
  let criterion_asset := asset_normalise (ppc_asset c) in
  match classify_value ctx with
  | GateNotApplicable => mret None
  | GateDeny r => mret (Some r)
  | GateEffects effects =>
      r ← lift (debit_loop "per_period_cap" (tool_name (ctx_tool ctx)) criterion_asset
                  false 0 (legs effects));
      if negb (fst r) then mret None else check_window c ctx criterion_asset (snd r)
  end.

Definition PerPeriodCap_accumulate_overlay (c : PerPeriodCapCriterion) (ctx : EvalContext)
    (i : InnerOpDescriptor) (o : Overlay) : Overlay :=
  match i with
  | Generic _ _ => o
  | TokenTransfer asset _ _ amount =>
      let criterion_asset := asset_normalise (ppc_asset c) in
      if bool_decide (criterion_asset = asset_normalise asset)
      then overlay_accumulate o (amount_key ctx criterion_asset (ppc_window c)) amount
      else o
  end.

Definition PerPeriodCap_record_confirmed (c : PerPeriodCapCriterion) (ctx : EvalContext)
  : M (list WindowEntry) :=
  match ctx_value ctx with
  | VcValue effects =>
      let criterion_asset := asset_normalise (ppc_asset c) in
      let '(matched, sum) := record_loop criterion_asset false 0 (legs effects) in
      if negb matched then mret [] else
      now ← now_ms "per_period_cap: system clock is before UNIX epoch: ";
      let state_key := amount_key ctx criterion_asset (ppc_window c) in
      _ ← store_op "per_period_cap: record_confirmed state store error: "
            (fun st => append st state_key now sum);
      mret [WindowEntry_new state_key now sum (ppc_window_limit c)]
  | _ => mret []
  end.

Global Instance PerPeriodCap_criterion : Criterion PerPeriodCapCriterion := {
  kind _ := "per_period_cap";
  evaluate := PerPeriodCap_evaluate;
  evaluate_decision := default_evaluate_decision PerPeriodCap_evaluate;
  is_bundle_level _ := false;
  accumulate_overlay := PerPeriodCap_accumulate_overlay;
  record_confirmed := PerPeriodCap_record_confirmed;
}.

(** ** Rate limit *)

Record RateLimitCriterion := { rl_window : Window; rl_max_calls : Z }.

Definition rl_window_limit (c : RateLimitCriterion) : WindowLimit :=
  LimitCount (label (rl_window c)) (rl_max_calls c).

(** [u32::try_from(n).unwrap_or(u32::MAX)] *)
Definition u32_or_max (n : Z) : Z := default (hi u32) (checked u32 n).

Definition RateLimit_evaluate (c : RateLimitCriterion) (ctx : EvalContext)
  : M (option DenyReason) :=
  now ← now_ms "rate_limit: system clock is before UNIX epoch: ";
  let state_key := rate_key ctx (rl_window c) in
  used ← store_op "rate_limit: state store error: " (fun st => query_window st state_key now);
  let calls_in_window :=
    sat_add u32 (snd used) (u32_or_max (Z.max (bundle_accumulated ctx state_key) 0)) in
  mret (if rl_max_calls c <=? calls_in_window
        then Some (RateLimitExceeded (label (rl_window c)) (rl_max_calls c) calls_in_window)
        else None).

Definition RateLimit_accumulate_overlay (c : RateLimitCriterion) (ctx : EvalContext)
    (_ : InnerOpDescriptor) (o : Overlay) : Overlay :=
  overlay_accumulate o (rate_key ctx (rl_window c)) 1.

Definition RateLimit_record_confirmed (c : RateLimitCriterion) (ctx : EvalContext)
  : M (list WindowEntry) :=
  match ctx_bundle ctx with
  | Some _ => mret []
  | None =>
      now ← now_ms "rate_limit: record_confirmed system clock is before UNIX epoch: ";
      let state_key := rate_key ctx (rl_window c) in
      _ ← store_op "rate_limit: record_confirmed state store error: "
            (fun st => append st state_key now 1);
      mret [WindowEntry_new state_key now 1 (rl_window_limit c)]
  end.

Global Instance RateLimit_criterion : Criterion RateLimitCriterion := {
  kind _ := "rate_limit";
  evaluate := RateLimit_evaluate;
  evaluate_decision := default_evaluate_decision RateLimit_evaluate;
  is_bundle_level _ := false;
  accumulate_overlay := RateLimit_accumulate_overlay;
  record_confirmed := RateLimit_record_confirmed;
}.

(** ** Bundle per-period cap *)

Record BundlePerPeriodCapCriterion := {
  bpp_asset : string;
  bpp_window : Window;
  bpp_max_stroops : Z;
}.

Definition bpp_window_limit (c : BundlePerPeriodCapCriterion) : WindowLimit :=
  LimitAmount (bpp_asset c) (label (bpp_window c)) (bpp_max_stroops c).

Fixpoint bpp_loop (c : BundlePerPeriodCapCriterion) (criterion_asset : string) (recorded : Z)
    (idx : nat) (running_sum : Z) (l : list InnerOpDescriptor) : option DenyReason :=
  match l with
  | [] => None
  | Generic _ _ :: l' => bpp_loop c criterion_asset recorded (S idx) running_sum l'
  | TokenTransfer asset _ _ amount :: l' =>
      if negb (bool_decide (asset_normalise asset = criterion_asset))
      then bpp_loop c criterion_asset recorded (S idx) running_sum l' else
      let would_use := sat_add i128 (sat_add i128 recorded running_sum) amount in
      if bpp_max_stroops c <? would_use then
        Some (BundleDenied (u32_or_max (Z.of_nat idx))
          (PerPeriodCapExceeded (bpp_asset c) (label (bpp_window c)) (bpp_max_stroops c)
             amount (sat_add i128 recorded running_sum)))
      else bpp_loop c criterion_asset recorded (S idx) (sat_add i128 running_sum amount) l'
  end.

Definition BundlePerPeriodCap_evaluate (c : BundlePerPeriodCapCriterion) (ctx : EvalContext)
  : M (option DenyReason) :=
  match ctx_bundle ctx with
  | None => mret None
  | Some view =>
      let criterion_asset := asset_normalise (bpp_asset c) in
      now ← now_ms "bundle_per_period_cap: system clock is before UNIX epoch: ";
      let state_key := amount_key ctx criterion_asset (bpp_window c) in
      used ← store_op "bundle_per_period_cap: state store error: "
               (fun st => query_window st state_key now);
      mret (bpp_loop c criterion_asset (fst used) 0 0 (inners view))
  end.

(** The transfers of a bundle in one asset, in order. *)
Definition transfers_of (criterion_asset : string) (l : list InnerOpDescriptor) : list Z :=
  omap (fun i => match i with
                 | TokenTransfer asset _ _ amount =>
                     if bool_decide (asset_normalise asset = criterion_asset) then Some amount
                     else None
                 | Generic _ _ => None
                 end) l.

Definition BundlePerPeriodCap_record_confirmed (c : BundlePerPeriodCapCriterion)
    (ctx : EvalContext) : M (list WindowEntry) :=
  match ctx_bundle ctx with
  | None => mret []
  | Some view =>
      let criterion_asset := asset_normalise (bpp_asset c) in
      now ← now_ms "bundle_per_period_cap: record_confirmed system clock is before UNIX epoch: ";
      let state_key := amount_key ctx criterion_asset (bpp_window c) in
      forM (fun amt =>
              _ ← store_op "bundle_per_period_cap: record_confirmed state store error: "
                    (fun st => append st state_key now amt);
              mret (WindowEntry_new state_key now amt (bpp_window_limit c)))
           (transfers_of criterion_asset (inners view))
  end.

Global Instance BundlePerPeriodCap_criterion : Criterion BundlePerPeriodCapCriterion := {
  kind _ := "bundle_per_period_cap";
  evaluate := BundlePerPeriodCap_evaluate;
  evaluate_decision := default_evaluate_decision BundlePerPeriodCap_evaluate;
  is_bundle_level _ := true;
  accumulate_overlay := default_accumulate_overlay;
  record_confirmed := BundlePerPeriodCap_record_confirmed;
}.

(** ** Bundle rate limit *)

Record BundleRateLimitCriterion := { brl_window : Window; brl_max_calls : Z }.

Definition brl_window_limit (c : BundleRateLimitCriterion) : WindowLimit :=
  LimitCount (label (brl_window c)) (brl_max_calls c).

Fixpoint brl_loop (c : BundleRateLimitCriterion) (calls_in_window : Z) (idx : nat)
    (l : list InnerOpDescriptor) : option DenyReason :=
  match l with
  | [] => None
  | _ :: l' =>
      let idx_u32 := u32_or_max (Z.of_nat idx) in
      let bundle_calls_so_far := sat_add u32 calls_in_window idx_u32 in
      if brl_max_calls c <=? bundle_calls_so_far then
        Some (BundleDenied idx_u32
          (RateLimitExceeded (label (brl_window c)) (brl_max_calls c) bundle_calls_so_far))
      else brl_loop c calls_in_window (S idx) l'
  end.

Definition BundleRateLimit_evaluate (c : BundleRateLimitCriterion) (ctx : EvalContext)
  : M (option DenyReason) :=
  match ctx_bundle ctx with
  | None => mret None
  | Some view =>
      now ← now_ms "bundle_rate_limit: system clock is before UNIX epoch: ";
      let state_key := rate_key ctx (brl_window c) in
      used ← store_op "bundle_rate_limit: state store error: "
               (fun st => query_window st state_key now);
      mret (brl_loop c (snd used) 0 (inners view))
  end.

Definition BundleRateLimit_record_confirmed (c : BundleRateLimitCriterion) (ctx : EvalContext)
  : M (list WindowEntry) :=
  match ctx_bundle ctx with
  | None => mret []
  | Some view =>
      now ← now_ms "bundle_rate_limit: record_confirmed system clock is before UNIX epoch: ";
      let state_key := rate_key ctx (brl_window c) in
      forM (fun _ : InnerOpDescriptor =>
              _ ← store_op "bundle_rate_limit: record_confirmed state store error: "
                    (fun st => append st state_key now 1);
              mret (WindowEntry_new state_key now 1 (brl_window_limit c)))
           (inners view)
  end.

Global Instance BundleRateLimit_criterion : Criterion BundleRateLimitCriterion := {
  kind _ := "bundle_rate_limit";
  evaluate := BundleRateLimit_evaluate;
  evaluate_decision := default_evaluate_decision BundleRateLimit_evaluate;
  is_bundle_level _ := true;
  accumulate_overlay := default_accumulate_overlay;
  record_confirmed := BundleRateLimit_record_confirmed;
}.

(** ** Session guards *)

Inductive Sep10SessionActiveCriterion := Sep10SessionActive.

Definition Sep10SessionActive_evaluate (_ : Sep10SessionActiveCriterion) (ctx : EvalContext)
  : M (option DenyReason) :=
  match ctx_sep10_sessions ctx with
  | None => throw (CriterionEvaluationFailed
      ("sep10_session_active criterion configured for tool '" +:+ tool_name (ctx_tool ctx)
       +:+ "' but sep10_sessions view was not populated by the dispatch site; "
       +:+ "EvalContext::with_sep10_sessions() required"))
  | Some is_active =>
      let account_id := mcp_signer_default_account (ctx_profile ctx) in
      now ← now_unix;
      mret (if is_active account_id now then None else Some (Sep10SessionMissing account_id))
  end.

Global Instance Sep10SessionActive_criterion : Criterion Sep10SessionActiveCriterion := {
  kind _ := "sep10_session_active";
  evaluate := Sep10SessionActive_evaluate;
  evaluate_decision := default_evaluate_decision Sep10SessionActive_evaluate;
  is_bundle_level _ := false;
  accumulate_overlay := default_accumulate_overlay;
  record_confirmed := default_record_confirmed;
}.

Inductive Sep45SessionActiveCriterion := Sep45SessionActive.

Definition Sep45SessionActive_evaluate (_ : Sep45SessionActiveCriterion) (ctx : EvalContext)
  : M (option DenyReason) :=
  match ctx_sep45_sessions ctx with
  | None => throw (CriterionEvaluationFailed
      ("sep45_session_active criterion configured for tool '" +:+ tool_name (ctx_tool ctx)
       +:+ "' but sep45_sessions view was not populated by the dispatch site; "
       +:+ "EvalContext::with_sep45_sessions() required"))
  | Some is_active =>
      let contract_id := mcp_signer_default_account (ctx_profile ctx) in
      now ← now_unix;
      mret (if is_active contract_id now then None else Some (Sep45SessionMissing contract_id))
  end.

Global Instance Sep45SessionActive_criterion : Criterion Sep45SessionActiveCriterion := {
  kind _ := "sep45_session_active";
  evaluate := Sep45SessionActive_evaluate;
  evaluate_decision := default_evaluate_decision Sep45SessionActive_evaluate;
  is_bundle_level _ := false;
  accumulate_overlay := default_accumulate_overlay;
  record_confirmed := default_record_confirmed;
}.
End clocked.

(** ** Minimum reserve *)

Definition BASE_RESERVE_STROOPS : Z := 5000000.

Record MinimumReserveCriterion := { mr_margin_stroops : Z }.

Inductive AmountOutcome :=
| OutcomeDebit (amount : Z)
| OutcomeDeny (r : DenyReason).

Fixpoint native_debit_loop (tool_name : string) (sum : Z) (ls : list ValueLeg)
  : result PolicyError Z :=
  match ls with
  | [] => Ok sum
  | leg :: ls' =>
      if negb (is_native_debit leg) then native_debit_loop tool_name sum ls' else
      match leg_amount leg with
      | None => crit_failed ("minimum_reserve: unresolvable amount for a native debit leg of tool '"
                             +:+ tool_name +:+ "'")
      | Some a => native_debit_loop tool_name (sat_add i128 sum a) ls'
      end
  end.

Definition extract_amount_stroops (ctx : EvalContext) : result PolicyError AmountOutcome :=
  match classify_value ctx with
  | GateNotApplicable => Ok (OutcomeDebit 0)
  | GateDeny r => Ok (OutcomeDeny r)
  | GateEffects effects =>
      OutcomeDebit <$> native_debit_loop (tool_name (ctx_tool ctx)) 0 (legs effects)
  end.

Definition extract_total_fee_stroops (ctx : EvalContext) : Z :=
  default 0 (jget (ctx_args ctx) "total_fee_stroops" ≫= as_i64).

Definition MinimumReserve_evaluate (c : MinimumReserveCriterion) (ctx : EvalContext)
  : M (option DenyReason) := lift (
  account_view ← ok_or (CriterionEvaluationFailed
      ("minimum_reserve criterion configured for tool '" +:+ tool_name (ctx_tool ctx)
       +:+ "' but account_view was not populated by the dispatch site; "
       +:+ "AccountViewAdapter wiring required to enable reserve checking at runtime"))
    (ctx_account_view ctx);
  pre_balance ← map_err (fun e => CriterionEvaluationFailed
      ("minimum_reserve: failed to read account balance for tool '" +:+ tool_name (ctx_tool ctx)
       +:+ "': " +:+ AccountReserveLookupError_to_string e))
    (balance_stroops account_view);
  outcome ← extract_amount_stroops ctx;
  match outcome with
  | OutcomeDeny r => Ok (Some r)
  | OutcomeDebit amount_stroops =>
      let total_fee_stroops := extract_total_fee_stroops ctx in
      let debit := sat_add i128 amount_stroops total_fee_stroops in
      let post_balance := sat_sub i128 pre_balance debit in
      let reserve_required_stroops :=
        sat_add i64 (reserves_stroops account_view BASE_RESERVE_STROOPS) (mr_margin_stroops c) in
      Ok (if post_balance <? reserve_required_stroops
          then Some (MinimumReserveBreached reserve_required_stroops pre_balance) else None)
  end).

Global Instance MinimumReserve_criterion : Criterion MinimumReserveCriterion := {
  kind _ := "minimum_reserve";
  evaluate := MinimumReserve_evaluate;
  evaluate_decision := default_evaluate_decision MinimumReserve_evaluate;
  is_bundle_level _ := false;
  accumulate_overlay := default_accumulate_overlay;
  record_confirmed := default_record_confirmed;
}.

(** ** Bundle aggregate cap *)

Record BundleAggregateCapCriterion := { bac_asset : option string; bac_max_amount : Z }.

(** The checked sum of the matching transfers; the configured asset is compared
    as it is written. *)
Definition bac_matches (c : BundleAggregateCapCriterion) (asset : string) : bool :=
  match bac_asset c with
  | None => true
  | Some configured_asset => bool_decide (configured_asset = asset)
  end.

Definition bac_sum (c : BundleAggregateCapCriterion) (l : list InnerOpDescriptor) : option Z :=
  foldl (fun sum i =>
           match i with
           | TokenTransfer asset _ _ amount =>
               if bac_matches c asset then s ← sum; checked i128 (s + amount) else sum
           | Generic _ _ => sum
           end) (Some 0) l.

Definition BundleAggregateCap_evaluate (c : BundleAggregateCapCriterion) (ctx : EvalContext)
  : M (option DenyReason) := lift (
  match ctx_bundle ctx with
  | None => Ok None
  | Some view =>
      match bac_sum c (inners view) with
      | None => crit_failed "bundle_aggregate_cap: i128 sum overflow"
      | Some s => Ok (if bac_max_amount c <? s
                      then Some (BundleAggregateCapExceeded (bac_asset c) (bac_max_amount c) s)
                      else None)
      end
  end).

Global Instance BundleAggregateCap_criterion : Criterion BundleAggregateCapCriterion := {
  kind _ := "bundle_aggregate_cap";
  evaluate := BundleAggregateCap_evaluate;
  evaluate_decision := default_evaluate_decision BundleAggregateCap_evaluate;
  is_bundle_level _ := true;
  accumulate_overlay := default_accumulate_overlay;
  record_confirmed := default_record_confirmed;
}.

(** ** Bundle per-transaction cap *)

Record BundlePerTxCapCriterion := { bpt_asset : string; bpt_max_stroops : Z }.

Fixpoint bpt_loop (c : BundlePerTxCapCriterion) (criterion_asset : string) (idx : nat)
    (l : list InnerOpDescriptor) : option DenyReason :=
  match l with
  | [] => None
  | Generic _ _ :: l' => bpt_loop c criterion_asset (S idx) l'
  | TokenTransfer asset _ _ amount :: l' =>
      if negb (bool_decide (asset_normalise asset = criterion_asset))
      then bpt_loop c criterion_asset (S idx) l'
      else if bpt_max_stroops c <? amount then
        Some (BundleDenied (u32_or_max (Z.of_nat idx))
          (PerTxCapExceeded (bpt_asset c) (bpt_max_stroops c) amount))
      else bpt_loop c criterion_asset (S idx) l'
  end.

Definition BundlePerTxCap_evaluate (c : BundlePerTxCapCriterion) (ctx : EvalContext)
  : M (option DenyReason) := mret
  (match ctx_bundle ctx with
   | None => None
   | Some view => bpt_loop c (asset_normalise (bpt_asset c)) 0 (inners view)
   end).

Global Instance BundlePerTxCap_criterion : Criterion BundlePerTxCapCriterion := {
  kind _ := "bundle_per_tx_cap";
  evaluate := BundlePerTxCap_evaluate;
  evaluate_decision := default_evaluate_decision BundlePerTxCap_evaluate;
  is_bundle_level _ := true;
  accumulate_overlay := default_accumulate_overlay;
  record_confirmed := default_record_confirmed;
}.

(** ** Inner invocation count *)

Definition DEFAULT_INNER_INVOCATION_COUNT_CAP : Z := 50.

Record InnerInvocationCountCapCriterion := { iic_max_count : Z }.

Definition InnerInvocationCountCap_evaluate (c : InnerInvocationCountCapCriterion)
    (ctx : EvalContext) : M (option DenyReason) := mret
  (match ctx_bundle ctx with
   | None => None
   | Some view =>
       let count := u32_or_max (Z.of_nat (length (inners view))) in
       if iic_max_count c <? count
       then Some (InnerInvocationCountCapExceeded (iic_max_count c) count) else None
   end).

Global Instance InnerInvocationCountCap_criterion : Criterion InnerInvocationCountCapCriterion := {
  kind _ := "inner_invocation_count_cap";
  evaluate := InnerInvocationCountCap_evaluate;
  evaluate_decision := default_evaluate_decision InnerInvocationCountCap_evaluate;
  is_bundle_level _ := true;
  accumulate_overlay := default_accumulate_overlay;
  record_confirmed := default_record_confirmed;
}.

(** ** Recognised kinds only *)

Record RestrictBundleToRecognisedKindsCriterion := { rbk_enabled : bool }.

Fixpoint first_generic (idx : nat) (l : list InnerOpDescriptor) : option nat :=
  match l with
  | [] => None
  | Generic _ _ :: _ => Some idx
  | TokenTransfer _ _ _ _ :: l' => first_generic (S idx) l'
  end.

Definition RestrictBundle_evaluate (c : RestrictBundleToRecognisedKindsCriterion)
    (ctx : EvalContext) : M (option DenyReason) := mret
  (if negb (rbk_enabled c) then None else
   match ctx_bundle ctx with
   | None => None
   | Some view =>
       match first_generic 0 (inners view) with
       | Some idx => Some (BundleContainsGenericKind (u32_or_max (Z.of_nat idx)))
       | None => None
       end
   end).

Global Instance RestrictBundle_criterion : Criterion RestrictBundleToRecognisedKindsCriterion := {
  kind _ := "restrict_bundle_to_recognised_kinds";
  evaluate := RestrictBundle_evaluate;
  evaluate_decision := default_evaluate_decision RestrictBundle_evaluate;
  is_bundle_level _ := true;
  accumulate_overlay := default_accumulate_overlay;
  record_confirmed := default_record_confirmed;
}.

(** ** Quorum *)

Inductive QuorumSatisfiedCriterion := QuorumSatisfied.

Definition QuorumSatisfied_evaluate (_ : QuorumSatisfiedCriterion) (ctx : EvalContext)
  : M (option DenyReason) := lift (
  quorum_view ← ok_or (CriterionEvaluationFailed
      ("quorum_satisfied criterion configured for tool '" +:+ tool_name (ctx_tool ctx)
       +:+ "' but quorum was not populated by the dispatch site; "
       +:+ "EvalContext::with_quorum() required for multi-signer tool calls"))
    (ctx_quorum ctx);
  Ok (match groups_short quorum_view with
      | [] => None
      | short_by => Some (QuorumNotSatisfied short_by (combinator_label quorum_view))
      end)).

Global Instance QuorumSatisfied_criterion : Criterion QuorumSatisfiedCriterion := {
  kind _ := "quorum_satisfied";
  evaluate := QuorumSatisfied_evaluate;
  evaluate_decision := default_evaluate_decision QuorumSatisfied_evaluate;
  is_bundle_level _ := false;
  accumulate_overlay := default_accumulate_overlay;
  record_confirmed := default_record_confirmed;
}.

(** ** Home domain *)

Inductive HomeDomainResolvedCriterion := HomeDomainResolved.

Definition HomeDomainResolved_evaluate (_ : HomeDomainResolvedCriterion) (ctx : EvalContext)
  : M (option DenyReason) := lift (
  identity ← ok_or (CriterionEvaluationFailed
      ("home_domain_resolved criterion configured for tool '" +:+ tool_name (ctx_tool ctx)
       +:+ "' but identity_view was not populated by the dispatch site; "
       +:+ "EvalContext::with_identity_view() required"))
    (ctx_identity_view ctx);
  match id_home_domain identity with
  | None => Ok None
  | Some home_domain =>
      cache ← ok_or (CriterionEvaluationFailed
          ("home_domain_resolved criterion configured for tool '" +:+ tool_name (ctx_tool ctx)
           +:+ "' with on-chain home_domain '" +:+ home_domain
           +:+ "' but counterparty_cache was not populated by the dispatch site; "
           +:+ "EvalContext::with_counterparty_cache() required"))
        (ctx_counterparty_cache ctx);
      Ok (if has_resolved cache home_domain then None
          else Some (HomeDomainNotResolved home_domain))
  end).

Global Instance HomeDomainResolved_criterion : Criterion HomeDomainResolvedCriterion := {
  kind _ := "home_domain_resolved";
  evaluate := HomeDomainResolved_evaluate;
  evaluate_decision := default_evaluate_decision HomeDomainResolved_evaluate;
  is_bundle_level _ := false;
  accumulate_overlay := default_accumulate_overlay;
  record_confirmed := default_record_confirmed;
}.
