(* ===== verification/Allowlist.v ===== *)
(** * The counterparty allowlist
      (stellar-agent-core, [policy/v1/criteria/counterparty_allowlist.rs])

    The criterion over each kind of counterparty, once over the legs of a
    value-moving call and once over the raw arguments of other calls, and the
    five steps of the home-domain check. *)

From S2P Require Import Prelude RustStr Amount Json AssetId PolicyTypes StateStore Value Context Criteria.
From stdpp Require Import options.

Local Open Scope string_scope.
Local Open Scope list_scope.
Local Open Scope Z_scope.

Inductive CounterpartyKind :=
| GAccount | CAccount | KnownIssuer | Sep10Identity | HomeDomain | OneTimeAddress.

Definition CounterpartyKind_tag (k : CounterpartyKind) : string :=
  match k with
  | GAccount => "G_ACCOUNT"
  | CAccount => "C_ACCOUNT"
  | KnownIssuer => "KNOWN_ISSUER"
  | Sep10Identity => "SEP10_IDENTITY"
  | HomeDomain => "HOME_DOMAIN"
  | OneTimeAddress => "ONE_TIME_ADDRESS"
  end.

Definition CounterpartyKind_parse (s : string) : result PolicyError CounterpartyKind :=
  if bool_decide (s = "G_ACCOUNT") then Ok GAccount
  else if bool_decide (s = "C_ACCOUNT") then Ok CAccount
  else if bool_decide (s = "KNOWN_ISSUER") then Ok KnownIssuer
  else if bool_decide (s = "SEP10_IDENTITY") then Ok Sep10Identity
  else if bool_decide (s = "HOME_DOMAIN") then Ok HomeDomain
  else if bool_decide (s = "ONE_TIME_ADDRESS") then Ok OneTimeAddress
  else Err (PolicyFileParseFailed
    ("counterparty_allowlist: unknown kind '" +:+ s
     +:+ "'; accepted: G_ACCOUNT, C_ACCOUNT, KNOWN_ISSUER, "
     +:+ "SEP10_IDENTITY, HOME_DOMAIN, ONE_TIME_ADDRESS")).

Record CounterpartyAllowlistCriterion := {
  ca_kinds : list CounterpartyKind;
  ca_allowlist : list string;
  ca_gate_inflows : bool;
}.

Definition CounterpartyAllowlist_new (kinds : list CounterpartyKind) (allowlist : list string)
  : CounterpartyAllowlistCriterion :=
  {| ca_kinds := kinds; ca_allowlist := allowlist; ca_gate_inflows := false |}.

Definition with_gate_inflows (c : CounterpartyAllowlistCriterion) (b : bool)
  : CounterpartyAllowlistCriterion :=
  {| ca_kinds := ca_kinds c; ca_allowlist := ca_allowlist c; ca_gate_inflows := b |}.

Definition denied {A} (kind value : string) : result A (option DenyReason) :=
  Ok (Some (CounterpartyDenied kind value)).

Definition listed (c : CounterpartyAllowlistCriterion) (s : string) : bool :=
  bool_decide (s ∈ ca_allowlist c).

(** An entry [CODE:ISSUER] stands for its issuer, any other entry for itself. *)
Definition issuer_listed (c : CounterpartyAllowlistCriterion) (issuer : string) : bool :=
  existsb (fun entry =>
    match split_once ":" entry with
    | Some (_, list_issuer) => bool_decide (list_issuer = issuer)
    | None => bool_decide (entry = issuer)
    end) (ca_allowlist c).

Definition is_native_name (asset_str : string) : bool :=
  eq_ignore_ascii_case asset_str "native" || eq_ignore_ascii_case asset_str "xlm".

Definition extract_string_field (ctx : EvalContext) (field : string) : result PolicyError string :=
  ok_or (CriterionEvaluationFailed
    ("counterparty_allowlist: missing or non-string field '" +:+ field
     +:+ "' in args for tool '" +:+ tool_name (ctx_tool ctx) +:+ "'"))
  (jget (ctx_args ctx) field ≫= as_str).

Definition resolve_destination (ctx : EvalContext) : result PolicyError string :=
  extract_string_field ctx "destination".

Definition resolve_asset (ctx : EvalContext) : option string :=
  jget (ctx_args ctx) "asset" ≫= as_str.

Section kinds.
Context `{Strkey}.

Definition parse_asset_issuer (asset_str : string) (ctx : EvalContext)
  : result PolicyError string :=
  '(_, issuer) ← ok_or (CriterionEvaluationFailed
      ("counterparty_allowlist: non-native asset '" +:+ asset_str
       +:+ "' must be in CODE:Gissuer format for tool '" +:+ tool_name (ctx_tool ctx) +:+ "'"))
    (split_once ":" asset_str);
  _ ← map_err (fun e => CriterionEvaluationFailed
      ("counterparty_allowlist: invalid issuer G-strkey in asset '" +:+ asset_str
       +:+ "' for tool '" +:+ tool_name (ctx_tool ctx) +:+ "': " +:+ e))
    (public_key_from_string issuer);
  Ok issuer.

(** [check_g_account_legs] and [check_c_account_legs]: every debit leg has a
    destination that parses ([strkey_of] is the codec, [letter] its name in the
    error text) and is listed. *)
Fixpoint check_account_legs (tag letter : string)
    (strkey_of : string -> result string (list Z))
    (c : CounterpartyAllowlistCriterion) (ctx : EvalContext) (ls : list ValueLeg)
  : result PolicyError (option DenyReason) :=
  match ls with
  | [] => Ok None
  | leg :: ls' =>
      if negb (carries_debit (leg_kind leg)) then check_account_legs tag letter strkey_of c ctx ls'
      else
      match leg_destination leg with
      | None => denied tag EmptyString
      | Some destination =>
          _ ← map_err (fun e => CriterionEvaluationFailed
              ("counterparty_allowlist: invalid " +:+ letter +:+ "-strkey in a debit leg's "
               +:+ "destination for tool '" +:+ tool_name (ctx_tool ctx) +:+ "': " +:+ e))
            (strkey_of destination);
          if negb (listed c destination) then denied tag destination
          else check_account_legs tag letter strkey_of c ctx ls'
      end
  end.

Definition check_g_account_legs (c : CounterpartyAllowlistCriterion) (ctx : EvalContext)
    (effects : ValueEffects) : result PolicyError (option DenyReason) :=
  check_account_legs "G_ACCOUNT" "G" public_key_from_string c ctx (legs effects).

Definition check_c_account_legs (c : CounterpartyAllowlistCriterion) (ctx : EvalContext)
    (effects : ValueEffects) : result PolicyError (option DenyReason) :=
  check_account_legs "C_ACCOUNT" "C" contract_from_string c ctx (legs effects).

Fixpoint known_issuer_loop (c : CounterpartyAllowlistCriterion) (ctx : EvalContext)
    (ls : list ValueLeg) : result PolicyError (option DenyReason) :=
  match ls with
  | [] => Ok None
  | leg :: ls' =>
      let is_debit := carries_debit (leg_kind leg) in
      if negb is_debit && negb (ca_gate_inflows c) then known_issuer_loop c ctx ls' else
      match leg_asset leg with
      | None => denied "KNOWN_ISSUER"
                  (if is_debit then EmptyString else "inflow leg carries no resolvable asset")
      | Some asset_str =>
          if is_native_name asset_str then known_issuer_loop c ctx ls' else
          issuer ← parse_asset_issuer asset_str ctx;
          if negb (issuer_listed c issuer) then
            denied "KNOWN_ISSUER"
              (if is_debit then issuer
               else "inflow leg issuer " +:+ issuer +:+ " not allowlisted")
          else known_issuer_loop c ctx ls'
      end
  end.

Definition check_known_issuer_legs (c : CounterpartyAllowlistCriterion) (ctx : EvalContext)
    (effects : ValueEffects) : result PolicyError (option DenyReason) :=
  known_issuer_loop c ctx (legs effects).

(** The checks over the raw arguments. *)
Definition check_account (tag letter : string)
    (strkey_of : string -> result string (list Z))
    (c : CounterpartyAllowlistCriterion) (ctx : EvalContext)
  : result PolicyError (option DenyReason) :=
  destination ← resolve_destination ctx;
  _ ← map_err (fun e => CriterionEvaluationFailed
      ("counterparty_allowlist: invalid " +:+ letter +:+ "-strkey in 'destination' "
       +:+ "for tool '" +:+ tool_name (ctx_tool ctx) +:+ "': " +:+ e))
    (strkey_of destination);
  if negb (listed c destination) then denied tag destination else Ok None.

Definition check_g_account (c : CounterpartyAllowlistCriterion) (ctx : EvalContext)
  : result PolicyError (option DenyReason) :=
  check_account "G_ACCOUNT" "G" public_key_from_string c ctx.

Definition check_c_account (c : CounterpartyAllowlistCriterion) (ctx : EvalContext)
  : result PolicyError (option DenyReason) :=
  check_account "C_ACCOUNT" "C" contract_from_string c ctx.

Definition check_known_issuer (c : CounterpartyAllowlistCriterion) (ctx : EvalContext)
  : result PolicyError (option DenyReason) :=
  match resolve_asset ctx with
  | None => Ok None
  | Some asset_str =>
      if is_native_name asset_str then Ok None else
      issuer ← parse_asset_issuer asset_str ctx;
      if negb (issuer_listed c issuer) then denied "KNOWN_ISSUER" issuer else Ok None
  end.

Definition is_ascii (a : ascii) : bool := byte_val a <? 128.

Definition check_home_domain (c : CounterpartyAllowlistCriterion) (ctx : EvalContext)
  : result PolicyError (option DenyReason) :=
  match ctx_identity_view ctx with
  | None => denied "HOME_DOMAIN" EmptyString
  | Some identity =>
      match id_home_domain identity with
      | None => denied "HOME_DOMAIN" EmptyString
      | Some resolved =>
          if negb (str_all is_ascii resolved) then denied "HOME_DOMAIN" "<non-ascii-redacted>" else
          let resolved_lower := to_ascii_lowercase resolved in
          match ctx_counterparty_cache ctx with
          | None => denied "HOME_DOMAIN"
              (resolved_lower +:+ ": not verified (counterparty cache not populated)")
          | Some cache =>
              if negb (has_resolved cache resolved_lower) then
                denied "HOME_DOMAIN"
                  (resolved_lower +:+ ": not verified (no live entry in the counterparty cache; "
                   +:+ "run `stellar-agent counterparty refresh " +:+ resolved_lower +:+ "`)")
              else if negb (is_account_listed cache resolved_lower (id_account_id identity)) then
                denied "HOME_DOMAIN"
                  (resolved_lower
                   +:+ ": not verified (account not listed by domain's stellar.toml)")
              else if negb (listed c resolved_lower) then denied "HOME_DOMAIN" resolved_lower
              else Ok None
          end
      end
  end.

Definition evaluate_kind (c : CounterpartyAllowlistCriterion) (k : CounterpartyKind)
    (ctx : EvalContext) : result PolicyError (option DenyReason) :=
  match k with
  | GAccount => check_g_account c ctx
  | CAccount => check_c_account c ctx
  | KnownIssuer => check_known_issuer c ctx
  | HomeDomain => check_home_domain c ctx
  | _ => Ok (Some (CounterpartyKindUnsupported (CounterpartyKind_tag k)))
  end.

Definition evaluate_kind_over_effects (c : CounterpartyAllowlistCriterion) (k : CounterpartyKind)
    (ctx : EvalContext) (effects : ValueEffects) : result PolicyError (option DenyReason) :=
  match k with
  | GAccount => check_g_account_legs c ctx effects
  | CAccount => check_c_account_legs c ctx effects
  | KnownIssuer => check_known_issuer_legs c ctx effects
  | HomeDomain => check_home_domain c ctx
  | _ => Ok (Some (CounterpartyKindUnsupported (CounterpartyKind_tag k)))
  end.

(** The first refusal of a list of kinds. *)
Fixpoint first_deny (f : CounterpartyKind -> result PolicyError (option DenyReason))
    (ks : list CounterpartyKind) : result PolicyError (option DenyReason) :=
  match ks with
  | [] => Ok None
  | k :: ks' =>
      d ← f k;
      match d with Some r => Ok (Some r) | None => first_deny f ks' end
  end.

Definition CounterpartyAllowlist_evaluate (c : CounterpartyAllowlistCriterion) (ctx : EvalContext)
  : M (option DenyReason) := lift (
  match classify_value ctx with
  | GateDeny r => Ok (Some r)
  | GateEffects effects =>
      first_deny (fun k => evaluate_kind_over_effects c k ctx effects) (ca_kinds c)
  | GateNotApplicable => first_deny (fun k => evaluate_kind c k ctx) (ca_kinds c)
  end).

Global Instance CounterpartyAllowlist_criterion : Criterion CounterpartyAllowlistCriterion := {
  kind _ := "counterparty_allowlist";
  evaluate := CounterpartyAllowlist_evaluate;
  evaluate_decision := default_evaluate_decision CounterpartyAllowlist_evaluate;
  is_bundle_level _ := false;
  accumulate_overlay := default_accumulate_overlay;
  record_confirmed := default_record_confirmed;
}.

(** ** What passing means *)

(** The account of a debit leg parses and is listed. *)
Definition account_leg_ok (strkey_of : string -> result string (list Z))
    (c : CounterpartyAllowlistCriterion) (leg : ValueLeg) : Prop :=
  carries_debit (leg_kind leg) = true ->
  exists d, leg_destination leg = Some d /\ is_ok (strkey_of d) = true /\ d ∈ ca_allowlist c.

(** A listed issuer: an entry is the issuer, or [CODE:] and the issuer. *)
Definition issuer_on_list (c : CounterpartyAllowlistCriterion) (issuer : string) : Prop :=
  exists entry, entry ∈ ca_allowlist c /\
    match split_once ":" entry with
    | Some (_, i) => i = issuer
    | None => entry = issuer
    end.

(** The asset of a gated leg is native, or its issuer parses and is listed. *)
Definition issuer_leg_ok (c : CounterpartyAllowlistCriterion) (leg : ValueLeg) : Prop :=
  carries_debit (leg_kind leg) = true \/ ca_gate_inflows c = true ->
  exists a, leg_asset leg = Some a /\
    (is_native_name a = true \/
     exists code issuer, split_once ":" a = Some (code, issuer) /\
       is_ok (public_key_from_string issuer) = true /\ issuer_on_list c issuer).

(** The five steps: an on-chain ASCII home domain, a live cache entry for its
    lower-case form, the account listed by the domain, the domain listed. *)
Definition home_domain_ok (c : CounterpartyAllowlistCriterion) (ctx : EvalContext) : Prop :=
  exists identity domain cache,
    ctx_identity_view ctx = Some identity /\ id_home_domain identity = Some domain /\
    str_all is_ascii domain = true /\ ctx_counterparty_cache ctx = Some cache /\
    has_resolved cache (to_ascii_lowercase domain) = true /\
    is_account_listed cache (to_ascii_lowercase domain) (id_account_id identity) = true /\
    to_ascii_lowercase domain ∈ ca_allowlist c.

Definition kind_ok (c : CounterpartyAllowlistCriterion) (ctx : EvalContext)
    (effects : ValueEffects) (k : CounterpartyKind) : Prop :=
  match k with
  | GAccount => Forall (account_leg_ok public_key_from_string c) (legs effects)
  | CAccount => Forall (account_leg_ok contract_from_string c) (legs effects)
  | KnownIssuer => Forall (issuer_leg_ok c) (legs effects)
  | HomeDomain => home_domain_ok c ctx
  | Sep10Identity | OneTimeAddress => False
  end.

Lemma is_ok_map_err {E F A} (f : E -> F) (m : result E A) :
  is_ok m = true <-> exists a, map_err f m = Ok a.
Proof. destruct m; cbn; naive_solver. Qed.

Lemma listed_spec c s : listed c s = true <-> s ∈ ca_allowlist c.
Proof. apply bool_decide_eq_true. Qed.

Lemma issuer_listed_spec c i : issuer_listed c i = true <-> issuer_on_list c i.
Proof.
  unfold issuer_listed, issuer_on_list. rewrite existsb_exists.
  split; intros (e & He & Hm); exists e.
  - split; [by apply list_elem_of_In|]. destruct (split_once ":" e) as [[]|]; by apply bool_decide_eq_true in Hm.
  - split; [by apply list_elem_of_In|]. destruct (split_once ":" e) as [[]|]; by apply bool_decide_eq_true.
Qed.

Lemma check_account_legs_spec tag letter strkey_of c ctx ls :
  check_account_legs tag letter strkey_of c ctx ls = Ok None <->
  Forall (account_leg_ok strkey_of c) ls.
Proof.
  induction ls as [|leg ls IH]; cbn [check_account_legs]; [split; constructor|].
  rewrite Forall_cons. unfold account_leg_ok at 1.
  destruct (carries_debit (leg_kind leg)); cbn [negb]; [|rewrite IH; naive_solver].
  destruct (leg_destination leg) as [d|]; [|split; [done|naive_solver]].
  rewrite res_bind_Ok. split.
  - intros (k & Hk & Hd). destruct (listed c d) eqn:Hl; [|done]. cbn [negb] in Hd.
    split; [|by apply IH]. intros _. exists d. split_and!; [done| |by apply listed_spec].
    by eapply is_ok_map_err; eexists.
  - intros [Hleg Hls]. destruct (Hleg eq_refl) as (d' & [= <-] & Hk & Hin).
    eapply is_ok_map_err in Hk as [k Hk]. exists k. split; [exact Hk|].
    rewrite (proj2 (listed_spec _ _) Hin). by apply IH.
Qed.

Lemma parse_asset_issuer_Ok a ctx issuer :
  parse_asset_issuer a ctx = Ok issuer <->
  exists code, split_once ":" a = Some (code, issuer) /\
    is_ok (public_key_from_string issuer) = true.
Proof.
  unfold parse_asset_issuer. destruct (split_once ":" a) as [[code i]|]; cbn; [|naive_solver].
  rewrite res_bind_Ok. split.
  - intros (k & Hk & [= <-]). exists code. split; [done|]. eapply is_ok_map_err. eauto.
  - intros (code' & [= <- <-] & Hk). eapply is_ok_map_err in Hk as [k Hk]. eauto.
Qed.

Lemma known_issuer_loop_spec c ctx ls :
  known_issuer_loop c ctx ls = Ok None <-> Forall (issuer_leg_ok c) ls.
Proof.
  induction ls as [|leg ls IH]; cbn [known_issuer_loop]; [split; constructor|].
  rewrite Forall_cons. unfold issuer_leg_ok at 1.
  destruct (negb _ && negb _) eqn:Hg.
  { apply andb_true_iff in Hg as [->%negb_true_iff ->%negb_true_iff]. rewrite IH. naive_solver. }
  assert (Hgate : carries_debit (leg_kind leg) = true \/ ca_gate_inflows c = true).
  { apply andb_false_iff in Hg. rewrite !negb_false_iff in Hg. tauto. }
  destruct (leg_asset leg) as [a|]; [|split; [done|naive_solver]].
  destruct (is_native_name a) eqn:Hn; [rewrite IH; naive_solver|].
  rewrite res_bind_Ok. split.
  - intros (issuer & Hi & Hd). destruct (issuer_listed c issuer) eqn:Hl; [|done].
    split; [|by apply IH]. intros _. exists a. split; [done|]. right.
    apply parse_asset_issuer_Ok in Hi as (code & Hs & Hk).
    exists code, issuer. split_and!; [done..|]. by apply issuer_listed_spec.
  - intros [Hleg Hls]. destruct (Hleg Hgate) as (a' & [= <-] & [?|(code & issuer & Hs & Hk & Hl)]);
      [congruence|].
    exists issuer. split; [apply parse_asset_issuer_Ok; eauto|].
    rewrite (proj2 (issuer_listed_spec _ _) Hl). by apply IH.
Qed.

Lemma check_home_domain_spec c ctx : check_home_domain c ctx = Ok None <-> home_domain_ok c ctx.
Proof.
  unfold check_home_domain, home_domain_ok. split.
  - intros Hx. destruct (ctx_identity_view ctx) as [identity|]; [|done].
    destruct (id_home_domain identity) as [domain|] eqn:Hd; [|done].
    destruct (str_all is_ascii domain) eqn:Ha; [|done]. cbn [negb] in Hx.
    destruct (ctx_counterparty_cache ctx) as [cache|]; [|done].
    destruct (has_resolved cache _) eqn:Hr; [|done]. cbn [negb] in Hx.
    destruct (is_account_listed cache _ _) eqn:Hl; [|done]. cbn [negb] in Hx.
    destruct (listed c _) eqn:Hli; [|done].
    exists identity, domain, cache. split_and!; try done. by apply listed_spec.
  - intros (identity & domain & cache & -> & -> & -> & -> & -> & -> & Hl).
    by rewrite (proj2 (listed_spec _ _) Hl).
Qed.

Lemma evaluate_kind_over_effects_spec c k ctx effects :
  evaluate_kind_over_effects c k ctx effects = Ok None <-> kind_ok c ctx effects k.
Proof.
  destruct k; cbn; [apply check_account_legs_spec..|apply known_issuer_loop_spec|done|
    apply check_home_domain_spec|done].
Qed.

Lemma first_deny_None f ks : first_deny f ks = Ok None <-> Forall (fun k => f k = Ok None) ks.
Proof.
  induction ks as [|k ks IH]; cbn [first_deny]; [split; constructor|].
  rewrite Forall_cons, res_bind_Ok, <-IH. split.
  - intros (d & Hd & Hx). destruct d; [done|]. done.
  - intros [Hd Hx]. by exists None.
Qed.

(** A value-moving call passes the allowlist exactly when it satisfies every
    configured kind: every debit goes to a listed and well-formed account or
    contract, every gated leg (the inflows too under [gate_inflows]) is native or
    from a listed issuer, the home domain passes all its five steps; an
    unsupported kind never passes.  The store and the clock are not touched. *)
Theorem allowlist_exact c ctx effects w r w' :
  ctx_value ctx = VcValue effects ->
  evaluate c ctx w = (r, w') ->
  w' = w /\ (r = Ok None <-> Forall (kind_ok c ctx effects) (ca_kinds c)).
Proof.
  intros Hv. cbn. unfold CounterpartyAllowlist_evaluate, classify_value, lift. rewrite Hv.
  intros [= <- <-]. split; [done|]. rewrite first_deny_None.
  apply Forall_proper; [|done]. intros k. apply evaluate_kind_over_effects_spec.
Qed.
End kinds.

(** ** Witness *)

Definition demo_allowlist : CounterpartyAllowlistCriterion :=
  CounterpartyAllowlist_new [GAccount; KnownIssuer] ["GBOB"; "USDC:GISS"].

Definition demo_pay_legs : list ValueLeg :=
  [MkLeg Payment (Some 5) (Some "USDC:GISS") (Some "GBOB")].

Definition demo_allow_ctx : EvalContext :=
  MkCtx {| tool_name := "stellar_pay"; destructive_hint := true; read_only_hint := false;
           chain_id_required := true; tool_chain_id := "stellar:testnet"; value_kind := TvkMovesValue |}
    JNull "alice" {| mcp_signer_default_account := "GALICE"; is_mainnet := false |}
    (VcValue (MkEffects demo_pay_legs)) None None None None None None None.

Lemma allowlist_exact_witness :
  Forall (@kind_ok demo_strkey demo_allowlist demo_allow_ctx (MkEffects demo_pay_legs))
    [GAccount; KnownIssuer].
Proof.
  destruct (@allowlist_exact demo_strkey demo_allowlist demo_allow_ctx (MkEffects demo_pay_legs)
    (MkWorld PolicyStateStore_new 0) (Ok None) (MkWorld PolicyStateStore_new 0)) as [_ Hiff].
  - done.
  - by vm_compute.
  - by apply Hiff.
Defined.
