(* ===== verification/CapProps.v ===== *)
(** * Properties of the caps and of the rolling windows

    What a pass of the transaction caps means for the amounts of the call, and
    that the criteria which keep a rolling window hold their limit over every
    interval of the window's length, by induction on the steps of a session. *)

From S2P Require Import Prelude RustStr Amount Json AssetId PolicyTypes StateStore Value Context Criteria.
From stdpp Require Import options.
Set Default Proof Using "Type*".

Local Open Scope string_scope.
Local Open Scope list_scope.
Local Open Scope Z_scope.

(** ** Debit sums *)

(** The amounts of the debit legs of one asset, in order. *)
Definition debit_amounts (asset : string) (ls : list ValueLeg) : list Z :=
  omap (fun leg =>
    if carries_debit (leg_kind leg) then
      a ← leg_asset leg;
      if bool_decide (asset_normalise a = asset) then leg_amount leg else None
    else None) ls.

Fixpoint sum_list (l : list Z) : Z :=
  match l with [] => 0 | n :: l' => n + sum_list l' end.

(** Every debit leg names its asset, and its amount when the asset matches. *)
Definition debit_resolved (asset : string) (leg : ValueLeg) : Prop :=
  carries_debit (leg_kind leg) = true ->
  exists a, leg_asset leg = Some a /\ (asset_normalise a = asset -> is_Some (leg_amount leg)).

Lemma record_loop_spec asset m s ls :
  record_loop asset m s ls =
    (m || negb (bool_decide (debit_amounts asset ls = [])),
     foldl (sat_add i128) s (debit_amounts asset ls)).
Proof.
  revert m s. induction ls as [|leg ls IH]; intros m s; cbn.
  { by rewrite orb_false_r. }
  destruct (carries_debit (leg_kind leg)); [|apply IH].
  destruct (leg_asset leg) as [a|]; cbn; [|apply IH].
  destruct (leg_amount leg) as [n|]; cbn.
  - destruct (bool_decide (asset_normalise a = asset)); [|apply IH].
    rewrite IH. cbn. by rewrite orb_true_r.
  - destruct (bool_decide (asset_normalise a = asset)); apply IH.
Qed.

Lemma debit_loop_Ok crit tool asset m s ls r :
  debit_loop crit tool asset m s ls = Ok r <->
  Forall (debit_resolved asset) ls /\ r = record_loop asset m s ls.
Proof.
  revert m s. induction ls as [|leg ls IH]; intros m s; cbn [debit_loop record_loop].
  { split; [intros [= <-]|intros [_ ->]]; by repeat constructor. }
  rewrite Forall_cons. unfold debit_resolved at 1.
  destruct (carries_debit (leg_kind leg)); cbn [negb]; [|rewrite IH; naive_solver].
  destruct (leg_asset leg) as [a|]; [|split; [done|naive_solver]].
  case_bool_decide as Ha; cbn [negb].
  - destruct (leg_amount leg) as [n|].
    + rewrite IH. naive_solver.
    + split; [done|]. intros [[Hr _] _]. destruct (Hr eq_refl) as (a' & [= <-] & Hs).
      by destruct (Hs Ha).
  - rewrite IH. destruct (leg_amount leg); naive_solver.
Qed.

Lemma sum_list_nonneg l : Forall (Z.le 0) l -> 0 <= sum_list l.
Proof. induction 1; cbn; lia. Qed.

Lemma sat_sum_nonneg l s :
  0 <= s <= hi i128 -> Forall (Z.le 0) l ->
  foldl (sat_add i128) s l = Z.min (hi i128) (s + sum_list l).
Proof.
  intros Hs Hl. revert s Hs. induction Hl as [|n l Hn Hl IH]; intros s Hs; cbn [foldl sum_list].
  - lia.
  - pose proof (sum_list_nonneg l Hl). unfold sat_add, clamp in *. rewrite IH; cbn in *; lia.
Qed.

(** Legs as the dispatch sites build them: no negative amounts. *)
Definition legs_nonneg (ls : list ValueLeg) : Prop :=
  Forall (fun leg => forall n, leg_amount leg = Some n -> 0 <= n) ls.

Lemma debit_amounts_nonneg asset ls : legs_nonneg ls -> Forall (Z.le 0) (debit_amounts asset ls).
Proof.
  induction 1 as [|leg ls Hleg Hls IH]; cbn; [done|].
  destruct (carries_debit (leg_kind leg)); [|done].
  destruct (leg_asset leg) as [a|]; cbn; [|done].
  case_bool_decide; [|done]. destruct (leg_amount leg); [|done]. constructor; auto.
Qed.

(** The sum both [evaluate] and [record_confirmed] compute. *)
Definition debit_total (asset : string) (ls : list ValueLeg) : Z :=
  foldl (sat_add i128) 0 (debit_amounts asset ls).

Lemma debit_total_nonneg asset ls :
  legs_nonneg ls ->
  debit_total asset ls = Z.min (hi i128) (sum_list (debit_amounts asset ls)) /\
  0 <= debit_total asset ls <= hi i128.
Proof.
  intros Hnn. pose proof (debit_amounts_nonneg asset ls Hnn) as Ha.
  pose proof (sum_list_nonneg _ Ha). unfold debit_total.
  rewrite sat_sum_nonneg by (done || cbn; lia). split; [done|]. cbn in *. lia.
Qed.

(** ** Transaction caps *)

(** The shared sum, as a specification: the gate, then resolved debits. *)
Lemma asset_debit_sum_effects ctx effects asset crit s :
  ctx_value ctx = VcValue effects ->
  asset_debit_sum ctx asset crit = Ok s <->
  Forall (debit_resolved (asset_normalise asset)) (legs effects) /\
  s = if bool_decide (debit_amounts (asset_normalise asset) (legs effects) = [])
      then SumNotApplicable else SumAmount (debit_total (asset_normalise asset) (legs effects)).
Proof.
  intros Hv. unfold asset_debit_sum, classify_value. rewrite Hv, res_bind_Ok. split.
  - intros (r & Hr & Hs). apply debit_loop_Ok in Hr as [Hres ->]. split; [done|].
    rewrite record_loop_spec in Hs. cbn [orb] in Hs. injection Hs as <-.
    by destruct (bool_decide _).
  - intros [Hres ->]. eexists. split; [by apply debit_loop_Ok|].
    rewrite record_loop_spec. cbn [orb]. by destruct (bool_decide _).
Qed.

Lemma empty_sum asset ls : debit_amounts asset ls = [] -> debit_total asset ls = 0.
Proof. unfold debit_total. by intros ->. Qed.

(** C19: a value-moving call with non-negative legs passes the per-transaction cap
    exactly when every debit is resolved (names its asset, and its amount if the
    asset is the capped one) and the exact sum of the debits of the asset, under
    any spelling of the native asset, is at most the cap: neither a split over
    several legs nor [i128] overflow passes more than the cap. *)
Theorem per_tx_cap_exact c ctx effects w :
  ctx_value ctx = VcValue effects -> legs_nonneg (legs effects) ->
  0 <= ptc_max_stroops c < hi i128 ->
  evaluate c ctx w = (Ok None, w) <->
  Forall (debit_resolved (asset_normalise (ptc_asset c))) (legs effects) /\
  sum_list (debit_amounts (asset_normalise (ptc_asset c)) (legs effects)) <= ptc_max_stroops c.
Proof.
  intros Hv Hnn Hmax. set (A := asset_normalise (ptc_asset c)).
  destruct (debit_total_nonneg A (legs effects) Hnn) as [Htot _].
  cbn. unfold PerTxCap_evaluate. rewrite lift_Ok, res_bind_Ok. fold A. split.
  - intros [(s & Hs & Hr) _]. rewrite asset_debit_sum_effects in Hs by done.
    destruct Hs as [Hres ->]. split; [done|]. fold A in Hr.
    destruct (bool_decide (debit_amounts A (legs effects) = [])) eqn:Hd.
    { apply bool_decide_eq_true in Hd. rewrite Hd. cbn. lia. }
    destruct (Z.ltb_spec (ptc_max_stroops c) (debit_total A (legs effects))); [done|]. lia.
  - intros [Hres Hle]. split; [|done]. eexists. split.
    { apply (asset_debit_sum_effects ctx effects (ptc_asset c) "per_tx_cap" _ Hv). by split. }
    fold A. case_bool_decide; [done|].
    by rewrite (proj2 (Z.ltb_ge _ _)) by lia.
Qed.

(** ** Rolling windows *)

(** The clock of a healthy host: it never goes back, and its milliseconds fit
    [u64]. *)
Class MonotoneClock `{Clock} : Prop := {
  clock_mono n n' a b :
    (n <= n')%nat -> clock n = Ok a -> clock n' = Ok b -> 0 <= a <= b /\ b <= hi u64;
}.

Section rolling.
Context `{Clk : Clock, !MonotoneClock}.
(** The window's key, what one entry uses of the limit, and the limit. *)
Context (key : StateKey) (m : StateEntry -> Z) (max : Z).
Context (Hwin : 0 <= window_secs key * 1000 <= hi u64).

Fixpoint measure (l : list StateEntry) : Z :=
  match l with [] => 0 | e :: l' => m e + measure l' end.

(** What the history used in the interval of the window's length that ends at
    [t], both ends included. *)
Definition in_window (t : Z) (e : StateEntry) : bool :=
  (t - window_secs key * 1000 <=? timestamp_ms e) && (timestamp_ms e <=? t).
Definition window_total (t : Z) (h : list StateEntry) : Z := measure (keep (in_window t) h).

(** The history is what the store shows from time [T] on; it used at most the
    limit in every interval. *)
Record rolling (w : World) (h : list StateEntry) (T : Z) : Prop := {
  ro_sim t : T <= t ->
    keep (live key t) (deque_of (inner (w_store w)) key) = keep (live key t) h;
  ro_clock n ms : (w_ticks w <= n)%nat -> clock n = Ok ms -> T <= ms;
  ro_time : 0 <= T <= hi u64;
  ro_hist : Forall (fun e => 0 <= timestamp_ms e <= T /\ 0 <= m e /\ pending e = false) h;
  ro_total t : window_total t h <= max;
}.

Lemma measure_app l1 l2 : measure (l1 ++ l2) = measure l1 + measure l2.
Proof. induction l1 as [|e l1 IH]; cbn; [done|]. rewrite IH. lia. Qed.

Lemma measure_keep_mono (f g : StateEntry -> bool) h :
  Forall (fun e => 0 <= m e /\ (f e = true -> g e = true)) h ->
  measure (keep f h) <= measure (keep g h).
Proof.
  unfold keep. induction 1 as [|e h [He Hfg] Hh IH]; [done|].
  destruct (f e) eqn:Hf.
  - rewrite !filter_cons_True by auto. cbn. lia.
  - rewrite filter_cons_False by congruence. destruct (g e) eqn:Hg.
    + rewrite filter_cons_True by done. cbn. lia.
    + rewrite filter_cons_False by congruence. done.
Qed.

Lemma measure_keep_none (f : StateEntry -> bool) h :
  Forall (fun e => f e = false) h -> measure (keep f h) = 0.
Proof.
  unfold keep. induction 1 as [|e h He Hh IH]; [done|].
  rewrite filter_cons_False by congruence. done.
Qed.

Lemma cutoff_exact t : 0 <= t <= hi u64 -> cutoff key t = Z.max 0 (t - window_secs key * 1000).
Proof. intros Ht. unfold cutoff, sat_sub, sat_mul, clamp. cbn in *. lia. Qed.

(** One more entry at [t], whose query at an earlier [T] left it room. *)
Lemma window_total_snoc h T t a :
  0 <= T <= t -> t <= hi u64 ->
  Forall (fun e => 0 <= timestamp_ms e <= T /\ 0 <= m e /\ pending e = false) h ->
  (forall t', window_total t' h <= max) ->
  0 <= m (MkEntry t a false) ->
  measure (keep (live key T) h) + m (MkEntry t a false) <= max ->
  forall t', window_total t' (h ++ [MkEntry t a false]) <= max.
Proof.
  intros HT Ht Hh Hmax Hm Hroom t'. unfold window_total in *.
  rewrite keep_app, measure_app. set (e := MkEntry t a false) in *.
  destruct (in_window t' e) eqn:He.
  - assert (keep (in_window t') [e] = [e]) as -> by by apply keep_id; constructor.
    cbn [measure]. apply andb_true_iff in He as [He1%Z.leb_le He2%Z.leb_le]. cbn in He1, He2.
    enough (measure (keep (in_window t') h) <= measure (keep (live key T) h)) by lia.
    apply measure_keep_mono. eapply Forall_impl; [exact Hh|].
    intros e' (Ht' & Hm' & _). split; [done|]. unfold in_window, live.
    rewrite andb_true_iff, orb_true_iff, !Z.leb_le, cutoff_exact by lia. lia.
  - assert (keep (in_window t') [e] = []) as ->.
    { unfold keep. rewrite filter_cons_False by congruence. done. }
    cbn [measure]. specialize (Hmax t'). lia.
Qed.

(** The shape of the window criteria's evaluation: read the clock, query the
    window, decide. *)
Lemma rolling_probe {B} l1 l2 (g : Z * Z -> B) w h T r w' :
  rolling w h T ->
  (now ← now_ms l1; used ← store_op l2 (fun st => query_window st key now); mret (g used)) w
    = (r, w') ->
  exists T', T <= T' /\ rolling w' h T' /\
    forall x, r = Ok x ->
      x = g (window_sum (keep (live key T') h), window_count (keep (live key T') h)).
Proof.
  intros Hro. pose proof Hro as [Hsim Hclk HT Hh Hmax].
  unfold mbind, M_bind at 1, now_ms, read_clock, mbind, M_bind, mret, M_ret.
  destruct (clock (w_ticks w)) as [ms|e] eqn:Ec.
  2: { intros [= <- <-]. exists T. split; [done|]. split; [|done]. constructor; cbn; auto.
       intros n ms Hn. apply Hclk. lia. }
  destruct (clock_mono (w_ticks w) (w_ticks w) ms ms) as [[Hms _] Hms']; [lia|done..|].
  pose proof (Hclk (w_ticks w) ms ltac:(lia) Ec) as HTms.
  rewrite wrap_u_small by (cbn in *; lia).
  assert (Hclk' : forall n ms', (S (w_ticks w) <= n)%nat -> clock n = Ok ms' -> ms <= ms').
  { intros n ms' Hn En. pose proof (clock_mono (w_ticks w) n ms ms' ltac:(lia) Ec En). lia. }
  assert (Hh' : Forall (fun e => 0 <= timestamp_ms e <= ms /\ 0 <= m e /\ pending e = false) h).
  { eapply Forall_impl; [exact Hh|]. intros e (?&?&?). split_and!; try done; lia. }
  unfold store_op, query_window, w_store. destruct w as [st k]; cbn in *.
  destruct (poisoned st) eqn:Hp.
  { intros [= <- <-]. exists ms. split; [done|]. split; [|done]. constructor; cbn; auto.
    intros t Ht. apply Hsim. lia. }
  destruct (keep (skewed ms) _) as [|e es]; intros [= <- <-]; exists ms; (split; [done|]).
  - split; [|intros x [= <-]; by rewrite Hsim by lia].
    constructor; cbn; auto. intros t Ht.
    rewrite deque_of_insert, keep_keep by (intros e; by apply live_mono). apply Hsim. lia.
  - split; [|done]. constructor; cbn; auto. intros t Ht.
    rewrite deque_of_insert. apply Hsim. lia.
Qed.

(** The shape of the recording: read the clock, append. *)
Lemma rolling_record {B} l1 l2 a (g : Z -> B) w h T x w' :
  rolling w h T ->
  (forall t, 0 <= m (MkEntry t a false)) ->
  (forall t, measure (keep (live key T) h) + m (MkEntry t a false) <= max) ->
  (now ← now_ms l1; _ ← store_op l2 (fun st => append st key now a); mret (g now)) w = (Ok x, w') ->
  exists t, x = g t /\ rolling w' (h ++ [MkEntry t a false]) t.
Proof.
  intros [Hsim Hclk HT Hh Hmax] Hm Hroom Hrun. m_inv.
  apply now_ms_Ok in Hrun0 as (ms & Ec & -> & ->).
  destruct (clock_mono (w_ticks w) (w_ticks w) ms ms) as [[Hms _] Hms']; [lia|done..|].
  pose proof (Hclk (w_ticks w) ms ltac:(lia) Ec) as HTms.
  rewrite wrap_u_small in * by (cbn in *; lia).
  apply append_entry_Ok in Hrun1 as [Hp ->]. cbn in *.
  exists ms. split; [done|]. constructor; cbn.
  - intros t Ht. rewrite deque_of_insert, !keep_app. f_equal. apply Hsim. lia.
  - intros n ms' Hn En. pose proof (clock_mono (w_ticks w) n ms ms' ltac:(lia) Ec En). lia.
  - lia.
  - apply Forall_app. split.
    + eapply Forall_impl; [exact Hh|]. intros e (?&?&?). split_and!; try done; lia.
    + constructor; [|done]. cbn. split_and!; [lia|lia|apply Hm|done].
  - eapply window_total_snoc; [|exact Hms'|exact Hh|done|apply Hm|apply Hroom]. lia.
Qed.
End rolling.

(** ** Sessions

    A session of one window criterion: calls that pass it and are recorded,
    calls that are only evaluated, and any other activity that leaves the
    criterion's window alone.  The history is what was recorded. *)

Definition entry_of (we : WindowEntry) : StateEntry :=
  MkEntry (we_timestamp_ms we) (we_amount we) false.

Inductive session_step {C} `{Criterion C} (c : C) (key : StateKey) (adm : EvalContext -> Prop)
  : World * list StateEntry -> World * list StateEntry -> Prop :=
| session_spend ctx w h w1 w2 es :
    adm ctx ->
    evaluate c ctx w = (Ok None, w1) -> record_confirmed c ctx w1 = (Ok es, w2) ->
    session_step c key adm (w, h) (w2, h ++ (entry_of <$> es))
| session_probe ctx w h r w1 :
    adm ctx -> evaluate c ctx w = (r, w1) -> session_step c key adm (w, h) (w1, h)
| session_other w h w' :
    (w_ticks w <= w_ticks w')%nat ->
    deque_of (inner (w_store w')) key = deque_of (inner (w_store w)) key ->
    session_step c key adm (w, h) (w', h).

(** A call of the engine on profile [p] outside a bundle. *)
Definition plain_call (p : string) (ctx : EvalContext) : Prop :=
  ctx_profile_name ctx = p /\ ctx_bundle ctx = None /\
  forall effects, ctx_value ctx = VcValue effects -> legs_nonneg (legs effects).

Section sessions.
Context `{Clk : Clock, !MonotoneClock}.

Lemma rolling_init key m max w :
  0 <= max -> deque_of (inner (w_store w)) key = [] -> rolling key m max w [] 0.
Proof.
  intros Hmax Hd. constructor; try done.
  - intros t _. by rewrite Hd.
  - intros n ms _ En. pose proof (clock_mono n n ms ms). naive_solver lia.
Qed.

Lemma rolling_other key m max w w' h T :
  rolling key m max w h T -> (w_ticks w <= w_ticks w')%nat ->
  deque_of (inner (w_store w')) key = deque_of (inner (w_store w)) key ->
  rolling key m max w' h T.
Proof.
  intros [Hsim Hclk HT Hh Hmax] Hn Hd. constructor; auto.
  - intros t Ht. rewrite Hd. auto.
  - intros n ms Hle. apply Hclk. lia.
Qed.

(** What every step keeps, every session keeps. *)
Lemma session_rolling {C} `{Criterion C} (c : C) key adm m max w0 w h :
  (forall w h w' h' T, session_step c key adm (w, h) (w', h') -> rolling key m max w h T ->
     exists T', rolling key m max w' h' T') ->
  0 <= max -> deque_of (inner (w_store w0)) key = [] ->
  rtc (session_step c key adm) (w0, []) (w, h) ->
  exists T, rolling key m max w h T.
Proof.
  intros Hstep Hmax Hempty.
  enough (Hgen : forall x y, rtc (session_step c key adm) x y ->
    (exists T, rolling key m max x.1 x.2 T) -> exists T, rolling key m max y.1 y.2 T).
  { intros Hrun. apply (Hgen _ _ Hrun). exists 0. by apply rolling_init. }
  intros x y Hrun. induction Hrun as [x|[xw xh] [yw yh] z Hs Hrun IH]; [done|].
  intros [T Hro]. apply IH. by eapply Hstep.
Qed.

(** *** Amount windows *)

Lemma measure_amount l : measure amount l = amounts l.
Proof. induction l as [|e l IH]; cbn; congruence. Qed.

Lemma sat_room used total max :
  0 <= used -> 0 <= total -> max < hi i128 ->
  (max <? sat_add i128 (sat_add i128 (Z.min (hi i128) used) 0) total) = false ->
  used + total <= max.
Proof. intros ???. rewrite Z.ltb_ge. unfold sat_add, clamp. cbn in *. lia. Qed.

Lemma per_period_evaluate c ctx p mx w h T r w' :
  plain_call p ctx ->
  let key := amount_key ctx (asset_normalise (ppc_asset c)) (ppc_window c) in
  0 <= window_secs key * 1000 <= hi u64 -> ppc_max_stroops c < hi i128 ->
  rolling key amount mx w h T ->
  PerPeriodCap_evaluate c ctx w = (r, w') ->
  exists T', T <= T' /\ rolling key amount mx w' h T' /\
    (r = Ok None -> forall effects, ctx_value ctx = VcValue effects ->
     debit_amounts (asset_normalise (ppc_asset c)) (legs effects) ≠ [] ->
     measure amount (keep (live key T') h)
       + debit_total (asset_normalise (ppc_asset c)) (legs effects) <= ppc_max_stroops c).
Proof.
  intros (Hp & Hb & Hnn) key Hwin Hmax Hro. unfold PerPeriodCap_evaluate, classify_value.
  destruct (ctx_value ctx) as [|effects|] eqn:Hv.
  - destruct (value_kind _); rewrite ?Hb; intros [= <- <-]; exists T; (split; [lia|split; done]).
  - specialize (Hnn effects eq_refl). unfold mbind, M_bind, lift.
    destruct (debit_loop _ _ _ _ _ _) as [[b s]|e] eqn:Hd;
      [|intros [= <- <-]; exists T; split; [lia|split; done]].
    apply debit_loop_Ok in Hd as [_ Hd]. rewrite record_loop_spec in Hd. injection Hd as -> ->.
    cbn [fst snd orb]. case_bool_decide as He; cbn [negb].
    { intros [= <- <-]. exists T. split; [lia|]. split; [done|]. intros _ eff [= <-]. done. }
    intros Hrun. unfold check_window in Hrun.
    apply (rolling_probe key amount mx) with (h := h) (T := T) in Hrun
      as (T' & HT' & Hro' & Hr); [|done..]. exists T'. split; [done|]. split; [exact Hro'|].
    intros -> eff [= <-] _. specialize (Hr None eq_refl). cbn [fst] in Hr.
    assert (Hnn' : Forall (fun e => 0 <= amount e) (keep (live key T') h)).
    { apply Forall_keep. eapply Forall_impl; [apply (ro_hist _ _ _ _ _ _ Hro')|]. tauto. }
    rewrite measure_amount. destruct (debit_total_nonneg (asset_normalise (ppc_asset c)) _ Hnn) as [_ ?].
    unfold bundle_accumulated in Hr. rewrite Hb, window_sum_nonneg in Hr by done.
    destruct (_ <? _) eqn:Hlt in Hr; [done|].
    unfold debit_total in *.
    apply sat_room in Hlt; [done|by apply amounts_nonneg|lia|done].
  - rewrite Hb. intros [= <- <-]. exists T. split; [lia|split; done].
Qed.

Lemma plain_amount_key p ctx asset w :
  ctx_profile_name ctx = p -> StateKey_new p 1 asset (secs w) = amount_key ctx asset w.
Proof. by intros <-. Qed.

Lemma per_period_step c p w h w' h' T key :
  key = StateKey_new p 1 (asset_normalise (ppc_asset c)) (secs (ppc_window c)) ->
  0 <= window_secs key * 1000 <= hi u64 -> ppc_max_stroops c < hi i128 ->
  session_step c key (plain_call p) (w, h) (w', h') ->
  rolling key amount (ppc_max_stroops c) w h T ->
  exists T', rolling key amount (ppc_max_stroops c) w' h' T'.
Proof.
  intros Hkey Hwin Hmax Hstep Hro.
  inversion Hstep as [ctx ? ? w1 w2 es Hadm Hev H5|ctx ? ? r w1 Hadm Hev|? ? ? Hn Hd]; subst.
  - pose proof Hadm as (Hp & Hb & Hnn).
    rewrite (plain_amount_key p ctx _ _ Hp) in *.
    destruct (per_period_evaluate c ctx p (ppc_max_stroops c) w h T (Ok None) w1)
      as (T' & _ & Hro' & Hroom); [done..|].
    cbn in H5. unfold PerPeriodCap_record_confirmed in H5.
    destruct (ctx_value ctx) as [|effects|] eqn:Hv;
      [injection H5 as <- <-; exists T'; cbn; by rewrite app_nil_r| |
       injection H5 as <- <-; exists T'; cbn; by rewrite app_nil_r].
    rewrite record_loop_spec in H5. cbn [orb] in H5.
    case_bool_decide as Hd; cbn [negb] in H5.
    { injection H5 as <- <-. exists T'. cbn. by rewrite app_nil_r. }
    fold (debit_total (asset_normalise (ppc_asset c)) (legs effects)) in H5.
    specialize (Hroom eq_refl effects eq_refl Hd). specialize (Hnn effects eq_refl).
    destruct (debit_total_nonneg (asset_normalise (ppc_asset c)) _ Hnn) as [_ [? _]].
    eapply rolling_record in H5 as (t & -> & Hro''); [|done|exact Hro'|done|done].
    exists t. exact Hro''.
  - pose proof Hadm as (Hp & _).
    rewrite (plain_amount_key p ctx _ _ Hp) in *.
    destruct (per_period_evaluate c ctx p (ppc_max_stroops c) w h' T r w') as (T' & _ & Hro' & _);
      [done..|]. eauto.
  - exists T. by eapply rolling_other.
Qed.

(** *** Call windows *)

Definition one (_ : StateEntry) : Z := 1.

Lemma measure_one l : measure one l = Z.of_nat (length l).
Proof. induction l as [|e l IH]; cbn [measure length]; [done|]. rewrite IH. unfold one. lia. Qed.

Lemma rate_step c p w h w' h' T key :
  key = StateKey_new p 1 "rate_limit" (secs (rl_window c)) ->
  0 <= window_secs key * 1000 <= hi u64 -> rl_max_calls c <= hi u32 ->
  session_step c key (plain_call p) (w, h) (w', h') ->
  rolling key one (rl_max_calls c) w h T ->
  exists T', rolling key one (rl_max_calls c) w' h' T'.
Proof.
  intros Hkey Hwin Hmax Hstep Hro.
  inversion Hstep as [ctx ? ? w1 w2 es Hadm Hev H5|ctx ? ? r w1 Hadm Hev|? ? ? Hn Hd]; subst.
  - pose proof Hadm as (Hp & Hb & _). cbn in Hev, H5.
    unfold RateLimit_evaluate, rate_key in Hev. unfold RateLimit_record_confirmed, rate_key in H5.
    rewrite Hb, Hp in *.
    eapply rolling_probe in Hev as (T' & _ & Hro' & Hr); [|done|exact Hro].
    specialize (Hr None eq_refl). cbn [snd] in Hr. unfold bundle_accumulated in Hr.
    rewrite Hb, window_count_spec in Hr. destruct (_ <=? _) eqn:Hle in Hr; [done|].
    apply Z.leb_gt in Hle. change (u32_or_max (Z.max 0 0)) with 0 in Hle.
    eapply rolling_record in H5 as (t & -> & Hro''); [by exists t|done|exact Hro'|done|].
    intros t. rewrite measure_one. revert Hle. unfold sat_add, clamp, one. cbn in *. lia.
  - pose proof Hadm as (Hp & Hb & _). cbn in Hev. unfold RateLimit_evaluate, rate_key in Hev.
    rewrite Hp in *.
    eapply rolling_probe in Hev as (T' & _ & Hro' & _); [by exists T'|done|exact Hro].
  - exists T. by eapply rolling_other.
Qed.

(** The per-period cap holds over every interval of its window.  From a store
    without entries under the criterion's key, and on a clock that does not go
    back, whatever calls pass the criterion and are recorded, and whatever else
    happens to other keys in between, the debits recorded in any interval
    [[t - window, t]] add up to at most the cap. *)
Theorem per_period_cap_rolling c p w0 w h t :
  let key := StateKey_new p 1 (asset_normalise (ppc_asset c)) (secs (ppc_window c)) in
  0 <= secs (ppc_window c) * 1000 <= hi u64 -> 0 <= ppc_max_stroops c < hi i128 ->
  deque_of (inner (w_store w0)) key = [] ->
  rtc (session_step c key (plain_call p)) (w0, []) (w, h) ->
  window_total key amount t h <= ppc_max_stroops c.
Proof.
  intros key Hwin Hmax Hempty Hrun.
  destruct (session_rolling c key (plain_call p) amount (ppc_max_stroops c) w0 w h) as [T Hro];
    [|lia|done|done|apply Hro].
  intros. eapply per_period_step; [done|done|lia|done|done].
Qed.

(** The rate limit holds over every interval of its window: under the same
    conditions at most [max_calls] calls are recorded in any interval
    [[t - window, t]]. *)
Theorem rate_limit_rolling c p w0 w h t :
  let key := StateKey_new p 1 "rate_limit" (secs (rl_window c)) in
  0 <= secs (rl_window c) * 1000 <= hi u64 -> 0 <= rl_max_calls c <= hi u32 ->
  deque_of (inner (w_store w0)) key = [] ->
  rtc (session_step c key (plain_call p)) (w0, []) (w, h) ->
  Z.of_nat (length (keep (in_window key t) h)) <= rl_max_calls c.
Proof.
  intros key Hwin Hmax Hempty Hrun. rewrite <-measure_one.
  destruct (session_rolling c key (plain_call p) one (rl_max_calls c) w0 w h) as [T Hro];
    [|lia|done|done|apply Hro].
  intros. eapply rate_step; [done|done|lia|done|done].
Qed.
End sessions.

(** ** The re-check of a recorded entry *)

Lemma window_sum_range l : in_range i128 (window_sum l).
Proof.
  unfold window_sum. induction l as [|e l _] using rev_ind; [split; by vm_compute|].
  rewrite foldl_snoc. apply clamp_in_range. cbn. lia.
Qed.

Lemma sat_add_0 t z : in_range t z -> sat_add t z 0 = z.
Proof. intros. unfold sat_add. by rewrite Z.add_0_r, clamp_id. Qed.

Section recheck.
Context `{Clk : Clock}.

(** The durable store re-checks a recorded entry with the comparison the
    criterion made.  On a call with a matching debit the refusal of
    [per_period_cap] is the [refusal] of the entry it would record, and the
    refusal of [rate_limit] is that of its entry, both at the window content its
    query returned. *)
Theorem recheck_agrees_with_criterion c rl ctx effects w w1 d now used w2 :
  ctx_bundle ctx = None -> ctx_value ctx = VcValue effects ->
  let asset := asset_normalise (ppc_asset c) in
  debit_amounts asset (legs effects) ≠ [] ->
  clock (w_ticks w) = Ok now ->
  (query_window (w_store w) (amount_key ctx asset (ppc_window c)) (wrap_u 64 now) = (Ok used, w2) ->
   evaluate c ctx w = (Ok d, w1) ->
   d = refusal (WindowEntry_new (amount_key ctx asset (ppc_window c)) (wrap_u 64 now)
                  (debit_total asset (legs effects)) (ppc_window_limit c)) (fst used) (snd used)) /\
  (query_window (w_store w) (rate_key ctx (rl_window rl)) (wrap_u 64 now) = (Ok used, w2) ->
   evaluate rl ctx w = (Ok d, w1) ->
   d = refusal (WindowEntry_new (rate_key ctx (rl_window rl)) (wrap_u 64 now) 1
                  (rl_window_limit rl)) (fst used) (snd used)).
Proof.
  intros Hb Hv asset Hd Hclk. split; intros Hq Hev.
  - cbn in Hev. unfold PerPeriodCap_evaluate, classify_value in Hev. rewrite Hv in Hev. m_inv.
    apply debit_loop_Ok in Hev0 as [_ ->]. rewrite record_loop_spec in Hev. cbn [fst snd] in Hev.
    fold asset in Hev. rewrite bool_decide_false in Hev by done. cbn [orb negb] in Hev.
    unfold check_window in Hev. m_inv.
    apply now_ms_Ok in Hev0 as (ms & Hms & -> & ->). rewrite Hclk in Hms. injection Hms as <-.
    cbn [w_store] in Hev1. rewrite Hq in Hev1. injection Hev1 as <- <-.
    apply query_window_Ok in Hq as (_ & _ & -> & _).
    unfold bundle_accumulated, refusal. rewrite Hb. cbn [fst snd we_limit ppc_window_limit we_amount].
    by rewrite !sat_add_0 by apply window_sum_range.
  - cbn in Hev. unfold RateLimit_evaluate in Hev. m_inv.
    apply now_ms_Ok in Hev0 as (ms & Hms & -> & ->). rewrite Hclk in Hms. injection Hms as <-.
    cbn [w_store] in Hev1. rewrite Hq in Hev1. injection Hev1 as <- <-.
    apply query_window_Ok in Hq as (_ & _ & -> & _).
    unfold bundle_accumulated, refusal. rewrite Hb. cbn [fst snd we_limit rl_window_limit].
    change (u32_or_max (Z.max 0 0)) with 0. rewrite window_count_spec.
    rewrite sat_add_0; [done|]. split; cbn; lia.
Qed.
End recheck.

(** ** The reserve guard *)

Definition native_debits (ls : list ValueLeg) : list Z :=
  omap (fun leg => if is_native_debit leg then leg_amount leg else None) ls.

Definition native_resolved (leg : ValueLeg) : Prop :=
  is_native_debit leg = true -> is_Some (leg_amount leg).

Lemma native_debit_loop_Ok tool s ls r :
  native_debit_loop tool s ls = Ok r <->
  Forall native_resolved ls /\ r = foldl (sat_add i128) s (native_debits ls).
Proof.
  revert s. induction ls as [|leg ls IH]; intros s; cbn.
  { split; [intros [= <-]|intros [_ ->]]; by repeat constructor. }
  rewrite Forall_cons. unfold native_resolved at 1. destruct (is_native_debit leg); cbn [negb].
  - destruct (leg_amount leg) as [n|].
    + rewrite IH. cbn. naive_solver.
    + split; [done|]. intros [[Hr _] _]. by destruct (Hr eq_refl).
  - rewrite IH. naive_solver.
Qed.

Lemma native_debits_nonneg ls : legs_nonneg ls -> Forall (Z.le 0) (native_debits ls).
Proof.
  induction 1 as [|leg ls Hleg Hls IH]; cbn; [done|].
  destruct (is_native_debit leg); [|done]. destruct (leg_amount leg); [|done]. constructor; auto.
Qed.

(** The reserve guard passes a value-moving call exactly when every native
    debit has an amount and the balance less all native debits and the fee stays
    at or above the account's reserve plus the margin; token debits do not
    count, and saturation never lets a breach through. *)
Theorem minimum_reserve_exact c ctx effects w view balance fee :
  ctx_value ctx = VcValue effects -> legs_nonneg (legs effects) ->
  ctx_account_view ctx = Some view -> balance_stroops view = Ok balance -> in_range i64 balance ->
  extract_total_fee_stroops ctx = fee -> 0 <= fee <= hi i64 ->
  evaluate c ctx w = (Ok None, w) <->
  Forall native_resolved (legs effects) /\
  clamp i64 (reserves_stroops view BASE_RESERVE_STROOPS + mr_margin_stroops c)
    <= balance - sum_list (native_debits (legs effects)) - fee.
Proof.
  intros Hv Hnn Hview Hbal Hb Hfee Hf. unfold in_range in Hb.
  pose proof (native_debits_nonneg _ Hnn) as Hnd. pose proof (sum_list_nonneg _ Hnd) as Hs.
  cbn. unfold MinimumReserve_evaluate. rewrite lift_Ok, Hview.
  cbn [ok_or mbind result_bind]. rewrite Hbal. cbn [map_err mbind result_bind]. rewrite Hfee.
  unfold extract_amount_stroops, classify_value. rewrite Hv.
  set (R := reserves_stroops view BASE_RESERVE_STROOPS + mr_margin_stroops c).
  assert (HR : in_range i64 (clamp i64 R)) by (apply clamp_in_range; cbn; lia).
  unfold in_range in HR. unfold sat_add at 2. fold R. split.
  - intros [Hrun _]. destruct (native_debit_loop _ _ _) as [n|] eqn:Hn; [|done].
    apply native_debit_loop_Ok in Hn as [Hres ->]. split; [done|].
    rewrite sat_sum_nonneg in Hrun by (done || (cbn; lia)). cbn [fmap result_fmap mbind result_bind] in Hrun.
    destruct (_ <? _) eqn:Hlt in Hrun; [done|]. apply Z.ltb_ge in Hlt.
    unfold sat_sub, sat_add, clamp in *. cbn in *. lia.
  - intros [Hres Hle]. split; [|done].
    rewrite (proj2 (native_debit_loop_Ok _ _ _ (foldl (sat_add i128) 0 (native_debits (legs effects))))) by done.
    rewrite sat_sum_nonneg by (done || (cbn; lia)). cbn [fmap result_fmap mbind result_bind].
    rewrite (proj2 (Z.ltb_ge _ _)); [done|].
    unfold sat_sub, sat_add, clamp in *. cbn in *. lia.
Qed.

(** ** Witnesses *)

(** A clock that ticks every second. *)
Definition demo_clock : Clock := fun n => Ok (Z.min (1000 * Z.of_nat n) (hi u64)).

Lemma demo_clock_mono : @MonotoneClock demo_clock.
Proof. split. intros n n' a b Hn [= <-] [= <-]. cbn. lia. Defined.

Definition demo_tool : ToolDescriptor := {|
  tool_name := "stellar_pay"; destructive_hint := true; read_only_hint := false;
  chain_id_required := true; tool_chain_id := "stellar:testnet"; value_kind := TvkMovesValue
|}.

Definition demo_profile : Profile :=
  {| mcp_signer_default_account := "GALICE"; is_mainnet := false |}.

(** A payment of [n] stroops of the native asset to [GBOB]. *)
Definition demo_pay (n : Z) : ValueClass :=
  single (MkLeg Payment (Some n) (Some "XLM") (Some "GBOB")).

Definition demo_ctx (v : ValueClass) : EvalContext :=
  MkCtx demo_tool JNull "alice" demo_profile v None None None None None None None.

Definition demo_world : World := MkWorld PolicyStateStore_new 0.

Definition demo_window : Window := {| secs := 60; label := "1m" |}.

Lemma demo_legs_nonneg n : 0 <= n -> legs_nonneg [MkLeg Payment (Some n) (Some "XLM") (Some "GBOB")].
Proof. intros Hn. constructor; [|done]. by intros ? [= <-]. Defined.

Lemma per_tx_cap_exact_witness :
  evaluate {| ptc_asset := "native"; ptc_max_stroops := 10 |} (demo_ctx (demo_pay 10)) demo_world
    = (Ok None, demo_world) <->
  Forall (debit_resolved "native") [MkLeg Payment (Some 10) (Some "XLM") (Some "GBOB")] /\
  10 + 0 <= 10.
Proof.
  apply (per_tx_cap_exact {| ptc_asset := "native"; ptc_max_stroops := 10 |}
    (demo_ctx (demo_pay 10)) (MkEffects [MkLeg Payment (Some 10) (Some "XLM") (Some "GBOB")])).
  - done.
  - by apply demo_legs_nonneg.
  - cbn. lia.
Defined.

Lemma per_period_cap_rolling_witness :
  let c := {| ppc_asset := "XLM"; ppc_window := demo_window; ppc_max_stroops := 10 |} in
  window_total (StateKey_new "alice" 1 "native" 60) amount 5000 [MkEntry 1000 7 false] <= 10.
Proof.
  cbv zeta.
  apply (@per_period_cap_rolling demo_clock demo_clock_mono
    {| ppc_asset := "XLM"; ppc_window := demo_window; ppc_max_stroops := 10 |} "alice" demo_world
    (MkWorld (MkStore {[StateKey_new "alice" 1 "native" 60 := [MkEntry 1000 7 false]]} false) 2)).
  - cbn. lia.
  - cbn. lia.
  - done.
  - apply rtc_once. eapply (session_spend _ _ _ (demo_ctx (demo_pay 7)) _ [] _ _
      [WindowEntry_new (StateKey_new "alice" 1 "native" 60) 1000 7 (LimitAmount "XLM" "1m" 10)]).
    + split_and!; [done..|]. intros effects [= <-]. by apply demo_legs_nonneg.
    + by vm_compute.
    + by vm_compute.
Defined.

Lemma rate_limit_rolling_witness :
  Z.of_nat (length (keep (in_window (StateKey_new "alice" 1 "rate_limit" 60) 5000)
    [MkEntry 1000 1 false])) <= 1.
Proof.
  apply (@rate_limit_rolling demo_clock demo_clock_mono
    {| rl_window := demo_window; rl_max_calls := 1 |} "alice" demo_world
    (MkWorld (MkStore {[StateKey_new "alice" 1 "rate_limit" 60 := [MkEntry 1000 1 false]]} false) 2)).
  - cbn. lia.
  - cbn. lia.
  - done.
  - apply rtc_once. eapply (session_spend _ _ _ (demo_ctx (demo_pay 7)) _ [] _ _
      [WindowEntry_new (StateKey_new "alice" 1 "rate_limit" 60) 1000 1 (LimitCount "1m" 1)]).
    + split_and!; [done..|]. intros effects [= <-]. by apply demo_legs_nonneg.
    + by vm_compute.
    + by vm_compute.
Defined.

Lemma recheck_agrees_with_criterion_witness :
  let c := {| ppc_asset := "XLM"; ppc_window := demo_window; ppc_max_stroops := 10 |} in
  Some (PerPeriodCapExceeded "XLM" "1m" 10 11 0) =
  refusal (WindowEntry_new (StateKey_new "alice" 1 "native" 60) 0 11 (ppc_window_limit c)) 0 0.
Proof.
  cbv zeta.
  eapply (@recheck_agrees_with_criterion demo_clock
    {| ppc_asset := "XLM"; ppc_window := demo_window; ppc_max_stroops := 10 |}
    {| rl_window := demo_window; rl_max_calls := 1 |} (demo_ctx (demo_pay 11))
    (MkEffects [MkLeg Payment (Some 11) (Some "XLM") (Some "GBOB")]) demo_world _
    (Some (PerPeriodCapExceeded "XLM" "1m" 10 11 0)) 0 (0, 0));
    [done|done|done|done|by vm_compute..].
Defined.

Definition demo_account : AccountReservesView :=
  {| reserves_stroops := fun base => 2 * base; balance_stroops := Ok 20000000 |}.

Lemma minimum_reserve_exact_witness :
  let ctx := MkCtx demo_tool JNull "alice" demo_profile (demo_pay 9000000)
               (Some demo_account) None None None None None None in
  evaluate {| mr_margin_stroops := 1000000 |} ctx demo_world = (Ok None, demo_world) <->
  Forall native_resolved [MkLeg Payment (Some 9000000) (Some "XLM") (Some "GBOB")] /\
  11000000 <= 20000000 - 9000000 - 0.
Proof.
  cbv zeta.
  apply (minimum_reserve_exact {| mr_margin_stroops := 1000000 |}
    (MkCtx demo_tool JNull "alice" demo_profile (demo_pay 9000000)
       (Some demo_account) None None None None None None)
    (MkEffects [MkLeg Payment (Some 9000000) (Some "XLM") (Some "GBOB")]) demo_world demo_account
    20000000 0); try done.
  by apply demo_legs_nonneg.
Defined.
