(* ===== verification/Engine.v ===== *)
(** * The policy engine (stellar-agent-core, [policy/v1/mod.rs], and the rule
      types of [policy/v1/loader.rs])

    Rule matching, the evaluation of a single call, the two-phase evaluation of
    a multicall bundle, and the recording of confirmed calls.  The engine is
    generic in the type of its criteria: it uses nothing but the [Criterion]
    interface, and the criteria of the loader are one such type.  The debug assertion on the value class is compiled out of
    release builds and has no counterpart here; the value gate of the criteria
    makes the same check. *)

From S2P Require Import Prelude RustStr Amount Json AssetId PolicyTypes StateStore Value Context Criteria Allowlist.
From stdpp Require Import options.

(** ** [Box<dyn Criterion>]

    A rule holds its criteria as trait objects; the sixteen criteria the loader
    can build are the variants of [BoxCriterion], which dispatches every method
    to the criterion inside. *)



Inductive BoxCriterion :=
| BoxPerTxCap (c : PerTxCapCriterion)
| BoxApprovalAbove (c : ApprovalAboveCriterion)
| BoxPerPeriodCap (c : PerPeriodCapCriterion)
| BoxRateLimit (c : RateLimitCriterion)
| BoxCounterpartyAllowlist (c : CounterpartyAllowlistCriterion)
| BoxMinimumReserve (c : MinimumReserveCriterion)
| BoxHomeDomainResolved (c : HomeDomainResolvedCriterion)
| BoxQuorumSatisfied (c : QuorumSatisfiedCriterion)
| BoxSep10SessionActive (c : Sep10SessionActiveCriterion)
| BoxSep45SessionActive (c : Sep45SessionActiveCriterion)
| BoxInnerInvocationCountCap (c : InnerInvocationCountCapCriterion)
| BoxBundleAggregateCap (c : BundleAggregateCapCriterion)
| BoxRestrictBundle (c : RestrictBundleToRecognisedKindsCriterion)
| BoxBundlePerTxCap (c : BundlePerTxCapCriterion)
| BoxBundlePerPeriodCap (c : BundlePerPeriodCapCriterion)
| BoxBundleRateLimit (c : BundleRateLimitCriterion).

Section boxed.
Context `{Clock, Strkey}.

(** Virtual dispatch. *)
Definition dispatch {R} (f : forall C, Criterion C -> C -> R) (b : BoxCriterion) : R :=
  match b with
  | BoxPerTxCap c => f _ _ c
  | BoxApprovalAbove c => f _ _ c
  | BoxPerPeriodCap c => f _ _ c
  | BoxRateLimit c => f _ _ c
  | BoxCounterpartyAllowlist c => f _ _ c
  | BoxMinimumReserve c => f _ _ c
  | BoxHomeDomainResolved c => f _ _ c
  | BoxQuorumSatisfied c => f _ _ c
  | BoxSep10SessionActive c => f _ _ c
  | BoxSep45SessionActive c => f _ _ c
  | BoxInnerInvocationCountCap c => f _ _ c
  | BoxBundleAggregateCap c => f _ _ c
  | BoxRestrictBundle c => f _ _ c
  | BoxBundlePerTxCap c => f _ _ c
  | BoxBundlePerPeriodCap c => f _ _ c
  | BoxBundleRateLimit c => f _ _ c
  end.

Global Instance BoxCriterion_criterion : Criterion BoxCriterion := {
  kind := dispatch (fun C I c => kind c);
  evaluate := dispatch (fun C I c => evaluate c);
  evaluate_decision := dispatch (fun C I c => evaluate_decision c);
  is_bundle_level := dispatch (fun C I c => is_bundle_level c);
  accumulate_overlay := dispatch (fun C I c => accumulate_overlay c);
  record_confirmed := dispatch (fun C I c => record_confirmed c);
}.
End boxed.

Local Open Scope string_scope.
Local Open Scope list_scope.
Local Open Scope Z_scope.

(** ** Rules *)

Inductive ScopeId :=
| ScopeProfile (p : string)
| ScopeProfileProject (profile project : string)
| ScopeAllProfiles.

Global Instance ScopeId_eq_dec : EqDecision ScopeId.
Proof. solve_decision. Defined.

Definition specificity (s : ScopeId) : Z :=
  match s with
  | ScopeProfileProject _ _ => 3
  | ScopeProfile _ => 2
  | ScopeAllProfiles => 1
  end.

Definition scope_matches (s : ScopeId) (profile_name : string) (project_id : option string) : bool :=
  match s with
  | ScopeProfileProject profile project =>
      bool_decide (profile = profile_name) && bool_decide (project_id = Some project)
  | ScopeProfile p => bool_decide (p = profile_name)
  | ScopeAllProfiles => true
  end.

Record RuleMatch := { rm_tool : string; rm_chain : string }.

Definition rule_match_matches (m : RuleMatch) (tool : ToolDescriptor) : bool :=
  let tool_match := bool_decide (rm_tool m = "*") || bool_decide (rm_tool m = tool_name tool) in
  let chain_match :=
    bool_decide (rm_chain m = "*") || bool_decide (rm_chain m = tool_chain_id tool) in
  tool_match && chain_match.

(** The optional views a dispatch site supplies. *)
Record Views := {
  v_account : option AccountReservesView;
  v_identity : option AccountIdentityView;
  v_cache : option CounterpartyCacheView;
  v_sep10 : option SessionView;
  v_sep45 : option SessionView;
}.

(** [policy/mod.rs]'s [Evaluation]. *)
Record Evaluation := { ev_decision : Decision; ev_value_effects : option ValueEffects }.

Definition value_effects_on_permitted_decision (d : Decision) (v : ValueClass)
  : option ValueEffects :=
  match d, v with
  | Allow, VcValue effects | RequireApproval _, VcValue effects => Some effects
  | _, _ => None
  end.

Section engine.
Context {C : Type} `{Criterion C}.

Record PolicyRule := {
  pr_match : RuleMatch;
  pr_criteria : list C;
  pr_decision : Decision;
  pr_allow_opaque_signing : bool;
}.

Record PolicySignature := { owner_id : string; sig : string }.

Record PolicyDocument := {
  doc_version : Z;
  doc_scope : ScopeId;
  doc_rules : list PolicyRule;
  doc_signature : option PolicySignature;
}.

Definition matches_tool (r : PolicyRule) (tool : ToolDescriptor) : bool :=
  rule_match_matches (pr_match r) tool.

(** The engine's immutable part; the store is in the world, and the project id
    is what [new] read from the environment. *)
Record PolicyEngineV1 := {
  en_document : PolicyDocument;
  en_profile_name : string;
  en_project_id : option string;
}.

Definition matching_rules (e : PolicyEngineV1) (profile_name : string)
    (project_id : option string) : list PolicyRule :=
  if scope_matches (doc_scope (en_document e)) profile_name project_id
  then doc_rules (en_document e) else [].

(** The first rule of the document that matches the tool, first match wins. *)
Fixpoint find_rule (rules : list PolicyRule) (tool : ToolDescriptor) : option PolicyRule :=
  match rules with
  | [] => None
  | r :: rules' => if matches_tool r tool then Some r else find_rule rules' tool
  end.

Definition engine_rule (e : PolicyEngineV1) (tool : ToolDescriptor) : option PolicyRule :=
  find_rule (matching_rules e (en_profile_name e) (en_project_id e)) tool.

(** [escalation.get_or_insert(request)] *)
Definition get_or_insert (esc : option ApprovalRequest) (req : ApprovalRequest)
  : option ApprovalRequest := Some (default req esc).

(** The loop over a rule's criteria: the first refusal ends it, an escalation is
    kept and the loop goes on. *)
Fixpoint criteria_loop (skip : C -> bool) (ctx : EvalContext) (esc : option ApprovalRequest)
    (cs : list C) : M (option DenyReason * option ApprovalRequest) :=
  match cs with
  | [] => mret (None, esc)
  | c :: cs' =>
      if skip c then criteria_loop skip ctx esc cs' else
      d ← evaluate_decision c ctx;
      match d with
      | Allow => criteria_loop skip ctx esc cs'
      | Deny r => mret (Some r, esc)
      | RequireApproval req => criteria_loop skip ctx (get_or_insert esc req) cs'
      end
  end.

(** The rule's decision, escalated when the rule allows. *)
Definition rule_outcome (r : PolicyRule) (esc : option ApprovalRequest) : Decision :=
  match pr_decision r, esc with
  | Allow, Some req => RequireApproval req
  | d, _ => d
  end.

(** ** Single calls *)

Definition effective_value (r : PolicyRule) (value : ValueClass) : ValueClass :=
  match value with
  | VcOpaque _ => if pr_allow_opaque_signing r then VcReadOnly else value
  | _ => value
  end.

Definition call_ctx (e : PolicyEngineV1) (tool : ToolDescriptor) (args : JsonValue)
    (profile : Profile) (value : ValueClass) (v : Views) : EvalContext :=
  MkCtx tool args (en_profile_name e) profile value (v_account v) (v_identity v) None
    (v_cache v) (v_sep10 v) (v_sep45 v) None.

Definition evaluate_inner (e : PolicyEngineV1) (tool : ToolDescriptor) (args : JsonValue)
    (profile : Profile) (value : ValueClass) (v : Views) : M Decision :=
  match engine_rule e tool with
  | None => mret (Deny NoMatchingRule)
  | Some rule =>
      let ctx := call_ctx e tool args profile (effective_value rule value) v in
      r ← criteria_loop (fun _ => false) ctx None (pr_criteria rule);
      mret (match r with
            | (Some deny, _) => Deny deny
            | (None, esc) => rule_outcome rule esc
            end)
  end.

Definition evaluate_with_value_full (e : PolicyEngineV1) (tool : ToolDescriptor)
    (args : JsonValue) (profile : Profile) (value : ValueClass) (v : Views) : M Evaluation :=
  d ← evaluate_inner e tool args profile value v;
  mret {| ev_decision := d; ev_value_effects := value_effects_on_permitted_decision d value |}.

Definition evaluate_with_value (e : PolicyEngineV1) (tool : ToolDescriptor)
    (args : JsonValue) (profile : Profile) (value : ValueClass) (v : Views) : M Decision :=
  ev ← evaluate_with_value_full e tool args profile value v;
  mret (ev_decision ev).

Definition evaluate_full `{Strkey} (e : PolicyEngineV1) (tool : ToolDescriptor)
    (args : JsonValue) (profile : Profile) (v : Views) : M Evaluation :=
  evaluate_with_value_full e tool args profile (derive_value_class (tool_name tool) args) v.

Definition engine_evaluate `{Strkey} (e : PolicyEngineV1) (tool : ToolDescriptor)
    (args : JsonValue) (profile : Profile) (v : Views) : M Decision :=
  ev ← evaluate_full e tool args profile v;
  mret (ev_decision ev).

(** ** Recording *)

Definition bare_ctx (e : PolicyEngineV1) (tool : ToolDescriptor) (args : JsonValue)
    (profile : Profile) (value : ValueClass) (bundle : option BundleView) : EvalContext :=
  MkCtx tool args (en_profile_name e) profile value None None None None None None bundle.

Definition record_rule (e : PolicyEngineV1) (tool : ToolDescriptor) (profile : Profile)
    (value : ValueClass) (bundle : option BundleView) : M (list WindowEntry) :=
  match engine_rule e tool with
  | None => mret []
  | Some rule =>
      recorded ← forM (fun c => record_confirmed c (bare_ctx e tool JNull profile value bundle))
                   (pr_criteria rule);
      mret (concat recorded)
  end.

(** [PolicyEngineV1::record_confirmed] *)
Definition engine_record_confirmed (e : PolicyEngineV1) (tool : ToolDescriptor)
    (profile : Profile) (value : ValueClass) : M (list WindowEntry) :=
  record_rule e tool profile value None.

Definition record_confirmed_bundle (e : PolicyEngineV1) (tool : ToolDescriptor)
    (profile : Profile) (bundle : BundleView) : M (list WindowEntry) :=
  record_rule e tool profile VcReadOnly (Some bundle).

(** ** Bundles *)

Definition VALUE_SUMMING_BUNDLE_CAPS : list string :=
  ["bundle_aggregate_cap"; "bundle_per_tx_cap"; "bundle_per_period_cap"].

(** The overlay update after an inner call passed. *)
Definition accumulate_all (ctx : EvalContext) (inner : InnerOpDescriptor) (cs : list C)
    (o : Overlay) : Overlay :=
  foldl (fun o c => if is_bundle_level c then o else accumulate_overlay c ctx inner o) o cs.

(** Phase 1: every inner call against the per-call criteria, in order, with what
    the earlier inner calls of the bundle used. *)
Fixpoint bundle_phase1 (e : PolicyEngineV1) (tool : ToolDescriptor) (args : JsonValue)
    (profile : Profile) (rule : PolicyRule) (all : list InnerOpDescriptor)
    (idx : nat) (o : Overlay) (esc : option ApprovalRequest) (l : list InnerOpDescriptor)
  : M (option DenyReason * Overlay * option ApprovalRequest) :=
  match l with
  | [] => mret (None, o, esc)
  | inner :: l' =>
      let view := {| inners := all; overlay := o |} in
      let ctx := bare_ctx e tool args profile (value_class_for_inner inner) (Some view) in
      r ← criteria_loop is_bundle_level ctx esc (pr_criteria rule);
      match r with
      | (Some deny, esc') => mret (Some (BundleDenied (u32_or_max (Z.of_nat idx)) deny), o, esc')
      | (None, esc') =>
          let accum_ctx := bare_ctx e tool args profile VcReadOnly None in
          let o' := accumulate_all accum_ctx inner (pr_criteria rule) o in
          bundle_phase1 e tool args profile rule all (S idx) o' esc' l'
      end
  end.

(** Phase 2: the implicit guard under a value-summing cap, then the bundle-level
    criteria on the whole bundle. *)
Definition bundle_phase2 (e : PolicyEngineV1) (tool : ToolDescriptor) (args : JsonValue)
    (profile : Profile) (rule : PolicyRule) (all : list InnerOpDescriptor)
    (o : Overlay) (esc : option ApprovalRequest) : M Decision :=
  let ctx := bare_ctx e tool args profile VcReadOnly
               (Some {| inners := all; overlay := o |}) in
  guard ← (if existsb (fun c => bool_decide (kind c ∈ VALUE_SUMMING_BUNDLE_CAPS)) (pr_criteria rule)
           then evaluate {| rbk_enabled := true |} ctx
           else mret None);
  match guard with
  | Some deny => mret (Deny deny)
  | None =>
      r ← criteria_loop (fun c => negb (is_bundle_level c)) ctx esc (pr_criteria rule);
      mret (match r with
            | (Some deny, _) => Deny deny
            | (None, esc') => rule_outcome rule esc'
            end)
  end.

Definition evaluate_bundle (e : PolicyEngineV1) (tool : ToolDescriptor) (args : JsonValue)
    (profile : Profile) (bundle : BundleView) : M Decision :=
  let n := Z.of_nat (length (inners bundle)) in
  if DEFAULT_INNER_INVOCATION_COUNT_CAP <? n then
    mret (Deny (InnerInvocationCountCapExceeded DEFAULT_INNER_INVOCATION_COUNT_CAP (u32_or_max n)))
  else
  match engine_rule e tool with
  | None => mret (Deny NoMatchingRule)
  | Some rule =>
      r ← bundle_phase1 e tool args profile rule (inners bundle) 0 ∅ None (inners bundle);
      let '(deny, o, esc) := r in
      match deny with
      | Some d => mret (Deny d)
      | None => bundle_phase2 e tool args profile rule (inners bundle) o esc
      end
  end.
End engine.

Arguments PolicyRule : clear implicits.
Arguments PolicyDocument : clear implicits.
Arguments PolicyEngineV1 : clear implicits.
