(* ===== verification/Canonical.v ===== *)
(** * The signed form of a policy document (stellar-agent-core,
      [policy/v1/canonical.rs])

    The bytes the owner signs: version, scope and rules rebuilt without
    formatting, each rule in a fixed key order, rendered and normalised. *)

From S2P Require Import Prelude RustStr PolicyTypes Toml.
From stdpp Require Import options.

Local Open Scope string_scope.
Local Open Scope list_scope.
Local Open Scope Z_scope.

#[local] Abbreviation InlineTable := (MapOf TomlValue).
#[local] Abbreviation Table := (MapOf Item).

Definition parse_failed {A} (detail : string) : result PolicyError A :=
  Err (PolicyFileParseFailed detail).

Definition REQUIRED_RULE_KEYS : list string := ["match"; "criteria"; "decision"].
Definition OPTIONAL_RULE_KEYS : list string := ["reason"; "ttl_secs"; "allow_opaque_signing"].

(** Insert the given entries one by one into an empty map. *)
Definition map_collect {A} (l : list (string * A)) : MapOf A :=
  foldl (fun out e => map_insert (fst e) (snd e) out) map_new l.

Definition plain_format {A} (f : Formatted A) : Formatted A := MkFormatted EmptyString (fvalue f).

Fixpoint strip_value_decor (v : TomlValue) : TomlValue :=
  match v with
  | TString f => TString (plain_format f)
  | TInteger f => TInteger (plain_format f)
  | TFloat f => TFloat (plain_format f)
  | TBoolean f => TBoolean (plain_format f)
  | TDatetime f => TDatetime (plain_format f)
  | TArray _ l => TArray EmptyString (map strip_value_decor l)
  | TInlineTable t =>
      TInlineTable (map_clear_decor
        (map_collect (map (fun e => (fst e, strip_value_decor (snd e))) (entries t))))
  end.

Definition canonical_scalar (i : Item) : result PolicyError TomlValue :=
  match i with
  | IValue v => Ok (strip_value_decor v)
  | _ => parse_failed "expected a scalar value (integer, string, boolean)"
  end.

Fixpoint canonical_item_as_value (i : Item) : result PolicyError TomlValue :=
  match i with
  | IValue v => Ok (strip_value_decor v)
  | ITable t =>
      es ← (fix go (l : list (string * Item)) : result PolicyError (list (string * TomlValue)) :=
              match l with
              | [] => Ok []
              | (k, i) :: l' =>
                  if is_item i
                  then cv ← canonical_item_as_value i; es ← go l'; Ok ((k, cv) :: es)
                  else go l'
              end) (entries t);
      Ok (TInlineTable (map_clear_decor (map_collect es)))
  | IArrayOfTables _ => parse_failed "unexpected array-of-tables within rule field"
  | INone => parse_failed "unexpected None item in rule field"
  end.

(** The two key loops of a rule: a missing required key is an error. *)
Fixpoint insert_required {A} (get : string -> option A) (conv : A -> result PolicyError TomlValue)
    (keys : list string) (out : Table) : result PolicyError Table :=
  match keys with
  | [] => Ok out
  | key :: keys' =>
      item ← ok_or (PolicyFileParseFailed ("rule missing required `" +:+ key +:+ "` key")) (get key);
      v ← conv item;
      insert_required get conv keys' (map_insert key (IValue v) out)
  end.

Fixpoint insert_optional {A} (get : string -> option A) (conv : A -> result PolicyError TomlValue)
    (keys : list string) (out : Table) : result PolicyError Table :=
  match keys with
  | [] => Ok out
  | key :: keys' =>
      match get key with
      | Some item => v ← conv item; insert_optional get conv keys' (map_insert key (IValue v) out)
      | None => insert_optional get conv keys' out
      end
  end.

Definition canonical_rule_table (src : Table) : result PolicyError Table :=
  out ← insert_required (table_get src) canonical_item_as_value REQUIRED_RULE_KEYS map_new;
  out ← insert_optional (table_get src) canonical_item_as_value OPTIONAL_RULE_KEYS out;
  Ok (map_clear_decor out).

Definition canonical_inline_rule (src : InlineTable) : InlineTable :=
  map_clear_decor (foldl (fun out key =>
    match inline_get src key with
    | Some v => map_insert key (strip_value_decor v) out
    | None => out
    end) map_new (REQUIRED_RULE_KEYS ++ OPTIONAL_RULE_KEYS)).

Definition canonical_table_from_inline_rule (src : InlineTable) : result PolicyError Table :=
  let inline := canonical_inline_rule src in
  let strip v := Ok (strip_value_decor v) in
  out ← insert_required (inline_get inline) strip REQUIRED_RULE_KEYS map_new;
  out ← insert_optional (inline_get inline) strip OPTIONAL_RULE_KEYS out;
  Ok (map_clear_decor out).

(** The document that [build_canonical_document] assembles, before it is
    rendered. *)
Definition canonical_document (doc : Table) : result PolicyError Table :=
  version_item ← ok_or (PolicyFileParseFailed "policy file missing required key `version`")
                   (table_get doc "version");
  version_val ← canonical_scalar version_item;
  let out := map_insert "version" (IValue version_val) map_new in
  scope_item ← ok_or (PolicyFileParseFailed "policy file missing required key `scope`")
                 (table_get doc "scope");
  scope_val ← canonical_scalar scope_item;
  let out := map_insert "scope" (IValue scope_val) out in
  match table_get doc "rules" with
  | None => Ok out
  | Some (IArrayOfTables aot) =>
      ts ← mapM_res canonical_rule_table aot;
      Ok (map_insert "rules" (IArrayOfTables ts) out)
  | Some (IValue (TArray _ arr)) =>
      ts ← mapM_res (fun val =>
             inline ← ok_or (PolicyFileParseFailed "rules array element is not a table")
                        (as_inline_table val);
             canonical_table_from_inline_rule inline) arr;
      Ok (map_insert "rules" (IArrayOfTables ts) out)
  | Some _ => parse_failed "`rules` must be an array of tables"
  end.

(** The two [while] loops: leading and trailing empty lines. *)
Fixpoint drop_empty (l : list string) : list string :=
  match l with
  | [] => []
  | s :: l' => if is_empty s then drop_empty l' else l
  end.

Definition normalise_whitespace (s : string) : string :=
  let result := drop_empty (map trim_end (lines s)) in
  let result := reverse (drop_empty (reverse result)) in
  str_join (String newline EmptyString) result +:+ String newline EmptyString.

Section canonical.
Context `{!TomlCrate}.

Definition build_canonical_document (doc : Table) : result PolicyError string :=
  out ← canonical_document doc;
  Ok (normalise_whitespace (toml_render out)).

Definition canonical_bytes (toml_text : string) : result PolicyError string :=
  doc ← map_err PolicyFileParseFailed (toml_parse toml_text);
  build_canonical_document doc.
End canonical.
