(* ===== verification/Loader.v ===== *)
(** * The policy loader (stellar-agent-core, [policy/v1/loader.rs],
      [policy/v1/schema.rs], [policy/v1/signature.rs], [counterparty.rs])

    From the text of a policy file to the engine's document: the key schema,
    the owner signature over the canonical form, and the parsers of scope,
    rules, criteria and decisions.  The hash, the signature scheme and the TOML
    crate are parameters, and so is Rust's [escape_debug], which only spells a
    refused key in an error message. *)

From S2P Require Import Prelude RustStr Toml PolicyTypes Value Criteria Allowlist Engine Canonical.
From stdpp Require Import options.

Local Open Scope string_scope.
Local Open Scope list_scope.
Local Open Scope Z_scope.

#[local] Abbreviation InlineTable := (MapOf TomlValue).
#[local] Abbreviation Table := (MapOf Item).
#[local] Abbreviation Rule := (PolicyRule BoxCriterion).

(** ** The key schema ([schema.rs]) *)

Definition ROOT_KEYS : list string := ["version"; "scope"; "rules"; "signature"].
Definition SIGNATURE_KEYS : list string := ["owner_id"; "sig"].
Definition RULE_KEYS : list string :=
  ["match"; "criteria"; "decision"; "reason"; "ttl_secs"; "allow_opaque_signing"].
Definition MATCH_KEYS : list string := ["tool"; "chain"].

Definition CRITERION_KEY_SETS : list (string * list string) :=
  [ ("per_tx_cap", ["kind"; "asset"; "max_stroops"]);
    ("approval_above", ["kind"; "asset"; "max_stroops"]);
    ("per_period_cap", ["kind"; "asset"; "window"; "max_stroops"]);
    ("rate_limit", ["kind"; "window"; "max_calls"]);
    ("counterparty_allowlist", ["kind"; "kinds"; "allowlist"; "gate_inflows"]);
    ("minimum_reserve", ["kind"; "margin_stroops"]);
    ("inner_invocation_count_cap", ["kind"; "max_count"]);
    ("bundle_aggregate_cap", ["kind"; "asset"; "max_amount"]);
    ("restrict_bundle_to_recognised_kinds", ["kind"; "enabled"]);
    ("bundle_per_period_cap", ["kind"; "asset"; "window"; "max_stroops"]);
    ("bundle_per_tx_cap", ["kind"; "asset"; "max_stroops"]);
    ("bundle_rate_limit", ["kind"; "window"; "max_calls"]);
    ("quorum_satisfied", ["kind"]);
    ("home_domain_resolved", ["kind"]);
    ("sep10_session_active", ["kind"]);
    ("sep45_session_active", ["kind"]) ].

Definition criterion_keys (kind : string) : option (list string) := assoc kind CRITERION_KEY_SETS.

(** ** Outside code *)

Class PolicyCrypto := {
  blake3_hash : string -> list Z;
  (** [VerifyingKey::from_bytes] succeeds, and [verify_strict] of a digest. *)
  verifying_key_ok : list Z -> bool;
  verify_strict : list Z -> list Z -> list Z -> bool;
}.

Section schema.
Context `{!EscapeDebug}.

Definition reject_unknown_keys (table : TableLike) (accepted : list string)
    (location : option string) (owner : string) : result PolicyError unit :=
  match List.find (fun key => negb (bool_decide (key ∈ accepted))) (tl_keys table) with
  | None => Ok tt
  | Some key =>
      let prefix := match location with Some loc => loc +:+ ": " | None => EmptyString end in
      parse_failed (prefix +:+ "unknown key `" +:+ escape_debug key +:+ "`; " +:+ owner
                    +:+ " accepts " +:+ str_join ", " accepted)
  end.

Definition criterion_loc (rule_loc : string) (criterion_idx : nat) : string :=
  rule_loc +:+ ".criteria[" +:+ show_nat criterion_idx +:+ "]".

Definition validate_criterion_keys (loc : string) (criterion_idx : nat) (v : TomlValue)
  : result PolicyError unit :=
  match as_inline_table v with
  | None => Ok tt
  | Some criterion =>
      match (kind ← v ← inline_get criterion "kind"; as_str v;
             keys ← criterion_keys kind; Some (kind, keys)) with
      | None => Ok tt
      | Some (kind, keys) =>
          reject_unknown_keys (TlInline criterion) keys (Some (criterion_loc loc criterion_idx))
            ("a `" +:+ kind +:+ "` criterion")
      end
  end.

Definition validate_rule_keys (rule : TableLike) (idx : nat) : result PolicyError unit :=
  let loc := "rule[" +:+ show_nat idx +:+ "]" in
  _ ← reject_unknown_keys rule RULE_KEYS (Some loc) "a rule";
  _ ← match (i ← tl_get rule "match"; as_table_like i) with
      | Some rule_match => reject_unknown_keys rule_match MATCH_KEYS (Some (loc +:+ ".match")) "match"
      | None => Ok tt
      end;
  match tl_get rule "criteria" with
  | Some (IValue (TArray _ criteria)) =>
      _ ← imapM_res (validate_criterion_keys loc) 0 criteria; Ok tt
  | _ => Ok tt
  end.

Definition validate_policy_keys (doc : Table) : result PolicyError unit :=
  _ ← reject_unknown_keys (TlTable doc) ROOT_KEYS None "the policy file";
  _ ← match table_get doc "signature" with
      | Some (ITable signature) =>
          reject_unknown_keys (TlTable signature) SIGNATURE_KEYS (Some "signature")
            "the signature table"
      | _ => Ok tt
      end;
  match table_get doc "rules" with
  | Some (IArrayOfTables rules) =>
      _ ← imapM_res (fun idx rule => validate_rule_keys (TlTable rule) idx) 0 rules; Ok tt
  | Some (IValue (TArray _ rules)) =>
      _ ← imapM_res (fun idx rule =>
            match as_inline_table rule with
            | Some rule => validate_rule_keys (TlInline rule) idx
            | None => Ok tt
            end) 0 rules; Ok tt
  | _ => Ok tt
  end.
End schema.

(** ** Home domains ([counterparty.rs]) *)

Definition MAX_HOME_DOMAIN_BYTES : Z := 255.
Definition MAX_HOME_DOMAIN_LABEL_BYTES : Z := 63.

Definition is_valid_ldh_home_domain (home_domain : string) : bool :=
  if is_empty home_domain
     || (MAX_HOME_DOMAIN_BYTES <? Z.of_nat (String.length home_domain))
     || negb (str_all (fun b => is_ascii_lower b || is_ascii_digit b
                               || bool_decide (b = "-"%char) || bool_decide (b = "."%char))
                home_domain)
     || (starts_with "." home_domain || starts_with "-" home_domain)
     || (ends_with "." home_domain || ends_with "-" home_domain)
  then false
  else forallb (fun label =>
         negb (is_empty label)
         && (Z.of_nat (String.length label) <=? MAX_HOME_DOMAIN_LABEL_BYTES)
         && negb (starts_with "-" label) && negb (ends_with "-" label)) (split "." home_domain).

(** ** Fields of a criterion *)

Definition require_str (table : InlineTable) (key loc : string) : result PolicyError string :=
  ok_or (PolicyFileParseFailed (loc +:+ ": missing or non-string required field `" +:+ key +:+ "`"))
    (v ← inline_get table key; as_str v).

Definition non_integer_field (key loc : string) : PolicyError :=
  PolicyFileParseFailed (loc +:+ ": missing or non-integer required field `" +:+ key +:+ "`").

Definition require_i64 (table : InlineTable) (key loc : string) : result PolicyError Z :=
  ok_or (non_integer_field key loc) (v ← inline_get table key; as_integer v).

Definition require_i128 (table : InlineTable) (key loc : string) : result PolicyError Z :=
  value ← ok_or (non_integer_field key loc) (inline_get table key);
  match as_integer value with
  | Some n => Ok n
  | None =>
      match as_str value with
      | Some s =>
          map_err (fun _ => PolicyFileParseFailed
                     (loc +:+ ": `" +:+ key +:+ "` value `" +:+ s +:+ "` is not a valid i128 decimal"))
            (parse_int i128 s)
      | None => Err (non_integer_field key loc)
      end
  end.

Definition require_bool (table : InlineTable) (key loc : string) : result PolicyError bool :=
  ok_or (PolicyFileParseFailed (loc +:+ ": missing or non-boolean required field `" +:+ key +:+ "`"))
    (v ← inline_get table key; as_bool v).

Definition optional_str (table : InlineTable) (key : string) : option string :=
  v ← inline_get table key; as_str v.

Definition require_array_of_str (table : InlineTable) (key loc : string)
  : result PolicyError (list string) :=
  arr ← ok_or (PolicyFileParseFailed
                 (loc +:+ ": missing or non-array required field `" +:+ key +:+ "`"))
          (v ← inline_get table key; as_array v);
  imapM_res (fun i v =>
    ok_or (PolicyFileParseFailed
             (loc +:+ ": `" +:+ key +:+ "[" +:+ show_nat i +:+ "]` must be a string"))
      (as_str v)) 0 arr.

(** The blocks several arms of [parse_criterion] repeat: a window, a
    non-negative [i128] amount, a [u32] count. *)
Definition require_window (table : InlineTable) (loc : string) : result PolicyError Window :=
  window_str ← require_str table "window" loc;
  map_err (fun _ => PolicyFileParseFailed
             (loc +:+ ": `window` value `" +:+ window_str
              +:+ "` is not accepted; valid values: 1m, 5m, 1h, 1d, 1w"))
    (Window_parse window_str).

Definition require_non_negative (table : InlineTable) (loc : string) : result PolicyError Z :=
  max_stroops ← require_i128 table "max_stroops" loc;
  if max_stroops <? 0
  then parse_failed (loc +:+ ": `max_stroops` must be non-negative, got " +:+ show_Z max_stroops)
  else Ok max_stroops.

Definition require_u32 (table : InlineTable) (key loc : string) : result PolicyError Z :=
  raw ← require_i64 table key loc;
  ok_or (PolicyFileParseFailed
           (loc +:+ ": `" +:+ key +:+ "` value " +:+ show_Z raw +:+ " is out of range for u32"))
    (checked u32 raw).

Definition unknown_criterion_kind (loc kind : string) : PolicyError :=
  PolicyFileParseFailed
    (loc +:+ ": unknown criterion kind `" +:+ kind +:+ "`; accepted kinds: "
     +:+ "per_tx_cap, approval_above, per_period_cap, rate_limit, counterparty_allowlist, "
     +:+ "minimum_reserve, inner_invocation_count_cap, "
     +:+ "bundle_aggregate_cap, restrict_bundle_to_recognised_kinds, "
     +:+ "bundle_per_period_cap, bundle_per_tx_cap, bundle_rate_limit, "
     +:+ "quorum_satisfied, home_domain_resolved, sep10_session_active, "
     +:+ "sep45_session_active").

(** The [counterparty_allowlist] arm: the kinds, then the home-domain check of
    every entry when one of the kinds is [HOME_DOMAIN]. *)
Definition parse_kinds (loc : string) (kinds_raw : list string)
  : result PolicyError (list CounterpartyKind) :=
  mapM_res (fun s =>
    map_err (fun _ => PolicyFileParseFailed
               (loc +:+ ": unknown counterparty kind `" +:+ s
                +:+ "`; accepted: G_ACCOUNT, C_ACCOUNT, KNOWN_ISSUER, "
                +:+ "SEP10_IDENTITY, HOME_DOMAIN, ONE_TIME_ADDRESS"))
      (CounterpartyKind_parse s)) kinds_raw.

Definition is_home_domain (k : CounterpartyKind) : bool :=
  match k with HomeDomain => true | _ => false end.

Definition check_home_domain_entry (loc : string) (i : nat) (entry : string)
  : result PolicyError unit :=
  if is_valid_ldh_home_domain entry then Ok tt
  else parse_failed
    (loc +:+ ": `allowlist[" +:+ show_nat i +:+ "]` is not a valid HOME_DOMAIN; "
     +:+ "entries must be lowercase RFC 1035 LDH "
     +:+ "(ASCII a-z, 0-9, hyphen, dot), 1..=255 bytes, "
     +:+ "each label 1..=63 bytes, contain no uppercase "
     +:+ "or non-ASCII bytes, and must not start or end "
     +:+ "with '-' or '.'").

Definition parse_allowlist (table : InlineTable) (loc : string)
  : result PolicyError CounterpartyAllowlistCriterion :=
  kinds_raw ← require_array_of_str table "kinds" loc;
  kinds ← parse_kinds loc kinds_raw;
  allowlist ← require_array_of_str table "allowlist" loc;
  _ ← (if existsb is_home_domain kinds
       then imapM_res (check_home_domain_entry loc) 0 allowlist else Ok []);
  gate_inflows ← match inline_get table "gate_inflows" with
                 | None => Ok false
                 | Some item => ok_or (PolicyFileParseFailed
                                         (loc +:+ ": `gate_inflows` must be a boolean"))
                                  (as_bool item)
                 end;
  Ok (with_gate_inflows (CounterpartyAllowlist_new kinds allowlist) gate_inflows).

(** ** Criteria *)

Definition parse_criterion_kind (kind : string) (table : InlineTable) (loc : string)
  : result PolicyError BoxCriterion :=
  if bool_decide (kind = "approval_above") then
    asset ← require_str table "asset" loc;
    max_stroops ← require_i128 table "max_stroops" loc;
    if max_stroops <=? 0
    then parse_failed (loc +:+ ": `approval_above` `max_stroops` must be positive, got "
                       +:+ show_Z max_stroops)
    else Ok (BoxApprovalAbove {| aa_asset := asset; aa_max_stroops := max_stroops |})
  else if bool_decide (kind = "per_tx_cap") then
    asset ← require_str table "asset" loc;
    max_stroops ← require_non_negative table loc;
    Ok (BoxPerTxCap {| ptc_asset := asset; ptc_max_stroops := max_stroops |})
  else if bool_decide (kind = "per_period_cap") then
    asset ← require_str table "asset" loc;
    window ← require_window table loc;
    max_stroops ← require_non_negative table loc;
    Ok (BoxPerPeriodCap {| ppc_asset := asset; ppc_window := window;
                           ppc_max_stroops := max_stroops |})
  else if bool_decide (kind = "rate_limit") then
    window ← require_window table loc;
    max_calls ← require_u32 table "max_calls" loc;
    Ok (BoxRateLimit {| rl_window := window; rl_max_calls := max_calls |})
  else if bool_decide (kind = "counterparty_allowlist") then
    c ← parse_allowlist table loc; Ok (BoxCounterpartyAllowlist c)
  else if bool_decide (kind = "minimum_reserve") then
    margin_stroops ← require_i64 table "margin_stroops" loc;
    if margin_stroops <? 0
    then parse_failed (loc +:+ ": `margin_stroops` must be non-negative, got "
                       +:+ show_Z margin_stroops)
    else Ok (BoxMinimumReserve {| mr_margin_stroops := margin_stroops |})
  else if bool_decide (kind = "inner_invocation_count_cap") then
    max_count ← require_u32 table "max_count" loc;
    Ok (BoxInnerInvocationCountCap {| iic_max_count := max_count |})
  else if bool_decide (kind = "bundle_aggregate_cap") then
    let asset := optional_str table "asset" in
    max_amount_str ← require_str table "max_amount" loc;
    max_amount ← map_err (fun _ => PolicyFileParseFailed
                            (loc +:+ ": `max_amount` value `" +:+ max_amount_str
                             +:+ "` is not a valid i128 decimal"))
                   (parse_int i128 max_amount_str);
    if max_amount <? 0
    then parse_failed (loc +:+ ": `max_amount` must be non-negative, got " +:+ show_Z max_amount)
    else Ok (BoxBundleAggregateCap {| bac_asset := asset; bac_max_amount := max_amount |})
  else if bool_decide (kind = "restrict_bundle_to_recognised_kinds") then
    enabled ← require_bool table "enabled" loc;
    Ok (BoxRestrictBundle {| rbk_enabled := enabled |})
  else if bool_decide (kind = "bundle_per_period_cap") then
    asset ← require_str table "asset" loc;
    window ← require_window table loc;
    max_stroops ← require_non_negative table loc;
    Ok (BoxBundlePerPeriodCap {| bpp_asset := asset; bpp_window := window;
                                 bpp_max_stroops := max_stroops |})
  else if bool_decide (kind = "bundle_per_tx_cap") then
    asset ← require_str table "asset" loc;
    max_stroops ← require_non_negative table loc;
    Ok (BoxBundlePerTxCap {| bpt_asset := asset; bpt_max_stroops := max_stroops |})
  else if bool_decide (kind = "bundle_rate_limit") then
    window ← require_window table loc;
    max_calls ← require_u32 table "max_calls" loc;
    Ok (BoxBundleRateLimit {| brl_window := window; brl_max_calls := max_calls |})
  else if bool_decide (kind = "quorum_satisfied") then Ok (BoxQuorumSatisfied QuorumSatisfied)
  else if bool_decide (kind = "home_domain_resolved") then
    Ok (BoxHomeDomainResolved HomeDomainResolved)
  else if bool_decide (kind = "sep10_session_active") then
    Ok (BoxSep10SessionActive Sep10SessionActive)
  else if bool_decide (kind = "sep45_session_active") then
    Ok (BoxSep45SessionActive Sep45SessionActive)
  else Err (unknown_criterion_kind loc kind).

Definition parse_criterion (item : Item) (rule_idx criterion_idx : nat)
  : result PolicyError BoxCriterion :=
  let loc := "rule[" +:+ show_nat rule_idx +:+ "].criteria[" +:+ show_nat criterion_idx +:+ "]" in
  match item with
  | IValue (TInlineTable table) =>
      kind ← ok_or (PolicyFileParseFailed (loc +:+ ": missing required `kind` field"))
               (v ← inline_get table "kind"; as_str v);
      match criterion_keys kind with
      | None => Err (unknown_criterion_kind loc kind)
      | Some _ => parse_criterion_kind kind table loc
      end
  | _ => parse_failed (loc +:+ ": each criterion must be an inline table `{ kind = "
                       +:+ double_quote +:+ "..." +:+ double_quote +:+ ", ... }`")
  end.

Definition parse_criteria (item : option Item) (rule_idx : nat)
  : result PolicyError (list BoxCriterion) :=
  match item with
  | None => Ok []
  | Some (IValue (TArray _ array)) =>
      imapM_res (fun criterion_idx elem => parse_criterion (IValue elem) rule_idx criterion_idx)
        0 array
  | Some _ => parse_failed ("rule[" +:+ show_nat rule_idx +:+ "] `criteria` must be an array")
  end.

(** ** Rules *)

Definition extract_str_field_from_item (item : Item) (key : string) (idx : nat)
  : result PolicyError string :=
  let missing := PolicyFileParseFailed
    ("rule[" +:+ show_nat idx +:+ "] `match." +:+ key +:+ "` must be a string") in
  match item with
  | IValue (TInlineTable t) => ok_or missing (v ← inline_get t key; as_str v)
  | ITable t => ok_or missing (v ← table_get t key; item_as_str v)
  | _ => parse_failed ("rule[" +:+ show_nat idx +:+ "] `match` must be an inline table")
  end.

Definition reject_empty_match_field (value key : string) (idx : nat) : result PolicyError unit :=
  if is_empty value
  then parse_failed ("rule[" +:+ show_nat idx +:+ "] `match." +:+ key +:+ "` must not be empty")
  else Ok tt.

Definition parse_rule_match (item : Item) (idx : nat) : result PolicyError RuleMatch :=
  tool ← extract_str_field_from_item item "tool" idx;
  chain ← extract_str_field_from_item item "chain" idx;
  _ ← reject_empty_match_field tool "tool" idx;
  _ ← reject_empty_match_field chain "chain" idx;
  Ok {| rm_tool := tool; rm_chain := chain |}.

Definition MAX_APPROVAL_TTL_SECONDS : Z := 604800.
Definition MAX_APPROVAL_REASON_CHARS : Z := 512.

Definition parse_optional_reason (table : Table) (idx : nat) : result PolicyError (option string) :=
  match table_get table "reason" with
  | None => Ok None
  | Some v =>
      reason ← ok_or (PolicyFileParseFailed
                        ("rule[" +:+ show_nat idx +:+ "] `reason` must be a string"))
                 (item_as_str v);
      if MAX_APPROVAL_REASON_CHARS <? chars_count reason
      then parse_failed ("rule[" +:+ show_nat idx +:+ "] `reason` must contain at most "
                         +:+ show_Z MAX_APPROVAL_REASON_CHARS +:+ " characters")
      else Ok (Some reason)
  end.

Definition parse_optional_ttl_secs (table : Table) (idx : nat) : result PolicyError (option Z) :=
  match table_get table "ttl_secs" with
  | None => Ok None
  | Some v =>
      raw ← ok_or (PolicyFileParseFailed
                     ("rule[" +:+ show_nat idx +:+ "] `ttl_secs` must be an integer between 1 and "
                      +:+ show_Z MAX_APPROVAL_TTL_SECONDS))
              (item_as_integer v);
      match checked u32 raw with
      | Some ttl =>
          if (1 <=? ttl) && (ttl <=? MAX_APPROVAL_TTL_SECONDS) then Ok (Some ttl)
          else parse_failed ("rule[" +:+ show_nat idx +:+ "] `ttl_secs` must be between 1 and "
                             +:+ show_Z MAX_APPROVAL_TTL_SECONDS)
      | None => parse_failed ("rule[" +:+ show_nat idx +:+ "] `ttl_secs` must be between 1 and "
                              +:+ show_Z MAX_APPROVAL_TTL_SECONDS)
      end
  end.

Definition reject_approval_fields_for_non_approval_decision (idx : nat) (reason : option string)
    (ttl_secs : option Z) : result PolicyError unit :=
  if bool_decide (is_Some reason) || bool_decide (is_Some ttl_secs)
  then parse_failed ("rule[" +:+ show_nat idx +:+ "] `reason` / `ttl_secs` are only valid for "
                     +:+ "`decision = " +:+ double_quote +:+ "require_approval" +:+ double_quote
                     +:+ "`")
  else Ok tt.

Definition parse_decision (s : string) (idx : nat) (reason : option string) (ttl_secs : option Z)
  : result PolicyError Decision :=
  if bool_decide (s = "allow") then
    _ ← reject_approval_fields_for_non_approval_decision idx reason ttl_secs; Ok Allow
  else if bool_decide (s = "deny") then
    _ ← reject_approval_fields_for_non_approval_decision idx reason ttl_secs;
    Ok (Deny ExplicitRuleDeny)
  else if bool_decide (s = "require_approval") then
    let req := ApprovalRequest_new EmptyString (default DEFAULT_APPROVAL_TTL_SECONDS ttl_secs) in
    Ok (RequireApproval (match reason with Some r => with_reason req r | None => req end))
  else parse_failed ("rule[" +:+ show_nat idx +:+ "] `decision` has unknown value `" +:+ s
                     +:+ "`; expected `allow`, `deny`, or `require_approval`").

(** The inner loop over the caps of the rule, for one approval threshold. *)
Fixpoint check_threshold (loc : string) (threshold : ApprovalAboveCriterion)
    (criteria : list BoxCriterion) : result PolicyError unit :=
  match criteria with
  | [] => Ok tt
  | BoxPerTxCap cap :: criteria' =>
      if bool_decide (asset_normalise (aa_asset threshold) = asset_normalise (ptc_asset cap))
         && (ptc_max_stroops cap <=? aa_max_stroops threshold)
      then parse_failed (loc +:+ " threshold " +:+ show_Z (aa_max_stroops threshold)
                         +:+ " must be less than `per_tx_cap` bound "
                         +:+ show_Z (ptc_max_stroops cap))
      else check_threshold loc threshold criteria'
  | _ :: criteria' => check_threshold loc threshold criteria'
  end.

Definition validate_approval_above (criteria : list BoxCriterion) (rule_idx : nat)
    (decision : Decision) : result PolicyError unit :=
  _ ← imapM_res (fun criterion_idx c =>
        match c with
        | BoxApprovalAbove threshold =>
            let loc := "rule[" +:+ show_nat rule_idx +:+ "].criteria[" +:+ show_nat criterion_idx
                       +:+ "]: `approval_above`" in
            match decision with
            | Allow => check_threshold loc threshold criteria
            | _ => parse_failed (loc +:+ " requires decision = " +:+ double_quote +:+ "allow"
                                 +:+ double_quote)
            end
        | _ => Ok tt
        end) 0 criteria;
  Ok tt.

Definition parse_allow_opaque_signing (table : Table) (idx : nat) : result PolicyError bool :=
  match table_get table "allow_opaque_signing" with
  | None => Ok false
  | Some item =>
      ok_or (PolicyFileParseFailed
               ("rule[" +:+ show_nat idx +:+ "] `allow_opaque_signing` must be a boolean"))
        (item_as_bool item)
  end.

Definition parse_rule (table : Table) (idx : nat) : result PolicyError Rule :=
  match_item ← ok_or (PolicyFileParseFailed
                        ("rule[" +:+ show_nat idx +:+ "] missing required `match` key"))
                 (table_get table "match");
  rule_match ← parse_rule_match match_item idx;
  criteria ← parse_criteria (table_get table "criteria") idx;
  decision_str ← ok_or (PolicyFileParseFailed
                          ("rule[" +:+ show_nat idx +:+ "] `decision` must be a string"))
                   (v ← table_get table "decision"; item_as_str v);
  reason ← parse_optional_reason table idx;
  ttl_secs ← parse_optional_ttl_secs table idx;
  decision ← parse_decision decision_str idx reason ttl_secs;
  _ ← validate_approval_above criteria idx decision;
  allow_opaque_signing ← parse_allow_opaque_signing table idx;
  Ok {| pr_match := rule_match; pr_criteria := criteria; pr_decision := decision;
        pr_allow_opaque_signing := allow_opaque_signing |}.

Definition extract_rules (doc : Table) : result PolicyError (list Rule) :=
  match table_get doc "rules" with
  | None => Ok []
  | Some (IArrayOfTables aot) => imapM_res (fun i table => parse_rule table i) 0 aot
  | Some _ => parse_failed "`rules` must be an array of tables (`[[rules]]`)"
  end.

(** ** Version and scope *)

Definition MIN_POLICY_VERSION : Z := 1.
Definition MAX_POLICY_VERSION : Z := 1.

Definition extract_version (doc : Table) : result PolicyError Z :=
  v ← ok_or (PolicyFileParseFailed "`version` must be a positive integer")
        (i ← table_get doc "version"; item_as_integer i);
  version ← ok_or (PolicyFileParseFailed
                     ("`version` value " +:+ show_Z v +:+ " is out of range for u32"))
              (checked u32 v);
  if version <? MIN_POLICY_VERSION then
    parse_failed ("`version` " +:+ show_Z version +:+ " is below the minimum supported version "
                  +:+ show_Z MIN_POLICY_VERSION +:+ "; policy files older than version "
                  +:+ show_Z MIN_POLICY_VERSION +:+ " are not accepted (downgrade replay prevention)")
  else if MAX_POLICY_VERSION <? version then
    parse_failed ("`version` " +:+ show_Z version +:+ " is above the maximum supported version "
                  +:+ show_Z MAX_POLICY_VERSION +:+ "; upgrade the agent to a version that "
                  +:+ "supports policy schema v" +:+ show_Z version)
  else Ok version.

Definition parse_scope_string (s : string) : result PolicyError ScopeId :=
  let '(first, second) :=
    match split_once "," s with Some (l, r) => (l, Some r) | None => (s, None) end in
  let profile_part := trim first in
  let project_part := trim <$> second in
  profile_name ← ok_or (PolicyFileParseFailed
                          ("invalid scope format: `" +:+ s +:+ "`; expected `profile:<name>` or "
                           +:+ "`profile:<name>,project:<id>`"))
                   (strip_prefix "profile:" profile_part);
  if bool_decide (profile_name = "*") && bool_decide (project_part = None)
  then Ok ScopeAllProfiles
  else match project_part with
       | Some proj_str =>
           project_name ← ok_or (PolicyFileParseFailed
                                   ("invalid scope project segment: `" +:+ proj_str
                                    +:+ "`; expected `project:<id>`"))
                            (strip_prefix "project:" proj_str);
           Ok (ScopeProfileProject profile_name project_name)
       | None => Ok (ScopeProfile profile_name)
       end.

Definition extract_scope (doc : Table) : result PolicyError ScopeId :=
  s ← ok_or (PolicyFileParseFailed "`scope` must be a string")
        (i ← table_get doc "scope"; item_as_str i);
  parse_scope_string s.

Definition reject_scope_profile_mismatch (scope : ScopeId) (profile_name : string)
  : result PolicyError unit :=
  let matches_profile :=
    match scope with
    | ScopeAllProfiles => true
    | ScopeProfile profile => bool_decide (profile = profile_name)
    | ScopeProfileProject profile _ => bool_decide (profile = profile_name)
    end in
  if negb matches_profile
  then parse_failed ("policy scope does not match profile `" +:+ profile_name +:+ "`")
  else Ok tt.

(** ** The document *)

Record PolicyBody := {
  body_version : Z;
  body_scope : ScopeId;
  body_rules : list Rule;
}.

Definition parse_policy_body (doc : Table) (profile_name : string)
  : result PolicyError PolicyBody :=
  version ← extract_version doc;
  scope ← extract_scope doc;
  _ ← reject_scope_profile_mismatch scope profile_name;
  rules ← extract_rules doc;
  Ok {| body_version := version; body_scope := scope; body_rules := rules |}.

(** [OPTIONAL_RULE_KEYS.iter().any(|key| rule.contains_key(key))] *)
Definition carries_optional (rule : TableLike) : bool :=
  existsb (fun key => bool_decide (is_Some (tl_get rule key))) OPTIONAL_RULE_KEYS.

Definition indices_of {A} (f : A -> bool) (l : list A) : list nat :=
  fst <$> List.filter (fun e => f (snd e)) (imap (fun i a => (i, a)) l).

Definition rules_with_signed_optional_keys (doc : Table) : list nat :=
  match table_get doc "rules" with
  | Some (IArrayOfTables rules) => indices_of (fun r => carries_optional (TlTable r)) rules
  | Some (IValue (TArray _ rules)) =>
      indices_of (fun r => match as_inline_table r with
                           | Some r => carries_optional (TlInline r) | None => false end) rules
  | _ => []
  end.

Definition extract_signature_fields (item : Item) : result PolicyError (string * string) :=
  match item with
  | ITable table =>
      owner ← ok_or (PolicyFileParseFailed "`[signature].owner_id` must be a string")
                (v ← table_get table "owner_id"; item_as_str v);
      sig ← ok_or (PolicyFileParseFailed "`[signature].sig` must be a string")
              (v ← table_get table "sig"; item_as_str v);
      Ok (owner, sig)
  | _ => parse_failed "`[signature]` must be a TOML table"
  end.

(** What ends a load early: an error value, or a panic of the slice
    [s[i..i + 2]] when [i + 2] is inside a character. *)
Inductive LoadStop :=
| Failed (e : PolicyError)
| Panicked.

Definition failing {A} (m : result PolicyError A) : result LoadStop A := map_err Failed m.

(** The digit pairs in order: the first bad pair decides. *)
Fixpoint hex_pairs (s : string) : result LoadStop (option (list Z)) :=
  match s with
  | String a (String b rest) =>
      if match rest with String c _ => is_continuation c | EmptyString => false end
      then Err Panicked
      else match u8_from_hex (String a (String b EmptyString)) with
           | None => Ok None
           | Some z => zs ← hex_pairs rest; Ok (option_map (cons z) zs)
           end
  | _ => Ok (Some [])
  end.

Definition hex_to_bytes (s : string) : result LoadStop (option (list Z)) :=
  if Nat.odd (String.length s) then Ok None else hex_pairs s.

Definition decode_hex_sig (hex profile_name : string) : result LoadStop (list Z) :=
  bytes ← hex_to_bytes hex;
  bytes ← ok_or (Failed (OwnerSignatureInvalid profile_name [])) bytes;
  if (length bytes =? 64)%nat then Ok bytes
  else Err (Failed (OwnerSignatureInvalid profile_name [])).

Section load.
Context `{!TomlCrate, !PolicyCrypto, !EscapeDebug}.

(** [signature.rs] *)
Definition digest (canonical_bytes : string) : list Z := blake3_hash canonical_bytes.

Definition verify (digest signature owner_pubkey : list Z) (profile : string)
  : result PolicyError unit :=
  if negb (verifying_key_ok owner_pubkey) then Err (OwnerSignatureInvalid profile [])
  else if verify_strict owner_pubkey digest signature then Ok tt
  else Err (OwnerSignatureInvalid profile []).

(** [file] is the content of the policy file, or the base name of its path with
    the error of reading it. *)
Definition load_signed_policy (file : result (string * string) string) (profile_name : string)
    (owner_pubkey : list Z) : result LoadStop (PolicyDocument BoxCriterion) :=
  raw ← map_err (fun '(basename, e) => Failed (PolicyFileLoadFailed (basename +:+ ": " +:+ e))) file;
  canon ← failing (canonical_bytes raw);
  let d := digest canon in
  doc ← failing (map_err PolicyFileParseFailed (toml_parse raw));
  sig_item ← failing (ok_or (PolicyFileParseFailed
                 ("policy file has no `[signature]` table; sign it with "
                  +:+ "`stellar-agent profile sign-policy --profile " +:+ profile_name +:+ "`"))
               (table_get doc "signature"));
  '(owner_id, sig_hex) ← failing (extract_signature_fields sig_item);
  _ ← failing (validate_policy_keys doc);
  sig_bytes ← decode_hex_sig sig_hex profile_name;
  _ ← failing (map_err (fun err =>
        match err with
        | OwnerSignatureInvalid profile _ =>
            OwnerSignatureInvalid profile (rules_with_signed_optional_keys doc)
        | other => other
        end) (verify d sig_bytes owner_pubkey profile_name));
  body ← failing (parse_policy_body doc profile_name);
  Ok {| doc_version := body_version body; doc_scope := body_scope body;
        doc_rules := body_rules body;
        doc_signature := Some {| owner_id := owner_id; sig := sig_hex |} |}.

(** [doc.remove("signature")] *)
Definition table_remove (k : string) (t : Table) : Table :=
  MkMap (map_decor t) (List.filter (fun e => negb (bool_decide (fst e = k))) (entries t)).

Definition validate_unsigned_policy (raw profile_name : string) : result PolicyError unit :=
  _ ← canonical_bytes raw;
  doc ← map_err PolicyFileParseFailed (toml_parse raw);
  let doc := table_remove "signature" doc in
  _ ← validate_policy_keys doc;
  _ ← parse_policy_body doc profile_name;
  Ok tt.
End load.
