(* ===== verification/CanonicalProps.v ===== *)
(** * What the owner signature covers

    The canonical document reads back as the same policy: every value the rule
    parsers look at is the same in the document of the file and in the document
    that is rendered, hashed and signed. *)

From S2P Require Import Prelude RustStr Toml PolicyTypes Value Criteria Allowlist Engine Canonical Loader.
From stdpp Require Import options.
Set Default Proof Using "Type*".

Local Open Scope string_scope.
Local Open Scope list_scope.
Local Open Scope Z_scope.

#[local] Abbreviation InlineTable := (MapOf TomlValue).
#[local] Abbreviation Table := (MapOf Item).

(** ** Copies of maps *)

Lemma map_collect_NoDup {A} (l : list (string * A)) :
  NoDup (map fst l) -> entries (map_collect l) = l.
Proof.
  unfold map_collect. assert (Hgen : forall acc : MapOf A,
    NoDup (map fst (entries acc ++ l)) ->
    entries (foldl (fun out e => map_insert (fst e) (snd e) out) acc l) = entries acc ++ l).
  { induction l as [|[k v] l IH]; intros acc; cbn [foldl]; [by rewrite app_nil_r|].
    rewrite map_app. cbn [map fst]. intros Hnd.
    assert (k ∉ map fst (entries acc)).
    { intros Hin. apply NoDup_app in Hnd as (_ & Hd & _). apply (Hd k Hin). apply list_elem_of_here. }
    rewrite IH; cbn [entries map_insert]; rewrite assoc_insert_fresh, <- app_assoc by done; [done|].
    cbn [app]. by rewrite map_app. }
  intros Hnd. apply (Hgen map_new). by cbn.
Qed.

Lemma map_fst_snd {A B} (f : A -> B) (l : list (string * A)) :
  map fst (map (fun e => (fst e, f (snd e))) l) = map fst l.
Proof. rewrite map_map. by apply map_ext. Qed.

Lemma strip_inline_get t k :
  value_wf (TInlineTable t) = true ->
  inline_get (map_clear_decor (map_collect
    (map (fun e => (fst e, strip_value_decor (snd e))) (entries t)))) k
  = strip_value_decor <$> inline_get t k.
Proof.
  cbn [value_wf]. intros [Hnd%bool_decide_eq_true_1 _]%andb_true_iff.
  unfold inline_get. cbn [entries map_clear_decor].
  rewrite map_collect_NoDup by by rewrite map_fst_snd. apply assoc_map.
Qed.

(** ** Scalars are copied *)

Lemma strip_as_str v : as_str (strip_value_decor v) = as_str v.
Proof. by destruct v. Qed.
Lemma strip_as_integer v : as_integer (strip_value_decor v) = as_integer v.
Proof. by destruct v. Qed.
Lemma strip_as_bool v : as_bool (strip_value_decor v) = as_bool v.
Proof. by destruct v. Qed.
Lemma strip_as_array v : as_array (strip_value_decor v) = map strip_value_decor <$> as_array v.
Proof. by destruct v. Qed.

(** ** A criterion reads the same from its copy *)

Section copied.
Context (t t' : InlineTable).
Context (Hget : forall k, inline_get t' k = strip_value_decor <$> inline_get t k).

Lemma copied_field {B} (f : TomlValue -> option B) k :
  (forall v, f (strip_value_decor v) = f v) ->
  (v ← inline_get t' k; f v) = (v ← inline_get t k; f v).
Proof. intros Hf. rewrite Hget. destruct (inline_get t k); [apply Hf|done]. Qed.

Lemma copied_str k loc : require_str t' k loc = require_str t k loc.
Proof. unfold require_str. by rewrite (copied_field as_str k strip_as_str). Qed.
Lemma copied_i64 k loc : require_i64 t' k loc = require_i64 t k loc.
Proof. unfold require_i64. by rewrite (copied_field as_integer k strip_as_integer). Qed.
Lemma copied_bool k loc : require_bool t' k loc = require_bool t k loc.
Proof. unfold require_bool. by rewrite (copied_field as_bool k strip_as_bool). Qed.
Lemma copied_i128 k loc : require_i128 t' k loc = require_i128 t k loc.
Proof. unfold require_i128. rewrite Hget. destruct (inline_get t k) as [[]|]; done. Qed.

Lemma imapM_res_map {E A B C} (f : nat -> B -> result E C) (g : A -> B) i l :
  imapM_res f i (map g l) = imapM_res (fun i x => f i (g x)) i l.
Proof. revert i. induction l as [|x l IH]; intros i; simpl; [done|]. by rewrite IH. Qed.

Lemma imapM_res_ext {E A B} (f g : nat -> A -> result E B) i l :
  (forall i x, x ∈ l -> f i x = g i x) -> imapM_res f i l = imapM_res g i l.
Proof.
  revert i. induction l as [|x l IH]; intros i Hfg; simpl; [done|].
  rewrite (Hfg i x) by apply list_elem_of_here. destruct (g i x); [|done]. cbn.
  rewrite IH; [done|]. intros. apply Hfg. by apply list_elem_of_further.
Qed.

Lemma copied_strs k loc : require_array_of_str t' k loc = require_array_of_str t k loc.
Proof.
  unfold require_array_of_str. rewrite Hget. destruct (inline_get t k) as [v|]; [|done].
  cbn [fmap option_fmap option_map mbind option_bind]. rewrite strip_as_array.
  destruct (as_array v) as [l|]; [|done]. cbn [fmap option_fmap option_map ok_or mbind result_bind].
  rewrite imapM_res_map. apply imapM_res_ext. intros i x _. by rewrite strip_as_str.
Qed.

Lemma copied_allowlist loc : parse_allowlist t' loc = parse_allowlist t loc.
Proof.
  unfold parse_allowlist. rewrite !copied_strs, Hget.
  destruct (inline_get t "gate_inflows"); [cbn; by rewrite strip_as_bool|done].
Qed.

Lemma copied_criterion kind loc : parse_criterion_kind kind t' loc = parse_criterion_kind kind t loc.
Proof.
  unfold parse_criterion_kind, require_window, require_non_negative, require_u32, optional_str.
  by rewrite !copied_str, !copied_i128, !copied_allowlist, !copied_i64, !copied_bool,
    (copied_field as_str _ strip_as_str).
Qed.
End copied.

Lemma strip_criterion v i j :
  value_wf v = true -> parse_criterion (IValue (strip_value_decor v)) i j = parse_criterion (IValue v) i j.
Proof.
  intros Hwf. destruct v as [| | | | | |t]; try done.
  pose proof (fun k => strip_inline_get t k Hwf) as Hget. cbn [parse_criterion strip_value_decor].
  rewrite (copied_field _ _ Hget as_str _ strip_as_str).
  destruct (_ ≫= as_str) as [kind|]; [|done]. cbn [ok_or mbind result_bind].
  destruct (criterion_keys kind); [|done]. by apply copied_criterion.
Qed.

Lemma strip_criteria v idx :
  value_wf v = true ->
  parse_criteria (Some (IValue (strip_value_decor v))) idx = parse_criteria (Some (IValue v)) idx.
Proof.
  intros Hwf. destruct v as [| | | | |d l|t]; try done. cbn [parse_criteria strip_value_decor].
  rewrite imapM_res_map. apply imapM_res_ext. intros i x Hx. apply strip_criterion.
  cbn [value_wf] in Hwf. rewrite forallb_forall in Hwf. apply Hwf. by apply list_elem_of_In.
Qed.

(** ** Items *)

Fixpoint canonical_entries (l : list (string * Item)) : result PolicyError (list (string * TomlValue)) :=
  match l with
  | [] => Ok []
  | (k, i) :: l' =>
      if is_item i
      then cv ← canonical_item_as_value i; es ← canonical_entries l'; Ok ((k, cv) :: es)
      else canonical_entries l'
  end.

Lemma canonical_item_table t :
  canonical_item_as_value (ITable t) =
    (es ← canonical_entries (entries t); Ok (TInlineTable (map_clear_decor (map_collect es)))).
Proof. reflexivity. Qed.

(** What a table shows under a key, and its copy. *)
Definition copied_item (o : option Item) (o' : option TomlValue) : Prop :=
  match o with
  | Some i => exists v, canonical_item_as_value i = Ok v /\ o' = Some v
  | None => o' = None
  end.

Definition visible (o : option Item) : option Item :=
  match o with Some INone => None | o => o end.

Lemma table_get_visible t k : table_get t k = visible (assoc k (entries t)).
Proof. unfold table_get. by destruct (assoc k (entries t)) as [[]|]. Qed.

Lemma canonical_entries_Ok l es :
  canonical_entries l = Ok es -> NoDup (map fst l) ->
  NoDup (map fst es) /\ (forall k, k ∈ map fst es -> k ∈ map fst l) /\
  forall k, copied_item (visible (assoc k l)) (assoc k es).
Proof.
  revert es. induction l as [|[k i] l IH]; intros es; cbn [canonical_entries map fst].
  - intros [= <-] _. split_and!; [constructor|done|done].
  - intros Hes [Hk Hnd]%NoDup_cons. destruct (is_item i) eqn:Hi.
    + apply res_bind_Ok in Hes as (cv & Hcv & (es' & Hes' & [= <-])%res_bind_Ok).
      destruct (IH _ Hes' Hnd) as (Hnd' & Hsub & Hget). cbn [map fst]. split_and!.
      * constructor; [|done]. intros ?%Hsub. done.
      * intros k'. rewrite !elem_of_cons. naive_solver.
      * intros k'. cbn [assoc]. destruct (bool_decide_reflect (k = k')) as [<-|]; [|apply Hget].
        destruct i; [done|..]; exists cv; done.
    + destruct (IH _ Hes Hnd) as (Hnd' & Hsub & Hget). split_and!; [done| |].
      * intros k' ?%Hsub. by apply list_elem_of_further.
      * intros k'. cbn [assoc]. destruct (bool_decide_reflect (k = k')) as [<-|]; [|apply Hget].
        specialize (Hget k). destruct i; try done. cbn.
        destruct (assoc k es) eqn:E; [|done]. apply assoc_elem in E. exfalso. apply Hk, Hsub.
        apply list_elem_of_fmap. by eexists (_, _).
Qed.

Lemma canonical_item_scalars i v :
  canonical_item_as_value i = Ok v ->
  as_str v = item_as_str i /\ as_integer v = item_as_integer i /\ as_bool v = item_as_bool i.
Proof.
  destruct i as [|w|t|ts]; try done.
  - cbn. intros [= <-]. by rewrite strip_as_str, strip_as_integer, strip_as_bool.
  - rewrite canonical_item_table. by intros (es & _ & [= <-])%res_bind_Ok.
Qed.

Lemma canonical_match i v key idx :
  canonical_item_as_value i = Ok v -> item_wf i = true ->
  extract_str_field_from_item (IValue v) key idx = extract_str_field_from_item i key idx.
Proof.
  destruct i as [|w|t|ts]; try done.
  - cbn. intros [= <-] Hwf. destruct w as [| | | | | |t]; try done. cbn [strip_value_decor].
    by rewrite (copied_field _ _ (fun k => strip_inline_get t k Hwf) as_str _ strip_as_str).
  - rewrite canonical_item_table. intros (es & Hes & [= <-])%res_bind_Ok.
    cbn [item_wf]. intros [Hnd%bool_decide_eq_true_1 _]%andb_true_iff.
    destruct (canonical_entries_Ok _ _ Hes Hnd) as (Hnd' & _ & Hget).
    cbn [extract_str_field_from_item]. unfold inline_get. cbn [entries map_clear_decor].
    rewrite map_collect_NoDup by done. specialize (Hget key). rewrite table_get_visible.
    destruct (visible (assoc key (entries t))) as [i|]; cbn in Hget; [|by rewrite Hget].
    destruct Hget as (v & Hv & ->). apply canonical_item_scalars in Hv as (Hs & _). cbn. by rewrite Hs.
Qed.

(** ** Rules *)

Lemma insert_required_Ok {A} (get : string -> option A) conv keys out out' :
  insert_required get conv keys out = Ok out' -> NoDup keys ->
  (forall k, k ∈ keys -> exists i v, get k = Some i /\ conv i = Ok v /\
     assoc k (entries out') = Some (IValue v)) /\
  (forall k, k ∉ keys -> assoc k (entries out') = assoc k (entries out)).
Proof.
  revert out. induction keys as [|k keys IH]; intros out; cbn [insert_required].
  - intros [= <-] _. split; [by intros ? ?%elem_of_nil|done].
  - intros (i & Hi%ok_or_Ok & (v & Hv & Hrest)%res_bind_Ok)%res_bind_Ok [Hk Hnd]%NoDup_cons.
    destruct (IH _ Hrest Hnd) as [Hin Hout]. split.
    + intros k' [->|Hk']%elem_of_cons; [|by apply Hin]. exists i, v. split_and!; [done|done|].
      rewrite Hout by done. apply assoc_insert_get.
    + intros k' [Hne Hk']%not_elem_of_cons. rewrite Hout by done. by apply assoc_insert_get_ne.
Qed.

Lemma insert_optional_Ok {A} (get : string -> option A) conv keys out out' :
  insert_optional get conv keys out = Ok out' -> NoDup keys ->
  (forall k, k ∈ keys -> match get k with
     | Some i => exists v, conv i = Ok v /\ assoc k (entries out') = Some (IValue v)
     | None => assoc k (entries out') = assoc k (entries out)
     end) /\
  (forall k, k ∉ keys -> assoc k (entries out') = assoc k (entries out)).
Proof.
  revert out. induction keys as [|k keys IH]; intros out; cbn [insert_optional].
  - intros [= <-] _. split; [by intros ? ?%elem_of_nil|done].
  - intros Hrest [Hk Hnd]%NoDup_cons. destruct (get k) as [i|] eqn:Hg.
    + apply res_bind_Ok in Hrest as (v & Hv & Hrest). destruct (IH _ Hrest Hnd) as [Hin Hout].
      split.
      * intros k' [->|Hk']%elem_of_cons.
        { rewrite Hg. exists v. split; [done|]. rewrite Hout by done. apply assoc_insert_get. }
        specialize (Hin k' Hk'). destruct (get k'); [done|]. rewrite Hin.
        apply assoc_insert_get_ne. by intros ->.
      * intros k' [Hne Hk']%not_elem_of_cons. rewrite Hout by done. by apply assoc_insert_get_ne.
    + destruct (IH _ Hrest Hnd) as [Hin Hout]. split.
      * intros k' [->|Hk']%elem_of_cons; [rewrite Hg; by apply Hout|by apply Hin].
      * intros k' [Hne Hk']%not_elem_of_cons. by apply Hout.
Qed.

(** Under every key of a rule the canonical rule holds the copy of what the
    rule shows; the required keys are there. *)
Lemma canonical_rule_get src out :
  canonical_rule_table src = Ok out ->
  (forall k, k ∈ REQUIRED_RULE_KEYS -> is_Some (table_get src k)) /\
  forall k, k ∈ RULE_KEYS -> match table_get src k with
    | Some i => exists v, canonical_item_as_value i = Ok v /\ table_get out k = Some (IValue v)
    | None => table_get out k = None
    end.
Proof.
  unfold canonical_rule_table. intros (o1 & H1 & (o2 & H2 & [= <-])%res_bind_Ok)%res_bind_Ok.
  apply insert_required_Ok in H1 as [Hr Ho1]; [|apply (bool_decide_unpack _); by vm_compute].
  apply insert_optional_Ok in H2 as [Hp Ho2]; [|apply (bool_decide_unpack _); by vm_compute].
  split. { intros k (i & v & Hi & _)%Hr. by eexists. }
  intros k Hk. change RULE_KEYS with (REQUIRED_RULE_KEYS ++ OPTIONAL_RULE_KEYS) in Hk.
  unfold table_get at 2 3. cbn [map_clear_decor entries].
  apply elem_of_app in Hk as [Hk|Hk].
  - destruct (Hr k Hk) as (i & v & -> & Hv & Ha). rewrite Ho2, Ha; [by exists v|].
    clear -Hk. set_unfold. naive_solver.
  - specialize (Hp k Hk). destruct (table_get src k) as [i|].
    + destruct Hp as (v & Hv & ->). by exists v.
    + rewrite Hp, Ho1; [done|]. clear -Hk. set_unfold. naive_solver.
Qed.

Lemma table_get_wf t k i : table_wf t = true -> table_get t k = Some i -> item_wf i = true.
Proof.
  unfold table_wf. cbn [item_wf]. intros [_ Hall]%andb_true_iff.
  rewrite table_get_visible. destruct (assoc k (entries t)) as [j|] eqn:E; [|done].
  apply assoc_elem, list_elem_of_In in E. rewrite forallb_forall in Hall. apply Hall in E.
  destruct j; naive_solver.
Qed.

Ltac scalar_field H k :=
  let i := fresh "i" in let v := fresh "v" in let Hc := fresh "Hc" in let Hg := fresh "Hg" in
  pose proof (H k ltac:(by set_unfold; auto 10)) as Hg;
  destruct (table_get _ k) as [i|]; [destruct Hg as (v & Hc & ->)|rewrite Hg; try done].

Lemma canonical_reason src out idx :
  canonical_rule_table src = Ok out ->
  parse_optional_reason out idx = parse_optional_reason src idx.
Proof.
  intros [_ H]%canonical_rule_get. unfold parse_optional_reason. scalar_field H "reason".
  apply canonical_item_scalars in Hc as (Hs & _). cbn [item_as_str as_value mbind option_bind].
  by rewrite Hs.
Qed.

Lemma canonical_ttl src out idx :
  canonical_rule_table src = Ok out ->
  parse_optional_ttl_secs out idx = parse_optional_ttl_secs src idx.
Proof.
  intros [_ H]%canonical_rule_get. unfold parse_optional_ttl_secs. scalar_field H "ttl_secs".
  apply canonical_item_scalars in Hc as (_ & Hs & _).
  cbn [item_as_integer as_value mbind option_bind]. by rewrite Hs.
Qed.

(** The criteria and the match table of a rule, read from its canonical form. *)
Lemma canonical_criteria src out idx :
  canonical_rule_table src = Ok out -> table_wf src = true ->
  parse_criteria (table_get out "criteria") idx = parse_criteria (table_get src "criteria") idx.
Proof.
  intros [Hreq H]%canonical_rule_get Hwf.
  destruct (Hreq "criteria" ltac:(set_unfold; auto)) as [i Hi].
  specialize (H "criteria" ltac:(set_unfold; auto 10)). rewrite Hi in H.
  destruct H as (v & Hc & ->). rewrite Hi. apply table_get_wf in Hi; [|done].
  destruct i as [|w|t|ts]; try done.
  - injection Hc as <-. by apply strip_criteria.
  - rewrite canonical_item_table in Hc. by apply res_bind_Ok in Hc as (es & _ & [= <-]).
Qed.

Lemma canonical_rule_match i v idx :
  canonical_item_as_value i = Ok v -> item_wf i = true ->
  parse_rule_match (IValue v) idx = parse_rule_match i idx.
Proof. intros Hc Hwf. unfold parse_rule_match. by rewrite !(canonical_match i v). Qed.

Lemma canonical_opaque src out idx :
  canonical_rule_table src = Ok out ->
  parse_allow_opaque_signing out idx = parse_allow_opaque_signing src idx.
Proof.
  intros [_ H]%canonical_rule_get. unfold parse_allow_opaque_signing.
  scalar_field H "allow_opaque_signing".
  apply canonical_item_scalars in Hc as (_ & _ & Hs).
  cbn [item_as_bool as_value mbind option_bind]. by rewrite Hs.
Qed.

Lemma canonical_decision src out :
  canonical_rule_table src = Ok out ->
  (v ← table_get out "decision"; item_as_str v) = (v ← table_get src "decision"; item_as_str v).
Proof.
  intros [_ H]%canonical_rule_get. scalar_field H "decision".
  by apply canonical_item_scalars in Hc as (Hs & _).
Qed.

Lemma canonical_rule src out idx :
  canonical_rule_table src = Ok out -> table_wf src = true ->
  parse_rule out idx = parse_rule src idx.
Proof.
  intros Hcan Hwf. unfold parse_rule.
  rewrite (canonical_criteria src), (canonical_reason src), (canonical_ttl src),
    (canonical_opaque src), (canonical_decision src) by done.
  apply canonical_rule_get in Hcan as [Hreq H].
  destruct (Hreq "match" ltac:(set_unfold; auto)) as [mi Hmi].
  specialize (H "match" ltac:(set_unfold; auto 10)). rewrite Hmi in H.
  destruct H as (mv & Hmc & ->). rewrite Hmi. cbn [ok_or mbind result_bind].
  by rewrite (canonical_rule_match mi mv) by eauto using table_get_wf.
Qed.

(** ** Documents *)

Lemma canonical_scalar_Ok i v :
  canonical_scalar i = Ok v ->
  as_integer v = item_as_integer i /\ as_str v = item_as_str i.
Proof.
  destruct i; try done. cbn. intros [= <-]. by rewrite strip_as_integer, strip_as_str.
Qed.

Lemma canonical_rules ts ts' i :
  mapM_res canonical_rule_table ts = Ok ts' -> Forall (fun t => table_wf t = true) ts ->
  imapM_res (fun i table => parse_rule table i) i ts' = imapM_res (fun i table => parse_rule table i) i ts.
Proof.
  rewrite mapM_res_Ok. intros Hts Hwf. revert i.
  induction Hts as [|t t' ts ts' Ht Hts IH]; intros i; [done|].
  apply Forall_cons in Hwf as [Hwt Hwf]. cbn [imapM_res].
  by rewrite (canonical_rule t t'), IH.
Qed.

(** The canonical document parses to the body of the document. *)
Lemma canonical_body doc canon profile body :
  canonical_document doc = Ok canon -> table_wf doc = true ->
  parse_policy_body doc profile = Ok body -> parse_policy_body canon profile = Ok body.
Proof.
  intros Hcan Hwf Hbody. unfold canonical_document in Hcan.
  apply res_bind_Ok in Hcan as (vi & Hvi%ok_or_Ok & (vv & Hvv & Hcan)%res_bind_Ok).
  cbv zeta in Hcan.
  apply res_bind_Ok in Hcan as (si & Hsi%ok_or_Ok & (sv & Hsv & Hcan)%res_bind_Ok).
  apply canonical_scalar_Ok in Hvv as [Hvv _], Hsv as [_ Hsv].
  assert (Hhead : forall o rest, canon = MkMap o (("version", IValue vv) :: ("scope", IValue sv) :: rest) ->
    extract_rules canon = extract_rules doc -> parse_policy_body canon profile = Ok body).
  { intros o rest -> Hrules. rewrite <- Hbody. unfold parse_policy_body. rewrite Hrules.
    unfold extract_version, extract_scope. rewrite Hvi, Hsi.
    change (table_get _ "version") with (Some (IValue vv)).
    change (table_get _ "scope") with (Some (IValue sv)). cbn [mbind option_bind].
    change (item_as_integer (IValue vv)) with (as_integer vv).
    change (item_as_str (IValue sv)) with (as_str sv). by rewrite Hvv, Hsv. }
  unfold parse_policy_body in Hbody.
  apply res_bind_Ok in Hbody as (ver & _ & (sc & _ & (u & _ & (rules & Hrules & _)%res_bind_Ok)
    %res_bind_Ok)%res_bind_Ok).
  unfold extract_rules in Hrules. destruct (table_get doc "rules") as [ri|] eqn:Hri; cbv zeta in Hcan.
  - destruct ri as [|w|t|ts]; [done..|].
    apply res_bind_Ok in Hcan as (ts' & Hts & [= <-]). eapply Hhead; [done|].
    unfold extract_rules. rewrite Hri. cbn. apply (canonical_rules ts ts' 0 Hts).
    apply table_get_wf in Hri; [|done]. cbn [item_wf] in Hri. rewrite forallb_forall in Hri.
    apply Forall_forall. intros t Ht. apply Hri. by apply list_elem_of_In.
  - injection Hcan as <-. eapply Hhead; [done|]. unfold extract_rules. by rewrite Hri.
Qed.

(** ** Formatting *)

(** A value, item or table without its formatting. *)
Fixpoint erase_value (v : TomlValue) : TomlValue :=
  match v with
  | TString f => TString (plain_format f)
  | TInteger f => TInteger (plain_format f)
  | TFloat f => TFloat (plain_format f)
  | TBoolean f => TBoolean (plain_format f)
  | TDatetime f => TDatetime (plain_format f)
  | TArray _ l => TArray EmptyString (map erase_value l)
  | TInlineTable t =>
      TInlineTable (MkMap EmptyString (map (fun e => (fst e, erase_value (snd e))) (entries t)))
  end.

Fixpoint erase_item (i : Item) : Item :=
  match i with
  | INone => INone
  | IValue v => IValue (erase_value v)
  | ITable t => ITable (MkMap EmptyString (map (fun e => (fst e, erase_item (snd e))) (entries t)))
  | IArrayOfTables ts =>
      IArrayOfTables (map (fun t =>
        MkMap EmptyString (map (fun e => (fst e, erase_item (snd e))) (entries t))) ts)
  end.

Definition erase_inline (t : InlineTable) : InlineTable :=
  MkMap EmptyString (map (fun e => (fst e, erase_value (snd e))) (entries t)).
Definition erase_table (t : Table) : Table :=
  MkMap EmptyString (map (fun e => (fst e, erase_item (snd e))) (entries t)).

Lemma strip_erase v : strip_value_decor (erase_value v) = strip_value_decor v.
Proof.
  induction v as [| | | | |d l IH|t IH] using TomlValue_nested_ind; try done.
  - cbn. f_equal. rewrite map_map. apply map_ext_Forall, IH.
  - cbn. do 3 f_equal. rewrite map_map. apply map_ext_Forall.
    eapply Forall_impl; [apply IH|]. cbn. by intros [k v] ->.
Qed.

Lemma canonical_entries_erase l :
  Forall (fun e => canonical_item_as_value (erase_item (snd e)) = canonical_item_as_value (snd e)) l ->
  canonical_entries (map (fun e => (fst e, erase_item (snd e))) l) = canonical_entries l.
Proof.
  induction 1 as [|[k i] l Hi Hl IH]; [done|]. cbn [map fst snd canonical_entries] in *.
  rewrite IH, Hi. by destruct i.
Qed.

Lemma canonical_item_erase i : canonical_item_as_value (erase_item i) = canonical_item_as_value i.
Proof.
  revert i. fix IH 1. intros [|v|[d l]|ts]; [done|cbn; by rewrite strip_erase| |done].
  rewrite canonical_item_table. cbn [erase_item entries]. rewrite canonical_item_table. cbn [entries].
  rewrite canonical_entries_erase; [done|].
  induction l as [|[k i] l IHl]; constructor; [apply IH|apply IHl].
Qed.

Lemma table_get_erase t k : table_get (erase_table t) k = erase_item <$> table_get t k.
Proof.
  rewrite !table_get_visible. cbn [entries erase_table]. rewrite assoc_map.
  by destruct (assoc k (entries t)) as [[]|].
Qed.

Lemma insert_required_copy {A} (get get' : string -> option A) conv (g : A -> A) keys out :
  (forall k, get' k = g <$> get k) -> (forall i, conv (g i) = conv i) ->
  insert_required get' conv keys out = insert_required get conv keys out.
Proof.
  intros Hg Hc. revert out. induction keys as [|k keys IH]; intros out; [done|]. cbn.
  rewrite Hg. destruct (get k); [|done]. cbn. rewrite Hc. by destruct (conv _); cbn.
Qed.

Lemma insert_optional_copy {A} (get get' : string -> option A) conv (g : A -> A) keys out :
  (forall k, get' k = g <$> get k) -> (forall i, conv (g i) = conv i) ->
  insert_optional get' conv keys out = insert_optional get conv keys out.
Proof.
  intros Hg Hc. revert out. induction keys as [|k keys IH]; intros out; [done|]. cbn.
  rewrite Hg. destruct (get k); [|by cbn]. cbn. rewrite Hc. by destruct (conv _); cbn.
Qed.

Lemma canonical_rule_erase t : canonical_rule_table (erase_table t) = canonical_rule_table t.
Proof.
  unfold canonical_rule_table.
  rewrite (insert_required_copy (table_get t) _ _ erase_item)
    by auto using table_get_erase, canonical_item_erase.
  destruct (insert_required _ _ _ _); [|done]. cbn [mbind result_bind].
  by rewrite (insert_optional_copy (table_get t) _ _ erase_item)
    by auto using table_get_erase, canonical_item_erase.
Qed.

Lemma canonical_inline_erase t : canonical_inline_rule (erase_inline t) = canonical_inline_rule t.
Proof.
  unfold canonical_inline_rule. f_equal. generalize (map_new (A := TomlValue)).
  induction (REQUIRED_RULE_KEYS ++ OPTIONAL_RULE_KEYS) as [|k ks IH]; intros out; [done|].
  cbn [foldl]. unfold inline_get at 2 4. cbn [erase_inline entries]. rewrite assoc_map.
  destruct (assoc k (entries t)); cbn; [rewrite strip_erase|]; apply IH.
Qed.

Lemma mapM_res_map {E A B D} (f : B -> result E D) (g : A -> B) l :
  mapM_res f (map g l) = mapM_res (fun x => f (g x)) l.
Proof. induction l as [|x l IH]; simpl; [done|]. by rewrite IH. Qed.

Lemma mapM_res_ext {E A B} (f g : A -> result E B) l :
  (forall x, f x = g x) -> mapM_res f l = mapM_res g l.
Proof. intros Hfg. induction l as [|x l IH]; simpl; [done|]. by rewrite Hfg, IH. Qed.

Lemma canonical_scalar_erase i : canonical_scalar (erase_item i) = canonical_scalar i.
Proof. destruct i; try done. cbn. by rewrite strip_erase. Qed.

Lemma canonical_document_erase doc : canonical_document (erase_table doc) = canonical_document doc.
Proof.
  unfold canonical_document. rewrite !table_get_erase.
  destruct (table_get doc "version") as [vi|]; [|done]. cbn [fmap option_fmap option_map ok_or].
  cbn [mbind result_bind]. rewrite canonical_scalar_erase.
  destruct (canonical_scalar vi) as [vv|]; [|done].
  destruct (table_get doc "scope") as [si|]; [|done]. cbn [fmap option_fmap option_map ok_or].
  cbn [mbind result_bind]. rewrite canonical_scalar_erase.
  destruct (canonical_scalar si) as [sv|]; [|done].
  change (?m ≫= ?f) with (match m with Ok a => f a | Err e => Err e end). cbv beta iota zeta.
  destruct (table_get doc "rules") as [[|[| | | | |d l|]|t|ts]|]; try done;
    cbn [fmap option_fmap option_map erase_item erase_value]; rewrite mapM_res_map; f_equal;
    apply mapM_res_ext; intros x.
  - destruct x as [| | | | | |t]; try done.
    change (erase_value (TInlineTable t)) with (TInlineTable (erase_inline t)).
    cbn [as_inline_table ok_or mbind result_bind]. unfold canonical_table_from_inline_rule.
    by rewrite canonical_inline_erase.
  - apply canonical_rule_erase.
Qed.
