(* ===== verification/LoaderProps.v ===== *)
(** * Theorems about loaded policies

    What holds of a document that [load_signed_policy] returns: it is the policy
    in the signed bytes, only schema keys were present, and its rules and
    criteria are inside the bounds the engine's theorems rely on. *)

From S2P Require Import Prelude RustStr Bytes Toml PolicyTypes Value Criteria Allowlist Engine Canonical Loader CanonicalProps.
From stdpp Require Import options.
Set Default Proof Using "Type*".

Local Open Scope string_scope.
Local Open Scope list_scope.
Local Open Scope Z_scope.

#[local] Abbreviation InlineTable := (MapOf TomlValue).
#[local] Abbreviation Table := (MapOf Item).
#[local] Abbreviation Rule := (PolicyRule BoxCriterion).

(** ** Bounds of a parsed criterion *)

Definition window_ok (w : Window) : Prop :=
  (secs w, label w) ∈ [(60, "1m"); (300, "5m"); (3600, "1h"); (86400, "1d"); (604800, "1w")].

Definition amount_ok (z : Z) : Prop := 0 <= z <= hi i128.

Definition criterion_ok (b : BoxCriterion) : Prop :=
  match b with
  | BoxPerTxCap c => amount_ok (ptc_max_stroops c)
  | BoxApprovalAbove c => 0 < aa_max_stroops c <= hi i128
  | BoxPerPeriodCap c => window_ok (ppc_window c) /\ amount_ok (ppc_max_stroops c)
  | BoxRateLimit c => window_ok (rl_window c) /\ in_range u32 (rl_max_calls c)
  | BoxCounterpartyAllowlist c =>
      HomeDomain ∈ ca_kinds c ->
      Forall (fun d => is_valid_ldh_home_domain d = true) (ca_allowlist c)
  | BoxMinimumReserve c => 0 <= mr_margin_stroops c <= hi i64
  | BoxInnerInvocationCountCap c => in_range u32 (iic_max_count c)
  | BoxBundleAggregateCap c => amount_ok (bac_max_amount c)
  | BoxBundlePerPeriodCap c => window_ok (bpp_window c) /\ amount_ok (bpp_max_stroops c)
  | BoxBundlePerTxCap c => amount_ok (bpt_max_stroops c)
  | BoxBundleRateLimit c => window_ok (brl_window c) /\ in_range u32 (brl_max_calls c)
  | _ => True
  end.

Lemma Window_parse_ok s w : Window_parse s = Ok w -> window_ok w.
Proof.
  unfold Window_parse, window_ok. repeat case_bool_decide; intros [= <-]; cbn; set_solver.
Qed.

Lemma require_window_ok t loc w : require_window t loc = Ok w -> window_ok w.
Proof.
  unfold require_window. intros (s & _ & Hw%map_err_Ok)%res_bind_Ok. by eapply Window_parse_ok.
Qed.

Lemma inline_get_wf t k v :
  value_wf (TInlineTable t) = true -> inline_get t k = Some v -> value_wf v = true.
Proof.
  cbn [value_wf]. intros [_ Hall]%andb_true_iff Hv%assoc_elem%list_elem_of_In.
  rewrite forallb_forall in Hall. by apply Hall in Hv.
Qed.

Lemma require_i64_range t k loc z :
  value_wf (TInlineTable t) = true -> require_i64 t k loc = Ok z -> in_range i64 z.
Proof.
  unfold require_i64. intros Hwf Hz%ok_or_Ok. destruct (inline_get t k) as [v|] eqn:Hv; [|done].
  apply inline_get_wf in Hv; [|done]. destruct v; try done. cbn in Hz, Hv. simplify_eq.
  by apply in_rangeb_spec.
Qed.

Lemma require_i128_range t k loc z :
  value_wf (TInlineTable t) = true -> require_i128 t k loc = Ok z -> in_range i128 z.
Proof.
  unfold require_i128. intros Hwf (v & Hv%ok_or_Ok & Hz)%res_bind_Ok.
  apply inline_get_wf in Hv; [|done]. destruct v; try done; cbn in Hz, Hv.
  - apply map_err_Ok, parse_int_in_range in Hz; [done|]. by vm_compute.
  - simplify_eq. apply in_rangeb_spec in Hv. unfold in_range in *. cbn in *. lia.
Qed.

Lemma require_non_negative_ok t loc z :
  value_wf (TInlineTable t) = true -> require_non_negative t loc = Ok z -> amount_ok z.
Proof.
  unfold require_non_negative. intros Hwf (x & Hx%require_i128_range & Hz)%res_bind_Ok; [|done].
  destruct (Z.ltb_spec x 0); [done|]. simplify_eq. unfold amount_ok. split; [done|apply Hx].
Qed.

Lemma require_u32_ok t k loc z : require_u32 t k loc = Ok z -> in_range u32 z.
Proof.
  unfold require_u32. by intros (x & _ & [-> ?]%ok_or_Ok%checked_Some)%res_bind_Ok.
Qed.

Lemma imapM_res_Forall {E A B} (f : nat -> A -> result E B) (P : B -> Prop) i l ys :
  (forall i x y, x ∈ l -> f i x = Ok y -> P y) -> imapM_res f i l = Ok ys -> Forall P ys.
Proof.
  intros Hf H. apply imapM_res_lookup in H as [Hlen H]. apply Forall_lookup. intros k y Hy.
  destruct (lookup_lt_is_Some_2 l k) as [x Hx].
  { rewrite <- Hlen. by eapply lookup_lt_Some. }
  destruct (H _ _ Hx) as (y' & Hy' & Hfx). simplify_eq. eapply Hf; [|done].
  by eapply list_elem_of_lookup_2.
Qed.

Lemma imapM_res_units {E A B} (f : nat -> A -> result E B) (P : A -> Prop) i l :
  (forall i x, is_ok (f i x) = true <-> P x) ->
  is_ok (imapM_res f i l) = true <-> Forall P l.
Proof.
  intros Hf. revert i. induction l as [|x l IH]; intros i; cbn [imapM_res]; [by rewrite Forall_nil|].
  rewrite Forall_cons, <- (Hf i x), <- (IH (S i)).
  destruct (f i x); cbn; [|naive_solver]. destruct (imapM_res f (S i) l); naive_solver.
Qed.

Lemma parse_allowlist_ok t loc c :
  parse_allowlist t loc = Ok c -> criterion_ok (BoxCounterpartyAllowlist c).
Proof.
  unfold parse_allowlist.
  intros (kr & _ & (kinds & _ & (al & _ & (u & Hd & (g & _ & [= <-])%res_bind_Ok)%res_bind_Ok)
    %res_bind_Ok)%res_bind_Ok)%res_bind_Ok. cbn. intros Hin.
  assert (existsb is_home_domain kinds = true) as Hex.
  { apply existsb_exists. exists HomeDomain. split; [|done]. by apply list_elem_of_In. }
  rewrite Hex in Hd.
  apply (imapM_res_units (check_home_domain_entry loc)
           (fun d => is_valid_ldh_home_domain d = true) 0); [|by rewrite Hd].
  intros i x. unfold check_home_domain_entry. by destruct (is_valid_ldh_home_domain x).
Qed.

(** The steps of a parser that returned, with the bounds of what it read. *)
Ltac parsed :=
  repeat match goal with
  | H : (_ ≫= _) = Ok _ |- _ => apply res_bind_Ok in H as (? & ? & H)
  | H : Ok _ = Ok _ |- _ => injection H as <-
  | H : parse_failed _ = Ok _ |- _ => done
  | H : Err _ = Ok _ |- _ => done
  | H : (if ?b then _ else _) = Ok _ |- _ => destruct b eqn:?
  | H : require_window _ _ = Ok _ |- _ => apply require_window_ok in H
  | H : require_non_negative _ _ = Ok _ |- _ => apply require_non_negative_ok in H; [|done]
  | H : require_u32 _ _ _ = Ok _ |- _ => apply require_u32_ok in H
  | H : require_i128 _ _ _ = Ok _ |- _ => apply require_i128_range in H; [|done]
  | H : require_i64 _ _ _ = Ok _ |- _ => apply require_i64_range in H; [|done]
  | H : parse_allowlist _ _ = Ok _ |- _ => apply parse_allowlist_ok in H
  | H : map_err _ _ = Ok _ |- _ => apply map_err_Ok in H
  | H : parse_int i128 _ = Ok _ |- _ => apply parse_int_in_range in H; [|by vm_compute]
  | H : (_ <? _) = false |- _ => apply Z.ltb_ge in H
  | H : (_ <=? _) = false |- _ => apply Z.leb_gt in H
  end.

Lemma parse_criterion_kind_ok kind t loc b :
  value_wf (TInlineTable t) = true -> parse_criterion_kind kind t loc = Ok b -> criterion_ok b.
Proof.
  intros Hwf H. unfold parse_criterion_kind in H. cbv zeta in H.
  parsed; cbn -[hi] in *; unfold amount_ok, in_range in *; try done; lia.
Qed.

Lemma parse_criteria_ok item idx cs :
  match item with Some i => item_wf i = true | None => True end ->
  parse_criteria item idx = Ok cs -> Forall criterion_ok cs.
Proof.
  destruct item as [[|v|t|ts]|]; try done; [|intros _ [= <-]; constructor].
  destruct v as [| | | | |d l|]; try done. cbn [parse_criteria item_wf value_wf].
  intros Hwf. apply imapM_res_Forall. intros i x y Hx. rewrite forallb_forall in Hwf.
  apply list_elem_of_In, Hwf in Hx. unfold parse_criterion.
  destruct x as [| | | | | |t]; try done. intros (kind & _ & H)%res_bind_Ok.
  destruct (criterion_keys kind); [|done]. by eapply parse_criterion_kind_ok.
Qed.

(** ** Bounds of a parsed rule *)

Definition decision_ok (d : Decision) : Prop :=
  match d with
  | Allow => True
  | Deny r => r = ExplicitRuleDeny
  | RequireApproval req =>
      nonce req = EmptyString /\ approval_url req = None /\
      1 <= ttl_seconds req <= MAX_APPROVAL_TTL_SECONDS /\
      match reason req with Some r => chars_count r <= MAX_APPROVAL_REASON_CHARS | None => True end
  end.

Definition rule_ok (r : Rule) : Prop :=
  rm_tool (pr_match r) ≠ EmptyString /\ rm_chain (pr_match r) ≠ EmptyString /\
  Forall criterion_ok (pr_criteria r) /\ decision_ok (pr_decision r) /\
  forall threshold, BoxApprovalAbove threshold ∈ pr_criteria r ->
    pr_decision r = Allow /\
    forall cap, BoxPerTxCap cap ∈ pr_criteria r ->
      asset_normalise (aa_asset threshold) = asset_normalise (ptc_asset cap) ->
      aa_max_stroops threshold < ptc_max_stroops cap.

Lemma parse_reason_ok t idx r :
  parse_optional_reason t idx = Ok r ->
  match r with Some r => chars_count r <= MAX_APPROVAL_REASON_CHARS | None => True end.
Proof.
  unfold parse_optional_reason. destruct (table_get t "reason"); [|by intros [= <-]].
  intros (s & _ & H)%res_bind_Ok. destruct (Z.ltb_spec MAX_APPROVAL_REASON_CHARS (chars_count s));
    [done|]. by injection H as <-.
Qed.

Lemma parse_ttl_ok t idx o :
  parse_optional_ttl_secs t idx = Ok o ->
  match o with Some z => 1 <= z <= MAX_APPROVAL_TTL_SECONDS | None => True end.
Proof.
  unfold parse_optional_ttl_secs. destruct (table_get t "ttl_secs"); [|by intros [= <-]].
  intros (s & _ & H)%res_bind_Ok. destruct (checked u32 s) as [z|]; [|done].
  destruct (_ && _) eqn:E; [|done]. injection H as <-.
  by apply andb_true_iff in E as [?%Z.leb_le ?%Z.leb_le].
Qed.

Lemma parse_decision_ok s idx r o d :
  match r with Some r => chars_count r <= MAX_APPROVAL_REASON_CHARS | None => True end ->
  match o with Some z => 1 <= z <= MAX_APPROVAL_TTL_SECONDS | None => True end ->
  parse_decision s idx r o = Ok d -> decision_ok d.
Proof.
  intros Hr Ho H. unfold parse_decision in H. cbv zeta in H. parsed; try done.
  assert (1 <= default DEFAULT_APPROVAL_TTL_SECONDS o <= MAX_APPROVAL_TTL_SECONDS).
  { destruct o; [done|]. by vm_compute. }
  by destruct r.
Qed.

Lemma check_threshold_ok loc th cs :
  check_threshold loc th cs = Ok tt ->
  forall cap, BoxPerTxCap cap ∈ cs ->
    asset_normalise (aa_asset th) = asset_normalise (ptc_asset cap) ->
    aa_max_stroops th < ptc_max_stroops cap.
Proof.
  induction cs as [|b cs IH]; [by intros _ ? ?%elem_of_nil|]. intros H cap Hcap Ha.
  apply elem_of_cons in Hcap as [<-|Hcap].
  - cbn in H. rewrite bool_decide_true in H by done. cbn in H.
    by destruct (Z.leb_spec (ptc_max_stroops cap) (aa_max_stroops th)).
  - destruct b; cbn in H; [destruct (_ && _); [done|]|..]; by apply IH.
Qed.

Lemma validate_approval_above_ok cs idx d th :
  validate_approval_above cs idx d = Ok tt -> BoxApprovalAbove th ∈ cs ->
  d = Allow /\ exists loc, check_threshold loc th cs = Ok tt.
Proof.
  unfold validate_approval_above. intros (ys & Hys & _)%res_bind_Ok [k Hk]%list_elem_of_lookup.
  apply imapM_res_lookup in Hys as [_ Hys]. destruct (Hys _ _ Hk) as ([] & _ & Hf).
  destruct d; try done. split; [done|]. by eexists.
Qed.

Lemma parse_rule_ok t idx r : table_wf t = true -> parse_rule t idx = Ok r -> rule_ok r.
Proof.
  intros Hwf H. unfold parse_rule in H.
  apply res_bind_Ok in H as (mi & _ & (m & Hm & (cs & Hcs & (ds & _ & H)%res_bind_Ok)
    %res_bind_Ok)%res_bind_Ok).
  apply res_bind_Ok in H as (r0 & Hr%parse_reason_ok & (o & Ho%parse_ttl_ok & (d & Hd & H)
    %res_bind_Ok)%res_bind_Ok).
  apply res_bind_Ok in H as ([] & Hv & (a & _ & [= <-])%res_bind_Ok).
  unfold rule_ok. cbn [pr_match pr_criteria pr_decision]. unfold parse_rule_match in Hm.
  apply res_bind_Ok in Hm as (tl & _ & (ch & _ & (u & Ht & (u' & Hc & [= <-])%res_bind_Ok)
    %res_bind_Ok)%res_bind_Ok). cbn.
  unfold reject_empty_match_field in Ht, Hc. split_and!.
  - by destruct tl.
  - by destruct ch.
  - eapply parse_criteria_ok; [|done]. destruct (table_get t "criteria") eqn:E; [|done].
    by eapply table_get_wf.
  - by eapply parse_decision_ok.
  - intros th Hth. destruct (validate_approval_above_ok _ _ _ _ Hv Hth) as [-> [loc Hloc]].
    split; [done|]. intros cap. by eapply check_threshold_ok.
Qed.

(** ** Bounds of a parsed document *)

Definition scope_names_profile (s : ScopeId) (profile : string) : Prop :=
  match s with
  | ScopeAllProfiles => True
  | ScopeProfile p => p = profile
  | ScopeProfileProject p _ => p = profile
  end.

Lemma parse_policy_body_ok doc profile body :
  table_wf doc = true -> parse_policy_body doc profile = Ok body ->
  body_version body = 1 /\ scope_names_profile (body_scope body) profile /\
  Forall rule_ok (body_rules body).
Proof.
  intros Hwf H. unfold parse_policy_body in H.
  apply res_bind_Ok in H as (v & Hv & (s & _ & (u & Hs & (rs & Hrs & [= <-])%res_bind_Ok)
    %res_bind_Ok)%res_bind_Ok). cbn. split_and!.
  - unfold extract_version in Hv. parsed. unfold MIN_POLICY_VERSION, MAX_POLICY_VERSION in *. lia.
  - unfold reject_scope_profile_mismatch in Hs. destruct s; cbn in *; [..|done];
      by case_bool_decide.
  - unfold extract_rules in Hrs. destruct (table_get doc "rules") as [[|v'|t|ts]|] eqn:E; try done.
    + eapply imapM_res_Forall; [|done]. cbn. intros i t r Ht. apply parse_rule_ok.
      apply table_get_wf in E; [|done]. cbn [item_wf] in E. rewrite forallb_forall in E.
      apply E. by apply list_elem_of_In.
    + injection Hrs as <-. constructor.
Qed.

(** ** The key schema *)

Definition keys_in (t : TableLike) (accepted : list string) : Prop :=
  Forall (fun k => k ∈ accepted) (tl_keys t).

Definition criterion_keys_ok (v : TomlValue) : Prop :=
  forall t kind keys, v = TInlineTable t ->
    (v ← inline_get t "kind"; as_str v) = Some kind -> criterion_keys kind = Some keys ->
    keys_in (TlInline t) keys.

Definition rule_keys_ok (r : TableLike) : Prop :=
  keys_in r RULE_KEYS /\
  (forall m, (i ← tl_get r "match"; as_table_like i) = Some m -> keys_in m MATCH_KEYS) /\
  (forall d l, tl_get r "criteria" = Some (IValue (TArray d l)) -> Forall criterion_keys_ok l).

Definition policy_keys_ok (doc : Table) : Prop :=
  keys_in (TlTable doc) ROOT_KEYS /\
  (forall t, table_get doc "signature" = Some (ITable t) -> keys_in (TlTable t) SIGNATURE_KEYS) /\
  (forall ts, table_get doc "rules" = Some (IArrayOfTables ts) ->
     Forall (fun t => rule_keys_ok (TlTable t)) ts) /\
  (forall d l, table_get doc "rules" = Some (IValue (TArray d l)) ->
     Forall (fun v => forall t, v = TInlineTable t -> rule_keys_ok (TlInline t)) l).

Section schema.
Context `{!EscapeDebug}.

Lemma reject_unknown_keys_ok t acc loc owner :
  is_ok (reject_unknown_keys t acc loc owner) = true <-> keys_in t acc.
Proof.
  unfold reject_unknown_keys, keys_in. destruct (List.find _ _) as [k|] eqn:E.
  - split; [done|]. apply find_some in E as [Hin Hk]. intros Hall. rewrite Forall_forall in Hall.
    apply list_elem_of_In, Hall in Hin. by rewrite bool_decide_true in Hk.
  - split; [|done]. intros _. apply Forall_forall. intros k Hk%list_elem_of_In.
    pose proof (find_none _ _ E _ Hk) as Hn. apply negb_false_iff in Hn.
    by apply bool_decide_eq_true_1 in Hn.
Qed.

(** Sequencing, and a loop whose results are dropped. *)
Lemma is_ok_bind {E A B} (m : result E A) (k : result E B) :
  is_ok (_ ← m; k) = true <-> is_ok m = true /\ is_ok k = true.
Proof. destruct m; cbn; naive_solver. Qed.

(** A place that is not there, and a place that is one thing. *)
Ltac no_such := by (split; [intros _; intros; simplify_eq|]).
Ltac only_one := split; [intros; simplify_eq; naive_solver|naive_solver].

Lemma validate_criterion_keys_ok loc i v :
  is_ok (validate_criterion_keys loc i v) = true <-> criterion_keys_ok v.
Proof.
  unfold validate_criterion_keys, criterion_keys_ok. destruct v as [| | | | | |t]; try no_such.
  cbn [as_inline_table]. destruct (v ← inline_get t "kind"; as_str v) as [kind|] eqn:Hk;
    cbn [mbind option_bind]; [|no_such].
  destruct (criterion_keys kind) as [keys|] eqn:Hc; cbn [mbind option_bind]; [|no_such].
  rewrite reject_unknown_keys_ok. only_one.
Qed.

Lemma validate_rule_keys_ok r i : is_ok (validate_rule_keys r i) = true <-> rule_keys_ok r.
Proof.
  unfold validate_rule_keys, rule_keys_ok. cbv zeta.
  rewrite is_ok_bind, reject_unknown_keys_ok, is_ok_bind. f_equiv. f_equiv.
  - destruct (i0 ← tl_get r "match"; as_table_like i0); [|no_such].
    rewrite reject_unknown_keys_ok. only_one.
  - destruct (tl_get r "criteria") as [[|[| | | | |d l|]| |]|]; try no_such.
    rewrite is_ok_bind, imapM_res_units by apply validate_criterion_keys_ok. only_one.
Qed.

(** The schema check accepts a document exactly when every key of the file,
    of the signature table, of every rule, of its match table and of every
    criterion of a known kind is one of the accepted keys of that place. *)
Theorem policy_keys_exact doc :
  validate_policy_keys doc = Ok tt <-> policy_keys_ok doc.
Proof.
  assert (validate_policy_keys doc = Ok tt <-> is_ok (validate_policy_keys doc) = true) as ->
    by (destruct (validate_policy_keys doc) as [[]|]; naive_solver).
  unfold validate_policy_keys, policy_keys_ok.
  rewrite is_ok_bind, reject_unknown_keys_ok, is_ok_bind. f_equiv. f_equiv.
  - destruct (table_get doc "signature") as [[| |t|]|]; try no_such.
    rewrite reject_unknown_keys_ok. only_one.
  - destruct (table_get doc "rules") as [[|[| | | | |d l|]| |ts]|]; try no_such.
    + rewrite is_ok_bind, (imapM_res_units _
        (fun v => forall t, v = TInlineTable t -> rule_keys_ok (TlInline t))); [naive_solver|].
      intros i v. destruct v; try no_such. cbn [as_inline_table].
      rewrite validate_rule_keys_ok. only_one.
    + rewrite is_ok_bind, (imapM_res_units _ (fun t => rule_keys_ok (TlTable t))); [naive_solver|].
      intros i t. apply validate_rule_keys_ok.
Qed.
End schema.

(** ** Signature text *)

Lemma u8_from_hex_byte b : in_range u8 b -> u8_from_hex (hex_byte b) = Some b.
Proof.
  intros Hb. destruct (byte_nibbles b Hb) as [H1 H2].
  destruct (nibble_char_digit _ H1) as (_ & D1 & Hp & _), (nibble_char_digit _ H2) as (_ & D2 & _).
  unfold hex_byte, u8_from_hex. rewrite bool_decide_false by done. cbn [radix16_loop].
  rewrite D1. cbn [mbind option_bind]. unfold in_range in Hb. change (lo u8) with 0 in *.
  change (hi u8) with 255 in *.
  rewrite checked_in_range by (unfold in_range; change (hi u8) with 255; change (lo u8) with 0; lia).
  cbn [mbind option_bind]. rewrite D2. cbn [mbind option_bind].
  assert ((0 * 16 + b / 16) * 16 + b mod 16 = b) as ->.
  { pose proof (Z.div_mod b 16). lia. }
  by rewrite checked_in_range.
Qed.

Lemma encode_head bs :
  Forall (in_range u8) bs ->
  match encode bs with String c _ => is_continuation c | EmptyString => false end = false.
Proof.
  intros Hbs. destruct Hbs as [|b bs' Hb _]; [done|]. rewrite encode_cons. cbn.
  destruct (byte_nibbles b Hb) as [H1 _], (nibble_char_digit _ H1) as (_ & _ & _ & Hlt).
  unfold is_continuation, byte_in. apply andb_false_iff. left. apply Z.leb_gt. lia.
Qed.

Lemma hex_pairs_encode bs : Forall (in_range u8) bs -> hex_pairs (encode bs) = Ok (Some bs).
Proof.
  induction 1 as [|b bs Hb Hbs IH]; [done|]. rewrite encode_cons.
  change (hex_byte b +:+ encode bs)
    with (String (nibble_char (b / 16)) (String (nibble_char (b mod 16)) (encode bs))).
  cbn [hex_pairs]. rewrite encode_head by done.
  change (String (nibble_char (b / 16)) (String (nibble_char (b mod 16)) EmptyString))
    with (hex_byte b).
  by rewrite u8_from_hex_byte, IH.
Qed.

Lemma hex_pairs_ascii s : str_all (fun a => byte_val a <? 128) s = true -> is_ok (hex_pairs s) = true.
Proof.
  revert s. fix IH 1. intros [|a [|b rest]]; [done|done|]. cbn [str_all hex_pairs].
  intros [_ [_ Hr]%andb_true_iff]%andb_true_iff.
  assert (match rest with String c _ => is_continuation c | EmptyString => false end = false) as ->.
  { destruct rest as [|c rest]; [done|]. cbn in Hr. apply andb_true_iff in Hr as [Hc%Z.ltb_lt _].
    unfold is_continuation, byte_in. apply andb_false_iff. left. by apply Z.leb_gt. }
  destruct (u8_from_hex _); [|done]. specialize (IH rest Hr). by destruct (hex_pairs rest).
Qed.

(** A signature survives its text form, and decoding it never stops the
    process when the text is ASCII; a text whose second byte pair starts inside
    a character does stop it, since the decoder slices the string by bytes. *)
Theorem signature_text sig profile :
  (length sig = 64%nat -> Forall (in_range u8) sig ->
   decode_hex_sig (encode sig) profile = Ok sig) /\
  (forall s, str_all (fun a => byte_val a <? 128) s = true ->
   decode_hex_sig s profile ≠ Err Panicked) /\
  decode_hex_sig (String "a" (String "195" (String "169" (String "a" EmptyString)))) profile
    = Err Panicked.
Proof.
  split_and!; [| |done].
  - intros Hlen Hsig. unfold decode_hex_sig, hex_to_bytes.
    rewrite encode_length, Hlen. cbn [Nat.mul Nat.add Nat.odd Nat.even negb].
    rewrite hex_pairs_encode by done. cbn. by rewrite Hlen.
  - intros s Hs. unfold decode_hex_sig, hex_to_bytes. apply hex_pairs_ascii in Hs.
    destruct (Nat.odd _); [done|]. destruct (hex_pairs s) as [[bs|]|]; [|done..].
    cbn. by destruct (_ =? _)%nat.
Qed.

(** ** Loading *)

Section load.
Context `{TC : !TomlCrate, TL : !TomlCrateLaws, PC : !PolicyCrypto, ED : !EscapeDebug}.

Lemma load_Ok file profile pk d :
  load_signed_policy file profile pk = Ok d ->
  exists raw doc canon s bytes body,
    file = Ok raw /\ toml_parse raw = Ok doc /\ table_wf doc = true /\
    canonical_document doc = Ok canon /\ validate_policy_keys doc = Ok tt /\
    doc_signature d = Some s /\ decode_hex_sig (sig s) profile = Ok bytes /\
    verifying_key_ok pk = true /\
    verify_strict pk (blake3_hash (normalise_whitespace (toml_render canon))) bytes = true /\
    parse_policy_body doc profile = Ok body /\
    doc_version d = body_version body /\ doc_scope d = body_scope body /\
    doc_rules d = body_rules body.
Proof.
  unfold load_signed_policy. intros H.
  apply res_bind_Ok in H as (raw & Hraw & H). apply map_err_Ok in Hraw.
  apply res_bind_Ok in H as (canon & Hcan & H). apply map_err_Ok in Hcan. cbv zeta in H.
  apply res_bind_Ok in H as (doc & Hdoc & H). apply map_err_Ok, map_err_Ok in Hdoc.
  apply res_bind_Ok in H as (si & _ & H).
  apply res_bind_Ok in H as ([ow hex] & _ & H). cbn beta iota in H.
  apply res_bind_Ok in H as ([] & Hkeys & H). apply map_err_Ok in Hkeys.
  apply res_bind_Ok in H as (bytes & Hbytes & H).
  apply res_bind_Ok in H as ([] & Hver & H). apply map_err_Ok, map_err_Ok in Hver.
  apply res_bind_Ok in H as (body & Hbody & [= <-]). apply map_err_Ok in Hbody.
  unfold canonical_bytes in Hcan. rewrite Hdoc in Hcan. cbn [map_err mbind result_bind] in Hcan.
  apply res_bind_Ok in Hcan as (cdoc & Hcdoc & [= <-]).
  unfold verify in Hver. destruct (verifying_key_ok pk) eqn:Hpk; [|done]. cbn [negb] in Hver.
  destruct (verify_strict _ _ _) eqn:Hvs; [|done].
  pose proof (toml_parse_wf _ _ Hdoc). repeat eexists; eauto.
Qed.

(** C4: the policy that is enforced is the policy that was signed.  When a file
    loads, the owner's key verifies the signature over the rendered canonical
    document, and that document, read on its own by the same parsers, is the
    version, the scope and the rules of the result: nothing of the file outside
    the signed bytes has an effect on the policy. *)
Theorem loaded_policy_is_signed file profile pk d :
  load_signed_policy file profile pk = Ok d ->
  exists raw doc canon s bytes body,
    file = Ok raw /\ toml_parse raw = Ok doc /\ canonical_document doc = Ok canon /\
    doc_signature d = Some s /\ decode_hex_sig (sig s) profile = Ok bytes /\
    verify_strict pk (blake3_hash (normalise_whitespace (toml_render canon))) bytes = true /\
    parse_policy_body canon profile = Ok body /\
    doc_version d = body_version body /\ doc_scope d = body_scope body /\
    doc_rules d = body_rules body.
Proof.
  intros (raw & doc & canon & s & bytes & body & H)%load_Ok.
  destruct H as (Hf & Hp & Hwf & Hc & _ & Hs & Hb & _ & Hv & Hbody & ? & ? & ?).
  exists raw, doc, canon, s, bytes, body. split_and!; try done. by eapply canonical_body.
Qed.

(** A loaded policy is inside the bounds its criteria rely on: version 1, a
    scope for the profile, rules with a non-empty match, amounts between 0 and
    [i128::MAX], one of the five windows, 32-bit counts, valid home domains, an
    approval time to live between one second and a week, and an approval
    threshold only under an allowing rule and below every cap on its asset. *)
Theorem loaded_policy_bounds file profile pk d :
  load_signed_policy file profile pk = Ok d ->
  doc_version d = 1 /\ scope_names_profile (doc_scope d) profile /\ Forall rule_ok (doc_rules d).
Proof.
  intros (raw & doc & canon & s & bytes & body & H)%load_Ok.
  destruct H as (_ & _ & Hwf & _ & _ & _ & _ & _ & _ & Hbody & -> & -> & ->).
  by eapply parse_policy_body_ok.
Qed.

(** The signed bytes do not depend on comments, whitespace or the spelling
    of values: documents with the same data have the same canonical bytes, or
    the same error. *)
Theorem formatting_not_signed doc1 doc2 :
  erase_table doc1 = erase_table doc2 ->
  build_canonical_document doc1 = build_canonical_document doc2.
Proof using TC.
  intros H. unfold build_canonical_document.
  by rewrite <- (canonical_document_erase doc1), H, canonical_document_erase.
Qed.
End load.

(** ** A policy file *)

Definition str_value (s : string) : TomlValue := TString (MkFormatted " # note" s).
Definition int_value (z : Z) : TomlValue := TInteger (MkFormatted EmptyString z).
Definition inline (l : list (string * TomlValue)) : TomlValue := TInlineTable (MkMap EmptyString l).

Definition demo_sig : list Z := replicate 64 7.

Definition demo_rule_table : Table := MkMap "# a rule"
  [ ("decision", IValue (str_value "allow"));
    ("match", IValue (inline [("chain", str_value "*"); ("tool", str_value "pay")]));
    ("criteria", IValue (TArray EmptyString
      [ inline [("kind", str_value "per_tx_cap"); ("asset", str_value "native");
                ("max_stroops", int_value 10)];
        inline [("kind", str_value "approval_above"); ("asset", str_value "XLM");
                ("max_stroops", str_value "5")] ])) ].

Definition demo_policy : Table := MkMap EmptyString
  [ ("scope", IValue (str_value "profile:alice"));
    ("version", IValue (int_value 1));
    ("signature", ITable (MkMap EmptyString
      [("owner_id", IValue (str_value "owner")); ("sig", IValue (str_value (encode demo_sig)))]));
    ("rules", IArrayOfTables [demo_rule_table]) ].

Definition demo_toml : TomlCrate := {|
  toml_parse s := if bool_decide (s = "demo") then Ok demo_policy else Err "syntax";
  toml_render _ := "rendered";
|}.

Definition demo_crypto : PolicyCrypto := {|
  blake3_hash s := [Z.of_nat (String.length s)];
  verifying_key_ok _ := true;
  verify_strict pk d s := bool_decide (pk = [1]) && bool_decide (d = [9]) && bool_decide (s = demo_sig);
|}.

Definition demo_escape : EscapeDebug := {| escape_debug s := s |}.

Lemma demo_toml_laws : @TomlCrateLaws demo_toml.
Proof.
  split. cbn. intros s t. destruct (bool_decide (s = "demo")); [|done].
  intros [= <-]. by vm_compute.
Qed.

(** What the demonstration file loads to. *)
Definition demo_loaded : PolicyDocument BoxCriterion := {|
  doc_version := 1;
  doc_scope := ScopeProfile "alice";
  doc_rules := [{| pr_match := {| rm_tool := "pay"; rm_chain := "*" |};
                   pr_criteria := [BoxPerTxCap {| ptc_asset := "native"; ptc_max_stroops := 10 |};
                                   BoxApprovalAbove {| aa_asset := "XLM"; aa_max_stroops := 5 |}];
                   pr_decision := Allow; pr_allow_opaque_signing := false |}];
  doc_signature := Some {| owner_id := "owner"; sig := encode demo_sig |};
|}.

#[local] Abbreviation demo_load :=
  (@load_signed_policy demo_toml demo_crypto demo_escape (Ok "demo") "alice" [1]).

Lemma loaded_policy_is_signed_witness :
  demo_load = Ok demo_loaded /\
  exists raw doc canon s bytes body,
    Ok (E := string * string) "demo" = Ok raw /\ @toml_parse demo_toml raw = Ok doc /\
    canonical_document doc = Ok canon /\
    doc_signature demo_loaded = Some s /\ decode_hex_sig (sig s) "alice" = Ok bytes /\
    @verify_strict demo_crypto [1]
      (@blake3_hash demo_crypto (normalise_whitespace (@toml_render demo_toml canon))) bytes = true /\
    parse_policy_body canon "alice" = Ok body /\
    doc_version demo_loaded = body_version body /\ doc_scope demo_loaded = body_scope body /\
    doc_rules demo_loaded = body_rules body.
Proof.
  split; [by vm_compute|].
  apply (@loaded_policy_is_signed demo_toml demo_toml_laws demo_crypto demo_escape). by vm_compute.
Defined.

Lemma loaded_policy_bounds_witness :
  doc_version demo_loaded = 1 /\ scope_names_profile (doc_scope demo_loaded) "alice" /\
  Forall rule_ok (doc_rules demo_loaded).
Proof.
  apply (@loaded_policy_bounds demo_toml demo_toml_laws demo_crypto demo_escape (Ok "demo") "alice" [1]).
  by vm_compute.
Defined.

Lemma formatting_not_signed_witness :
  @build_canonical_document demo_toml demo_policy =
    @build_canonical_document demo_toml (erase_table demo_policy).
Proof. apply (@formatting_not_signed demo_toml). by vm_compute. Defined.

(** ** Home domains *)

Definition label_byte (b : ascii) : bool :=
  is_ascii_lower b || is_ascii_digit b || bool_decide (b = "-"%char).

(** A label of a host name: 1 to 63 letters, digits and inner hyphens. *)
Definition ldh_label (l : string) : Prop :=
  (1 <= String.length l <= 63)%nat /\ str_all label_byte l = true /\
  starts_with "-" l = false /\ ends_with "-" l = false.

Lemma split_cons c a s :
  exists w ws, split c s = w :: ws /\
    split c (String a s) = if bool_decide (a = c) then EmptyString :: w :: ws else String a w :: ws.
Proof.
  assert (exists w ws, split c s = w :: ws) as (w & ws & E).
  { destruct s as [|b s]; cbn; [eauto|]. case_bool_decide; [eauto|]. destruct (split c s); eauto. }
  exists w, ws. split; [done|]. cbn. rewrite E. by case_bool_decide.
Qed.

(** Every byte outside the separators is in a label, and conversely. *)
Lemma split_labels (f : ascii -> bool) s :
  f "."%char = false ->
  str_all (fun b => f b || bool_decide (b = "."%char)) s = true <->
  Forall (fun l => str_all f l = true) (split "." s).
Proof.
  intros Hf. induction s as [|a s IH]; [cbn; by rewrite Forall_singleton|].
  destruct (split_cons "." a s) as (w & ws & E & ->). rewrite E in IH. cbn [str_all].
  destruct (bool_decide_reflect (a = "."%char)) as [->|Ha].
  - rewrite orb_true_r, Forall_cons. cbn [andb]. rewrite IH. naive_solver.
  - rewrite orb_false_r, andb_true_iff, IH, !Forall_cons. cbn [str_all]. rewrite andb_true_iff.
    naive_solver.
Qed.

(** The first label starts the name and the last one ends it. *)
Lemma split_first s w ws :
  split "." s = w :: ws -> w ≠ EmptyString ->
  forall c, starts_with c s = starts_with c w.
Proof.
  destruct s as [|a s]; [by intros [= <- _]|].
  destruct (split_cons "." a s) as (w' & ws' & _ & ->). case_bool_decide; [by intros [= <- _]|].
  by intros [= <- _].
Qed.

Lemma split_last s :
  exists p ws w, split "." s = ws ++ [w] /\ s = p +:+ w /\ (ws = [] -> p = EmptyString).
Proof.
  induction s as [|a s IH]; [by exists EmptyString, [], EmptyString|].
  destruct IH as (p & ws & w & E & Hs & Hp).
  destruct (split_cons "." a s) as (w' & ws' & E' & ->). rewrite E in E'.
  destruct ws as [|x ws]; cbn in E'; simplify_eq.
  - rewrite Hp by done. case_bool_decide; [|by exists EmptyString, [], (String a w')].
    by exists (String a EmptyString), [EmptyString], w'.
  - case_bool_decide; [by exists (String a p), (EmptyString :: w' :: ws), w|].
    by exists (String a p), (String a w' :: ws), w.
Qed.

Lemma ends_with_suffix c p w : w ≠ EmptyString -> ends_with c (p +:+ w) = ends_with c w.
Proof.
  intros Hw. unfold ends_with. rewrite str_rev_app. destruct (str_rev w) as [|a r] eqn:E.
  - exfalso. apply Hw. rewrite <- (str_rev_involutive w), E. done.
  - done.
Qed.

Lemma str_all_starts f c s : f c = false -> str_all f s = true -> starts_with c s = false.
Proof.
  intros Hc. destruct s as [|a s]; [done|]. cbn. intros [Ha _]%andb_true_iff.
  apply bool_decide_eq_false_2. congruence.
Qed.

Lemma ldh_label_bool l :
  str_all label_byte l = true ->
  (negb (is_empty l) && (Z.of_nat (String.length l) <=? MAX_HOME_DOMAIN_LABEL_BYTES)
   && negb (starts_with "-" l) && negb (ends_with "-" l) = true <-> ldh_label l).
Proof.
  intros Ha. unfold ldh_label, MAX_HOME_DOMAIN_LABEL_BYTES.
  rewrite !andb_true_iff, !negb_true_iff, Z.leb_le, Ha.
  assert (is_empty l = false <-> (1 <= String.length l)%nat) as ->.
  { destruct l; cbn; [|]; split; (done || lia). }
  split; [intros (((? & ?) & ?) & ?); split_and!; auto; lia|].
  intros ((? & ?) & _ & ? & ?). split_and!; auto; lia.
Qed.

(** A name of good labels does not start or end in a dot or a hyphen. *)
Lemma ldh_ends s :
  Forall ldh_label (split "." s) ->
  starts_with "." s = false /\ starts_with "-" s = false /\
  ends_with "." s = false /\ ends_with "-" s = false.
Proof.
  intros Hlab. assert (Hdot : label_byte "." = false) by done.
  destruct (split "." s) as [|w0 ws0] eqn:E0.
  { destruct (split_last s) as (p & ws & w & E & _). rewrite E0 in E. by destruct ws. }
  pose proof (Forall_inv Hlab) as (Hl0 & Ha0 & Hs0 & _).
  assert (w0 ≠ EmptyString) by (intros ->; cbn in Hl0; lia).
  rewrite !(split_first s w0 ws0) by done.
  destruct (split_last s) as (p & ws & w & E & -> & _). rewrite E0 in E. rewrite E in Hlab.
  apply Forall_app in Hlab as [_ Hlast]. apply Forall_inv in Hlast as (Hl & Ha & _ & He).
  assert (w ≠ EmptyString) by (intros ->; cbn in Hl; lia).
  rewrite !ends_with_suffix by done. split_and!; [|done| |done].
  - by eapply str_all_starts.
  - eapply str_all_starts; [exact Hdot|]. by rewrite str_all_rev.
Qed.

(** The home-domain check accepts exactly the names of 1 to 255 bytes whose
    dot-separated labels are 1 to 63 lowercase letters, digits and hyphens, with
    no hyphen at either end of a label. *)
Theorem ldh_home_domain_exact s :
  is_valid_ldh_home_domain s = true <->
  (1 <= String.length s <= 255)%nat /\ Forall ldh_label (split "." s).
Proof.
  unfold is_valid_ldh_home_domain.
  change (fun b => is_ascii_lower b || is_ascii_digit b || bool_decide (b = "-"%char)
                   || bool_decide (b = "."%char))
    with (fun b => label_byte b || bool_decide (b = "."%char)).
  pose proof (split_labels label_byte s eq_refl) as Hbytes. split.
  - destruct (_ || _) eqn:E; [done|]. rewrite !orb_false_iff in E.
    destruct E as ((((He & Hl) & Ha) & _) & _). apply negb_false_iff, Hbytes in Ha.
    apply Z.ltb_ge in Hl. unfold MAX_HOME_DOMAIN_BYTES in Hl.
    intros Hs. split. { destruct s; [done|]. cbn in *. lia. }
    rewrite forallb_forall in Hs. rewrite Forall_forall in Ha. apply Forall_forall. intros l Hin.
    specialize (Ha l Hin). apply list_elem_of_In, Hs in Hin. by apply ldh_label_bool.
  - intros [Hlen Hlab].
    assert (Forall (fun l => str_all label_byte l = true) (split "." s)) as Ha.
    { eapply Forall_impl; [done|]. by intros l (_ & ? & _). }
    destruct (ldh_ends s Hlab) as (-> & -> & -> & ->). apply Hbytes in Ha. rewrite Ha.
    assert (is_empty s = false) as -> by by destruct s; [cbn in Hlen; lia|].
    assert ((MAX_HOME_DOMAIN_BYTES <? Z.of_nat (String.length s)) = false) as ->.
    { apply Z.ltb_ge. unfold MAX_HOME_DOMAIN_BYTES. lia. }
    cbn [orb negb]. apply forallb_forall. intros l Hl%list_elem_of_In.
    rewrite Forall_forall in Hlab. apply Hlab in Hl. apply ldh_label_bool; [apply Hl|done].
Qed.
