(* ===== verification/EngineProps.v ===== *)
(** * Properties of the policy engine

    What a permitting decision means, default deny, the fail-closed value gate,
    the approval zone between two thresholds, and the window limits of a whole
    engine over a session of calls. *)

From S2P Require Import Prelude RustStr Amount Json AssetId PolicyTypes StateStore Value Context Criteria Allowlist CapProps Engine.
From stdpp Require Import options.
Set Default Proof Using "Type*".

Local Open Scope string_scope.
Local Open Scope list_scope.
Local Open Scope Z_scope.

(** ** The criteria loop *)

Section loop.
Context {C : Type} `{Criterion C}.

(** The criteria not skipped all allow or escalate, threading the world; [reqs]
    are the escalations in order. *)
Inductive outcomes (skip : C -> bool) (ctx : EvalContext)
  : list C -> World -> World -> list ApprovalRequest -> Prop :=
| outcomes_nil w : outcomes skip ctx [] w w []
| outcomes_skip c cs w w' reqs :
    skip c = true -> outcomes skip ctx cs w w' reqs -> outcomes skip ctx (c :: cs) w w' reqs
| outcomes_allow c cs w w1 w' reqs :
    skip c = false -> evaluate_decision c ctx w = (Ok Allow, w1) ->
    outcomes skip ctx cs w1 w' reqs -> outcomes skip ctx (c :: cs) w w' reqs
| outcomes_escalate c cs w w1 w' req reqs :
    skip c = false -> evaluate_decision c ctx w = (Ok (RequireApproval req), w1) ->
    outcomes skip ctx cs w1 w' reqs -> outcomes skip ctx (c :: cs) w w' (req :: reqs).

(** The escalation kept: the one already there, or the first new one. *)
Definition kept (esc : option ApprovalRequest) (reqs : list ApprovalRequest)
  : option ApprovalRequest := match esc with Some r => Some r | None => head reqs end.

Lemma criteria_loop_pass skip ctx esc cs w esc' w' :
  criteria_loop skip ctx esc cs w = (Ok (None, esc'), w') <->
  exists reqs, outcomes skip ctx cs w w' reqs /\ esc' = kept esc reqs.
Proof.
  split.
  - revert esc w. induction cs as [|c cs IH]; intros esc w; cbn [criteria_loop].
    { intros [[= <-] <-]%M_ret_Ok. exists []. split; [constructor|]. by destruct esc. }
    destruct (skip c) eqn:Hs.
    { intros (reqs & Ho & ->)%IH. exists reqs. split; [by apply outcomes_skip|done]. }
    intros Hrun. m_inv. destruct a as [|r|req].
    + apply IH in Hrun as (reqs & Ho & ->). exists reqs. split; [by eapply outcomes_allow|done].
    + by m_inv.
    + apply IH in Hrun as (reqs & Ho & ->). exists (req :: reqs).
      split; [by eapply outcomes_escalate|]. by destruct esc.
  - intros (reqs & Ho & ->). revert esc. induction Ho; intros esc; cbn [criteria_loop].
    + by destruct esc.
    + by rewrite H0.
    + rewrite H0. apply M_bind_Ok. eexists _, _. split; [done|]. apply IHHo.
    + rewrite H0. apply M_bind_Ok. eexists _, _. split; [done|]. cbn.
      rewrite IHHo. by destruct esc.
Qed.

(** Every criterion not skipped was evaluated and did not refuse. *)
Lemma outcomes_elem skip ctx cs w w' reqs c :
  outcomes skip ctx cs w w' reqs -> c ∈ cs -> skip c = false ->
  exists w1 w2 d, evaluate_decision c ctx w1 = (Ok d, w2) /\ forall r, d ≠ Deny r.
Proof.
  induction 1; intros Hin Hsk.
  - by apply elem_of_nil in Hin.
  - apply elem_of_cons in Hin as [->|Hin]; [congruence|auto].
  - apply elem_of_cons in Hin as [->|Hin]; [|auto]. do 3 eexists. split; [done|]. done.
  - apply elem_of_cons in Hin as [->|Hin]; [|auto]. do 3 eexists. split; [done|]. done.
Qed.

Lemma find_rule_Some (rules : list (PolicyRule C)) tool r :
  find_rule rules tool = Some r <->
  exists pre post, rules = pre ++ r :: post /\ matches_tool r tool = true /\
    Forall (fun r' => matches_tool r' tool = false) pre.
Proof.
  induction rules as [|r' rules IH]; cbn.
  { split; [done|]. intros (pre & post & Heq & _). by destruct pre. }
  destruct (matches_tool r' tool) eqn:Hm.
  - split.
    + intros [= <-]. exists [], rules. by split_and!.
    + intros (pre & post & Heq & Hr & Hpre). destruct pre as [|r0 pre]; [by injection Heq as -> ->|].
      injection Heq as -> ->. apply Forall_cons in Hpre as [? _]. congruence.
  - rewrite IH. split.
    + intros (pre & post & -> & Hr & Hpre). exists (r' :: pre), post. split_and!; auto.
    + intros (pre & post & Heq & Hr & Hpre). destruct pre as [|r0 pre].
      * injection Heq as -> ->. congruence.
      * injection Heq as -> ->. apply Forall_cons in Hpre as [_ Hpre]. eauto.
Qed.

Lemma find_rule_None (rules : list (PolicyRule C)) tool :
  Forall (fun r => matches_tool r tool = false) rules -> find_rule rules tool = None.
Proof. induction 1 as [|r rules Hr _ IH]; cbn; [done|]. by rewrite Hr. Qed.

(** ** Decisions *)

(** The decision of a rule whose criteria passed with escalations [reqs]. *)
Definition permitted (rule : PolicyRule C) (reqs : list ApprovalRequest) : Decision :=
  match pr_decision rule, reqs with
  | Allow, req :: _ => RequireApproval req
  | d, _ => d
  end.

Lemma rule_outcome_permitted rule reqs : rule_outcome rule (kept None reqs) = permitted rule reqs.
Proof. unfold rule_outcome, permitted. by destruct (pr_decision rule), reqs. Qed.

(** C2: a call is permitted (allowed, or sent to approval) exactly when the
    document's scope covers the profile, the call matches a rule and no earlier
    one, every criterion of that rule was evaluated without an error and none
    refused; the decision is the rule's, raised to an approval with the request
    of the first criterion that asked for one when the rule allows. *)
Theorem permit_exact (e : PolicyEngineV1 C) tool args profile value v w d w' :
  (forall r, d ≠ Deny r) ->
  evaluate_inner e tool args profile value v w = (Ok d, w') <->
  exists pre rule post reqs,
    scope_matches (doc_scope (en_document e)) (en_profile_name e) (en_project_id e) = true /\
    doc_rules (en_document e) = pre ++ rule :: post /\ matches_tool rule tool = true /\
    Forall (fun r => matches_tool r tool = false) pre /\
    outcomes (fun _ => false) (call_ctx e tool args profile (effective_value rule value) v)
      (pr_criteria rule) w w' reqs /\
    d = permitted rule reqs.
Proof.
  intros Hd. unfold evaluate_inner, engine_rule, matching_rules. split.
  - destruct (scope_matches _ _ _); [|cbn; intros [= <- <-]; by destruct (Hd NoMatchingRule)].
    destruct (find_rule _ tool) as [rule|] eqn:Hr;
      [|cbn; intros [= <- <-]; by destruct (Hd NoMatchingRule)].
    apply find_rule_Some in Hr as (pre & post & Hrules & Hm & Hpre).
    intros Hrun. m_inv. destruct a as [[deny|] esc]; [by destruct (Hd deny)|].
    apply criteria_loop_pass in Hrun0 as (reqs & Ho & ->).
    exists pre, rule, post, reqs. split_and!; try done. by rewrite rule_outcome_permitted.
  - intros (pre & rule & post & reqs & -> & Hrules & Hm & Hpre & Ho & ->).
    rewrite (proj2 (find_rule_Some _ tool rule)) by eauto.
    apply M_bind_Ok. exists (None, kept None reqs), w'.
    split; [apply criteria_loop_pass; eauto|]. apply M_ret_Ok. by rewrite rule_outcome_permitted.
Qed.

(** Default deny.  A call outside the document's scope, or one that no rule
    matches, is refused with [NoMatchingRule] as a single call and as a bundle,
    and records nothing, whatever its arguments, value, views and store. *)
Theorem default_deny (e : PolicyEngineV1 C) tool args profile value v bundle w :
  scope_matches (doc_scope (en_document e)) (en_profile_name e) (en_project_id e) = false \/
  Forall (fun r => matches_tool r tool = false) (doc_rules (en_document e)) ->
  (length (inners bundle) <= 50)%nat ->
  evaluate_inner e tool args profile value v w = (Ok (Deny NoMatchingRule), w) /\
  evaluate_bundle e tool args profile bundle w = (Ok (Deny NoMatchingRule), w) /\
  engine_record_confirmed e tool profile value w = (Ok [], w) /\
  record_confirmed_bundle e tool profile bundle w = (Ok [], w).
Proof.
  intros Hno Hlen.
  assert (Hr : engine_rule e tool = None).
  { unfold engine_rule, matching_rules. destruct Hno as [->|Hno]; [done|].
    destruct (scope_matches _ _ _); [|done]. by apply find_rule_None. }
  unfold evaluate_inner, evaluate_bundle, engine_record_confirmed, record_confirmed_bundle,
    record_rule. rewrite Hr.
  rewrite (proj2 (Z.ltb_ge _ _)) by (unfold DEFAULT_INNER_INVOCATION_COUNT_CAP; lia). done.
Qed.
End loop.

(** ** The value gate, fail closed *)

Section boxed_engine.
Context `{Clk : Clock, Str : Strkey}.

(** The criteria that size the value of a call. *)
Definition sizes_value (b : BoxCriterion) : bool :=
  match b with
  | BoxPerTxCap _ | BoxApprovalAbove _ | BoxPerPeriodCap _ | BoxCounterpartyAllowlist _
  | BoxMinimumReserve _ => true
  | _ => false
  end.

Lemma classify_unsized ctx r : classify_value ctx = GateDeny r -> exists d, r = UnsizableValueEffect d.
Proof. unfold classify_value. intros Hr. cases_in Hr; injection Hr as <-; eauto. Qed.

Lemma gate_deny_refuses b ctx r w d w' :
  classify_value ctx = GateDeny r -> sizes_value b = true ->
  evaluate_decision b ctx w = (Ok d, w') -> exists r', d = Deny r'.
Proof.
  intros Hg. pose proof (classify_unsized _ _ Hg) as [txt ->].
  destruct b; try done; intros _; cbn;
    unfold default_evaluate_decision, ApprovalAbove_evaluate_decision, PerTxCap_evaluate,
      ApprovalAbove_evaluate, PerPeriodCap_evaluate, CounterpartyAllowlist_evaluate,
      MinimumReserve_evaluate, asset_debit_sum, extract_amount_stroops; rewrite ?Hg;
    intros Hrun; m_inv; try (injection Hrun0 as <-; eauto).
  - eauto.
  - res_inv. eauto.
Qed.

(** C29: what cannot be sized is refused.  When the matched rule has a criterion
    that sizes value, a tool classified as moving value whose effects were not
    resolved, or an opaque signature the rule does not opt into, is never
    allowed and never sent to approval. *)
Theorem unsized_value_refused (e : PolicyEngineV1 BoxCriterion) tool args profile value v rule b
    w d w' :
  engine_rule e tool = Some rule -> b ∈ pr_criteria rule -> sizes_value b = true ->
  (value = VcReadOnly /\ value_kind tool = TvkMovesValue) \/
  (exists o, value = VcOpaque o /\ pr_allow_opaque_signing rule = false) ->
  evaluate_inner e tool args profile value v w = (Ok d, w') -> exists r, d = Deny r.
Proof.
  intros Hrule Hin Hsz Hval. unfold evaluate_inner. rewrite Hrule. intros Hrun. m_inv.
  destruct a as [[deny|] esc]; [by exists deny|].
  apply criteria_loop_pass in Hrun0 as (reqs & Ho & _).
  destruct (outcomes_elem _ _ _ _ _ _ b Ho Hin eq_refl) as (w1 & w2 & d & Hev & Hnd).
  assert (Hg : exists r, classify_value
    (call_ctx e tool args profile (effective_value rule value) v) = GateDeny r).
  { unfold classify_value. cbn. destruct Hval as [[-> ->]|(o & -> & Ho')]; [by eexists|].
    unfold effective_value. rewrite Ho'. by eexists. }
  destruct Hg as [r Hg]. destruct (gate_deny_refuses _ _ _ _ _ _ Hg Hsz Hev) as [r' ->].
  by destruct (Hnd r').
Qed.

(** ** The approval zone *)

(** The text an escalation carries. *)
Definition approval_reason (asset : string) (threshold attempted : Z) : string :=
  "approval_above: " +:+ show_Z attempted +:+ " stroops of " +:+ asset
  +:+ " exceeds threshold " +:+ show_Z threshold +:+ " stroops".

Definition approval_request (asset : string) (threshold attempted : Z) : ApprovalRequest :=
  with_reason (ApprovalRequest_new EmptyString DEFAULT_APPROVAL_TTL_SECONDS)
    (approval_reason asset threshold attempted).

Lemma debit_decisions ctx effects asset max w :
  ctx_value ctx = VcValue effects ->
  Forall (debit_resolved (asset_normalise asset)) (legs effects) ->
  debit_amounts (asset_normalise asset) (legs effects) ≠ [] ->
  let total := debit_total (asset_normalise asset) (legs effects) in
  evaluate_decision (BoxPerTxCap {| ptc_asset := asset; ptc_max_stroops := max |}) ctx w =
    (Ok (if max <? total then Deny (PerTxCapExceeded asset max total) else Allow), w) /\
  evaluate_decision (BoxApprovalAbove {| aa_asset := asset; aa_max_stroops := max |}) ctx w =
    (Ok (if max <? total then RequireApproval (approval_request asset max total) else Allow), w).
Proof.
  intros Hv Hres Hne total. cbn.
  unfold default_evaluate_decision, ApprovalAbove_evaluate_decision, PerTxCap_evaluate,
    ApprovalAbove_evaluate, mbind, M_bind, lift. cbn [ptc_asset aa_asset].
  rewrite !(proj2 (asset_debit_sum_effects ctx effects asset _ _ Hv) (conj Hres eq_refl)).
  rewrite bool_decide_false by done. fold total. cbn. by destruct (max <? total).
Qed.

(** Under an allowing rule with a per-transaction cap and a lower approval
    threshold on one asset, in either order, a resolved debit of the asset is
    allowed up to the threshold, sent to approval between the threshold and the
    cap, and refused above the cap: the escalation never shadows the refusal.
    The store is not touched. *)
Theorem approval_zone (e : PolicyEngineV1 BoxCriterion) tool args profile effects v rule asset
    threshold cap w :
  let per_tx := BoxPerTxCap {| ptc_asset := asset; ptc_max_stroops := cap |} in
  let above := BoxApprovalAbove {| aa_asset := asset; aa_max_stroops := threshold |} in
  engine_rule e tool = Some rule -> pr_decision rule = Allow ->
  pr_criteria rule = [per_tx; above] \/ pr_criteria rule = [above; per_tx] ->
  threshold <= cap ->
  Forall (debit_resolved (asset_normalise asset)) (legs effects) ->
  debit_amounts (asset_normalise asset) (legs effects) ≠ [] ->
  let total := debit_total (asset_normalise asset) (legs effects) in
  evaluate_inner e tool args profile (VcValue effects) v w =
    (Ok (if total <=? threshold then Allow
         else if total <=? cap then RequireApproval (approval_request asset threshold total)
         else Deny (PerTxCapExceeded asset cap total)), w).
Proof.
  intros per_tx above Hrule Hdec Hcs Hle Hres Hne total.
  unfold evaluate_inner. rewrite Hrule. set (ctx := call_ctx _ _ _ _ _ _).
  assert (Hv : ctx_value ctx = VcValue effects) by done.
  assert (Hp : forall w, evaluate_decision per_tx ctx w =
    (Ok (if cap <? total then Deny (PerTxCapExceeded asset cap total) else Allow), w))
    by (intros; by apply debit_decisions).
  assert (Ha : forall w, evaluate_decision above ctx w =
    (Ok (if threshold <? total then RequireApproval (approval_request asset threshold total)
         else Allow), w)) by (intros; by apply debit_decisions).
  unfold mbind, M_bind.
  destruct Hcs as [-> | ->]; cbn [criteria_loop]; unfold mbind, M_bind.
  - rewrite Hp. destruct (Z.ltb_spec cap total).
    { rewrite (proj2 (Z.leb_gt _ _)), (proj2 (Z.leb_gt _ _)) by lia. done. }
    rewrite Ha, (proj2 (Z.leb_le _ cap)) by lia. destruct (Z.ltb_spec threshold total).
    + rewrite (proj2 (Z.leb_gt _ _)) by lia. cbn. unfold rule_outcome. by rewrite Hdec.
    + rewrite (proj2 (Z.leb_le _ _)) by lia. cbn. unfold rule_outcome. by rewrite Hdec.
  - rewrite Ha. destruct (Z.ltb_spec threshold total); rewrite Hp;
      destruct (Z.ltb_spec cap total); try lia.
    + rewrite (proj2 (Z.leb_gt _ _)), (proj2 (Z.leb_gt _ _)) by lia. done.
    + rewrite (proj2 (Z.leb_gt _ _)), (proj2 (Z.leb_le _ _)) by lia. cbn.
      unfold rule_outcome. by rewrite Hdec.
    + rewrite (proj2 (Z.leb_le _ _)) by lia. cbn. unfold rule_outcome. by rewrite Hdec.
Qed.
End boxed_engine.

(** ** Witnesses *)

(** A one-rule engine for profile [alice]. *)
Definition demo_rule (cs : list BoxCriterion) : PolicyRule BoxCriterion := {|
  pr_match := {| rm_tool := "stellar_pay"; rm_chain := "*" |};
  pr_criteria := cs; pr_decision := Allow; pr_allow_opaque_signing := false |}.

Definition demo_rule_engine (cs : list BoxCriterion) : PolicyEngineV1 BoxCriterion := {|
  en_document := {| doc_version := 1; doc_scope := ScopeProfile "alice";
                    doc_rules := [demo_rule cs]; doc_signature := None |};
  en_profile_name := "alice"; en_project_id := None |}.

Definition empty_views : Views := {|
  v_account := None; v_identity := None; v_cache := None; v_sep10 := None; v_sep45 := None |}.

Definition demo_per_tx : BoxCriterion := BoxPerTxCap {| ptc_asset := "native"; ptc_max_stroops := 10 |}.
Definition demo_above : BoxCriterion :=
  BoxApprovalAbove {| aa_asset := "native"; aa_max_stroops := 4 |}.

Lemma demo_debits_resolved n :
  Forall (debit_resolved "native") [MkLeg Payment (Some n) (Some "XLM") (Some "GBOB")].
Proof. constructor; [|done]. intros _. exists "XLM". split; [done|]. by eexists. Defined.

Lemma permit_exact_witness :
  @evaluate_inner _ (@BoxCriterion_criterion demo_clock demo_strkey) (demo_rule_engine [demo_per_tx])
    demo_tool JNull demo_profile (demo_pay 10) empty_views demo_world = (Ok Allow, demo_world).
Proof.
  apply (@permit_exact _ (@BoxCriterion_criterion demo_clock demo_strkey)); [done|].
  exists [], (demo_rule [demo_per_tx]), [], []. split_and!; [done..|done| |done].
  eapply outcomes_allow; [done|by vm_compute|constructor].
Defined.

Lemma default_deny_witness :
  let e := demo_rule_engine [] in
  let tool := {| tool_name := "stellar_claim"; destructive_hint := true; read_only_hint := false;
                 chain_id_required := true; tool_chain_id := "stellar:testnet";
                 value_kind := TvkMovesValue |} in
  let bundle := {| inners := []; overlay := ∅ |} in
  let crit := @BoxCriterion_criterion demo_clock demo_strkey in
  evaluate_inner e tool JNull demo_profile (demo_pay 1) empty_views demo_world
    = (Ok (Deny NoMatchingRule), demo_world) /\
  evaluate_bundle e tool JNull demo_profile bundle demo_world
    = (Ok (Deny NoMatchingRule), demo_world) /\
  engine_record_confirmed e tool demo_profile (demo_pay 1) demo_world = (Ok [], demo_world) /\
  record_confirmed_bundle e tool demo_profile bundle demo_world = (Ok [], demo_world).
Proof.
  cbv zeta. apply (@default_deny _ (@BoxCriterion_criterion demo_clock demo_strkey)).
  - right. by repeat constructor.
  - cbn. lia.
Defined.

Lemma unsized_value_refused_witness : exists r,
  Deny (UnsizableValueEffect
    ("tool 'stellar_pay' is classified MovesValue but the dispatch site resolved "
     +:+ "no value effects; refusing rather than sizing it as read-only")) = Deny r.
Proof.
  apply (@unsized_value_refused demo_clock demo_strkey (demo_rule_engine [demo_per_tx]) demo_tool
    JNull demo_profile VcReadOnly empty_views (demo_rule [demo_per_tx]) demo_per_tx demo_world _
    demo_world).
  - by vm_compute.
  - by left.
  - done.
  - by left.
  - by vm_compute.
Defined.

Lemma approval_zone_witness :
  @evaluate_inner _ (@BoxCriterion_criterion demo_clock demo_strkey)
    (demo_rule_engine [demo_above; demo_per_tx])
    demo_tool JNull demo_profile (demo_pay 7) empty_views demo_world
  = (Ok (RequireApproval (approval_request "native" 4 7)), demo_world).
Proof.
  apply (@approval_zone demo_clock demo_strkey (demo_rule_engine [demo_above; demo_per_tx]) demo_tool
    JNull demo_profile (MkEffects [MkLeg Payment (Some 7) (Some "XLM") (Some "GBOB")]) empty_views
    (demo_rule [demo_above; demo_per_tx]) "native" 4 10).
  - by vm_compute.
  - done.
  - by right.
  - lia.
  - apply demo_debits_resolved.
  - done.
Defined.
