(* ===== verification/EngineWindow.v ===== *)
(** * The amount windows of a whole engine

    The per-period cap inside an engine with other criteria and other rules:
    every criterion's evaluation keeps the rolling invariant of a window it does
    not own, the owner's evaluation leaves room for what it records, and so a
    session of evaluated and recorded calls never uses more than the cap in any
    interval of the window's length. *)

From S2P Require Import Prelude RustStr Amount Json AssetId PolicyTypes StateStore Value Context Criteria Allowlist CapProps Engine EngineProps.
From stdpp Require Import options.
Set Default Proof Using "Type*".

Local Open Scope string_scope.
Local Open Scope list_scope.
Local Open Scope Z_scope.

(** ** Evaluation keeps every window's invariant *)

Section evaluation.
Context `{Clk : Clock, !MonotoneClock, Str : Strkey}.
Context (key : StateKey) (m : StateEntry -> Z) (max : Z).
Context (Hwin : 0 <= window_secs key * 1000 <= hi u64).

#[local] Abbreviation roll := (rolling key m max).

Lemma rolling_tick w h T : roll w h T -> roll (MkWorld (w_store w) (S (w_ticks w))) h T.
Proof. intros Hro. eapply rolling_other; [exact Hro|cbn; lia|done]. Qed.

(** A query of any window: of this one by the invariant, of another because it
    leaves this one alone. *)
Lemma rolling_any_probe {B} key' l1 l2 (g : Z * Z -> B) w h T r w' :
  roll w h T ->
  (now ← now_ms l1; used ← store_op l2 (fun st => query_window st key' now); mret (g used)) w
    = (r, w') ->
  exists T', T <= T' /\ roll w' h T'.
Proof.
  intros Hro. destruct (decide (key' = key)) as [->|Hne].
  { intros Hrun. eapply rolling_probe in Hrun as (T' & ? & ? & _); [|done|exact Hro]. eauto. }
  intros Hrun. exists T. split; [done|].
  enough ((w_ticks w <= w_ticks w')%nat /\
    deque_of (inner (w_store w')) key = deque_of (inner (w_store w)) key) as [? ?]
    by by eapply rolling_other.
  revert Hrun. unfold mbind, M_bind at 1, now_ms, read_clock, mbind, M_bind, mret, M_ret.
  destruct (clock (w_ticks w)) as [ms|err]; [|by intros [= <- <-]; cbn; auto].
  unfold store_op, query_window. destruct w as [st k]; cbn.
  destruct (poisoned st); [intros [= <- <-]; cbn; auto|].
  destruct (keep (skewed _) _); intros [= <- <-]; cbn; rewrite deque_of_insert_ne by done; auto.
Qed.

Lemma default_decision_world {C} (ev : C -> EvalContext -> M (option DenyReason)) c ctx w r w' :
  default_evaluate_decision ev c ctx w = (r, w') -> exists r0, ev c ctx w = (r0, w').
Proof.
  unfold default_evaluate_decision, mbind, M_bind.
  destruct (ev c ctx w) as [[d|e] w1]; intros [= <- <-]; eauto.
Qed.

Lemma now_unix_rolling {B} (g : Z -> B) w h T r w' :
  roll w h T -> (now ← now_unix; mret (g now)) w = (r, w') -> roll w' h T.
Proof. intros Hro [= <- <-]. by apply rolling_tick. Qed.

(** Whatever the outcome, evaluating any criterion keeps the invariant. *)
Lemma evaluate_rolling (b : BoxCriterion) ctx w h T r w' :
  roll w h T -> evaluate_decision b ctx w = (r, w') -> exists T', T <= T' /\ roll w' h T'.
Proof.
  intros Hro. assert (Hsame : exists T', T <= T' /\ roll w h T') by (exists T; split; [lia|done]).
  destruct b; cbn; intros Hrun;
    try (apply default_decision_world in Hrun as [r0 Hrun]);
    unfold PerTxCap_evaluate, PerPeriodCap_evaluate, check_window, RateLimit_evaluate,
      CounterpartyAllowlist_evaluate, MinimumReserve_evaluate, HomeDomainResolved_evaluate,
      QuorumSatisfied_evaluate, Sep10SessionActive_evaluate, Sep45SessionActive_evaluate,
      InnerInvocationCountCap_evaluate, BundleAggregateCap_evaluate, RestrictBundle_evaluate,
      BundlePerTxCap_evaluate, BundlePerPeriodCap_evaluate, BundleRateLimit_evaluate in Hrun;
    try (injection Hrun as <- <-; exact Hsame).
  - unfold ApprovalAbove_evaluate_decision, ApprovalAbove_evaluate, mbind, M_bind, lift in Hrun.
    repeat case_match; injection Hrun as <- <-; exact Hsame.
  - destruct (classify_value ctx); try (injection Hrun as <- <-; exact Hsame).
    unfold mbind at 1, M_bind at 1, lift in Hrun.
    destruct (debit_loop _ _ _ _ _ _) as [[? ?]|?]; [|injection Hrun as <- <-; exact Hsame].
    destruct (negb _); [injection Hrun as <- <-; exact Hsame|].
    eapply rolling_any_probe; [exact Hro|exact Hrun].
  - eapply rolling_any_probe; [exact Hro|exact Hrun].
  - destruct (ctx_sep10_sessions ctx); [|injection Hrun as <- <-; exact Hsame].
    exists T. split; [done|]. by eapply now_unix_rolling in Hrun.
  - destruct (ctx_sep45_sessions ctx); [|injection Hrun as <- <-; exact Hsame].
    exists T. split; [done|]. by eapply now_unix_rolling in Hrun.
  - destruct (ctx_bundle ctx); [|injection Hrun as <- <-; exact Hsame].
    eapply rolling_any_probe; [exact Hro|exact Hrun].
  - destruct (ctx_bundle ctx); [|injection Hrun as <- <-; exact Hsame].
    eapply rolling_any_probe; [exact Hro|exact Hrun].
Qed.

(** The loop over a rule's criteria keeps it too, also when it stops early. *)
Lemma criteria_loop_rolling skip ctx esc (cs : list BoxCriterion) w h T r w' :
  roll w h T -> criteria_loop skip ctx esc cs w = (r, w') -> exists T', T <= T' /\ roll w' h T'.
Proof.
  revert esc w T. induction cs as [|b cs IH]; intros esc w T Hro; cbn [criteria_loop].
  { intros [= <- <-]. exists T. split; [lia|done]. }
  destruct (skip b); [by apply IH|]. unfold mbind, M_bind.
  destruct (evaluate_decision b ctx w) as [[d|e] w1] eqn:Hev;
    destruct (evaluate_rolling _ _ _ _ _ _ _ Hro Hev) as (T1 & HT1 & Hro1).
  - destruct d; [|intros [= <- <-]; eauto|];
      (intros Hrun; destruct (IH _ _ _ Hro1 Hrun) as (T2 & ? & ?); exists T2; split; [lia|done]).
  - intros [= <- <-]. eauto.
Qed.

Lemma evaluate_inner_rolling (e : PolicyEngineV1 BoxCriterion) tool args profile value v w h T r w' :
  roll w h T -> evaluate_inner e tool args profile value v w = (r, w') ->
  exists T', T <= T' /\ roll w' h T'.
Proof.
  intros Hro. unfold evaluate_inner. destruct (engine_rule e tool) as [rule|];
    [|intros [= <- <-]; exists T; split; [lia|done]].
  unfold mbind, M_bind. destruct (criteria_loop _ _ _ _ w) as [[x|err] w1] eqn:Hl;
    intros [= <- <-]; by eapply criteria_loop_rolling.
Qed.

Lemma live_measure_mono h T T' :
  Forall (fun e => 0 <= m e) h -> T <= T' ->
  measure m (keep (live key T') h) <= measure m (keep (live key T) h).
Proof.
  intros Hh HT. apply measure_keep_mono. eapply Forall_impl; [exact Hh|].
  intros e He. split; [done|]. by apply live_mono.
Qed.
End evaluation.

(** ** Recording *)

(** The criteria of profile [p] that record under [key] outside a bundle. *)
Definition owns_key (p : string) (key : StateKey) (b : BoxCriterion) : bool :=
  match b with
  | BoxPerPeriodCap c =>
      bool_decide (StateKey_new p 1 (asset_normalise (ppc_asset c)) (secs (ppc_window c)) = key)
  | BoxRateLimit c => bool_decide (StateKey_new p 1 "rate_limit" (secs (rl_window c)) = key)
  | _ => false
  end.

Definition under_key (key : StateKey) (es : list WindowEntry) : list StateEntry :=
  entry_of <$> filter (fun we => we_key we = key) es.

(** At most one criterion of the rule owns the window, and it is a per-period
    cap of at most [max]. *)
Definition rule_guarded (p : string) (key : StateKey) (max : Z) (rule : PolicyRule BoxCriterion)
  : Prop :=
  filter (fun b => owns_key p key b = true) (pr_criteria rule) = [] \/
  exists c, filter (fun b => owns_key p key b = true) (pr_criteria rule) = [BoxPerPeriodCap c] /\
    ppc_max_stroops c <= max.

Section recording.
Context `{Clk : Clock, !MonotoneClock, Str : Strkey}.
Context (key : StateKey) (max : Z).
Context (Hwin : 0 <= window_secs key * 1000 <= hi u64).
Context (Hmax : 0 <= max < hi i128).

#[local] Abbreviation roll := (rolling key amount max).

(** An append to another window. *)
Lemma rolling_other_record {B} key' l1 l2 a (g : Z -> B) w h T x w' :
  key' ≠ key -> roll w h T ->
  (now ← now_ms l1; _ ← store_op l2 (fun st => append st key' now a); mret (g now)) w = (Ok x, w') ->
  roll w' h T /\ exists t, x = g t.
Proof.
  intros Hne Hro Hrun. m_inv. apply now_ms_Ok in Hrun0 as (ms & _ & -> & ->).
  apply append_entry_Ok in Hrun1 as [_ ->]. cbn. split; [|by eexists].
  eapply rolling_other; [exact Hro|cbn; lia|]. cbn. by rewrite deque_of_insert_ne.
Qed.

(** A criterion that does not own the window leaves it alone. *)
Lemma record_elsewhere b ctx w h T es w' :
  ctx_bundle ctx = None -> owns_key (ctx_profile_name ctx) key b = false ->
  roll w h T -> record_confirmed b ctx w = (Ok es, w') ->
  roll w' h T /\ under_key key es = [].
Proof.
  intros Hb Hown Hro. destruct b; cbn in *; try by intros [= <- <-].
  - apply bool_decide_eq_false in Hown. unfold PerPeriodCap_record_confirmed.
    destruct (ctx_value ctx); try by intros [= <- <-].
    destruct (record_loop _ _ _ _) as [matched sum]. destruct matched; [|by intros [= <- <-]].
    intros Hrun. eapply rolling_other_record in Hrun as [Hro' [t ->]]; [|done|exact Hro].
    split; [done|]. unfold under_key. by rewrite filter_cons_False.
  - apply bool_decide_eq_false in Hown. unfold RateLimit_record_confirmed. rewrite Hb.
    intros Hrun. eapply rolling_other_record in Hrun as [Hro' [t ->]]; [|done|exact Hro].
    split; [done|]. unfold under_key. by rewrite filter_cons_False.
  - unfold BundlePerPeriodCap_record_confirmed. rewrite Hb. by intros [= <- <-].
  - unfold BundleRateLimit_record_confirmed. rewrite Hb. by intros [= <- <-].
Qed.

Lemma under_key_app es1 es2 : under_key key (es1 ++ es2) = under_key key es1 ++ under_key key es2.
Proof. unfold under_key. by rewrite filter_app, fmap_app. Qed.

Lemma record_all_elsewhere cs ctx w h T ess w' :
  ctx_bundle ctx = None ->
  filter (fun b => owns_key (ctx_profile_name ctx) key b = true) cs = [] ->
  roll w h T -> forM (fun b => record_confirmed b ctx) cs w = (Ok ess, w') ->
  roll w' h T /\ under_key key (concat ess) = [].
Proof.
  intros Hb. revert w ess. induction cs as [|b cs IH]; intros w ess Hf Hro; cbn [forM].
  { by intros [<- <-]%M_ret_Ok. }
  destruct (owns_key (ctx_profile_name ctx) key b) eqn:Hown.
  { by rewrite filter_cons_True in Hf. }
  rewrite filter_cons_False in Hf by congruence. intros Hrun. m_inv.
  destruct (record_elsewhere _ _ _ _ _ _ _ Hb Hown Hro Hrun0) as [Hro1 He].
  destruct (IH _ _ Hf Hro1 Hrun1) as [Hro2 He2]. split; [done|].
  by rewrite concat_cons, under_key_app, He, He2.
Qed.

(** Room for the debits of a call at time [T]. *)
Definition room (c : PerPeriodCapCriterion) (value : ValueClass) (h : list StateEntry) (T : Z)
  : Prop :=
  forall effects, value = VcValue effects ->
    debit_amounts (asset_normalise (ppc_asset c)) (legs effects) ≠ [] ->
    measure amount (keep (live key T) h)
      + debit_total (asset_normalise (ppc_asset c)) (legs effects) <= max.

Lemma record_owner c ctx w h T es w' :
  plain_call (ctx_profile_name ctx) ctx ->
  owns_key (ctx_profile_name ctx) key (BoxPerPeriodCap c) = true ->
  room c (ctx_value ctx) h T -> roll w h T ->
  record_confirmed (BoxPerPeriodCap c) ctx w = (Ok es, w') ->
  exists T', roll w' (h ++ under_key key es) T'.
Proof.
  intros (_ & Hb & Hnn) Hown%bool_decide_eq_true Hroom Hro. cbn.
  unfold PerPeriodCap_record_confirmed, room in *.
  destruct (ctx_value ctx) as [|effects|] eqn:Hv;
    [intros [= <- <-]; exists T; cbn; by rewrite app_nil_r| |
     intros [= <- <-]; exists T; cbn; by rewrite app_nil_r].
  rewrite record_loop_spec. cbn [orb]. case_bool_decide as Hd; cbn [negb].
  { intros [= <- <-]. exists T. cbn. by rewrite app_nil_r. }
  fold (debit_total (asset_normalise (ppc_asset c)) (legs effects)).
  specialize (Hroom effects eq_refl Hd). specialize (Hnn effects eq_refl).
  destruct (debit_total_nonneg (asset_normalise (ppc_asset c)) _ Hnn) as [_ [? _]].
  unfold amount_key. rewrite Hown. intros Hrun.
  eapply rolling_record in Hrun as (t & -> & Hro'); [|done|exact Hro|done|done].
  exists t. unfold under_key. by rewrite filter_cons_True.
Qed.

Lemma record_all_owner cs c ctx w h T ess w' :
  plain_call (ctx_profile_name ctx) ctx ->
  filter (fun b => owns_key (ctx_profile_name ctx) key b = true) cs = [BoxPerPeriodCap c] ->
  room c (ctx_value ctx) h T -> roll w h T ->
  forM (fun b => record_confirmed b ctx) cs w = (Ok ess, w') ->
  exists T', roll w' (h ++ under_key key (concat ess)) T'.
Proof.
  intros Hplain. revert w ess. induction cs as [|b cs IH]; intros w ess Hf Hroom Hro; [done|].
  pose proof Hplain as (_ & Hb & _). cbn [forM]. intros Hrun. m_inv.
  destruct (owns_key (ctx_profile_name ctx) key b) eqn:Hown.
  - rewrite filter_cons_True in Hf by done. injection Hf as -> Hf.
    destruct (record_owner _ _ _ _ _ _ _ Hplain Hown Hroom Hro Hrun0) as [T1 Hro1].
    destruct (record_all_elsewhere _ _ _ _ _ _ _ Hb Hf Hro1 Hrun1) as [Hro2 He].
    exists T1. by rewrite concat_cons, under_key_app, He, app_nil_r.
  - rewrite filter_cons_False in Hf by congruence.
    destruct (record_elsewhere _ _ _ _ _ _ _ Hb Hown Hro Hrun0) as [Hro1 He].
    destruct (IH _ _ Hf Hroom Hro1 Hrun1) as [T2 Hro2]. exists T2.
    by rewrite concat_cons, under_key_app, He.
Qed.

(** ** Evaluation leaves room *)

Lemma room_later c value h T T' w :
  roll w h T' -> T <= T' -> room c value h T -> room c value h T'.
Proof.
  intros Hro HT Hroom effects Hv Hd. specialize (Hroom effects Hv Hd).
  enough (measure amount (keep (live key T') h) <= measure amount (keep (live key T) h)) by lia.
  apply (live_measure_mono key amount Hwin); [|done].
  eapply Forall_impl; [apply (ro_hist _ _ _ _ _ _ Hro)|]. by intros e (_ & ? & _).
Qed.

(** Every owner among the criteria has left room. *)
Definition rooms (p : string) (cs : list BoxCriterion) (value : ValueClass)
    (h : list StateEntry) (T : Z) : Prop :=
  forall c, BoxPerPeriodCap c ∈ cs -> owns_key p key (BoxPerPeriodCap c) = true ->
    ppc_max_stroops c <= max -> room c value h T.

Lemma evaluate_room b ctx w h T d w' :
  plain_call (ctx_profile_name ctx) ctx -> roll w h T ->
  evaluate_decision b ctx w = (Ok d, w') -> (forall r, d ≠ Deny r) ->
  exists T', T <= T' /\ roll w' h T' /\ rooms (ctx_profile_name ctx) [b] (ctx_value ctx) h T'.
Proof.
  intros Hplain Hro Hev Hnd.
  assert (Hcase : (exists c, b = BoxPerPeriodCap c /\
    owns_key (ctx_profile_name ctx) key b = true /\ ppc_max_stroops c <= max) \/
    forall c, b = BoxPerPeriodCap c -> owns_key (ctx_profile_name ctx) key b = true ->
      ppc_max_stroops c <= max -> False).
  { destruct (owns_key _ key b) eqn:Hown; [|by right].
    destruct b as [| |c| | | | | | | | | | | | |]; try by right.
    destruct (decide (ppc_max_stroops c <= max)); [left; eauto|right; by intros ? [= <-]]. }
  destruct Hcase as [(c & -> & Hown & Hle)|Hno].
  - cbn in Hev. unfold default_evaluate_decision in Hev. m_inv.
    destruct a as [r|]; [by destruct (Hnd r)|].
    assert (Hk : amount_key ctx (asset_normalise (ppc_asset c)) (ppc_window c) = key)
      by by apply bool_decide_eq_true in Hown.
    eapply (per_period_evaluate c ctx (ctx_profile_name ctx) max) in Hev0 as (T' & HT & Hro' & Hroom);
      [|done|by rewrite Hk|lia|rewrite Hk; exact Hro].
    rewrite Hk in *. exists T'. split_and!; [done|done|].
    intros c' [= ->]%list_elem_of_singleton _ _ effects Hv Hd.
    specialize (Hroom eq_refl effects Hv Hd). lia.
  - destruct (evaluate_rolling key amount max Hwin _ _ _ _ _ _ _ Hro Hev) as (T' & HT & Hro').
    exists T'. split_and!; [done|done|].
    intros c Hc%list_elem_of_singleton Hown Hle. subst b. by destruct (Hno c).
Qed.

Lemma outcomes_room ctx cs w w' reqs h T :
  plain_call (ctx_profile_name ctx) ctx ->
  outcomes (fun _ => false) ctx cs w w' reqs -> roll w h T ->
  exists T', T <= T' /\ roll w' h T' /\ rooms (ctx_profile_name ctx) cs (ctx_value ctx) h T'.
Proof.
  intros Hplain Ho. revert T. induction Ho as [w|b cs w w' reqs Hs|b cs w w1 w' reqs _ Hev Ho IH|
    b cs w w1 w' req reqs _ Hev Ho IH]; intros T Hro; [|done|..].
  { exists T. split_and!; [lia|done|]. intros c Hc. by apply elem_of_nil in Hc. }
  all: destruct (evaluate_room _ _ _ _ _ _ _ Hplain Hro Hev) as (T1 & HT1 & Hro1 & Hr1); [done|];
    destruct (IH _ Hro1) as (T2 & HT2 & Hro2 & Hr2); exists T2; split_and!; [lia|done|];
    intros c Hc Hown Hle; apply elem_of_cons in Hc as [<-|Hc]; [|by apply Hr2];
    apply (room_later c _ h T1 T2 w'); [done|done|];
    apply Hr1; [by apply list_elem_of_singleton|done|done].
Qed.
End recording.

(** ** Sessions of an engine *)

Section engine_sessions.
Context `{Clk : Clock, !MonotoneClock, Str : Strkey}.

(** A step of the engine's world: a call that is permitted and then confirmed and
    recorded, a call that is only evaluated, or activity that leaves the window
    of [key] alone.  The history is what was recorded under [key]. *)
Inductive engine_step (e : PolicyEngineV1 BoxCriterion) (key : StateKey)
  : World * list StateEntry -> World * list StateEntry -> Prop :=
| engine_spend tool args profile value v d w h w1 es w2 :
    (forall effects, value = VcValue effects -> legs_nonneg (legs effects)) ->
    (forall r, d ≠ Deny r) ->
    evaluate_inner e tool args profile value v w = (Ok d, w1) ->
    engine_record_confirmed e tool profile value w1 = (Ok es, w2) ->
    engine_step e key (w, h) (w2, h ++ under_key key es)
| engine_probe tool args profile value v w h r w1 :
    evaluate_inner e tool args profile value v w = (r, w1) ->
    engine_step e key (w, h) (w1, h)
| engine_other w h w' :
    (w_ticks w <= w_ticks w')%nat ->
    deque_of (inner (w_store w')) key = deque_of (inner (w_store w)) key ->
    engine_step e key (w, h) (w', h).

Context (e : PolicyEngineV1 BoxCriterion) (key : StateKey) (max : Z).
Context (Hwin : 0 <= window_secs key * 1000 <= hi u64).
Context (Hmax : 0 <= max < hi i128).
Context (Hguard : Forall (rule_guarded (en_profile_name e) key max) (doc_rules (en_document e))).

Lemma engine_rule_guarded tool rule :
  engine_rule e tool = Some rule -> rule_guarded (en_profile_name e) key max rule.
Proof using All.
  unfold engine_rule, matching_rules. destruct (scope_matches _ _ _); [|done].
  intros (pre & post & Hr & _)%find_rule_Some. rewrite Hr in Hguard.
  by apply Forall_app in Hguard as [_ [? _]%Forall_cons].
Qed.

Lemma spend_rolling tool args profile value v d w h T w1 es w2 :
  (forall effects, value = VcValue effects -> legs_nonneg (legs effects)) ->
  (forall r, d ≠ Deny r) ->
  evaluate_inner e tool args profile value v w = (Ok d, w1) ->
  engine_record_confirmed e tool profile value w1 = (Ok es, w2) ->
  rolling key amount max w h T -> exists T', rolling key amount max w2 (h ++ under_key key es) T'.
Proof using All.
  intros Hnn Hnd Hev Hrec Hro. unfold evaluate_inner in Hev.
  unfold engine_record_confirmed, record_rule in Hrec.
  destruct (engine_rule e tool) as [rule|] eqn:Hrule;
    [|injection Hev as <- <-; by destruct (Hnd NoMatchingRule)].
  m_inv. destruct a0 as [[deny|] esc]; [by destruct (Hnd deny)|].
  apply criteria_loop_pass in Hev0 as (reqs & Ho & _).
  assert (Hval : forall effects, effective_value rule value = VcValue effects -> value = VcValue effects).
  { unfold effective_value. intros effects. by destruct value, (pr_allow_opaque_signing rule). }
  assert (Hval' : forall effects, value = VcValue effects -> effective_value rule value = VcValue effects).
  { by intros effects ->. }
  apply (outcomes_room key max Hwin Hmax _ _ _ _ _ h T) in Ho as (T1 & _ & Hro1 & Hroom);
    [|by split_and!; [..|intros effects Heff%Hval; auto]|done].
  assert (Hbare : plain_call (en_profile_name e) (bare_ctx e tool JNull profile value None))
    by by split_and!.
  destruct (engine_rule_guarded tool rule Hrule) as [Hf|(c & Hf & Hle)].
  - destruct (record_all_elsewhere key max Hwin Hmax _ (bare_ctx e tool JNull profile value None)
      w1 h T1 _ _ eq_refl Hf Hro1 Hrec0) as [Hro2 ->]. exists T1. by rewrite app_nil_r.
  - eapply (record_all_owner key max Hwin Hmax); [exact Hbare|exact Hf| |exact Hro1|exact Hrec0].
    intros effects Hv. cbn in Hv.
    assert (Hin : BoxPerPeriodCap c ∈ filter (fun b => owns_key (en_profile_name e) key b = true)
      (pr_criteria rule)) by (rewrite Hf; by apply list_elem_of_singleton).
    apply list_elem_of_filter in Hin as [Hown Hin].
    apply (Hroom c Hin Hown Hle effects). by apply Hval'.
Qed.

End engine_sessions.

(** ** Witness *)

Definition demo_cap (max : Z) : PerPeriodCapCriterion :=
  {| ppc_asset := "XLM"; ppc_window := demo_window; ppc_max_stroops := max |}.

(** An engine of one allowing rule over the given criteria. *)
Definition demo_engine (tool : string) (cs : list BoxCriterion) : PolicyEngineV1 BoxCriterion := {|
  en_document := {|
    doc_version := 1; doc_scope := ScopeProfile "alice"; doc_signature := None;
    doc_rules := [{| pr_match := {| rm_tool := tool; rm_chain := "*" |};
                     pr_criteria := cs; pr_decision := Allow;
                     pr_allow_opaque_signing := false |}] |};
  en_profile_name := "alice";
  en_project_id := None;
|}.

Definition no_views : Views := {|
  v_account := None; v_identity := None; v_cache := None; v_sep10 := None; v_sep45 := None |}.

Definition demo_pay_engine : PolicyEngineV1 BoxCriterion :=
  demo_engine "stellar_pay"
    [BoxRateLimit {| rl_window := demo_window; rl_max_calls := 5 |}; BoxPerPeriodCap (demo_cap 10)].

(** The run of one permitted and recorded payment of 7 stroops. *)
Definition demo_evaluated : result PolicyError Decision * World :=
  @evaluate_inner _ (@BoxCriterion_criterion demo_clock demo_strkey) demo_pay_engine demo_tool JNull
    demo_profile (demo_pay 7) no_views demo_world.
Definition demo_recorded : result PolicyError (list WindowEntry) * World :=
  @engine_record_confirmed _ (@BoxCriterion_criterion demo_clock demo_strkey) demo_pay_engine
    demo_tool demo_profile (demo_pay 7) (snd demo_evaluated).

