(* ===== verification/BundleProps.v ===== *)
(** * Properties of bundle evaluation

    What a permitted multicall bundle satisfies: the hard floor on its size, the
    implicit refusal of unrecognised calls under a value-summing cap, the exact
    bounds of the bundle-level caps, and the bound the per-call window caps keep
    over the bundle through the overlay. *)

From S2P Require Import Prelude RustStr Amount Json AssetId PolicyTypes StateStore Value Context Criteria Allowlist CapProps Engine EngineProps EngineWindow.
From stdpp Require Import options.
Set Default Proof Using "Type*".

Local Open Scope string_scope.
Local Open Scope list_scope.
Local Open Scope Z_scope.

Definition is_token_transfer (i : InnerOpDescriptor) : bool :=
  match i with TokenTransfer _ _ _ _ => true | Generic _ _ => false end.

(** Amounts as [decompose_bundle] builds them. *)
Definition inners_nonneg (l : list InnerOpDescriptor) : Prop :=
  Forall (fun i => match i with TokenTransfer _ _ _ a => 0 <= a <= hi i128 | Generic _ _ => True end) l.

(** The amounts an aggregate cap adds up. *)
Definition aggregate_amounts (c : BundleAggregateCapCriterion) (l : list InnerOpDescriptor) : list Z :=
  omap (fun i => match i with
                 | TokenTransfer asset _ _ a => if bac_matches c asset then Some a else None
                 | Generic _ _ => None
                 end) l.

(** ** The criteria on a whole bundle *)

Lemma first_generic_None k l : first_generic k l = None <-> Forall (fun i => is_token_transfer i = true) l.
Proof.
  revert k. induction l as [|[]l IH]; intros k; cbn; [by split|..]; rewrite Forall_cons; cbn.
  - rewrite IH. tauto.
  - split; [done|]. by intros [].
Qed.

Lemma bac_fold_None c l :
  foldl (fun sum i => match i with
           | TokenTransfer asset _ _ amount =>
               if bac_matches c asset then s ← sum; checked i128 (s + amount) else sum
           | Generic _ _ => sum end) None l = None.
Proof. induction l as [|[asset ? ? a|? ?] l IH]; cbn; [done| |done]. by destruct (bac_matches c asset). Qed.

Lemma bac_sum_Some c l s :
  bac_sum c l = Some s -> s = sum_list (aggregate_amounts c l).
Proof.
  unfold bac_sum. enough (Hgen : forall s0, foldl (fun sum i => match i with
           | TokenTransfer asset _ _ amount =>
               if bac_matches c asset then s ← sum; checked i128 (s + amount) else sum
           | Generic _ _ => sum end) (Some s0) l = Some s -> s = s0 + sum_list (aggregate_amounts c l)).
  { intros Hs%Hgen. lia. }
  induction l as [|[asset ? ? a|? ?] l IH]; intros s0; cbn; [intros [= <-]; lia| |apply IH].
  destruct (bac_matches c asset); [|apply IH].
  destruct (checked i128 (s0 + a)) as [s1|] eqn:Hc; cbn; [|by rewrite bac_fold_None].
  apply checked_Some in Hc as [-> _]. intros Hs%IH. unfold aggregate_amounts in *. lia.
Qed.

Lemma bpt_loop_None c A k l :
  bpt_loop c A k l = None <-> Forall (fun a => a <= bpt_max_stroops c) (transfers_of A l).
Proof.
  revert k. induction l as [|[asset ? ? a|? ?] l IH]; intros k; cbn; [by split| |apply IH].
  destruct (bool_decide (asset_normalise asset = A)); cbn [negb]; [|apply IH].
  rewrite Forall_cons, <-(IH (S k)). destruct (Z.ltb_spec (bpt_max_stroops c) a).
  - split; [done|]. intros [? _]. lia.
  - tauto.
Qed.

Lemma bpp_loop_None c A used k s l :
  bpp_loop c A used k s l = None ->
  0 <= used -> 0 <= s <= hi i128 -> bpp_max_stroops c < hi i128 ->
  Forall (Z.le 0) (transfers_of A l) ->
  transfers_of A l = [] \/ used + s + sum_list (transfers_of A l) <= bpp_max_stroops c.
Proof.
  revert k s. induction l as [|[asset ? ? a|? ?] l IH]; intros k s; cbn; [by left| |apply IH].
  destruct (bool_decide (asset_normalise asset = A)); cbn [negb]; [|apply IH].
  destruct (_ <? _) eqn:Hlt; [done|]. apply Z.ltb_ge in Hlt.
  intros Hl Hu Hs Hm [Ha Hnn]%Forall_cons. right. cbn [sum_list].
  apply IH in Hl; [|done|unfold sat_add, clamp; cbn in *; lia|done|done].
  revert Hlt. unfold sat_add, clamp, transfers_of in *.
  destruct Hl as [Hl|Hl]; [rewrite Hl|]; cbn in *; lia.
Qed.

(** ** Permitted bundles *)

Section bundles.
Context `{Clk : Clock, Str : Strkey}.
Context (e : PolicyEngineV1 BoxCriterion) (tool : ToolDescriptor) (args : JsonValue)
  (profile : Profile).

(** The context of the second phase. *)
Definition final_ctx (l : list InnerOpDescriptor) (o : Overlay) : EvalContext :=
  bare_ctx e tool args profile VcReadOnly (Some {| inners := l; overlay := o |}).

Definition has_summing_cap (rule : PolicyRule BoxCriterion) : bool :=
  existsb (fun c => bool_decide (kind c ∈ VALUE_SUMMING_BUNDLE_CAPS)) (pr_criteria rule).

(** A permitted bundle went through both phases. *)
Lemma permitted_bundle bundle w d w' :
  evaluate_bundle e tool args profile bundle w = (Ok d, w') -> (forall r, d ≠ Deny r) ->
  (length (inners bundle) <= 50)%nat /\
  exists rule o esc w1 reqs,
    engine_rule e tool = Some rule /\
    bundle_phase1 e tool args profile rule (inners bundle) 0 ∅ None (inners bundle) w
      = (Ok (None, o, esc), w1) /\
    (has_summing_cap rule = true -> Forall (fun i => is_token_transfer i = true) (inners bundle)) /\
    outcomes (fun c => negb (is_bundle_level c)) (final_ctx (inners bundle) o) (pr_criteria rule)
      w1 w' reqs /\
    d = rule_outcome rule (kept esc reqs).
Proof.
  intros Hrun Hnd. unfold evaluate_bundle in Hrun.
  destruct (Z.ltb_spec DEFAULT_INNER_INVOCATION_COUNT_CAP (Z.of_nat (length (inners bundle)))).
  { injection Hrun as <- <-. by destruct (Hnd (InnerInvocationCountCapExceeded
      DEFAULT_INNER_INVOCATION_COUNT_CAP (u32_or_max (Z.of_nat (length (inners bundle)))))). }
  split; [unfold DEFAULT_INNER_INVOCATION_COUNT_CAP in *; lia|].
  destruct (engine_rule e tool) as [rule|] eqn:Hrule;
    [|injection Hrun as <- <-; by destruct (Hnd NoMatchingRule)].
  m_inv. destruct a as [[deny o] esc]. destruct deny as [r|]; [m_inv; by destruct (Hnd r)|].
  unfold bundle_phase2 in Hrun. apply M_bind_Ok in Hrun as (guard & w2 & Hguard & Hrun).
  destruct guard as [r|]; [m_inv; by destruct (Hnd r)|]. m_inv.
  destruct a as [[r|] esc']; [by destruct (Hnd r)|].
  apply criteria_loop_pass in Hrun1 as (reqs & Ho & ->).
  fold (has_summing_cap rule) in Hguard. fold (final_ctx (inners bundle) o) in Hguard, Ho.
  assert (w2 = w0 /\ (has_summing_cap rule = true ->
    Forall (fun i => is_token_transfer i = true) (inners bundle))) as [-> Hg].
  { destruct (has_summing_cap rule); [|by injection Hguard as <-].
    cbn in Hguard. injection Hguard as Hguard <-. split; [done|]. intros _.
    apply (first_generic_None 0). by destruct (first_generic 0 (inners bundle)). }
  exists rule, o, esc, w0, reqs. by split_and!.
Qed.

(** A bundle-level criterion of the rule of a permitted bundle passed. *)
Lemma bundle_level_passed bundle w d w' rule b :
  evaluate_bundle e tool args profile bundle w = (Ok d, w') -> (forall r, d ≠ Deny r) ->
  engine_rule e tool = Some rule -> b ∈ pr_criteria rule -> is_bundle_level b = true ->
  exists o w1 w2 d', evaluate_decision b (final_ctx (inners bundle) o) w1 = (Ok d', w2) /\
    forall r, d' ≠ Deny r.
Proof.
  intros Hrun Hnd Hrule Hin Hb.
  destruct (permitted_bundle _ _ _ _ Hrun Hnd) as (_ & rule' & o & esc & w1 & reqs & Hrule' & _ & _ & Ho & _).
  rewrite Hrule in Hrule'. injection Hrule' as <-.
  exists o. eapply outcomes_elem; [exact Ho|done|]. by apply negb_false_iff.
Qed.

(** A permitted bundle has at most 50 calls, and respects every bundle-level
    cap of its rule exactly: under any cap that sums value every call is a
    recognised token transfer; the transfers an aggregate cap covers add up to at
    most its maximum, without overflow; no single transfer of a per-transaction
    cap's asset is above it; the number of calls is at most every configured
    count. *)
Theorem bundle_caps_hold bundle w d w' rule :
  evaluate_bundle e tool args profile bundle w = (Ok d, w') -> (forall r, d ≠ Deny r) ->
  engine_rule e tool = Some rule ->
  (length (inners bundle) <= 50)%nat /\
  (has_summing_cap rule = true -> Forall (fun i => is_token_transfer i = true) (inners bundle)) /\
  (forall c, BoxBundleAggregateCap c ∈ pr_criteria rule ->
     sum_list (aggregate_amounts c (inners bundle)) <= bac_max_amount c) /\
  (forall c, BoxBundlePerTxCap c ∈ pr_criteria rule ->
     Forall (fun a => a <= bpt_max_stroops c)
       (transfers_of (asset_normalise (bpt_asset c)) (inners bundle))) /\
  (forall c, BoxInnerInvocationCountCap c ∈ pr_criteria rule ->
     Z.of_nat (length (inners bundle)) <= iic_max_count c).
Proof.
  intros Hrun Hnd Hrule.
  destruct (permitted_bundle _ _ _ _ Hrun Hnd) as (Hlen & rule' & o & esc & w1 & reqs & Hrule' & _ & Hg & _).
  rewrite Hrule in Hrule'. injection Hrule' as <-. split_and!; [done|done|..]; intros c Hin;
    destruct (bundle_level_passed _ _ _ _ _ _ Hrun Hnd Hrule Hin eq_refl)
      as (o' & w2 & w3 & d' & Hev & Hnd'); cbn in Hev; unfold default_evaluate_decision in Hev; m_inv.
  - unfold BundleAggregateCap_evaluate in Hev0. m_inv. cbn [ctx_bundle final_ctx bare_ctx inners] in Hev0.
    destruct (bac_sum c (inners bundle)) as [s|] eqn:Hs; [|done]. injection Hev0 as <-.
    apply bac_sum_Some in Hs as ->.
    destruct (Z.ltb_spec (bac_max_amount c) (sum_list (aggregate_amounts c (inners bundle)))); [|done].
    by destruct (Hnd' (BundleAggregateCapExceeded (bac_asset c) (bac_max_amount c)
      (sum_list (aggregate_amounts c (inners bundle))))).
  - unfold BundlePerTxCap_evaluate in Hev0. m_inv. cbn in Hnd'.
    apply (bpt_loop_None c _ 0). destruct (bpt_loop _ _ _ _) as [r|]; [by destruct (Hnd' r)|done].
  - unfold InnerInvocationCountCap_evaluate in Hev0. m_inv. cbn in Hnd'.
    unfold u32_or_max in Hnd'. rewrite checked_in_range in Hnd' by (split; cbn; lia). cbn in Hnd'.
    destruct (Z.ltb_spec (iic_max_count c) (Z.of_nat (length (inners bundle)))); [|done].
    by destruct (Hnd' (InnerInvocationCountCapExceeded (iic_max_count c)
      (Z.of_nat (length (inners bundle))))).
Qed.
End bundles.

(** ** The overlay *)

Section overlay.
Context `{Clk : Clock, !MonotoneClock, Str : Strkey}.
Context (e : PolicyEngineV1 BoxCriterion) (tool : ToolDescriptor) (args : JsonValue)
  (profile : Profile).
(** The owner of the window and its key. *)
Context (c : PerPeriodCapCriterion) (mx : Z).
#[local] Abbreviation A := (asset_normalise (ppc_asset c)).
#[local] Abbreviation key := (StateKey_new (en_profile_name e) 1 A (secs (ppc_window c))).
#[local] Abbreviation roll := (rolling key amount mx).
Context (Hwin : 0 <= secs (ppc_window c) * 1000 <= hi u64).
Context (Hmax : ppc_max_stroops c < hi i128).

Lemma debit_amounts_inner i effects :
  value_class_for_inner i = VcValue effects -> debit_amounts A (legs effects) = transfers_of A [i].
Proof.
  destruct i as [asset from to a|]; [|done]. intros [= <-]. unfold debit_amounts, transfers_of. cbn.
  rewrite asset_normalise_idem. by destruct (bool_decide _).
Qed.

Lemma transfers_of_cons i l : transfers_of A (i :: l) = transfers_of A [i] ++ transfers_of A l.
Proof. unfold transfers_of. cbn. by case_match. Qed.

Lemma transfers_of_app l1 l2 : transfers_of A (l1 ++ l2) = transfers_of A l1 ++ transfers_of A l2.
Proof. apply omap_app. Qed.

Lemma sum_list_app l1 l2 : sum_list (l1 ++ l2) = sum_list l1 + sum_list l2.
Proof. induction l1 as [|n l1 IH]; cbn; [done|]. rewrite IH. lia. Qed.

Lemma transfers_nonneg l : inners_nonneg l -> Forall (Z.le 0) (transfers_of A l).
Proof.
  induction 1 as [|i l Hi _ IH]; [constructor|]. rewrite transfers_of_cons. apply Forall_app.
  split; [|done]. destruct i as [asset ? ? a|]; [|constructor]. cbn in Hi. unfold transfers_of. cbn.
  destruct (bool_decide _); [|constructor]. constructor; [lia|constructor].
Qed.

Definition inner_ctx (all : list InnerOpDescriptor) (o : Overlay) (i : InnerOpDescriptor) : EvalContext :=
  bare_ctx e tool args profile (value_class_for_inner i) (Some {| inners := all; overlay := o |}).

(** The owner's check of one inner call counts what the bundle used before. *)
Lemma owner_check all o i w h T w' :
  inners_nonneg [i] -> 0 <= overlay_get o key <= hi i128 -> roll w h T ->
  evaluate_decision (BoxPerPeriodCap c) (inner_ctx all o i) w = (Ok Allow, w') ->
  exists T', T <= T' /\ roll w' h T' /\
    (transfers_of A [i] = [] \/
     measure amount (keep (live key T') h) + overlay_get o key + sum_list (transfers_of A [i])
       <= ppc_max_stroops c).
Proof.
  intros Hnn Ho Hro Hev. cbn in Hev. unfold default_evaluate_decision in Hev. m_inv.
  destruct a as [r|]; [done|]. clear Hev.
  unfold PerPeriodCap_evaluate, classify_value in Hev0.
  destruct i as [asset from to a|target fn].
  2: { cbn in Hev0. destruct (value_kind tool); injection Hev0 as <-; exists T; split_and!; auto; lia. }
  cbn [ctx_value inner_ctx bare_ctx value_class_for_inner single] in Hev0. m_inv.
  apply debit_loop_Ok in Hev1 as [_ ->]. rewrite record_loop_spec in Hev0. cbn [fst snd orb] in Hev0.
  rewrite (debit_amounts_inner (TokenTransfer asset from to a) _ eq_refl) in Hev0.
  case_bool_decide as Hd; cbn [negb] in Hev0.
  { m_inv. exists T. split_and!; [lia|done|by left]. }
  assert (Ht : transfers_of A [TokenTransfer asset from to a] = [a]).
  { revert Hd. unfold transfers_of. cbn. by destruct (bool_decide _). }
  rewrite Ht in *. cbn [foldl] in Hev0. unfold check_window in Hev0.
  eapply (rolling_probe key amount mx Hwin) in Hev0 as (T' & HT & Hro' & Hr); [|exact Hro].
  exists T'. split_and!; [done|done|]. right. specialize (Hr None eq_refl). cbn [fst] in Hr.
  unfold bundle_accumulated, amount_key in Hr. cbn [ctx_bundle inner_ctx bare_ctx overlay ctx_profile_name] in Hr.
  rewrite window_sum_nonneg in Hr.
  2: { apply Forall_keep. eapply Forall_impl; [apply (ro_hist _ _ _ _ _ _ Hro')|]. by intros ? (_ & ? & _). }
  destruct (_ <? _) eqn:Hlt in Hr; [done|]. apply Z.ltb_ge in Hlt.
  apply Forall_cons in Hnn as [Ha _]. cbn in Ha.
  assert (0 <= amounts (keep (live key T') h)).
  { apply amounts_nonneg, Forall_keep. eapply Forall_impl; [apply (ro_hist _ _ _ _ _ _ Hro')|].
    by intros ? (_ & ? & _). }
  rewrite measure_amount. unfold sat_add, clamp in Hlt. cbn [sum_list]. cbn in *. lia.
Qed.

(** Only the owner moves the overlay at the key. *)
Lemma accumulate_owner i o :
  in_range i128 (overlay_get o key) ->
  overlay_get (accumulate_overlay (BoxPerPeriodCap c) (bare_ctx e tool args profile VcReadOnly None) i o) key
    = sat_add i128 (overlay_get o key) (sum_list (transfers_of A [i])).
Proof.
  intros Hr.
  change (overlay_get (PerPeriodCap_accumulate_overlay c (bare_ctx e tool args profile VcReadOnly None) i o)
    key = sat_add i128 (overlay_get o key) (sum_list (transfers_of A [i]))).
  unfold PerPeriodCap_accumulate_overlay, transfers_of.
  destruct i as [asset from to a|]; [|by rewrite sat_add_0].
  cbn [omap list_omap]. destruct (decide (asset_normalise asset = A)) as [Ha|Ha].
  - rewrite !bool_decide_true by congruence. etrans; [apply overlay_get_accumulate|].
    cbn [sum_list]. by rewrite Z.add_0_r.
  - rewrite !bool_decide_false by congruence. by rewrite sat_add_0.
Qed.

Lemma accumulate_elsewhere b i o :
  owns_key (en_profile_name e) key b = false ->
  overlay_get (accumulate_overlay b (bare_ctx e tool args profile VcReadOnly None) i o) key
    = overlay_get o key.
Proof.
  destruct b as [| |c'|rl| | | | | | | | | | | |]; try done; cbn; intros Hk%bool_decide_eq_false.
  - destruct i as [asset from to a|]; [|done]. cbn. case_bool_decide; [|done].
    apply overlay_get_accumulate_ne. done.
  - by apply overlay_get_accumulate_ne.
Qed.

Lemma accumulate_all_key cs i o :
  filter (fun b => owns_key (en_profile_name e) key b = true) cs = [BoxPerPeriodCap c] ->
  in_range i128 (overlay_get o key) ->
  overlay_get (accumulate_all (bare_ctx e tool args profile VcReadOnly None) i cs o) key
    = sat_add i128 (overlay_get o key) (sum_list (transfers_of A [i])).
Proof.
  assert (Hrest : forall cs o, filter (fun b => owns_key (en_profile_name e) key b = true) cs = [] ->
    overlay_get (accumulate_all (bare_ctx e tool args profile VcReadOnly None) i cs o) key = overlay_get o key).
  { intros cs'. induction cs' as [|b cs' IH]; intros o' Hf; [done|]. unfold accumulate_all. cbn [foldl].
    destruct (owns_key (en_profile_name e) key b) eqn:Hown; [by rewrite filter_cons_True in Hf|].
    rewrite filter_cons_False in Hf by congruence. unfold accumulate_all in IH. rewrite IH by done.
    destruct (is_bundle_level b); [done|]. by apply accumulate_elsewhere. }
  revert o. induction cs as [|b cs IH]; intros o Hf Hr; [done|]. unfold accumulate_all in *. cbn [foldl].
  destruct (owns_key (en_profile_name e) key b) eqn:Hown.
  - rewrite filter_cons_True in Hf by done. injection Hf as -> Hf.
    rewrite Hrest by done. cbn [is_bundle_level BoxCriterion_criterion dispatch PerPeriodCap_criterion].
    by apply accumulate_owner.
  - rewrite filter_cons_False in Hf by congruence.
    set (o1 := if is_bundle_level b then o else
      accumulate_overlay b (bare_ctx e tool args profile VcReadOnly None) i o).
    assert (Hsame : overlay_get o1 key = overlay_get o key).
    { subst o1. destruct (is_bundle_level b); [done|]. by apply accumulate_elsewhere. }
    rewrite <-Hsame in Hr |- *. by apply (IH o1).
Qed.

(** The criteria of one inner call: the owner is among them. *)
Lemma inner_outcomes all o i cs w w' reqs h T :
  inners_nonneg [i] -> 0 <= overlay_get o key <= hi i128 ->
  BoxPerPeriodCap c ∈ cs -> roll w h T ->
  outcomes is_bundle_level (inner_ctx all o i) cs w w' reqs ->
  exists T', T <= T' /\ roll w' h T' /\
    (transfers_of A [i] = [] \/
     measure amount (keep (live key T') h) + overlay_get o key + sum_list (transfers_of A [i])
       <= ppc_max_stroops c).
Proof.
  intros Hnn Ho Hin Hro Hout. revert T Hro.
  assert (Hlater : forall w (cs : list BoxCriterion) w' reqs T, outcomes is_bundle_level (inner_ctx all o i) cs w w' reqs ->
    roll w h T -> exists T', T <= T' /\ roll w' h T').
  { intros w0 cs0 w0' reqs0 T Ho' Hro. eapply (criteria_loop_rolling key amount mx Hwin); [exact Hro|].
    apply (criteria_loop_pass is_bundle_level (inner_ctx all o i) None cs0 w0 (kept None reqs0) w0').
    by exists reqs0. }
  induction Hout as [w|b cs w w' reqs Hs Ho' IH|b cs w w1 w' reqs Hs Hev Ho' IH|
    b cs w w1 w' req reqs Hs Hev Ho' IH]; intros T Hro.
  - by apply elem_of_nil in Hin.
  - apply elem_of_cons in Hin as [<-|Hin]; [done|]. by apply IH.
  - apply elem_of_cons in Hin as [<-|Hin].
    + destruct (owner_check _ _ _ _ _ _ _ Hnn Ho Hro Hev) as (T1 & HT1 & Hro1 & Hroom).
      destruct (Hlater _ _ _ _ _ Ho' Hro1) as (T2 & HT2 & Hro2).
      exists T2. split_and!; [lia|done|]. destruct Hroom as [?|Hroom]; [by left|right].
      enough (measure amount (keep (live key T2) h) <= measure amount (keep (live key T1) h)) by lia.
      apply (live_measure_mono key amount Hwin); [|done].
      eapply Forall_impl; [apply (ro_hist _ _ _ _ _ _ Hro2)|]. by intros ? (_ & ? & _).
    + destruct (evaluate_rolling key amount mx Hwin _ _ _ _ _ _ _ Hro Hev) as (T1 & HT1 & Hro1).
      destruct (IH Hin _ Hro1) as (T2 & ? & ? & ?). exists T2. split_and!; [lia|done|done].
  - apply elem_of_cons in Hin as [<-|Hin].
    + exfalso. cbn in Hev. unfold default_evaluate_decision in Hev. m_inv. by destruct a.
    + destruct (evaluate_rolling key amount mx Hwin _ _ _ _ _ _ _ Hro Hev) as (T1 & HT1 & Hro1).
      destruct (IH Hin _ Hro1) as (T2 & ? & ? & ?). exists T2. split_and!; [lia|done|done].
Qed.

(** The bundle's transfers [l] fit beside the history at time [T]. *)
Definition fits (h : list StateEntry) (T : Z) (l : list InnerOpDescriptor) : Prop :=
  transfers_of A l = [] \/
  measure amount (keep (live key T) h) + sum_list (transfers_of A l) <= ppc_max_stroops c.

Lemma hist_nonneg w h T : roll w h T -> Forall (fun e => 0 <= amount e) h.
Proof.
  intros Hro. eapply Forall_impl; [apply (ro_hist _ _ _ _ _ _ Hro)|]. by intros ? (_ & ? & _).
Qed.

Lemma fits_later w h T T' l : roll w h T -> T <= T' -> fits h T l -> fits h T' l.
Proof.
  intros Hro HT [?|Hf]; [by left|right].
  pose proof (live_measure_mono key amount Hwin h T T' (hist_nonneg _ _ _ Hro) HT). lia.
Qed.

(** What already fits is the overlay, and within [i128]. *)
Lemma fits_overlay w h T l :
  roll w h T -> inners_nonneg l -> fits h T l -> 0 <= sum_list (transfers_of A l) <= hi i128.
Proof.
  intros Hro Hnn Hf. pose proof (sum_list_nonneg _ (transfers_nonneg l Hnn)). split; [done|].
  destruct Hf as [->|Hf]; [cbn; lia|].
  assert (0 <= measure amount (keep (live key T) h)); [|lia].
  rewrite measure_amount. apply amounts_nonneg, Forall_keep. by eapply hist_nonneg.
Qed.

Lemma phase1_fits rule all idx o esc l before w o' esc' w' h T :
  filter (fun b => owns_key (en_profile_name e) key b = true) (pr_criteria rule) = [BoxPerPeriodCap c] ->
  inners_nonneg before -> inners_nonneg l ->
  overlay_get o key = sum_list (transfers_of A before) -> fits h T before -> roll w h T ->
  bundle_phase1 e tool args profile rule all idx o esc l w = (Ok (None, o', esc'), w') ->
  exists T', T <= T' /\ roll w' h T' /\ fits h T' (before ++ l).
Proof.
  intros Hf Hb Hl. revert idx o esc before Hb w T.
  induction l as [|i l IH]; intros idx o esc before Hb w T Ho Hfit Hro; cbn [bundle_phase1].
  { intros Hrun. m_inv. exists T. rewrite app_nil_r. split_and!; [lia|done|done]. }
  apply Forall_cons in Hl as [Hi Hl]. intros Hrun. m_inv.
  destruct a as [[deny|] esc1]; [by m_inv|].
  apply criteria_loop_pass in Hrun0 as (reqs & Hout & _).
  pose proof (fits_overlay _ _ _ _ Hro Hb Hfit) as Hrange.
  assert (Hin : BoxPerPeriodCap c ∈ pr_criteria rule).
  { eapply list_elem_of_filter. rewrite Hf. by apply list_elem_of_singleton. }
  destruct (inner_outcomes all o i (pr_criteria rule) w w0 reqs h T) as (T1 & HT1 & Hro1 & Hroom);
    [by constructor|by rewrite Ho|exact Hin|exact Hro|exact Hout|].
  assert (Hfit1 : fits h T1 (before ++ [i])).
  { unfold fits. rewrite transfers_of_app, sum_list_app, <-Ho. destruct Hroom as [He|Hroom]; [|right; lia].
    rewrite He, app_nil_r, Ho. cbn [sum_list]. rewrite Z.add_0_r.
    exact (fits_later w h T T1 before Hro HT1 Hfit). }
  assert (Hb1 : inners_nonneg (before ++ [i])) by (apply Forall_app; split; [done|by constructor]).
  destruct (IH Hl (S idx) (accumulate_all (bare_ctx e tool args profile VcReadOnly None) i (pr_criteria rule) o)
    esc1 (before ++ [i]) Hb1 w0 T1) as (T2 & HT2 & Hro2 & Hfit2); [|done|done|done|].
  - rewrite accumulate_all_key; [|done|rewrite Ho; split; cbn in *; lia].
    pose proof (fits_overlay _ _ _ _ Hro1 Hb1 Hfit1) as Hr1.
    rewrite transfers_of_app, sum_list_app in Hr1 |- *. rewrite Ho.
    unfold sat_add. apply clamp_id. split; cbn in *; lia.
  - exists T2. rewrite <-app_assoc in Hfit2. split_and!; [lia|done|done].
Qed.

(** C3: a per-period cap bounds a bundle as a whole.  Let one per-period cap of
    the matching rule own its window.  When a bundle is permitted, what the
    window still holds at the end of the evaluation plus all the transfers of the
    asset in the bundle is at most the cap, however the amount is split over the
    inner calls: the overlay counts the earlier inner calls exactly, without
    overflow, and next to any other criteria. *)
Theorem bundle_window_cap bundle w d w' rule h T :
  engine_rule e tool = Some rule ->
  filter (fun b => owns_key (en_profile_name e) key b = true) (pr_criteria rule) = [BoxPerPeriodCap c] ->
  inners_nonneg (inners bundle) -> roll w h T ->
  evaluate_bundle e tool args profile bundle w = (Ok d, w') -> (forall r, d ≠ Deny r) ->
  exists T', T <= T' /\ roll w' h T' /\ fits h T' (inners bundle).
Proof.
  intros Hrule Hf Hnn Hro Hrun Hnd.
  destruct (permitted_bundle _ _ _ _ _ _ _ _ Hrun Hnd)
    as (_ & rule' & o & esc & w1 & reqs & Hrule' & Hp1 & _ & Hout & _).
  rewrite Hrule in Hrule'. injection Hrule' as <-.
  destruct (phase1_fits rule (inners bundle) 0 ∅ None (inners bundle) [] w o esc w1 h T)
    as (T1 & HT1 & Hro1 & Hfit); [done|constructor|done|done|by left|done|done|].
  assert (Hloop := proj2 (criteria_loop_pass _ _ esc _ _ _ _) (ex_intro _ reqs (conj Hout eq_refl))).
  destruct (criteria_loop_rolling key amount mx Hwin _ _ _ _ _ _ _ _ _ Hro1 Hloop) as (T2 & HT2 & Hro2).
  exists T2. split_and!; [lia|done|]. exact (fits_later w1 h T1 T2 _ Hro1 HT2 Hfit).
Qed.
End overlay.

(** ** Confirmed bundles and the per-call windows *)

(** The criteria that record nothing on the bundle path. *)
Definition silent_on_bundles (b : BoxCriterion) : bool :=
  match b with
  | BoxBundlePerPeriodCap _ | BoxBundleRateLimit _ => false
  | _ => true
  end.

Section unrecorded.
Context `{Clk : Clock, Str : Strkey}.

Lemma forM_silent cs ctx w :
  ctx_value ctx = VcReadOnly -> is_Some (ctx_bundle ctx) ->
  Forall (fun b => silent_on_bundles b = true) cs ->
  forM (fun b => record_confirmed b ctx) cs w = (Ok (replicate (length cs) []), w).
Proof.
  intros Hv [view Hb]. induction 1 as [|b cs Hs Hcs IH]; [done|]. cbn [forM length replicate].
  assert (Hr : record_confirmed b ctx w = (Ok [], w)).
  { destruct b; try done; cbn.
    - unfold PerPeriodCap_record_confirmed. by rewrite Hv.
    - unfold RateLimit_record_confirmed. by rewrite Hb. }
  unfold mbind, M_bind. by rewrite Hr, IH.
Qed.

(** A confirmed bundle is recorded only by the two bundle-level window
    criteria: under a rule whose windows are [per_period_cap] and [rate_limit],
    which phase 1 does check for every inner call, recording the bundle appends
    nothing and leaves the store as it is. *)
Lemma bundle_leaves_call_windows_empty (e : PolicyEngineV1 BoxCriterion) tool profile bundle rule w :
  engine_rule e tool = Some rule ->
  Forall (fun b => silent_on_bundles b = true) (pr_criteria rule) ->
  record_confirmed_bundle e tool profile bundle w = (Ok [], w).
Proof.
  intros Hrule Hs. unfold record_confirmed_bundle, record_rule. rewrite Hrule.
  unfold mbind, M_bind.
  rewrite (forM_silent _ (bare_ctx e tool JNull profile VcReadOnly (Some bundle)) w); [|done|done|done].
  cbn. f_equal. f_equal. by induction (length (pr_criteria rule)).
Qed.

(** Allowed, or sent to a human who may approve it. *)
Definition permits (d : Decision) : bool := match d with Deny _ => false | _ => true end.

(** Bundles evaluated and, when permitted, recorded, one after the other; the decisions. *)
Fixpoint run_bundles (e : PolicyEngineV1 BoxCriterion) tool args profile (l : list BundleView) (w : World)
  : list (result PolicyError Decision) * World :=
  match l with
  | [] => ([], w)
  | b :: l' =>
      let '(d, w1) := evaluate_bundle e tool args profile b w in
      let w2 := match d with Ok d => if permits d then snd (record_confirmed_bundle e tool profile b w1) else w1 | Err _ => w1 end in
      let '(ds, w') := run_bundles e tool args profile l' w2 in (d :: ds, w')
  end.

(** The same without recording anything. *)
Fixpoint evaluate_bundles (e : PolicyEngineV1 BoxCriterion) tool args profile (l : list BundleView) (w : World)
  : list (result PolicyError Decision) * World :=
  match l with
  | [] => ([], w)
  | b :: l' =>
      let '(d, w1) := evaluate_bundle e tool args profile b w in
      let '(ds, w') := evaluate_bundles e tool args profile l' w1 in (d :: ds, w')
  end.

(** C35: Bundles do not count against per-call windows.  Under a rule whose windows are [per_period_cap] and
    [rate_limit], let any sequence of bundles be evaluated and let every permitted one be
    recorded as confirmed.  The engine decides on each of them, and is left, exactly as if none had
    been recorded: what earlier bundles moved is not held against a later one, however
    many there are within the period. *)
Theorem bundles_escape_call_windows (e : PolicyEngineV1 BoxCriterion) tool args profile rule l w :
  engine_rule e tool = Some rule ->
  Forall (fun b => silent_on_bundles b = true) (pr_criteria rule) ->
  run_bundles e tool args profile l w = evaluate_bundles e tool args profile l w.
Proof.
  intros Hrule Hs. revert w. induction l as [|b l IH]; intros w; [done|]. cbn [run_bundles evaluate_bundles].
  destruct (evaluate_bundle e tool args profile b w) as [d w1].
  replace (match d with Ok _ => _ | Err _ => _ end) with w1; [by rewrite IH|].
  destruct d as [d|]; [|done]. destruct (permits d); [|done].
  by rewrite (bundle_leaves_call_windows_empty e tool profile b rule w1 Hrule Hs).
Qed.
End unrecorded.

(** ** Witnesses *)

Definition demo_multicall : ToolDescriptor := {|
  tool_name := "stellar_multicall"; destructive_hint := true; read_only_hint := false;
  chain_id_required := true; tool_chain_id := "stellar:testnet"; value_kind := TvkMovesValue
|}.

Definition demo_bundle (n : Z) : BundleView := {|
  inners := [TokenTransfer "CTOK" "GALICE" "GBOB" n; TokenTransfer "CTOK" "GALICE" "GBOB" n];
  overlay := ∅ |}.

Definition demo_token_cap : PerPeriodCapCriterion :=
  {| ppc_asset := "CTOK"; ppc_window := demo_window; ppc_max_stroops := 10 |}.

Definition demo_bundle_engine : PolicyEngineV1 BoxCriterion :=
  demo_engine "stellar_multicall" [BoxPerPeriodCap demo_token_cap].

Definition run_bundle (e : PolicyEngineV1 BoxCriterion) (bundle : BundleView)
  : World -> result PolicyError Decision * World :=
  @evaluate_bundle _ (@BoxCriterion_criterion demo_clock demo_strkey) e demo_multicall JNull
    demo_profile bundle.

Definition demo_bundle_rule : PolicyRule BoxCriterion := {|
  pr_match := {| rm_tool := "stellar_multicall"; rm_chain := "*" |};
  pr_criteria := [BoxPerPeriodCap demo_token_cap]; pr_decision := Allow;
  pr_allow_opaque_signing := false |}.

Definition demo_run_bundles (ns : list Z) : list (result PolicyError Decision) :=
  fst (@run_bundles demo_clock demo_strkey demo_bundle_engine demo_multicall JNull demo_profile (demo_bundle <$> ns) demo_world).

(** Under a cap of 10 per minute a bundle of 12 is refused, as the overlay counts both calls of it;
    three bundles of 10 within the minute pass. *)
Lemma bundles_escape_call_windows_witness :
  demo_run_bundles [6; 5; 5; 5] =
    [Ok (Deny (BundleDenied 1 (PerPeriodCapExceeded "CTOK" "1m" 10 6 6))); Ok Allow; Ok Allow; Ok Allow] /\
  @run_bundles demo_clock demo_strkey demo_bundle_engine demo_multicall JNull demo_profile (demo_bundle <$> [6; 5; 5; 5]) demo_world =
  @evaluate_bundles demo_clock demo_strkey demo_bundle_engine demo_multicall JNull demo_profile (demo_bundle <$> [6; 5; 5; 5]) demo_world.
Proof.
  split; [by vm_compute|].
  apply (@bundles_escape_call_windows demo_clock demo_strkey demo_bundle_engine demo_multicall JNull demo_profile demo_bundle_rule);
    [by vm_compute|by repeat constructor].
Defined.

Definition demo_aggregate : BundleAggregateCapCriterion :=
  {| bac_asset := Some "CTOK"; bac_max_amount := 10 |}.

Definition demo_aggregate_rule : PolicyRule BoxCriterion := {|
  pr_match := {| rm_tool := "stellar_multicall"; rm_chain := "*" |};
  pr_criteria := [BoxBundleAggregateCap demo_aggregate]; pr_decision := Allow;
  pr_allow_opaque_signing := false |}.

Lemma bundle_caps_hold_witness : sum_list (aggregate_amounts demo_aggregate (inners (demo_bundle 5))) <= 10.
Proof.
  destruct (@bundle_caps_hold demo_clock demo_strkey
    (demo_engine "stellar_multicall" [BoxBundleAggregateCap demo_aggregate]) demo_multicall JNull
    demo_profile (demo_bundle 5) demo_world Allow demo_world demo_aggregate_rule)
    as (_ & _ & Hagg & _).
  - by vm_compute.
  - done.
  - by vm_compute.
  - apply (Hagg demo_aggregate). by left.
Defined.

Lemma bundle_window_cap_witness :
  exists T', 0 <= T' /\
    @rolling demo_clock (StateKey_new "alice" 1 "CTOK" 60) amount 10
      (snd (run_bundle demo_bundle_engine (demo_bundle 5) demo_world)) [] T' /\
    fits demo_bundle_engine demo_token_cap [] T' (inners (demo_bundle 5)).
Proof.
  apply (@bundle_window_cap demo_clock demo_clock_mono demo_strkey demo_bundle_engine demo_multicall
    JNull demo_profile demo_token_cap 10) with (w := demo_world) (d := Allow)
    (rule := {| pr_match := {| rm_tool := "stellar_multicall"; rm_chain := "*" |};
                pr_criteria := [BoxPerPeriodCap demo_token_cap]; pr_decision := Allow;
                pr_allow_opaque_signing := false |}).
  - cbn. lia.
  - cbn. lia.
  - by vm_compute.
  - by vm_compute.
  - repeat constructor; cbn; lia.
  - apply (@rolling_init demo_clock demo_clock_mono); [lia|done].
  - by vm_compute.
  - done.
Defined.
