(* ===== verification/Nonce.v ===== *)
(** * Nonces of the two-step tools (stellar-agent-nonce, [mint.rs], [replay.rs],
      [error.rs]; stellar-agent-mcp, [tools/common.rs])

    A simulation mints a nonce for an envelope; the commit verifies its tag and
    consumes it in the replay window.  A nonce is 48 bytes: a random salt of 16
    and an HMAC tag of 32.  The hash, the MAC, base64 and the keyring are
    parameters; random bytes are arguments. *)

From S2P Require Import Prelude RustStr Bytes.
From stdpp Require Import options.
Set Default Proof Using "Type*".

Local Open Scope string_scope.
Local Open Scope list_scope.
Local Open Scope Z_scope.

(** ** Errors *)

(** [stellar-agent-core]'s [AuthError] *)
Inductive AuthError :=
| KeyringLocked
| KeyringPlatformError (detail : string)
| KeyringInteractiveSessionRequired
| KeyringNotFound (name : string)
| KeyringConfigInvalid (detail : string)
| HardwareUserRefused
| EnrolledSignerUnpinned (profile reason : string)
| EnrolledSignerMismatch (profile enrolled derived : string)
| SignerKeyMismatch (what expected got : string)
| SignerKindMismatch (signer_kind requested_primitive : string).

Inductive NonceError :=
| HmacMismatch
| Expired
| Replayed
| InvalidTool (tool : string)
| InvalidEnvelope
| ChainMismatch (expected got : string)
| TtlExceeded (max_ms requested_ms : Z)
| TtlTooShort (min_ms requested_ms : Z)
| KeyringError (e : AuthError)
| KeyTooShort (actual : Z)
| KeyTooLong (actual : Z)
| KeyMatchesOwnerPublicKey
| InputTooLong (field : string) (len : Z)
| SerialiseFailed (detail : string).

Definition NonceError_wire_code (e : NonceError) : string :=
  match e with
  | Replayed => "nonce.replayed"
  | Expired | HmacMismatch => "nonce.expired"
  | InvalidTool _ => "tool.unknown"
  | InvalidEnvelope => "nonce.invalid_envelope"
  | ChainMismatch _ _ => "nonce.chain_mismatch"
  | TtlExceeded _ _ => "nonce.ttl_exceeded"
  | TtlTooShort _ _ => "nonce.ttl_too_short"
  | KeyringError _ => "keyring.error"
  | KeyTooShort _ => "nonce.key_too_short"
  | KeyTooLong _ => "nonce.key_too_long"
  | KeyMatchesOwnerPublicKey => "validation.key_matches_owner_public_key"
  | InputTooLong _ _ => "nonce.input_too_long"
  | SerialiseFailed _ => "nonce.serialise_failed"
  end.

(** ** The nonce *)

Record Nonce := { inner : list Z }.

Definition salt (n : Nonce) : list Z := take 16 (inner n).
Definition tag (n : Nonce) : list Z := drop 16 (inner n).

(** ** The replay window ([replay.rs]) *)

Definition ReplayWindow : Type := gmap (list Z) Z.

Definition ReplayWindow_new : ReplayWindow := ∅.

Definition check_not_replayed (w : ReplayWindow) (nonce : list Z) : result NonceError unit :=
  match w !! nonce with Some _ => Err Replayed | None => Ok tt end.

Definition record (w : ReplayWindow) (nonce : list Z) (expiry_unix_ms : Z)
  : result NonceError unit * ReplayWindow :=
  match w !! nonce with
  | None => (Ok tt, <[nonce := expiry_unix_ms]> w)
  | Some _ => (Err Replayed, w)
  end.

Definition evict_expired (w : ReplayWindow) (now_unix_ms : Z) : ReplayWindow :=
  filter (fun e => now_unix_ms < snd e) w.

(** ** The mint ([mint.rs]) *)

Section mint.
Context `{!Sha2, !Base64}.

Definition to_base64 (n : Nonce) : string := base64_encode (inner n).

Definition from_base64 (s : string) : result NonceError Nonce :=
  bytes ← ok_or (SerialiseFailed "base64 decode error") (base64_decode s);
  if negb (length bytes =? 48)%nat
  then Err (SerialiseFailed ("expected 48 bytes, got " +:+ show_nat (length bytes)))
  else Ok {| inner := bytes |}.

(** What the mint reads from the profile and from the keyring: the two owner-key
    checks answer [None] when they do not object. *)
Record NonceMint := {
  chain_id : string;
  max_ttl_ms : Z;
  owner_key_coordinate : bool;
  get_password : result AuthError string;
  owner_public_key : list Z -> option NonceError;
}.

Definition MAX_TTL_MS : Z := 300000.
Definition MIN_TTL_MS : Z := 30000.

Definition load_key (m : NonceMint) : result NonceError (list Z) :=
  _ ← (if owner_key_coordinate m then Err KeyMatchesOwnerPublicKey else Ok tt);
  raw ← map_err KeyringError (get_password m);
  decoded ← ok_or (SerialiseFailed "nonce key base64 decode error") (base64_decode raw);
  if (length decoded <? 32)%nat then Err (KeyTooShort (Z.of_nat (length decoded)))
  else if (32 <? length decoded)%nat then Err (KeyTooLong (Z.of_nat (length decoded)))
  else match owner_public_key m decoded with
       | Some e => Err e
       | None => Ok decoded
       end.

Definition length_prefix_u32 (field : string) (len : Z) : result NonceError Z :=
  ok_or (InputTooLong field len) (checked u32 len).

(** The bytes the MAC is updated with, in order. *)
Definition hmac_input (boot_nonce envelope_hash : list Z) (expiry_unix_ms tool_len chain_len : Z)
    (tool_name chain : string) : list Z :=
  boot_nonce ++ envelope_hash ++ be_bytes 8 expiry_unix_ms
  ++ be_bytes 4 tool_len ++ as_bytes tool_name ++ be_bytes 4 chain_len ++ as_bytes chain.

(** HMAC takes a key of any length, so its constructor does not fail. *)
Definition compute_tag (key boot_nonce envelope_xdr : list Z) (expiry_unix_ms : Z)
    (tool_name chain : string) : result NonceError (list Z) :=
  let envelope_hash := sha256 envelope_xdr in
  tool_len ← length_prefix_u32 "tool_name" (Z.of_nat (String.length tool_name));
  chain_len ← length_prefix_u32 "chain_id" (Z.of_nat (String.length chain));
  Ok (hmac_sha256 key
        (hmac_input boot_nonce envelope_hash expiry_unix_ms tool_len chain_len tool_name chain)).

Definition mint (m : NonceMint) (boot_nonce salt : list Z) (is_registered : string -> bool)
    (envelope_xdr : list Z) (now_unix_ms expiry_unix_ms : Z) (tool_name chain : string)
  : result NonceError Nonce :=
  if negb (is_registered tool_name) then Err (InvalidTool tool_name) else
  if bool_decide (envelope_xdr = []) then Err InvalidEnvelope else
  if negb (bool_decide (chain = chain_id m)) then Err (ChainMismatch (chain_id m) chain) else
  ttl ← ok_or Expired (checked u64 (expiry_unix_ms - now_unix_ms));
  if max_ttl_ms m <? ttl then Err (TtlExceeded (max_ttl_ms m) ttl) else
  if ttl <? MIN_TTL_MS then Err (TtlTooShort MIN_TTL_MS ttl) else
  key ← load_key m;
  tag ← compute_tag key boot_nonce envelope_xdr expiry_unix_ms tool_name chain;
  Ok {| inner := salt ++ tag |}.

(** The values a nonce is presented with. *)
Record Presented := {
  p_nonce : Nonce;
  p_envelope_xdr : list Z;
  p_expiry_unix_ms : Z;
  p_tool_name : string;
  p_chain_id : string;
  p_now_unix_ms : Z;
}.

(** The checks of the tag, after the window check in [verify] and alone in
    [verify_hmac_only]. *)
Definition check_tag (m : NonceMint) (boot_nonce : list Z) (p : Presented)
  : result NonceError unit :=
  key ← load_key m;
  recomputed ← compute_tag key boot_nonce (p_envelope_xdr p) (p_expiry_unix_ms p)
                 (p_tool_name p) (p_chain_id p);
  if negb (bool_decide (recomputed = tag (p_nonce p))) then Err HmacMismatch else Ok tt.

Definition check_time_and_chain (m : NonceMint) (p : Presented) : result NonceError unit :=
  if p_expiry_unix_ms p <=? p_now_unix_ms p then Err Expired else
  if negb (bool_decide (p_chain_id p = chain_id m))
  then Err (ChainMismatch (chain_id m) (p_chain_id p)) else Ok tt.

Definition verify (m : NonceMint) (boot_nonce : list Z) (p : Presented) (w : ReplayWindow)
  : result NonceError unit * ReplayWindow :=
  match (_ ← check_time_and_chain m p;
         _ ← check_not_replayed w (inner (p_nonce p));
         check_tag m boot_nonce p) with
  | Err e => (Err e, w)
  | Ok _ => record w (inner (p_nonce p)) (p_expiry_unix_ms p)
  end.

Definition verify_hmac_only (m : NonceMint) (boot_nonce : list Z) (p : Presented)
  : result NonceError unit :=
  _ ← check_time_and_chain m p;
  check_tag m boot_nonce p.

Definition record_verified_nonce (w : ReplayWindow) (n : Nonce) (expiry_unix_ms : Z)
  : result NonceError unit * ReplayWindow := record w (inner n) expiry_unix_ms.

(** [commit_envelope_and_verify_nonce] of the MCP server: the tag first, then,
    under the lock of the window, eviction and consumption. *)
Definition commit_envelope_and_verify_nonce (m : NonceMint) (boot_nonce : list Z) (p : Presented)
    (w : ReplayWindow) : result NonceError unit * ReplayWindow :=
  match verify_hmac_only m boot_nonce p with
  | Err e => (Err e, w)
  | Ok _ => record_verified_nonce (evict_expired w (p_now_unix_ms p)) (p_nonce p) (p_expiry_unix_ms p)
  end.
End mint.

(** ** Lemmas *)

(** The length prefixes make the MAC input unambiguous. *)
Lemma hmac_input_inj b1 b2 h1 h2 e1 e2 t1 t2 c1 c2 :
  length b1 = length b2 -> length h1 = length h2 ->
  in_range u64 e1 -> in_range u64 e2 ->
  in_range u32 (Z.of_nat (String.length t1)) -> in_range u32 (Z.of_nat (String.length t2)) ->
  hmac_input b1 h1 e1 (Z.of_nat (String.length t1)) (Z.of_nat (String.length c1)) t1 c1 =
  hmac_input b2 h2 e2 (Z.of_nat (String.length t2)) (Z.of_nat (String.length c2)) t2 c2 ->
  b1 = b2 /\ h1 = h2 /\ e1 = e2 /\ t1 = t2 /\ c1 = c2.
Proof.
  unfold hmac_input, in_range. cbn [lo hi u64 u32]. intros Hb Hh He1 He2 Ht1 Ht2 H.
  apply app_inj_1 in H as [-> H]; [|done]. apply app_inj_1 in H as [-> H]; [|done].
  apply app_inj_1 in H as [He H]; [|by rewrite !be_bytes_length].
  apply app_inj_1 in H as [Ht H]; [|by rewrite !be_bytes_length].
  apply be_bytes_inj in He as ->; [|cbn; lia..]. apply be_bytes_inj in Ht; [|cbn; lia..].
  apply app_inj_1 in H as [->%as_bytes_inj H]; [|rewrite !as_bytes_length; lia].
  by apply app_inj_1 in H as [_ ->%as_bytes_inj]; [|by rewrite !be_bytes_length].
Qed.

(** ** Verification *)

Section verify.
Context `{NC : !Sha2, NB : !Base64}.

Lemma compute_tag_Ok key boot env expiry tool chain t :
  compute_tag key boot env expiry tool chain = Ok t <->
  in_range u32 (Z.of_nat (String.length tool)) /\ in_range u32 (Z.of_nat (String.length chain)) /\
  t = hmac_sha256 key (hmac_input boot (sha256 env) expiry
        (Z.of_nat (String.length tool)) (Z.of_nat (String.length chain)) tool chain).
Proof.
  unfold compute_tag, length_prefix_u32. rewrite res_bind_Ok. setoid_rewrite res_bind_Ok.
  setoid_rewrite ok_or_Ok. setoid_rewrite checked_Some. split.
  - by intros (? & [-> ?] & ? & [-> ?] & [= <-]).
  - intros (? & ? & ->). eauto 10.
Qed.

(** What a presented nonce must satisfy, apart from being fresh. *)
Definition authentic (m : NonceMint) (boot : list Z) (p : Presented) : Prop :=
  p_now_unix_ms p < p_expiry_unix_ms p /\ p_chain_id p = chain_id m /\
  exists key, load_key m = Ok key /\
    compute_tag key boot (p_envelope_xdr p) (p_expiry_unix_ms p) (p_tool_name p) (p_chain_id p)
      = Ok (tag (p_nonce p)).

Lemma check_time_Ok m p :
  check_time_and_chain m p = Ok tt <->
  p_now_unix_ms p < p_expiry_unix_ms p /\ p_chain_id p = chain_id m.
Proof.
  unfold check_time_and_chain.
  destruct (Z.leb_spec (p_expiry_unix_ms p) (p_now_unix_ms p)); [by split; [|lia]|].
  case_bool_decide; naive_solver.
Qed.

Lemma check_tag_Ok m boot p :
  check_tag m boot p = Ok tt <->
  exists key, load_key m = Ok key /\
    compute_tag key boot (p_envelope_xdr p) (p_expiry_unix_ms p) (p_tool_name p) (p_chain_id p)
      = Ok (tag (p_nonce p)).
Proof.
  unfold check_tag. split.
  - intros (key & Hk & (t & Ht & H)%res_bind_Ok)%res_bind_Ok. exists key. split; [done|].
    rewrite Ht. case_bool_decide; [by subst|done].
  - intros (key & Hk & Ht). rewrite Hk. cbn [mbind result_bind]. rewrite Ht.
    cbn [mbind result_bind]. by rewrite bool_decide_true.
Qed.

Lemma verify_hmac_only_Ok m boot p : verify_hmac_only m boot p = Ok tt <-> authentic m boot p.
Proof.
  unfold verify_hmac_only, authentic. rewrite res_bind_Ok. split.
  - intros ([] & [? ?]%check_time_Ok & ?%check_tag_Ok). done.
  - intros (? & ? & ?). exists tt. split; [by apply check_time_Ok|by apply check_tag_Ok].
Qed.

Lemma record_Ok w n e w' :
  record w n e = (Ok tt, w') <-> w !! n = None /\ w' = <[n := e]> w.
Proof. unfold record. destruct (w !! n); naive_solver. Qed.

Lemma commit_Ok m boot p w w' :
  commit_envelope_and_verify_nonce m boot p w = (Ok tt, w') <->
  authentic m boot p /\
  evict_expired w (p_now_unix_ms p) !! inner (p_nonce p) = None /\
  w' = <[inner (p_nonce p) := p_expiry_unix_ms p]> (evict_expired w (p_now_unix_ms p)).
Proof.
  unfold commit_envelope_and_verify_nonce. rewrite <- verify_hmac_only_Ok, <- record_Ok.
  destruct (verify_hmac_only m boot p) as [[]|]; naive_solver.
Qed.

Lemma evict_lookup w now n e :
  evict_expired w now !! n = Some e <-> w !! n = Some e /\ now < e.
Proof. unfold evict_expired. apply map_lookup_filter_Some. Qed.

(** The MAC input a nonce was presented with. *)
Definition presented_input (boot : list Z) (p : Presented) : list Z :=
  hmac_input boot (sha256 (p_envelope_xdr p)) (p_expiry_unix_ms p)
    (Z.of_nat (String.length (p_tool_name p))) (Z.of_nat (String.length (p_chain_id p)))
    (p_tool_name p) (p_chain_id p).

(** Two inputs are a MAC collision under a key. *)
Definition mac_collision (key x y : list Z) : Prop := x ≠ y /\ hmac_sha256 key x = hmac_sha256 key y.

Lemma authentic_tag m boot p :
  authentic m boot p ->
  exists key, load_key m = Ok key /\ tag (p_nonce p) = hmac_sha256 key (presented_input boot p) /\
    in_range u32 (Z.of_nat (String.length (p_tool_name p))).
Proof. intros (_ & _ & key & Hk & (Ht & _ & ->)%compute_tag_Ok). by exists key. Qed.

(** A sequence of commits on one server. *)
Fixpoint run_commits (m : NonceMint) (boot : list Z) (ps : list Presented) (w : ReplayWindow)
  : list (result NonceError unit) :=
  match ps with
  | [] => []
  | p :: ps' =>
      let '(r, w') := commit_envelope_and_verify_nonce m boot p w in r :: run_commits m boot ps' w'
  end.

(** A consumed nonce stays in the window until its expiry has passed. *)
Lemma consumed_until_expiry m boot n e ps w T j q :
  w !! n = Some e \/ e <= T ->
  StronglySorted (fun p q => p_now_unix_ms p <= p_now_unix_ms q) ps ->
  Forall (fun p => T <= p_now_unix_ms p) ps ->
  ps !! j = Some q -> run_commits m boot ps w !! j = Some (Ok tt) -> inner (p_nonce q) = n ->
  authentic m boot q /\ e < p_expiry_unix_ms q.
Proof.
  revert w T j. induction ps as [|p ps IH]; intros w T j Hinv Hsort Htime; [done|].
  apply StronglySorted_inv in Hsort as [Hsort Hp]. apply Forall_cons in Htime as [HT Htime].
  cbn [run_commits].
  destruct (commit_envelope_and_verify_nonce m boot p w) as [r w'] eqn:Hc.
  destruct j as [|j]; cbn; intros Hq Hok Hn.
  - simplify_eq. apply commit_Ok in Hc as (Ha & Hnone & _). split; [done|].
    destruct Ha as (Hexp & _). destruct Hinv as [Hin|]; [|lia].
    destruct (decide (p_now_unix_ms q < e)) as [Hlt|]; [|lia].
    by rewrite (proj2 (evict_lookup _ _ _ _) (conj Hin Hlt)) in Hnone.
  - eapply (IH w' (p_now_unix_ms p)); [|done..].
    destruct (decide (e <= p_now_unix_ms p)) as [|Hlt]; [by right|left].
    destruct Hinv as [Hin|]; [|lia].
    assert (evict_expired w (p_now_unix_ms p) !! n = Some e) as Hev by (apply evict_lookup; split; [done|lia]).
    unfold commit_envelope_and_verify_nonce, record_verified_nonce, record in Hc.
    destruct (verify_hmac_only m boot p) as [[]|]; [|by simplify_eq].
    destruct (evict_expired w (p_now_unix_ms p) !! inner (p_nonce p)) eqn:Hl; simplify_eq; [done|].
    etransitivity; [apply lookup_insert_ne|done]. intros E. by rewrite E, Hev in Hl.
Qed.
End verify.

Section laws.
Context `{NC : !Sha2, NL : !Sha2Laws, NB : !Base64}.

Lemma presented_input_inj b1 b2 p q :
  length b1 = length b2 -> in_range u64 (p_expiry_unix_ms p) -> in_range u64 (p_expiry_unix_ms q) ->
  in_range u32 (Z.of_nat (String.length (p_tool_name p))) ->
  in_range u32 (Z.of_nat (String.length (p_tool_name q))) ->
  presented_input b1 p = presented_input b2 q ->
  b1 = b2 /\ sha256 (p_envelope_xdr p) = sha256 (p_envelope_xdr q) /\
  p_expiry_unix_ms p = p_expiry_unix_ms q /\ p_tool_name p = p_tool_name q.
Proof.
  intros. destruct (hmac_input_inj b1 b2 (sha256 (p_envelope_xdr p)) (sha256 (p_envelope_xdr q))
    (p_expiry_unix_ms p) (p_expiry_unix_ms q) (p_tool_name p) (p_tool_name q) (p_chain_id p)
    (p_chain_id q)) as (? & ? & ? & ? & _); rewrite ?sha256_length; done.
Qed.

(** C30: the same nonce is not accepted twice.  In any sequence of commits on a
    clock that does not go back, two accepted commits with the same 48 bytes
    would be two different MAC inputs, the later with a later expiry, under the
    same tag: a collision of the MAC. *)
Theorem nonce_single_use m boot ps w i j p q :
  StronglySorted (fun p q => p_now_unix_ms p <= p_now_unix_ms q) ps ->
  (i < j)%nat -> ps !! i = Some p -> ps !! j = Some q ->
  in_range u64 (p_expiry_unix_ms p) -> in_range u64 (p_expiry_unix_ms q) ->
  run_commits m boot ps w !! i = Some (Ok tt) -> run_commits m boot ps w !! j = Some (Ok tt) ->
  p_nonce p = p_nonce q ->
  exists key, load_key m = Ok key /\
    mac_collision key (presented_input boot p) (presented_input boot q).
Proof.
  revert w i j. induction ps as [|p0 ps IH]; intros w i j Hsort Hij Hp Hq Hep Heq Hri Hrj Hpq; [done|].
  apply StronglySorted_inv in Hsort as [Hsort H0]. destruct j as [|j]; [lia|].
  cbn [run_commits] in Hri, Hrj.
  destruct (commit_envelope_and_verify_nonce m boot p0 w) as [r w'] eqn:Hc.
  destruct i as [|i]; cbn in *; [|eapply (IH w' i j); eauto with lia].
  simplify_eq. apply commit_Ok in Hc as (Ha & _ & ->).
  destruct (consumed_until_expiry m boot (inner (p_nonce p)) (p_expiry_unix_ms p) ps
    (<[inner (p_nonce p) := p_expiry_unix_ms p]> (evict_expired w (p_now_unix_ms p)))
    (p_now_unix_ms p) j q) as [Hb Hlt]; [|done..|by rewrite Hpq|].
  { left. apply lookup_insert_eq. }
  destruct (authentic_tag m boot p Ha) as (key & Hk & Htp & Hp32).
  destruct (authentic_tag m boot q Hb) as (key' & Hk' & Htq & Hq32).
  assert (key' = key) as -> by congruence. exists key. split; [done|]. rewrite Hpq, Htq in Htp. split; [|congruence]. intros E.
  apply presented_input_inj in E as (_ & _ & ? & _); [lia|done..].
Qed.

Lemma mint_Ok m boot salt reg env now expiry tool chain n :
  mint m boot salt reg env now expiry tool chain = Ok n ->
  reg tool = true /\ env ≠ [] /\ chain = chain_id m /\
  0 <= expiry - now /\ MIN_TTL_MS <= expiry - now <= max_ttl_ms m /\
  exists key t, load_key m = Ok key /\ compute_tag key boot env expiry tool chain = Ok t /\
    n = {| inner := salt ++ t |}.
Proof using NC NB.
  unfold mint. destruct (reg tool); [|done]. cbn [negb].
  case_bool_decide; [done|]. case_bool_decide as Hch; [|done]. cbn [negb].
  intros (ttl & [-> Hr]%ok_or_Ok%checked_Some & Hm)%res_bind_Ok.
  destruct (Z.ltb_spec (max_ttl_ms m) (expiry - now)); [done|].
  destruct (Z.ltb_spec (expiry - now) MIN_TTL_MS); [done|].
  apply res_bind_Ok in Hm as (key & Hk & (t & Ht & [= <-])%res_bind_Ok).
  destruct Hr as [Hlo _]. change (lo u64) with 0 in Hlo. do 4 (split; [done|]). split; [done|]. by exists key, t.
Qed.

(** The presentation of a nonce with the values it was minted for. *)
Definition presented_as (n : Nonce) (env : list Z) (expiry : Z) (tool chain : string) (now : Z)
  : Presented :=
  {| p_nonce := n; p_envelope_xdr := env; p_expiry_unix_ms := expiry; p_tool_name := tool;
     p_chain_id := chain; p_now_unix_ms := now |}.

(** A minted nonce can be used.  Minting succeeds only for a registered tool,
    a non-empty envelope and a lifetime between 30 seconds and the maximum; the
    nonce, presented with the same values before its expiry, is accepted if it
    was not consumed before, and is then in the replay window. *)
Theorem minted_nonce_commits m boot salt reg env now expiry tool chain n :
  length salt = 16%nat ->
  mint m boot salt reg env now expiry tool chain = Ok n ->
  reg tool = true /\ env ≠ [] /\ MIN_TTL_MS <= expiry - now <= max_ttl_ms m /\
  forall t w, t < expiry -> w !! inner n = None ->
    commit_envelope_and_verify_nonce m boot (presented_as n env expiry tool chain t) w =
      (Ok tt, <[inner n := expiry]> (evict_expired w t)).
Proof using NC NB.
  intros Hs (Hreg & Henv & Hch & _ & Httl & key & tg & Hk & Ht & ->)%mint_Ok.
  do 3 (split; [done|]). intros t w Hlt Hw. apply commit_Ok. split_and!; [|cbn|done].
  - split_and!; [done|done|]. exists key. split; [done|]. unfold tag, presented_as. cbn.
    by rewrite drop_app_length' by done.
  - destruct (evict_expired w t !! (salt ++ tg)) eqn:E; [|done].
    apply evict_lookup in E as [E _]. cbn in Hw. congruence.
Qed.

(** A nonce is bound to what it was minted for: the process, the envelope,
    the expiry and the tool.  An accepted presentation of a minted nonce has the
    same values, or it exhibits a collision of the MAC or of the hash, at the
    very inputs of the two computations. *)
Theorem nonce_binding m boot boot' salt reg env now expiry tool chain n p :
  length salt = 16%nat -> length boot = length boot' ->
  in_range u64 expiry -> in_range u64 (p_expiry_unix_ms p) ->
  mint m boot salt reg env now expiry tool chain = Ok n ->
  p_nonce p = n -> verify_hmac_only m boot' p = Ok tt ->
  (boot' = boot /\ p_envelope_xdr p = env /\ p_expiry_unix_ms p = expiry /\
   p_tool_name p = tool /\ p_chain_id p = chain) \/
  (p_envelope_xdr p ≠ env /\ sha256 (p_envelope_xdr p) = sha256 env) \/
  (exists key, load_key m = Ok key /\
     mac_collision key (presented_input boot' p)
       (presented_input boot (presented_as n env expiry tool chain now))).
Proof.
  intros Hs Hb He Hep (_ & _ & Hch & _ & _ & key & tg & Hk & Ht & ->)%mint_Ok Hn
    Ha%verify_hmac_only_Ok.
  destruct (authentic_tag _ _ _ Ha) as (key' & Hk' & Htag & Ht32).
  assert (key' = key) as -> by congruence.
  destruct Ha as (_ & Hpc & _). rewrite Hn in Htag. subst chain.
  apply compute_tag_Ok in Ht as (Hl & _ & ->). unfold tag in Htag. cbn [inner] in Htag.
  rewrite drop_app_length' in Htag by done.
  set (q := presented_as _ env expiry tool (chain_id m) now).
  destruct (decide (presented_input boot' p = presented_input boot q)) as [E|E].
  - apply presented_input_inj in E as (-> & Hsha & Hex & Htl); [|done..]. cbn in Hsha, Hex, Htl.
    destruct (decide (p_envelope_xdr p = env)); [left|right; left]; done.
  - right; right. exists key. split; [done|]. split; [done|]. by rewrite <- Htag.
Qed.

(** The salt is not authenticated: replacing the salt of an accepted nonce
    gives other 48 bytes under the same tag, which a second commit of the same
    envelope accepts, as the replay window does not hold them. *)
Theorem resalted_nonce_is_accepted m boot p w w1 salt' :
  commit_envelope_and_verify_nonce m boot p w = (Ok tt, w1) ->
  length salt' = 16%nat -> salt' ++ tag (p_nonce p) ≠ inner (p_nonce p) ->
  w !! (salt' ++ tag (p_nonce p)) = None ->
  exists w2, commit_envelope_and_verify_nonce m boot
    (presented_as {| inner := salt' ++ tag (p_nonce p) |} (p_envelope_xdr p) (p_expiry_unix_ms p)
       (p_tool_name p) (p_chain_id p) (p_now_unix_ms p)) w1 = (Ok tt, w2).
Proof using NC NB.
  intros (Ha & _ & ->)%commit_Ok Hs Hne Hw. eexists. apply commit_Ok. split_and!; [|cbn|done].
  - destruct Ha as (? & ? & key & Hk & Ht). split_and!; [done|done|]. exists key. split; [done|].
    unfold tag at 1, presented_as. cbn. rewrite drop_app_length' by done. exact Ht.
  - destruct (evict_expired _ _ !! _) as [e|] eqn:E; [|done]. exfalso.
    apply evict_lookup in E as [E _].
    assert (evict_expired w (p_now_unix_ms p) !! (salt' ++ tag (p_nonce p)) = Some e) as [E' _]%evict_lookup.
    { rewrite <- E. symmetry. by apply lookup_insert_ne. }
    congruence.
Qed.
End laws.

(** ** A demonstration *)

#[local] Existing Instances demo_sha2 demo_sha2_laws.

#[local] Instance blind_base64 : Base64 := {|
  base64_encode x := EmptyString;
  base64_decode s := Some (replicate 32 1);
|}.

Definition demo_mint : NonceMint := {|
  chain_id := "stellar:testnet";
  max_ttl_ms := MAX_TTL_MS;
  owner_key_coordinate := false;
  get_password := Ok "key";
  owner_public_key _ := None;
|}.

Definition demo_boot : list Z := replicate 16 5.
Definition demo_salt : list Z := replicate 16 9.

#[local] Abbreviation demo_minted :=
  (mint demo_mint demo_boot demo_salt (fun _ => true) [1; 2] 1000 61000
     "stellar_pay" "stellar:testnet").

Definition demo_nonce : Nonce :=
  match demo_minted with Ok n => n | Err _ => {| inner := [] |} end.

Definition demo_presented (now : Z) : Presented :=
  presented_as demo_nonce [1; 2] 61000 "stellar_pay" "stellar:testnet" now.

Lemma minted_nonce_commits_witness :
  MIN_TTL_MS <= 61000 - 1000 <= max_ttl_ms demo_mint /\
  commit_envelope_and_verify_nonce demo_mint demo_boot (demo_presented 2000) ∅ =
    (Ok tt, <[inner demo_nonce := 61000]> (evict_expired ∅ 2000)).
Proof.
  destruct (minted_nonce_commits demo_mint demo_boot demo_salt
    (fun _ => true) [1; 2] 1000 61000 "stellar_pay" "stellar:testnet" demo_nonce) as (_ & _ & Httl & Hc);
    [done|by vm_compute|]. split; [exact Httl|]. by apply (Hc 2000 ∅).
Defined.

Lemma nonce_binding_witness :
  (demo_boot = demo_boot /\ [1; 2] = [1; 2] /\ 61000 = 61000 /\ "stellar_pay" = "stellar_pay" /\
   "stellar:testnet" = "stellar:testnet") \/
  ([1; 2] ≠ [1; 2] /\ sha256 [1; 2] = sha256 [1; 2]) \/
  (exists key, load_key demo_mint = Ok key /\
     mac_collision key
       (presented_input demo_boot (demo_presented 2000))
       (presented_input demo_boot (demo_presented 1000))).
Proof.
  apply (nonce_binding demo_mint demo_boot demo_boot demo_salt
    (fun _ => true) [1; 2] 1000 61000 "stellar_pay" "stellar:testnet" demo_nonce
    (demo_presented 2000)); by vm_compute.
Defined.

(** The demonstration MAC depends on the key and on the last byte only. *)
Lemma demo_authentic expiry now :
  now < expiry ->
  authentic demo_mint demo_boot
    (presented_as demo_nonce [1; 2] expiry "stellar_pay" "stellar:testnet" now).
Proof.
  intros Hlt. split_and!; [done|done|]. exists (replicate 32 1). split; [done|].
  apply (proj2 (compute_tag_Ok _ _ _ _ _ _ _)). split_and!; [by vm_compute..|].
  cbn [presented_as p_nonce p_envelope_xdr p_expiry_unix_ms p_tool_name p_chain_id].
  unfold hmac_sha256, demo_sha2, hmac_input. rewrite !app_assoc.
  change (as_bytes "stellar:testnet")
    with (as_bytes "stellar:testne" ++ [116]). rewrite app_assoc.
  unfold be_val at 2. rewrite foldl_app. cbn [foldl]. rewrite Z.add_comm, Z.mod_add by done.
  by vm_compute.
Qed.

Lemma demo_commit expiry now w :
  now < expiry -> evict_expired w now !! inner demo_nonce = None ->
  commit_envelope_and_verify_nonce demo_mint demo_boot
    (presented_as demo_nonce [1; 2] expiry "stellar_pay" "stellar:testnet" now) w =
    (Ok tt, <[inner demo_nonce := expiry]> (evict_expired w now)).
Proof. intros Hlt Hw. apply commit_Ok. split_and!; [by apply demo_authentic|done|done]. Qed.

Lemma resalted_nonce_is_accepted_witness :
  exists w1 w2,
    commit_envelope_and_verify_nonce demo_mint demo_boot (demo_presented 2000) ∅
      = (Ok tt, w1) /\
    commit_envelope_and_verify_nonce demo_mint demo_boot
      (presented_as {| inner := replicate 16 8 ++ tag demo_nonce |} [1; 2] 61000 "stellar_pay"
         "stellar:testnet" 2000) w1 = (Ok tt, w2).
Proof.
  exists (<[inner demo_nonce := 61000]> (evict_expired ∅ 2000)).
  destruct (resalted_nonce_is_accepted demo_mint demo_boot
    (demo_presented 2000) ∅ (<[inner demo_nonce := 61000]> (evict_expired ∅ 2000)) (replicate 16 8))
    as [w2 H2].
  - by apply demo_commit.
  - done.
  - by vm_compute.
  - apply lookup_empty.
  - exists w2. split; [by apply demo_commit|exact H2].
Defined.

(** The demonstration MAC has collisions, so that a nonce can come back with
    another expiry. *)
Lemma nonce_single_use_witness :
  exists key, load_key demo_mint = Ok key /\
    mac_collision key
      (presented_input demo_boot (demo_presented 2000))
      (presented_input demo_boot
         (presented_as demo_nonce [1; 2] 200000 "stellar_pay" "stellar:testnet" 61000)).
Proof.
  apply (nonce_single_use demo_mint demo_boot
    [demo_presented 2000; presented_as demo_nonce [1; 2] 200000 "stellar_pay" "stellar:testnet" 61000]
    ∅ 0 1); [| lia |done|done|by vm_compute|by vm_compute| | |done].
  - repeat constructor. by vm_compute.
  - cbn [run_commits]. unfold demo_presented. by rewrite demo_commit.
  - cbn [run_commits]. unfold demo_presented. rewrite demo_commit by done.
    rewrite demo_commit; [done|done|]. apply eq_None_not_Some. intros [e [He Hlt]%evict_lookup].
    assert (e = 61000) as ->; [|revert Hlt; clear; lia].
    apply (inj Some). etransitivity; [symmetry; exact He|apply lookup_insert_eq].
Defined.
