(* ===== verification/Attestation.v ===== *)
(** * Approval attestations (stellar-agent-core, [approval/attestation.rs])

    What a human approved is bound by a MAC over length-prefixed fields.  The
    three kinds of approval that are not transactions have digests of their own,
    each with its domain tag. *)

From S2P Require Import Prelude RustStr Bytes.
From stdpp Require Import options.
Set Default Proof Using "Type*".

Local Open Scope string_scope.
Local Open Scope list_scope.
Local Open Scope Z_scope.

Record AttestationBinding := {
  profile_name : string;
  binding_chain_id : string;
}.

Definition TOOLSET_GATE_DOMAIN_TAG : list Z := as_bytes "stellar-agent-toolset-grant:v1".
Definition TRUSTLINE_CLAWBACK_OPT_IN_DOMAIN_TAG : list Z :=
  as_bytes "stellar-agent-trustline-clawback-opt-in:v1".
Definition RULE_PROPOSAL_DOMAIN_TAG : list Z := as_bytes "stellar-agent-rule-proposal-v1".

(** [i64::to_be_bytes]: the two's complement. *)
Definition be_bytes_i64 (n : Z) : list Z := be_bytes 8 (n mod 2 ^ 64).

(** The bytes each hasher is updated with, in order. *)
Definition toolset_gate_input (toolset_name capability destination asset : string)
    (amount_min_stroops amount_max_stroops : Z) : list Z :=
  TOOLSET_GATE_DOMAIN_TAG ++ prefixed (as_bytes toolset_name) ++ prefixed (as_bytes capability)
  ++ prefixed (as_bytes destination) ++ prefixed (as_bytes asset)
  ++ be_bytes_i64 amount_min_stroops ++ be_bytes_i64 amount_max_stroops.

Definition trustline_clawback_input (network code issuer : string) : list Z :=
  TRUSTLINE_CLAWBACK_OPT_IN_DOMAIN_TAG ++ prefixed (as_bytes network) ++ prefixed (as_bytes code)
  ++ prefixed (as_bytes issuer).

Definition rule_proposal_input (invoke_contract_args_xdr smart_account_xdr auth_rule_ids_xdr : list Z)
    (flags_byte : Z) : list Z :=
  RULE_PROPOSAL_DOMAIN_TAG ++ prefixed invoke_contract_args_xdr ++ prefixed smart_account_xdr
  ++ prefixed auth_rule_ids_xdr ++ [flags_byte].

Definition attestation_input (b : AttestationBinding) (approval_nonce : string)
    (envelope_sha256 : list Z) (process_uid : string) : list Z :=
  as_bytes "stellar-agent-approval-attestation:v2" ++ prefixed (as_bytes (profile_name b))
  ++ prefixed (as_bytes (binding_chain_id b)) ++ prefixed (as_bytes approval_nonce)
  ++ envelope_sha256 ++ prefixed (as_bytes process_uid).

Section attestation.
Context `{SH : !Sha2}.

Definition envelope_sha256 (envelope_xdr_bytes : list Z) : list Z := sha256 envelope_xdr_bytes.

Definition compute_toolset_gate_digest (toolset_name capability destination asset : string)
    (amount_min_stroops amount_max_stroops : Z) : list Z :=
  sha256 (toolset_gate_input toolset_name capability destination asset
            amount_min_stroops amount_max_stroops).

Definition compute_trustline_clawback_opt_in_digest (network code issuer : string) : list Z :=
  sha256 (trustline_clawback_input network code issuer).

Definition compute_rule_proposal_digest
    (invoke_contract_args_xdr smart_account_xdr auth_rule_ids_xdr : list Z) (flags_byte : Z)
  : list Z :=
  sha256 (rule_proposal_input invoke_contract_args_xdr smart_account_xdr auth_rule_ids_xdr
            flags_byte).

Definition compute_attestation (key : list Z) (b : AttestationBinding) (approval_nonce : string)
    (envelope_sha256 : list Z) (process_uid : string) : list Z :=
  hmac_sha256 key (attestation_input b approval_nonce envelope_sha256 process_uid).

Definition verify_attestation (key : list Z) (b : AttestationBinding) (approval_nonce : string)
    (envelope_sha256 : list Z) (process_uid : string) (attestation_blob : list Z) : bool :=
  bool_decide (compute_attestation key b approval_nonce envelope_sha256 process_uid
               = attestation_blob).

Definition verify_toolset_gate_attestation (key : list Z) (b : AttestationBinding)
    (approval_nonce toolset_name capability destination asset : string)
    (amount_min_stroops amount_max_stroops : Z) (process_uid : string) (attestation_blob : list Z)
  : bool :=
  let digest := compute_toolset_gate_digest toolset_name capability destination asset
                  amount_min_stroops amount_max_stroops in
  verify_attestation key b approval_nonce digest process_uid attestation_blob.
End attestation.

(** ** Preimages *)

Definition str_fits (s : string) : Prop := fits_u32 (as_bytes s).

Lemma prefixed_str_inj s t x y :
  str_fits s -> str_fits t ->
  prefixed (as_bytes s) ++ x = prefixed (as_bytes t) ++ y -> s = t /\ x = y.
Proof. intros Hs Ht [H%as_bytes_inj ?]%prefixed_inj; done. Qed.

Lemma be_bytes_i64_inj a b :
  in_range i64 a -> in_range i64 b -> be_bytes_i64 a = be_bytes_i64 b -> a = b.
Proof.
  unfold be_bytes_i64, in_range. change (lo i64) with (- 2 ^ 63). change (hi i64) with (2 ^ 63 - 1).
  intros Ha Hb H. apply be_bytes_inj in H;
    [|change (256 ^ Z.of_nat 8) with (2 ^ 64); by apply Z.mod_pos_bound..].
  pose proof (Z.div_mod a (2 ^ 64)). pose proof (Z.div_mod b (2 ^ 64)). nia.
Qed.

(** Cut equal prefixed strings off both sides. *)
Ltac cut_fields H :=
  repeat match type of H with
  | prefixed (as_bytes _) ++ _ = prefixed (as_bytes _) ++ _ =>
      let E := fresh "E" in let T := fresh "T" in
      apply prefixed_str_inj in H as [E T]; [|done..]; rename T into H
  end.

Lemma toolset_gate_input_inj t c d a mn mx t' c' d' a' mn' mx' :
  Forall str_fits [t; c; d; a; t'; c'; d'; a'] -> Forall (in_range i64) [mn; mx; mn'; mx'] ->
  toolset_gate_input t c d a mn mx = toolset_gate_input t' c' d' a' mn' mx' ->
  (t, c, d, a, mn, mx) = (t', c', d', a', mn', mx').
Proof.
  rewrite !Forall_cons. intros (? & ? & ? & ? & ? & ? & ? & ? & _) (? & ? & ? & ? & _) Heq.
  apply app_inj_1 in Heq as [_ Heq]; [|done]. cut_fields Heq.
  apply app_inj_1 in Heq as [Hmn Hmx]; [|done].
  apply be_bytes_i64_inj in Hmn; [|done..]. apply be_bytes_i64_inj in Hmx; [|done..]. congruence.
Qed.

Lemma trustline_input_inj n c i n' c' i' :
  Forall str_fits [n; c; i; n'; c'; i'] ->
  trustline_clawback_input n c i = trustline_clawback_input n' c' i' -> (n, c, i) = (n', c', i').
Proof.
  rewrite !Forall_cons. intros (? & ? & ? & ? & ? & ? & _) Heq.
  apply app_inj_1 in Heq as [_ Heq]; [|done].
  rewrite <- (app_nil_r (prefixed (as_bytes i))), <- (app_nil_r (prefixed (as_bytes i'))) in Heq.
  cut_fields Heq. congruence.
Qed.

Lemma rule_proposal_input_inj a s i f a' s' i' f' :
  Forall fits_u32 [a; s; i; a'; s'; i'] ->
  rule_proposal_input a s i f = rule_proposal_input a' s' i' f' -> (a, s, i, f) = (a', s', i', f').
Proof.
  rewrite !Forall_cons. intros (? & ? & ? & ? & ? & ? & _) Heq.
  apply app_inj_1 in Heq as [_ Heq]; [|done].
  do 3 (apply prefixed_inj in Heq as [-> Heq]; [|done..]). by simplify_eq.
Qed.

Lemma attestation_input_inj b n e u b' n' e' u' :
  length e = length e' ->
  Forall str_fits [profile_name b; binding_chain_id b; n; u;
                   profile_name b'; binding_chain_id b'; n'; u'] ->
  attestation_input b n e u = attestation_input b' n' e' u' ->
  b = b' /\ n = n' /\ e = e' /\ u = u'.
Proof.
  rewrite !Forall_cons. intros He (? & ? & ? & ? & ? & ? & ? & ? & _) Heq.
  apply app_inj_1 in Heq as [_ Heq]; [|done]. cut_fields Heq.
  apply app_inj_1 in Heq as [-> Heq]; [|done].
  rewrite <- (app_nil_r (prefixed (as_bytes u))), <- (app_nil_r (prefixed (as_bytes u'))) in Heq.
  cut_fields Heq. destruct b, b'; cbn in *; by subst.
Qed.

(** The three domain tags differ within their common length. *)
Lemma domain_tags_differ x y :
  TOOLSET_GATE_DOMAIN_TAG ++ x ≠ TRUSTLINE_CLAWBACK_OPT_IN_DOMAIN_TAG ++ y /\
  TOOLSET_GATE_DOMAIN_TAG ++ x ≠ RULE_PROPOSAL_DOMAIN_TAG ++ y /\
  TRUSTLINE_CLAWBACK_OPT_IN_DOMAIN_TAG ++ x ≠ RULE_PROPOSAL_DOMAIN_TAG ++ y.
Proof. split_and!; intros H%(f_equal (take 17)); by vm_compute in H. Qed.

(** What was approved cannot be presented as something else: the preimages of
    the three gate digests determine every field, as long as no field is longer
    than 4 GiB, and a preimage of one kind is never one of another kind. *)
Theorem gate_preimages_unambiguous t c d a mn mx n k i x s r f :
  (forall t' c' d' a' mn' mx',
     Forall str_fits [t; c; d; a; t'; c'; d'; a'] -> Forall (in_range i64) [mn; mx; mn'; mx'] ->
     toolset_gate_input t c d a mn mx = toolset_gate_input t' c' d' a' mn' mx' ->
     (t, c, d, a, mn, mx) = (t', c', d', a', mn', mx')) /\
  (forall n' k' i',
     Forall str_fits [n; k; i; n'; k'; i'] ->
     trustline_clawback_input n k i = trustline_clawback_input n' k' i' -> (n, k, i) = (n', k', i')) /\
  (forall x' s' r' f',
     Forall fits_u32 [x; s; r; x'; s'; r'] ->
     rule_proposal_input x s r f = rule_proposal_input x' s' r' f' -> (x, s, r, f) = (x', s', r', f')) /\
  toolset_gate_input t c d a mn mx ≠ trustline_clawback_input n k i /\
  toolset_gate_input t c d a mn mx ≠ rule_proposal_input x s r f /\
  trustline_clawback_input n k i ≠ rule_proposal_input x s r f.
Proof.
  split_and!; [by intros; apply toolset_gate_input_inj|by intros; apply trustline_input_inj
    |by intros; apply rule_proposal_input_inj|apply domain_tags_differ..].
Qed.

Section binding.
Context `{SH : !Sha2}.

(** An attestation is accepted for what it was computed for, and for nothing
    else: a blob made for one profile, chain, approval nonce, digest and process
    owner verifies for them, and if it verifies for other values, the two MAC
    inputs collide under the key. *)
Theorem attestation_binding key b n e u b' n' e' u' :
  length e = length e' ->
  Forall str_fits [profile_name b; binding_chain_id b; n; u;
                   profile_name b'; binding_chain_id b'; n'; u'] ->
  verify_attestation key b n e u (compute_attestation key b n e u) = true /\
  (verify_attestation key b' n' e' u' (compute_attestation key b n e u) = true ->
   (b' = b /\ n' = n /\ e' = e /\ u' = u) \/
   (attestation_input b' n' e' u' ≠ attestation_input b n e u /\
    hmac_sha256 key (attestation_input b' n' e' u') = hmac_sha256 key (attestation_input b n e u))).
Proof.
  intros He Hf. unfold verify_attestation. split; [by apply bool_decide_eq_true_2|].
  intros H%bool_decide_eq_true_1.
  destruct (decide (attestation_input b' n' e' u' = attestation_input b n e u)) as [E|]; [left|by right].
  symmetry in E. apply attestation_input_inj in E as (-> & -> & -> & ->); done.
Qed.
End binding.

#[local] Existing Instance demo_sha2.

Definition demo_binding : AttestationBinding :=
  {| profile_name := "alice"; binding_chain_id := "stellar:testnet" |}.

Lemma attestation_binding_witness :
  verify_attestation [1] demo_binding "n1" [7; 7] "1000"
    (compute_attestation [1] demo_binding "n1" [7; 7] "1000") = true.
Proof.
  apply (attestation_binding [1] demo_binding "n1" [7; 7] "1000" demo_binding "n1" [7; 7] "1000");
    [done|]. repeat constructor; by vm_compute.
Defined.
