(* ===== verification/Approval.v ===== *)
(** * Pending approvals (stellar-agent-core, [approval/store.rs]): the data, the field checks, the constructors

    A pending approval is one request shown to a human: what kind of action it
    is, who asked, until when it may be decided, and what the human handed back.
    Random bytes and the time are arguments of the constructors. *)

From S2P Require Import Prelude RustStr Bytes RuleProposal PolicyTypes Attestation.
From stdpp Require Import options.

Local Open Scope string_scope.
Local Open Scope list_scope.
Local Open Scope Z_scope.

(** ** Kinds *)

Definition DEFAULT_TTL_MS : Z := 86400000.
Definition MPP_APPROVAL_MAX_TTL_MS : Z := 5 * 60 * 1000.
Definition EXPECTED_NONCE_LEN : Z := 22.
Definition MAX_PENDING_APPROVALS : Z := 4096.
Definition RULE_IDS_MAX_COUNT : Z := 8.

Inductive ConsumedOutcome := Confirmed | UnknownOutcome.

Definition label (o : ConsumedOutcome) : string :=
  match o with Confirmed => "confirmed" | UnknownOutcome => "unknown" end.

Definition ConsumedOutcome_parse (raw : string) : result string ConsumedOutcome :=
  if bool_decide (raw = "confirmed") then Ok Confirmed
  else if bool_decide (raw = "unknown") then Ok UnknownOutcome
  else Err ("Consumed.outcome must be `confirmed` or `unknown`, got `" +:+ raw +:+ "`").

Inductive ApprovalKind :=
| PaymentSimulated (envelope_xdr_b64 envelope_sha256_hex summary_to : string)
    (summary_amount_stroops : Z) (summary_asset : string) (summary_memo : option string)
    (summary_simulated_fee_stroops summary_simulated_seq_num : Z)
| SignWithPasskey (auth_digest credential_id : list Z) (smart_account_redacted : string)
    (rule_ids : list Z) (csrf_token : list Z) (rp_id : string)
| ToolsetFirstInvokeGate (toolset_name capability destination asset : string)
    (amount_min_stroops amount_max_stroops : Z)
| TrustlineClawbackOptIn (network code issuer : string)
| TrustlineSimulated (envelope_xdr_b64 envelope_sha256_hex summary_holder summary_asset_code
    summary_asset_issuer : string) (summary_limit_stroops : option Z)
    (summary_simulated_fee_stroops summary_simulated_seq_num : Z)
| ClaimSimulated (envelope_xdr_b64 envelope_sha256_hex summary_balance_id_hex72
    summary_balance_id_strkey summary_asset : string) (summary_amount_stroops : Z)
    (summary_source : string) (summary_simulated_fee_stroops summary_simulated_seq_num : Z)
| RegisterPasskey (smart_account_redacted : string) (rule_ids : list Z) (csrf_token : list Z)
    (rp_id : string) (user_handle : list Z) (registration_input : option RegistrationInput)
| RuleProposalSimulated (smart_account smart_account_redacted network_passphrase chain_id : string)
    (definition : ContextRuleProposalSnapshot) (proposal_sha256 : list Z) (summary_line : string)
| MppChargeSimulated (authorization_fingerprint prepared_artifact_hash : list Z)
    (profile chain_id payer transport authority target amount currency recipient : string)
    (challenge_expires_at_unix simulated_fee_stroops : Z)
| Rejected (original_kind_name : string)
| Consumed (original_kind_name tx_hash : string) (outcome : ConsumedOutcome).

Global Instance ConsumedOutcome_eq_dec : EqDecision ConsumedOutcome.
Proof. solve_decision. Defined.
Global Instance ApprovalKind_eq_dec : EqDecision ApprovalKind.
Proof. solve_decision. Defined.

Definition kind_name (k : ApprovalKind) : string :=
  match k with
  | PaymentSimulated _ _ _ _ _ _ _ _ => "PaymentSimulated"
  | SignWithPasskey _ _ _ _ _ _ => "SignWithPasskey"
  | TrustlineClawbackOptIn _ _ _ => "TrustlineClawbackOptIn"
  | ClaimSimulated _ _ _ _ _ _ _ _ _ => "ClaimSimulated"
  | TrustlineSimulated _ _ _ _ _ _ _ _ => "TrustlineSimulated"
  | RegisterPasskey _ _ _ _ _ _ => "RegisterPasskey"
  | ToolsetFirstInvokeGate _ _ _ _ _ _ => "ToolsetFirstInvokeGate"
  | RuleProposalSimulated _ _ _ _ _ _ _ => "RuleProposalSimulated"
  | MppChargeSimulated _ _ _ _ _ _ _ _ _ _ _ _ _ => "MppChargeSimulated"
  | Rejected _ => "Rejected"
  | Consumed _ _ _ => "Consumed"
  end.

Record PendingApproval := {
  approval_nonce : string;
  process_uid : string;
  created_at_unix_ms : Z;
  expires_at_unix_ms : Z;
  pa_reason : option string;
  kind : ApprovalKind;
  attestation_blob_b64 : option string;
  passkey_assertion : option AssertionInput;
}.

Definition is_expired (p : PendingApproval) (now_unix_ms : Z) : bool :=
  expires_at_unix_ms p <=? now_unix_ms.

(** ** Redaction *)

Definition redact_tx_hash (hash : string) : string :=
  if 16 <? len hash
  then String.substring 0 8 hash +:+ "..." +:+ String.substring (String.length hash - 8) 8 hash
  else hash.

Definition redact_g_strkey (s : string) : string :=
  if len s <? 10 then "<redacted>"
  else match str_get s 0 5, str_get s (String.length s - 5) (String.length s) with
       | Some first5, Some last5 => first5 +:+ "..." +:+ last5
       | _, _ => "<redacted>"
       end.

(** ** Field checks *)

Definition is_alnum_text (max : Z) (code : string) : bool :=
  negb (is_empty code) && (len code <=? max) && str_all is_ascii_alphanumeric code.

(** ['XLM'] or ['<code>:<G-strkey>']. *)
Definition asset_text_valid (s : string) : bool :=
  bool_decide (s = "XLM")
  || match split_once ":" s with
     | Some (code, issuer) => is_alnum_text 12 code && strkey_shape 56 "G" issuer
     | None => false
     end.

Definition is_ldh (a : ascii) : bool :=
  is_ascii_alphanumeric a || bool_decide (a = "."%char) || bool_decide (a = "-"%char).

Definition is_toolset_char (a : ascii) : bool :=
  is_ascii_lower a || is_ascii_digit a || bool_decide (a = "-"%char).

Definition windows_sid_is_valid (s : string) : bool :=
  match split "-" s with
  | first :: parts =>
      bool_decide (first = "S")
      && forallb (fun part => negb (is_empty part) && str_all is_ascii_digit part) parts
      && (3 <=? count parts)
  | [] => false
  end.

Definition process_uid_is_valid (s : string) : bool :=
  bool_decide (s = "non-unix-stub") || (negb (is_empty s) && str_all is_ascii_digit s)
  || windows_sid_is_valid s.

Definition validate_consumed_invariants (original_kind_name tx_hash outcome : string)
  : result string unit :=
  if is_empty original_kind_name || (64 <? len original_kind_name)
  then Err "Consumed.original_kind_name must be 1-64 characters"
  else if negb (len tx_hash =? 64) || negb (str_all is_ascii_hexdigit tx_hash)
  then Err "Consumed.tx_hash must be 64 hex characters"
  else if negb (str_all (fun b => negb (is_ascii_upper b)) tx_hash)
  then Err "Consumed.tx_hash must be lowercase hex"
  else _ ← ConsumedOutcome_parse outcome; Ok tt.

(** The MPP record as the check sees it. *)
Record MppChargeSimulatedWire := {
  mpp_authorization_fingerprint : list Z;
  mpp_prepared_artifact_hash : list Z;
  mpp_profile : string;
  mpp_chain_id : string;
  mpp_payer : string;
  mpp_transport : string;
  mpp_authority : string;
  mpp_target : string;
  mpp_amount : string;
  mpp_currency : string;
  mpp_recipient : string;
  mpp_challenge_expires_at_unix : Z;
  mpp_simulated_fee_stroops : Z;
}.

Definition valid_display (max : Z) (value : string) : bool :=
  negb (is_empty value) && (len value <=? max)
  && str_all (fun c => is_ascii_graphic c || bool_decide (c = " "%char)) value.

Definition validate_mpp_charge_simulated_invariants (mpp : MppChargeSimulatedWire)
  : result string unit :=
  if negb (valid_display 128 (mpp_profile mpp))
  then Err "MPP profile must be 1-128 printable ASCII bytes"
  else if negb (bool_decide (mpp_chain_id mpp = "stellar:testnet"))
  then Err "MPP approvals support only stellar:testnet"
  else if negb (strkey_shape 56 "G" (mpp_payer mpp))
  then Err "MPP payer must be a canonical G-strkey"
  else if negb (bool_decide (mpp_transport mpp = "http") || bool_decide (mpp_transport mpp = "mcp"))
  then Err "MPP transport must be http or mcp"
  else if negb (valid_display 512 (mpp_authority mpp)) || negb (valid_display 512 (mpp_target mpp))
  then Err "MPP authority and target must be 1-512 printable ASCII bytes"
  else
  parsed ← map_err (fun _ => "MPP amount must be a canonical positive decimal integer")
                   (parse_int i128 (mpp_amount mpp));
  if (parsed <=? 0) || negb (bool_decide (show_Z parsed = mpp_amount mpp))
  then Err "MPP amount must be a canonical positive decimal integer"
  else if negb (strkey_shape 56 "C" (mpp_currency mpp))
  then Err "MPP currency must be a canonical asset-contract C-strkey"
  else if negb (strkey_shape 56 "G" (mpp_recipient mpp) || strkey_shape 56 "C" (mpp_recipient mpp))
  then Err "MPP recipient must be a canonical G- or C-strkey"
  else if mpp_challenge_expires_at_unix mpp =? 0
  then Err "MPP challenge expiry must be nonzero"
  else Ok tt.

Definition validate_assertion_input_invariants (a : AssertionInput) : result string unit :=
  map_err (fun reason => "invalid approval field: " +:+ reason)
          (validate_signature_compact (signature_compact a)).

Definition validate_trustline_simulated_invariants (holder asset_code asset_issuer : string)
    (limit_stroops : option Z) : result string unit :=
  _ ← mapM_res (fun '(label, account) =>
        if strkey_shape 56 "G" account then Ok tt
        else Err ("trustline " +:+ label +:+ " must match ^G[A-Z2-7]{55}$"))
      [("holder", holder); ("issuer", asset_issuer)];
  if negb (is_alnum_text 12 asset_code)
  then Err "trustline asset code must be 1 to 12 ASCII alphanumeric characters"
  else if from_option (fun limit => limit <? 0) false limit_stroops
  then Err "trustline limit must not be negative"
  else Ok tt.

Definition TOOLSET_GATE_FIELD_MAX_BYTES : Z := 64.

Section checks.
Context `{!EscapeDebug}.

Definition validate_rule_ids (rule_ids : list Z) : result string unit :=
  if bool_decide (rule_ids = [])
  then Err "rule_ids must be non-empty (at least one context rule ID required)"
  else if RULE_IDS_MAX_COUNT <? count rule_ids
  then Err ("rule_ids must have at most 8 entries (OZ context-rule batch limit), got "
            +:+ show_Z (count rule_ids))
  else Ok tt.

Definition validate_rp_id (rp_id : string) : result string unit :=
  if is_empty rp_id then Err "rp_id must not be empty"
  else if 253 <? len rp_id
  then Err ("rp_id must be at most 253 bytes (RFC 1035 §2.3.4 DNS name length limit), got "
            +:+ show_Z (len rp_id) +:+ " bytes")
  else if is_ip_addr rp_id
  then Err ("rp_id must not be an IP address literal (WebAuthn-2 §5.1.2 forbids IP rpId); got "
            +:+ debug_str rp_id +:+ ".  Use " +:+ double_quote +:+ "localhost" +:+ double_quote
            +:+ " for loopback.")
  else if negb (str_all is_ldh rp_id)
  then Err ("rp_id must contain only DNS LDH-label characters [A-Za-z0-9.-] "
            +:+ "per RFC 1035 §2.3.4 + WebAuthn-2 §5.1.2")
  else Ok tt.

Definition validate_smart_account_redacted (s : string) : result string unit :=
  if negb (len s =? 13)
  then Err ("smart_account_redacted must be 13 characters (first-5-last-5 redaction of a C-strkey: C + 4 base32 + ... + 5 base32), got "
            +:+ show_Z (len s) +:+ " characters: " +:+ debug_str s)
  else if negb (starts_with "C" s)
  then Err ("smart_account_redacted must start with 'C' (C-strkey redaction), got: " +:+ debug_str s)
  else if negb (str_all is_base32 (String.substring 1 4 s))
  then Err ("smart_account_redacted chars 1..5 must be base32 [A-Z2-7], got: " +:+ debug_str s)
  else if negb (bool_decide (String.substring 5 3 s = "..."))
  then Err ("smart_account_redacted chars 5..8 must be '...', got: " +:+ debug_str s)
  else if negb (str_all is_base32 (String.substring 8 5 s))
  then Err ("smart_account_redacted chars 8..13 must be base32 [A-Z2-7], got: " +:+ debug_str s)
  else Ok tt.

Definition validate_smart_account_full (s : string) : result string unit :=
  if strkey_shape 56 "C" s then Ok tt
  else Err ("smart_account must be a valid C-strkey (56 chars, ^C[A-Z2-7]{55}$), got: "
            +:+ redact_g_strkey s).

Definition validate_sign_with_passkey_invariants (credential_id rule_ids : list Z)
    (smart_account_redacted rp_id : string) : result string unit :=
  _ ← validate_credential_id_len credential_id;
  _ ← validate_rule_ids rule_ids;
  _ ← validate_rp_id rp_id;
  validate_smart_account_redacted smart_account_redacted.

Definition validate_register_passkey_invariants (smart_account_redacted : string)
    (rule_ids : list Z) (rp_id : string) : result string unit :=
  _ ← validate_smart_account_redacted smart_account_redacted;
  _ ← validate_rule_ids rule_ids;
  validate_rp_id rp_id.

Definition validate_toolset_text (field text : string) : result string unit :=
  if is_empty text || (TOOLSET_GATE_FIELD_MAX_BYTES <? len text)
  then Err (field +:+ " must be 1–64 bytes, got " +:+ show_Z (len text) +:+ " bytes")
  else if negb (str_all is_toolset_char text)
  then Err (field +:+ " must contain only [a-z0-9-] characters, got: " +:+ debug_str text)
  else Ok tt.

Definition validate_toolset_asset (asset : string) : result string unit :=
  if bool_decide (asset = "XLM") then Ok tt
  else match split_once ":" asset with
       | Some (code, issuer) =>
           if negb (is_alnum_text 12 code) || negb (strkey_shape 56 "G" issuer)
           then Err ("asset must be 'XLM' or '<alphanumeric_code>:<G-strkey>', got: "
                     +:+ debug_str asset)
           else Ok tt
       | None => Err ("asset must be 'XLM' or '<code>:<G-strkey>', got: " +:+ debug_str asset)
       end.

Definition validate_toolset_first_invoke_gate_invariants
    (toolset_name capability destination asset : string)
    (amount_min_stroops amount_max_stroops : Z) : result string unit :=
  _ ← validate_toolset_text "toolset_name" toolset_name;
  _ ← validate_toolset_text "capability" capability;
  if negb (strkey_shape 56 "G" destination || strkey_shape 56 "C" destination)
  then Err ("destination must be a valid Stellar G-strkey or C-strkey (56 chars, ^[GC][A-Z2-7]{55}$), got: "
            +:+ redact_g_strkey destination)
  else
  _ ← validate_toolset_asset asset;
  if amount_min_stroops <? 0
  then Err ("amount_min_stroops must be ≥ 0, got " +:+ show_Z amount_min_stroops)
  else if amount_max_stroops <=? 0
  then Err ("amount_max_stroops must be positive, got " +:+ show_Z amount_max_stroops)
  else if amount_max_stroops <? amount_min_stroops
  then Err ("amount_min_stroops (" +:+ show_Z amount_min_stroops +:+ ") must be ≤ amount_max_stroops ("
            +:+ show_Z amount_max_stroops +:+ ")")
  else Ok tt.

Definition validate_trustline_clawback_opt_in_invariants (network code issuer : string)
  : result string unit :=
  if is_empty network then Err "network must not be empty"
  else if 64 <? len network
  then Err ("network must be at most 64 bytes, got " +:+ show_Z (len network) +:+ " bytes")
  else if is_empty code || (12 <? len code)
  then Err ("code must be 1–12 bytes, got " +:+ show_Z (len code) +:+ " bytes: " +:+ debug_str code)
  else if negb (str_all (fun c => is_ascii_upper c || is_ascii_digit c) code)
  then Err ("code must contain only uppercase ASCII alphanumeric characters [A-Z0-9], got: "
            +:+ debug_str code)
  else if negb (strkey_shape 56 "G" issuer)
  then Err ("issuer must be a valid Stellar G-strkey (56 chars, ^G[A-Z2-7]{55}$), got: "
            +:+ redact_g_strkey issuer)
  else Ok tt.

Definition validate_claim_simulated_invariants (balance_id_hex72 balance_id_strkey asset : string)
    (amount_stroops : Z) (source : string) : result string unit :=
  if negb (len balance_id_hex72 =? 72) || negb (str_all is_ascii_hexdigit balance_id_hex72)
  then Err ("balance_id_hex72 must be exactly 72 hex characters, got "
            +:+ show_Z (len balance_id_hex72) +:+ " characters")
  else if negb (strkey_shape 58 "B" balance_id_strkey)
  then Err "balance_id_strkey must be a valid claimable-balance strkey (58 chars, ^B[A-Z2-7]{57}$)"
  else if negb (asset_text_valid asset)
  then Err ("asset must be 'XLM' or '<code>:<G-strkey>', got: " +:+ debug_str asset)
  else if amount_stroops <=? 0
  then Err ("amount_stroops must be strictly positive, got " +:+ show_Z amount_stroops)
  else if negb (strkey_shape 56 "G" source)
  then Err ("source must be a valid Stellar G-strkey (56 chars, ^G[A-Z2-7]{55}$), got: "
            +:+ redact_g_strkey source)
  else Ok tt.
End checks.

(** ** Constructors

    Every constructor draws 16 random bytes for the nonce and reads the clock;
    [raw] and [now] are what they return ([approval_now_unix_ms] may fail). *)

Section constructors.
Context `{!EscapeDebug, !Base64, !Sha2}.
Variables (raw : list Z) (now : result ApprovalError Z).

(** The common end of the constructors: nonce, clock, saturating expiry. *)
Definition pending_of (kind : ApprovalKind) (process_uid : string) (ttl_ms : Z)
  : result ApprovalError PendingApproval :=
  created_at_unix_ms ← now;
  Ok {| approval_nonce := base64_encode raw; process_uid := process_uid;
        created_at_unix_ms := created_at_unix_ms;
        expires_at_unix_ms := sat_add u64 created_at_unix_ms ttl_ms;
        pa_reason := None; kind := kind;
        attestation_blob_b64 := None; passkey_assertion := None |}.

Definition new_payment_pending (envelope_xdr_b64 : string) (envelope_xdr_bytes : list Z)
    (summary_to : string) (summary_amount_stroops : Z) (summary_asset : string)
    (summary_memo : option string) (summary_simulated_fee_stroops summary_simulated_seq_num : Z)
    (process_uid : string) (ttl_ms : Z) : result ApprovalError PendingApproval :=
  let envelope_sha256_hex := encode (envelope_sha256 envelope_xdr_bytes) in
  pending_of (PaymentSimulated envelope_xdr_b64 envelope_sha256_hex summary_to
                summary_amount_stroops summary_asset summary_memo
                summary_simulated_fee_stroops summary_simulated_seq_num) process_uid ttl_ms.

(** The deprecated alias. *)
Definition new_unattested := new_payment_pending.

Definition new_passkey_pending (auth_digest credential_id : list Z)
    (smart_account_redacted : string) (rule_ids csrf_token : list Z) (rp_id : string)
    (process_uid : string) (ttl_ms : Z) : result ApprovalError PendingApproval :=
  _ ← map_err Invalid (validate_sign_with_passkey_invariants credential_id rule_ids
                         smart_account_redacted rp_id);
  pending_of (SignWithPasskey auth_digest credential_id smart_account_redacted rule_ids csrf_token
                rp_id) process_uid ttl_ms.

Definition new_register_passkey_pending (smart_account_redacted : string)
    (rule_ids csrf_token : list Z) (rp_id : string) (user_handle : list Z)
    (process_uid : string) (ttl_ms : Z) : result ApprovalError PendingApproval :=
  _ ← map_err Invalid (validate_register_passkey_invariants smart_account_redacted rule_ids rp_id);
  pending_of (RegisterPasskey smart_account_redacted rule_ids csrf_token rp_id user_handle None)
    process_uid ttl_ms.

Definition new_toolset_first_invoke_gate_pending
    (toolset_name capability destination asset : string)
    (amount_min_stroops amount_max_stroops : Z) (process_uid : string) (ttl_ms : Z)
  : result ApprovalError PendingApproval :=
  _ ← map_err Invalid (validate_toolset_first_invoke_gate_invariants toolset_name capability
                         destination asset amount_min_stroops amount_max_stroops);
  pending_of (ToolsetFirstInvokeGate toolset_name capability destination asset
                amount_min_stroops amount_max_stroops) process_uid ttl_ms.

Definition new_trustline_clawback_opt_in_pending (network code issuer : string)
    (process_uid : string) (ttl_ms : Z) : result ApprovalError PendingApproval :=
  _ ← map_err Invalid (validate_trustline_clawback_opt_in_invariants network code issuer);
  pending_of (TrustlineClawbackOptIn network code issuer) process_uid ttl_ms.

Definition new_trustline_pending (envelope_xdr_b64 : string) (envelope_xdr_bytes : list Z)
    (holder asset_code asset_issuer : string) (limit_stroops : option Z)
    (simulated_fee_stroops simulated_seq_num : Z) (process_uid : string) (ttl_ms : Z)
  : result ApprovalError PendingApproval :=
  _ ← map_err Invalid (validate_trustline_simulated_invariants holder asset_code asset_issuer
                         limit_stroops);
  let envelope_sha256_hex := encode (envelope_sha256 envelope_xdr_bytes) in
  pending_of (TrustlineSimulated envelope_xdr_b64 envelope_sha256_hex holder asset_code
                asset_issuer limit_stroops simulated_fee_stroops simulated_seq_num)
    process_uid ttl_ms.

Definition new_claim_pending (envelope_xdr_b64 : string) (envelope_xdr_bytes : list Z)
    (balance_id_hex72 balance_id_strkey asset : string) (amount_stroops : Z) (source : string)
    (simulated_fee_stroops simulated_seq_num : Z) (process_uid : string) (ttl_ms : Z)
  : result ApprovalError PendingApproval :=
  _ ← map_err Invalid (validate_claim_simulated_invariants balance_id_hex72 balance_id_strkey
                         asset amount_stroops source);
  let envelope_sha256_hex := encode (envelope_sha256 envelope_xdr_bytes) in
  pending_of (ClaimSimulated envelope_xdr_b64 envelope_sha256_hex balance_id_hex72
                balance_id_strkey asset amount_stroops source simulated_fee_stroops
                simulated_seq_num) process_uid ttl_ms.

Definition new_rule_proposal_pending (smart_account network_passphrase chain_id : string)
    (definition : ContextRuleProposalSnapshot) (proposal_sha256 : list Z) (summary_line : string)
    (process_uid : string) (ttl_ms : Z) : result ApprovalError PendingApproval :=
  _ ← map_err Invalid (validate_smart_account_full smart_account);
  _ ← map_err Invalid (validate_context_rule_proposal_snapshot definition);
  let smart_account_redacted := redact_g_strkey smart_account in
  pending_of (RuleProposalSimulated smart_account smart_account_redacted network_passphrase
                chain_id definition proposal_sha256 summary_line) process_uid ttl_ms.

Definition kind_of_mpp (w : MppChargeSimulatedWire) : ApprovalKind :=
  MppChargeSimulated (mpp_authorization_fingerprint w) (mpp_prepared_artifact_hash w)
    (mpp_profile w) (mpp_chain_id w) (mpp_payer w) (mpp_transport w) (mpp_authority w)
    (mpp_target w) (mpp_amount w) (mpp_currency w) (mpp_recipient w)
    (mpp_challenge_expires_at_unix w) (mpp_simulated_fee_stroops w).

(** An MPP approval lives at most five minutes and no longer than its challenge. *)
Definition new_mpp_charge_pending_at (wire : MppChargeSimulatedWire) (process_uid : string)
    (ttl_ms created_at_unix_ms : Z) : result ApprovalError PendingApproval :=
  _ ← map_err Invalid (validate_mpp_charge_simulated_invariants wire);
  let challenge_expires_at_ms := sat_mul u64 (mpp_challenge_expires_at_unix wire) 1000 in
  if challenge_expires_at_ms <=? created_at_unix_ms
  then Err (Invalid "MPP challenge is already expired")
  else
  let expires_at_unix_ms :=
    Z.min (sat_add u64 created_at_unix_ms (Z.min ttl_ms MPP_APPROVAL_MAX_TTL_MS))
          challenge_expires_at_ms in
  Ok {| approval_nonce := base64_encode raw; process_uid := process_uid;
        created_at_unix_ms := created_at_unix_ms; expires_at_unix_ms := expires_at_unix_ms;
        pa_reason := None; kind := kind_of_mpp wire;
        attestation_blob_b64 := None; passkey_assertion := None |}.

Definition new_mpp_charge_pending (wire : MppChargeSimulatedWire) (process_uid : string)
    (ttl_ms : Z) : result ApprovalError PendingApproval :=
  created_at_unix_ms ← now;
  new_mpp_charge_pending_at wire process_uid ttl_ms created_at_unix_ms.
End constructors.

(** The product is a 64-bit one: a 32-bit number of seconds in milliseconds fits. *)
Definition with_policy_request (p : PendingApproval) (request : ApprovalRequest) : PendingApproval :=
  {| approval_nonce := approval_nonce p; process_uid := process_uid p;
     created_at_unix_ms := created_at_unix_ms p;
     expires_at_unix_ms := sat_add u64 (created_at_unix_ms p) (ttl_seconds request * 1000);
     pa_reason := reason request; kind := kind p;
     attestation_blob_b64 := attestation_blob_b64 p; passkey_assertion := passkey_assertion p |}.

Definition approval_request (p : PendingApproval) : ApprovalRequest :=
  let ttl := sat_sub u64 (expires_at_unix_ms p) (created_at_unix_ms p) / 1000 in
  {| nonce := approval_nonce p; ttl_seconds := from_option id (hi u32) (checked u32 ttl);
     reason := pa_reason p; approval_url := None |}.
