(* ===== verification/ApprovalWire.v ===== *)
(** * The approval file (stellar-agent-core, [approval/store.rs])

    How a pending approval is written and what a record of the file must look
    like to be read back.  A record has the flat fields of a payment and one
    optional sub-table per other kind; reading refuses a record that carries the
    fields of two kinds.  The mapping between these structures and TOML text is
    the business of the [serde] and [toml] crates: [PendingApprovalOnDisk] is
    what their derived code reads and writes. *)

From S2P Require Import Prelude RustStr Bytes RuleProposal PolicyTypes Attestation Approval.
From stdpp Require Import options.

Local Open Scope string_scope.
Local Open Scope list_scope.
Local Open Scope Z_scope.

(** ** The structures of the file *)

Record SignWithPasskeyWire := {
  swp_auth_digest : list Z;
  swp_credential_id : list Z;
  swp_smart_account_redacted : string;
  swp_rule_ids : list Z;
  swp_csrf_token : list Z;
  swp_rp_id : string;
}.

Record RegisterPasskeyWire := {
  rp_smart_account_redacted : string;
  rp_rule_ids : list Z;
  rp_csrf_token : list Z;
  rp_rp_id : string;
  rp_user_handle : list Z;
}.

Record ToolsetFirstInvokeGateWire := {
  sfig_toolset_name : string;
  sfig_capability : string;
  sfig_destination : string;
  sfig_asset : string;
  sfig_amount_min_stroops : Z;
  sfig_amount_max_stroops : Z;
}.

Record TrustlineClawbackOptInWire := {
  tcoi_network : string;
  tcoi_code : string;
  tcoi_issuer : string;
}.

Record TrustlineSimulatedWire := {
  ts_envelope_xdr_b64 : string;
  ts_envelope_sha256_hex : string;
  ts_holder : string;
  ts_asset_code : string;
  ts_asset_issuer : string;
  ts_limit_stroops : option Z;
  ts_simulated_fee_stroops : Z;
  ts_simulated_seq_num : Z;
}.

Record ClaimSimulatedWire := {
  cs_envelope_xdr_b64 : string;
  cs_envelope_sha256_hex : string;
  cs_summary_balance_id_hex72 : string;
  cs_summary_balance_id_strkey : string;
  cs_summary_asset : string;
  cs_summary_amount_stroops : Z;
  cs_summary_source : string;
  cs_summary_simulated_fee_stroops : Z;
  cs_summary_simulated_seq_num : Z;
}.

Record RuleProposalSimulatedWire := {
  rps_smart_account : string;
  rps_smart_account_redacted : string;
  rps_network_passphrase : string;
  rps_chain_id : string;
  rps_definition : ContextRuleProposalSnapshot;
  rps_proposal_sha256 : list Z;
  rps_summary_line : string;
}.

Record RejectedWire := { r_original_kind_name : string }.

Record ConsumedWire := {
  c_original_kind_name : string;
  c_tx_hash : string;
  c_outcome : string;
}.

(** The flat fields that only a payment uses. *)
Record PaymentFields := {
  f_envelope_xdr_b64 : option string;
  f_envelope_sha256_hex : option string;
  f_summary_to : option string;
  f_summary_amount_stroops : option Z;
  f_summary_asset : option string;
  f_summary_memo : option string;
  f_summary_simulated_fee_stroops : option Z;
  f_summary_simulated_seq_num : option Z;
}.

(** The sub-tables, at most one of which is present. *)
Record SubTables := {
  sign_with_passkey : option SignWithPasskeyWire;
  register_passkey : option RegisterPasskeyWire;
  toolset_first_invoke_gate : option ToolsetFirstInvokeGateWire;
  trustline_clawback_opt_in : option TrustlineClawbackOptInWire;
  trustline_simulated : option TrustlineSimulatedWire;
  claim_simulated : option ClaimSimulatedWire;
  rule_proposal_simulated : option RuleProposalSimulatedWire;
  mpp_charge_simulated : option MppChargeSimulatedWire;
  rejected : option RejectedWire;
  consumed : option ConsumedWire;
}.

(** [PendingApprovalOnDisk]: the struct is flat in the file; the fields of a
    payment and the sub-tables are grouped here. *)
Record PendingApprovalOnDisk := {
  d_approval_nonce : string;
  d_process_uid : string;
  d_created_at_unix_ms : Z;
  d_expires_at_unix_ms : Z;
  d_reason : option string;
  payment : PaymentFields;
  sub : SubTables;
  d_attestation_blob_b64 : option string;
  d_passkey_assertion : option AssertionInput;
  d_registration_input : option RegistrationInput;
}.

Definition no_payment : PaymentFields := Build_PaymentFields None None None None None None None None.
Definition no_sub : SubTables :=
  Build_SubTables None None None None None None None None None None.

(** ** Writing *)

(** The flat fields, the sub-tables and the registration of a kind: the tuple
    [Serialize] computes. *)
Definition ser_payment (k : ApprovalKind) : PaymentFields :=
  match k with
  | PaymentSimulated xdr sha to amount asset memo fee seq =>
      Build_PaymentFields (Some xdr) (Some sha) (Some to) (Some amount) (Some asset) memo
        (Some fee) (Some seq)
  | _ => no_payment
  end.

Definition ser_sign_with_passkey (k : ApprovalKind) : option SignWithPasskeyWire :=
  match k with
  | SignWithPasskey digest cred sa rules csrf rp =>
      Some (Build_SignWithPasskeyWire digest cred sa rules csrf rp)
  | _ => None
  end.

Definition ser_register_passkey (k : ApprovalKind) : option RegisterPasskeyWire :=
  match k with
  | RegisterPasskey sa rules csrf rp user _ => Some (Build_RegisterPasskeyWire sa rules csrf rp user)
  | _ => None
  end.

Definition ser_toolset_gate (k : ApprovalKind) : option ToolsetFirstInvokeGateWire :=
  match k with
  | ToolsetFirstInvokeGate t c d a mn mx => Some (Build_ToolsetFirstInvokeGateWire t c d a mn mx)
  | _ => None
  end.

Definition ser_clawback_opt_in (k : ApprovalKind) : option TrustlineClawbackOptInWire :=
  match k with
  | TrustlineClawbackOptIn n c i => Some (Build_TrustlineClawbackOptInWire n c i)
  | _ => None
  end.

Definition ser_trustline (k : ApprovalKind) : option TrustlineSimulatedWire :=
  match k with
  | TrustlineSimulated xdr sha holder code issuer limit fee seq =>
      Some (Build_TrustlineSimulatedWire xdr sha holder code issuer limit fee seq)
  | _ => None
  end.

Definition ser_claim (k : ApprovalKind) : option ClaimSimulatedWire :=
  match k with
  | ClaimSimulated xdr sha hex72 strkey asset amount source fee seq =>
      Some (Build_ClaimSimulatedWire xdr sha hex72 strkey asset amount source fee seq)
  | _ => None
  end.

Definition ser_rule_proposal (k : ApprovalKind) : option RuleProposalSimulatedWire :=
  match k with
  | RuleProposalSimulated sa red net chain def sha line =>
      Some (Build_RuleProposalSimulatedWire sa red net chain def sha line)
  | _ => None
  end.

Definition ser_mpp (k : ApprovalKind) : option MppChargeSimulatedWire :=
  match k with
  | MppChargeSimulated fp art profile chain payer transport authority target amount currency
      recipient expires fee =>
      Some (Build_MppChargeSimulatedWire fp art profile chain payer transport authority target
              amount currency recipient expires fee)
  | _ => None
  end.

Definition ser_rejected (k : ApprovalKind) : option RejectedWire :=
  match k with Rejected name => Some (Build_RejectedWire name) | _ => None end.

Definition ser_consumed (k : ApprovalKind) : option ConsumedWire :=
  match k with
  | Consumed name tx outcome => Some (Build_ConsumedWire name tx (label outcome))
  | _ => None
  end.

Definition ser_registration (k : ApprovalKind) : option RegistrationInput :=
  match k with RegisterPasskey _ _ _ _ _ registration_input => registration_input | _ => None end.

Definition ser_sub (k : ApprovalKind) : SubTables := {|
  sign_with_passkey := ser_sign_with_passkey k;
  register_passkey := ser_register_passkey k;
  toolset_first_invoke_gate := ser_toolset_gate k;
  trustline_clawback_opt_in := ser_clawback_opt_in k;
  trustline_simulated := ser_trustline k;
  claim_simulated := ser_claim k;
  rule_proposal_simulated := ser_rule_proposal k;
  mpp_charge_simulated := ser_mpp k;
  rejected := ser_rejected k;
  consumed := ser_consumed k;
|}.

Definition serialize (p : PendingApproval) : PendingApprovalOnDisk := {|
  d_approval_nonce := approval_nonce p;
  d_process_uid := process_uid p;
  d_created_at_unix_ms := created_at_unix_ms p;
  d_expires_at_unix_ms := expires_at_unix_ms p;
  d_reason := pa_reason p;
  payment := ser_payment (kind p);
  sub := ser_sub (kind p);
  d_attestation_blob_b64 := attestation_blob_b64 p;
  d_passkey_assertion := passkey_assertion p;
  d_registration_input := ser_registration (kind p);
|}.

(** ** Reading *)

Definition is_some {A} (o : option A) : bool := match o with Some _ => true | None => false end.

(** The field checks of the derived reader ([deserialize_with]).  The derived code
    runs them in the order of the document; which of several errors is reported
    depends on that order, not whether there is one. *)
Section reading.
Context `{!EscapeDebug, !Base64}.

Definition deserialize_approval_nonce (s : string) : result string string :=
  if negb (len s =? EXPECTED_NONCE_LEN)
  then Err ("approval_nonce must be 22 characters (base64url no-pad 16 bytes), got "
            +:+ show_Z (len s) +:+ " characters")
  else if negb (str_all is_base64url s)
  then Err "approval_nonce contains non-base64url characters"
  else Ok s.

Definition deserialize_process_uid (s : string) : result string string :=
  if process_uid_is_valid s then Ok s
  else Err ("process_uid must be numeric ASCII, Windows SID, or 'non-unix-stub', got: "
            +:+ debug_str s).

Definition deserialize_opt_summary_to (o : option string) : result string (option string) :=
  match o with
  | None => Ok None
  | Some s =>
      if strkey_shape 56 "G" s then Ok (Some s)
      else Err ("summary_to must be a valid Stellar G-strkey (56 chars, ^G[A-Z2-7]{55}$), got: "
                +:+ debug_str s)
  end.

Definition deserialize_opt_summary_asset (o : option string) : result string (option string) :=
  match o with
  | None => Ok None
  | Some s =>
      if asset_text_valid s then Ok (Some s)
      else Err ("summary_asset must be 'XLM' or '<code>:<G-strkey>', got: " +:+ debug_str s)
  end.

Definition is_memo_char (c : ascii) : bool := is_ascii_graphic c || bool_decide (c = " "%char).

Definition deserialize_opt_summary_memo (o : option string) : result string (option string) :=
  match o with
  | None => Ok None
  | Some s =>
      if 28 <? len s
      then Err ("summary_memo must be ≤ 28 bytes (Stellar MemoText limit), got "
                +:+ show_Z (len s) +:+ " bytes")
      else if negb (str_all is_memo_char s)
      then Err "summary_memo must contain only printable ASCII (graphic chars or space)"
      else Ok (Some s)
  end.

Definition on_disk_deserialize (raw : PendingApprovalOnDisk)
  : result string PendingApprovalOnDisk :=
  _ ← deserialize_approval_nonce (d_approval_nonce raw);
  _ ← deserialize_process_uid (d_process_uid raw);
  _ ← deserialize_opt_summary_to (f_summary_to (payment raw));
  _ ← deserialize_opt_summary_asset (f_summary_asset (payment raw));
  _ ← deserialize_opt_summary_memo (f_summary_memo (payment raw));
  Ok raw.

(** The names and presence of the fields the branches refuse. *)
Definition flat_fields (f : PaymentFields) : list (string * bool) :=
  [("envelope_xdr_b64", is_some (f_envelope_xdr_b64 f));
   ("envelope_sha256_hex", is_some (f_envelope_sha256_hex f));
   ("summary_to", is_some (f_summary_to f));
   ("summary_amount_stroops", is_some (f_summary_amount_stroops f));
   ("summary_asset", is_some (f_summary_asset f));
   ("summary_memo", is_some (f_summary_memo f));
   ("summary_simulated_fee_stroops", is_some (f_summary_simulated_fee_stroops f));
   ("summary_simulated_seq_num", is_some (f_summary_simulated_seq_num f))].

Definition f_attestation (raw : PendingApprovalOnDisk) : list (string * bool) :=
  [("attestation_blob_b64", is_some (d_attestation_blob_b64 raw))].
Definition f_assertion (raw : PendingApprovalOnDisk) : list (string * bool) :=
  [("passkey_assertion", is_some (d_passkey_assertion raw))].
Definition f_registration (raw : PendingApprovalOnDisk) : list (string * bool) :=
  [("registration_input", is_some (d_registration_input raw))].

Definition present_subtables (t : SubTables) : list string :=
  fst <$> List.filter snd
    [("sign_with_passkey", is_some (sign_with_passkey t));
     ("register_passkey", is_some (register_passkey t));
     ("toolset_first_invoke_gate", is_some (toolset_first_invoke_gate t));
     ("trustline_clawback_opt_in", is_some (trustline_clawback_opt_in t));
     ("trustline_simulated", is_some (trustline_simulated t));
     ("claim_simulated", is_some (claim_simulated t));
     ("rule_proposal_simulated", is_some (rule_proposal_simulated t));
     ("mpp_charge_simulated", is_some (mpp_charge_simulated t));
     ("rejected", is_some (rejected t));
     ("consumed", is_some (consumed t))].

(** The tail of the sub-tables each branch names again, from the trustline on. *)
Definition t_register (t : SubTables) := [("register_passkey", is_some (register_passkey t))].
Definition t_toolset (t : SubTables) :=
  [("toolset_first_invoke_gate", is_some (toolset_first_invoke_gate t))].
Definition t_clawback (t : SubTables) :=
  [("trustline_clawback_opt_in", is_some (trustline_clawback_opt_in t))].
Definition t_trustline_claim (t : SubTables) :=
  [("trustline_simulated", is_some (trustline_simulated t));
   ("claim_simulated", is_some (claim_simulated t))].
Definition t_rule_proposal (t : SubTables) :=
  [("rule_proposal_simulated", is_some (rule_proposal_simulated t))].
Definition t_tombstones (t : SubTables) :=
  [("rejected", is_some (rejected t)); ("consumed", is_some (consumed t))].

Fixpoint refuse_present (kind : string) (fields : list (string * bool)) : result string unit :=
  match fields with
  | [] => Ok tt
  | (field, present) :: fields' =>
      if present
      then Err ("cross-kind field contamination: " +:+ kind +:+ " entry must not carry field `"
                +:+ field +:+ "`")
      else refuse_present kind fields'
  end.

Definition de_sign_with_passkey (raw : PendingApprovalOnDisk) (swp : SignWithPasskeyWire)
  : result string ApprovalKind :=
  let t := sub raw in
  _ ← refuse_present "SignWithPasskey"
        (flat_fields (payment raw) ++ f_attestation raw ++ t_register t ++ f_registration raw
         ++ t_toolset t ++ t_clawback t ++ t_trustline_claim t ++ t_rule_proposal t
         ++ t_tombstones t);
  _ ← validate_sign_with_passkey_invariants (swp_credential_id swp) (swp_rule_ids swp)
        (swp_smart_account_redacted swp) (swp_rp_id swp);
  _ ← match d_passkey_assertion raw with
      | Some assertion => validate_assertion_input_invariants assertion
      | None => Ok tt
      end;
  Ok (SignWithPasskey (swp_auth_digest swp) (swp_credential_id swp)
        (swp_smart_account_redacted swp) (swp_rule_ids swp) (swp_csrf_token swp) (swp_rp_id swp)).

Definition de_register_passkey (raw : PendingApprovalOnDisk) (rp : RegisterPasskeyWire)
  : result string ApprovalKind :=
  let t := sub raw in
  _ ← refuse_present "RegisterPasskey"
        (flat_fields (payment raw) ++ f_attestation raw ++ f_assertion raw ++ t_toolset t
         ++ t_clawback t ++ t_trustline_claim t ++ t_rule_proposal t ++ t_tombstones t);
  _ ← validate_register_passkey_invariants (rp_smart_account_redacted rp) (rp_rule_ids rp)
        (rp_rp_id rp);
  _ ← match d_registration_input raw with
      | Some ri => validate_registration ri
      | None => Ok tt
      end;
  Ok (RegisterPasskey (rp_smart_account_redacted rp) (rp_rule_ids rp) (rp_csrf_token rp)
        (rp_rp_id rp) (rp_user_handle rp) (d_registration_input raw)).

Definition de_toolset_gate (raw : PendingApprovalOnDisk) (sfig : ToolsetFirstInvokeGateWire)
  : result string ApprovalKind :=
  let t := sub raw in
  _ ← refuse_present "ToolsetFirstInvokeGate"
        (flat_fields (payment raw) ++ f_attestation raw ++ f_assertion raw ++ f_registration raw
         ++ t_clawback t ++ t_trustline_claim t ++ t_rule_proposal t ++ t_tombstones t);
  _ ← validate_toolset_first_invoke_gate_invariants (sfig_toolset_name sfig)
        (sfig_capability sfig) (sfig_destination sfig) (sfig_asset sfig)
        (sfig_amount_min_stroops sfig) (sfig_amount_max_stroops sfig);
  Ok (ToolsetFirstInvokeGate (sfig_toolset_name sfig) (sfig_capability sfig)
        (sfig_destination sfig) (sfig_asset sfig) (sfig_amount_min_stroops sfig)
        (sfig_amount_max_stroops sfig)).

Definition de_clawback_opt_in (raw : PendingApprovalOnDisk) (tcoi : TrustlineClawbackOptInWire)
  : result string ApprovalKind :=
  let t := sub raw in
  _ ← refuse_present "TrustlineClawbackOptIn"
        (flat_fields (payment raw) ++ f_assertion raw ++ f_registration raw
         ++ t_trustline_claim t ++ t_rule_proposal t ++ t_tombstones t);
  _ ← validate_trustline_clawback_opt_in_invariants (tcoi_network tcoi) (tcoi_code tcoi)
        (tcoi_issuer tcoi);
  Ok (TrustlineClawbackOptIn (tcoi_network tcoi) (tcoi_code tcoi) (tcoi_issuer tcoi)).

Definition de_trustline (raw : PendingApprovalOnDisk) (ts : TrustlineSimulatedWire)
  : result string ApprovalKind :=
  let t := sub raw in
  _ ← refuse_present "TrustlineSimulated"
        (flat_fields (payment raw) ++ f_assertion raw ++ f_registration raw
         ++ t_rule_proposal t ++ t_tombstones t);
  _ ← validate_trustline_simulated_invariants (ts_holder ts) (ts_asset_code ts)
        (ts_asset_issuer ts) (ts_limit_stroops ts);
  Ok (TrustlineSimulated (ts_envelope_xdr_b64 ts) (ts_envelope_sha256_hex ts) (ts_holder ts)
        (ts_asset_code ts) (ts_asset_issuer ts) (ts_limit_stroops ts)
        (ts_simulated_fee_stroops ts) (ts_simulated_seq_num ts)).

Definition de_claim (raw : PendingApprovalOnDisk) (cs : ClaimSimulatedWire)
  : result string ApprovalKind :=
  let t := sub raw in
  _ ← refuse_present "ClaimSimulated"
        (flat_fields (payment raw) ++ f_assertion raw ++ f_registration raw
         ++ t_rule_proposal t ++ t_tombstones t);
  _ ← validate_claim_simulated_invariants (cs_summary_balance_id_hex72 cs)
        (cs_summary_balance_id_strkey cs) (cs_summary_asset cs) (cs_summary_amount_stroops cs)
        (cs_summary_source cs);
  Ok (ClaimSimulated (cs_envelope_xdr_b64 cs) (cs_envelope_sha256_hex cs)
        (cs_summary_balance_id_hex72 cs) (cs_summary_balance_id_strkey cs) (cs_summary_asset cs)
        (cs_summary_amount_stroops cs) (cs_summary_source cs)
        (cs_summary_simulated_fee_stroops cs) (cs_summary_simulated_seq_num cs)).

Definition de_rule_proposal (raw : PendingApprovalOnDisk) (rps : RuleProposalSimulatedWire)
  : result string ApprovalKind :=
  let t := sub raw in
  _ ← refuse_present "RuleProposalSimulated"
        (flat_fields (payment raw) ++ f_assertion raw ++ f_registration raw ++ t_tombstones t);
  _ ← validate_smart_account_full (rps_smart_account rps);
  _ ← validate_smart_account_redacted (rps_smart_account_redacted rps);
  if negb (bool_decide (redact_g_strkey (rps_smart_account rps) = rps_smart_account_redacted rps))
  then Err ("RuleProposalSimulated: smart_account_redacted does not match the redaction "
            +:+ "of smart_account")
  else
  _ ← validate_context_rule_proposal_snapshot (rps_definition rps);
  Ok (RuleProposalSimulated (rps_smart_account rps) (rps_smart_account_redacted rps)
        (rps_network_passphrase rps) (rps_chain_id rps) (rps_definition rps)
        (rps_proposal_sha256 rps) (rps_summary_line rps)).

Definition de_mpp (raw : PendingApprovalOnDisk) (mpp : MppChargeSimulatedWire)
  : result string ApprovalKind :=
  _ ← refuse_present "MppChargeSimulated"
        (flat_fields (payment raw) ++ f_assertion raw ++ f_registration raw);
  _ ← validate_mpp_charge_simulated_invariants mpp;
  Ok (kind_of_mpp mpp).

Definition de_rejected (raw : PendingApprovalOnDisk) (r : RejectedWire)
  : result string ApprovalKind :=
  _ ← refuse_present "Rejected"
        (flat_fields (payment raw) ++ f_attestation raw ++ f_assertion raw ++ f_registration raw);
  if is_empty (r_original_kind_name r) || (64 <? len (r_original_kind_name r))
  then Err "Rejected.original_kind_name must be 1-64 characters"
  else Ok (Rejected (r_original_kind_name r)).

Definition de_consumed (raw : PendingApprovalOnDisk) (c : ConsumedWire)
  : result string ApprovalKind :=
  _ ← refuse_present "Consumed"
        (flat_fields (payment raw) ++ f_assertion raw ++ f_registration raw);
  _ ← validate_consumed_invariants (c_original_kind_name c) (c_tx_hash c) (c_outcome c);
  outcome ← ConsumedOutcome_parse (c_outcome c);
  Ok (Consumed (c_original_kind_name c) (c_tx_hash c) outcome).

Definition missing_field {A} (name : string) (o : option A) : result string A :=
  ok_or ("missing field `" +:+ name +:+ "`") o.

Definition de_payment (raw : PendingApprovalOnDisk) : result string ApprovalKind :=
  if is_some (d_passkey_assertion raw)
  then Err ("cross-kind field contamination: PaymentSimulated entry must not carry "
            +:+ "SignWithPasskey field `passkey_assertion`")
  else if is_some (d_registration_input raw)
  then Err ("cross-kind field contamination: PaymentSimulated entry must not carry "
            +:+ "RegisterPasskey field `registration_input`")
  else
  let f := payment raw in
  envelope_xdr_b64 ← missing_field "envelope_xdr_b64" (f_envelope_xdr_b64 f);
  envelope_sha256_hex ← missing_field "envelope_sha256_hex" (f_envelope_sha256_hex f);
  summary_to ← missing_field "summary_to" (f_summary_to f);
  summary_amount_stroops ← missing_field "summary_amount_stroops" (f_summary_amount_stroops f);
  summary_asset ← missing_field "summary_asset" (f_summary_asset f);
  summary_simulated_fee_stroops ←
    missing_field "summary_simulated_fee_stroops" (f_summary_simulated_fee_stroops f);
  summary_simulated_seq_num ←
    missing_field "summary_simulated_seq_num" (f_summary_simulated_seq_num f);
  Ok (PaymentSimulated envelope_xdr_b64 envelope_sha256_hex summary_to summary_amount_stroops
        summary_asset (f_summary_memo f) summary_simulated_fee_stroops summary_simulated_seq_num).

(** The first sub-table that is present decides the kind; none means a payment. *)
Definition de_kind (raw : PendingApprovalOnDisk) : result string ApprovalKind :=
  let t := sub raw in
  if 1 <? count (present_subtables t)
  then Err ("cross-kind field contamination: approval entry carries multiple kind sub-tables: "
            +:+ String.concat ", " (present_subtables t))
  else
  match sign_with_passkey t with Some swp => de_sign_with_passkey raw swp | None =>
  match register_passkey t with Some rp => de_register_passkey raw rp | None =>
  match toolset_first_invoke_gate t with Some sfig => de_toolset_gate raw sfig | None =>
  match trustline_clawback_opt_in t with Some tcoi => de_clawback_opt_in raw tcoi | None =>
  match trustline_simulated t with Some ts => de_trustline raw ts | None =>
  match claim_simulated t with Some cs => de_claim raw cs | None =>
  match rule_proposal_simulated t with Some rps => de_rule_proposal raw rps | None =>
  match mpp_charge_simulated t with Some mpp => de_mpp raw mpp | None =>
  match rejected t with Some r => de_rejected raw r | None =>
  match consumed t with Some c => de_consumed raw c | None => de_payment raw
  end end end end end end end end end end.

Definition deserialize (doc : PendingApprovalOnDisk) : result string PendingApproval :=
  raw ← on_disk_deserialize doc;
  k ← de_kind raw;
  Ok {| approval_nonce := d_approval_nonce raw; process_uid := d_process_uid raw;
        created_at_unix_ms := d_created_at_unix_ms raw;
        expires_at_unix_ms := d_expires_at_unix_ms raw; pa_reason := d_reason raw; kind := k;
        attestation_blob_b64 := d_attestation_blob_b64 raw;
        passkey_assertion := d_passkey_assertion raw |}.
End reading.
