(* ===== verification/ApprovalStore.v ===== *)
(** * The approval store (stellar-agent-core, [approval/store.rs], [approval/retry.rs])

    The records of one profile, in memory and in the file behind them.  Every
    operation that changes the records rewrites the file through a temporary
    file and a rename; the rewriting can fail at each of its steps, before or
    after the rename, and the records in memory keep the change.  The file is
    opened under a lock.  The lock, the directory and the steps of the rewriting
    are arguments; the TOML text is abstract. *)

From S2P Require Import Prelude RustStr Bytes RuleProposal PolicyTypes Attestation Approval ApprovalWire.
From stdpp Require Import options.

Local Open Scope string_scope.
Local Open Scope list_scope.
Local Open Scope Z_scope.

(** ** The file *)

(** [toml::to_string_pretty] and [toml::from_str] of the store file, up to the
    structures the derived code reads and writes. *)
Class TomlFile (Text : Type) := {
  to_toml : list PendingApprovalOnDisk -> result string Text;
  from_toml : Text -> result string (list PendingApprovalOnDisk);
}.

(** TOML integers are signed 64-bit numbers. *)
Definition fits_toml (d : PendingApprovalOnDisk) : Prop :=
  d_created_at_unix_ms d <= hi i64 /\ d_expires_at_unix_ms d <= hi i64 /\
  forall m, mpp_charge_simulated (sub d) = Some m -> mpp_challenge_expires_at_unix m <= hi i64.

Class TomlFileLaws (Text : Type) `{!TomlFile Text} := {
  toml_roundtrip l t : to_toml l = Ok t -> from_toml t = Ok l;
  toml_writes l : Forall fits_toml l -> is_ok (to_toml l) = true;
}.

(** The records in memory, and what the file holds ([None]: there is no file). *)
Record Store (Text : Type) := MkStore { entries : list PendingApproval; disk : option Text }.
Arguments MkStore {Text} _ _.
Arguments entries {Text} _.
Arguments disk {Text} _.

(** The steps of [persist]; the rename is [NamedTempFile::persist]. *)
Inductive PersistStep :=
| NewTemp | SetPermissions | WriteAll | SyncTemp | Rename | SyncFinal | OpenParent | SyncParent.

Definition after_rename (s : PersistStep) : bool :=
  match s with SyncFinal | OpenParent | SyncParent => true | _ => false end.

(** The step that fails, if one does. *)
Definition Fault : Type := option (PersistStep * IoErrorKind).

(** What [open] meets outside the file: a path without a parent, a directory
    that cannot be made, the lock, an unreadable file. *)
Inductive LockOutcome := LockFree | LockWouldBlock | LockIo (e : IoErrorKind).
Record OpenEnv := {
  has_parent : bool;
  create_dir : option IoErrorKind;
  try_lock : LockOutcome;
  read_error : option IoErrorKind;
}.

Definition RETRY_DEFAULT_ATTEMPTS : Z := 5.

Inductive RuleProposalGateError := GateRejected | GateRefused.

Section store.
Context {Text : Type} `{!TomlFile Text, !EscapeDebug, !Base64, !Sha2}.

#[local] Abbreviation St := (Store Text).
#[local] Abbreviation Run A := (result ApprovalError A * Store Text)%type.

(** ** Opening *)

Definition check_nonce_len (entry : PendingApproval) : result ApprovalError unit :=
  if negb (len (approval_nonce entry) =? EXPECTED_NONCE_LEN)
  then Err (InvalidEntry ("approval_nonce has wrong length: " +:+ show_Z (len (approval_nonce entry))))
  else Ok tt.

(** The records of a file: each is read by [deserialize]. *)
Definition read_file (t : Text) : result ApprovalError (list PendingApproval) :=
  ds ← map_err TomlError (from_toml t);
  pending ← map_err TomlError (mapM_res deserialize ds);
  _ ← mapM_res check_nonce_len pending;
  Ok pending.

Definition acquire (l : LockOutcome) : result ApprovalError unit :=
  match l with
  | LockFree => Ok tt
  | LockWouldBlock => Err WriterLocked
  | LockIo e => Err (Io e)
  end.

Definition open (env : OpenEnv) (file : option Text) : result ApprovalError St :=
  if negb (has_parent env) then Err (Io InvalidInput) else
  _ ← match create_dir env with Some e => Err (Io e) | None => Ok tt end;
  _ ← acquire (try_lock env);
  entries ← match file with
            | Some t => match read_error env with Some e => Err (Io e) | None => read_file t end
            | None => Ok []
            end;
  Ok (MkStore entries file).

(** [open_with_retry]: the environment may differ at each attempt, and so may the
    file, which another process holds until it lets go of the lock.  [None] is
    the loop still running; the counter is a [u32]. *)
Fixpoint retry_loop (fuel : nat) (attempts attempt : Z)
    (env : Z -> OpenEnv) (file : Z -> option Text) : option (result ApprovalError St * Z) :=
  match fuel with
  | O => None
  | S fuel' =>
      let attempt := wrap_u 32 (attempt + 1) in
      match open (env attempt) (file attempt) with
      | Ok store => Some (Ok store, attempt)
      | Err WriterLocked =>
          if attempt <? attempts then retry_loop fuel' attempts attempt env file
          else Some (Err WriterLocked, attempt)
      | Err e => Some (Err e, attempt)
      end
  end.

Definition open_with_retry (fuel : nat) (attempts : Z) (env : Z -> OpenEnv) (file : Z -> option Text)
  : option (result ApprovalError St * Z) :=
  retry_loop fuel (Z.max attempts 1) 0 env file.

(** ** Writing *)

Definition persist (fault : Fault) (s : St) : Run unit :=
  match to_toml (serialize <$> entries s) with
  | Err detail => (Err (TomlError detail), s)
  | Ok content =>
      match fault with
      | None => (Ok tt, MkStore (entries s) (Some content))
      | Some (step, e) =>
          (Err (Io e), if after_rename step then MkStore (entries s) (Some content) else s)
      end
  end.

(** Records replaced in memory, then persisted. *)
Definition commit (fault : Fault) (es : list PendingApproval) (s : St) : Run unit :=
  persist fault (MkStore es (disk s)).

Definition retain (f : PendingApproval -> bool) (es : list PendingApproval) : list PendingApproval :=
  List.filter f es.

Definition has_nonce (n : string) (e : PendingApproval) : bool := bool_decide (approval_nonce e = n).

Definition insert (fault : Fault) (entry : PendingApproval) (now_unix_ms : Z) (s : St) : Run unit :=
  let es := retain (fun e => negb (is_expired e now_unix_ms)) (entries s) in
  if MAX_PENDING_APPROVALS <=? count es then
    match commit fault es s with
    | (Ok _, s') => (Err (pending_store_full MAX_PENDING_APPROVALS), s')
    | (Err e, s') => (Err e, s')
    end
  else if existsb (has_nonce (approval_nonce entry)) es
  then (Err (duplicate_nonce (approval_nonce entry)), MkStore es (disk s))
  else commit fault (es ++ [entry]) s.

Definition get (s : St) (n : string) : option PendingApproval := List.find (has_nonce n) (entries s).

(** [iter_mut().find(..)] and an update of the record found, which may refuse. *)
Fixpoint update_first (n : string) (f : PendingApproval -> result ApprovalError PendingApproval)
    (es : list PendingApproval) : result ApprovalError (list PendingApproval) :=
  match es with
  | [] => Err NotFound
  | e :: es' =>
      if has_nonce n e then e' ← f e; Ok (e' :: es')
      else es'' ← update_first n f es'; Ok (e :: es'')
  end.

Definition modify (fault : Fault) (n : string)
    (f : PendingApproval -> result ApprovalError PendingApproval) (s : St) : Run unit :=
  match update_first n f (entries s) with
  | Err e => (Err e, s)
  | Ok es => commit fault es s
  end.

Definition set_attestation (e : PendingApproval) (blob : option string) : PendingApproval :=
  {| approval_nonce := approval_nonce e; process_uid := process_uid e;
     created_at_unix_ms := created_at_unix_ms e; expires_at_unix_ms := expires_at_unix_ms e;
     pa_reason := pa_reason e; kind := kind e; attestation_blob_b64 := blob;
     passkey_assertion := passkey_assertion e |}.

(** The three recorders of an attestation differ in the kinds they take. *)
Definition attest_entry (takes : ApprovalKind -> bool) (expected : string) (attestation_blob : list Z)
    (now_ms : Z) (entry : PendingApproval) : result ApprovalError PendingApproval :=
  if is_expired entry now_ms then Err Expired
  else if negb (takes (kind entry)) then Err (WrongKind expected (kind_name (kind entry)))
  else if is_some (attestation_blob_b64 entry) then Err AlreadyAttested
  else Ok (set_attestation entry (Some (base64_encode attestation_blob))).

Definition takes_envelope (k : ApprovalKind) : bool :=
  match k with
  | PaymentSimulated _ _ _ _ _ _ _ _ | ClaimSimulated _ _ _ _ _ _ _ _ _
  | TrustlineSimulated _ _ _ _ _ _ _ _ | MppChargeSimulated _ _ _ _ _ _ _ _ _ _ _ _ _ => true
  | _ => false
  end.

Definition takes_clawback (k : ApprovalKind) : bool :=
  match k with TrustlineClawbackOptIn _ _ _ => true | _ => false end.

Definition takes_rule_proposal (k : ApprovalKind) : bool :=
  match k with RuleProposalSimulated _ _ _ _ _ _ _ => true | _ => false end.

Definition record_attestation_at (fault : Fault) (n : string) (attestation_blob : list Z)
    (now_ms : Z) : St -> Run unit :=
  modify fault n
    (attest_entry takes_envelope
       "PaymentSimulated, ClaimSimulated, TrustlineSimulated, or MppChargeSimulated"
       attestation_blob now_ms).

Definition record_trustline_clawback_opt_in_attestation_at (fault : Fault) (n : string)
    (attestation_blob : list Z) (now_ms : Z) : St -> Run unit :=
  modify fault n (attest_entry takes_clawback "TrustlineClawbackOptIn" attestation_blob now_ms).

Definition record_rule_proposal_attestation_at (fault : Fault) (n : string)
    (attestation_blob : list Z) (now_ms : Z) : St -> Run unit :=
  modify fault n (attest_entry takes_rule_proposal "RuleProposalSimulated" attestation_blob now_ms).

(** The public recorders read the clock first. *)
Definition with_clock (now : result ApprovalError Z) (op : Z -> St -> Run unit) (s : St) : Run unit :=
  match now with Err e => (Err e, s) | Ok now_ms => op now_ms s end.

Definition record_attestation (fault : Fault) (n : string) (blob : list Z)
    (now : result ApprovalError Z) : St -> Run unit :=
  with_clock now (record_attestation_at fault n blob).
Definition record_trustline_clawback_opt_in_attestation (fault : Fault) (n : string)
    (blob : list Z) (now : result ApprovalError Z) : St -> Run unit :=
  with_clock now (record_trustline_clawback_opt_in_attestation_at fault n blob).
Definition record_rule_proposal_attestation (fault : Fault) (n : string) (blob : list Z)
    (now : result ApprovalError Z) : St -> Run unit :=
  with_clock now (record_rule_proposal_attestation_at fault n blob).

Definition assert_entry (assertion : AssertionInput) (now_ms : Z) (entry : PendingApproval)
  : result ApprovalError PendingApproval :=
  if is_expired entry now_ms then Err Expired
  else match kind entry with
       | SignWithPasskey _ _ _ _ _ _ =>
           if is_some (passkey_assertion entry) then Err AlreadyAttested
           else
           _ ← map_err Invalid (validate_assertion_input_invariants assertion);
           Ok {| approval_nonce := approval_nonce entry; process_uid := process_uid entry;
                 created_at_unix_ms := created_at_unix_ms entry;
                 expires_at_unix_ms := expires_at_unix_ms entry; pa_reason := pa_reason entry;
                 kind := kind entry; attestation_blob_b64 := attestation_blob_b64 entry;
                 passkey_assertion := Some assertion |}
       | other => Err (WrongKind "SignWithPasskey" (kind_name other))
       end.

Definition record_passkey_assertion (fault : Fault) (n : string) (assertion : AssertionInput)
    (now : result ApprovalError Z) : St -> Run unit :=
  with_clock now (fun now_ms => modify fault n (assert_entry assertion now_ms)).

(** The registration is not checked here: its constructor did. *)
Definition register_entry (registration : RegistrationInput) (now_ms : Z) (entry : PendingApproval)
  : result ApprovalError PendingApproval :=
  if is_expired entry now_ms then Err Expired
  else match kind entry with
       | RegisterPasskey sa rules csrf rp user registration_input =>
           if is_some registration_input then Err AlreadyAttested
           else
           Ok {| approval_nonce := approval_nonce entry; process_uid := process_uid entry;
                 created_at_unix_ms := created_at_unix_ms entry;
                 expires_at_unix_ms := expires_at_unix_ms entry; pa_reason := pa_reason entry;
                 kind := RegisterPasskey sa rules csrf rp user (Some registration);
                 attestation_blob_b64 := attestation_blob_b64 entry;
                 passkey_assertion := passkey_assertion entry |}
       | other => Err (WrongKind "RegisterPasskey" (kind_name other))
       end.

Definition record_passkey_registration (fault : Fault) (n : string)
    (registration : RegistrationInput) (now : result ApprovalError Z) : St -> Run unit :=
  with_clock now (fun now_ms => modify fault n (register_entry registration now_ms)).

Definition remove (fault : Fault) (n : string) (s : St) : Run bool :=
  let es := retain (fun e => negb (has_nonce n e)) (entries s) in
  let removed := count es <? count (entries s) in
  if removed then
    match commit fault es s with
    | (Ok _, s') => (Ok removed, s')
    | (Err e, s') => (Err e, s')
    end
  else (Ok removed, MkStore es (disk s)).

(** [position] of a nonce followed by an assignment to that index. *)
Definition replace (fault : Fault) (n : string)
    (f : PendingApproval -> result ApprovalError PendingApproval) (s : St) : Run bool :=
  match update_first n f (entries s) with
  | Err NotFound => (Ok false, s)
  | Err e => (Err e, s)
  | Ok es =>
      match commit fault es s with
      | (Ok _, s') => (Ok true, s')
      | (Err e, s') => (Err e, s')
      end
  end.

Definition tombstone_rejected (n : string) (now_unix_ms ttl_ms : Z) (entry : PendingApproval)
  : result ApprovalError PendingApproval :=
  Ok {| approval_nonce := n; process_uid := process_uid entry;
        created_at_unix_ms := now_unix_ms;
        expires_at_unix_ms := sat_add u64 now_unix_ms ttl_ms; pa_reason := None;
        kind := Rejected (kind_name (kind entry));
        attestation_blob_b64 := None; passkey_assertion := None |}.

Definition reject (fault : Fault) (n : string) (now_unix_ms ttl_ms : Z) : St -> Run bool :=
  replace fault n (tombstone_rejected n now_unix_ms ttl_ms).

Definition tombstone_consumed (n tx_hash : string) (outcome : ConsumedOutcome)
    (existing : PendingApproval) : result ApprovalError PendingApproval :=
  let original_kind_name := kind_name (kind existing) in
  _ ← map_err InvalidEntry (validate_consumed_invariants original_kind_name tx_hash (label outcome));
  Ok {| approval_nonce := n; process_uid := process_uid existing;
        created_at_unix_ms := created_at_unix_ms existing;
        expires_at_unix_ms := expires_at_unix_ms existing; pa_reason := None;
        kind := Consumed original_kind_name tx_hash outcome;
        attestation_blob_b64 := attestation_blob_b64 existing; passkey_assertion := None |}.

Definition consume (fault : Fault) (n tx_hash : string) (outcome : ConsumedOutcome)
  : St -> Run bool :=
  replace fault n (tombstone_consumed n tx_hash outcome).

Definition gc_expired (fault : Fault) (now_unix_ms : Z) (s : St) : Run Z :=
  let es := retain (fun e => negb (is_expired e now_unix_ms)) (entries s) in
  let removed := count (entries s) - count es in
  if 0 <? removed then
    match commit fault es s with
    | (Ok _, s') => (Ok removed, s')
    | (Err e, s') => (Err e, s')
    end
  else (Ok removed, MkStore es (disk s)).

(** ** Gates *)

(** A stored blob as 32 bytes. *)
Definition decode_blob (b64 : string) : option (list Z) :=
  bytes ← base64_decode b64;
  if count bytes =? 32 then Some bytes else None.

Definition verify_mpp_charge_attestation (s : St) (key : list Z) (binding : AttestationBinding)
    (n : string) (authorization_fingerprint prepared_artifact_hash : list Z) (now_unix_ms : Z)
  : bool :=
  match get s n with
  | None => false
  | Some entry =>
      if is_expired entry now_unix_ms then false
      else match kind entry with
           | MppChargeSimulated stored_fingerprint stored_artifact profile chain_id
               _ _ _ _ _ _ _ _ _ =>
               if negb (bool_decide (profile = profile_name binding)
                        && bool_decide (chain_id = binding_chain_id binding)) then false
               else if negb (bool_decide (stored_fingerprint = authorization_fingerprint)
                             && bool_decide (stored_artifact = prepared_artifact_hash)) then false
               else match attestation_blob_b64 entry ≫= decode_blob with
                    | None => false
                    | Some blob =>
                        verify_attestation key binding (approval_nonce entry)
                          prepared_artifact_hash (process_uid entry) blob
                    end
           | _ => false
           end
  end.

Definition is_clawback_of (network code issuer : string) (k : ApprovalKind) : bool :=
  match k with
  | TrustlineClawbackOptIn n c iss =>
      bool_decide (n = network) && bool_decide (c = code) && bool_decide (iss = issuer)
  | _ => false
  end.

Definition has_attested_trustline_clawback_opt_in (s : St) (network code issuer : string)
    (now_unix_ms : Z) : bool :=
  existsb (fun e =>
    if is_expired e now_unix_ms then false
    else if negb (is_some (attestation_blob_b64 e)) then false
    else is_clawback_of network code issuer (kind e)) (entries s).

Definition verify_attested_trustline_clawback_opt_in (s : St) (key : list Z)
    (binding : AttestationBinding) (network code issuer : string) (now_unix_ms : Z) : bool :=
  let digest := compute_trustline_clawback_opt_in_digest network code issuer in
  existsb (fun e =>
    if is_expired e now_unix_ms then false
    else if negb (is_clawback_of network code issuer (kind e)) then false
    else match attestation_blob_b64 e ≫= decode_blob with
         | None => false
         | Some blob_arr =>
             verify_attestation key binding (approval_nonce e) digest (process_uid e) blob_arr
         end) (entries s).

Definition verify_rule_proposal_gate (s : St) (n : string) (recomputed_proposal_sha256 : list Z)
    (attestation_key : list Z) (binding : AttestationBinding) (attestation_blob : list Z)
    (now_unix_ms : Z) : result RuleProposalGateError unit :=
  entry ← ok_or GateRefused (get s n);
  if is_expired entry now_unix_ms then Err GateRefused
  else match kind entry with
       | Rejected _ => Err GateRejected
       | RuleProposalSimulated _ _ _ chain_id _ proposal_sha256 _ =>
           if negb (bool_decide (chain_id = binding_chain_id binding))
              || negb (bool_decide (proposal_sha256 = recomputed_proposal_sha256))
           then Err GateRefused
           else if negb (verify_attestation attestation_key binding n proposal_sha256
                           (process_uid entry) attestation_blob)
           then Err GateRefused
           else Ok tt
       | _ => Err GateRefused
       end.
End store.
