(* ===== verification/ApprovalWireProps.v ===== *)
(** * The approval file, read and written

    The records the reader accepts are exactly the written forms of well-formed
    approvals: reading inverts writing, no record has two readings, and what was
    read satisfies every field invariant. *)

From S2P Require Import Prelude RustStr Bytes RuleProposal PolicyTypes Attestation Approval ApprovalWire.
From stdpp Require Import options.
Set Default Proof Using "Type*".

Local Open Scope string_scope.
Local Open Scope list_scope.
Local Open Scope Z_scope.

Section spec.
Context `{ED : !EscapeDebug, BB : !Base64}.

(** ** Well-formed approvals *)

Definition memo_ok (memo : option string) : Prop :=
  forall s, memo = Some s -> len s <= 28 /\ str_all is_memo_char s = true.

(** The fields of a kind pass their checks. *)
Definition kind_ok (k : ApprovalKind) : Prop :=
  match k with
  | PaymentSimulated _ _ to _ asset memo _ _ =>
      strkey_shape 56 "G" to = true /\ asset_text_valid asset = true /\ memo_ok memo
  | SignWithPasskey _ cred sa rules _ rp =>
      validate_sign_with_passkey_invariants cred rules sa rp = Ok tt
  | ToolsetFirstInvokeGate t c d a mn mx =>
      validate_toolset_first_invoke_gate_invariants t c d a mn mx = Ok tt
  | TrustlineClawbackOptIn n c i => validate_trustline_clawback_opt_in_invariants n c i = Ok tt
  | TrustlineSimulated _ _ holder code issuer limit _ _ =>
      validate_trustline_simulated_invariants holder code issuer limit = Ok tt
  | ClaimSimulated _ _ hex72 strkey asset amount source _ _ =>
      validate_claim_simulated_invariants hex72 strkey asset amount source = Ok tt
  | RegisterPasskey sa rules _ rp _ registration =>
      validate_register_passkey_invariants sa rules rp = Ok tt /\
      forall r, registration = Some r -> validate_registration r = Ok tt
  | RuleProposalSimulated sa redacted _ _ definition _ _ =>
      validate_smart_account_full sa = Ok tt /\ validate_smart_account_redacted redacted = Ok tt /\
      redact_g_strkey sa = redacted /\ validate_context_rule_proposal_snapshot definition = Ok tt
  | MppChargeSimulated fp art profile chain payer transport authority target amount currency
      recipient expires fee =>
      validate_mpp_charge_simulated_invariants
        (Build_MppChargeSimulatedWire fp art profile chain payer transport authority target amount
           currency recipient expires fee) = Ok tt
  | Rejected name => 1 <= len name <= 64
  | Consumed name tx outcome => validate_consumed_invariants name tx (label outcome) = Ok tt
  end.

(** The kinds whose record may carry an attestation. *)
Definition attestable (k : ApprovalKind) : bool :=
  match k with
  | SignWithPasskey _ _ _ _ _ _ | RegisterPasskey _ _ _ _ _ _
  | ToolsetFirstInvokeGate _ _ _ _ _ _ | Rejected _ => false
  | _ => true
  end.

Definition is_sign_with_passkey (k : ApprovalKind) : bool :=
  match k with SignWithPasskey _ _ _ _ _ _ => true | _ => false end.

Record record_ok (p : PendingApproval) : Prop := {
  ok_nonce : len (approval_nonce p) = EXPECTED_NONCE_LEN /\
             str_all is_base64url (approval_nonce p) = true;
  ok_uid : process_uid_is_valid (process_uid p) = true;
  ok_kind : kind_ok (kind p);
  ok_attestation : attestable (kind p) = false -> attestation_blob_b64 p = None;
  ok_assertion a : passkey_assertion p = Some a ->
    is_sign_with_passkey (kind p) = true /\ validate_assertion_input_invariants a = Ok tt;
}.

(** ** Fields that are refused *)

Lemma is_some_false {A} (o : option A) : is_some o = false <-> o = None.
Proof. by destruct o. Qed.

Lemma refuse_present_Ok kind fields :
  refuse_present kind fields = Ok tt <-> Forall (fun e => snd e = false) fields.
Proof.
  induction fields as [|[f []] l IH]; simpl; [by split|..].
  - split; [done|]. by intros [? _]%Forall_cons.
  - rewrite IH, Forall_cons. naive_solver.
Qed.

Lemma flat_fields_none f : Forall (fun e => snd e = false) (flat_fields f) <-> f = no_payment.
Proof.
  destruct f as [[] [] [] [] [] [] [] []];
    (split; [intros H; by repeat (apply Forall_cons in H as [? H])|try done]).
  intros _. by repeat constructor.
Qed.

Lemma present_count l :
  count (fst <$> List.filter snd l : list string)
  = foldr (fun (e : string * bool) z => Z.b2z (snd e) + z) 0 l.
Proof.
  unfold count. induction l as [|[f []] l IH]; [done|..]; cbn [List.filter snd foldr];
    rewrite <- IH; [|done]. rewrite fmap_cons. cbn [length]. change (Z.b2z true) with 1. lia.
Qed.

Lemma b2z_zero b : Z.b2z b <= 0 -> b = false.
Proof. by destruct b. Qed.

Lemma b2z_nonneg b : 0 <= Z.b2z b.
Proof. by destruct b. Qed.

(** When one sub-table is there, the others are not. *)
Lemma one_subtable t :
  (1 <? count (present_subtables t)) = false ->
  Z.b2z (is_some (sign_with_passkey t)) + Z.b2z (is_some (register_passkey t))
  + Z.b2z (is_some (toolset_first_invoke_gate t)) + Z.b2z (is_some (trustline_clawback_opt_in t))
  + Z.b2z (is_some (trustline_simulated t)) + Z.b2z (is_some (claim_simulated t))
  + Z.b2z (is_some (rule_proposal_simulated t)) + Z.b2z (is_some (mpp_charge_simulated t))
  + Z.b2z (is_some (rejected t)) + Z.b2z (is_some (consumed t)) <= 1.
Proof. intros H%Z.ltb_ge. unfold present_subtables in H. rewrite present_count in H. simpl in H. lia. Qed.

(** The checks of the derived reader return what they were given. *)
Lemma opt_check_Ok {A} (o r : option A) (check : A -> bool) (e : A -> string) :
  match o with None => Ok None | Some s => if check s then Ok (Some s) else Err (e s) end = Ok r <->
  r = o /\ forall s, o = Some s -> check s = true.
Proof.
  destruct o as [s|]; [destruct (check s) eqn:E|]; split.
  - intros [= <-]. naive_solver.
  - by intros [-> _].
  - done.
  - intros [_ H]. specialize (H _ eq_refl). congruence.
  - intros [= <-]. naive_solver.
  - by intros [-> _].
Qed.

Lemma nonce_check_Ok s r :
  deserialize_approval_nonce s = Ok r <->
  r = s /\ len s = EXPECTED_NONCE_LEN /\ str_all is_base64url s = true.
Proof.
  unfold deserialize_approval_nonce. destruct (Z.eqb_spec (len s) EXPECTED_NONCE_LEN); simpl;
    [|naive_solver]. destruct (str_all is_base64url s); simpl; naive_solver.
Qed.

Lemma memo_check_Ok o r : deserialize_opt_summary_memo o = Ok r <-> r = o /\ memo_ok o.
Proof.
  unfold deserialize_opt_summary_memo, memo_ok. destruct o as [m|]; [|naive_solver].
  destruct (Z.ltb_spec 28 (len m)); simpl.
  - split; [done|]. intros [_ H']. destruct (H' _ eq_refl). lia.
  - destruct (str_all is_memo_char m) eqn:E; simpl; split; try done.
    + intros [= <-]. split; [done|]. by intros s [= <-].
    + by intros [-> _].
    + intros [_ H']. destruct (H' _ eq_refl). congruence.
Qed.

(** The derived reader changes nothing and runs the five field checks. *)
Lemma on_disk_Ok d raw :
  on_disk_deserialize d = Ok raw <->
  raw = d /\
  (len (d_approval_nonce d) = EXPECTED_NONCE_LEN /\ str_all is_base64url (d_approval_nonce d) = true) /\
  process_uid_is_valid (d_process_uid d) = true /\
  (forall s, f_summary_to (payment d) = Some s -> strkey_shape 56 "G" s = true) /\
  (forall s, f_summary_asset (payment d) = Some s -> asset_text_valid s = true) /\
  memo_ok (f_summary_memo (payment d)).
Proof.
  unfold on_disk_deserialize, deserialize_process_uid, deserialize_opt_summary_to,
    deserialize_opt_summary_asset. rewrite res_bind_Ok. setoid_rewrite nonce_check_Ok.
  destruct (process_uid_is_valid (d_process_uid d)); simpl; [|naive_solver].
  setoid_rewrite res_bind_Ok. setoid_rewrite res_bind_Ok. setoid_rewrite res_bind_Ok.
  setoid_rewrite (opt_check_Ok (f_summary_to (payment d))).
  setoid_rewrite (opt_check_Ok (f_summary_asset (payment d))).
  setoid_rewrite memo_check_Ok. naive_solver.
Qed.

(** ** Reading what was written *)

Lemma on_disk_serialize p : record_ok p -> on_disk_deserialize (serialize p) = Ok (serialize p).
Proof.
  intros [Hn Hu Hk _ _]. apply on_disk_Ok. split; [done|]. split; [done|]. split; [done|].
  destruct p as [n u c e r k a s]; destruct k; unfold memo_ok in *; simpl in *;
    (split; [|split]); intros ? H; try discriminate H; destruct Hk as (? & ? & Hm);
    [congruence..|by apply Hm].
Qed.

Lemma no_assertion p :
  record_ok p -> is_sign_with_passkey (kind p) = false -> passkey_assertion p = None.
Proof.
  intros Hp Hk. destruct (passkey_assertion p) as [a|] eqn:E; [|done].
  destruct (ok_assertion p Hp a E). congruence.
Qed.

Lemma parse_label o : ConsumedOutcome_parse (label o) = Ok o.
Proof. by destruct o. Qed.

Lemma registration_slot_Ok o :
  (forall r, o = Some r -> validate_registration r = Ok tt) ->
  match o with Some ri => validate_registration ri | None => Ok tt end = Ok tt.
Proof. destruct o; naive_solver. Qed.

Lemma ser_sub_one k : (1 <? count (present_subtables (ser_sub k))) = false.
Proof. by destruct k. Qed.

Lemma de_kind_serialize p : record_ok p -> de_kind (serialize p) = Ok (kind p).
Proof.
  intros Hp. pose proof (ok_kind p Hp) as Hk. pose proof (ok_attestation p Hp) as Ha.
  pose proof (no_assertion p Hp) as Hs. pose proof (ok_assertion p Hp) as Hsa.
  unfold de_kind. cbn [sub serialize]. rewrite ser_sub_one.
  destruct p as [n u c e r k a s]. destruct k; cbn [kind attestation_blob_b64 passkey_assertion
    attestable is_sign_with_passkey kind_ok] in *;
    try rewrite (Ha eq_refl); try rewrite (Hs eq_refl); cbn -[validate_mpp_charge_simulated_invariants
      validate_sign_with_passkey_invariants validate_toolset_first_invoke_gate_invariants
      validate_trustline_clawback_opt_in_invariants validate_trustline_simulated_invariants
      validate_claim_simulated_invariants validate_register_passkey_invariants
      validate_smart_account_full validate_smart_account_redacted redact_g_strkey
      validate_context_rule_proposal_snapshot validate_consumed_invariants ConsumedOutcome_parse
      validate_registration validate_assertion_input_invariants len Z.ltb].
  - done.
  - rewrite Hk. simpl. destruct s as [s|]; [|done]. by rewrite (proj2 (Hsa s eq_refl)).
  - by rewrite Hk.
  - by rewrite Hk.
  - by rewrite Hk.
  - by rewrite Hk.
  - destruct Hk as [Hk Hr]. rewrite Hk. simpl. by rewrite registration_slot_Ok.
  - destruct Hk as (Hf & Hr & He & Hd). rewrite Hf. simpl. rewrite Hr. simpl.
    rewrite He, bool_decide_eq_true_2 by done. simpl. by rewrite Hd.
  - by rewrite Hk.
  - destruct original_kind_name; [by destruct Hk|]. simpl.
    by rewrite (proj2 (Z.ltb_ge _ _)) by apply Hk.
  - by rewrite Hk, parse_label.
Qed.

Lemma deserialize_serialize p : record_ok p -> deserialize (serialize p) = Ok p.
Proof.
  intros Hp. unfold deserialize. rewrite on_disk_serialize by done. simpl.
  rewrite de_kind_serialize by done. by destruct p.
Qed.

(** ** What is read was written *)

(** What a branch of the reader found: the kind, its checks, and the slots of the
    record that the kind may use. *)
Definition reads_as (raw : PendingApprovalOnDisk) (k : ApprovalKind) : Prop :=
  payment raw = ser_payment k /\ d_registration_input raw = ser_registration k /\
  (attestable k = false -> d_attestation_blob_b64 raw = None) /\
  (forall a, d_passkey_assertion raw = Some a ->
     is_sign_with_passkey k = true /\ validate_assertion_input_invariants a = Ok tt) /\
  ((forall s, f_summary_to (payment raw) = Some s -> strkey_shape 56 "G" s = true) ->
   (forall s, f_summary_asset (payment raw) = Some s -> asset_text_valid s = true) ->
   memo_ok (f_summary_memo (payment raw)) -> kind_ok k).

(** Opens the list of refused fields. *)
Ltac refused H :=
  match type of H with refuse_present _ _ = Ok ?u => destruct u end;
  apply refuse_present_Ok in H; unfold f_attestation, f_assertion, f_registration in H;
  repeat match type of H with
  | Forall _ (_ ++ _) => let H1 := fresh in apply Forall_app in H as [H1 H];
      first [apply flat_fields_none in H1 | apply Forall_cons in H1 as [H1 _]; cbn [snd] in H1;
             apply is_some_false in H1 | clear H1]
  end;
  try (apply Forall_cons in H as [H _]; cbn [snd] in H; apply is_some_false in H).

Lemma units {E} (m : result E unit) u : m = Ok u -> m = Ok tt.
Proof. by destruct u. Qed.

(** Splits [reads_as]; the slots follow from what was refused, the rest is left. *)
Ltac reads := split; [|done]; split; [done|]; split; [try done|]; split; [by intros|]; split;
  [intros asn Easn; try congruence|].

Lemma de_sign_with_passkey_reads raw w k :
  de_sign_with_passkey raw w = Ok k -> reads_as raw k /\ ser_sign_with_passkey k = Some w.
Proof.
  unfold de_sign_with_passkey. intros H. res_inv. refused H0. destruct w. reads.
  - rewrite Easn in H2. split; [done|]. by eapply units.
  - intros _ _ _. by eapply units.
Qed.

Lemma de_register_passkey_reads raw w k :
  de_register_passkey raw w = Ok k -> reads_as raw k /\ ser_register_passkey k = Some w.
Proof.
  unfold de_register_passkey. intros H. res_inv. refused H0. destruct w. reads.
  intros _ _ _. split; [by eapply units|]. intros r Er. rewrite Er in H2. by eapply units.
Qed.

Lemma de_toolset_gate_reads raw w k :
  de_toolset_gate raw w = Ok k -> reads_as raw k /\ ser_toolset_gate k = Some w.
Proof.
  unfold de_toolset_gate. intros H. res_inv. refused H0. destruct w. reads.
  intros _ _ _. by eapply units.
Qed.

Lemma de_clawback_opt_in_reads raw w k :
  de_clawback_opt_in raw w = Ok k -> reads_as raw k /\ ser_clawback_opt_in k = Some w.
Proof.
  unfold de_clawback_opt_in. intros H. res_inv. refused H0. destruct w. reads.
  intros _ _ _. by eapply units.
Qed.

Lemma de_trustline_reads raw w k :
  de_trustline raw w = Ok k -> reads_as raw k /\ ser_trustline k = Some w.
Proof.
  unfold de_trustline. intros H. res_inv. refused H0. destruct w. reads.
  intros _ _ _. by eapply units.
Qed.

Lemma de_claim_reads raw w k :
  de_claim raw w = Ok k -> reads_as raw k /\ ser_claim k = Some w.
Proof.
  unfold de_claim. intros H. res_inv. refused H0. destruct w. reads.
  intros _ _ _. by eapply units.
Qed.

Lemma de_rule_proposal_reads raw w k :
  de_rule_proposal raw w = Ok k -> reads_as raw k /\ ser_rule_proposal k = Some w.
Proof.
  unfold de_rule_proposal. intros H. res_inv. refused H0. destruct w.
  case_bool_decide as Hr; simpl in H; [|done]. res_inv. reads.
  intros _ _ _. split; [by eapply units|]. split; [by eapply units|]. split; [done|].
  by eapply units.
Qed.

Lemma de_mpp_reads raw w k : de_mpp raw w = Ok k -> reads_as raw k /\ ser_mpp k = Some w.
Proof.
  unfold de_mpp. intros H. res_inv. refused H0. destruct w. reads.
  intros _ _ _. by eapply units.
Qed.

Lemma de_rejected_reads raw w k :
  de_rejected raw w = Ok k -> reads_as raw k /\ ser_rejected k = Some w.
Proof.
  unfold de_rejected. intros H. res_inv. refused H0. destruct w as [n].
  cases_in H. res_inv. reads. intros _ _ _. simpl in *.
  apply orb_false_iff in E as [E1 E2%Z.ltb_ge]. destruct n; [done|]. unfold len in *. simpl in *. lia.
Qed.

Lemma label_parse s o : ConsumedOutcome_parse s = Ok o -> label o = s.
Proof. unfold ConsumedOutcome_parse. repeat case_bool_decide; intros [=]; by subst. Qed.

Lemma de_consumed_reads raw w k :
  de_consumed raw w = Ok k -> reads_as raw k /\ ser_consumed k = Some w.
Proof.
  unfold de_consumed. intros H. res_inv. refused H0. destruct w as [n t o]. simpl in *.
  apply label_parse in H2 as <-. reads. intros _ _ _. by eapply units.
Qed.

Lemma de_payment_reads raw k : de_payment raw = Ok k -> reads_as raw k /\ ser_sub k = no_sub.
Proof.
  unfold de_payment, missing_field. intros H. cases_in H. apply is_some_false in E, E0. res_inv.
  split; [|done]. split; [|split; [done|split; [done|split; [intros ? ?; congruence|]]]].
  - simpl. destruct (payment raw); simpl in *. congruence.
  - intros Ht Ha Hm. split; [by apply Ht|]. split; [by apply Ha|done].
Qed.
(** The other sub-tables of a record with one are absent. *)
Ltac others_absent Hone :=
  repeat match goal with
  | H : 0 <= Z.b2z (is_some ?o) |- _ =>
      is_var o; let E := fresh in
      assert (E : o = None) by (apply is_some_false, b2z_zero; simpl in Hone; lia);
      clear H; subst o
  end.

Ltac sub_arm lem Hone :=
  let Hs := fresh in
  intros [? Hs]%lem; split; [done|]; others_absent Hone;
  match goal with k : ApprovalKind |- _ => destruct k; by simplify_eq/= end.

Lemma de_kind_reads raw k : de_kind raw = Ok k -> reads_as raw k /\ sub raw = ser_sub k.
Proof.
  unfold de_kind. destruct (1 <? count (present_subtables (sub raw))) eqn:Hone; [done|].
  apply one_subtable in Hone. destruct (sub raw) as [a b c d e f g h i j].
  cbn [sign_with_passkey register_passkey toolset_first_invoke_gate trustline_clawback_opt_in
       trustline_simulated claim_simulated rule_proposal_simulated mpp_charge_simulated rejected
       consumed] in *.
  pose proof (b2z_nonneg (is_some a)). pose proof (b2z_nonneg (is_some b)).
  pose proof (b2z_nonneg (is_some c)). pose proof (b2z_nonneg (is_some d)).
  pose proof (b2z_nonneg (is_some e)). pose proof (b2z_nonneg (is_some f)).
  pose proof (b2z_nonneg (is_some g)). pose proof (b2z_nonneg (is_some h)).
  pose proof (b2z_nonneg (is_some i)). pose proof (b2z_nonneg (is_some j)).
  destruct a as [w|]. { sub_arm de_sign_with_passkey_reads Hone. }
  destruct b as [w|]. { sub_arm de_register_passkey_reads Hone. }
  destruct c as [w|]. { sub_arm de_toolset_gate_reads Hone. }
  destruct d as [w|]. { sub_arm de_clawback_opt_in_reads Hone. }
  destruct e as [w|]. { sub_arm de_trustline_reads Hone. }
  destruct f as [w|]. { sub_arm de_claim_reads Hone. }
  destruct g as [w|]. { sub_arm de_rule_proposal_reads Hone. }
  destruct h as [w|]. { sub_arm de_mpp_reads Hone. }
  destruct i as [w|]. { sub_arm de_rejected_reads Hone. }
  destruct j as [w|]. { sub_arm de_consumed_reads Hone. }
  intros [Hr Hs]%de_payment_reads. split; [done|]. by rewrite Hs.
Qed.
(** C34: A record of the approval file is accepted exactly when it is the written form
    of a well-formed approval, and reading gives that approval back: nonce and
    owner shaped, the fields of its kind checked, no field of another kind, an
    attestation and an assertion only on the kinds that have one. *)
Theorem approval_file_exact d p : deserialize d = Ok p <-> record_ok p /\ d = serialize p.
Proof.
  split; [|by intros [Hp ->]; apply deserialize_serialize].
  unfold deserialize. intros H. res_inv.
  apply on_disk_Ok in H0 as (-> & Hn & Hu & Ht & Ha & Hm).
  apply de_kind_reads in H1 as [(Hp & Hr & Hat & Has & Hk) Hs].
  split; [by split; auto|]. destruct d; simpl in *. unfold serialize; simpl. congruence.
Qed.
End spec.

(** ** What the constructors build *)

Lemma str_all_substring f s a n : str_all f s = true -> str_all f (String.substring a n s) = true.
Proof.
  revert a n. induction s as [|c s IH]; intros [|a] [|n] H; simpl in *; try done;
    apply andb_true_iff in H as [Hc Hs].
  - rewrite Hc. by apply IH.
  - by apply IH.
  - by apply IH.
Qed.

Lemma substring_length s a n :
  (a + n <= String.length s)%nat -> String.length (String.substring a n s) = n.
Proof.
  revert a n. induction s as [|c s IH]; intros [|a] [|n] H; simpl in *; try lia.
  - f_equal. apply IH. lia.
  - apply IH. lia.
  - apply IH. lia.
Qed.

Lemma base32_boundary a : is_base32 a = true -> is_continuation a = false.
Proof. unfold is_base32, is_ascii_upper, is_continuation, byte_in. lia. Qed.

Lemma str_all_get f s i c : str_all f s = true -> String.get i s = Some c -> f c = true.
Proof.
  revert i. induction s as [|b s IH]; intros [|i] H Hi; simpl in *; try done;
    apply andb_true_iff in H as [Hb Hs]; [congruence|by eapply IH].
Qed.

Lemma get_length s i : String.get i s = None <-> (String.length s <= i)%nat.
Proof.
  revert i. induction s as [|b s IH]; intros [|i]; simpl.
  - split; [intros _; lia|done].
  - split; [intros _; lia|done].
  - split; [done|lia].
  - rewrite IH. lia.
Qed.

Lemma boundary_base32 s i :
  str_all is_base32 s = true -> (i <= String.length s)%nat -> is_char_boundary s i = true.
Proof.
  intros Hs Hi. unfold is_char_boundary. destruct (String.get i s) as [c|] eqn:E.
  - by rewrite (base32_boundary c) by by eapply str_all_get.
  - apply get_length in E. apply Nat.eqb_eq. lia.
Qed.

Lemma strkey_shape_spec n c s :
  strkey_shape n c s = true <->
  exists t, s = String c t /\ len s = n /\ str_all is_base32 t = true.
Proof.
  unfold strkey_shape. rewrite !andb_true_iff, Z.eqb_eq. destruct s as [|a t]; simpl.
  - split; [naive_solver|]. by intros (? & ? & _).
  - rewrite bool_decide_eq_true. naive_solver.
Qed.

(** The redaction of a contract key has the shape the reader asks for. *)
Lemma redact_full_ok `{!EscapeDebug} s :
  strkey_shape 56 "C" s = true -> validate_smart_account_redacted (redact_g_strkey s) = Ok tt.
Proof.
  intros (t & -> & Hl & Ht)%strkey_shape_spec.
  assert (Hs : str_all is_base32 (String "C" t) = true) by by simpl.
  unfold len in Hl. remember (String "C" t) as s eqn:Es.
  assert (Hn : String.length s = 56%nat) by lia.
  unfold redact_g_strkey, str_get, len. rewrite Hn. simpl.
  rewrite !boundary_base32 by (done || lia). simpl.
  assert (Hab : forall k, (k + 5 <= 56)%nat -> exists b c d e f,
    String.substring k 5 s = String b (String c (String d (String e (String f EmptyString)))) /\
    Forall (fun a => is_base32 a = true) [b; c; d; e; f]).
  { intros k Hk. pose proof (substring_length s k 5 ltac:(lia)) as Hb.
    pose proof (str_all_substring is_base32 s k 5 Hs) as Hbb.
    destruct (String.substring k 5 s) as [|b [|c [|d [|e [|f []]]]]]; try discriminate Hb.
    exists b, c, d, e, f. split; [done|]. simpl in Hbb.
    rewrite !andb_true_iff in Hbb. repeat constructor; apply Hbb. }
  destruct (Hab 0%nat ltac:(lia)) as (a1 & a2 & a3 & a4 & a5 & Ea & Fa).
  destruct (Hab 51%nat ltac:(lia)) as (b1 & b2 & b3 & b4 & b5 & Eb & Fb).
  assert (a1 = "C"%char) as ->.
  { rewrite Es in Ea. change (String "C" (String.substring 0 4 t) =
      String a1 (String a2 (String a3 (String a4 (String a5 EmptyString))))) in Ea.
    by injection Ea as <- _. }
  rewrite Ea, Eb. rewrite !Forall_cons in Fa, Fb. clear -Fa Fb.
  cbv -[is_base32 debug_str].
  destruct Fa as (_ & Fa2 & Fa3 & Fa4 & Fa5 & _). destruct Fb as (Fb1 & Fb2 & Fb3 & Fb4 & Fb5 & _).
  by rewrite Fa2, Fa3, Fa4, Fa5, Fb1, Fb2, Fb3, Fb4, Fb5.
Qed.

Section built.
Context `{ED : !EscapeDebug, BB : !Base64, BL : !Base64Laws, SH : !Sha2}.
Variables (raw : list Z) (now : result ApprovalError Z).

(** An approval as some caller of the constructors gets it.  The payment
    constructor is the one that does not check its fields: its caller has to. *)
Inductive Constructed : PendingApproval -> Prop :=
| built_payment xdr bytes to amount asset memo fee seq uid ttl p :
    new_payment_pending raw now xdr bytes to amount asset memo fee seq uid ttl = Ok p ->
    strkey_shape 56 "G" to = true -> asset_text_valid asset = true -> memo_ok memo ->
    process_uid_is_valid uid = true -> Constructed p
| built_passkey digest cred sa rules csrf rp uid ttl p :
    new_passkey_pending raw now digest cred sa rules csrf rp uid ttl = Ok p ->
    process_uid_is_valid uid = true -> Constructed p
| built_register sa rules csrf rp user uid ttl p :
    new_register_passkey_pending raw now sa rules csrf rp user uid ttl = Ok p ->
    process_uid_is_valid uid = true -> Constructed p
| built_toolset t c d a mn mx uid ttl p :
    new_toolset_first_invoke_gate_pending raw now t c d a mn mx uid ttl = Ok p ->
    process_uid_is_valid uid = true -> Constructed p
| built_clawback n c i uid ttl p :
    new_trustline_clawback_opt_in_pending raw now n c i uid ttl = Ok p ->
    process_uid_is_valid uid = true -> Constructed p
| built_trustline xdr bytes holder code issuer limit fee seq uid ttl p :
    new_trustline_pending raw now xdr bytes holder code issuer limit fee seq uid ttl = Ok p ->
    process_uid_is_valid uid = true -> Constructed p
| built_claim xdr bytes hex72 strkey asset amount source fee seq uid ttl p :
    new_claim_pending raw now xdr bytes hex72 strkey asset amount source fee seq uid ttl = Ok p ->
    process_uid_is_valid uid = true -> Constructed p
| built_rule_proposal sa net chain def sha line uid ttl p :
    new_rule_proposal_pending raw now sa net chain def sha line uid ttl = Ok p ->
    process_uid_is_valid uid = true -> Constructed p
| built_mpp wire uid ttl p :
    new_mpp_charge_pending raw now wire uid ttl = Ok p ->
    process_uid_is_valid uid = true -> Constructed p
| built_with_policy p request : Constructed p -> Constructed (with_policy_request p request).

Lemma pending_of_ok k uid ttl p :
  length raw = 16%nat -> bytes_ok raw -> kind_ok k -> process_uid_is_valid uid = true ->
  pending_of raw now k uid ttl = Ok p -> record_ok p.
Proof using BL.
  intros Hl Hb Hk Hu H. unfold pending_of in H. res_inv. split; simpl; try done.
  split; [|by apply base64_alphabet]. unfold len. by rewrite base64_length, Hl.
Qed.

(** What the constructors build can be stored and read back. *)
Lemma constructed_ok p : length raw = 16%nat -> bytes_ok raw -> Constructed p -> record_ok p.
Proof using BL.
  intros Hl Hb. induction 1 as [* H Ht Ha Hm Hu|* H Hu|* H Hu|* H Hu|* H Hu|* H Hu|* H Hu|* H Hu|* H Hu|p r _ [Hn Hu Hk Ha Hs]].
  - eapply pending_of_ok; [done|done| |done|exact H]; by split.
  - unfold new_passkey_pending in H. res_inv. eapply pending_of_ok; [done..| |done|exact H].
    by eapply units.
  - unfold new_register_passkey_pending in H. res_inv.
    eapply pending_of_ok; [done..| |done|exact H]. split; [by eapply units|done].
  - unfold new_toolset_first_invoke_gate_pending in H. res_inv.
    eapply pending_of_ok; [done..| |done|exact H]. by eapply units.
  - unfold new_trustline_clawback_opt_in_pending in H. res_inv.
    eapply pending_of_ok; [done..| |done|exact H]. by eapply units.
  - unfold new_trustline_pending in H. res_inv.
    eapply pending_of_ok; [done..| |done|exact H]. by eapply units.
  - unfold new_claim_pending in H. res_inv.
    eapply pending_of_ok; [done..| |done|exact H]. by eapply units.
  - unfold new_rule_proposal_pending in H. res_inv.
    eapply pending_of_ok; [done..| |done|exact H]. apply units in H0, H1.
    split; [done|]. split; [|by split]. apply redact_full_ok.
    unfold validate_smart_account_full in H0. by destruct (strkey_shape 56 "C" sa).
  - unfold new_mpp_charge_pending, new_mpp_charge_pending_at in H. res_inv.
    destruct (_ <=? _); [done|]. res_inv. split; simpl; try done.
    + split; [|by apply base64_alphabet]. unfold len. by rewrite base64_length, Hl.
    + destruct wire. by eapply units.
  - by split.
Qed.
End built.
