(* ===== verification/ApprovalDemo.v ===== *)
(** * Concrete inputs for the theorems about approvals

    A TOML text that is the list of its records, the RFC 4648 codec, the
    demonstration hash, and approvals built by the constructors. *)

From S2P Require Import Prelude RustStr Bytes RuleProposal PolicyTypes Attestation Approval ApprovalWire ApprovalStore ApprovalWireProps.
From stdpp Require Import options.

Local Open Scope string_scope.
Local Open Scope list_scope.
Local Open Scope Z_scope.

(** The text of a file stands for its records; a number above [i64::MAX] cannot be
    written. *)
Definition fits_tomlb (d : PendingApprovalOnDisk) : bool :=
  (d_created_at_unix_ms d <=? hi i64) && (d_expires_at_unix_ms d <=? hi i64)
  && match mpp_charge_simulated (sub d) with
     | Some m => mpp_challenge_expires_at_unix m <=? hi i64
     | None => true
     end.

#[export] Instance demo_toml : TomlFile (list PendingApprovalOnDisk) := {|
  to_toml l := if forallb fits_tomlb l then Ok l else Err "out-of-range value for u64 type";
  from_toml t := Ok t;
|}.

#[export] Instance demo_toml_laws : TomlFileLaws (list PendingApprovalOnDisk).
Proof.
  split; unfold to_toml, from_toml; simpl.
  - intros l t. destruct (forallb _ l); [|done]. by intros [= <-].
  - intros l H. rewrite (proj2 (forallb_forall _ _)); [done|]. intros d Hd%list_elem_of_In.
    rewrite Forall_forall in H. destruct (H d Hd) as (H1 & H2 & H3). unfold fits_tomlb.
    rewrite !andb_true_iff, !Z.leb_le. split; [done|].
    destruct (mpp_charge_simulated (sub d)) as [m|]; [|done]. apply Z.leb_le. by apply H3.
Qed.

#[export] Instance demo_escape_debug : EscapeDebug := {| escape_debug s := s |}.
#[export] Existing Instances rfc4648 rfc4648_laws demo_sha2 demo_sha2_laws.

Definition demo_store := Store (list PendingApprovalOnDisk).

Definition calm_env : OpenEnv :=
  {| has_parent := true; create_dir := None; try_lock := LockFree; read_error := None |}.

Fixpoint letters (n : nat) (c : ascii) : string :=
  match n with O => EmptyString | S n' => String c (letters n' c) end.

Definition demo_g : string := String "G" (letters 55 "A").
Definition demo_c : string := String "C" (letters 55 "B").
Definition demo_raw : list Z := replicate 16 7.

(** A payment with a memo; a clawback opt-in; an MPP charge. *)
Definition demo_payment (memo : string) : result ApprovalError PendingApproval :=
  new_payment_pending demo_raw (Ok 1000) "AAAA" [1; 2; 3] demo_g 50000000 "XLM" (Some memo) 100 7
    "1000" 86400000.

Definition demo_opt_in : result ApprovalError PendingApproval :=
  new_trustline_clawback_opt_in_pending demo_raw (Ok 1000) "testnet" "USDC" demo_g "1000" 86400000.

Definition demo_wire : MppChargeSimulatedWire := {|
  mpp_authorization_fingerprint := replicate 32 1; mpp_prepared_artifact_hash := replicate 32 2;
  mpp_profile := "alice"; mpp_chain_id := "stellar:testnet"; mpp_payer := demo_g;
  mpp_transport := "http"; mpp_authority := "pay.example"; mpp_target := "/charge";
  mpp_amount := "250"; mpp_currency := demo_c; mpp_recipient := demo_g;
  mpp_challenge_expires_at_unix := 100; mpp_simulated_fee_stroops := 100 |}.

Definition demo_mpp : result ApprovalError PendingApproval :=
  new_mpp_charge_pending demo_raw (Ok 1000) demo_wire "1000" 600000.

Definition unwrap (r : result ApprovalError PendingApproval) : PendingApproval :=
  match r with
  | Ok p => p
  | Err _ => {| approval_nonce := EmptyString; process_uid := EmptyString; created_at_unix_ms := 0;
                expires_at_unix_ms := 0; pa_reason := None; kind := Rejected EmptyString;
                attestation_blob_b64 := None; passkey_assertion := None |}
  end.

(** Text with a letter outside ASCII, in UTF-8. *)
Definition cafe : string :=
  "caf" +:+ String (Ascii.ascii_of_nat 195) (String (Ascii.ascii_of_nat 169) EmptyString).

Lemma demo_raw_ok : length demo_raw = 16%nat /\ bytes_ok demo_raw.
Proof. split; [done|]. unfold bytes_ok, demo_raw. by apply Forall_replicate. Qed.

Lemma demo_payment_ok : record_ok (unwrap (demo_payment "rent")).
Proof.
  destruct demo_raw_ok. apply (constructed_ok demo_raw (Ok 1000)); [done..|].
  eapply built_payment; [reflexivity|done|done| |done]. intros s [= <-]. done.
Qed.

Lemma demo_opt_in_ok : record_ok (unwrap demo_opt_in).
Proof.
  destruct demo_raw_ok. apply (constructed_ok demo_raw (Ok 1000)); [done..|].
  apply (built_clawback demo_raw (Ok 1000) "testnet" "USDC" demo_g "1000" 86400000); by vm_compute.
Qed.

Lemma demo_mpp_ok : record_ok (unwrap demo_mpp).
Proof.
  destruct demo_raw_ok. apply (constructed_ok demo_raw (Ok 1000)); [done..|]. 
  apply (built_mpp demo_raw (Ok 1000) demo_wire "1000" 600000); by vm_compute.
Qed.
