(* ===== verification/ApprovalStoreProps.v ===== *)
(** * The approval store: invariants, durability, the life of an approval *)

From stdpp Require Import options relations.
From S2P Require Import Prelude RustStr Bytes RuleProposal PolicyTypes Attestation Approval ApprovalWire ApprovalStore ApprovalWireProps ApprovalDemo.
Set Default Proof Using "Type*".

Local Open Scope string_scope.
Local Open Scope list_scope.
Local Open Scope Z_scope.

Section props.
Context {Text : Type} `{TF : !TomlFile Text, TL : !TomlFileLaws Text}.
Context `{ED : !EscapeDebug, BB : !Base64, BL : !Base64Laws, SH : !Sha2}.

#[local] Abbreviation St := (Store Text).

(** A record that can be read has a printable memo. *)
Lemma approval_file_exact_memo d p : deserialize d = Ok p -> memo_ok (f_summary_memo (payment d)).
Proof.
  unfold deserialize. intros H. res_inv. by apply on_disk_Ok in H0 as (_ & _ & _ & _ & _ & Hm).
Qed.

(** ** Calls and steps

    One step is one call on the open store, with any fault of the rewriting, or
    the store being dropped and opened again. *)
Inductive Call :=
| CInsert (entry : PendingApproval) (now_unix_ms : Z)
| CAttest (n : string) (blob : list Z) (now_ms : Z)
| CAttestClawback (n : string) (blob : list Z) (now_ms : Z)
| CAttestRuleProposal (n : string) (blob : list Z) (now_ms : Z)
| CAssert (n : string) (a : AssertionInput) (now : result ApprovalError Z)
| CRegister (n : string) (r : RegistrationInput) (now : result ApprovalError Z)
| CRemove (n : string)
| CReject (n : string) (now_unix_ms ttl_ms : Z)
| CConsume (n tx_hash : string) (outcome : ConsumedOutcome)
| CGc (now_unix_ms : Z).

(** A call is acknowledged when it says that it changed the records. *)
Definition acked (r : result ApprovalError unit * St) : bool * St := (is_ok (fst r), snd r).
Definition acked_if {A} (changed : A -> bool) (r : result ApprovalError A * St) : bool * St :=
  (match fst r with Ok a => changed a | Err _ => false end, snd r).

Definition exec (fault : Fault) (c : Call) (s : St) : bool * St :=
  match c with
  | CInsert entry now => acked (insert fault entry now s)
  | CAttest n blob now => acked (record_attestation_at fault n blob now s)
  | CAttestClawback n blob now =>
      acked (record_trustline_clawback_opt_in_attestation_at fault n blob now s)
  | CAttestRuleProposal n blob now =>
      acked (record_rule_proposal_attestation_at fault n blob now s)
  | CAssert n a now => acked (record_passkey_assertion fault n a now s)
  | CRegister n r now => acked (record_passkey_registration fault n r now s)
  | CRemove n => acked_if id (remove fault n s)
  | CReject n now ttl => acked_if id (reject fault n now ttl s)
  | CConsume n tx outcome => acked_if id (consume fault n tx outcome s)
  | CGc now => acked_if (fun removed => 0 <? removed) (gc_expired fault now s)
  end.

(** A caller inserts approvals that pass the reader's field checks ([constructed_ok]: the
    constructors see to it, except that the caller of the payment constructor has to
    check destination, asset and memo, and every caller the user id), and
    records registrations [RegistrationInput::new] made. *)
Definition call_ok (c : Call) : Prop :=
  match c with
  | CInsert entry _ => record_ok entry
  | CRegister _ r _ => validate_registration r = Ok tt
  | _ => True
  end.

Inductive step : St -> St -> Prop :=
| step_call fault c s : call_ok c -> step s (snd (exec fault c s))
| step_reopen env s s' : open env (disk s) = Ok s' -> step s s'.

Definition empty_store : St := MkStore [] None.

(** ** The invariant *)

Record entries_ok (es : list PendingApproval) : Prop := {
  es_records : Forall record_ok es;
  es_nonces : NoDup (approval_nonce <$> es);
  es_count : count es <= MAX_PENDING_APPROVALS;
}.

Definition file_ok (file : option Text) : Prop :=
  forall t, file = Some t -> exists es, from_toml t = Ok (serialize <$> es) /\ entries_ok es.

Record store_ok (s : St) : Prop := {
  so_entries : entries_ok (entries s);
  so_file : file_ok (disk s);
}.

Lemma persist_ok fault s : store_ok s -> store_ok (snd (persist fault s)).
Proof.
  intros [He Hf]. unfold persist. destruct (to_toml _) as [t|d] eqn:E; [|by split].
  assert (file_ok (Some t)).
  { intros t' [= <-]. exists (entries s). split; [|done]. by apply toml_roundtrip. }
  destruct fault as [[[] e]|]; by split.
Qed.

Lemma commit_ok fault es s : entries_ok es -> file_ok (disk s) -> store_ok (snd (commit fault es s)).
Proof. intros He Hf. unfold commit. by apply persist_ok. Qed.

Lemma filter_sublist {A} (f : A -> bool) l : sublist (List.filter f l) l.
Proof. induction l as [|x l IH]; simpl; [constructor|]. destruct (f x); by constructor. Qed.

Lemma retain_ok f es : entries_ok es -> entries_ok (retain f es).
Proof.
  intros [Hr Hn Hc]. pose proof (filter_sublist f es) as Hs. unfold retain. split.
  - rewrite Forall_forall in *. intros e He. apply Hr. by eapply elem_of_sublist.
  - eapply sublist_NoDup; [exact Hn|]. by apply fmap_sublist.
  - apply sublist_length in Hs. unfold count in *. lia.
Qed.

Lemma has_nonce_true n e : has_nonce n e = true <-> approval_nonce e = n.
Proof. apply bool_decide_eq_true. Qed.

(** The first record with the nonce is the one that is updated. *)
Lemma update_first_Ok n f es es' :
  update_first n f es = Ok es' <->
  exists l e r e', es = l ++ e :: r /\ es' = l ++ e' :: r /\ approval_nonce e = n /\
    (n ∉ approval_nonce <$> l) /\ f e = Ok e'.
Proof.
  revert es'. induction es as [|x es IH]; intros es'; simpl.
  - split; [done|]. by intros ([] & ? & ? & ? & ? & _).
  - destruct (has_nonce n x) eqn:E.
    + apply has_nonce_true in E. rewrite res_bind_Ok. split.
      * intros (e' & He & [= <-]). exists [], x, es, e'. split_and!; try done. apply not_elem_of_nil.
      * intros (l & e & r & e' & Hes & -> & Hn & Hl & Hf). exists e'.
        destruct l as [|y l]; simplify_eq/=; [done|]. by apply not_elem_of_cons in Hl as [].
    + rewrite res_bind_Ok. split.
      * intros (es1 & H & [= <-]). apply IH in H as (l & e & r & e' & -> & -> & Hn & Hl & Hf).
        exists (x :: l), e, r, e'. split_and!; try done. csimpl. rewrite not_elem_of_cons.
        split; [|done]. intros Hx. symmetry in Hx. apply has_nonce_true in Hx. congruence.
      * intros (l & e & r & e' & Hes & -> & Hn & Hl & Hf).
        destruct l as [|y l]; simplify_eq/=.
        { by rewrite (proj2 (has_nonce_true _ _) eq_refl) in E. }
        eexists. split; [|done]. apply IH. exists l, e, r, e'. split_and!; try done.
        by apply not_elem_of_cons in Hl as [].
Qed.

(** An update that keeps the nonce and the field invariants keeps the records in
    order. *)
Definition keeps (n : string) (f : PendingApproval -> result ApprovalError PendingApproval) : Prop :=
  forall e e', record_ok e -> approval_nonce e = n -> f e = Ok e' ->
    record_ok e' /\ approval_nonce e' = n.

Lemma update_first_keeps n f es es' :
  keeps n f -> update_first n f es = Ok es' -> entries_ok es -> entries_ok es'.
Proof.
  intros Hk (l & e & r & e' & -> & -> & Hn & _ & Hf)%update_first_Ok [Hr Hd Hc].
  apply Forall_app in Hr as [Hl (He & Hr)%Forall_cons].
  destruct (Hk e e' He Hn Hf) as [He' Hn']. split.
  - apply Forall_app. split; [done|]. by constructor.
  - rewrite fmap_app, fmap_cons in *. by rewrite Hn', <- Hn.
  - unfold count in *. by rewrite length_app in *.
Qed.

Lemma modify_ok fault n f s : keeps n f -> store_ok s -> store_ok (snd (modify fault n f s)).
Proof.
  intros Hk Hs. unfold modify. destruct (update_first n f (entries s)) as [es|e] eqn:E; [|done].
  apply commit_ok; [|by apply Hs]. eapply update_first_keeps; [done..|apply Hs].
Qed.

Lemma replace_ok fault n f s : keeps n f -> store_ok s -> store_ok (snd (replace fault n f s)).
Proof.
  intros Hk Hs. unfold replace. destruct (update_first n f (entries s)) as [es|e] eqn:E.
  - assert (H : store_ok (snd (commit fault es s))).
    { apply commit_ok; [|by apply Hs]. eapply update_first_keeps; [done..|apply Hs]. }
    by destruct (commit fault es s) as [[] s'].
  - by destruct e.
Qed.

Lemma attest_keeps takes expected blob now n :
  (forall k, takes k = true -> attestable k = true) ->
  keeps n (attest_entry takes expected blob now).
Proof.
  intros Ht e e' He Hn H. unfold attest_entry in H.
  destruct (is_expired e now); [done|]. destruct (takes (kind e)) eqn:Ek; [|done].
  destruct (is_some _); [done|]. simpl in H. res_inv. split; [|done].
  destruct He as [Hno Hu Hk Ha Hs]. split; simpl; try done.
  intros Hf. by rewrite (Ht _ Ek) in Hf.
Qed.

Lemma assert_keeps a now n : keeps n (assert_entry a now).
Proof.
  intros e e' [Hno Hu Hk Ha Hs] Hn H. unfold assert_entry in H.
  destruct (is_expired e now); [done|]. destruct (kind e) eqn:Ek; try done.
  destruct (is_some _); [done|]. res_inv. apply units in H0. split; [|done].
  split; simpl; try done. by intros a' [= <-].
Qed.

Lemma register_keeps r now n : validate_registration r = Ok tt -> keeps n (register_entry r now).
Proof.
  intros Hr e e' [Hno Hu Hk Ha Hs] Hn H. unfold register_entry in H.
  destruct (is_expired e now); [done|]. destruct (kind e) eqn:Ek; try done.
  destruct (is_some _); [done|]. res_inv. simpl in *. split; [|done].
  split; simpl; try done. split; [apply Hk|]. by intros ? [= <-].
Qed.

Lemma kind_name_len k : 1 <= len (kind_name k) <= 64.
Proof. by destruct k; vm_compute. Qed.

Lemma rejected_keeps now ttl n : keeps n (tombstone_rejected n now ttl).
Proof.
  intros e e' [Hno Hu Hk Ha Hs] <- [= <-]. split; [|done]. split; simpl; try done.
  apply kind_name_len.
Qed.

Lemma consumed_keeps tx o n : keeps n (tombstone_consumed n tx o).
Proof.
  intros e e' [Hno Hu Hk Ha Hs] <- H. unfold tombstone_consumed in H. res_inv.
  apply units in H0. split; [|done]. by split.
Qed.

Lemma takes_envelope_attestable k : takes_envelope k = true -> attestable k = true.
Proof. by destruct k. Qed.
Lemma takes_clawback_attestable k : takes_clawback k = true -> attestable k = true.
Proof. by destruct k. Qed.
Lemma takes_rule_proposal_attestable k : takes_rule_proposal k = true -> attestable k = true.
Proof. by destruct k. Qed.

Lemma insert_ok fault entry now s :
  record_ok entry -> store_ok s -> store_ok (snd (insert fault entry now s)).
Proof.
  intros He [Hs Hf]. unfold insert.
  apply (retain_ok (fun e => negb (is_expired e now))) in Hs. set (es := retain _ _) in *.
  destruct (Z.leb_spec MAX_PENDING_APPROVALS (count es)).
  - pose proof (commit_ok fault es s Hs Hf) as H'. by destruct (commit fault es s) as [[] s'].
  - destruct (existsb _ es) eqn:Ex; [by split|]. apply commit_ok; [|done].
    destruct Hs as [Hr Hn Hc]. split.
    + apply Forall_app. split; [done|]. by apply Forall_singleton.
    + rewrite fmap_app. apply NoDup_app. split; [done|]. split; [|apply NoDup_singleton].
      intros n Hin Hn'. apply list_elem_of_singleton in Hn' as ->.
      apply list_elem_of_fmap in Hin as (e & Hne & Hin).
      apply list_elem_of_In in Hin. apply not_true_iff_false in Ex. apply Ex.
      apply existsb_exists. exists e. split; [done|]. by apply has_nonce_true.
    + unfold count, MAX_PENDING_APPROVALS in *. rewrite length_app. simpl. lia.
Qed.

Lemma remove_ok fault n s : store_ok s -> store_ok (snd (remove fault n s)).
Proof.
  intros [Hs Hf]. unfold remove. apply (retain_ok (fun e => negb (has_nonce n e))) in Hs.
  pose proof (commit_ok fault _ s Hs Hf) as H'. destruct (_ <? _); [|by split].
  by destruct (commit fault _ s) as [[] s'].
Qed.

Lemma gc_ok fault now s : store_ok s -> store_ok (snd (gc_expired fault now s)).
Proof.
  intros [Hs Hf]. unfold gc_expired. apply (retain_ok (fun e => negb (is_expired e now))) in Hs.
  pose proof (commit_ok fault _ s Hs Hf) as H'. destruct (_ <? _); [|by split].
  by destruct (commit fault _ s) as [[] s'].
Qed.

(** ** Reading the file back *)

Lemma read_serialized es : Forall record_ok es -> mapM_res deserialize (serialize <$> es) = Ok es.
Proof.
  intros H. apply mapM_res_Ok. induction H as [|e es He _ IH]; constructor; [|done].
  by apply deserialize_serialize.
Qed.

Lemma check_nonce_lens es :
  Forall record_ok es -> mapM_res check_nonce_len es = Ok (replicate (length es) tt).
Proof.
  intros H. apply mapM_res_Ok. induction H as [|e es [[Hn _] _ _ _ _] _ IH]; constructor; [|done].
  unfold check_nonce_len. by rewrite Hn.
Qed.

Lemma read_file_ok t es :
  from_toml t = Ok (serialize <$> es) -> Forall record_ok es -> read_file t = Ok es.
Proof.
  intros Ht Hr. unfold read_file. rewrite Ht. simpl. rewrite read_serialized by done. simpl.
  by rewrite check_nonce_lens.
Qed.

Lemma open_ok env file s' : file_ok file -> open env file = Ok s' -> store_ok s'.
Proof.
  intros Hf H. unfold open in H. destruct (has_parent env); [|done]. simpl in H. res_inv.
  destruct file as [t|]; [|simpl in *; res_inv; split; [|done]; by split; try constructor].
  destruct (read_error env); [done|]. destruct (Hf t eq_refl) as (es & Ht & Hes).
  rewrite (read_file_ok t es) in H2; [|done|apply Hes]. res_inv. by split.
Qed.

Lemma exec_ok fault c s : call_ok c -> store_ok s -> store_ok (snd (exec fault c s)).
Proof.
  intros Hc Hs. destruct c; simpl in *;
    try (unfold record_passkey_assertion, record_passkey_registration, with_clock;
      destruct now; [|done]); first
    [ by apply insert_ok | by apply remove_ok | by apply gc_ok
    | apply modify_ok; [|done] | apply replace_ok; [|done] ].
  - apply attest_keeps, takes_envelope_attestable.
  - apply attest_keeps, takes_clawback_attestable.
  - apply attest_keeps, takes_rule_proposal_attestable.
  - apply assert_keeps.
  - by apply register_keeps.
  - apply rejected_keeps.
  - apply consumed_keeps.
Qed.

Lemma step_ok s s' : step s s' -> store_ok s -> store_ok s'.
Proof.
  intros [fault c s0 Hc|env s0 s1 Ho] Hs; [by apply exec_ok|]. eapply open_ok; [apply Hs|done].
Qed.

Lemma steps_ok s s' : rtc step s s' -> store_ok s -> store_ok s'.
Proof. induction 1; [done|]. eauto using step_ok. Qed.

Lemma empty_ok : store_ok empty_store.
Proof. split; [|done]. split; simpl; [constructor..|done]. Qed.

(** An environment in which the file can be read: the lock is free, the disk
    answers. *)
Definition calm (env : OpenEnv) : Prop :=
  has_parent env = true /\ create_dir env = None /\ try_lock env = LockFree /\ read_error env = None.

Lemma open_calm env file :
  calm env ->
  open env file = es ← match file with Some t => read_file t | None => Ok [] end;
                  Ok (MkStore es file).
Proof.
  intros (Hp & Hd & Hl & Hr). unfold open. rewrite Hp, Hd, Hl. simpl. destruct file; [|done].
  by rewrite Hr.
Qed.

Lemma file_ok_opens env file :
  calm env -> file_ok file -> exists es, open env file = Ok (MkStore es file) /\ entries_ok es.
Proof.
  intros He Hf. rewrite open_calm by done. destruct file as [t|].
  - destruct (Hf t eq_refl) as (es & Ht & Hes). exists es. split; [|done].
    by rewrite (read_file_ok t es) by apply Hes || done.
  - exists []. split; [done|]. split; simpl; [constructor..|done].
Qed.

(** C21: Take any sequence of calls in which every approval that is inserted passes the
    reader's field checks (not every caller of the payment constructor sees to that: a memo
    outside printable ASCII is let in and locks the file) and every registration was
    validated, with the rewriting of the file failing at any step and the store reopened
    in between.  Then the nonces of the records are distinct, there are at most 4096
    of them, every record passes its field checks, and when the lock is free and the disk
    answers the file can be opened again, with records that are just as well-formed. *)
Theorem approval_store_invariant s env :
  rtc step empty_store s -> calm env ->
  entries_ok (entries s) /\
  exists s', open env (disk s) = Ok s' /\ disk s' = disk s /\ entries_ok (entries s').
Proof.
  intros Hs He. apply steps_ok in Hs as [Hes Hf]; [|by apply empty_ok]. split; [done|].
  destruct (file_ok_opens env (disk s) He Hf) as (es & Ho & Hes'). by exists (MkStore es (disk s)).
Qed.

(** ** Durability *)

Lemma persist_acked fault s s' :
  persist fault s = (Ok tt, s') ->
  exists t, to_toml (serialize <$> entries s) = Ok t /\ s' = MkStore (entries s) (Some t).
Proof.
  unfold persist. destruct (to_toml _) as [t|]; [|done].
  destruct fault as [[[] e]|]; [done..|]. intros [= <-]. by exists t.
Qed.

Lemma commit_acked fault es s s' env :
  calm env -> entries_ok es -> commit fault es s = (Ok tt, s') ->
  entries s' = es /\ open env (disk s') = Ok s'.
Proof.
  intros He Hes (t & Ht & ->)%persist_acked. split; [done|]. simpl. rewrite open_calm by done.
  by rewrite (read_file_ok t es) by (done || apply Hes || by apply toml_roundtrip).
Qed.

Lemma acked_true r s' : acked r = (true, s') <-> r = (Ok tt, s').
Proof. destruct r as [[[]|e] s0]; unfold acked; simpl; split; intros [= <-]; done. Qed.

Lemma acked_if_true {A} (f : A -> bool) r s' :
  acked_if f r = (true, s') <-> exists a, r = (Ok a, s') /\ f a = true.
Proof.
  destruct r as [[a|e] s0]; unfold acked_if; simpl; split.
  - intros [= Hf <-]. by exists a.
  - by intros (a' & [= -> ->] & ->).
  - done.
  - by intros (a' & ? & _).
Qed.

Lemma modify_acked fault n f s s' :
  modify fault n f s = (Ok tt, s') ->
  exists es, update_first n f (entries s) = Ok es /\ commit fault es s = (Ok tt, s').
Proof. unfold modify. destruct (update_first n f (entries s)) as [es|]; [by exists es|done]. Qed.

Lemma replace_acked fault n f s s' :
  replace fault n f s = (Ok true, s') ->
  exists es, update_first n f (entries s) = Ok es /\ commit fault es s = (Ok tt, s').
Proof.
  unfold replace. destruct (update_first n f (entries s)) as [es|[]]; try done.
  destruct (commit fault es s) as [[[]|] s0] eqn:E; intros [= <-]. by exists es.
Qed.

(** An acknowledged call persisted the records it left in memory. *)
Lemma exec_committed fault c s s' :
  exec fault c s = (true, s') -> exists es, commit fault es s = (Ok tt, s').
Proof.
  destruct c; simpl; rewrite ?acked_true, ?acked_if_true;
    try (unfold record_passkey_assertion, record_passkey_registration, with_clock;
         destruct now; [|done]);
    try (intros (es & _ & H)%modify_acked; by exists es).
  - unfold insert. destruct (_ <=? _).
    + by destruct (commit _ _ _) as [[] s1].
    + destruct (existsb _ _); [done|]. eauto.
  - intros (b & H & Hb). unfold remove in H. destruct (_ <? _) eqn:E; [|simplify_eq/=; done].
    destruct (commit _ _ _) as [[[]|] s1] eqn:Ec; simplify_eq. eauto.
  - intros (b & H & Hb). destruct b; [|done]. apply replace_acked in H as (es & _ & H). eauto.
  - intros (b & H & Hb). destruct b; [|done]. apply replace_acked in H as (es & _ & H). eauto.
  - intros (b & H & Hb). unfold gc_expired in H. destruct (_ <? _) eqn:E; [|simplify_eq/=; congruence].
    destruct (commit _ _ _) as [[[]|] s1] eqn:Ec; simplify_eq. eauto.
Qed.

(** C22: A change that is acknowledged is on disk.  Whatever was inserted before, the file
    then holds exactly the written form of the records the call left in memory.  If
    every approval inserted so far, this call included, passes the reader's field checks, then
    opening the file again, by this process or another, with the lock free and the disk
    answering, gives exactly those records.  (An approval that does not pass them, as a payment
    with an unprintable memo, is acknowledged too and makes the file unreadable.) *)
Theorem acknowledged_change_is_durable fault c s s' :
  exec fault c s = (true, s') ->
  (exists t, disk s' = Some t /\ from_toml t = Ok (serialize <$> entries s')) /\
  forall env, rtc step empty_store s -> call_ok c -> calm env -> open env (disk s') = Ok s'.
Proof.
  intros H. destruct (exec_committed _ _ _ _ H) as (es & (t & Ht & Hs')%persist_acked). split.
  - exists t. rewrite Hs'. split; [done|]. by apply toml_roundtrip.
  - intros env Hs Hc He. apply steps_ok in Hs; [|by apply empty_ok].
    pose proof (exec_ok fault c s Hc Hs) as Hok. rewrite H, Hs' in Hok. rewrite Hs', open_calm by done. simpl.
    by rewrite (read_file_ok t es) by (apply Hok || by apply toml_roundtrip).
Qed.

(** ** The life of an approval *)

Definition is_tombstone (k : ApprovalKind) : bool :=
  match k with Rejected _ | Consumed _ _ _ => true | _ => false end.

(** A human's answer has been recorded. *)
Definition is_answered (e : PendingApproval) : bool :=
  is_some (attestation_blob_b64 e) || is_some (passkey_assertion e)
  || is_some (ser_registration (kind e)).

(** Waiting, answered, closed, gone. *)
Definition rank (o : option PendingApproval) : Z :=
  match o with
  | None => 3
  | Some e => if is_tombstone (kind e) then 2 else if is_answered e then 1 else 0
  end.

Definition find_nonce (n : string) (es : list PendingApproval) : option PendingApproval :=
  List.find (has_nonce n) es.

(** Calls that record an answer for [n], and calls that insert [n]. *)
Definition answers (n : string) (c : Call) : bool :=
  match c with
  | CAttest m _ _ | CAttestClawback m _ _ | CAttestRuleProposal m _ _ | CAssert m _ _
  | CRegister m _ _ => bool_decide (m = n)
  | _ => false
  end.

Definition inserts (n : string) (c : Call) : bool :=
  match c with CInsert e _ => has_nonce n e | _ => false end.

Lemma find_nonce_None n es : find_nonce n es = None <-> (n ∉ approval_nonce <$> es).
Proof.
  unfold find_nonce. induction es as [|e es IH]; csimpl; [split; [intros _; apply not_elem_of_nil|done]|].
  rewrite not_elem_of_cons. destruct (has_nonce n e) eqn:E.
  - apply has_nonce_true in E. split; [done|]. by intros [? _].
  - rewrite IH. split; [|by intros [_ ?]]. intros ?. split; [|done]. intros ->.
    by rewrite (proj2 (has_nonce_true _ _) eq_refl) in E.
Qed.

Lemma find_nonce_app n l r :
  find_nonce n (l ++ r) = match find_nonce n l with Some e => Some e | None => find_nonce n r end.
Proof.
  unfold find_nonce. induction l as [|e l IH]; [done|]. simpl. by destruct (has_nonce n e).
Qed.

Lemma find_nonce_cons n e es :
  find_nonce n (e :: es) = if has_nonce n e then Some e else find_nonce n es.
Proof. done. Qed.

Lemma find_split n es e :
  find_nonce n es = Some e ->
  exists l r, es = l ++ e :: r /\ approval_nonce e = n /\ n ∉ (approval_nonce <$> l).
Proof.
  induction es as [|x es IH]; [done|]. rewrite find_nonce_cons. destruct (has_nonce n x) eqn:E.
  - intros [= ->]. apply has_nonce_true in E. exists [], es. split_and!; try done. apply not_elem_of_nil.
  - intros (l & r & -> & Hn & Hl)%IH. exists (x :: l), r. split_and!; try done. csimpl.
    apply not_elem_of_cons. split; [|done]. intros ->.
    by rewrite (proj2 (has_nonce_true _ _) eq_refl) in E.
Qed.

(** What an update does to the record of [n]. *)
Lemma find_update n m f es es' :
  keeps m f -> Forall record_ok es -> update_first m f es = Ok es' ->
  (m <> n /\ find_nonce n es' = find_nonce n es) \/
  (m = n /\ exists e e', find_nonce n es = Some e /\ f e = Ok e' /\ find_nonce n es' = Some e').
Proof.
  intros Hk Hr (l & e & r & e' & -> & -> & Hm & Hl & Hf)%update_first_Ok.
  apply Forall_app in Hr as [_ [He _]%Forall_cons]. destruct (Hk e e' He Hm Hf) as [_ Hm'].
  destruct (decide (m = n)) as [->|Hn]; [right|left]; (split; [done|]).
  - exists e, e'. apply find_nonce_None in Hl.
    rewrite !find_nonce_app, Hl, !find_nonce_cons.
    by rewrite (proj2 (has_nonce_true n e) Hm), (proj2 (has_nonce_true n e') Hm').
  - rewrite !find_nonce_app, !find_nonce_cons. destruct (find_nonce n l); [done|].
    destruct (has_nonce n e) eqn:E1; [apply has_nonce_true in E1; congruence|].
    destruct (has_nonce n e') eqn:E2; [apply has_nonce_true in E2; congruence|]. done.
Qed.

(** Dropping records leaves the record of [n] or none. *)
Lemma find_retain n f es :
  NoDup (approval_nonce <$> es) ->
  find_nonce n (retain f es) = find_nonce n es \/ find_nonce n (retain f es) = None.
Proof.
  unfold retain. induction es as [|e es IH]; csimpl; [by left|].
  intros [He Hes]%NoDup_cons. destruct (f e); rewrite ?find_nonce_cons.
  - destruct (has_nonce n e); [by left|by apply IH].
  - destruct (has_nonce n e) eqn:E; [right|by apply IH]. apply has_nonce_true in E as <-.
    apply find_nonce_None. intros H. apply He.
    apply list_elem_of_fmap in H as (e' & Hn & H). apply list_elem_of_fmap. exists e'.
    split; [done|]. eapply elem_of_sublist; [done|apply filter_sublist].
Qed.

Lemma commit_entries fault es s : entries (snd (commit fault es s)) = es.
Proof.
  unfold commit, persist. simpl. destruct (to_toml _); [|done]. by destruct fault as [[[] ?]|].
Qed.

Lemma commit_disk fault es s t :
  disk (snd (commit fault es s)) = Some t ->
  disk s = Some t \/ to_toml (serialize <$> es) = Ok t.
Proof.
  unfold commit, persist. simpl. destruct (to_toml _) as [t'|]; [|by left].
  destruct fault as [[[] ?]|]; simpl; intros H; auto; right; congruence.
Qed.

(** How a call may change the record of a nonce it does not insert: the record
    advances, and an answered record is not touched before it is closed. *)
Definition advances (o o' : option PendingApproval) : Prop :=
  rank o <= rank o' /\ (rank o = 1 -> rank o' = 1 -> o' = o).

Lemma advances_refl o : advances o o.
Proof. by split. Qed.

Lemma rank_range o : 0 <= rank o <= 3.
Proof. destruct o as [e|]; simpl; [|lia]. by destruct (is_tombstone (kind e)), (is_answered e). Qed.

Lemma advances_None o : advances o None.
Proof. split; [|done]. pose proof (rank_range o). simpl. lia. Qed.

Lemma update_advances n m f es es' :
  keeps m f -> Forall record_ok es -> update_first m f es = Ok es' ->
  (forall e e', record_ok e -> f e = Ok e' -> advances (Some e) (Some e')) ->
  advances (find_nonce n es) (find_nonce n es').
Proof.
  intros Hk Hr Hu Hf. destruct (find_update n m f es es' Hk Hr Hu)
    as [[_ ->]|(_ & e & e' & He & Hfe & ->)]; [apply advances_refl|].
  rewrite He. apply Hf; [|done]. rewrite Forall_forall in Hr. apply Hr.
  unfold find_nonce in He. apply List.find_some in He as [He _]. by apply list_elem_of_In.
Qed.

(** Recording an answer takes a waiting record to an answered one. *)
Lemma attest_answers takes expected blob now e e' :
  (forall k, takes k = true -> is_tombstone k = false /\ attestable k = true) -> record_ok e ->
  attest_entry takes expected blob now e = Ok e' -> rank (Some e) = 0 /\ rank (Some e') = 1.
Proof.
  intros Ht He H. unfold attest_entry in H. destruct (is_expired e now); [done|].
  destruct (takes (kind e)) eqn:Ek; [|done]. destruct (Ht _ Ek) as [Ht1 Ht2].
  destruct (attestation_blob_b64 e) eqn:Ea; [done|]. simpl in H. res_inv. simpl.
  unfold is_answered. simpl. rewrite Ht1, Ea. split; [|done]. simpl.
  destruct (passkey_assertion e) as [a|] eqn:Es.
  - destruct (ok_assertion e He a Es) as [Hs _]. by destruct (kind e).
  - by destruct (kind e).
Qed.

Lemma assert_answers a now e e' :
  record_ok e -> assert_entry a now e = Ok e' -> rank (Some e) = 0 /\ rank (Some e') = 1.
Proof.
  intros He H. unfold assert_entry in H. destruct (is_expired e now); [done|].
  pose proof (ok_attestation e He) as Ha. destruct (kind e) eqn:Ek; try done.
  destruct (passkey_assertion e) eqn:Es; [done|]. simpl in H. res_inv. simpl. rewrite Ek.
  unfold is_answered; simpl. rewrite Ek, Es, (Ha eq_refl). done.
Qed.

Lemma register_answers r now e e' :
  record_ok e -> register_entry r now e = Ok e' -> rank (Some e) = 0 /\ rank (Some e') = 1.
Proof.
  intros He H. unfold register_entry in H. destruct (is_expired e now); [done|].
  pose proof (ok_attestation e He) as Ha. pose proof (no_assertion e He) as Hs.
  destruct (kind e) eqn:Ek; try done. destruct registration_input; [done|]. simpl in H. res_inv.
  simpl. rewrite Ek. unfold is_answered; simpl. rewrite Ek, (Ha eq_refl), (Hs eq_refl). done.
Qed.

Lemma answer_advances e e' :
  rank (Some e) = 0 /\ rank (Some e') = 1 -> advances (Some e) (Some e').
Proof. intros [H H']. split; [lia|]. intros. lia. Qed.

Lemma tombstone_advances e e' : rank (Some e') = 2 -> advances (Some e) (Some e').
Proof.
  intros H. split; [|lia]. rewrite H. simpl. by destruct (is_tombstone (kind e)), (is_answered e).
Qed.

Lemma takes_envelope_kinds k : takes_envelope k = true -> is_tombstone k = false /\ attestable k = true.
Proof. by destruct k. Qed.
Lemma takes_clawback_kinds k : takes_clawback k = true -> is_tombstone k = false /\ attestable k = true.
Proof. by destruct k. Qed.
Lemma takes_rule_kinds k : takes_rule_proposal k = true -> is_tombstone k = false /\ attestable k = true.
Proof. by destruct k. Qed.

Lemma modify_advances n fault m f s :
  keeps m f -> store_ok s ->
  (forall e e', record_ok e -> f e = Ok e' -> advances (Some e) (Some e')) ->
  advances (find_nonce n (entries s)) (find_nonce n (entries (snd (modify fault m f s)))).
Proof.
  intros Hk Hs Hf. unfold modify. destruct (update_first m f (entries s)) as [es|] eqn:E;
    [|apply advances_refl]. rewrite commit_entries.
  eapply update_advances; [done|apply Hs|done|done].
Qed.

Lemma replace_advances n fault m f s :
  keeps m f -> store_ok s ->
  (forall e e', record_ok e -> f e = Ok e' -> advances (Some e) (Some e')) ->
  advances (find_nonce n (entries s)) (find_nonce n (entries (snd (replace fault m f s)))).
Proof.
  intros Hk Hs Hf. unfold replace. destruct (update_first m f (entries s)) as [es|e] eqn:E;
    [|destruct e; apply advances_refl].
  assert (H : advances (find_nonce n (entries s)) (find_nonce n es))
    by (eapply update_advances; [done|apply Hs|done|done]).
  rewrite <- (commit_entries fault es s) in H. by destruct (commit fault es s) as [[] s'].
Qed.

Lemma retain_advances n f es :
  NoDup (approval_nonce <$> es) -> advances (find_nonce n es) (find_nonce n (retain f es)).
Proof.
  intros Hn. destruct (find_retain n f es Hn) as [-> | ->]; [apply advances_refl|apply advances_None].
Qed.

Lemma insert_advances n fault entry now s :
  store_ok s -> has_nonce n entry = false ->
  advances (find_nonce n (entries s)) (find_nonce n (entries (snd (insert fault entry now s)))).
Proof.
  intros Hs Hn. unfold insert.
  pose proof (retain_advances n (fun e => negb (is_expired e now)) (entries s)
    (es_nonces _ (so_entries _ Hs))) as H. set (es := retain _ _) in *.
  destruct (_ <=? _).
  - pose proof (commit_entries fault es s) as Hc. destruct (commit fault es s) as [[] s'];
      simpl in *; by rewrite Hc.
  - destruct (existsb _ es); [done|]. rewrite commit_entries, find_nonce_app, find_nonce_cons, Hn.
    by destruct (find_nonce n es).
Qed.

Lemma dropping_advances {A} n (f : PendingApproval -> bool) (r : A) (c : bool) fault s :
  store_ok s ->
  advances (find_nonce n (entries s))
    (find_nonce n (entries (snd
      (if c then match commit fault (retain f (entries s)) s with
                 | (Ok _, s') => (Ok r, s') | (Err e, s') => (Err e, s') end
       else (Ok r, MkStore (retain f (entries s)) (disk s)))))).
Proof.
  intros Hs. pose proof (retain_advances n f (entries s) (es_nonces _ (so_entries _ Hs))) as H.
  destruct c; [|done]. pose proof (commit_entries fault (retain f (entries s)) s) as Hc.
  destruct (commit _ _ s) as [[] s']; simpl in *; by rewrite Hc.
Qed.

Lemma exec_advances n fault c s :
  call_ok c -> store_ok s -> inserts n c = false ->
  advances (find_nonce n (entries s)) (find_nonce n (entries (snd (exec fault c s)))).
Proof.
  intros Hc Hs Hn. destruct c; simpl in *;
    try (unfold record_passkey_assertion, record_passkey_registration, with_clock;
         destruct now; [|apply advances_refl]).
  - by apply insert_advances.
  - apply modify_advances; [apply attest_keeps, takes_envelope_attestable|done|].
    intros e e' He H. eapply answer_advances, attest_answers; [apply takes_envelope_kinds|done..].
  - apply modify_advances; [apply attest_keeps, takes_clawback_attestable|done|].
    intros e e' He H. eapply answer_advances, attest_answers; [apply takes_clawback_kinds|done..].
  - apply modify_advances; [apply attest_keeps, takes_rule_proposal_attestable|done|].
    intros e e' He H. eapply answer_advances, attest_answers; [apply takes_rule_kinds|done..].
  - apply modify_advances; [apply assert_keeps|done|]. eauto using answer_advances, assert_answers.
  - apply modify_advances; [by apply register_keeps|done|].
    eauto using answer_advances, register_answers.
  - by apply dropping_advances.
  - apply replace_advances; [apply rejected_keeps|done|]. intros e e' _ [= <-].
    by apply tombstone_advances.
  - apply replace_advances; [apply consumed_keeps|done|]. intros e e' _ H.
    unfold tombstone_consumed in H. res_inv. by apply tombstone_advances.
  - by apply dropping_advances.
Qed.

(** An acknowledged answer found the record waiting and left it answered. *)
Lemma modify_answered n fault f s s' :
  keeps n f -> store_ok s -> modify fault n f s = (Ok tt, s') ->
  (forall e e', record_ok e -> f e = Ok e' -> rank (Some e) = 0 /\ rank (Some e') = 1) ->
  rank (find_nonce n (entries s)) = 0 /\ rank (find_nonce n (entries s')) = 1.
Proof.
  intros Hk Hs (es & Hu & Hc)%modify_acked Hf.
  pose proof (commit_entries fault es s) as He. rewrite Hc in He. simpl in He. rewrite He.
  pose proof (es_records _ (so_entries _ Hs)) as Hr.
  destruct (find_update n n f _ es Hk Hr Hu) as [[? _]|(_ & e & e' & Hfe & Hf' & ->)]; [done|].
  rewrite Hfe. apply Hf; [|done]. rewrite Forall_forall in Hr. apply Hr.
  apply List.find_some in Hfe as [He' _]. by apply list_elem_of_In.
Qed.

Lemma exec_answered n fault c s s' :
  call_ok c -> store_ok s -> answers n c = true -> exec fault c s = (true, s') ->
  rank (find_nonce n (entries s)) = 0 /\ rank (find_nonce n (entries s')) = 1.
Proof.
  intros Hc Hs Hn H. destruct c; try done; simpl in Hn; apply bool_decide_eq_true in Hn as ->;
    apply acked_true in H;
    try (unfold record_passkey_assertion, record_passkey_registration, with_clock in H;
         destruct now; [|done]).
  - eapply modify_answered; [apply attest_keeps, takes_envelope_attestable|done..|].
    intros e e' He. eapply attest_answers; [apply takes_envelope_kinds|done].
  - eapply modify_answered; [apply attest_keeps, takes_clawback_attestable|done..|].
    intros e e' He. eapply attest_answers; [apply takes_clawback_kinds|done].
  - eapply modify_answered; [apply attest_keeps, takes_rule_proposal_attestable|done..|].
    intros e e' He. eapply attest_answers; [apply takes_rule_kinds|done].
  - eapply modify_answered; [apply assert_keeps|done..|]. eauto using assert_answers.
  - eapply modify_answered; [by apply register_keeps|done..|]. eauto using register_answers.
Qed.

(** ** One answer per approval, across failures and restarts *)

(** A call leaves the file alone or hands it the records it leaves in memory. *)
Lemma exec_shape fault c s :
  exists es, snd (exec fault c s) = MkStore es (disk s) \/
             snd (exec fault c s) = snd (commit fault es s).
Proof.
  assert (Hid : exists es, s = MkStore es (disk s) \/ s = snd (commit fault es s))
    by (exists (entries s); left; by destruct s).
  assert (Hmod : forall n f, exists es, snd (modify fault n f s) = MkStore es (disk s) \/
    snd (modify fault n f s) = snd (commit fault es s)).
  { intros n f. unfold modify. destruct (update_first _ _ _) as [es|]; [|done]. exists es. by right. }
  assert (Hrep : forall n f, exists es, snd (replace fault n f s) = MkStore es (disk s) \/
    snd (replace fault n f s) = snd (commit fault es s)).
  { intros n f. unfold replace. destruct (update_first _ _ _) as [es|e]; [|by destruct e].
    exists es. right. by destruct (commit fault es s) as [[] ?]. }
  destruct c; simpl; unfold record_passkey_assertion, record_passkey_registration, with_clock;
    try (by apply Hmod); try (by apply Hrep).
  - unfold insert. set (es := retain _ _). destruct (_ <=? _).
    { exists es. right. by destruct (commit fault es s) as [[] ?]. }
    destruct (existsb _ es); [exists es; by left|]. exists (es ++ [entry]). by right.
  - destruct now; [by apply Hmod|done].
  - destruct now; [by apply Hmod|done].
  - unfold remove. set (es := retain _ _). exists es. destruct (_ <? _); [right|by left].
    by destruct (commit fault es s) as [[] ?].
  - unfold gc_expired. set (es := retain _ _). exists es. destruct (_ <? _); [right|by left].
    by destruct (commit fault es s) as [[] ?].
Qed.

(** Neither the records nor the file show the approval as waiting. *)
Definition past (n : string) (s : St) : Prop :=
  1 <= rank (find_nonce n (entries s)) /\
  forall t es, disk s = Some t -> read_file t = Ok es -> 1 <= rank (find_nonce n es).

Lemma file_of_entries es t es' :
  to_toml (serialize <$> es) = Ok t -> Forall record_ok es -> read_file t = Ok es' -> es' = es.
Proof.
  intros Ht He H. rewrite (read_file_ok t es) in H; [by res_inv|by apply toml_roundtrip|done].
Qed.

Lemma past_exec n fault c s :
  call_ok c -> store_ok s -> inserts n c = false -> past n s -> past n (snd (exec fault c s)).
Proof.
  intros Hc Hs Hn [Hm Hd]. destruct (exec_advances n fault c s Hc Hs Hn) as [Ha _].
  pose proof (exec_ok fault c s Hc Hs) as Hs'.
  destruct (exec_shape fault c s) as (es & [He|He]); rewrite He in *; (split; [lia|]).
  - done.
  - intros t es' Ht Hr. apply commit_disk in Ht as [Ht|Ht]; [by eapply Hd|].
    rewrite commit_entries in Ha. rewrite (file_of_entries es t es' Ht); [lia| |done].
    pose proof (es_records _ (so_entries _ Hs')) as H. by rewrite commit_entries in H.
Qed.

Lemma past_open n env s s' : open env (disk s) = Ok s' -> past n s -> past n s'.
Proof.
  intros H [_ Hd]. unfold open in H. destruct (has_parent env); [|done]. simpl in H. res_inv.
  destruct (disk s) as [t|] eqn:Ed.
  - destruct (read_error env); [done|]. split; simpl; [by eapply Hd|]. intros t' es [= <-]. by apply Hd.
  - simpl in *. res_inv. by split.
Qed.

(** Runs: calls with what they answered, and restarts. *)
Inductive trace : St -> list (Call * bool) -> St -> Prop :=
| trace_nil s : trace s [] s
| trace_call fault c s tr s' :
    call_ok c -> trace (snd (exec fault c s)) tr s' ->
    trace s ((c, fst (exec fault c s)) :: tr) s'
| trace_reopen env s s1 tr s' : open env (disk s) = Ok s1 -> trace s1 tr s' -> trace s tr s'.

Lemma trace_call_to fault c s b s1 tr s' :
  call_ok c -> exec fault c s = (b, s1) -> trace s1 tr s' -> trace s ((c, b) :: tr) s'.
Proof.
  intros Hc He Ht. replace b with (fst (exec fault c s)) by by rewrite He.
  apply trace_call; [done|]. by rewrite He.
Qed.

Lemma past_no_answer n s tr s' k c :
  trace s tr s' -> store_ok s -> past n s -> tr !! k = Some (c, true) ->
  (forall k' c' b, (k' < k)%nat -> tr !! k' = Some (c', b) -> inserts n c' = false) ->
  answers n c = false.
Proof.
  intros H. revert k. induction H as [s|fault c0 s tr s' Hc _ IH|env s s1 tr s' Ho _ IH];
    intros k Hs Hp Hk Hi.
  - by destruct k.
  - destruct k as [|k]; simpl in Hk.
    + injection Hk as -> Hb. apply not_true_iff_false. intros Hans.
      destruct (exec fault c s) as [b s1] eqn:E; simpl in *; subst b.
      destruct (exec_answered n fault c s s1 Hc Hs Hans E) as [H0 _]. destruct Hp as [Hp _]. lia.
    + apply (IH k); [by apply exec_ok| |done|].
      * apply past_exec; [done..| |done]. by apply (Hi 0%nat _ (fst (exec fault c0 s))); [lia|].
      * intros k' c' b' Hlt Hk'. apply (Hi (S k') c' b'); [lia|done].
  - apply (IH k); [eapply open_ok; [apply Hs|done]|by eapply past_open|done..].
Qed.

Lemma answer_past n fault c s :
  call_ok c -> store_ok s -> answers n c = true -> fst (exec fault c s) = true ->
  past n (snd (exec fault c s)).
Proof.
  intros Hc Hs Ha H. pose proof (exec_ok fault c s Hc Hs) as Hs'.
  destruct (exec fault c s) as [b s1] eqn:E; simpl in *; subst b.
  destruct (exec_answered n fault c s s1 Hc Hs Ha E) as [_ H1].
  apply exec_committed in E as (es & (t & Ht & ->)%persist_acked).
  split; simpl in *; [lia|]. intros t' es' [= <-] Hr.
  rewrite (file_of_entries es t es' Ht); [lia|apply Hs'|done].
Qed.

(** C5: An approval is answered at most once.  In any run, with faults and restarts,
    between two acknowledged answers under the same nonce a new approval was
    inserted under that nonce; before that, the first answer is in the file, and
    no attestation, assertion or registration can replace it. *)
Theorem answered_at_most_once n tr s i j ci cj :
  trace empty_store tr s -> (i < j)%nat ->
  tr !! i = Some (ci, true) -> tr !! j = Some (cj, true) ->
  answers n ci = true -> answers n cj = true ->
  exists k c b, (i < k < j)%nat /\ tr !! k = Some (c, b) /\ inserts n c = true.
Proof.
  generalize empty_ok. generalize empty_store. intros s0 Hs Ht. revert i j Hs.
  induction Ht as [s1|fault c s1 tr s' Hc Ht IH|env s1 s2 tr s' Ho _ IH];
    intros i j Hs Hij Hi Hj Hai Haj.
  - by destruct i.
  - destruct j as [|j]; [lia|]. simpl in Hj. destruct i as [|i]; simpl in Hi.
    + injection Hi as -> Hb. destruct (existsb (fun e => inserts n (fst e)) (take j tr)) eqn:Ex.
      * apply existsb_exists in Ex as ([c' b'] & Hin & Hins).
        apply list_elem_of_In, list_elem_of_lookup in Hin as [k Hk].
        apply lookup_take_Some in Hk as [Hk Hlt]. exists (S k), c', b'. split; [lia|done].
      * exfalso. assert (answers n cj = false); [|congruence].
        eapply past_no_answer; [exact Ht|by apply exec_ok|by eapply answer_past|exact Hj|].
        intros k c' b Hk Hc'. apply not_true_iff_false. intros Hins.
        apply not_true_iff_false in Ex. apply Ex, existsb_exists. exists (c', b). split; [|done].
        apply list_elem_of_In. apply list_elem_of_lookup. exists k. by rewrite lookup_take_lt.
    + destruct (IH i j) as (k & c' & b & Hk & Hl & Hins); [by apply exec_ok|lia|done..|].
      exists (S k), c', b. split; [lia|done].
  - apply IH; [eapply open_ok; [apply Hs|done]|done..].
Qed.

(** ** Opening under a lock *)

Lemma retry_loop_stops attempts attempt env (file : Z -> option Text) fuel :
  in_range u32 attempts -> 0 <= attempt < attempts -> (Z.to_nat (attempts - attempt) <= fuel)%nat ->
  exists r k, retry_loop fuel attempts attempt env file = Some (r, k) /\
    attempt < k <= attempts /\ r = open (env k) (file k) /\
    (r = Err WriterLocked -> k = attempts) /\
    forall i, attempt < i < k -> open (env i) (file i) = Err WriterLocked.
Proof.
  revert attempt. induction fuel as [|fuel IH]; intros attempt Hr Ha Hf; [lia|].
  assert (Hw : wrap_u 32 (attempt + 1) = attempt + 1).
  { apply wrap_u_small. unfold in_range in Hr. change (hi u32) with (2 ^ 32 - 1) in Hr. lia. }
  simpl. rewrite Hw. destruct (open (env (attempt + 1)) (file (attempt + 1))) as [st|e] eqn:E.
  - exists (Ok st), (attempt + 1). split_and!; try done; try lia.
  - assert (Hstop : forall e', e' = e -> e' <> WriterLocked -> exists r k,
      Some (Err e', attempt + 1) = Some (r, k) /\ attempt < k <= attempts /\
      r = open (env k) (file k) /\ (r = Err WriterLocked -> k = attempts) /\
      forall i, attempt < i < k -> open (env i) (file i) = Err WriterLocked).
    { intros e' -> Hne. exists (Err e), (attempt + 1). split_and!; try done; try lia.
      by intros [= ->]. }
    destruct e; try (by apply Hstop).
    destruct (Z.ltb_spec (attempt + 1) attempts).
    + destruct (IH (attempt + 1)) as (r & k & Hl & Hk & Hr' & Hlast & Hi); [done|lia..|].
      exists r, k. split_and!; try done; try lia. intros i Hi'.
      destruct (decide (i = attempt + 1)) as [->|]; [done|]. apply Hi. lia.
    + exists (Err WriterLocked), (attempt + 1). split_and!; try done; try lia.
Qed.

(** Opening under contention terminates: after at most [max attempts 1] tries it
    returns what the last try gave, every earlier try found the lock taken, and
    it gives up with the lock error only after the last one.  The counter does
    not wrap. *)
Theorem open_with_retry_terminates attempts env (file : Z -> option Text) :
  in_range u32 attempts ->
  exists r k, open_with_retry (Z.to_nat (Z.max attempts 1)) attempts env file = Some (r, k) /\
    1 <= k <= Z.max attempts 1 /\ r = open (env k) (file k) /\
    (r = Err WriterLocked -> k = Z.max attempts 1) /\
    forall i, 1 <= i < k -> open (env i) (file i) = Err WriterLocked.
Proof.
  intros Ha. destruct (retry_loop_stops (Z.max attempts 1) 0 env file
    (Z.to_nat (Z.max attempts 1))) as (r & k & H & Hk & Hr & Hl & Hi); [|lia..|].
  - unfold in_range in *. change (lo u32) with 0 in *. change (hi u32) with (2 ^ 32 - 1) in *. lia.
  - exists r, k. split_and!; try done; try lia. intros i Hi'. apply Hi. lia.
Qed.

(** ** Two surprises *)

(** C36: The payment constructor does not check the memo, the reader does: an approval
    for a payment whose memo has a byte outside printable ASCII (a legal text memo)
    is stored, and from then on the file of the whole profile cannot be opened. *)
Theorem unprintable_memo_locks_the_store raw clock xdr bytes to amount asset memo fee seq uid ttl
    p now s s' env s'' :
  new_payment_pending raw clock xdr bytes to amount asset (Some memo) fee seq uid ttl = Ok p ->
  str_all is_memo_char memo = false ->
  insert None p now s = (Ok tt, s') -> open env (disk s') <> Ok s''.
Proof.
  intros Hp Hm Hi Ho. unfold new_payment_pending, pending_of in Hp. res_inv.
  unfold insert in Hi. set (es := retain _ _) in Hi.
  destruct (_ <=? _); [by destruct (commit None es s) as [[] ?]|].
  destruct (existsb _ es); [done|]. apply persist_acked in Hi as (t & Ht & ->).
  apply toml_roundtrip in Ht. unfold open in Ho. destruct (has_parent env); [|done].
  simpl in Ho. cbn [entries] in Ht. res_inv. destruct (read_error env); [done|].
  unfold read_file in Ho2. rewrite Ht in Ho2. cbn [map_err] in Ho2. res_inv.
  rewrite fmap_app in Ho3. apply mapM_res_Ok, Forall2_app_inv_l in Ho3 as (l1 & l2 & _ & H2 & _).
  apply Forall2_cons_inv_l in H2 as (q & l3 & Hq & _).
  apply approval_file_exact_memo in Hq. destruct (Hq memo eq_refl). congruence.
Qed.

(** Rejecting the nonce of an approval that was already spent is not a no-op: the
    tombstone with the transaction hash is replaced by one that says a record of
    kind [Consumed] was rejected. *)
Theorem reject_replaces_consumed n e name tx outcome now ttl s t :
  get s n = Some e -> kind e = Consumed name tx outcome ->
  to_toml (serialize <$> entries (snd (reject None n now ttl s))) = Ok t ->
  exists s' e', reject None n now ttl s = (Ok true, s') /\ get s' n = Some e' /\
    kind e' = Rejected "Consumed" /\ attestation_blob_b64 e' = None.
Proof.
  intros Hg Hk Ht. unfold reject, replace in *.
  destruct (find_split n (entries s) e Hg) as (l & r & He & Hn & Hl).
  assert (Hu : update_first n (tombstone_rejected n now ttl) (entries s) = Ok (l ++
    default e (ok (tombstone_rejected n now ttl e)) :: r)).
  { apply update_first_Ok. exists l, e, r, (default e (ok (tombstone_rejected n now ttl e))).
    split_and!; done. }
  rewrite Hu in *. cbn [tombstone_rejected ok default from_option id] in *. set (e' := Build_PendingApproval _ _ _ _ _ _ _ _) in *.
  unfold commit, persist in *. cbn [entries] in *.
  destruct (to_toml (serialize <$> l ++ e' :: r)) as [t'|] eqn:Et; [|simpl in Ht; congruence].
  eexists _, e'. split; [done|]. split; [|split; [simpl; by rewrite Hk|done]].
  unfold get. cbn [entries]. fold (find_nonce n (l ++ e' :: r)).
  apply find_nonce_None in Hl. rewrite find_nonce_app, Hl, find_nonce_cons.
  by rewrite (proj2 (has_nonce_true n e') eq_refl).
Qed.
End props.

(** ** Demonstrations *)

#[local] Abbreviation FileText := (list PendingApprovalOnDisk).
#[local] Abbreviation rent := (unwrap (demo_payment "rent")).
#[local] Abbreviation rent_nonce := (approval_nonce rent).

Definition demo_inserted : Store FileText := snd (exec None (CInsert rent 1000) empty_store).

Lemma demo_reachable : rtc step empty_store demo_inserted.
Proof. apply rtc_once. apply step_call. apply demo_payment_ok. Qed.

Lemma calm_env_calm : calm calm_env.
Proof. done. Qed.

Lemma approval_store_invariant_witness :
  entries_ok (entries demo_inserted) /\
  exists s', open calm_env (disk demo_inserted) = Ok s' /\ disk s' = disk demo_inserted /\
    entries_ok (entries s').
Proof. apply approval_store_invariant; [apply demo_reachable|apply calm_env_calm]. Defined.

Definition demo_attest : Call := CAttest rent_nonce (replicate 32 9) 2000.
Definition demo_answered : Store FileText := snd (exec None demo_attest demo_inserted).

Lemma acknowledged_change_is_durable_witness :
  exec None demo_attest demo_inserted = (true, demo_answered) /\
  (exists t, disk demo_answered = Some t /\ from_toml t = Ok (serialize <$> entries demo_answered)) /\
  open calm_env (disk demo_answered) = Ok demo_answered.
Proof.
  assert (H : exec None demo_attest demo_inserted = (true, demo_answered)) by by vm_compute.
  split; [exact H|].
  destruct (acknowledged_change_is_durable None demo_attest demo_inserted demo_answered H) as [H1 H2].
  split; [exact H1|]. apply H2; [apply demo_reachable|exact I|apply calm_env_calm].
Defined.

Definition demo_removed : Store FileText := snd (exec None (CRemove rent_nonce) demo_answered).
Definition demo_again : Store FileText := snd (exec None (CInsert rent 3000) demo_removed).
Definition demo_twice : Store FileText := snd (exec None demo_attest demo_again).

Definition demo_trace : list (Call * bool) :=
  [(CInsert rent 1000, true); (demo_attest, true); (CRemove rent_nonce, true);
   (CInsert rent 3000, true); (demo_attest, true)].

Lemma demo_trace_runs : trace empty_store demo_trace demo_twice.
Proof.
  apply (trace_call_to None _ _ _ demo_inserted); [apply demo_payment_ok|by vm_compute|].
  apply (trace_call_to None _ _ _ demo_answered); [done|by vm_compute|].
  apply (trace_call_to None _ _ _ demo_removed); [done|by vm_compute|].
  apply (trace_call_to None _ _ _ demo_again); [apply demo_payment_ok|by vm_compute|].
  apply (trace_call_to None _ _ _ demo_twice); [done|by vm_compute|]. constructor.
Qed.

Lemma answered_at_most_once_witness :
  exists k c b, (1 < k < 4)%nat /\ demo_trace !! k = Some (c, b) /\ inserts rent_nonce c = true.
Proof.
  apply (answered_at_most_once rent_nonce demo_trace demo_twice 1 4 demo_attest demo_attest);
    [apply demo_trace_runs|lia|reflexivity|reflexivity|by vm_compute|by vm_compute].
Defined.

Lemma open_with_retry_terminates_witness :
  in_range u32 3 /\
  exists r k, open_with_retry 3 3 (fun _ => calm_env) (fun _ => disk demo_answered) = Some (r, k) /\
    1 <= k <= 3 /\ r = open calm_env (disk demo_answered) /\ (r = Err WriterLocked -> k = 3) /\
    forall i, 1 <= i < k -> open calm_env (disk demo_answered) = Err WriterLocked.
Proof.
  split; [done|].
  apply (open_with_retry_terminates 3 (fun _ => calm_env) (fun _ => disk demo_answered)). done.
Defined.

Lemma unprintable_memo_locks_the_store_witness :
  fst (insert None (unwrap (demo_payment cafe)) 1000 (empty_store (Text := FileText))) = Ok tt /\
  forall env s'', open env (disk (snd (insert None (unwrap (demo_payment cafe)) 1000
                                         (empty_store (Text := FileText))))) <> Ok s''.
Proof.
  split; [by vm_compute|]. intros env s''.
  apply (unprintable_memo_locks_the_store demo_raw (Ok 1000) "AAAA" [1; 2; 3] demo_g 50000000 "XLM"
    cafe 100 7 "1000" 86400000 (unwrap (demo_payment cafe)) 1000 empty_store);
    [by vm_compute|by vm_compute|by vm_compute].
Defined.

Definition demo_spent : Store FileText :=
  snd (exec None (CConsume rent_nonce (letters 64 "a") Confirmed) demo_answered).

Lemma reject_replaces_consumed_witness :
  exists s' e', reject None rent_nonce 5000 60000 demo_spent = (Ok true, s') /\
    get s' rent_nonce = Some e' /\ kind e' = Rejected "Consumed" /\ attestation_blob_b64 e' = None.
Proof.
  eapply (reject_replaces_consumed rent_nonce _ "PaymentSimulated" (letters 64 "a") Confirmed);
    [by vm_compute|by vm_compute|by vm_compute].
Defined.
