(* ===== verification/Attest.v ===== *)
(** * Answering an approval (stellar-agent-core, [approval/attest.rs],
      [approval/user_id.rs]; rows of [audit_log/entry.rs]; [ApprovalFailure] of
      [error.rs])

    Who may answer, and the order in which an answer takes effect: the record is
    read again, the consent row is written to the audit log, and only then is the
    attestation stored (or the grant persisted and the record removed). *)

From S2P Require Import Prelude RustStr Bytes RuleProposal PolicyTypes Attestation Approval ApprovalWire ApprovalStore.
From stdpp Require Import options.

Local Open Scope string_scope.
Local Open Scope list_scope.
Local Open Scope Z_scope.

(** ** Errors *)

Inductive ApprovalFailure :=
| AfNotFound (detail : string)
| AfExpired (detail : string)
| AfAlreadyAttested (detail : string)
| AfUserMismatch (detail : string)
| AfClockError (detail : string)
| AfSha256HexError (detail : string)
| AfKeyDecodeFailed (detail : string)
| AfKeyLengthError (detail : string)
| AfBindingMismatch (detail : string)
| AfGrantPersist (detail : string)
| AfWrongKind (detail : string)
| AfRejected (detail : string)
| AfConsumed (detail : string)
| AfRecordFailed (detail : string)
| AfUidUnavailable (detail : string)
| AfDenied (detail : string)
| AfStoreDirError (detail : string)
| AfPermissionDenied (detail : string)
| AfInvalidNonceLength (detail : string)
| AfWriterLocked (detail : string)
| AfStoreOpenFailed (detail : string)
| AfGcFailed (detail : string).

Definition approval_failure_code (e : ApprovalFailure) : string :=
  match e with
  | AfNotFound _ => "approval.not_found"
  | AfExpired _ => "approval.expired"
  | AfAlreadyAttested _ => "approval.already_attested"
  | AfUserMismatch _ => "approval.user_mismatch"
  | AfClockError _ => "approval.clock_error"
  | AfSha256HexError _ => "approval.sha256_hex_error"
  | AfKeyDecodeFailed _ => "approval.key_decode_failed"
  | AfKeyLengthError _ => "approval.key_length_error"
  | AfBindingMismatch _ => "approval.binding_mismatch"
  | AfGrantPersist _ => "approval.grant_persist"
  | AfWrongKind _ => "approval.wrong_kind"
  | AfRejected _ => "approval.rejected"
  | AfConsumed _ => "approval.consumed"
  | AfRecordFailed _ => "approval.record_failed"
  | AfUidUnavailable _ => "approval.uid_unavailable"
  | AfDenied _ => "approval.denied"
  | AfStoreDirError _ => "approval.store_dir_error"
  | AfPermissionDenied _ => "approval.permission_denied"
  | AfInvalidNonceLength _ => "approval.invalid_nonce_length"
  | AfWriterLocked _ => "approval.writer_locked"
  | AfStoreOpenFailed _ => "approval.store_open_failed"
  | AfGcFailed _ => "approval.gc_failed"
  end.

(** The refusals an audit writer that cannot write turns into
    ([audit_writer_refusal]). *)
Inductive AuditRefusal :=
| AuditTipAnchorMismatch (reason : string)
| AuditLogUnusable (detail : string)
| AuditWriterOpenFailed.

Inductive WalletError :=
| WApproval (f : ApprovalFailure)
| WAudit (profile : string) (r : AuditRefusal).

(** ** Identities *)

Record VerifiedPasskeyAssertion := { bound_nonce : string }.

(** A witness exists only for a verification that succeeded. *)
Definition new_verified {E} (approval_nonce : string) (verification_result : result E unit)
  : option VerifiedPasskeyAssertion :=
  _ ← ok verification_result; Some {| bound_nonce := approval_nonce |}.

Inductive ApproverIdentity :=
| OsUid (uid : string)
| PasskeyCredential (credential_id_b64url : string) (verification_witness : VerifiedPasskeyAssertion).

Definition from_verified_passkey_assertion := PasskeyCredential.

Definition matches_entry_process_uid (i : ApproverIdentity) (entry_process_uid : string) : bool :=
  match i with OsUid uid => bool_decide (uid = entry_process_uid) | PasskeyCredential _ _ => false end.

Definition is_authorized_for_entry (i : ApproverIdentity) (entry_process_uid entry_nonce : string)
    (allowed_credentials : list string) : bool :=
  match i with
  | OsUid _ => matches_entry_process_uid i entry_process_uid
  | PasskeyCredential id witness =>
      negb (is_empty id) && existsb (fun allowed => bool_decide (allowed = id)) allowed_credentials
      && bool_decide (bound_nonce witness = entry_nonce)
  end.

(** ** The consent row *)

Inductive Surface := Cli | Serve | ServeRemote.

Definition surface_str (s : Surface) : string :=
  match s with Cli => "cli" | Serve => "serve" | ServeRemote => "serve-remote" end.

(** The event of the row; its time and request id are the writer's. *)
Inductive AttestedRow :=
| RowAttested (approval_kind gated_tool : string) (envelope_sha256_hex : option string)
    (nonce_prefix origin : string)
| RowAttestedRemote (approval_kind gated_tool : string) (envelope_sha256_hex : option string)
    (nonce_prefix operator_credential_id_redacted : string).

Definition nonce_prefix8 (nonce : string) : string :=
  match str_get nonce 0 8 with Some p => p | None => nonce end.

(** Where the row goes ([ConsentAudit]): through the writer of the log, or into the outbox of a
    log that another process holds.  A sink takes the row, answers, and leaves its log
    as the attempt left it, rows it drained before and a partial line included. *)
Class ConsentAudit (Log : Type) := consent_write : AttestedRow -> Log -> result AuditRefusal unit * Log.

(** ** Lookup *)

Record ToolsetGrantRequest := {
  tgr_binding : AttestationBinding;
  tgr_toolset_name : string;
  tgr_capability : string;
  tgr_destination : string;
  tgr_asset : string;
  tgr_amount_min_stroops : Z;
  tgr_amount_max_stroops : Z;
  tgr_process_uid : string;
  tgr_now_unix_ms : Z;
}.

Definition map_clock_error (err : string) : WalletError :=
  WApproval (AfClockError ("system clock error: " +:+ err)).

Definition rejected_error : WalletError :=
  WApproval (AfRejected "this pending approval was rejected by the operator and cannot be attested").
Definition consumed_error : WalletError :=
  WApproval (AfConsumed "this pending approval was already spent on a submission and cannot be attested").

Section attest.
Context {Text Log Grants : Type} `{!TomlFile Text, !EscapeDebug, !Base64, !Sha2, !ConsentAudit Log}.
(** [Display] of the errors of the store that have no failure of their own. *)
Variable approval_error_text : ApprovalError -> string.

#[local] Abbreviation St := (Store Text).

Definition pseudonymize_credential_id (credential_id_b64url : string) : string :=
  encode (take 4 (sha256 (as_bytes credential_id_b64url))).

Definition load_and_validate_entry (store : St) (nonce : string) (identity : ApproverIdentity)
    (allowed_credentials : list string) (clock : result string Z)
  : result WalletError PendingApproval :=
  entry ← ok_or (WApproval (AfNotFound "no pending approval with that nonce")) (get store nonce);
  now_ms ← map_err map_clock_error clock;
  if is_expired entry now_ms
  then Err (WApproval (AfExpired "this pending approval has expired"))
  else if is_some (attestation_blob_b64 entry)
  then Err (WApproval (AfAlreadyAttested "this pending approval has already been attested"))
  else if negb (is_authorized_for_entry identity (process_uid entry) (approval_nonce entry)
                  allowed_credentials)
  then Err (WApproval (AfUserMismatch
         ("this pending approval was created by a different local user (process_uid mismatch), "
          +:+ "or the presented passkey credential is not authorized for this profile; "
          +:+ "this caller cannot attest it")))
  else Ok entry.

(** Two characters a byte, by [u8::from_str_radix]. *)
Fixpoint decode_hex_pairs (s : string) : result WalletError (list Z) :=
  match s with
  | String a (String b s') =>
      let byte_str := String a (String b EmptyString) in
      v ← ok_or (WApproval (AfSha256HexError ("invalid hex byte '" +:+ byte_str +:+ "'")))
                (u8_from_hex byte_str);
      vs ← decode_hex_pairs s';
      Ok (v :: vs)
  | _ => Ok []
  end.

(** A chunk that is not UTF-8 has a byte outside hexadecimal text and is refused
    all the same, under another message. *)
Definition decode_sha256_hex (hex : string) : result WalletError (list Z) :=
  if negb (len hex =? 64)
  then Err (WApproval (AfSha256HexError ("expected 64 hex chars, got " +:+ show_Z (len hex))))
  else decode_hex_pairs hex.

Definition record_error (e : ApprovalError) : WalletError :=
  WApproval
    match e with
    | NotFound => AfNotFound "entry disappeared between lookup and record"
    | Expired => AfExpired "entry expired between check and record"
    | AlreadyAttested => AfAlreadyAttested "entry was attested by a concurrent process"
    | other => AfRecordFailed (approval_error_text other)
    end.

Definition refuse_unless_still_pending (store : St) (validated : PendingApproval) (now_ms : Z)
  : result WalletError unit :=
  current ← ok_or (record_error NotFound) (get store (approval_nonce validated));
  if negb (bool_decide (kind current = kind validated)
           && bool_decide (process_uid current = process_uid validated))
  then Err match kind current with
           | Rejected _ => rejected_error
           | Consumed _ _ _ => consumed_error
           | _ => WApproval (AfWrongKind
                    "the pending approval changed between validation and the attest")
           end
  else if is_expired current now_ms then Err (record_error Expired)
  else if is_some (attestation_blob_b64 current) then Err (record_error AlreadyAttested)
  else Ok tt.

(** ** The attest *)

(** The store, the log behind the sink and the grants; the fault of the store's
    rewriting and the grant callback are arguments. *)
Record World := MkWorld { w_store : St; w_log : Log; w_grants : Grants }.

Record AttestEnv := {
  env_clock : result string Z;
  env_fault : Fault;
  env_persist_grant : ToolsetGrantRequest -> list Z -> Grants -> result string unit * Grants;
}.

#[local] Abbreviation Run A := (result WalletError A * World)%type.

Definition emit_attested_audit (profile approval_kind gated_tool : string)
    (envelope_sha256_hex : option string) (approval_nonce : string) (surface : Surface)
    (operator_credential_id : option string) (w : World) : Run unit :=
  let row := match operator_credential_id with
             | Some cred_id => RowAttestedRemote approval_kind gated_tool envelope_sha256_hex
                                 (nonce_prefix8 approval_nonce) (pseudonymize_credential_id cred_id)
             | None => RowAttested approval_kind gated_tool envelope_sha256_hex
                         (nonce_prefix8 approval_nonce) (surface_str surface)
             end in
  let '(r, log) := consent_write row (w_log w) in
  (map_err (WAudit profile) r, MkWorld (w_store w) log (w_grants w)).

(** A store operation that records, with its errors renamed. *)
Definition recording (op : St -> result ApprovalError unit * St) (out : option string) (w : World)
  : Run (option string) :=
  let '(r, st) := op (w_store w) in
  (match r with Ok _ => Ok out | Err e => Err (record_error e) end,
   MkWorld st (w_log w) (w_grants w)).

(** The row first, then the record. *)
Definition row_then (r : Run unit) (k : World -> Run (option string)) : Run (option string) :=
  match r with (Ok _, w) => k w | (Err e, w) => (Err e, w) end.

Definition attest_envelope_and_persist (env : AttestEnv) (entry : PendingApproval) (key : list Z)
    (binding : AttestationBinding) (surface : Surface) (cred : option string) (now_ms : Z)
    (envelope_sha256_hex kind_name gated_tool : string) (w : World) : Run (option string) :=
  match decode_sha256_hex envelope_sha256_hex with
  | Err e => (Err e, w)
  | Ok presented_sha256 =>
      let attestation_blob := compute_attestation key binding (approval_nonce entry)
                                presented_sha256 (process_uid entry) in
      row_then (emit_attested_audit (profile_name binding) kind_name gated_tool
                  (Some envelope_sha256_hex) (approval_nonce entry) surface cred w)
        (recording (record_attestation_at (env_fault env) (approval_nonce entry) attestation_blob
                      now_ms) (Some (base64_encode attestation_blob)))
  end.

Definition binding_matches (k : ApprovalKind) (binding : AttestationBinding) : bool :=
  match k with
  | RuleProposalSimulated _ _ _ chain_id _ _ _ => bool_decide (chain_id = binding_chain_id binding)
  | MppChargeSimulated _ _ profile chain_id _ _ _ _ _ _ _ _ _ =>
      bool_decide (profile = profile_name binding) && bool_decide (chain_id = binding_chain_id binding)
  | _ => true
  end.

(** One arm per kind. *)
Definition attest_kind (env : AttestEnv) (entry : PendingApproval) (key : list Z)
    (binding : AttestationBinding) (surface : Surface) (cred : option string) (now_ms : Z) (w : World)
  : Run (option string) :=
  let n := approval_nonce entry in
  let emit kind_name gated_tool sha := emit_attested_audit (profile_name binding) kind_name
                                         gated_tool sha n surface cred w in
  match kind entry with
  | PaymentSimulated _ sha _ _ _ _ _ _ =>
      attest_envelope_and_persist env entry key binding surface cred now_ms sha
        "PaymentSimulated" "stellar_pay_commit" w
  | TrustlineSimulated _ sha _ _ _ _ _ _ =>
      attest_envelope_and_persist env entry key binding surface cred now_ms sha
        "TrustlineSimulated" "stellar_trustline_commit" w
  | ClaimSimulated _ sha _ _ _ _ _ _ _ =>
      attest_envelope_and_persist env entry key binding surface cred now_ms sha
        "ClaimSimulated" "stellar_claim_commit" w
  | ToolsetFirstInvokeGate toolset_name capability destination asset amount_min amount_max =>
      let request := {| tgr_binding := binding; tgr_toolset_name := toolset_name;
                        tgr_capability := capability; tgr_destination := destination;
                        tgr_asset := asset; tgr_amount_min_stroops := amount_min;
                        tgr_amount_max_stroops := amount_max;
                        tgr_process_uid := process_uid entry; tgr_now_unix_ms := now_ms |} in
      row_then (emit "ToolsetFirstInvokeGate"
                  ("toolset:" +:+ toolset_name +:+ ":" +:+ capability) None)
        (fun w =>
           let '(r, grants) := env_persist_grant env request key (w_grants w) in
           match r with
           | Err e => (Err (WApproval (AfGrantPersist e)), MkWorld (w_store w) (w_log w) grants)
           | Ok _ =>
               (* a failed removal is logged and left to expiry *)
               let st := snd (remove (env_fault env) n (w_store w)) in
               (Ok None, MkWorld st (w_log w) grants)
           end)
  | TrustlineClawbackOptIn network code issuer =>
      let digest := compute_trustline_clawback_opt_in_digest network code issuer in
      let attestation_blob := compute_attestation key binding n digest (process_uid entry) in
      row_then (emit "TrustlineClawbackOptIn" "stellar_trustline_commit" None)
        (recording (record_trustline_clawback_opt_in_attestation_at (env_fault env) n
                      attestation_blob now_ms) None)
  | RuleProposalSimulated _ _ _ _ _ proposal_sha256 _ =>
      let attestation_blob := compute_attestation key binding n proposal_sha256 (process_uid entry) in
      row_then (emit "RuleProposalSimulated" "stellar_rule_create_commit"
                  (Some (encode proposal_sha256)))
        (recording (record_rule_proposal_attestation_at (env_fault env) n attestation_blob now_ms)
           (Some (base64_encode attestation_blob)))
  | MppChargeSimulated _ prepared_artifact_hash _ _ _ _ _ _ _ _ _ _ _ =>
      let attestation_blob := compute_attestation key binding n prepared_artifact_hash
                                (process_uid entry) in
      row_then (emit "MppChargeSimulated" "stellar_mpp_charge_commit"
                  (Some (encode prepared_artifact_hash)))
        (recording (record_attestation_at (env_fault env) n attestation_blob now_ms)
           (Some (base64_encode attestation_blob)))
  | Rejected _ => (Err rejected_error, w)
  | Consumed _ _ _ => (Err consumed_error, w)
  | other =>
      (Err (WApproval (AfWrongKind
         ("attest_and_persist does not support " +:+ kind_name other
          +:+ ", expected PaymentSimulated, ClaimSimulated, TrustlineSimulated, MppChargeSimulated, "
          +:+ "ToolsetFirstInvokeGate, TrustlineClawbackOptIn, or RuleProposalSimulated"))), w)
  end.

Definition attest_and_persist (env : AttestEnv) (entry : PendingApproval) (key_bytes : list Z)
    (binding : AttestationBinding) (surface : Surface) (cred : option string) (w : World)
  : Run (option string) :=
  if negb (binding_matches (kind entry) binding)
  then (Err (WApproval (AfBindingMismatch "this request belongs to another profile or network")), w)
  else if negb (count key_bytes =? 32)
  then (Err (WApproval (AfKeyLengthError ("attestation key must be 32 bytes, got "
                                           +:+ show_Z (count key_bytes)))), w)
  else match env_clock env with
       | Err e => (Err (map_clock_error e), w)
       | Ok now_ms =>
           match refuse_unless_still_pending (w_store w) entry now_ms with
           | Err e => (Err e, w)
           | Ok _ => attest_kind env entry key_bytes binding surface cred now_ms w
           end
       end.
End attest.
