(* ===== verification/AttestProps.v ===== *)
(** * Answering an approval: consent rows, gates, identities *)

From stdpp Require Import options.
From S2P Require Import Prelude RustStr Bytes RuleProposal PolicyTypes Attestation Approval ApprovalWire ApprovalStore ApprovalWireProps ApprovalDemo ApprovalStoreProps Attest.
Set Default Proof Using "Type*".

Local Open Scope string_scope.
Local Open Scope list_scope.
Local Open Scope Z_scope.

Definition row_kind (r : AttestedRow) : string :=
  match r with RowAttested k _ _ _ _ | RowAttestedRemote k _ _ _ _ => k end.
Definition row_nonce_prefix (r : AttestedRow) : string :=
  match r with RowAttested _ _ _ n _ | RowAttestedRemote _ _ _ n _ => n end.

Section props.
Context {Text Log Grants : Type} `{TF : !TomlFile Text, TL : !TomlFileLaws Text, CA : !ConsentAudit Log}.
Context `{ED : !EscapeDebug, BB : !Base64, BL : !Base64Laws, SH : !Sha2, SL : !Sha2Laws}.
Variable show_error : ApprovalError -> string.

#[local] Abbreviation W := (@World Text Log Grants).
#[local] Abbreviation attest := (attest_and_persist show_error).

(** ** The row comes first *)

(** A row of the approval: it names the kind and the nonce. *)
Definition names_approval (entry : PendingApproval) (row : AttestedRow) : Prop :=
  row_kind row = kind_name (kind entry) /\ row_nonce_prefix row = nonce_prefix8 (approval_nonce entry).

(** What became of an answer [r].  It was refused before the log was touched, and nothing changed; or a
    row of the approval was handed to the sink, once: when the sink refused it, store and grants are as
    they were; when it took it, the log is as the sink left it. *)
Definition consented (profile : string) (entry : PendingApproval) (w : W) {A} (r : result WalletError A) (w' : W) : Prop :=
  (w' = w /\ is_ok r = false) \/
  exists row log, names_approval entry row /\
    ((exists refusal, consent_write row (w_log w) = (Err refusal, log) /\ r = Err (WAudit profile refusal) /\
        w' = MkWorld (w_store w) log (w_grants w)) \/
     (consent_write row (w_log w) = (Ok tt, log) /\ w_log w' = log)).

Lemma emit_cases profile k tool sha n surface cred (w : W) r w' :
  emit_attested_audit profile k tool sha n surface cred w = (r, w') ->
  exists row a log, row_kind row = k /\ row_nonce_prefix row = nonce_prefix8 n /\
    consent_write row (w_log w) = (a, log) /\ r = map_err (WAudit profile) a /\
    w' = MkWorld (w_store w) log (w_grants w).
Proof.
  unfold emit_attested_audit. destruct (consent_write _ _) as [a log] eqn:E. intros [= <- <-].
  eexists _, a, log. split; [|split; [|split; [exact E|done]]]; by destruct cred.
Qed.

Lemma row_then_consented profile name tool sha surface cred entry (w : W) k r w' :
  name = kind_name (kind entry) ->
  (forall w1 r1 w2, k w1 = (r1, w2) -> w_log w2 = w_log w1) ->
  row_then (emit_attested_audit profile name tool sha
              (approval_nonce entry) surface cred w) k = (r, w') ->
  consented profile entry w r w'.
Proof.
  intros -> Hk H. unfold row_then in H. destruct (emit_attested_audit _ _ _ _ _ _ _ _) as [u w1] eqn:E.
  apply emit_cases in E as (row & a & log & H1 & H2 & Ha & -> & ->). right. exists row, log. split; [done|].
  destruct a as [[]|refusal]; cbn [map_err] in H.
  - right. by rewrite (Hk _ _ _ H).
  - injection H as <- <-. left. by exists refusal.
Qed.

Lemma recording_log op out (w : W) r w' :
  recording show_error op out w = (r, w') -> w_log w' = w_log w.
Proof. unfold recording. destruct (op (w_store w)). by intros [= _ <-]. Qed.

Lemma envelope_consented env entry key b surface cred now sha name tool (w : W) r w' :
  name = kind_name (kind entry) ->
  attest_envelope_and_persist show_error env entry key b surface cred now sha name tool w
    = (r, w') -> consented (profile_name b) entry w r w'.
Proof.
  intros Hn. unfold attest_envelope_and_persist.
  destruct (decode_sha256_hex sha); [|by intros [= <- <-]; left].
  apply row_then_consented; [done|apply recording_log].
Qed.

Lemma attest_kind_consented env entry key b surface cred now (w : W) r w' :
  attest_kind show_error env entry key b surface cred now w = (r, w') -> consented (profile_name b) entry w r w'.
Proof.
  unfold attest_kind. intros H.
  destruct (kind entry) eqn:Ek; try (left; by injection H as <- <-);
    try (eapply envelope_consented; [|exact H]; by rewrite Ek);
    (eapply row_then_consented; [by rewrite Ek| |exact H]); try apply recording_log.
  intros w1 r1 w2 H'. cbv beta in H'. destruct (env_persist_grant _ _ _ _) as [[] g]; by simplify_eq.
Qed.

(** C31: No answer takes effect without its consent row.  Whatever the sink of the audit rows does with a row
    (it may append others first, fail half-way or fail after the row is out) and whatever else fails: an
    attest is refused before the log is touched and changes nothing; or it hands the sink one row, which names
    the kind and the nonce of the approval, and then either the sink refused, the refusal is the
    answer, and approvals and grants are as they were; or the sink acknowledged the row.  In particular
    approvals and grants change, and an attest succeeds, only after the acknowledgement. *)
Theorem consent_row_first env entry key b surface cred (w : W) r w' :
  attest env entry key b surface cred w = (r, w') -> consented (profile_name b) entry w r w'.
Proof.
  intros H. unfold attest_and_persist in H. destruct (binding_matches _ _); [|left; by injection H as <- <-].
  destruct (_ =? _); [|left; by injection H as <- <-].
  destruct (env_clock env); [|left; by injection H as <- <-].
  destruct (refuse_unless_still_pending _ _ _ _); [|left; by injection H as <- <-].
  cbn [negb] in H. by eapply attest_kind_consented.
Qed.

(** ** What an attest stores *)

(** The digest a human answered for. *)
Definition presented_digest (k : ApprovalKind) : option (list Z) :=
  match k with
  | PaymentSimulated _ sha _ _ _ _ _ _ | TrustlineSimulated _ sha _ _ _ _ _ _
  | ClaimSimulated _ sha _ _ _ _ _ _ _ => ok (decode_sha256_hex sha)
  | TrustlineClawbackOptIn network code issuer =>
      Some (compute_trustline_clawback_opt_in_digest network code issuer)
  | RuleProposalSimulated _ _ _ _ _ proposal_sha256 _ => Some proposal_sha256
  | MppChargeSimulated _ prepared_artifact_hash _ _ _ _ _ _ _ _ _ _ _ => Some prepared_artifact_hash
  | _ => None
  end.

Lemma modify_get n fault f (s s' : Store Text) :
  (forall e e', f e = Ok e' -> approval_nonce e' = approval_nonce e) ->
  modify fault n f s = (Ok tt, s') ->
  exists e e', get s n = Some e /\ f e = Ok e' /\ get s' n = Some e'.
Proof.
  intros Hf (es & Hu & Hc)%modify_acked.
  apply update_first_Ok in Hu as (l & e & r & e' & He & -> & Hn & Hl & Hfe).
  pose proof (commit_entries fault (l ++ e' :: r) s) as Hes. rewrite Hc in Hes. simpl in Hes.
  exists e, e'. unfold get. rewrite Hes, He. fold (find_nonce n (l ++ e :: r)).
  fold (find_nonce n (l ++ e' :: r)). apply find_nonce_None in Hl.
  rewrite !find_nonce_app, Hl, !find_nonce_cons.
  rewrite (proj2 (has_nonce_true n e)) by done.
  by rewrite (proj2 (has_nonce_true n e')) by (by rewrite (Hf _ _ Hfe)).
Qed.

(** The record after a recorded attestation. *)
Definition attested_with (w w' : W) (entry : PendingApproval) (blob : list Z) : Prop :=
  exists e, get (w_store w) (approval_nonce entry) = Some e /\
    get (w_store w') (approval_nonce entry) = Some (set_attestation e (Some (base64_encode blob))).

Lemma attest_modify_get takes expected n blob now fault (s s' : Store Text) :
  modify fault n (attest_entry takes expected blob now) s = (Ok tt, s') ->
  exists e, get s n = Some e /\ get s' n = Some (set_attestation e (Some (base64_encode blob))).
Proof.
  intros H. apply modify_get in H as (e & e' & Hg & Hf & Hg').
  - exists e. split; [done|]. rewrite Hg'. unfold attest_entry in Hf. cases_in Hf. by res_inv.
  - intros e1 e1' Hf. unfold attest_entry in Hf. cases_in Hf. by res_inv.
Qed.

Lemma recorded (env : @AttestEnv Grants) profile name tool sha surface cred entry op out (w : W) r w' blob takes expected now :
  op = modify (env_fault env) (approval_nonce entry) (attest_entry takes expected blob now) ->
  row_then (emit_attested_audit profile name tool sha (approval_nonce entry) surface cred w)
    (recording show_error op out) = (Ok r, w') ->
  r = out /\ attested_with w w' entry blob.
Proof.
  intros -> H. unfold row_then in H. destruct (emit_attested_audit _ _ _ _ _ _ _ _) as [u w1] eqn:E.
  apply emit_cases in E as (row & a & log & _ & _ & _ & -> & ->). destruct a as [[]|]; [|done]. cbn [map_err] in H.
  unfold recording in H. cbn [w_store] in H. destruct (modify _ _ _ (w_store w)) as [[[]|e] st] eqn:Em; [|done].
  injection H as <- <-. split; [done|].
  apply attest_modify_get in Em as (e & Hg & Hg'). by exists e.
Qed.

(** An attest that succeeded stored the MAC of what was presented; a gate grant
    stores none. *)
Lemma attest_stores env entry key b surface cred (w : W) out w' :
  attest env entry key b surface cred w = (Ok out, w') ->
  (exists t c d a mn mx, kind entry = ToolsetFirstInvokeGate t c d a mn mx) \/
  exists digest e, presented_digest (kind entry) = Some digest /\
    get (w_store w) (approval_nonce entry) = Some e /\
    kind e = kind entry /\ process_uid e = process_uid entry /\
    binding_matches (kind entry) b = true /\
    let blob := compute_attestation key b (approval_nonce entry) digest (process_uid entry) in
    get (w_store w') (approval_nonce entry) = Some (set_attestation e (Some (base64_encode blob))) /\
    (takes_clawback (kind entry) = false -> out = Some (base64_encode blob)).
Proof.
  intros H. unfold attest_and_persist in H.
  assert (Eb : binding_matches (kind entry) b = true) by by destruct (binding_matches (kind entry) b).
  rewrite Eb in H. destruct (_ =? _); [|done]. destruct (env_clock env) as [now|]; [|done].
  destruct (refuse_unless_still_pending _ _ _ _) as [[]|] eqn:Er; [|done]. cbn [negb] in H.
  unfold refuse_unless_still_pending in Er. apply res_bind_Ok in Er as (cur & Hcur & Er).
  apply ok_or_Ok in Hcur. destruct (bool_decide (kind cur = kind entry)) eqn:E1; [|done].
  destruct (bool_decide (process_uid cur = process_uid entry)) eqn:E2; [|done].
  apply bool_decide_eq_true in E1, E2. clear Er.
  assert (Hfin : forall digest blob, presented_digest (kind entry) = Some digest ->
    blob = compute_attestation key b (approval_nonce entry) digest (process_uid entry) ->
    (takes_clawback (kind entry) = false -> out = Some (base64_encode blob)) ->
    attested_with w w' entry blob ->
    exists digest0 e, presented_digest (kind entry) = Some digest0 /\
      get (w_store w) (approval_nonce entry) = Some e /\
      kind e = kind entry /\ process_uid e = process_uid entry /\
      binding_matches (kind entry) b = true /\
      get (w_store w') (approval_nonce entry) = Some (set_attestation e (Some (base64_encode
        (compute_attestation key b (approval_nonce entry) digest0 (process_uid entry))))) /\
      (takes_clawback (kind entry) = false -> out = Some (base64_encode
        (compute_attestation key b (approval_nonce entry) digest0 (process_uid entry))))).
  { intros digest blob Hd -> Ho (e & He & He'). exists digest, e. rewrite Hcur in He.
    injection He as <-. by split_and!. }
  unfold attest_kind, attest_envelope_and_persist in H.
  destruct (kind entry) eqn:Ek; simpl presented_digest in *; try done;
    try (destruct (decode_sha256_hex _) as [d|]; [|done]);
    first [ left; by eexists _, _, _, _, _, _
          | right; eapply recorded in H as [Hout H]; [|reflexivity];
            eapply Hfin; [reflexivity|reflexivity|intros; by (exact Hout || done)|exact H] ].
Qed.

(** ** The gates open *)

Lemma decode_stored key b n d u :
  decode_blob (base64_encode (compute_attestation key b n d u)) = Some (compute_attestation key b n d u).
Proof.
  unfold decode_blob. rewrite base64_roundtrip by apply hmac_bytes. cbn [mbind option_bind].
  unfold count, compute_attestation. by rewrite hmac_length.
Qed.

Lemma verify_computed key b n d u :
  verify_attestation key b n d u (compute_attestation key b n d u) = true.
Proof. by apply bool_decide_eq_true. Qed.

(** An answered approval opens its gate.  After an attest that succeeded, and until
    the approval expires, the gate of its kind accepts under the same key and
    binding: the charge, the clawback opt-in, the rule proposal with the
    attestation handed out, and for the three envelope kinds the MAC over the
    digest shown. *)
Theorem attested_opens_gate env entry key b surface cred (w : W) out w' e' now :
  attest env entry key b surface cred w = (Ok out, w') ->
  get (w_store w') (approval_nonce entry) = Some e' -> now < expires_at_unix_ms e' ->
  match kind entry with
  | MppChargeSimulated fingerprint artifact _ _ _ _ _ _ _ _ _ _ _ =>
      verify_mpp_charge_attestation (w_store w') key b (approval_nonce entry) fingerprint artifact
        now = true
  | TrustlineClawbackOptIn network code issuer =>
      verify_attested_trustline_clawback_opt_in (w_store w') key b network code issuer now = true
  | RuleProposalSimulated _ _ _ _ _ proposal_sha256 _ =>
      exists blob, out = Some (base64_encode blob) /\
        verify_rule_proposal_gate (w_store w') (approval_nonce entry) proposal_sha256 key b blob now
        = Ok tt
  | PaymentSimulated _ sha _ _ _ _ _ _ | TrustlineSimulated _ sha _ _ _ _ _ _
  | ClaimSimulated _ sha _ _ _ _ _ _ _ =>
      exists digest blob, decode_sha256_hex sha = Ok digest /\ out = Some (base64_encode blob) /\
        (attestation_blob_b64 e' ≫= decode_blob) = Some blob /\
        verify_attestation key b (approval_nonce entry) digest (process_uid entry) blob = true
  | _ => True
  end.
Proof.
  intros H Hg' Hnow. apply attest_stores in H
    as [(? & ? & ? & ? & ? & ? & ->)|(d & e & Hd & Hg & Hk & Hu & Hb & Hs & Ho)]; [done|].
  simpl in Hs. rewrite Hs in Hg'. injection Hg' as <-. simpl in Hnow.
  assert (Hx : forall a, is_expired (set_attestation e a) now = false)
    by (intros a; unfold is_expired; simpl; lia).
  assert (Hn : approval_nonce e = approval_nonce entry)
    by (apply List.find_some in Hg as [_ Hg]; by apply has_nonce_true).
  destruct (kind entry) eqn:Ek; try done; simpl in Hd.
  1,3,4: apply ok_Some in Hd; eexists d, _; split_and!;
    [done|by apply Ho|apply decode_stored|apply verify_computed].
  - injection Hd as <-. unfold verify_attested_trustline_clawback_opt_in. apply existsb_exists.
    eexists. split; [by apply List.find_some in Hs as [Hs _]; exact Hs|]. rewrite Hx. simpl.
    rewrite Hk. simpl. rewrite !bool_decide_eq_true_2 by done. simpl.
    rewrite decode_stored, Hn, Hu. apply verify_computed.
  - injection Hd as <-. eexists. split; [by apply Ho|]. unfold verify_rule_proposal_gate.
    rewrite Hs. simpl. rewrite Hx, Hk. simpl in Hb. apply bool_decide_eq_true in Hb as ->.
    rewrite !bool_decide_eq_true_2 by done. simpl. by rewrite Hu, verify_computed.
  - injection Hd as <-. unfold verify_mpp_charge_attestation. rewrite Hs, Hx. simpl. rewrite Hk.
    simpl in Hb. apply andb_true_iff in Hb as [Hb1 Hb2].
    apply bool_decide_eq_true in Hb1 as ->. apply bool_decide_eq_true in Hb2 as ->.
    rewrite !bool_decide_eq_true_2 by done. simpl.
    rewrite decode_stored, Hn, Hu. apply verify_computed.
Qed.

(** ** Who may answer *)

Lemma get_nonce (st : Store Text) n e : get st n = Some e -> approval_nonce e = n.
Proof. intros H. apply List.find_some in H as [_ H]. by apply has_nonce_true. Qed.

Lemma authorized_spec identity uid n allowed :
  is_authorized_for_entry identity uid n allowed = true <->
  identity = OsUid uid \/
  exists id witness, identity = PasskeyCredential id witness /\ id <> EmptyString /\
    id ∈ allowed /\ bound_nonce witness = n.
Proof.
  destruct identity as [u|id witness]; simpl.
  - rewrite bool_decide_eq_true. split; [by intros ->; left|].
    intros [[= ->]|(? & ? & ? & _)]; done.
  - rewrite !andb_true_iff, bool_decide_eq_true, existsb_exists. split.
    + intros [[Hid (a & Ha & ->%bool_decide_eq_true)] Hn]. right. exists id, witness.
      split_and!; try done; [by destruct id|by apply list_elem_of_In].
    + intros [?|(id' & w' & [= <- <-] & Hid & Ha & Hn)]; [done|]. split_and!; [by destruct id| |done].
      exists id. split; [by apply list_elem_of_In|]. by apply bool_decide_eq_true.
Qed.

(** Loading an approval for an answer succeeds exactly when there is an approval
    under the nonce that is neither expired nor attested, and the caller is the
    local user the approval was created by, or holds an enrolled passkey with an
    assertion verified for this very nonce. *)
Theorem may_answer_exact (st : Store Text) nonce identity allowed clock e :
  load_and_validate_entry st nonce identity allowed clock = Ok e <->
  get st nonce = Some e /\ attestation_blob_b64 e = None /\
  (exists now, clock = Ok now /\ now < expires_at_unix_ms e) /\
  (identity = OsUid (process_uid e) \/
   exists id witness, identity = PasskeyCredential id witness /\ id <> EmptyString /\
     id ∈ allowed /\ bound_nonce witness = nonce).
Proof.
  unfold load_and_validate_entry. rewrite res_bind_Ok. split.
  - intros (e1 & Hg%ok_or_Ok & H). apply res_bind_Ok in H as (now & Hc%map_err_Ok & H).
    destruct (is_expired e1 now) eqn:Ex; [done|]. apply Z.leb_gt in Ex.
    destruct (attestation_blob_b64 e1) eqn:Ea; [done|]. cbn [is_some] in H.
    destruct (is_authorized_for_entry _ _ _ _) eqn:Ei; [|done]. cbn [negb] in H. injection H as <-.
    split_and!; [done|done|by exists now|]. apply authorized_spec in Ei.
    by rewrite (get_nonce st nonce e1) in Ei.
  - intros (Hg & Ha & (now & -> & Hx) & Hi). exists e. rewrite Hg. split; [done|]. simpl.
    unfold is_expired. rewrite (proj2 (Z.leb_gt _ _)), Ha by done. cbn [is_some].
    rewrite <- (get_nonce st nonce e Hg) in Hi.
    by rewrite (proj2 (authorized_spec _ _ _ _) Hi).
Qed.
End props.

(** ** A charge answered *)

#[local] Abbreviation FileText := (list PendingApprovalOnDisk).

Definition charge : PendingApproval := unwrap demo_mpp.
(** A sink that keeps the rows. *)
#[local] Instance demo_sink : ConsentAudit (list AttestedRow) := fun row log => (Ok tt, log ++ [row]).

Definition charge_world {Log} (log : Log) : @World FileText Log unit :=
  {| w_store := snd (insert None charge 1000 empty_store); w_log := log; w_grants := tt |}.
Definition calm_attest_env : @AttestEnv unit := {|
  env_clock := Ok 2000; env_fault := None; env_persist_grant _ _ g := (Ok tt, g) |}.
Definition alice : AttestationBinding :=
  {| profile_name := "alice"; binding_chain_id := "stellar:testnet" |}.
Definition attest_charge {Log} `{!ConsentAudit Log} (log : Log) :=
  attest_and_persist (fun _ => EmptyString) calm_attest_env charge (replicate 32 3) alice
    Cli None (charge_world log).

Lemma attested_opens_gate_witness :
  verify_mpp_charge_attestation (w_store (snd (attest_charge []))) (replicate 32 3) alice
    (approval_nonce charge) (replicate 32 1) (replicate 32 2) 3000 = true.
Proof.
  eapply (attested_opens_gate (fun _ => EmptyString) calm_attest_env charge (replicate 32 3)
    alice Cli None (charge_world [])); [by vm_compute|by vm_compute|done].
Defined.
