(* ===== verification/ToolsetGrant.v ===== *)
(** * First-invoke grants of toolsets (stellar-agent-core, [approval/toolset_grant.rs])

    After a human answered the first-invoke gate, the toolset may use the
    capability again for the same destination and asset, within a range of
    amounts, until the grant expires.  Grants live in one file per profile. *)

From stdpp Require Import options.
From S2P Require Import Prelude RustStr Bytes Toml PolicyTypes Attestation ApprovalStore.
Set Default Proof Using "Type*".

Local Open Scope string_scope.
Local Open Scope list_scope.
Local Open Scope Z_scope.

Definition TOOLSET_GRANT_DEFAULT_TTL_MS : Z := 30 * 24 * 60 * 60 * 1000.

Record ToolsetGrant := {
  grant_id : string;
  tg_toolset_name : string;
  tg_capability : string;
  tg_destination : string;
  tg_asset : string;
  tg_amount_min_stroops : Z;
  tg_amount_max_stroops : Z;
  granted_at_unix_ms : Z;
  tg_expires_at_unix_ms : Z;
  tg_attestation_blob_b64 : option string;
  process_uid_at_grant : string;
}.

Definition grant_is_expired (g : ToolsetGrant) (now_unix_ms : Z) : bool :=
  tg_expires_at_unix_ms g <=? now_unix_ms.

Definition grant_matches (g : ToolsetGrant) (toolset_name capability destination asset : string)
    (amount_stroops now_unix_ms : Z) : bool :=
  if grant_is_expired g now_unix_ms then false
  else bool_decide (tg_toolset_name g = toolset_name)
       && bool_decide (tg_capability g = capability)
       && bool_decide (tg_destination g = destination)
       && bool_decide (tg_asset g = asset)
       && (tg_amount_min_stroops g <=? amount_stroops)
       && (amount_stroops <=? tg_amount_max_stroops g).

(** The grants in memory and the file. *)
Record ToolsetGrantStore (Text : Type) := MkGrants { grants : list ToolsetGrant; grants_disk : option Text }.
Arguments MkGrants {Text} _ _.
Arguments grants {Text} _.
Arguments grants_disk {Text} _.

(** What making the parent directory (if the path has one) and reading answer. *)
Record GrantsEnv := { ge_create_dir : option IoErrorKind; ge_read_error : option IoErrorKind }.

(** TOML integers are signed 64-bit numbers. *)
Definition grant_fits (g : ToolsetGrant) : Prop :=
  granted_at_unix_ms g <= hi i64 /\ tg_expires_at_unix_ms g <= hi i64.

Section grants.
Context {Text : Type} `{TR : !TomlRecords ToolsetGrant Text}.

#[local] Abbreviation St := (ToolsetGrantStore Text).
#[local] Abbreviation Run A := (result ApprovalError A * ToolsetGrantStore Text)%type.

Definition grants_open (env : GrantsEnv) (file : option Text) (now_unix_ms : Z)
  : result ApprovalError St :=
  _ ← match ge_create_dir env with Some e => Err (Io e) | None => Ok tt end;
  gs ← match file with
       | Some content =>
           match ge_read_error env with
           | Some e => Err (Io e)
           | None =>
               sf ← map_err TomlError (from_str content);
               Ok (List.filter (fun g => negb (grant_is_expired g now_unix_ms)) sf)
           end
       | None => Ok []
       end;
  Ok (MkGrants gs file).

Definition find_matching (s : St) (toolset_name capability destination asset : string)
    (amount_stroops now_unix_ms : Z) : option ToolsetGrant :=
  List.find (fun g => grant_matches g toolset_name capability destination asset amount_stroops
                        now_unix_ms) (grants s).

(** The steps are those of the approval store's [persist], without the sync of the
    final file; [Fault] names the one that fails. *)
Definition grants_persist (fault : Fault) (s : St) : Run unit :=
  match to_string_pretty (grants s) with
  | Err e => (Err (TomlError ("toolset_grant_store: serialize error: " +:+ e)), s)
  | Ok content =>
      match fault with
      | None => (Ok tt, MkGrants (grants s) (Some content))
      | Some (step, e) =>
          (Err (Io e), if after_rename step then MkGrants (grants s) (Some content) else s)
      end
  end.

Definition grants_insert (fault : Fault) (grant : ToolsetGrant) (s : St) : Run unit :=
  grants_persist fault (MkGrants (grants s ++ [grant]) (grants_disk s)).

Definition revoke_toolset (fault : Fault) (toolset_name : string) (s : St) : Run Z :=
  let before := count (grants s) in
  let kept := List.filter (fun g => negb (bool_decide (tg_toolset_name g = toolset_name))) (grants s) in
  let s' := MkGrants kept (grants_disk s) in
  let removed := before - count kept in
  if 0 <? removed
  then match grants_persist fault s' with
       | (Ok _, s'') => (Ok removed, s'')
       | (Err e, s'') => (Err e, s'')
       end
  else (Ok removed, s').

Section crypto.
Context `{SH : !Sha2, BB : !Base64}.

Definition grant_verify_attestation (g : ToolsetGrant) (key : list Z) (binding : AttestationBinding)
  : bool :=
  match tg_attestation_blob_b64 g with
  | None => false
  | Some blob_b64 =>
      match base64_decode blob_b64 with
      | None => false
      | Some blob =>
          if negb (count blob =? 32) then false
          else verify_toolset_gate_attestation key binding (grant_id g) (tg_toolset_name g)
                 (tg_capability g) (tg_destination g) (tg_asset g) (tg_amount_min_stroops g)
                 (tg_amount_max_stroops g) (process_uid_at_grant g) blob
      end
  end.

(** [raw] are the 16 random bytes. *)
Definition build_attested_grant (raw : list Z) (toolset_name capability destination asset : string)
    (amount_min_stroops amount_max_stroops : Z) (process_uid : string) (now_unix_ms ttl_ms : Z)
    (attestation_key : list Z) (binding : AttestationBinding) : result ApprovalError ToolsetGrant :=
  let grant_id := base64_encode raw in
  let expires_at_unix_ms := sat_add u64 now_unix_ms ttl_ms in
  let digest := compute_toolset_gate_digest toolset_name capability destination asset
                  amount_min_stroops amount_max_stroops in
  let attestation_blob := compute_attestation attestation_key binding grant_id digest process_uid in
  Ok {| grant_id := grant_id; tg_toolset_name := toolset_name; tg_capability := capability;
        tg_destination := destination; tg_asset := asset;
        tg_amount_min_stroops := amount_min_stroops; tg_amount_max_stroops := amount_max_stroops;
        granted_at_unix_ms := now_unix_ms; tg_expires_at_unix_ms := expires_at_unix_ms;
        tg_attestation_blob_b64 := Some (base64_encode attestation_blob);
        process_uid_at_grant := process_uid |}.
End crypto.
End grants.

(** ** What a grant is worth *)

Lemma grant_matches_spec g t c d a amount now :
  grant_matches g t c d a amount now = true <->
  now < tg_expires_at_unix_ms g /\
  (tg_toolset_name g, tg_capability g, tg_destination g, tg_asset g) = (t, c, d, a) /\
  tg_amount_min_stroops g <= amount <= tg_amount_max_stroops g.
Proof.
  unfold grant_matches, grant_is_expired. destruct (Z.leb_spec (tg_expires_at_unix_ms g) now).
  - split; [done|lia].
  - rewrite !andb_true_iff, !bool_decide_eq_true, !Z.leb_le. split; [|intros (_ & [= -> -> -> ->] & ?)].
    + intros [[[[[-> ->] ->] ->] ?] ?]. done.
    + split_and!; done || lia.
Qed.

(** The fields a grant's attestation is computed from. *)
Definition grant_box (g : ToolsetGrant) : string * string * string * string * Z * Z :=
  (tg_toolset_name g, tg_capability g, tg_destination g, tg_asset g,
   tg_amount_min_stroops g, tg_amount_max_stroops g).

Definition grant_digest_input (g : ToolsetGrant) : list Z :=
  toolset_gate_input (tg_toolset_name g) (tg_capability g) (tg_destination g) (tg_asset g)
    (tg_amount_min_stroops g) (tg_amount_max_stroops g).

(** Texts under 4 GiB and amounts of their type, as any record in memory has. *)
Definition grant_wf (g : ToolsetGrant) : Prop :=
  Forall str_fits [grant_id g; tg_toolset_name g; tg_capability g; tg_destination g; tg_asset g;
                   process_uid_at_grant g] /\
  in_range i64 (tg_amount_min_stroops g) /\ in_range i64 (tg_amount_max_stroops g).

Definition with_dates (granted expires : Z) (g : ToolsetGrant) : ToolsetGrant :=
  {| grant_id := grant_id g; tg_toolset_name := tg_toolset_name g; tg_capability := tg_capability g;
     tg_destination := tg_destination g; tg_asset := tg_asset g;
     tg_amount_min_stroops := tg_amount_min_stroops g;
     tg_amount_max_stroops := tg_amount_max_stroops g;
     granted_at_unix_ms := granted; tg_expires_at_unix_ms := expires;
     tg_attestation_blob_b64 := tg_attestation_blob_b64 g;
     process_uid_at_grant := process_uid_at_grant g |}.

(** Collect the sizes of a list of fields from the hypotheses. *)
Ltac fits := repeat (apply Forall_cons_2; [assumption|]); apply Forall_nil_2.

Section worth.
Context `{SH : !Sha2, SL : !Sha2Laws, BB : !Base64, BL : !Base64Laws}.

Definition grant_mac_input (g : ToolsetGrant) (b : AttestationBinding) : list Z :=
  attestation_input b (grant_id g) (sha256 (grant_digest_input g)) (process_uid_at_grant g).

Lemma grant_verify_spec g key b :
  grant_verify_attestation g key b = true <->
  exists blob_b64, tg_attestation_blob_b64 g = Some blob_b64 /\
    base64_decode blob_b64 = Some (hmac_sha256 key (grant_mac_input g b)).
Proof.
  unfold grant_verify_attestation, verify_toolset_gate_attestation, verify_attestation.
  destruct (tg_attestation_blob_b64 g) as [s|]; [|split; [done|by intros (? & ? & _)]].
  split.
  - destruct (base64_decode s) as [blob|] eqn:E; [|done]. destruct (_ =? _); [|done]. cbn [negb].
    intros <-%bool_decide_eq_true. by exists s.
  - intros (? & [= <-] & ->). unfold count. rewrite hmac_length. by apply bool_decide_eq_true.
Qed.

(** A grant is worth what was approved: it verifies under the key and binding it was
    built with, and it covers exactly its toolset, capability, destination, asset
    and range of amounts, until its time to live is over. *)
Theorem built_grant_covers_exactly raw t c d a mn mx uid now0 ttl key b g :
  build_attested_grant raw t c d a mn mx uid now0 ttl key b = Ok g ->
  grant_verify_attestation g key b = true /\
  forall t' c' d' a' amount now, grant_matches g t' c' d' a' amount now = true <->
    (t', c', d', a') = (t, c, d, a) /\ mn <= amount <= mx /\ now < sat_add u64 now0 ttl.
Proof.
  intros [= <-]. split.
  - apply grant_verify_spec. eexists. split; [done|]. apply base64_roundtrip, hmac_bytes.
  - intros. rewrite grant_matches_spec. simpl. split.
    + by intros (? & [= <- <- <- <-] & ?).
    + by intros ([= -> -> -> ->] & ? & ?).
Qed.

(** What a grant's attestation covers: a record that carries the attestation of another
    grant verifies only if it has the same id, owner and box and the same profile and
    chain, unless two different inputs of SHA-256 or of the MAC collide.  The dates
    are not covered: with any other expiry the record verifies just as well. *)
Theorem grant_attestation_covers g g' key b b' :
  grant_wf g -> grant_wf g' ->
  Forall str_fits [profile_name b; binding_chain_id b; profile_name b'; binding_chain_id b'] ->
  tg_attestation_blob_b64 g' = tg_attestation_blob_b64 g ->
  grant_verify_attestation g key b = true -> grant_verify_attestation g' key b' = true ->
  ((b', grant_id g', process_uid_at_grant g', grant_box g') =
   (b, grant_id g, process_uid_at_grant g, grant_box g) \/
   (grant_mac_input g b <> grant_mac_input g' b' /\
    hmac_sha256 key (grant_mac_input g b) = hmac_sha256 key (grant_mac_input g' b')) \/
   (grant_digest_input g <> grant_digest_input g' /\
    sha256 (grant_digest_input g) = sha256 (grant_digest_input g'))) /\
  forall granted expires, grant_verify_attestation (with_dates granted expires g) key b = true.
Proof.
  intros (Hs & Hmn & Hmx) (Hs' & Hmn' & Hmx') Hb Hblob Hv Hv'.
  split; [|by intros; unfold grant_verify_attestation in *].
  repeat apply Forall_cons in Hs as [? Hs]. repeat apply Forall_cons in Hs' as [? Hs'].
  repeat apply Forall_cons in Hb as [? Hb].
  apply grant_verify_spec in Hv as (s & Es & Hm). apply grant_verify_spec in Hv' as (s' & Es' & Hm').
  assert (Heq : hmac_sha256 key (grant_mac_input g b) = hmac_sha256 key (grant_mac_input g' b'))
    by congruence.
  destruct (decide (grant_mac_input g b = grant_mac_input g' b')) as [Hi|Hi]; [|by right; left].
  unfold grant_mac_input in Hi.
  eapply attestation_input_inj in Hi as (<- & Hid & Hd & Hu); [|rewrite !sha256_length; reflexivity|fits].
  destruct (decide (grant_digest_input g = grant_digest_input g')) as [Hi|Hi]; [|by right; right].
  left. unfold grant_digest_input in Hi. apply toolset_gate_input_inj in Hi;
    [|fits|fits].
  unfold grant_box. congruence.
Qed.
End worth.

#[local] Existing Instances rfc4648 rfc4648_laws demo_sha2 demo_sha2_laws.

Definition alice_testnet : AttestationBinding :=
  {| profile_name := "alice"; binding_chain_id := "stellar:testnet" |}.

Definition demo_build : result ApprovalError ToolsetGrant :=
  build_attested_grant (replicate 16 7) "rebalancer" "sign-payment" "GA" "XLM" 0 50000000 "1000"
    1000 TOOLSET_GRANT_DEFAULT_TTL_MS (replicate 32 3) alice_testnet.

Definition demo_grant : ToolsetGrant :=
  match demo_build with
  | Ok g => g
  | Err _ => {| grant_id := EmptyString; tg_toolset_name := EmptyString; tg_capability := EmptyString;
                tg_destination := EmptyString; tg_asset := EmptyString; tg_amount_min_stroops := 0;
                tg_amount_max_stroops := 0; granted_at_unix_ms := 0; tg_expires_at_unix_ms := 0;
                tg_attestation_blob_b64 := None; process_uid_at_grant := EmptyString |}
  end.

Lemma demo_grant_built : demo_build = Ok demo_grant.
Proof. by vm_compute. Qed.

Lemma demo_grant_wf : grant_wf demo_grant.
Proof. split; [|done]. repeat (apply Forall_cons_2; [by vm_compute|]). apply Forall_nil_2. Qed.

Lemma built_grant_covers_exactly_witness :
  grant_verify_attestation demo_grant (replicate 32 3) alice_testnet = true /\
  grant_matches demo_grant "rebalancer" "sign-payment" "GA" "XLM" 50000000 2000 = true.
Proof.
  destruct (built_grant_covers_exactly _ _ _ _ _ _ _ _ _ _ _ _ _ demo_grant_built) as [H1 H2].
  split; [exact H1|]. apply H2. split_and!; by vm_compute.
Defined.

Lemma grant_attestation_covers_witness :
  grant_verify_attestation (with_dates 0 (hi i64) demo_grant) (replicate 32 3) alice_testnet = true.
Proof.
  assert (Hv : grant_verify_attestation demo_grant (replicate 32 3) alice_testnet = true)
    by by vm_compute.
  refine (proj2 (grant_attestation_covers demo_grant demo_grant (replicate 32 3) alice_testnet
    alice_testnet demo_grant_wf demo_grant_wf _ eq_refl Hv Hv) 0 (hi i64)).
  repeat (apply Forall_cons_2; [by vm_compute|]). apply Forall_nil_2.
Defined.
