(* ===== verification/OperatorCredentials.v ===== *)
(** * Passkeys of operators (stellar-agent-core, [approval/operator_credentials.rs])

    The passkeys with which an operator may answer approvals remotely.  Every
    call reads the file, and the two that change it rewrite it whole. *)

From stdpp Require Import options.
From S2P Require Import Prelude RustStr Bytes RuleProposal Toml PolicyTypes.
Set Default Proof Using "Type*".

Local Open Scope string_scope.
Local Open Scope list_scope.
Local Open Scope Z_scope.

Record OperatorApprovalCredential := {
  credential_id_b64url : string;
  public_key_sec1_b64 : string;
  oc_rp_id : string;
  oc_label : string;
  registered_at_unix_ms : Z;
  sign_count : option Z;
}.

(** What the file system answers to a call; a failed rewrite leaves the file as
    it was, since nothing can fail after the rename. *)
Record CredEnv := {
  cred_read : option IoErrorKind;
  cred_create_dir : option IoErrorKind;
  cred_write : option IoErrorKind;
}.

Section credentials.
Context {Text : Type} `{TR : !TomlRecords OperatorApprovalCredential Text, BB : !Base64}.

#[local] Abbreviation Run A := (result ApprovalError A * option Text)%type.

Definition validate_credential_invariants (credential_id_b64url public_key_sec1_b64 : string)
  : result ApprovalError unit :=
  credential_id_bytes ← ok_or (Invalid "credential_id_b64url is not valid base64url")
                          (base64_decode credential_id_b64url);
  let n := count credential_id_bytes in
  if (n <? CREDENTIAL_ID_MIN_BYTES) || (CREDENTIAL_ID_MAX_BYTES <? n)
  then Err (Invalid ("credential_id must decode to 16–64 bytes (CTAP2 §4.2 / WebAuthn-2 §5.4.7), got "
                     +:+ show_Z n +:+ " bytes"))
  else
  pubkey_bytes ← ok_or (Invalid "public_key_sec1_b64 is not valid base64url")
                   (base64_decode public_key_sec1_b64);
  if negb (count pubkey_bytes =? PUBLIC_KEY_UNCOMPRESSED_SEC1_LEN)
  then Err (Invalid ("public_key_sec1_b64 must decode to exactly 65 bytes (uncompressed SEC1 P-256), got "
                     +:+ show_Z (count pubkey_bytes) +:+ " bytes"))
  else if negb (default 0 (pubkey_bytes !! 0%nat) =? 4)
  then Err (Invalid ("public_key_sec1_b64[0] must be 0x04 (uncompressed SEC1 P-256 marker), got 0x"
                     +:+ encode (take 1 pubkey_bytes)))
  else Ok tt.

Definition load (env : CredEnv) (file : option Text) : result ApprovalError (list OperatorApprovalCredential) :=
  match file with
  | None => Ok []
  | Some content =>
      match cred_read env with
      | Some e => Err (Io e)
      | None => map_err (fun e => TomlError ("operator_credentials: " +:+ e)) (from_str content)
      end
  end.

Definition cred_persist (env : CredEnv) (l : list OperatorApprovalCredential) (file : option Text)
  : Run unit :=
  match cred_create_dir env with
  | Some e => (Err (Io e), file)
  | None =>
      match to_string_pretty l with
      | Err e => (Err (TomlError ("operator_credentials: serialise error: " +:+ e)), file)
      | Ok toml_str =>
          match cred_write env with
          | Some e => (Err (Io e), file)
          | None => (Ok tt, Some toml_str)
          end
      end
  end.

Definition list_credentials (env : CredEnv) (file : option Text) := load env file.

Definition has_id (id : string) (c : OperatorApprovalCredential) : bool :=
  bool_decide (credential_id_b64url c = id).

Definition find_by_credential_id (env : CredEnv) (id : string) (file : option Text)
  : result ApprovalError (option OperatorApprovalCredential) :=
  l ← load env file;
  Ok (List.find (has_id id) l).

Definition enroll (env : CredEnv) (credential : OperatorApprovalCredential) (file : option Text)
  : Run unit :=
  match validate_credential_invariants (credential_id_b64url credential)
          (public_key_sec1_b64 credential) with
  | Err e => (Err e, file)
  | Ok _ =>
      match load env file with
      | Err e => (Err e, file)
      | Ok l =>
          if existsb (has_id (credential_id_b64url credential)) l
          then (Err (duplicate_credential_id (credential_id_b64url credential)), file)
          else cred_persist env (l ++ [credential]) file
      end
  end.

(** The first record of the id, changed. *)
Fixpoint update_count (id : string) (presented_counter : Z) (l : list OperatorApprovalCredential)
  : result ApprovalError (list OperatorApprovalCredential) :=
  match l with
  | [] => Err NotFound
  | c :: rest =>
      if has_id id c then
        let updated := {| credential_id_b64url := credential_id_b64url c;
                          public_key_sec1_b64 := public_key_sec1_b64 c; oc_rp_id := oc_rp_id c;
                          oc_label := oc_label c; registered_at_unix_ms := registered_at_unix_ms c;
                          sign_count := Some presented_counter |} in
        match sign_count c with
        | Some stored =>
            if (negb (stored =? 0) || negb (presented_counter =? 0)) && (presented_counter <=? stored)
            then Err (sign_counter_regression id presented_counter stored)
            else Ok (updated :: rest)
        | None => Ok (updated :: rest)
        end
      else
        rest' ← update_count id presented_counter rest;
        Ok (c :: rest')
  end.

Definition update_sign_count (env : CredEnv) (id : string) (presented_counter : Z)
    (file : option Text) : Run unit :=
  match load env file with
  | Err e => (Err e, file)
  | Ok l =>
      match update_count id presented_counter l with
      | Err e => (Err e, file)
      | Ok l' => cred_persist env l' file
      end
  end.

(** ** Sequences of calls *)

Inductive CredCall := Enroll (c : OperatorApprovalCredential) | Update (id : string) (counter : Z).

Definition cred_exec (env : CredEnv) (call : CredCall) : option Text -> Run unit :=
  match call with
  | Enroll c => enroll env c
  | Update id counter => update_sign_count env id counter
  end.

(** The calls made one after the other, with whether each succeeded. *)
Inductive cred_trace : option Text -> list (CredCall * bool) -> option Text -> Prop :=
| cred_nil f : cred_trace f [] f
| cred_call env call r f f' t f'' :
    cred_exec env call f = (r, f') -> cred_trace f' t f'' ->
    cred_trace f ((call, is_ok r) :: t) f''.
End credentials.

(** ** What the file holds *)

Definition ids (l : list OperatorApprovalCredential) : list string := credential_id_b64url <$> l.

Definition counter_of (id : string) (l : list OperatorApprovalCredential) : option Z :=
  List.find (has_id id) l ≫= sign_count.

(** A counter may follow another: it is larger, or neither authenticator counts. *)
Definition advances (p q : Z) : Prop := p < q \/ p = 0 /\ q = 0.

Lemma has_id_spec id c : has_id id c = true <-> credential_id_b64url c = id.
Proof. apply bool_decide_eq_true. Qed.

Lemma existsb_ids id l : existsb (has_id id) l = false <-> id ∉ ids l.
Proof.
  rewrite <- not_true_iff_false, existsb_exists. unfold ids. rewrite list_elem_of_fmap. split.
  - intros H (c & -> & Hc). apply H. exists c. split; [by apply list_elem_of_In|by apply has_id_spec].
  - intros H (c & Hc & Hi%has_id_spec). apply H. exists c. split; [done|by apply list_elem_of_In].
Qed.

Lemma find_app_absent id l c :
  List.find (has_id id) (l ++ [c]) =
  match List.find (has_id id) l with Some x => Some x | None => List.find (has_id id) [c] end.
Proof. induction l as [|x l IH]; [done|]. simpl. by destruct (has_id id x). Qed.

Lemma update_count_Ok id p l l' :
  update_count id p l = Ok l' ->
  ids l' = ids l /\ public_key_sec1_b64 <$> l' = public_key_sec1_b64 <$> l /\
  counter_of id l' = Some p /\ (forall s, counter_of id l = Some s -> advances s p) /\
  forall id', id' <> id -> counter_of id' l' = counter_of id' l.
Proof.
  revert l'. induction l as [|c l IH]; intros l' H; [done|]. simpl in H. unfold counter_of. simpl.
  destruct (has_id id c) eqn:Ec.
  - assert (Hc : forall s, sign_count c = Some s -> advances s p /\ update_count id p (c :: l) = Ok l').
    { intros s Hs. split; [|simpl; by rewrite Ec]. rewrite Hs in H. unfold advances.
      destruct (Z.eqb_spec s 0), (Z.eqb_spec p 0), (Z.leb_spec p s); simpl in H; try done; lia. }
    assert (Hl : l' = {| credential_id_b64url := credential_id_b64url c;
                         public_key_sec1_b64 := public_key_sec1_b64 c; oc_rp_id := oc_rp_id c;
                         oc_label := oc_label c; registered_at_unix_ms := registered_at_unix_ms c;
                         sign_count := Some p |} :: l).
    { destruct (sign_count c) as [s|]; [destruct (_ && _)|]; by simplify_eq. }
    subst l'. apply has_id_spec in Ec. simpl. split_and!; [done..| | |].
    + by rewrite (proj2 (has_id_spec id _)).
    + intros s Hs. by apply Hc.
    + intros id' Hne. unfold has_id. simpl. by rewrite !bool_decide_eq_false_2 by congruence.
  - apply res_bind_Ok in H as (r & Hr & [= <-]). apply IH in Hr as (Hi & Hk & Hp & Ha & Ho).
    unfold ids in *. rewrite !fmap_cons, Hi, Hk. simpl. rewrite Ec. split_and!; try done.
    intros id' Hne. simpl. destruct (has_id id' c); [done|]. by apply Ho.
Qed.

Section sequences.
Context {Text : Type} `{TR : !TomlRecords OperatorApprovalCredential Text, BB : !Base64}.
Context (fits : OperatorApprovalCredential -> Prop) `{TL : !TomlRecordsLaws fits}.

Definition content (f : option Text) (l : list OperatorApprovalCredential) : Prop :=
  match f with None => l = [] | Some t => from_str t = Ok l end.

Definition credential_valid (c : OperatorApprovalCredential) : Prop :=
  validate_credential_invariants (credential_id_b64url c) (public_key_sec1_b64 c) = Ok tt.

(** What a successful call does to the records. *)
Definition changes (call : CredCall) (l l' : list OperatorApprovalCredential) : Prop :=
  match call with
  | Enroll c => credential_valid c /\ (credential_id_b64url c ∉ ids l) /\ l' = l ++ [c]
  | Update id p => update_count id p l = Ok l'
  end.

Lemma load_content env f l l0 : content f l0 -> load env f = Ok l -> l = l0.
Proof.
  unfold content, load. destruct f as [t|]; [|by intros -> [= <-]].
  destruct (cred_read env); [done|]. intros Hc H%map_err_Ok. congruence.
Qed.

Lemma persist_cases env l f r f' :
  cred_persist env l f = (r, f') ->
  (is_ok r = false /\ f' = f) \/ (is_ok r = true /\ content f' l).
Proof.
  unfold cred_persist. destruct (cred_create_dir env); [intros [= <- <-]; by left|].
  destruct (to_string_pretty l) as [t|] eqn:Et; [|intros [= <- <-]; by left].
  destruct (cred_write env); intros [= <- <-]; [by left|]. right. split; [done|].
  simpl. by eapply records_roundtrip.
Qed.

Lemma exec_cases env call f r f' l :
  cred_exec env call f = (r, f') -> content f l ->
  exists l', content f' l' /\ ((is_ok r = false /\ l' = l) \/ (is_ok r = true /\ changes call l l')).
Proof.
  intros H Hc.
  assert (Hcase : (is_ok r = false /\ f' = f) \/
                  exists l', (is_ok r = true /\ content f' l') /\ changes call l l').
  { destruct call as [c|id p]; simpl in H.
    - unfold enroll in H. destruct (validate_credential_invariants _ _) as [[]|] eqn:Ev;
        [|injection H as <- <-; by left].
      destruct (load env f) as [l0|] eqn:El; [|injection H as <- <-; by left].
      apply (load_content _ _ _ _ Hc) in El as ->.
      destruct (existsb _ l) eqn:Ee; [injection H as <- <-; by left|].
      apply persist_cases in H as [?|?]; [by left|]. right. eexists. split; [done|].
      by apply existsb_ids in Ee.
    - unfold update_sign_count in H.
      destruct (load env f) as [l0|] eqn:El; [|injection H as <- <-; by left].
      apply (load_content _ _ _ _ Hc) in El as ->.
      destruct (update_count id p l) as [l'|] eqn:Eu; [|injection H as <- <-; by left].
      apply persist_cases in H as [?|?]; [by left|]. right. by exists l'. }
  destruct Hcase as [[? ->]|(l' & [? ?] & ?)]; [exists l|exists l']; auto.
Qed.

Definition records_ok (l : list OperatorApprovalCredential) : Prop :=
  NoDup (ids l) /\ Forall credential_valid l.

Lemma valid_fields l l' :
  ids l' = ids l -> public_key_sec1_b64 <$> l' = public_key_sec1_b64 <$> l ->
  Forall credential_valid l -> Forall credential_valid l'.
Proof.
  revert l'. induction l as [|c l IH]; intros [|c' l'] Hi Hk H; try done.
  injection Hi as Hi1 Hi. injection Hk as Hk1 Hk. inversion_clear H. constructor; [|by apply IH].
  unfold credential_valid. by rewrite Hi1, Hk1.
Qed.

Lemma changes_ok call l l' : changes call l l' -> records_ok l -> records_ok l'.
Proof.
  intros H [Hn Hv]. destruct call as [c|id p]; simpl in H.
  - destruct H as (Hc & Hi & ->). split.
    + unfold ids in *. rewrite fmap_app. apply NoDup_app. split_and!; [done| |apply NoDup_singleton].
      intros x Hx Hx'. apply list_elem_of_singleton in Hx' as ->. done.
    + apply Forall_app. by split; [|apply Forall_singleton].
  - apply update_count_Ok in H as (Hi & Hk & _). split; [by rewrite Hi|by eapply valid_fields].
Qed.

Lemma changes_counter call l l' id p :
  changes call l l' -> counter_of id l = Some p -> exists p', counter_of id l' = Some p' /\ p <= p'.
Proof.
  intros H Hp. destruct call as [c|id' q]; simpl in H.
  - destruct H as (_ & _ & ->). exists p. split; [|done]. unfold counter_of in *.
    rewrite find_app_absent. by destruct (List.find (has_id id) l).
  - apply update_count_Ok in H as (_ & _ & Hq & Ha & Ho). destruct (decide (id = id')) as [->|Hne].
    + exists q. split; [done|]. destruct (Ha p Hp); lia.
    + exists p. by rewrite Ho.
Qed.

Lemma trace_counter f t f' l id p j q :
  cred_trace f t f' -> content f l -> counter_of id l = Some p ->
  t !! j = Some (Update id q, true) -> advances p q.
Proof.
  intros Ht. revert l p j. induction Ht as [f|env call r f f1 t f2 He Ht IH]; intros l p j Hc Hp Hj; [done|].
  destruct (exec_cases _ _ _ _ _ _ He Hc) as (l1 & Hc1 & Hor). destruct j as [|j]; simpl in Hj.
  - injection Hj as -> Hr. destruct Hor as [[? _]|[_ H]]; [congruence|].
    apply update_count_Ok in H as (_ & _ & _ & Ha & _). by apply Ha.
  - destruct Hor as [[_ ->]|[_ H]]; [by eapply IH|].
    destruct (changes_counter _ _ _ _ _ H Hp) as (p' & Hp' & ?).
    destruct (IH l1 p' j Hc1 Hp' Hj); unfold advances; lia.
Qed.

(** A cloned authenticator is found out.  Starting without a file, whatever calls
    are made and however their writes fail, the credentials on disk have distinct ids
    and well-formed keys, and of two accepted counters of one credential the later is
    strictly larger, unless both are zero. *)
Theorem operator_counters_advance t f :
  cred_trace None t f ->
  (exists l, content f l /\ NoDup (ids l) /\ Forall credential_valid l) /\
  forall i j id p q, (i < j)%nat -> t !! i = Some (Update id p, true) ->
    t !! j = Some (Update id q, true) -> advances p q.
Proof.
  intros Ht. assert (Hgen : forall l, content None l -> records_ok l ->
    (exists l, content f l /\ records_ok l) /\
    forall i j id p q, (i < j)%nat -> t !! i = Some (Update id p, true) ->
      t !! j = Some (Update id q, true) -> advances p q).
  { revert Ht. generalize (@None Text) as f0. intros f0 Ht.
    induction Ht as [f|env call r f f1 t f2 He Ht IH]; intros l Hc Hok; [split; [by exists l|done]|].
    destruct (exec_cases _ _ _ _ _ _ He Hc) as (l1 & Hc1 & Hor).
    assert (Hok1 : records_ok l1)
      by (destruct Hor as [[_ ->]|[_ H]]; [done|by eapply changes_ok]).
    destruct (IH l1 Hc1 Hok1) as [Hl Ha]. split; [done|]. intros [|i] [|j] id p q Hij Hi Hj; try lia.
    - simpl in Hi, Hj. injection Hi as -> Hr. destruct Hor as [[? _]|[_ H]]; [congruence|].
      apply update_count_Ok in H as (_ & _ & Hp & _). by eapply trace_counter.
    - simpl in Hi, Hj. eapply (Ha i j); [lia|done..]. }
  apply (Hgen []); [done|]. split; constructor.
Qed.
End sequences.

(** ** A run *)

#[local] Existing Instances rfc4648 rfc4648_laws.
#[local] Instance demo_records : TomlRecords OperatorApprovalCredential (list OperatorApprovalCredential) :=
  records_demo (fun c => registered_at_unix_ms c <=? hi i64).
#[local] Instance demo_records_laws :
  TomlRecordsLaws (fun c : OperatorApprovalCredential => registered_at_unix_ms c <= hi i64).
Proof. apply records_demo_laws. intros c. apply Z.leb_le. Qed.

Definition calm_cred_env : CredEnv := {| cred_read := None; cred_create_dir := None; cred_write := None |}.

Definition demo_credential : OperatorApprovalCredential := {|
  credential_id_b64url := base64_encode (replicate 16 9);
  public_key_sec1_b64 := base64_encode (4 :: replicate 64 2);
  oc_rp_id := "localhost"; oc_label := "laptop"; registered_at_unix_ms := 1000; sign_count := None |}.

Definition demo_calls : list (CredCall * bool) :=
  let id := credential_id_b64url demo_credential in
  [(Enroll demo_credential, true); (Update id 5, true); (Update id 5, false); (Update id 9, true)].

Definition demo_file (n : nat) : option (list OperatorApprovalCredential) :=
  foldl (fun f c => snd (cred_exec calm_cred_env (fst c) f)) None (take n demo_calls).

Lemma demo_cred_trace : cred_trace None demo_calls (demo_file 4).
Proof.
  assert (Hstep : forall n call t r, demo_calls !! n = Some (call, is_ok r) ->
    cred_exec calm_cred_env call (demo_file n) = (r, demo_file (S n)) ->
    cred_trace (demo_file (S n)) t (demo_file 4) ->
    cred_trace (demo_file n) ((call, is_ok r) :: t) (demo_file 4)).
  { intros n call t r _ He Ht. by eapply cred_call. }
  apply (Hstep 0%nat _ _ (Ok tt)); [by vm_compute|by vm_compute|].
  apply (Hstep 1%nat _ _ (Ok tt)); [by vm_compute|by vm_compute|].
  apply (Hstep 2%nat _ _ (Err (sign_counter_regression (credential_id_b64url demo_credential) 5 5)));
    [by vm_compute|by vm_compute|].
  apply (Hstep 3%nat _ _ (Ok tt)); [by vm_compute|by vm_compute|]. constructor.
Qed.

Lemma operator_counters_advance_witness : advances 5 9.
Proof.
  refine (proj2 (operator_counters_advance _ demo_calls (demo_file 4) demo_cred_trace) 1%nat 3%nat
    (credential_id_b64url demo_credential) 5 9 _ _ _); [lia|reflexivity|reflexivity].
Defined.
