(* ===== verification/Capability.v ===== *)
(** * Capabilities of toolsets (stellar-agent-toolsets, [capability.rs], [error.rs])

    The closed set of capabilities, their tokens, and the sets of them as the
    manifest of a toolset writes them and as a pin record stores them. *)

From S2P Require Import Prelude RustStr Json.
From stdpp Require Import options.

Local Open Scope string_scope.
Local Open Scope list_scope.
Local Open Scope Z_scope.

Inductive ToolsetFormatError :=
| TfIo (detail : string)
| ToolsetFileTooLarge (size cap : Z)
| NotUtf8
| MissingFrontmatter
| MalformedFrontmatter (detail : string)
| YamlAnchorsForbidden
| FrontmatterTooDeep
| DuplicateKey (key : string)
| ReservedMetadataKey (key : string)
| MissingName
| NameEmpty
| NameTooLong
| NameInvalidChar
| NameLeadingTrailingHyphen
| NameConsecutiveHyphens
| NameDirMismatch (name dir : string)
| MissingDescription
| DescriptionEmpty
| DescriptionTooLong
| CompatibilityTooLong
| CapabilityTokenInvalidChar (token : string)
| UnknownCapability (token : string)
| BareSignTransactionForbidden
| CapabilityManifestMalformed (detail : string).

Definition CAPABILITY_KEY : string := "stellar-agent-capabilities".
Definition RESERVED_PREFIX : string := "stellar-agent-".
Definition SIGN_TRANSACTION_TOKEN : string := "sign-transaction".
Definition SIGN_PAYMENT_TOKEN : string := "sign-payment".
Definition SIGN_RULE_CREATE_TOKEN : string := "sign-rule-create".

Inductive Capability :=
| ReadBalance
| ProposeTransaction
| SuggestDestination
| ObserveEvent
| SignPayment
| ReadRules
| SignRuleCreate.

#[export] Instance Capability_eq_dec : EqDecision Capability.
Proof. solve_decision. Defined.

Definition ALL_CAPABILITIES : list Capability :=
  [ReadBalance; ProposeTransaction; SuggestDestination; ObserveEvent; SignPayment; ReadRules;
   SignRuleCreate].

Definition is_key_touching (c : Capability) : bool :=
  match c with
  | ReadBalance => false
  | ProposeTransaction => false
  | SuggestDestination => false
  | ObserveEvent => false
  | SignPayment => true
  | ReadRules => false
  | SignRuleCreate => true
  end.

Definition Capability_to_string (c : Capability) : string :=
  match c with
  | ReadBalance => "read-balance"
  | ProposeTransaction => "propose-transaction"
  | SuggestDestination => "suggest-destination"
  | ObserveEvent => "observe-event"
  | SignPayment => "sign-payment"
  | ReadRules => "read-rules"
  | SignRuleCreate => "sign-rule-create"
  end.

(** ** Sets

    A [BTreeSet<Capability>]: the list in the order of the declaration. *)
Definition CapabilitySet : Type := list Capability.

Definition cap_index (c : Capability) : Z :=
  match c with
  | ReadBalance => 0 | ProposeTransaction => 1 | SuggestDestination => 2 | ObserveEvent => 3
  | SignPayment => 4 | ReadRules => 5 | SignRuleCreate => 6
  end.

Fixpoint set_insert (c : Capability) (s : CapabilitySet) : CapabilitySet :=
  match s with
  | [] => [c]
  | d :: s' =>
      if cap_index c <? cap_index d then c :: s
      else if cap_index c =? cap_index d then s
      else d :: set_insert c s'
  end.

Definition set_contains (s : CapabilitySet) (c : Capability) : bool :=
  existsb (fun d => bool_decide (d = c)) s.

Definition is_valid_token_char (a : ascii) : bool :=
  is_ascii_lower a || is_ascii_digit a || bool_decide (a = "-"%char).

Definition match_capability_token (token : string) : result ToolsetFormatError Capability :=
  if bool_decide (token = SIGN_TRANSACTION_TOKEN) then Err BareSignTransactionForbidden
  else if bool_decide (token = "read-balance") then Ok ReadBalance
  else if bool_decide (token = "propose-transaction") then Ok ProposeTransaction
  else if bool_decide (token = "suggest-destination") then Ok SuggestDestination
  else if bool_decide (token = "observe-event") then Ok ObserveEvent
  else if bool_decide (token = SIGN_PAYMENT_TOKEN) then Ok SignPayment
  else if bool_decide (token = "read-rules") then Ok ReadRules
  else if bool_decide (token = SIGN_RULE_CREATE_TOKEN) then Ok SignRuleCreate
  else Err (UnknownCapability token).

Fixpoint parse_tokens (tokens : list string) (set : CapabilitySet)
  : result ToolsetFormatError CapabilitySet :=
  match tokens with
  | [] => Ok set
  | token :: rest =>
      if negb (str_all is_valid_token_char token) then Err (CapabilityTokenInvalidChar token)
      else
      cap ← match_capability_token token;
      parse_tokens rest (set_insert cap set)
  end.

Definition parse_capability_value (value : string) : result ToolsetFormatError CapabilitySet :=
  parse_tokens (split_ascii_whitespace value) [].

(** ** In a record *)

Definition CapabilitySet_serialize (s : CapabilitySet) : JsonValue :=
  JArray ((fun c => JString (Capability_to_string c)) <$> s).

(** The elements in order; a token this version does not know is left out, and a
    bare [sign-transaction] makes the record malformed.  The texts of the other
    errors are those of [serde] and not kept. *)
Fixpoint deserialize_tokens (elements : list JsonValue) (set : CapabilitySet)
  : result string CapabilitySet :=
  match elements with
  | [] => Ok set
  | JString token :: rest =>
      if negb (str_all is_valid_token_char token)
      then Err ("capability token '" +:+ token +:+ "' contains characters outside [a-z0-9-]")
      else match match_capability_token token with
           | Ok cap => deserialize_tokens rest (set_insert cap set)
           | Err (UnknownCapability _) => deserialize_tokens rest set
           | Err BareSignTransactionForbidden =>
               Err ("capability token 'sign-transaction' is forbidden in a stored record; "
                    +:+ "the record is structurally malformed")
           | Err _ => Err ("invalid capability token '" +:+ token +:+ "'")
           end
  | _ :: _ => Err "invalid type: expected a string"
  end.

Definition CapabilitySet_deserialize (v : JsonValue) : result string CapabilitySet :=
  match v with
  | JArray elements => deserialize_tokens elements []
  | _ => Err "invalid type: expected an array of capability token strings"
  end.

(** ** Lemmas *)

Lemma match_token_exact token c :
  match_capability_token token = Ok c <-> token = Capability_to_string c.
Proof.
  split.
  - unfold match_capability_token. intros H. by repeat (case_bool_decide; [by simplify_eq/=|]).
  - intros ->. by destruct c.
Qed.

Lemma cap_index_inj c d : cap_index c = cap_index d -> c = d.
Proof. by destruct c, d. Qed.

Lemma elem_of_set_insert c d s : d ∈ set_insert c s <-> d = c \/ d ∈ s.
Proof.
  induction s as [|x s IH]; simpl; [set_solver|].
  destruct (_ <? _); [set_solver|]. destruct (Z.eqb_spec (cap_index c) (cap_index x)) as [->%cap_index_inj|].
  - set_solver.
  - rewrite !elem_of_cons, IH. naive_solver.
Qed.

Lemma set_contains_spec s c : set_contains s c = true <-> c ∈ s.
Proof.
  unfold set_contains. rewrite existsb_exists. split.
  - intros (d & Hd & ->%bool_decide_eq_true). by apply list_elem_of_In.
  - intros H. exists c. split; [by apply list_elem_of_In|by apply bool_decide_eq_true].
Qed.

(** Sets are strictly increasing lists. *)
Definition set_ok (s : CapabilitySet) : Prop := StronglySorted (fun c d => cap_index c < cap_index d) s.

Lemma set_insert_last c s :
  Forall (fun d => cap_index d < cap_index c) s -> set_insert c s = s ++ [c].
Proof.
  induction 1 as [|d s Hd _ IH]; [done|]. simpl.
  rewrite (proj2 (Z.ltb_ge _ _)), (proj2 (Z.eqb_neq _ _)) by lia. by rewrite IH.
Qed.

Lemma set_insert_ok c s : set_ok s -> set_ok (set_insert c s).
Proof.
  induction 1 as [|d s Hs IH Hd]; simpl; [repeat constructor|].
  destruct (Z.ltb_spec (cap_index c) (cap_index d)).
  - repeat constructor; try done. eapply Forall_impl; [exact Hd|]. simpl. lia.
  - destruct (Z.eqb_spec (cap_index c) (cap_index d)); [by constructor|]. constructor; [done|].
    apply Forall_forall. intros x [->|Hx]%elem_of_set_insert; [lia|]. rewrite Forall_forall in Hd. by apply Hd.
Qed.

Lemma token_chars c : str_all is_valid_token_char (Capability_to_string c) = true.
Proof. by destruct c. Qed.

Lemma parse_tokens_spec tokens set s :
  parse_tokens tokens set = Ok s ->
  exists caps, tokens = Capability_to_string <$> caps /\ (forall c, c ∈ s <-> c ∈ set \/ c ∈ caps).
Proof.
  revert set. induction tokens as [|t tokens IH]; intros set H; simpl in H.
  - injection H as <-. exists []. set_solver.
  - destruct (negb _); [done|]. apply res_bind_Ok in H as (c & ->%match_token_exact & H).
    apply IH in H as (caps & -> & Hs). exists (c :: caps). split; [done|]. intros d. rewrite Hs.
    rewrite elem_of_set_insert, elem_of_cons. naive_solver.
Qed.

Lemma parse_tokens_Ok caps set :
  parse_tokens (Capability_to_string <$> caps) set = Ok (foldl (fun s c => set_insert c s) set caps).
Proof.
  revert set. induction caps as [|c caps IH]; intros set; [done|]. simpl.
  rewrite token_chars. cbn [negb]. rewrite (proj2 (match_token_exact _ c) eq_refl). simpl. apply IH.
Qed.

Lemma foldl_insert_sorted s t :
  set_ok (t ++ s) -> foldl (fun s c => set_insert c s) t s = t ++ s.
Proof.
  revert t. induction s as [|c s IH]; intros t H; [by rewrite app_nil_r|]. simpl.
  rewrite set_insert_last, IH; [by rewrite <- app_assoc|by rewrite <- app_assoc|].
  clear IH. induction t as [|d t IH]; [constructor|]. simpl in H. apply StronglySorted_inv in H as [H Hd].
  constructor; [|by apply IH]. rewrite Forall_forall in Hd. apply Hd. set_solver.
Qed.

Lemma set_ext s t : set_ok s -> set_ok t -> (forall c, c ∈ s <-> c ∈ t) -> s = t.
Proof.
  intros Hs. revert t. induction Hs as [|c s Hs IH Hc]; intros t Ht He.
  - destruct t as [|d t]; [done|]. exfalso. specialize (He d). set_solver.
  - destruct t as [|d t]; [specialize (He c); set_solver|].
    apply StronglySorted_inv in Ht as [Ht Hd]. rewrite Forall_forall in Hc, Hd.
    assert (Hct : c ∈ d :: t) by (apply He; left). assert (Hds : d ∈ c :: s) by (apply He; left).
    apply elem_of_cons in Hct as [<-|Hct].
    2:{ apply elem_of_cons in Hds as [->|Hds]; [by specialize (Hd c Hct); lia|].
        specialize (Hc d Hds). specialize (Hd c Hct). lia. }
    f_equal. apply IH; [done|]. intros x. specialize (He x). rewrite !elem_of_cons in He.
    split; intros Hx.
    + destruct (proj1 He) as [->|]; [by right| |done]. specialize (Hc c Hx). lia.
    + destruct (proj2 He) as [->|]; [by right| |done]. specialize (Hd c Hx). lia.
Qed.

Lemma foldl_insert_ok caps set :
  set_ok set -> set_ok (foldl (fun s c => set_insert c s) set caps).
Proof. revert set. induction caps as [|c caps IH]; intros set H; [done|]. by apply IH, set_insert_ok. Qed.

Lemma parse_tokens_ok tokens set s : set_ok set -> parse_tokens tokens set = Ok s -> set_ok s.
Proof.
  revert set. induction tokens as [|t tokens IH]; intros set Hs H; simpl in H; [by simplify_eq|].
  destruct (negb _); [done|]. apply res_bind_Ok in H as (c & _ & H).
  by apply (IH (set_insert c set)); [apply set_insert_ok|].
Qed.

#[export] Instance to_string_inj : Inj (=) (=) Capability_to_string.
Proof. by intros [] []. Qed.

Lemma tokens_of_caps (tokens : list string) :
  (forall t, t ∈ tokens -> exists c, t = Capability_to_string c) ->
  exists caps, tokens = Capability_to_string <$> caps.
Proof.
  induction tokens as [|t tokens IH]; intros H; [by exists []|].
  destruct (H t) as [c ->]; [left|]. destruct IH as [caps ->]; [|by exists (c :: caps)].
  intros t Ht. apply H. by right.
Qed.

(** A manifest declares exactly the capabilities it names: the value is accepted if and
    only if each of its words is the token of a capability, and yields the set of
    these, in order; a bare [sign-transaction] or an unknown word refuses the manifest. *)
Theorem declared_capabilities_exact value s :
  parse_capability_value value = Ok s <->
  (forall t, t ∈ split_ascii_whitespace value -> exists c, t = Capability_to_string c) /\
  set_ok s /\ forall c, c ∈ s <-> Capability_to_string c ∈ split_ascii_whitespace value.
Proof.
  unfold parse_capability_value. generalize (split_ascii_whitespace value) as tokens. intros tokens.
  assert (Hin : forall (caps : list Capability) c, Capability_to_string c ∈ Capability_to_string <$> caps <-> c ∈ caps).
  { intros caps c. rewrite list_elem_of_fmap. split; [by intros (d & ->%to_string_inj & ?)|by exists c]. }
  split.
  - intros H. pose proof (parse_tokens_spec _ _ _ H) as (caps & -> & Hs). split_and!.
    + intros t (c & -> & _)%list_elem_of_fmap. by exists c.
    + eapply parse_tokens_ok; [|exact H]. constructor.
    + intros c. rewrite Hs, Hin. set_solver.
  - intros (Ht & Hs & He). apply tokens_of_caps in Ht as [caps ->]. rewrite parse_tokens_Ok. f_equal.
    apply set_ext; [apply foldl_insert_ok; constructor|done|]. intros c. rewrite He, Hin.
    pose proof (parse_tokens_spec _ _ _ (parse_tokens_Ok caps [])) as (caps' & Hc & ->).
    apply (inj (fmap Capability_to_string)) in Hc as <-. set_solver.
Qed.

Lemma deserialize_tokens_Ok caps set :
  deserialize_tokens ((fun c => JString (Capability_to_string c)) <$> caps) set
  = Ok (foldl (fun s c => set_insert c s) set caps).
Proof.
  revert set. induction caps as [|c caps IH]; intros set; [done|]. simpl.
  rewrite token_chars. cbn [negb]. rewrite (proj2 (match_token_exact _ c) eq_refl). simpl. apply IH.
Qed.

(** A stored set is read back. *)
Lemma capability_set_roundtrip s :
  set_ok s -> CapabilitySet_deserialize (CapabilitySet_serialize s) = Ok s.
Proof.
  intros Hs. simpl. rewrite deserialize_tokens_Ok. f_equal. by apply (foldl_insert_sorted s []).
Qed.
