(* ===== verification/ToolsetArgs.v ===== *)
(** * Arguments of toolset calls (stellar-agent-toolsets, [validate.rs], [args_error.rs])

    The JSON a toolset passes on is walked with an explicit stack, and refused
    when it has a key that a JavaScript consumer would act on, or is too deep or
    too large. *)

From S2P Require Import Prelude RustStr Json.
From stdpp Require Import options.

Local Open Scope string_scope.
Local Open Scope list_scope.
Local Open Scope Z_scope.

Inductive ToolsetArgsError :=
| DangerousKey (matched_key : string)
| NestingTooDeep (depth max_depth : Z)
| TooManyNodes (count_limit : Z).

Definition ARGS_KEY_DENYLIST : list string :=
  ["toJSON"; "then"; "__proto__"; "constructor"; "prototype"; "toString"; "valueOf";
   "__defineGetter__"; "__defineSetter__"; "__lookupGetter__"; "__lookupSetter__"].

Definition TOOLSET_ARGS_MAX_DEPTH : Z := 16.
Definition TOOLSET_ARGS_MAX_NODES : Z := 1024.

Definition denylist_match (key : string) : option string :=
  List.find (fun denied => bool_decide (key = denied)) ARGS_KEY_DENYLIST.

#[local] Abbreviation Stack := (list (JsonValue * Z)).

Fixpoint push_fields (depth : Z) (map : list (string * JsonValue)) (stack : Stack)
  : result ToolsetArgsError Stack :=
  match map with
  | [] => Ok stack
  | (key, child) :: rest =>
      match denylist_match key with
      | Some matched => Err (DangerousKey matched)
      | None => push_fields depth rest ((child, depth + 1) :: stack)
      end
  end.

Definition push_elements (depth : Z) (elements : list JsonValue) (stack : Stack) : Stack :=
  foldl (fun st element => (element, depth + 1) :: st) stack elements.

(** The loop; [None] is the loop still running. *)
Fixpoint walk (fuel : nat) (stack : Stack) (nodes_visited : Z) : option (result ToolsetArgsError unit) :=
  match fuel with
  | O => None
  | S fuel' =>
      match stack with
      | [] => Some (Ok tt)
      | (value, depth) :: stack =>
          let nodes_visited := sat_add u64 nodes_visited 1 in
          if TOOLSET_ARGS_MAX_NODES <? nodes_visited
          then Some (Err (TooManyNodes TOOLSET_ARGS_MAX_NODES))
          else if TOOLSET_ARGS_MAX_DEPTH <? depth
          then Some (Err (NestingTooDeep depth TOOLSET_ARGS_MAX_DEPTH))
          else match value with
               | JObject map =>
                   match push_fields depth map stack with
                   | Err e => Some (Err e)
                   | Ok stack => walk fuel' stack nodes_visited
                   end
               | JArray elements => walk fuel' (push_elements depth elements stack) nodes_visited
               | _ => walk fuel' stack nodes_visited
               end
      end
  end.

(** A node is popped at most 1025 times. *)
Definition validate_toolset_tool_args (args : JsonValue) : option (result ToolsetArgsError unit) :=
  walk 1026 [(args, 0)] 0.

(** ** The arguments as a tree *)

Fixpoint node_count (v : JsonValue) : Z :=
  match v with
  | JArray l => 1 + foldr (fun x n => node_count x + n) 0 l
  | JObject m => 1 + foldr (fun kx n => node_count (snd kx) + n) 0 m
  | _ => 1
  end.

(** Every node below [v], which is at depth [d], is at most at [bound]. *)
Fixpoint within (bound d : Z) (v : JsonValue) : Prop :=
  d <= bound /\
  match v with
  | JArray l => foldr (fun x P => within bound (d + 1) x /\ P) True l
  | JObject m => foldr (fun kx P => within bound (d + 1) (snd kx) /\ P) True m
  | _ => True
  end.

(** No key of any object is on the list. *)
Fixpoint clean (v : JsonValue) : Prop :=
  match v with
  | JArray l => foldr (fun x P => clean x /\ P) True l
  | JObject m => foldr (fun kx P => ((fst kx ∉ ARGS_KEY_DENYLIST) /\ clean (snd kx)) /\ P) True m
  | _ => True
  end.

(** ** The stack stands for the nodes to come *)

Definition stack_count (st : Stack) : Z := foldr (fun vd n => node_count (fst vd) + n) 0 st.
Definition stack_ok (st : Stack) : Prop :=
  Forall (fun vd => within TOOLSET_ARGS_MAX_DEPTH (snd vd) (fst vd) /\ clean (fst vd)) st.

Lemma denylist_match_None key : denylist_match key = None <-> key ∉ ARGS_KEY_DENYLIST.
Proof.
  unfold denylist_match. split.
  - intros H Hin%list_elem_of_In. pose proof (List.find_none _ _ H _ Hin) as Hk.
    by apply bool_decide_eq_false in Hk.
  - intros H. destruct (List.find _ _) as [k|] eqn:E; [|done].
    apply List.find_some in E as [Hk ->%bool_decide_eq_true]. by apply list_elem_of_In in Hk.
Qed.

Lemma node_count_pos v : 0 < node_count v.
Proof.
  revert v. fix IH 1. intros [| | | |l|m]; simpl; try lia.
  - assert (0 <= foldr (fun x n => node_count x + n) 0 l); [|lia].
    induction l as [|x l IHl]; simpl; [lia|]. specialize (IH x). lia.
  - assert (0 <= foldr (fun kx n => node_count (snd kx) + n) 0 m); [|lia].
    induction m as [|[k x] m IHm]; simpl; [lia|]. specialize (IH x). lia.
Qed.

Lemma stack_count_pos st : 0 <= stack_count st.
Proof. induction st as [|[v d] st IH]; simpl; [lia|]. pose proof (node_count_pos v). lia. Qed.

Lemma push_elements_count d l st :
  stack_count (push_elements d l st) = foldr (fun x n => node_count x + n) 0 l + stack_count st.
Proof. unfold push_elements. revert st. induction l as [|x l IH]; intros st; simpl; [lia|]. rewrite IH. simpl. lia. Qed.

Lemma push_elements_ok d l st :
  stack_ok (push_elements d l st) <->
  foldr (fun x P => within TOOLSET_ARGS_MAX_DEPTH (d + 1) x /\ P) True l /\
  foldr (fun x P => clean x /\ P) True l /\ stack_ok st.
Proof.
  unfold push_elements. revert st. induction l as [|x l IH]; intros st; simpl; [tauto|].
  rewrite IH. unfold stack_ok. rewrite Forall_cons. simpl. tauto.
Qed.

Lemma push_fields_cases d m st :
  match push_fields d m st with
  | Ok st' =>
      stack_count st' = foldr (fun kx n => node_count (snd kx) + n) 0 m + stack_count st /\
      (stack_ok st' <->
       foldr (fun kx P => within TOOLSET_ARGS_MAX_DEPTH (d + 1) (snd kx) /\ P) True m /\
       foldr (fun kx P => ((fst kx ∉ ARGS_KEY_DENYLIST) /\ clean (snd kx)) /\ P) True m /\ stack_ok st)
  | Err _ => ~ foldr (fun kx P => ((fst kx ∉ ARGS_KEY_DENYLIST) /\ clean (snd kx)) /\ P) True m
  end.
Proof.
  revert st. induction m as [|[k x] m IH]; intros st; simpl; [split; [done|tauto]|].
  destruct (denylist_match k) eqn:Ek.
  - intros [[Hk _] _]. apply denylist_match_None in Hk. congruence.
  - apply denylist_match_None in Ek. specialize (IH ((x, d + 1) :: st)).
    destruct (push_fields d m _) as [st'|]; [|tauto]. destruct IH as [-> IH]. split; [simpl; lia|].
    rewrite IH. unfold stack_ok. rewrite Forall_cons. simpl. tauto.
Qed.

Lemma walk_exact fuel st n :
  0 <= n -> 1026 <= Z.of_nat fuel + n -> n <= TOOLSET_ARGS_MAX_NODES ->
  exists r, walk fuel st n = Some r /\
    (r = Ok tt <-> n + stack_count st <= TOOLSET_ARGS_MAX_NODES /\ stack_ok st).
Proof.
  revert st n. induction fuel as [|fuel IH]; intros st n Hn Hf Hm; [unfold TOOLSET_ARGS_MAX_NODES in Hm; lia|].
  simpl walk. destruct st as [|[v d] st].
  { eexists. split; [done|]. simpl. split; [intros _; split; [lia|constructor]|done]. }
  assert (Hsat : sat_add u64 n 1 = n + 1).
  { apply clamp_id. unfold in_range, TOOLSET_ARGS_MAX_NODES in *. simpl. lia. }
  rewrite Hsat. pose proof (node_count_pos v) as Hv. pose proof (stack_count_pos st) as Hst.
  assert (Hcons : stack_ok ((v, d) :: st) <->
    (within TOOLSET_ARGS_MAX_DEPTH d v /\ clean v) /\ stack_ok st)
    by (unfold stack_ok; by rewrite Forall_cons).
  change (stack_count ((v, d) :: st)) with (node_count v + stack_count st).
  setoid_rewrite Hcons. clear Hcons.
  destruct (Z.ltb_spec TOOLSET_ARGS_MAX_NODES (n + 1)).
  { eexists. split; [done|]. split; [done|lia]. }
  destruct (Z.ltb_spec TOOLSET_ARGS_MAX_DEPTH d).
  { eexists. split; [done|]. split; [done|]. intros (_ & [Hw _] & _). destruct v; destruct Hw; lia. }
  assert (Hgo : forall st', exists r, walk fuel st' (n + 1) = Some r /\
    (r = Ok tt <-> n + 1 + stack_count st' <= TOOLSET_ARGS_MAX_NODES /\ stack_ok st'))
    by (intros st'; apply IH; lia).
  destruct v as [| | | |l|m];
    try (destruct (Hgo st) as (r & Hr & He); exists r; split; [done|]; rewrite He; simpl;
         intuition lia).
  - destruct (Hgo (push_elements d l st)) as (r & Hr & He). exists r. split; [done|]. rewrite He.
    rewrite push_elements_count, push_elements_ok. simpl. intuition lia.
  - pose proof (push_fields_cases d m st) as Hp. destruct (push_fields d m st) as [st'|].
    + destruct (Hgo st') as (r & Hr & He). exists r. split; [done|]. rewrite He. destruct Hp as [Hp1 Hp2].
      rewrite Hp1, Hp2.      simpl. intuition lia.
    + eexists. split; [done|]. split; [done|]. intros (_ & [_ Hc] & _). done.
Qed.

(** The walk ends, and it accepts exactly the arguments with at most 1024 nodes, none
    deeper than 16 and none of the refused keys at any depth. *)
Theorem toolset_args_exact args :
  exists r, validate_toolset_tool_args args = Some r /\
    (r = Ok tt <-> node_count args <= TOOLSET_ARGS_MAX_NODES /\
                   within TOOLSET_ARGS_MAX_DEPTH 0 args /\ clean args).
Proof.
  destruct (walk_exact 1026 [(args, 0)] 0) as (r & Hr & He); [lia..|done|].
  exists r. split; [exact Hr|]. rewrite He. unfold stack_ok. rewrite Forall_singleton. simpl.
  rewrite Z.add_0_r. tauto.
Qed.
