(* ===== verification/Frontmatter.v ===== *)
(** * Manifests of toolsets (stellar-agent-toolsets, [parse.rs])

    [TOOLSET.md] opens with YAML between two fences.  The events of the YAML
    parser, a third-party crate, drive a state machine that reads six keys of
    the top-level mapping and refuses anchors, deep nesting and repeated keys. *)

From stdpp Require Import gmap strings.
From S2P Require Import Prelude RustStr Json Capability.
From stdpp Require Import options.

Local Open Scope string_scope.
Local Open Scope list_scope.
Local Open Scope Z_scope.

Definition MAX_FILE_BYTES : Z := 256 * 1024.
Definition MAX_DEPTH : Z := 8.
Definition NAME_MAX_LEN : Z := 64.
Definition DESC_MAX_LEN : Z := 1024.
Definition COMPAT_MAX_LEN : Z := 500.

Record Toolset := {
  ts_name : string;
  ts_description : string;
  ts_license : option string;
  ts_compatibility : option string;
  ts_metadata : gmap string string;
  ts_allowed_tools : list string;
  ts_capabilities : CapabilitySet;
  ts_instructions : string;
}.

Record Frontmatter := MkFm {
  fm_name : option string;
  fm_description : option string;
  fm_license : option string;
  fm_compatibility : option string;
  fm_metadata : gmap string string;
  fm_allowed_tools : list string;
}.

Definition no_frontmatter : Frontmatter := MkFm None None None None ∅ [].

(** ** The fences *)

Definition fence : string := "---".
Definition strip_fence_line (s : string) : option string :=
  match strip_prefix (fence +:+ String newline EmptyString) s with
  | Some r => Some r
  | None => strip_prefix (fence +:+ String carriage_return (String newline EmptyString)) s
  end.

Definition byte_at (s : string) (i : nat) (c : ascii) : bool := bool_decide (String.get i s = Some c).

(** The lines of [s], with the offset of the one at hand. *)
Fixpoint fence_loop (s : string) (ls : list string) (offset : nat) : option nat :=
  match ls with
  | [] => None
  | line :: rest =>
      if bool_decide (line = fence) then Some offset
      else
      let offset := (offset + String.length line)%nat in
      let offset := if byte_at s offset carriage_return then S offset else offset in
      let offset := if byte_at s offset newline then S offset else offset in
      fence_loop s rest offset
  end.

Definition find_closing_fence (s : string) : option nat := fence_loop s (lines s) 0.

Definition split_frontmatter (content : string) : result ToolsetFormatError (string * string) :=
  after_open ← ok_or MissingFrontmatter (strip_fence_line content);
  match find_closing_fence after_open with
  | Some close_pos =>
      let frontmatter := String.substring 0 close_pos after_open in
      let rest := String.substring close_pos (String.length after_open - close_pos) after_open in
      let body := match strip_fence_line rest with
                  | Some b => b
                  | None => match strip_prefix fence rest with Some b => b | None => rest end
                  end in
      Ok (frontmatter, body)
  | None => Ok (after_open, EmptyString)
  end.

(** ** Events *)

(** [yaml_rust2::parser::Event], less tags and styles; an anchor id of zero is none. *)
Inductive Event :=
| EvNothing | EvStreamStart | EvStreamEnd | EvDocumentStart | EvDocumentEnd
| EvAlias (anchor_id : Z)
| EvScalar (value : string) (anchor_id : Z)
| EvSequenceStart (anchor_id : Z) | EvSequenceEnd
| EvMappingStart (anchor_id : Z) | EvMappingEnd.

Inductive ReceiverState :=
| Init
| TopLevelMapping (current_key : option string)
| MetadataMapping (current_key : option string)
| SkippingUnknown (return_depth : Z)
| Done.

Record FrontmatterReceiver := MkRx {
  rx_frontmatter : Frontmatter;
  rx_state : ReceiverState;
  rx_depth : Z;
  top_level_seen_keys : gset string;
  metadata_seen_keys : gset string;
  rx_error : option ToolsetFormatError;
}.

Definition receiver_new : FrontmatterReceiver := MkRx no_frontmatter Init 0 ∅ ∅ None.

Definition set_error (err : ToolsetFormatError) (rx : FrontmatterReceiver) : FrontmatterReceiver :=
  MkRx (rx_frontmatter rx) Done (rx_depth rx) (top_level_seen_keys rx) (metadata_seen_keys rx)
    (match rx_error rx with Some e => Some e | None => Some err end).

Definition set_state (st : ReceiverState) (rx : FrontmatterReceiver) : FrontmatterReceiver :=
  MkRx (rx_frontmatter rx) st (rx_depth rx) (top_level_seen_keys rx) (metadata_seen_keys rx)
    (rx_error rx).

Definition set_depth (d : Z) (rx : FrontmatterReceiver) : FrontmatterReceiver :=
  MkRx (rx_frontmatter rx) (rx_state rx) d (top_level_seen_keys rx) (metadata_seen_keys rx)
    (rx_error rx).

Definition set_frontmatter (fm : Frontmatter) (rx : FrontmatterReceiver) : FrontmatterReceiver :=
  MkRx fm (rx_state rx) (rx_depth rx) (top_level_seen_keys rx) (metadata_seen_keys rx) (rx_error rx).

(** The checks before the dispatch, and whether the event is dispatched. *)
Definition pre_dispatch (ev : Event) (rx : FrontmatterReceiver)
  : FrontmatterReceiver * bool :=
  match ev with
  | EvAlias _ => (set_error YamlAnchorsForbidden rx, false)
  | EvMappingStart anchor_id | EvSequenceStart anchor_id =>
      if negb (anchor_id =? 0) then (set_error YamlAnchorsForbidden rx, false)
      else
      let rx := set_depth (rx_depth rx + 1) rx in
      if MAX_DEPTH <? rx_depth rx then (set_error FrontmatterTooDeep rx, false) else (rx, true)
  | EvMappingEnd | EvSequenceEnd => (set_depth (Z.max 0 (rx_depth rx - 1)) rx, true)
  | EvScalar _ anchor_id =>
      if negb (anchor_id =? 0) then (set_error YamlAnchorsForbidden rx, false) else (rx, true)
  | _ => (rx, true)
  end.

(** A top-level scalar value. *)
Definition set_field (key val : string) (fm : Frontmatter) : Frontmatter :=
  let '(MkFm name description license compatibility metadata allowed_tools) := fm in
  if bool_decide (key = "name")
  then MkFm (Some val) description license compatibility metadata allowed_tools
  else if bool_decide (key = "description")
  then MkFm name (Some val) license compatibility metadata allowed_tools
  else if bool_decide (key = "license")
  then MkFm name description (Some val) compatibility metadata allowed_tools
  else if bool_decide (key = "compatibility")
  then MkFm name description license (Some val) metadata allowed_tools
  else if bool_decide (key = "allowed-tools")
  then MkFm name description license compatibility metadata (split_ascii_whitespace val)
  else fm.

Definition insert_metadata (key val : string) (fm : Frontmatter) : Frontmatter :=
  MkFm (fm_name fm) (fm_description fm) (fm_license fm) (fm_compatibility fm)
    (<[key := val]> (fm_metadata fm)) (fm_allowed_tools fm).

Definition see_top (key : string) (rx : FrontmatterReceiver) : FrontmatterReceiver :=
  MkRx (rx_frontmatter rx) (rx_state rx) (rx_depth rx) ({[key]} ∪ top_level_seen_keys rx)
    (metadata_seen_keys rx) (rx_error rx).
Definition see_metadata (key : string) (rx : FrontmatterReceiver) : FrontmatterReceiver :=
  MkRx (rx_frontmatter rx) (rx_state rx) (rx_depth rx) (top_level_seen_keys rx)
    ({[key]} ∪ metadata_seen_keys rx) (rx_error rx).

Definition on_init (ev : Event) (rx : FrontmatterReceiver) : FrontmatterReceiver :=
  match ev with
  | EvStreamStart | EvDocumentStart | EvDocumentEnd | EvStreamEnd => rx
  | EvMappingStart _ => set_state (TopLevelMapping None) rx
  | _ => set_error (MalformedFrontmatter "frontmatter must be a YAML mapping") rx
  end.

Definition on_skipping (return_depth : Z) (ev : Event) (rx : FrontmatterReceiver)
  : FrontmatterReceiver :=
  match ev with
  | EvMappingEnd | EvSequenceEnd =>
      if rx_depth rx =? return_depth then set_state (TopLevelMapping None) rx else rx
  | _ => rx
  end.

Definition on_top_level (current_key : option string) (ev : Event) (rx : FrontmatterReceiver)
  : FrontmatterReceiver :=
  match ev with
  | EvMappingEnd => set_state Done rx
  | EvScalar value _ =>
      match current_key with
      | None =>
          if bool_decide (value ∈ top_level_seen_keys rx) then set_error (DuplicateKey value) rx
          else set_state (TopLevelMapping (Some value)) (see_top value rx)
      | Some key =>
          set_state (TopLevelMapping None) (set_frontmatter (set_field key value (rx_frontmatter rx)) rx)
      end
  | EvMappingStart _ =>
      if bool_decide (current_key = Some "metadata") then set_state (MetadataMapping None) rx
      else set_state (SkippingUnknown (rx_depth rx - 1)) rx
  | EvSequenceStart _ => set_state (SkippingUnknown (rx_depth rx - 1)) rx
  | _ => rx
  end.

Definition on_metadata (current_key : option string) (ev : Event) (rx : FrontmatterReceiver)
  : FrontmatterReceiver :=
  match ev with
  | EvMappingEnd => set_state (TopLevelMapping None) rx
  | EvScalar value _ =>
      match current_key with
      | None =>
          if bool_decide (value ∈ metadata_seen_keys rx) then set_error (DuplicateKey value) rx
          else
          let rx := see_metadata value rx in
          if starts_with_str RESERVED_PREFIX value && negb (bool_decide (value = CAPABILITY_KEY))
          then set_error (ReservedMetadataKey value) rx
          else set_state (MetadataMapping (Some value)) rx
      | Some key =>
          set_state (MetadataMapping None)
            (set_frontmatter (insert_metadata key value (rx_frontmatter rx)) rx)
      end
  | EvMappingStart _ | EvSequenceStart _ =>
      let key := default EmptyString current_key in
      if bool_decide (key = CAPABILITY_KEY)
      then set_error (CapabilityManifestMalformed
             "stellar-agent-capabilities value must be a string, not a mapping or sequence") rx
      else set_error (MalformedFrontmatter
             ("metadata value for key '" +:+ key +:+ "' must be a string")) rx
  | _ => rx
  end.

Definition dispatch (ev : Event) (rx : FrontmatterReceiver) : FrontmatterReceiver :=
  match rx_state rx with
  | Done => rx
  | SkippingUnknown return_depth => on_skipping return_depth ev rx
  | Init => on_init ev rx
  | TopLevelMapping current_key => on_top_level current_key ev rx
  | MetadataMapping current_key => on_metadata current_key ev rx
  end.

Definition process_event (ev : Event) (rx : FrontmatterReceiver) : FrontmatterReceiver :=
  match rx_error rx with
  | Some _ => rx
  | None => let '(rx, go) := pre_dispatch ev rx in if go then dispatch ev rx else rx
  end.

Definition is_stream_end (ev : Event) : bool := match ev with EvStreamEnd => true | _ => false end.

(** The pull loop over what [next_token] answers; [None] is the loop still running. *)
Fixpoint pull (tokens : list (result string Event)) (rx : FrontmatterReceiver)
  : option (result ToolsetFormatError Frontmatter) :=
  match tokens with
  | [] => None
  | Err e :: _ => Some (Err (MalformedFrontmatter e))
  | Ok ev :: rest =>
      let rx := process_event ev rx in
      match rx_error rx with
      | Some err => Some (Err err)
      | None => if is_stream_end ev then Some (Ok (rx_frontmatter rx)) else pull rest rx
      end
  end.

(** The YAML parser: the answers of [next_token], in order. *)
Class Yaml := { next_tokens : string -> list (result string Event) }.

(** ** Checks *)

Definition validate_name (name : option string) (dir_name : string) : result ToolsetFormatError unit :=
  n ← ok_or MissingName name;
  if is_empty n then Err NameEmpty
  else if NAME_MAX_LEN <? chars_count n then Err NameTooLong
  else if negb (str_all is_valid_token_char n) then Err NameInvalidChar
  else if starts_with "-" n || ends_with "-" n then Err NameLeadingTrailingHyphen
  else if contains_str "--" n then Err NameConsecutiveHyphens
  else if negb (bool_decide (n = dir_name)) then Err (NameDirMismatch n dir_name)
  else Ok tt.

Definition validate_description (desc : option string) : result ToolsetFormatError unit :=
  d ← ok_or MissingDescription desc;
  if is_empty (trim d) then Err DescriptionEmpty
  else if DESC_MAX_LEN <? chars_count d then Err DescriptionTooLong
  else Ok tt.

Definition validate_compatibility (compat : string) : result ToolsetFormatError unit :=
  if COMPAT_MAX_LEN <? chars_count compat then Err CompatibilityTooLong else Ok tt.

Definition extract_capabilities (metadata : gmap string string) : result ToolsetFormatError CapabilitySet :=
  match metadata !! CAPABILITY_KEY with
  | None => Ok []
  | Some value => parse_capability_value value
  end.

(** ** The file *)

(** What opening, [metadata] and reading answer. *)
Record FileRead := { fr_open : option string; fr_size : result string Z; fr_content : result string string }.

Definition read_size_capped (file : FileRead) : result ToolsetFormatError string :=
  _ ← match fr_open file with Some e => Err (TfIo e) | None => Ok tt end;
  file_size ← map_err TfIo (fr_size file);
  if MAX_FILE_BYTES <? file_size then Err (ToolsetFileTooLarge file_size MAX_FILE_BYTES)
  else
  content ← map_err TfIo (fr_content file);
  let buf_len := Z.min (len content) (MAX_FILE_BYTES + 1) in
  if MAX_FILE_BYTES <? buf_len then Err (ToolsetFileTooLarge buf_len MAX_FILE_BYTES)
  else Ok content.

Section toolset.
Context `{YA : !Yaml}.

Definition parse_frontmatter (yaml_str : string) : option (result ToolsetFormatError Frontmatter) :=
  pull (next_tokens yaml_str) receiver_new.

Definition check_frontmatter (dir_name body : string) (fm : Frontmatter)
  : result ToolsetFormatError Toolset :=
  _ ← validate_name (fm_name fm) dir_name;
  _ ← validate_description (fm_description fm);
  _ ← match fm_compatibility fm with Some compat => validate_compatibility compat | None => Ok tt end;
  capabilities ← extract_capabilities (fm_metadata fm);
  Ok {| ts_name := default EmptyString (fm_name fm);
        ts_description := default EmptyString (fm_description fm);
        ts_license := fm_license fm; ts_compatibility := fm_compatibility fm;
        ts_metadata := fm_metadata fm; ts_allowed_tools := fm_allowed_tools fm;
        ts_capabilities := capabilities; ts_instructions := body |}.

(** [None] only if the YAML parser never ends. *)
Definition parse_toolset (dir_name : string) (file : FileRead)
  : option (result ToolsetFormatError Toolset) :=
  match read_size_capped file with
  | Err e => Some (Err e)
  | Ok content =>
      if negb (utf8_valid content) then Some (Err NotUtf8)
      else match split_frontmatter content with
           | Err e => Some (Err e)
           | Ok (frontmatter_yaml, body) =>
               match parse_frontmatter frontmatter_yaml with
               | None => None
               | Some (Err e) => Some (Err e)
               | Some (Ok fm) => Some (check_frontmatter dir_name body fm)
               end
           end
  end.
End toolset.
