(* ===== verification/FrontmatterProps.v ===== *)
(** * Manifests of toolsets: the event machine reads the tree

    A YAML document is a tree; the parser hands it out as events.  The machine of
    [Frontmatter.v] is compared with a reading of the tree itself. *)

From stdpp Require Import gmap strings.
From S2P Require Import Prelude RustStr Json Capability Frontmatter.
From stdpp Require Import options.

Local Open Scope string_scope.
Local Open Scope list_scope.
Local Open Scope Z_scope.

(** ** Documents *)

Inductive Node :=
| NScalar (s : string)
| NSeq (l : list Node)
| NMap (m : list (Node * Node)).

Fixpoint flatten (n : Node) : list Event :=
  match n with
  | NScalar s => [EvScalar s 0]
  | NSeq l => EvSequenceStart 0 :: flat_map flatten l ++ [EvSequenceEnd]
  | NMap m => EvMappingStart 0 :: flat_map (fun kv => flatten (fst kv) ++ flatten (snd kv)) m
              ++ [EvMappingEnd]
  end.

Fixpoint height (n : Node) : Z :=
  match n with
  | NScalar _ => 0
  | NSeq l => 1 + foldr (fun x h => Z.max (height x) h) 0 l
  | NMap m => 1 + foldr (fun kv h => Z.max (Z.max (height (fst kv)) (height (snd kv))) h) 0 m
  end.

(** The top-level mapping, its keys scalars. *)
Definition entry_events (kv : string * Node) : list Event := EvScalar (fst kv) 0 :: flatten (snd kv).

Definition document (entries : list (string * Node)) : list Event :=
  [EvStreamStart; EvDocumentStart; EvMappingStart 0] ++ flat_map entry_events entries
  ++ [EvMappingEnd; EvDocumentEnd; EvStreamEnd].

(** ** What the manifest says *)

Definition reserved (key : string) : bool :=
  starts_with_str RESERVED_PREFIX key && negb (bool_decide (key = CAPABILITY_KEY)).

Definition structured_metadata (key : string) : ToolsetFormatError :=
  if bool_decide (key = CAPABILITY_KEY)
  then CapabilityManifestMalformed
         "stellar-agent-capabilities value must be a string, not a mapping or sequence"
  else MalformedFrontmatter ("metadata value for key '" +:+ key +:+ "' must be a string").

Fixpoint read_metadata (seen : gset string) (m : list (Node * Node)) (fm : Frontmatter)
  : result ToolsetFormatError Frontmatter :=
  match m with
  | [] => Ok fm
  | (NScalar k, v) :: rest =>
      if bool_decide (k ∈ seen) then Err (DuplicateKey k)
      else if reserved k then Err (ReservedMetadataKey k)
      else match v with
           | NScalar s => read_metadata ({[k]} ∪ seen) rest (insert_metadata k s fm)
           | _ => Err (structured_metadata k)
           end
  | (_, _) :: _ => Err (structured_metadata EmptyString)
  end.

Fixpoint read_entries (seen : gset string) (entries : list (string * Node)) (fm : Frontmatter)
  : result ToolsetFormatError Frontmatter :=
  match entries with
  | [] => Ok fm
  | (k, v) :: rest =>
      if bool_decide (k ∈ seen) then Err (DuplicateKey k)
      else
      fm' ← match v with
            | NScalar s => Ok (set_field k s fm)
            | NMap m => if bool_decide (k = "metadata") then read_metadata ∅ m fm else Ok fm
            | NSeq _ => Ok fm
            end;
      read_entries ({[k]} ∪ seen) rest fm'
  end.

(** ** Runs of the machine *)

Definition run (evs : list Event) (rx : FrontmatterReceiver) : FrontmatterReceiver :=
  foldl (fun rx ev => process_event ev rx) rx evs.

#[local] Arguments run : simpl never.
#[local] Arguments process_event : simpl never.

Lemma run_app a b rx : run (a ++ b) rx = run b (run a rx).
Proof. apply foldl_app. Qed.

Lemma run_cons ev evs rx : run (ev :: evs) rx = run evs (process_event ev rx).
Proof. done. Qed.

Lemma run_error evs rx e : rx_error rx = Some e -> run evs rx = rx.
Proof.
  intros He. induction evs as [|ev evs IH]; [done|]. rewrite run_cons. unfold process_event.
  by rewrite He.
Qed.

Lemma pull_run evs rest rx :
  rx_error rx = None -> Forall (fun ev => is_stream_end ev = false) evs ->
  pull ((Ok <$> evs) ++ rest) rx =
  match rx_error (run evs rx) with Some e => Some (Err e) | None => pull rest (run evs rx) end.
Proof.
  intros Hn Hf. revert rx Hn. induction Hf as [|ev evs Hev _ IH]; intros rx Hn.
  { change (run [] rx) with rx. by rewrite Hn. }
  rewrite run_cons. simpl. destruct (rx_error (process_event ev rx)) as [e|] eqn:Ee.
  - by rewrite (run_error _ _ e Ee), Ee.
  - by rewrite Hev, IH.
Qed.

Lemma flatten_no_end n : Forall (fun ev => is_stream_end ev = false) (flatten n).
Proof.
  revert n. fix IH 1. intros [s|l|m]; simpl.
  - by repeat constructor.
  - constructor; [done|]. apply Forall_app. split; [|by repeat constructor].
    induction l as [|x l IHl]; simpl; [constructor|]. by apply Forall_app.
  - constructor; [done|]. apply Forall_app. split; [|by repeat constructor].
    induction m as [|[k v] m IHm]; simpl; [constructor|]. apply Forall_app. split; [|done].
    apply Forall_app. split; apply IH.
Qed.

(** ** Skipping *)

Definition deep_ok (d : Z) (n : Node) : Prop := d + height n <= MAX_DEPTH.

(** A receiver that skips, at depth [d] above the one it returns to. *)
Definition skipping (rx : FrontmatterReceiver) (rd d : Z) : Prop :=
  rx_error rx = None /\ rx_state rx = SkippingUnknown rd /\ rx_depth rx = d /\ 0 <= rd < d.

Lemma set_depth_depth d d' rx : set_depth d (set_depth d' rx) = set_depth d rx.
Proof. done. Qed.

Lemma set_depth_same rx : set_depth (rx_depth rx) rx = rx.
Proof. by destruct rx. Qed.

Lemma skip_scalar rx rd d s : skipping rx rd d -> process_event (EvScalar s 0) rx = rx.
Proof. intros (He & Hs & _ & _). unfold process_event, pre_dispatch, dispatch.
  rewrite He. simpl. by rewrite Hs.
Qed.

Lemma skip_start ev rx rd d :
  ev = EvSequenceStart 0 \/ ev = EvMappingStart 0 ->
  skipping rx rd d -> d + 1 <= MAX_DEPTH -> process_event ev rx = set_depth (d + 1) rx.
Proof.
  intros Hev (He & Hs & Hd & _) Hm. unfold process_event, pre_dispatch, dispatch. rewrite He.
  destruct Hev as [-> | ->]; simpl; rewrite Hd, (proj2 (Z.ltb_ge _ _)) by done; simpl; by rewrite Hs.
Qed.

Lemma skip_end ev rx rd d :
  ev = EvSequenceEnd \/ ev = EvMappingEnd ->
  skipping rx rd d -> process_event ev (set_depth (d + 1) rx) = rx.
Proof.
  intros Hev (He & Hs & Hd & Hr). unfold process_event, pre_dispatch, dispatch.
  assert (Hm : Z.max 0 (d + 1 - 1) = d) by lia.
  destruct Hev as [-> | ->]; simpl; rewrite He, Hs; simpl; rewrite Hm;
    rewrite (proj2 (Z.eqb_neq d rd)) by lia; rewrite set_depth_depth, <- Hd; apply set_depth_same.
Qed.

Lemma skipping_deeper rx rd d : skipping rx rd d -> skipping (set_depth (d + 1) rx) rd (d + 1).
Proof. intros (He & Hs & Hd & Hr). repeat split; simpl; try done; lia. Qed.

Lemma foldr_max_nonneg {A} (f : A -> Z) l : 0 <= foldr (fun x h => Z.max (f x) h) 0 l.
Proof. induction l; simpl; lia. Qed.

(** A skipped subtree leaves the receiver as it was. *)
Lemma skip_node n rx rd d :
  skipping rx rd d -> deep_ok d n -> run (flatten n) rx = rx.
Proof.
  revert n rx rd d. fix IH 1. intros [s|l|m] rx rd d Hs Hd; unfold deep_ok in Hd; simpl in Hd.
  - cbn [flatten]. rewrite run_cons. by eapply skip_scalar.
  - cbn [flatten]. rewrite run_cons, (skip_start _ _ rd d); [|by left|done|].
    2:{ pose proof (foldr_max_nonneg height l). lia. }
    rewrite run_app. replace (run (flat_map flatten l) _) with (set_depth (d + 1) rx);
      [by eapply skip_end; [left|]|]. symmetry.
    pose proof (skipping_deeper _ _ _ Hs) as Hs'. induction l as [|x l IHl]; [done|]. simpl in Hd |- *.
    rewrite run_app, (IH x _ rd (d + 1)); [apply IHl; lia|done|unfold deep_ok; lia].
  - cbn [flatten]. rewrite run_cons, (skip_start _ _ rd d); [|by right|done|].
    2:{ pose proof (foldr_max_nonneg (fun kv => Z.max (height (fst kv)) (height (snd kv))) m). lia. }
    rewrite run_app. replace (run (flat_map _ m) _) with (set_depth (d + 1) rx);
      [by eapply skip_end; [right|]|]. symmetry.
    pose proof (skipping_deeper _ _ _ Hs) as Hs'. induction m as [|[k v] m IHm]; [done|]. simpl in Hd |- *.
    rewrite !run_app, (IH k _ rd (d + 1)), (IH v _ rd (d + 1));
      [apply IHm; lia|done|unfold deep_ok; lia|done|unfold deep_ok; lia].
Qed.

Lemma skip_children {A} (f : A -> list Event) (l : list A) rx :
  Forall (fun x => run (f x) rx = rx) l -> run (flat_map f l) rx = rx.
Proof. induction 1 as [|x l Hx _ IH]; [done|]. simpl. by rewrite run_app, Hx. Qed.

Lemma foldr_max_le {A} (f : A -> Z) l b :
  foldr (fun x h => Z.max (f x) h) 0 l <= b -> Forall (fun x => f x <= b) l.
Proof. induction l as [|x l IH]; simpl; intros H; constructor; [|apply IH]; lia. Qed.

(** ** The top level *)

Abbreviation top fm ck tops ms := (MkRx fm (TopLevelMapping ck) 1 tops ms None).
Abbreviation meta fm ck tops ms := (MkRx fm (MetadataMapping ck) 2 tops ms None).

(** A structured value is skipped, but for the mapping under [metadata]. *)
Lemma run_structured v fm ck tops ms :
  deep_ok 1 v ->
  match v with
  | NScalar _ => True
  | NMap _ => ck <> Some "metadata" -> run (flatten v) (top fm ck tops ms) = top fm None tops ms
  | NSeq _ => run (flatten v) (top fm ck tops ms) = top fm None tops ms
  end.
Proof.
  intros Hd. unfold deep_ok in Hd. destruct v as [s|l|m]; [done| |intros Hck]; simpl in Hd; cbn [flatten];
    rewrite run_cons, run_app.
  - change (process_event _ _) with (MkRx fm (SkippingUnknown 1) 2 tops ms None).
    rewrite skip_children; [done|]. apply (Forall_impl (fun x => height x <= 6)).
    + apply foldr_max_le. unfold MAX_DEPTH in Hd. lia.
    + intros x Hx. apply (skip_node _ _ 1 2); [done|]. unfold deep_ok, MAX_DEPTH. lia.
  - replace (process_event (EvMappingStart 0) (top fm ck tops ms))
      with (MkRx fm (SkippingUnknown 1) 2 tops ms None)
      by (unfold process_event, dispatch, on_top_level; simpl; by rewrite bool_decide_eq_false_2).
    rewrite skip_children; [done|].
    apply (Forall_impl (fun kv => Z.max (height (fst kv)) (height (snd kv)) <= 6)).
    + apply foldr_max_le. unfold MAX_DEPTH in Hd. lia.
    + intros [k v] Hx. simpl in Hx. simpl. rewrite run_app, (skip_node k _ 1 2), (skip_node v _ 1 2);
        try done; unfold deep_ok, MAX_DEPTH; lia.
Qed.

Lemma meta_key k fm tops ms :
  process_event (EvScalar k 0) (meta fm None tops ms) =
  if bool_decide (k ∈ ms) then set_error (DuplicateKey k) (meta fm None tops ms)
  else if reserved k then set_error (ReservedMetadataKey k) (meta fm None tops ({[k]} ∪ ms))
  else meta fm (Some k) tops ({[k]} ∪ ms).
Proof. done. Qed.

Lemma meta_structured ev k fm tops ms :
  ev = EvMappingStart 0 \/ ev = EvSequenceStart 0 ->
  rx_error (process_event ev (meta fm k tops ms)) = Some (structured_metadata (default EmptyString k)).
Proof.
  unfold structured_metadata. intros [-> | ->]; unfold process_event, dispatch, on_metadata; simpl;
    by case_bool_decide.
Qed.

Lemma run_metadata m fm tops ms :
  match read_metadata ms m fm with
  | Ok fm' => exists ms', run (flat_map (fun kv => flatten (fst kv) ++ flatten (snd kv)) m)
                            (meta fm None tops ms) = meta fm' None tops ms'
  | Err e => rx_error (run (flat_map (fun kv => flatten (fst kv) ++ flatten (snd kv)) m)
                         (meta fm None tops ms)) = Some e
  end.
Proof.
  assert (Hstop : forall ev evs rx e, rx_error (process_event ev rx) = Some e ->
    rx_error (run (ev :: evs) rx) = Some e).
  { intros ev evs rx e He. by rewrite run_cons, (run_error _ _ e He). }
  revert fm ms. induction m as [|[k v] m IH]; intros fm ms; [by exists ms|].
  destruct k as [k|l|l]; simpl; [|by apply Hstop, meta_structured; right|by apply Hstop, meta_structured; left].
  case_bool_decide as Hk; [apply Hstop; rewrite meta_key; by rewrite bool_decide_eq_true_2|].
  destruct (reserved k) eqn:Er; [apply Hstop; rewrite meta_key; by rewrite bool_decide_eq_false_2, Er|].
  rewrite run_cons, meta_key, bool_decide_eq_false_2, Er by done.
  destruct v as [s|l|l]; simpl; [apply IH|apply Hstop, meta_structured..]; auto.
Qed.

Lemma top_key k fm tops ms :
  process_event (EvScalar k 0) (top fm None tops ms) =
  if bool_decide (k ∈ tops) then set_error (DuplicateKey k) (top fm None tops ms)
  else top fm (Some k) ({[k]} ∪ tops) ms.
Proof. done. Qed.

Lemma run_entries entries fm tops ms :
  Forall (fun kv => deep_ok 1 (snd kv)) entries -> (ms = ∅ \/ "metadata" ∈ tops) ->
  match read_entries tops entries fm with
  | Ok fm' => exists tops' ms', run (flat_map entry_events entries) (top fm None tops ms)
                                = top fm' None tops' ms'
  | Err e => rx_error (run (flat_map entry_events entries) (top fm None tops ms)) = Some e
  end.
Proof.
  intros Hd. revert fm tops ms. induction Hd as [|[k v] entries Hv _ IH]; intros fm tops ms Hms;
    [by eexists _, _|].
  change (flat_map entry_events ((k, v) :: entries))
    with (EvScalar k 0 :: flatten v ++ flat_map entry_events entries).
  cbn [read_entries]. rewrite run_cons, top_key.
  case_bool_decide as Hk; [by rewrite (run_error _ _ (DuplicateKey k))|]. rewrite run_app.
  assert (Hms' : forall ms', ms' = ms \/ k = "metadata" -> ms' = ∅ \/ "metadata" ∈ {[k]} ∪ tops)
    by (intros ms' [-> | ->]; set_solver).
  pose proof (run_structured v fm (Some k) ({[k]} ∪ tops) ms Hv) as Hst. destruct v as [s|l|m].
  - apply IH, Hms'. by left.
  - rewrite Hst. apply IH, Hms'. by left.
  - case_bool_decide as Hkm; [|rewrite Hst by congruence; apply IH, Hms'; by left].
    subst k. destruct Hms as [-> | ?]; [|done]. cbn [flatten]. rewrite run_cons, run_app.
    change (process_event (EvMappingStart 0) _) with (meta fm None ({["metadata"]} ∪ tops) ∅).
    pose proof (run_metadata m fm ({["metadata"]} ∪ tops) ∅) as Hm.
    destruct (read_metadata ∅ m fm) as [fm'|e]; simpl.
    + destruct Hm as [ms' ->]. apply IH, Hms'. by right.
    + by rewrite (run_error [_] _ e), (run_error _ _ e).
Qed.

Lemma entries_no_end entries :
  Forall (fun ev => is_stream_end ev = false) (flat_map entry_events entries).
Proof.
  induction entries as [|[k v] entries IH]; [constructor|]. simpl. constructor; [done|].
  apply Forall_app. split; [apply flatten_no_end|done].
Qed.

(** C32: The event machine reads the document: for a manifest that is a mapping with scalar
    keys, nested at most eight deep, the pull loop ends with exactly what the tree says,
    the first error included.  The tree refuses keys repeated at the top or in the metadata, and reserved
    or structured metadata; it ignores the structured values of other keys as a whole, so that a
    key repeated inside one of those is not refused. *)
Theorem frontmatter_machine_refines_tree entries :
  Forall (fun kv => deep_ok 1 (snd kv)) entries ->
  pull (Ok <$> document entries) receiver_new = Some (read_entries ∅ entries no_frontmatter).
Proof.
  intros Hd. unfold document. rewrite fmap_app, pull_run; [|done|by repeat constructor].
  change (run _ receiver_new) with (top no_frontmatter None ∅ ∅). cbn [rx_error].
  rewrite fmap_app, pull_run; [|done|apply entries_no_end].
  pose proof (run_entries entries no_frontmatter ∅ ∅ Hd (or_introl eq_refl)) as H.
  destruct (read_entries ∅ entries no_frontmatter) as [fm|e].
  - destruct H as (tops & ms & ->). done.
  - by rewrite H.
Qed.

(** ** The fences *)

(** Lines, each with its newline. *)
Definition unlines (ls : list string) : string :=
  foldr (fun l s => l +:+ String newline s) EmptyString ls.

(** A line of the frontmatter: no newline, no carriage return at its end, not a fence. *)
Definition plain_line (l : string) : Prop :=
  contains newline l = false /\ strip_cr l = l /\ l <> fence.

Lemma split_line l s :
  contains newline l = false -> split newline (l +:+ String newline s) = l :: split newline s.
Proof.
  induction l as [|a l IH]; intros H; simpl in *.
  - destruct (split newline s) eqn:E; by rewrite ?bool_decide_eq_true_2.
  - apply contains_false in H. simpl in H. apply andb_true_iff in H as [Ha Hl].
    assert (Hc : contains newline l = false) by (apply contains_false; done).
    rewrite (IH Hc). apply negb_true_iff, bool_decide_eq_false in Ha.
    by rewrite bool_decide_eq_false_2.
Qed.

Lemma lines_cons l s :
  contains newline l = false -> lines (l +:+ String newline s) = strip_cr l :: lines s.
Proof.
  intros H. unfold lines. rewrite split_line by done. simpl.
  destruct (split newline s) eqn:E; [|done]. destruct s as [|a s]; simpl in E; [done|].
  destruct (bool_decide _); [done|]. by destruct (split newline s).
Qed.

Lemma strip_prefix_app p s : strip_prefix p (p +:+ s) = Some s.
Proof. induction p as [|a p IH]; simpl; [by destruct s|]. by rewrite bool_decide_eq_true_2. Qed.

Lemma get_app pre a t : String.get (String.length pre) (pre +:+ String a t) = Some a.
Proof. induction pre as [|b pre IH]; [done|]. exact IH. Qed.

Lemma substring_all s : String.substring 0 (String.length s) s = s.
Proof. rewrite <- (str_app_nil_r s) at 2. apply substring_prefix. Qed.

Lemma substring_suffix pre s :
  String.substring (String.length pre) (String.length s) (pre +:+ s) = s.
Proof. induction pre as [|a pre IH]; [apply substring_all|]. exact IH. Qed.

Lemma fence_loop_at ls more rest pre :
  Forall plain_line ls ->
  fence_loop (pre +:+ (unlines ls +:+ rest)) (ls ++ fence :: more) (String.length pre)
  = Some (String.length pre + String.length (unlines ls))%nat.
Proof.
  intros H. revert pre. induction H as [|l ls (_ & _ & Hl) _ IH]; intros pre.
  - simpl. by rewrite Nat.add_0_r.
  - change (unlines (l :: ls)) with (l +:+ String newline (unlines ls)).
    simpl fence_loop. rewrite bool_decide_eq_false_2 by done.
    set (s := pre +:+ ((l +:+ String newline (unlines ls)) +:+ rest)).
    assert (Hs : s = (pre +:+ l) +:+ String newline (unlines ls +:+ rest)).
    { unfold s. rewrite <- (str_app_assoc l). simpl. by rewrite str_app_assoc. }
    assert (Hat : String.get (String.length pre + String.length l) s = Some newline)
      by (rewrite Hs, <- str_length_app; apply get_app).
    unfold byte_at. rewrite Hat, (bool_decide_eq_false_2 (Some newline = Some carriage_return)) by discriminate.
    rewrite Hat, bool_decide_eq_true_2 by done.
    replace s with (((pre +:+ l) +:+ String newline EmptyString) +:+ (unlines ls +:+ rest))
      by (rewrite Hs; by rewrite <- (str_app_assoc (pre +:+ l) (String newline EmptyString))).
    replace (S (String.length pre + String.length l))
      with (String.length ((pre +:+ l) +:+ String newline EmptyString))
      by (rewrite !str_length_app; simpl; lia).
    rewrite IH. f_equal. rewrite !str_length_app. simpl. lia.
Qed.

Lemma lines_unlines ls s : Forall plain_line ls -> lines (unlines ls +:+ s) = ls ++ lines s.
Proof.
  induction 1 as [|l ls (Hn & Hc & _) _ IH]; [done|].
  change (unlines (l :: ls) +:+ s) with ((l +:+ String newline (unlines ls)) +:+ s).
  rewrite <- str_app_assoc. change (String newline (unlines ls) +:+ s) with (String newline (unlines ls +:+ s)).
  by rewrite lines_cons, Hc, IH.
Qed.

(** The manifest is what stands between the first two fences: for lines of which none is a
    fence, the part between the opening fence and the next one is given to the YAML
    parser unchanged, and the rest is the body, fences in it included. *)
Theorem split_frontmatter_exact ls body :
  Forall plain_line ls ->
  split_frontmatter (fence +:+ String newline (unlines ls +:+ (fence +:+ String newline body)))
  = Ok (unlines ls, body).
Proof.
  intros H. set (nl := fence +:+ String newline EmptyString).
  assert (Hnl : forall s, fence +:+ String newline s = nl +:+ s) by done.
  unfold split_frontmatter, strip_fence_line. rewrite !Hnl, strip_prefix_app. cbn [ok_or mbind result_bind].
  unfold find_closing_fence. rewrite lines_unlines by done.
  change (nl +:+ body) with (fence +:+ String newline body). rewrite lines_cons by done.
  pose proof (fence_loop_at ls (lines body) (fence +:+ String newline body) EmptyString H) as Hf.
  change (EmptyString +:+ (unlines ls +:+ (fence +:+ String newline body)))
    with (unlines ls +:+ (fence +:+ String newline body)) in Hf.
  change (strip_cr fence) with fence. change 0%nat with (String.length EmptyString). rewrite Hf.
  change (String.length EmptyString + String.length (unlines ls))%nat with (String.length (unlines ls)).
  rewrite substring_prefix. f_equal. f_equal.
  assert (Hlen : forall x y, (String.length (x +:+ y) - String.length x)%nat = String.length y)
    by (intros x y; rewrite str_length_app; lia).
  rewrite Hlen, substring_suffix. by rewrite Hnl, strip_prefix_app.
Qed.

(** ** The narrowing list *)

Lemma set_field_allowed k s fm :
  k <> "allowed-tools" -> fm_allowed_tools (set_field k s fm) = fm_allowed_tools fm.
Proof. intros H. destruct fm. unfold set_field. repeat case_bool_decide; done. Qed.

Lemma read_metadata_allowed seen m fm fm' :
  read_metadata seen m fm = Ok fm' -> fm_allowed_tools fm' = fm_allowed_tools fm.
Proof.
  revert seen fm. induction m as [|[k v] m IH]; intros seen fm H; simpl in H; [by simplify_eq|].
  destruct k as [k|l|l]; [|done..]. case_bool_decide; [done|]. destruct (reserved k); [done|].
  destruct v; [|done..]. by apply IH in H.
Qed.

Lemma read_entry_allowed k v fm fm' :
  k <> "allowed-tools" \/ (forall s, v <> NScalar s) ->
  match v with
  | NScalar s => Ok (set_field k s fm)
  | NMap m => if bool_decide (k = "metadata") then read_metadata ∅ m fm else Ok fm
  | NSeq _ => Ok fm
  end = Ok fm' -> fm_allowed_tools fm' = fm_allowed_tools fm.
Proof.
  intros Hkv H. destruct v as [s|l|m].
  - injection H as <-. apply set_field_allowed. destruct Hkv as [?|Hs]; [done|]. by destruct (Hs s).
  - by injection H as <-.
  - case_bool_decide; [by eapply read_metadata_allowed|by injection H as <-].
Qed.

(** Once the key has been seen, or has a structured value, nothing sets the list. *)
Lemma read_entries_allowed seen entries fm fm' :
  read_entries seen entries fm = Ok fm' ->
  "allowed-tools" ∈ seen \/ (exists v, ("allowed-tools", v) ∈ entries /\ forall s, v <> NScalar s) ->
  fm_allowed_tools fm' = fm_allowed_tools fm.
Proof.
  revert seen fm. induction entries as [|[k v] entries IH]; intros seen fm H Hor; simpl in H.
  - by simplify_eq.
  - case_bool_decide as Hk; [done|]. apply res_bind_Ok in H as (fm1 & H1 & H2).
    destruct (decide (k = "allowed-tools")) as [->|Hne].
    + destruct Hor as [?|(v' & Hin & Hs)]; [done|]. rewrite (IH _ _ H2) by (left; set_solver).
      apply elem_of_cons in Hin as [[= ->]|Hin]; [by eapply read_entry_allowed; [right|]|].
      exfalso. clear IH H1. revert Hin H2. clear Hk. assert (Hsn : "allowed-tools" ∈ {["allowed-tools"]} ∪ seen) by set_solver.
      revert Hsn. generalize ({["allowed-tools"]} ∪ seen) as seen'. revert fm1.
      induction entries as [|[k2 v2] entries IH]; intros fm1 seen' Hsn Hin H2; [by apply not_elem_of_nil in Hin|].
      simpl in H2. case_bool_decide as Hk2; [done|]. apply res_bind_Ok in H2 as (fm2 & _ & H2).
      apply elem_of_cons in Hin as [[= <- <-]|Hin]; [done|].
      eapply (IH fm2 ({[k2]} ∪ seen')); [set_solver|done|done].
    + rewrite (IH _ _ H2); [by eapply read_entry_allowed; [left|]|].
      destruct Hor as [?|(v' & Hin & Hs)]; [left; set_solver|right].
      apply elem_of_cons in Hin as [Heq|Hin]; [congruence|eauto].
Qed.

(** ** The loop ends *)

(** What the parser promises: an error or the end of the stream comes. *)
Definition stops (tokens : list (result string Event)) : Prop :=
  exists evs rest, tokens = (Ok <$> evs) ++ rest /\
    (exists e more, rest = Err e :: more \/ rest = Ok EvStreamEnd :: more).

Lemma pull_ends tokens rx : stops tokens -> exists r, pull tokens rx = Some r.
Proof.
  intros (evs & rest & -> & e & more & Hr). revert rx. induction evs as [|ev evs IH]; intros rx.
  - destruct Hr as [-> | ->]; simpl; [by eexists|]. destruct (rx_error _); by eexists.
  - simpl. destruct (rx_error _); [by eexists|]. destruct (is_stream_end ev); [by eexists|]. apply IH.
Qed.

(** ** What an accepted manifest cannot have *)

Definition anchored (ev : Event) : bool :=
  match ev with
  | EvAlias _ => true
  | EvScalar _ a | EvSequenceStart a | EvMappingStart a => negb (a =? 0)
  | _ => false
  end.

Definition metadata_ok (rx : FrontmatterReceiver) : Prop :=
  (forall k, is_Some (fm_metadata (rx_frontmatter rx) !! k) -> reserved k = false) /\
  (forall k, rx_state rx = MetadataMapping (Some k) -> reserved k = false).

Lemma process_metadata_ok ev rx :
  metadata_ok rx -> metadata_ok (process_event ev rx).
Proof.
  intros [Hm Hk]. unfold process_event. destruct (rx_error rx); [done|].
  assert (Hpre : forall rx' go, pre_dispatch ev rx = (rx', go) ->
    rx_frontmatter rx' = rx_frontmatter rx /\ (go = true -> rx_state rx' = rx_state rx) /\
    (go = false -> rx_state rx' = Done)).
  { intros rx' go. destruct ev; simpl; repeat case_match; by intros [= <- <-]. }
  destruct (pre_dispatch ev rx) as [rx' go] eqn:E. destruct (Hpre _ _ eq_refl) as (Hf & Hs & Hd).
  destruct go.
  2:{ split; [by rewrite Hf|]. intros k. by rewrite Hd. }
  rewrite <- Hf in Hm. rewrite <- (Hs eq_refl) in Hk. clear E Hpre Hf Hs Hd rx.
  unfold dispatch. destruct (rx_state rx') as [|ck|ck|rd|] eqn:Est; [| | | |by split; [|rewrite Est]].
  - unfold on_init. destruct ev; split; simpl; try done; try (by rewrite Est).
  - unfold on_top_level. destruct ev; try (by split; simpl; [|rewrite ?Est]).
    + destruct ck as [key|]; [|case_bool_decide; by split].
      split; simpl; [|done]. intros k Hin. apply Hm. revert Hin. destruct (rx_frontmatter rx').
      unfold set_field. by repeat case_bool_decide.
    + case_bool_decide; by split.
  - unfold on_metadata. destruct ev; try (by split; simpl; [|rewrite ?Est]);
      try (case_bool_decide; by split).
    destruct ck as [key|].
    + split; simpl; [|done]. intros k [v Hv]. destruct (decide (k = key)) as [->|Hne].
      * by apply Hk.
      * rewrite lookup_insert_ne in Hv by done. apply Hm. by eexists.
    + case_bool_decide; [by split|]. change (starts_with_str _ _ && _) with (reserved value).
      destruct (reserved value) eqn:Er; [by split|]. split; simpl; [done|]. by intros k [= <-].
  - unfold on_skipping. destruct ev; try (by split; [|rewrite Est]);
      destruct (_ =? _); by split; simpl; rewrite ?Est.
Qed.

Lemma pull_accepts tokens rx fm :
  metadata_ok rx -> pull tokens rx = Some (Ok fm) ->
  (exists evs rest, tokens = (Ok <$> evs) ++ rest /\ Forall (fun ev => anchored ev = false) evs /\
     last evs = Some EvStreamEnd) /\
  forall k, is_Some (fm_metadata fm !! k) -> reserved k = false.
Proof.
  revert rx. induction tokens as [|[ev|e] tokens IH]; intros rx Hok H; [done| |done]. simpl in H.
  destruct (rx_error (process_event ev rx)) eqn:Ee; [done|].
  assert (Ha : anchored ev = false).
  { apply not_true_iff_false. intros Ha. unfold process_event in Ee.
    destruct (rx_error rx) eqn:Er; [congruence|].
    destruct ev; simpl in Ha; try done; simpl in Ee; rewrite ?Ha in Ee; simpl in Ee; by rewrite Er in Ee. }
  apply (process_metadata_ok ev) in Hok. destruct (is_stream_end ev) eqn:Ese.
  - injection H as <-. split; [|apply Hok]. exists [ev], tokens. split_and!; [done|by repeat constructor|].
    by destruct ev.
  - destruct (IH _ Hok H) as [(evs & rest & -> & Hf & Hl) Hm]. split; [|done].
    exists (ev :: evs), rest. split_and!; [done|by constructor|]. by destruct evs.
Qed.

(** ** Manifests *)

Section manifests.
Context `{YA : !Yaml}.

(** Reading a manifest ends, given that the YAML parser ends, and an accepted one is
    harmless: the file has at most 256 KiB, the name is the directory's, no event
    carried an anchor or an alias, no metadata key other than the capability key
    is reserved, and the capabilities are those of that key alone. *)
Theorem accepted_manifest_sound dir_name file :
  (forall yaml, stops (next_tokens yaml)) ->
  exists r, parse_toolset dir_name file = Some r /\
  forall ts, r = Ok ts ->
    ts_name ts = dir_name /\
    (exists content yaml body evs rest, fr_content file = Ok content /\ len content <= MAX_FILE_BYTES /\
       split_frontmatter content = Ok (yaml, body) /\ ts_instructions ts = body /\
       next_tokens yaml = (Ok <$> evs) ++ rest /\ Forall (fun ev => anchored ev = false) evs) /\
    (forall k, is_Some (ts_metadata ts !! k) -> reserved k = false) /\
    match ts_metadata ts !! CAPABILITY_KEY with
    | Some value => parse_capability_value value = Ok (ts_capabilities ts)
    | None => ts_capabilities ts = []
    end.
Proof.
  intros Hy. unfold parse_toolset. destruct (read_size_capped file) as [content|] eqn:Er; [|by eexists].
  destruct (utf8_valid content); [|by eexists]. cbn [negb].
  destruct (split_frontmatter content) as [[yaml body]|] eqn:Es; [|by eexists].
  destruct (pull_ends (next_tokens yaml) receiver_new (Hy yaml)) as [[fm|e] Hp];
    unfold parse_frontmatter; rewrite Hp; [|by eexists].
  eexists. split; [done|]. intros ts Hts. apply pull_accepts in Hp as [(evs & rest & Ht & Ha & _) Hm].
  2:{ split; [|done]. intros k [v Hv]. simpl in Hv. by rewrite lookup_empty in Hv. }
  unfold check_frontmatter in Hts. apply res_bind_Ok in Hts as ([] & Hn & Hts).
  apply res_bind_Ok in Hts as (? & _ & Hts). apply res_bind_Ok in Hts as (? & _ & Hts).
  apply res_bind_Ok in Hts as (caps & Hc & [= <-]). simpl. split_and!.
  - unfold validate_name in Hn. apply res_bind_Ok in Hn as (n & Hn1%ok_or_Ok & Hn). rewrite Hn1. simpl.
    repeat match type of Hn with (if ?b then _ else _) = _ => destruct b eqn:?; [done|] end.
    match goal with H : negb (bool_decide (n = dir_name)) = false |- _ =>
      by apply negb_false_iff, bool_decide_eq_true in H end.
  - exists content, yaml, body, evs, rest. unfold read_size_capped in Er.
    apply res_bind_Ok in Er as (? & _ & Er). apply res_bind_Ok in Er as (sz & _ & Er).
    destruct (_ <? sz); [done|]. apply res_bind_Ok in Er as (c & Hcont%map_err_Ok & Er).
    destruct (Z.ltb_spec MAX_FILE_BYTES (Z.min (len c) (MAX_FILE_BYTES + 1))); [done|].
    injection Er as <-. split_and!; try done. lia.
  - exact Hm.
  - unfold extract_capabilities in Hc. destruct (fm_metadata fm !! CAPABILITY_KEY); [done|].
    by injection Hc as <-.
Qed.
End manifests.

(** ** Concrete manifests *)

Definition demo_entries : list (string * Node) :=
  [("name", NScalar "rebalancer"); ("description", NScalar "Keeps a reserve");
   ("metadata", NMap [(NScalar CAPABILITY_KEY, NScalar "read-balance propose-transaction")]);
   ("allowed-tools", NSeq [NScalar "stellar_balances"])].

Lemma demo_entries_flat : Forall (fun kv => deep_ok 1 (snd kv)) demo_entries.
Proof. repeat (apply Forall_cons_2; [by vm_compute|]). apply Forall_nil_2. Qed.

Lemma frontmatter_machine_refines_tree_witness :
  pull (Ok <$> document demo_entries) receiver_new = Some (read_entries ∅ demo_entries no_frontmatter).
Proof. apply frontmatter_machine_refines_tree, demo_entries_flat. Defined.

Lemma split_frontmatter_exact_witness :
  split_frontmatter (fence +:+ String newline (unlines ["name: a"; "b: c"]
                       +:+ (fence +:+ String newline "body")))
  = Ok (unlines ["name: a"; "b: c"], "body").
Proof.
  apply split_frontmatter_exact. apply Forall_cons_2; [by vm_compute|]. 
  apply Forall_cons_2; [by vm_compute|apply Forall_nil_2].
Defined.

#[local] Instance demo_yaml : Yaml := {| next_tokens _ := Ok <$> document demo_entries |}.

Definition demo_manifest : string :=
  fence +:+ String newline ("x" +:+ String newline (fence +:+ String newline "Use with care.")).

Definition demo_read : FileRead :=
  {| fr_open := None; fr_size := Ok 30; fr_content := Ok demo_manifest |}.

Lemma accepted_manifest_sound_witness :
  exists r, parse_toolset "rebalancer" demo_read = Some r /\ is_ok r = true /\
    forall ts, r = Ok ts -> ts_name ts = "rebalancer".
Proof.
  assert (Hok : match parse_toolset "rebalancer" demo_read with Some r => is_ok r | None => false end
                = true) by by vm_compute.
  destruct (accepted_manifest_sound "rebalancer" demo_read) as (r & Hr & H).
  { intros yaml. exists (removelast (document demo_entries)), [Ok EvStreamEnd]. split; [reflexivity|].
    exists EmptyString, []. right. reflexivity. }
  exists r. split; [exact Hr|]. split; [by rewrite Hr in Hok|].
  intros ts Hts. by destruct (H ts Hts).
Defined.
