(* ===== verification/ToolsetRuntime.v ===== *)
(** * Dispatch of toolset calls (stellar-agent-toolsets-runtime; pins of
      stellar-agent-toolsets-install)

    A toolset may call a tool when a capability it declared at installation
    grants it.  The tools that sign are behind the first-invoke gate: a grant in
    the grant store, or a pending approval. *)

From stdpp Require Import options.
From S2P Require Import Prelude RustStr Json Bytes Toml PolicyTypes Attestation Approval ApprovalWire ApprovalStore Attest ToolsetGrant Sanitise Capability.
Set Default Proof Using "Type*".

Local Open Scope string_scope.
Local Open Scope list_scope.
Local Open Scope Z_scope.

(** ** The matrix *)

Definition READ_BALANCE_GRANTS : list string := ["stellar_balances"].
Definition PROPOSE_TRANSACTION_GRANTS : list string :=
  ["stellar_pay"; "stellar_claim"; "stellar_rule_create"].
Definition SUGGEST_DESTINATION_GRANTS : list string :=
  ["stellar_sep47_discover"; "stellar_sep48_preview_invocation"; "stellar_sep7_parse_uri"].
Definition OBSERVE_EVENT_GRANTS : list string := [].
Definition READ_RULES_GRANTS : list string := ["stellar_rules_list"; "stellar_rules_get"].

Definition ALL_MATRIX_ENTRIES : list (string * Capability) :=
  [("stellar_balances", ReadBalance);
   ("stellar_pay", ProposeTransaction);
   ("stellar_claim", ProposeTransaction);
   ("stellar_rule_create", ProposeTransaction);
   ("stellar_sep47_discover", SuggestDestination);
   ("stellar_sep48_preview_invocation", SuggestDestination);
   ("stellar_sep7_parse_uri", SuggestDestination);
   ("stellar_rules_list", ReadRules);
   ("stellar_rules_get", ReadRules)].

Definition SIGN_PAYMENT_GATED_TOOLS : list string := ["stellar_pay_commit"].
Definition SIGN_RULE_CREATE_GATED_TOOLS : list string := ["stellar_rule_create_commit"].

Definition GATED_MATRIX_ENTRIES : list (Capability * list string) :=
  [(SignPayment, SIGN_PAYMENT_GATED_TOOLS); (SignRuleCreate, SIGN_RULE_CREATE_GATED_TOOLS)].

Definition gated_grants_for_capability (cap : Capability) : option (list string) :=
  match cap with
  | SignPayment => Some SIGN_PAYMENT_GATED_TOOLS
  | SignRuleCreate => Some SIGN_RULE_CREATE_GATED_TOOLS
  | _ => None
  end.

Definition SIGNING_DENYLIST : list string :=
  ["stellar_sep43_sign_transaction"; "stellar_sep43_sign_and_submit_transaction";
   "stellar_sep43_sign_auth_entry"; "stellar_sep43_sign_message"; "stellar_sep53_sign_message";
   "stellar_pay_commit"; "stellar_create_account_commit"; "stellar_claim_commit";
   "stellar_rule_create_commit"; "stellar_x402_create_payment"; "stellar_x402_parse_receipt";
   "stellar_x402_authenticated_payment"; "stellar_toolset_list"; "stellar_toolset_invoke"].

Definition grants_for_capability (cap : Capability) : list string :=
  match cap with
  | ReadBalance => READ_BALANCE_GRANTS
  | ProposeTransaction => PROPOSE_TRANSACTION_GRANTS
  | SuggestDestination => SUGGEST_DESTINATION_GRANTS
  | ObserveEvent => OBSERVE_EVENT_GRANTS
  | SignPayment => []
  | ReadRules => READ_RULES_GRANTS
  | SignRuleCreate => []
  end.

Inductive ToolsetRuntimeError :=
| UnknownToolsetAction (action : string)
| CapabilityNotDeclared (action capability : string)
| ToolNotAllowed (tool action : string)
| ToolsetNotInstalled (name : string)
| TrIo (detail : string)
| ContentDigestMismatch (name : string)
| GrantStoreError (detail : string)
| InvalidAuthoritativeAmount (amount_stroops : Z).

Fixpoint resolve_in (entries : list (string * Capability)) (action : string)
  : result ToolsetRuntimeError (string * Capability) :=
  match entries with
  | [] => Err (UnknownToolsetAction (sanitise_display action 128))
  | (tool, cap) :: rest => if bool_decide (tool = action) then Ok (tool, cap) else resolve_in rest action
  end.

Definition resolve_action (action : string) : result ToolsetRuntimeError (string * Capability) :=
  resolve_in ALL_MATRIX_ENTRIES action.

Fixpoint resolve_gated_in (entries : list (Capability * list string)) (action : string)
  : result ToolsetRuntimeError (string * Capability) :=
  match entries with
  | [] => Err (UnknownToolsetAction (sanitise_display action 128))
  | (cap, tools) :: rest =>
      match List.find (fun tool => bool_decide (tool = action)) tools with
      | Some tool => Ok (tool, cap)
      | None => resolve_gated_in rest action
      end
  end.

Definition resolve_gated_action (action : string) : result ToolsetRuntimeError (string * Capability) :=
  resolve_gated_in GATED_MATRIX_ENTRIES action.

Definition allowed_by_narrowing (allowed_tools : list string) (tool : string) : bool :=
  bool_decide (allowed_tools = []) || existsb (fun t => bool_decide (t = tool)) allowed_tools.

Definition check_toolset_action (action : string) (capabilities : CapabilitySet)
    (allowed_tools : list string) : result ToolsetRuntimeError string :=
  '(tool_name, granting_capability) ← resolve_action action;
  if negb (set_contains capabilities granting_capability)
  then Err (CapabilityNotDeclared (sanitise_display action 128)
              (Capability_to_string granting_capability))
  else if negb (bool_decide (allowed_tools = []))
          && negb (existsb (fun t => bool_decide (t = tool_name)) allowed_tools)
  then Err (ToolNotAllowed (sanitise_display tool_name 128) (sanitise_display action 128))
  else Ok tool_name.

(** ** Pins *)

Inductive ToolsetInstallError :=
| InstallIo (detail : string)
| PackageTooLarge (cap : Z)
| HashMismatch
| SignatureInvalid
| UntrustedPublisher (publisher_key_redacted : string)
| TrustSetEmpty
| TrustSetMalformed (detail : string)
| InvalidVersion (detail : string)
| InvalidShasum (detail : string)
| InvalidPackageName (detail : string)
| ArchivePathTraversal (entry_name : string)
| ArchiveEntryNameInvalid (detail : string)
| ArchiveDisallowedEntryType
| ArchiveDuplicateEntry (entry_name : string)
| ArchiveTooManyEntries (cap : Z)
| ArchiveEntryTooLarge (cap : Z)
| ArchiveTooLarge (cap : Z)
| ArchiveTrailingData
| ArchiveBadTopLevel (detail : string)
| ToolsetFormat (e : ToolsetFormatError)
| IdentityMismatch (field extracted expected : string)
| AlreadyInstalled (package installed_version : string)
| VersionDowngrade (new_version installed_version : string)
| NotInstalled (package : string)
| PinRecordMalformed (detail : string)
| ToolsetsRootInvalid (detail : string)
| AttestationRequired (package : string)
| AttestationInvalid (detail : string)
| AuditorUntrusted (auditor_key_redacted : string)
| AttestationFieldMismatch (field : string).

Definition install_error_kind_str (e : ToolsetInstallError) : string :=
  match e with
  | InstallIo _ => "io_error"
  | PinRecordMalformed _ => "pin_record_malformed"
  | _ => "install_error"
  end.

Record ToolsetPinRecord := {
  pin_package : string;
  pin_version : string;
  pin_shasum : string;
  pin_publisher : string;
  pin_installed_at : string;
  pin_capabilities : CapabilitySet;
  pin_allowed_tools : list string;
  toolset_md_shasum : option string;
}.

Definition pin_to_json (p : ToolsetPinRecord) : JsonValue :=
  JObject [("package", JString (pin_package p)); ("version", JString (pin_version p));
           ("shasum", JString (pin_shasum p)); ("publisher", JString (pin_publisher p));
           ("installed_at", JString (pin_installed_at p));
           ("capabilities", CapabilitySet_serialize (pin_capabilities p));
           ("allowed_tools", JArray (JString <$> pin_allowed_tools p));
           ("toolset_md_shasum", match toolset_md_shasum p with Some s => JString s | None => JNull end)].

Definition string_field (v : JsonValue) (key : string) : option string := jget v key ≫= Json.as_str.

(** The derived reader: five required strings and three defaults. *)
Definition pin_from_json (v : JsonValue) : option ToolsetPinRecord :=
  package ← string_field v "package";
  version ← string_field v "version";
  shasum ← string_field v "shasum";
  publisher ← string_field v "publisher";
  installed_at ← string_field v "installed_at";
  capabilities ← match jget v "capabilities" with
                 | None => Some []
                 | Some c => ok (CapabilitySet_deserialize c)
                 end;
  allowed_tools ← match jget v "allowed_tools" with
                  | None => Some []
                  | Some (JArray l) => mapM Json.as_str l
                  | Some _ => None
                  end;
  md ← match jget v "toolset_md_shasum" with
       | None | Some JNull => Some None
       | Some (JString s) => Some (Some s)
       | Some _ => None
       end;
  Some {| pin_package := package; pin_version := version; pin_shasum := shasum;
          pin_publisher := publisher; pin_installed_at := installed_at;
          pin_capabilities := capabilities; pin_allowed_tools := allowed_tools;
          toolset_md_shasum := md |}.

(** A file of the toolset directory: absent, unreadable, or its text. *)
Inductive FileAnswer := FileAbsent | FileError (detail : string) | FileText (text : string).

(** The toolset directory: the pin and [TOOLSET.md] of a package. *)
Record ToolsetsRoot := { pin_file : string -> FileAnswer; toolset_md : string -> FileAnswer }.

Section runtime.
(** [serde_json::from_str], and [{ch:?}] of a character. *)
Variable json_from_str : string -> option JsonValue.
Variable debug_char : string -> string.

Definition is_package_char (c : string) : bool :=
  match c with String a EmptyString => is_valid_token_char a | _ => false end.

Definition validate_package_name (name : string) : result string unit :=
  if is_empty name then Err "package name is empty"
  else if 64 <? len name then Err "package name exceeds 64 characters"
  else match List.find (fun ch => negb (is_package_char ch)) (chars name) with
       | Some ch => Err ("package name contains invalid character " +:+ debug_char ch)
       | None =>
           if starts_with "-" name || ends_with "-" name
           then Err "package name must not start or end with a hyphen"
           else if contains_str "--" name
           then Err "package name must not contain consecutive hyphens"
           else Ok tt
       end.

Definition read_pin (package : string) (root : ToolsetsRoot)
  : result ToolsetInstallError (option ToolsetPinRecord) :=
  _ ← map_err InvalidPackageName (validate_package_name package);
  match pin_file root package with
  | FileAbsent => Ok None
  | FileError e => Err (InstallIo e)
  | FileText content =>
      record ← ok_or (PinRecordMalformed ("pin record for '" +:+ package +:+ "' is not valid JSON"))
                 (json_from_str content ≫= pin_from_json);
      match validate_package_name (pin_package record) with
      | Err reason =>
          Err (PinRecordMalformed ("pin record package name '"
                 +:+ sanitise_display (pin_package record) 64 +:+ "' is invalid: " +:+ reason))
      | Ok _ => Ok (Some record)
      end
  end.

Definition installed_pin (toolset_name : string) (root : ToolsetsRoot)
  : result ToolsetRuntimeError ToolsetPinRecord :=
  _ ← map_err (fun _ => ToolsetNotInstalled (sanitise_display toolset_name 64))
        (validate_package_name toolset_name);
  pin ← map_err (fun e => TrIo (install_error_kind_str e)) (read_pin toolset_name root);
  ok_or (ToolsetNotInstalled (sanitise_display toolset_name 64)) pin.

Section digest.
Context `{SH : !Sha2}.

Definition sha256_hex_of (text : string) : string := encode (sha256 (as_bytes text)).

Definition check_content (toolset_name : string) (pin : ToolsetPinRecord) (root : ToolsetsRoot)
  : result ToolsetRuntimeError unit :=
  match toolset_md_shasum pin with
  | None => Ok tt
  | Some expected_digest =>
      match toolset_md root toolset_name with
      | FileText text =>
          if bool_decide (sha256_hex_of text = expected_digest) then Ok tt
          else Err (ContentDigestMismatch (sanitise_display toolset_name 64))
      | _ => Err (ContentDigestMismatch (sanitise_display toolset_name 64))
      end
  end.

Definition resolve_toolset_and_check (toolset_name action : string) (root : ToolsetsRoot)
  : result ToolsetRuntimeError (string * ToolsetPinRecord) :=
  pin ← installed_pin toolset_name root;
  _ ← check_content toolset_name pin root;
  tool_name ← check_toolset_action action (pin_capabilities pin) (pin_allowed_tools pin);
  Ok (tool_name, pin).
End digest.

(** ** The first-invoke gate *)

Record GatedInvokeParams := {
  gp_toolset_name : string;
  gp_action : string;
  gp_authoritative_destination : string;
  gp_authoritative_asset : string;
  gp_authoritative_amount_stroops : Z;
  gp_now_unix_ms : Z;
  gp_process_uid : string;
}.

Inductive GatedResolveOutcome :=
| Resolved (tool_name : string)
| FirstInvokeApprovalRequired (approval_nonce toolset_name capability : string).

Context {GText AText : Type} `{GR : !TomlRecords ToolsetGrant GText, TF : !TomlFile AText}.
Context `{ED : !EscapeDebug, BB : !Base64}.
(** The text of an [ApprovalError]. *)
Variable show_error : ApprovalError -> string.

(** What the gate meets: where the stores are, their files, the randomness and the
    clock of a new approval, and the attempts to open the approval store. *)
Record GateEnv := {
  gn_grants_path : option string;
  gn_grants_env : GrantsEnv;
  gn_raw : list Z;
  gn_clock : result ApprovalError Z;
  gn_approval_path : bool;
  gn_open_env : Z -> OpenEnv;
  gn_fault : Fault;
}.

#[local] Abbreviation Run A := (result ToolsetRuntimeError A * option AText)%type.

(** The part before the gate: the pin, the gated matrix, the declaration, the
    narrowing and the amount. *)
Definition gated_checks (root : ToolsetsRoot) (params : GatedInvokeParams)
  : result ToolsetRuntimeError (string * Capability) :=
  let action := gp_action params in
  pin ← installed_pin (gp_toolset_name params) root;
  '(tool_name, granting_capability) ← resolve_gated_action action;
  if negb (set_contains (pin_capabilities pin) granting_capability)
  then Err (CapabilityNotDeclared (sanitise_display action 128)
              (Capability_to_string granting_capability))
  else if negb (allowed_by_narrowing (pin_allowed_tools pin) tool_name)
  then Err (ToolNotAllowed (sanitise_display tool_name 128) (sanitise_display action 128))
  else if gp_authoritative_amount_stroops params <=? 0
  then Err (InvalidAuthoritativeAmount (gp_authoritative_amount_stroops params))
  else Ok (tool_name, granting_capability).

(** No grant: an approval is queued. *)
Definition queue_approval (env : GateEnv) (params : GatedInvokeParams) (capability_str : string)
    (file : option AText) : option (Run GatedResolveOutcome) :=
  match new_toolset_first_invoke_gate_pending (gn_raw env) (gn_clock env) (gp_toolset_name params)
          capability_str (gp_authoritative_destination params) (gp_authoritative_asset params)
          0 (gp_authoritative_amount_stroops params) (gp_process_uid params) DEFAULT_TTL_MS with
  | Err e => Some (Err (TrIo ("new_toolset_gate_pending: " +:+ show_error e)), file)
  | Ok pending =>
      if negb (gn_approval_path env) then Some (Err (TrIo "approval_store_path: dir unavailable"), file)
      else
      match open_with_retry (Z.to_nat RETRY_DEFAULT_ATTEMPTS) RETRY_DEFAULT_ATTEMPTS
              (gn_open_env env) (fun _ => file) with
      | None => None
      | Some (Err e, _) => Some (Err (TrIo ("approval_store_open: " +:+ show_error e)), file)
      | Some (Ok store, _) =>
          match insert (gn_fault env) pending (gp_now_unix_ms params) store with
          | (Err e, store') => Some (Err (TrIo ("approval_store_insert: " +:+ show_error e)), disk store')
          | (Ok _, store') =>
              Some (Ok (FirstInvokeApprovalRequired (approval_nonce pending)
                          (sanitise_display (gp_toolset_name params) 64)
                          (sanitise_display capability_str 64)), disk store')
          end
      end
  end.

(** The outcome and the file of the approval store after it. *)
Definition resolve_toolset_sign_payment_gated (root : ToolsetsRoot) (env : GateEnv)
    (params : GatedInvokeParams) (grants_file : option GText) (file : option AText)
  : option (Run GatedResolveOutcome) :=
  match gated_checks root params with
  | Err e => Some (Err e, file)
  | Ok (tool_name, granting_capability) =>
      match gn_grants_path env with
      | Some e => Some (Err (GrantStoreError ("grant_store_path: " +:+ e)), file)
      | None =>
          match grants_open (gn_grants_env env) grants_file (gp_now_unix_ms params) with
          | Err e => Some (Err (GrantStoreError ("open: " +:+ show_error e)), file)
          | Ok grant_store =>
              let capability_str := Capability_to_string granting_capability in
              match find_matching grant_store (gp_toolset_name params) capability_str
                      (gp_authoritative_destination params) (gp_authoritative_asset params)
                      (gp_authoritative_amount_stroops params) (gp_now_unix_ms params) with
              | Some _ => Some (Ok (Resolved tool_name), file)
              | None => queue_approval env params capability_str file
              end
          end
      end
  end.

(** ** Recording the answer *)

Section record.
Context `{SH : !Sha2}.

Definition record_first_invoke_grant (path : option string) (env : GrantsEnv) (fault : Fault)
    (raw : list Z) (toolset_name capability destination asset : string)
    (amount_min_stroops amount_max_stroops : Z) (process_uid : string) (now_unix_ms : Z)
    (attestation_key : list Z) (binding : AttestationBinding) (file : option GText)
  : result ToolsetRuntimeError ToolsetGrant * option GText :=
  match build_attested_grant raw toolset_name capability destination asset amount_min_stroops
          amount_max_stroops process_uid now_unix_ms TOOLSET_GRANT_DEFAULT_TTL_MS attestation_key
          binding with
  | Err e => (Err (GrantStoreError ("build_attested_grant: " +:+ show_error e)), file)
  | Ok grant =>
      match path with
      | Some e => (Err (GrantStoreError ("grant_store_path: " +:+ e)), file)
      | None =>
          match grants_open env file now_unix_ms with
          | Err e => (Err (GrantStoreError ("open: " +:+ show_error e)), file)
          | Ok store =>
              match grants_insert fault grant store with
              | (Err e, store') => (Err (GrantStoreError ("insert: " +:+ show_error e)), grants_disk store')
              | (Ok _, store') => (Ok grant, grants_disk store')
              end
          end
      end
  end.

(** The closure the approve command hands to [attest_and_persist] (stellar-agent-cli). *)
Definition persist_grant (show_runtime_error : ToolsetRuntimeError -> string) (path : option string)
    (env : GrantsEnv) (fault : Fault) (raw : list Z) (req : ToolsetGrantRequest) (key : list Z)
    (file : option GText) : result string unit * option GText :=
  match record_first_invoke_grant path env fault raw (tgr_toolset_name req) (tgr_capability req)
          (tgr_destination req) (tgr_asset req) (tgr_amount_min_stroops req)
          (tgr_amount_max_stroops req) (tgr_process_uid req) (tgr_now_unix_ms req) key
          (tgr_binding req) file with
  | (Ok _grant, file') => (Ok tt, file')
  | (Err e, file') => (Err (show_runtime_error e), file')
  end.
End record.

(** ** The listing *)

Record ToolsetListEntry := {
  tl_name : string;
  tl_description : string;
  tl_capabilities : list string;
  tl_allowed_tools : list string;
  tl_version : string;
  tl_actions : list string;
}.

(** The actions of one capability, added to those found before. *)
Definition add_actions (allowed_tools : list string) (actions : list string) (cap : Capability)
  : list string :=
  foldl (fun actions tool =>
           if allowed_by_narrowing allowed_tools tool
           then let sanitised := sanitise_display tool 128 in
                if existsb (fun a => bool_decide (a = sanitised)) actions then actions
                else actions ++ [sanitised]
           else actions) actions (grants_for_capability cap).

Definition pin_to_list_entry (pin : ToolsetPinRecord) : ToolsetListEntry :=
  {| tl_name := sanitise_display (pin_package pin) 64;
     tl_description := EmptyString;
     tl_capabilities := Capability_to_string <$> pin_capabilities pin;
     tl_allowed_tools := (fun t => sanitise_display t 128) <$> pin_allowed_tools pin;
     tl_version := sanitise_display (pin_version pin) 64;
     tl_actions := sort_strings (foldl (add_actions (pin_allowed_tools pin)) [] (pin_capabilities pin)) |}.
End runtime.
