(* ===== verification/ToolsetProps.v ===== *)
(** * Toolsets: what a declaration and a grant allow *)

From stdpp Require Import gmap strings.
From stdpp Require Import options.
From S2P Require Import Prelude RustStr Json Bytes RuleProposal Toml PolicyTypes Attestation Approval ApprovalWire ApprovalStore ApprovalWireProps ApprovalDemo ApprovalStoreProps Attest AttestProps ToolsetGrant Sanitise Capability Frontmatter FrontmatterProps ToolsetRuntime.
Set Default Proof Using "Type*".

Local Open Scope string_scope.
Local Open Scope list_scope.
Local Open Scope Z_scope.

(** ** The matrix *)

Lemma resolve_in_Ok entries action tool cap :
  NoDup (fst <$> entries) ->
  resolve_in entries action = Ok (tool, cap) <-> tool = action /\ (action, cap) ∈ entries.
Proof.
  induction entries as [|[t c] entries IH]; simpl; [set_solver|]. intros [Hnot Hnd]%NoDup_cons.
  case_bool_decide as Ht; [subst t|].
  - split; [intros [= <- <-]; set_solver|]. intros [-> Hin].
    apply elem_of_cons in Hin as [[= <-]|Hin]; [done|]. exfalso. apply Hnot.
    apply list_elem_of_fmap. by exists (action, cap).
  - rewrite IH by done. rewrite elem_of_cons. naive_solver.
Qed.

(** The flat table and the tables of the capabilities agree. *)
Lemma matrix_agrees action cap :
  (action, cap) ∈ ALL_MATRIX_ENTRIES <-> action ∈ grants_for_capability cap.
Proof.
  rewrite !list_elem_of_In. split.
  - intros H. repeat destruct H as [H|H]; try done; injection H as <- <-; simpl; auto.
  - destruct cap; simpl; intros H; repeat destruct H as [H|H]; try done; subst; simpl; tauto.
Qed.

Lemma matrix_nodup : NoDup (fst <$> ALL_MATRIX_ENTRIES).
Proof. by vm_compute; repeat (apply NoDup_cons_2; [set_solver|]); apply NoDup_nil_2. Qed.

Lemma narrowing_spec allowed tool :
  allowed_by_narrowing allowed tool = true <-> allowed = [] \/ tool ∈ allowed.
Proof.
  unfold allowed_by_narrowing. rewrite orb_true_iff, bool_decide_eq_true, existsb_exists.
  split; (intros [->|H]; [by left|right]).
  - destruct H as (t & Ht & ->%bool_decide_eq_true). by apply list_elem_of_In.
  - exists tool. split; [by apply list_elem_of_In|by apply bool_decide_eq_true].
Qed.

Lemma check_action_spec action caps allowed t :
  check_toolset_action action caps allowed = Ok t <->
  t = action /\ (exists cap, cap ∈ caps /\ action ∈ grants_for_capability cap) /\
  (allowed = [] \/ action ∈ allowed).
Proof.
  unfold check_toolset_action. rewrite res_bind_Ok. rewrite <- narrowing_spec. split.
  - intros ([tool cap] & Hr & H). apply resolve_in_Ok in Hr as [-> Hm]; [|apply matrix_nodup].
    destruct (set_contains caps cap) eqn:Ec; [|done]. cbn [negb] in H.
    rewrite <- negb_orb in H. change (_ || _) with (allowed_by_narrowing allowed action) in H.
    destruct (allowed_by_narrowing allowed action); [|done]. cbn [negb] in H. injection H as <-.
    split_and!; [done| |done]. exists cap. split; [by apply set_contains_spec|by apply matrix_agrees].
  - intros (-> & (cap & Hc & Hg) & Ha). exists (action, cap). split.
    + apply resolve_in_Ok; [apply matrix_nodup|]. split; [done|by apply matrix_agrees].
    + rewrite (proj2 (set_contains_spec _ _) Hc). cbn [negb]. rewrite <- negb_orb.
      change (_ || _) with (allowed_by_narrowing allowed action). by rewrite Ha.
Qed.

(** ** The listing *)

(** The names of the matrix are shown as they are. *)
Lemma matrix_names_plain cap tool :
  tool ∈ grants_for_capability cap -> sanitise_display tool 128 = tool.
Proof.
  intros H%list_elem_of_In. destruct cap; simpl in H; repeat destruct H as [<-|H]; done.
Qed.

Lemma add_actions_elem allowed actions cap x :
  x ∈ add_actions allowed actions cap <->
  x ∈ actions \/ x ∈ grants_for_capability cap /\ allowed_by_narrowing allowed x = true.
Proof.
  assert (Hp : forall t, t ∈ grants_for_capability cap -> sanitise_display t 128 = t)
    by (intros t; apply matrix_names_plain).
  unfold add_actions. revert Hp actions. generalize (grants_for_capability cap) as tools.
  induction tools as [|t tools IH]; intros Hp actions; simpl; [set_solver|].
  rewrite IH by (intros; apply Hp; by right). rewrite Hp by left.
  clear IH Hp. rewrite elem_of_cons. destruct (allowed_by_narrowing allowed t) eqn:Et.
  2:{ intuition (subst; congruence). }
  destruct (existsb _ actions) eqn:Ee.
  - apply existsb_exists in Ee as (y & Hy & ->%bool_decide_eq_true). apply list_elem_of_In in Hy.
    intuition (subst; done).
  - rewrite elem_of_app, list_elem_of_singleton. intuition (subst; auto).
Qed.

(** What the listing offers is what dispatch lets through. *)
Lemma listing_is_dispatch pin action :
  action ∈ tl_actions (pin_to_list_entry pin) <->
  check_toolset_action action (pin_capabilities pin) (pin_allowed_tools pin) = Ok action.
Proof.
  simpl. rewrite sort_strings_elem, check_action_spec, <- narrowing_spec.
  assert (H : forall caps acc, action ∈ foldl (add_actions (pin_allowed_tools pin)) acc caps <->
    action ∈ acc \/ (exists cap, cap ∈ caps /\ action ∈ grants_for_capability cap) /\
                    allowed_by_narrowing (pin_allowed_tools pin) action = true).
  { induction caps as [|cap caps IH]; intros acc; simpl.
    - split; [by left|]. intros [?|[(? & ?%not_elem_of_nil & _) _]]; done.
    - rewrite IH, add_actions_elem. setoid_rewrite elem_of_cons. split.
      + intros [[?|[? ?]]|[(c & ? & ?) ?]]; [by left|right; split; [exists cap|]; auto
          |right; split; [exists c|]; auto].
      + intros [?|[(c & [->|?] & ?) ?]]; [by left; left|left; right; done|right; split; [by exists c|done]]. }
  rewrite H. split.
  - intros [?%not_elem_of_nil|?]; [done|]. tauto.
  - tauto.
Qed.

(** Dispatch of the tools that do not sign is exactly the declaration: an action is let
    through if and only if a declared capability grants it and the narrowing list,
    when there is one, names it; the tool called is the action, and it is never one
    that signs or the dispatcher itself, whatever the toolset declares.  The listing of
    a pinned toolset offers exactly the actions that are let through. *)
Theorem ungated_dispatch_exact action caps allowed t pin :
  (check_toolset_action action caps allowed = Ok t <->
   t = action /\ (exists cap, cap ∈ caps /\ action ∈ grants_for_capability cap) /\
   (allowed = [] \/ action ∈ allowed)) /\
  (check_toolset_action action caps allowed = Ok t -> t ∉ SIGNING_DENYLIST) /\
  (action ∈ tl_actions (pin_to_list_entry pin) <->
   check_toolset_action action (pin_capabilities pin) (pin_allowed_tools pin) = Ok action).
Proof.
  split; [apply check_action_spec|]. split; [|apply listing_is_dispatch]. intros (-> & (cap & _ & Hg) & _)%check_action_spec Hd.
  apply list_elem_of_In in Hg, Hd. destruct cap; simpl in Hg, Hd;
    repeat destruct Hg as [<-|Hg]; try done; repeat destruct Hd as [Hd|Hd]; done.
Qed.

(** A narrowing list written as a YAML list narrows nothing: the value is skipped as if
    the key were unknown, the list stays empty, and dispatch then lets through every
    tool the capabilities grant. *)
Theorem list_narrowing_is_dropped entries l fm action caps :
  read_entries ∅ entries no_frontmatter = Ok fm -> ("allowed-tools", NSeq l) ∈ entries ->
  fm_allowed_tools fm = [] /\
  (check_toolset_action action caps (fm_allowed_tools fm) = Ok action <->
   exists cap, cap ∈ caps /\ action ∈ grants_for_capability cap).
Proof.
  intros H Hin. assert (Ha : fm_allowed_tools fm = []).
  { rewrite (read_entries_allowed _ _ _ _ H); [done|]. right. by exists (NSeq l). }
  split; [done|]. rewrite Ha, check_action_spec. split; [by intros (_ & ? & _)|]. intros Hc. auto.
Qed.

Lemma list_narrowing_is_dropped_witness :
  exists fm, read_entries ∅ demo_entries no_frontmatter = Ok fm /\
    check_toolset_action "stellar_pay" [ReadBalance; ProposeTransaction] (fm_allowed_tools fm)
    = Ok "stellar_pay".
Proof.
  eexists. split; [reflexivity|].
  eapply (list_narrowing_is_dropped demo_entries [NScalar "stellar_balances"]); [reflexivity| |].
  - apply list_elem_of_In. simpl. tauto.
  - exists ProposeTransaction. split; apply list_elem_of_In; simpl; tauto.
Defined.

(** ** The first-invoke gate *)

Lemma resolve_gated_Ok action tool cap :
  resolve_gated_action action = Ok (tool, cap) <->
  tool = action /\ gated_grants_for_capability cap = Some [action].
Proof.
  unfold resolve_gated_action. simpl. split.
  - repeat case_bool_decide; by intros [= <- <-]; subst.
  - intros [-> H]. destruct cap; simpl in H; try done; injection H as <-; done.
Qed.

Section grants_file.
Context {GText : Type} `{GR : !TomlRecords ToolsetGrant GText}.

(** The grant a record of the file gives. *)
Definition covers (params : GatedInvokeParams) (cap : Capability) (g : ToolsetGrant) : Prop :=
  gp_now_unix_ms params < tg_expires_at_unix_ms g /\
  (tg_toolset_name g, tg_capability g, tg_destination g, tg_asset g) =
  (gp_toolset_name params, Capability_to_string cap, gp_authoritative_destination params,
   gp_authoritative_asset params) /\
  tg_amount_min_stroops g <= gp_authoritative_amount_stroops params <= tg_amount_max_stroops g.

(** The grants of a file. *)
Definition grants_of (file : option GText) (gs : list ToolsetGrant) : Prop :=
  match file with None => gs = [] | Some t => from_str t = Ok gs end.

Lemma grants_open_spec env file now s :
  grants_open env file now = Ok s ->
  exists gs, grants_of file gs /\ grants_disk s = file /\
    forall g, g ∈ grants s <-> g ∈ gs /\ now < tg_expires_at_unix_ms g.
Proof.
  unfold grants_open. intros H. apply res_bind_Ok in H as (? & _ & H).
  apply res_bind_Ok in H as (l & Hl & [= <-]). destruct file as [t|].
  - destruct (ge_read_error env); [done|]. apply res_bind_Ok in Hl as (gs & Hgs%map_err_Ok & [= <-]).
    exists gs. split_and!; [done|done|]. intros g. simpl.
    rewrite !list_elem_of_In, filter_In. unfold grant_is_expired.
    destruct (Z.leb_spec (tg_expires_at_unix_ms g) now); simpl; intuition (done || lia).
  - injection Hl as <-. exists []. split_and!; [done|done|]. set_solver.
Qed.

Lemma find_matching_spec (s : ToolsetGrantStore GText) params cap :
  is_Some (find_matching s (gp_toolset_name params) (Capability_to_string cap)
     (gp_authoritative_destination params) (gp_authoritative_asset params)
     (gp_authoritative_amount_stroops params) (gp_now_unix_ms params)) <->
  exists g, g ∈ grants s /\ covers params cap g.
Proof.
  unfold find_matching, covers. setoid_rewrite <- grant_matches_spec. split.
  - intros [g Hg]. apply List.find_some in Hg as [Hin Hm]. exists g. by rewrite list_elem_of_In.
  - intros (g & Hin%list_elem_of_In & Hm). destruct (List.find _ _) eqn:E; [done|].
    pose proof (List.find_none _ _ E g Hin). congruence.
Qed.

End grants_file.

Section gate.
Variable json_from_str : string -> option JsonValue.
Variable debug_char : string -> string.
Context {GText AText : Type} `{GR : !TomlRecords ToolsetGrant GText, GL : !TomlRecordsLaws grant_fits}.
Context {ALog : Type} `{TF : !TomlFile AText, TL : !TomlFileLaws AText, CA : !ConsentAudit ALog}.
Context `{ED : !EscapeDebug, BB : !Base64, BL : !Base64Laws, SH : !Sha2, SL : !Sha2Laws}.
Variable show_error : ApprovalError -> string.

#[local] Abbreviation resolve := (resolve_toolset_sign_payment_gated json_from_str debug_char show_error).
#[local] Abbreviation checks := (gated_checks json_from_str debug_char).

Lemma checks_Ok root params tool cap :
  checks root params = Ok (tool, cap) <->
  exists pin, installed_pin json_from_str debug_char (gp_toolset_name params) root = Ok pin /\
    tool = gp_action params /\ gated_grants_for_capability cap = Some [gp_action params] /\
    cap ∈ pin_capabilities pin /\
    (pin_allowed_tools pin = [] \/ gp_action params ∈ pin_allowed_tools pin) /\
    0 < gp_authoritative_amount_stroops params.
Proof.
  unfold gated_checks. rewrite res_bind_Ok. setoid_rewrite <- narrowing_spec.
  setoid_rewrite <- set_contains_spec. split.
  - intros (pin & Hp & H). apply res_bind_Ok in H as ([t c] & [-> Hg]%resolve_gated_Ok & H).
    exists pin. destruct (set_contains _ c) eqn:Ec; [|done]. cbn [negb] in H.
    destruct (allowed_by_narrowing _ _) eqn:Ea; [|done]. cbn [negb] in H.
    destruct (Z.leb_spec (gp_authoritative_amount_stroops params) 0); [done|]. by injection H as <- <-.
  - intros (pin & Hp & -> & Hg & Hc & Ha & Hz). exists pin. split; [done|].
    rewrite (proj2 (resolve_gated_Ok _ _ _) (conj eq_refl Hg)). cbn [mbind result_bind].
    by rewrite Hc, Ha, (proj2 (Z.leb_gt _ _)).
Qed.

(** The approval queued for [params]. *)
Definition queued (env : GateEnv) (params : GatedInvokeParams) (cap : Capability)
    (file file' : option AText) (n : string) : Prop :=
  exists store store' p,
    disk store = file /\ disk store' = file' /\ approval_nonce p = n /\
    kind p = ToolsetFirstInvokeGate (gp_toolset_name params) (Capability_to_string cap)
               (gp_authoritative_destination params) (gp_authoritative_asset params) 0
               (gp_authoritative_amount_stroops params) /\
    attestation_blob_b64 p = None /\
    (exists i, open (gn_open_env env i) file = Ok store) /\
    insert (gn_fault env) p (gp_now_unix_ms params) store = (Ok tt, store') /\
    new_toolset_first_invoke_gate_pending (gn_raw env) (gn_clock env) (gp_toolset_name params)
      (Capability_to_string cap) (gp_authoritative_destination params)
      (gp_authoritative_asset params) 0 (gp_authoritative_amount_stroops params)
      (gp_process_uid params) DEFAULT_TTL_MS = Ok p.

Lemma new_gate_kind raw clock t c d a mn mx uid ttl p :
  new_toolset_first_invoke_gate_pending raw clock t c d a mn mx uid ttl = Ok p ->
  kind p = ToolsetFirstInvokeGate t c d a mn mx /\ attestation_blob_b64 p = None.
Proof.
  unfold new_toolset_first_invoke_gate_pending, pending_of. intros H.
  apply res_bind_Ok in H as (? & _ & H). by apply res_bind_Ok in H as (? & _ & [= <-]).
Qed.

Lemma retry_opens fuel attempts attempt env (file : option AText) s k :
  retry_loop fuel attempts attempt env (fun _ => file) = Some (Ok s, k) ->
  exists i, open (env i) file = Ok s.
Proof.
  revert attempt. induction fuel as [|fuel IH]; intros attempt H; [done|]. simpl in H.
  destruct (open _ file) as [s'|e] eqn:Eo; [injection H as <- _; by eexists|].
  destruct e; try done. destruct (_ <? _); [by eapply IH|done].
Qed.

Lemma open_disk env (file : option AText) s : open env file = Ok s -> disk s = file.
Proof.
  unfold open. destruct (has_parent env); [|done]. cbn [negb]. intros H.
  apply res_bind_Ok in H as (? & _ & H). apply res_bind_Ok in H as (? & _ & H).
  by apply res_bind_Ok in H as (? & _ & [= <-]).
Qed.

Lemma queue_approval_Ok env params cap file out file' :
  queue_approval show_error env params (Capability_to_string cap) file = Some (Ok out, file') ->
  exists n tn cs, out = FirstInvokeApprovalRequired n tn cs /\ queued env params cap file file' n.
Proof.
  unfold queue_approval. destruct (new_toolset_first_invoke_gate_pending _ _ _ _ _ _ _ _ _ _) as [p|] eqn:Ep; [|done].
  destruct (gn_approval_path env); [|done]. cbn [negb].
  destruct (open_with_retry _ _ _ _) as [[[store|] k]|] eqn:Eo; try done.
  destruct (insert _ p _ store) as [[[]|] store'] eqn:Ei; [|done]. intros [= <- <-].
  eexists _, _, _. split; [done|]. apply retry_opens in Eo as [i Ho].
  destruct (new_gate_kind _ _ _ _ _ _ _ _ _ _ _ Ep) as [Hk Ha].
  exists store, store', p. split_and!; try done; [by eapply open_disk|by exists i].
Qed.

(** C18: The tools that sign stay behind the gate.  When the gate answers, the toolset is
    installed, has declared the capability and is not narrowed out of it, and the amount
    is positive; and either a grant on file that has not expired covers exactly this
    toolset, capability, destination, asset and amount, and nothing has changed; or
    there is no such grant and one approval of exactly this box was queued. *)
Theorem gate_outcome_exact root env params gfile file out file' :
  resolve root env params gfile file = Some (Ok out, file') ->
  exists tool cap gs, checks root params = Ok (tool, cap) /\ tool ∈ SIGNING_DENYLIST /\
    grants_of gfile gs /\
    match out with
    | Resolved t => t = tool /\ file' = file /\ exists g, g ∈ gs /\ covers params cap g
    | FirstInvokeApprovalRequired n _ _ =>
        (forall g, g ∈ gs -> ~ covers params cap g) /\ queued env params cap file file' n
    end.
Proof.
  unfold resolve_toolset_sign_payment_gated. destruct (checks root params) as [[tool cap]|] eqn:Ec; [|done].
  destruct (gn_grants_path env); [done|].
  destruct (grants_open _ gfile _) as [s|] eqn:Eg; [|done].
  apply grants_open_spec in Eg as (gs & Hgs & _ & Hin). pose proof (find_matching_spec s params cap) as Hf.
  intros H. exists tool, cap, gs. split; [done|]. split.
  { apply checks_Ok in Ec as (_ & _ & -> & Hg & _). destruct cap; try done; injection Hg as <-;
      apply list_elem_of_In; simpl; tauto. }
  split; [done|]. simpl in H.
  destruct (find_matching _ _ _ _ _ _ _) as [g|] eqn:Ef.
  - injection H as <- <-. split_and!; [done..|]. destruct (proj1 Hf) as (g' & Hg' & Hc); [done|].
    exists g'. split; [|done]. by apply Hin.
  - apply queue_approval_Ok in H as (n & tn & cs & -> & Hq). split; [|done]. intros g Hg Hc.
    assert (is_Some (@None ToolsetGrant)) as [? ?]; [|done]. apply Hf. exists g. split; [|done].
    apply Hin. split; [done|]. apply Hc.
Qed.

(** ** From the gate to the grant and back *)

Lemma record_grant_Ok path env fault raw t c d a mn mx uid now key b file g file' :
  record_first_invoke_grant show_error path env fault raw t c d a mn mx uid now key b file = (Ok g, file') ->
  build_attested_grant raw t c d a mn mx uid now TOOLSET_GRANT_DEFAULT_TTL_MS key b = Ok g /\
  exists gs, grants_of file' gs /\ g ∈ gs.
Proof.
  unfold record_first_invoke_grant. destruct (build_attested_grant _ _ _ _ _ _ _ _ _ _ _ _) as [g'|]; [|done].
  destruct path; [done|]. destruct (grants_open env file now) as [s|]; [|done].
  unfold grants_insert, grants_persist. destruct (to_string_pretty _) as [t'|] eqn:Et; [|done].
  destruct fault as [[step e]|]; [done|]. intros [= <- <-]. split; [done|].
  exists (grants s ++ [g']). split; [by eapply records_roundtrip|].
  apply elem_of_app. right. by apply list_elem_of_singleton.
Qed.

(** Answering a gate stores the grant of its box. *)
Lemma attest_gate_grants aenv entry key b surface cred (w w' : @World AText ALog (option GText)) out
    t c d a mn mx show_rt path genv fault raw :
  kind entry = ToolsetFirstInvokeGate t c d a mn mx ->
  env_persist_grant aenv = persist_grant show_error show_rt path genv fault raw ->
  attest_and_persist show_error aenv entry key b surface cred w = (Ok out, w') ->
  exists now g gs, env_clock aenv = Ok now /\
    build_attested_grant raw t c d a mn mx (process_uid entry) now TOOLSET_GRANT_DEFAULT_TTL_MS key b
      = Ok g /\ grants_of (w_grants w') gs /\ g ∈ gs.
Proof.
  intros Hk Hp H. unfold attest_and_persist in H. destruct (binding_matches _ _); [|done].
  destruct (_ =? _); [|done]. destruct (env_clock aenv) as [now|]; [|done].
  destruct (refuse_unless_still_pending _ _ _ _); [|done]. cbn [negb] in H. unfold attest_kind in H.
  rewrite Hk in H. unfold row_then in H. destruct (emit_attested_audit _ _ _ _ _ _ _ _) as [[u|] w1]; [|done].
  rewrite Hp in H. unfold persist_grant in H. simpl in H.
  destruct (record_first_invoke_grant _ _ _ _ _ _ _ _ _ _ _ _ _ _ _ _) as [[g|] gf] eqn:Er; [|done].
  injection H as _ <-. apply record_grant_Ok in Er as (Hb & gs & Hgs & Hg).
  by exists now, g, gs.
Qed.

Lemma open_determined env env' (file : option AText) s s' :
  open env file = Ok s -> open env' file = Ok s' -> s = s'.
Proof.
  unfold open. destruct (has_parent env); [|done]. destruct (has_parent env'); [|done]. cbn [negb].
  intros H H'. apply res_bind_Ok in H as (? & _ & H). apply res_bind_Ok in H as (? & _ & H).
  apply res_bind_Ok in H' as (? & _ & H'). apply res_bind_Ok in H' as (? & _ & H').
  apply res_bind_Ok in H as (es & He & [= <-]). apply res_bind_Ok in H' as (es' & He' & [= <-]).
  destruct file; [destruct (read_error env); [done|]; destruct (read_error env'); [done|]|]; congruence.
Qed.

Lemma inserted_is_found fault p now (s s' : Store AText) env s2 :
  record_ok p -> store_ok s -> insert fault p now s = (Ok tt, s') ->
  open env (disk s') = Ok s2 -> get s2 (approval_nonce p) = Some p.
Proof.
  intros Hp Hs Hi Ho. pose proof (insert_ok fault p now s Hp Hs) as Hok. rewrite Hi in Hok.
  unfold insert in Hi. destruct (MAX_PENDING_APPROVALS <=? _).
  { by destruct (commit fault _ s) as [[] ?]. }
  destruct (existsb _ _) eqn:Ex; [done|].
  set (kept := retain (fun e => negb (is_expired e now)) (entries s)) in *.
  pose proof (commit_entries fault (kept ++ [p]) s) as Hes. rewrite Hi in Hes. simpl in Hes.
  set (cenv := {| has_parent := true; create_dir := None; try_lock := LockFree; read_error := None |}).
  destruct (commit_acked fault (kept ++ [p]) s s' cenv) as [_ Ho']; [done| |exact Hi|].
  { rewrite <- Hes. apply Hok. }
  rewrite (open_determined _ _ _ _ _ Ho Ho'). unfold get. rewrite Hes.
  fold (find_nonce (approval_nonce p) (kept ++ [p])).
  rewrite find_nonce_app. replace (find_nonce _ _) with (@None PendingApproval).
  - rewrite find_nonce_cons. by rewrite (proj2 (has_nonce_true _ _)).
  - symmetry. destruct (find_nonce _ _) as [e|] eqn:Ef; [|done].
    apply List.find_some in Ef as [Hin Hn]. apply not_true_iff_false in Ex. exfalso. apply Ex.
    apply existsb_exists. by exists e.
Qed.

(** The gate opens once a human has answered it, and only as far.  A call that the gate
    sent to approval, answered by an authorised caller, passes from then on, for the same
    toolset, tool, destination and asset and every amount up to the approved one,
    until thirty days after the answer. *)
Theorem answered_gate_resolves root env params gfile file n tn cs file' oenv store identity allowed
    clock entry aenv key b surface cred (w w' : @World AText ALog (option GText)) out show_rt path genv
    fault raw now env2 params2 file2 :
  length (gn_raw env) = 16%nat -> bytes_ok (gn_raw env) ->
  process_uid_is_valid (gp_process_uid params) = true -> file_ok file ->
  resolve root env params gfile file = Some (Ok (FirstInvokeApprovalRequired n tn cs), file') ->
  open oenv file' = Ok store ->
  load_and_validate_entry store n identity allowed clock = Ok entry ->
  w_store w = store -> env_clock aenv = Ok now ->
  env_persist_grant aenv = persist_grant show_error show_rt path genv fault raw ->
  attest_and_persist show_error aenv entry key b surface cred w = (Ok out, w') ->
  (gp_toolset_name params2, gp_action params2, gp_authoritative_destination params2,
   gp_authoritative_asset params2) =
  (gp_toolset_name params, gp_action params, gp_authoritative_destination params,
   gp_authoritative_asset params) ->
  0 < gp_authoritative_amount_stroops params2 <= gp_authoritative_amount_stroops params ->
  gp_now_unix_ms params2 < sat_add u64 now TOOLSET_GRANT_DEFAULT_TTL_MS ->
  gn_grants_path env2 = None ->
  gn_grants_env env2 = {| ge_create_dir := None; ge_read_error := None |} ->
  resolve root env2 params2 (w_grants w') file2 = Some (Ok (Resolved (gp_action params)), file2).
Proof.
  intros Hl Hb Hu Hf Hr Ho Hload Hw Hclk Hpg Ha [= Ht Hact Hd Has] Hamt Hnow Hgp Hge.
  unfold resolve_toolset_sign_payment_gated in Hr.
  destruct (checks root params) as [[tool cap]|] eqn:Ec; [|done]. destruct (gn_grants_path env); [done|].
  destruct (grants_open _ gfile _); [|done]. simpl in Hr.
  destruct (find_matching _ _ _ _ _ _ _); [done|]. apply queue_approval_Ok in Hr
    as (n' & tn' & cs' & [= <- <- <-] & st & st' & p & Hst & <- & <- & Hk & _ & [i Hopen] & Hins & Hnew).
  assert (Hp : record_ok p).
  { apply (constructed_ok (gn_raw env) (gn_clock env)); [done..|]. by eapply built_toolset. }
  assert (Hsto : store_ok st) by (eapply open_ok; [exact Hf|exact Hopen]).
  pose proof (inserted_is_found _ _ _ _ _ _ _ Hp Hsto Hins Ho) as Hget.
  assert (entry = p) as ->.
  { unfold load_and_validate_entry in Hload. rewrite Hget in Hload. cbn [ok_or mbind result_bind] in Hload.
    apply res_bind_Ok in Hload as (? & _ & Hload). cases_in Hload. by injection Hload. }
  pose proof (attest_gate_grants _ _ _ _ _ _ _ _ _ _ _ _ _ _ _ _ _ _ _ _ Hk Hpg Ha)
    as (now' & g & gs & Hclk' & Hbuild & Hgs & Hg).
  assert (now' = now) as -> by congruence.
  apply checks_Ok in Ec as (pin & Hpin & -> & Hgr & Hcap & Hnar & _).
  assert (Hc2 : checks root params2 = Ok (gp_action params, cap)).
  { apply checks_Ok. exists pin. rewrite Ht, Hact. split_and!; try done. lia. }
  unfold resolve_toolset_sign_payment_gated. rewrite Hc2, Hgp, Hge.
  injection Hbuild as <-. set (g := {| grant_id := _ |}) in *.
  assert (Hcov : covers params2 cap g).
  { unfold covers. simpl. rewrite Ht, Hd, Has. split_and!; try done; lia. }
  destruct (grants_open _ (w_grants w') _) as [s|] eqn:Eg.
  2:{ unfold grants_open in Eg. destruct (w_grants w') as [tx|]; simpl in Eg; [|done].
      simpl in Hgs. by rewrite Hgs in Eg. }
  apply grants_open_spec in Eg as (gs' & Hgs' & _ & Hin).
  assert (gs' = gs) as ->. { destruct (w_grants w'); simpl in *; congruence. }
  destruct (proj2 (find_matching_spec s params2 cap)) as [g' Hfm].
  { exists g. split; [|done]. apply Hin. split; [done|]. apply Hcov. }
  simpl. by rewrite Hfm.
Qed.
End gate.

(** ** A first invocation, answered *)

Definition grant_fitsb (g : ToolsetGrant) : bool :=
  (granted_at_unix_ms g <=? hi i64) && (tg_expires_at_unix_ms g <=? hi i64).
#[local] Instance demo_grants : TomlRecords ToolsetGrant (list ToolsetGrant) := records_demo grant_fitsb.
#[local] Instance demo_grants_laws : TomlRecordsLaws grant_fits.
Proof.
  apply records_demo_laws. intros g [H1 H2]. unfold grant_fitsb. by rewrite !(proj2 (Z.leb_le _ _)).
Qed.

Definition demo_pin : ToolsetPinRecord := {|
  pin_package := "rebalancer"; pin_version := "1.0.0"; pin_shasum := "00"; pin_publisher := "G";
  pin_installed_at := "2026-01-01T00:00:00Z"; pin_capabilities := [ReadBalance; SignPayment];
  pin_allowed_tools := []; toolset_md_shasum := None |}.

Definition demo_root : ToolsetsRoot :=
  {| pin_file _ := FileText "pin"; toolset_md _ := FileAbsent |}.
Definition demo_json (_ : string) : option JsonValue := Some (pin_to_json demo_pin).
Definition quiet (_ : ApprovalError) : string := EmptyString.

Definition demo_gate_env (clock : Z) : GateEnv := {|
  gn_grants_path := None; gn_grants_env := {| ge_create_dir := None; ge_read_error := None |};
  gn_raw := demo_raw; gn_clock := Ok clock; gn_approval_path := true;
  gn_open_env _ := calm_env; gn_fault := None |}.

Definition demo_params (amount now : Z) : GatedInvokeParams := {|
  gp_toolset_name := "rebalancer"; gp_action := "stellar_pay_commit";
  gp_authoritative_destination := demo_g; gp_authoritative_asset := "XLM";
  gp_authoritative_amount_stroops := amount; gp_now_unix_ms := now; gp_process_uid := "1000" |}.

#[local] Abbreviation AFile := (option (list PendingApprovalOnDisk)).
#[local] Abbreviation GFile := (option (list ToolsetGrant)).

Definition demo_resolve (amount now : Z) (g : GFile) (f : AFile) :=
  resolve_toolset_sign_payment_gated demo_json id quiet demo_root (demo_gate_env now)
    (demo_params amount now) g f.

Definition after_queue : AFile :=
  match demo_resolve 50000000 1000 None None with Some (_, f) => f | None => None end.
Definition demo_nonce : string := base64_encode demo_raw.
Definition queued_store : Store (list PendingApprovalOnDisk) :=
  match open calm_env after_queue with Ok s => s | Err _ => empty_store end.
Definition queued_entry : PendingApproval :=
  match get queued_store demo_nonce with Some e => e | None => unwrap demo_mpp end.

Definition gate_attest_env : @AttestEnv GFile := {|
  env_clock := Ok 2000; env_fault := None;
  env_persist_grant := persist_grant quiet (fun _ => EmptyString) None
    {| ge_create_dir := None; ge_read_error := None |} None (replicate 16 8) |}.
#[local] Instance gate_sink : ConsentAudit (list AttestedRow) := fun row log => (Ok tt, log ++ [row]).
Definition gate_world : @World (list PendingApprovalOnDisk) (list AttestedRow) GFile :=
  {| w_store := queued_store; w_log := []; w_grants := None |}.
Definition gate_answer :=
  attest_and_persist quiet gate_attest_env queued_entry (replicate 32 3) alice Cli None gate_world.

Lemma gate_outcome_exact_witness :
  exists tool cap gs, gated_checks demo_json id demo_root (demo_params 50000000 1000) = Ok (tool, cap) /\
    tool ∈ SIGNING_DENYLIST /\ grants_of (None : GFile) gs /\
    (forall g, g ∈ gs -> ~ covers (demo_params 50000000 1000) cap g) /\
    queued (demo_gate_env 1000) (demo_params 50000000 1000) cap None after_queue demo_nonce.
Proof.
  eapply (gate_outcome_exact demo_json id quiet demo_root (demo_gate_env 1000)
    (demo_params 50000000 1000) None None (FirstInvokeApprovalRequired demo_nonce "rebalancer" "sign-payment")).
  by vm_compute.
Defined.

Lemma answered_gate_resolves_witness :
  demo_resolve 20000000 5000 (w_grants (snd gate_answer)) None = Some (Ok (Resolved "stellar_pay_commit"), None).
Proof.
  assert (Hr : demo_resolve 50000000 1000 None None
    = Some (Ok (FirstInvokeApprovalRequired demo_nonce "rebalancer" "sign-payment"), after_queue))
    by by vm_compute.
  assert (Ho : open calm_env after_queue = Ok queued_store) by by vm_compute.
  assert (Hl : load_and_validate_entry queued_store demo_nonce (OsUid "1000") [] (Ok 2000)
    = Ok queued_entry) by by vm_compute.
  assert (Ha : gate_answer = (Ok None, snd gate_answer)) by by vm_compute.
  apply (answered_gate_resolves demo_json id quiet demo_root (demo_gate_env 1000)
    (demo_params 50000000 1000) None None demo_nonce "rebalancer" "sign-payment" after_queue calm_env
    queued_store (OsUid "1000") [] (Ok 2000) queued_entry gate_attest_env (replicate 32 3) alice Cli None
    gate_world (snd gate_answer) None (fun _ => EmptyString) None
    {| ge_create_dir := None; ge_read_error := None |} None (replicate 16 8) 2000
    (demo_gate_env 5000) (demo_params 20000000 5000) None).
  - apply demo_raw_ok.
  - apply demo_raw_ok.
  - reflexivity.
  - done.
  - exact Hr.
  - exact Ho.
  - exact Hl.
  - reflexivity.
  - reflexivity.
  - reflexivity.
  - exact Ha.
  - reflexivity.
  - clear; by vm_compute.
  - by vm_compute.
  - reflexivity.
  - reflexivity.
Defined.
