(* ===== verification/Time.v ===== *)
(** * Timestamps (stellar-agent-core, [timefmt.rs] and the parsers of
      [audit_log/verify.rs])

    Unix seconds to calendar fields and text, and back.  The loop over the years
    is given as much fuel as there are years of 365 days. *)

From S2P Require Import Prelude RustStr.
From stdpp Require Import options.

Local Open Scope string_scope.
Local Open Scope list_scope.
Local Open Scope Z_scope.

(** ** Formatting ([timefmt.rs]) *)

Definition is_leap_year (year : Z) : bool :=
  ((year mod 4 =? 0) && negb (year mod 100 =? 0)) || (year mod 400 =? 0).

Definition days_in_year (year : Z) : Z := if is_leap_year year then 366 else 365.

Fixpoint year_loop (fuel : nat) (days year : Z) : option (Z * Z) :=
  match fuel with
  | O => None
  | S fuel' =>
      if days <? days_in_year year then Some (days, year)
      else year_loop fuel' (days - days_in_year year) (year + 1)
  end.

Definition month_lengths (leap : bool) : list Z :=
  [31; if leap then 29 else 28; 31; 30; 31; 30; 31; 31; 30; 31; 30; 31].

Fixpoint month_loop (dims : list Z) (days month : Z) : Z * Z :=
  match dims with
  | [] => (days, month)
  | dim :: dims' => if days <? dim then (days, month) else month_loop dims' (days - dim) (month + 1)
  end.

Record DateTime := { year : Z; month : Z; day : Z; hour : Z; minute : Z; second : Z }.

Definition epoch_to_datetime (secs : Z) : option DateTime :=
  let sec := secs mod 60 in
  let mins := secs / 60 in
  let min := mins mod 60 in
  let hours := mins / 60 in
  let hr := hours mod 24 in
  let days := wrap_u 32 (hours / 24) in
  '(days, yr) ← year_loop (S (Z.to_nat (days / 365))) days 1970;
  let '(days, mon) := month_loop (month_lengths (is_leap_year yr)) days 0 in
  Some {| year := yr; month := mon + 1; day := days + 1; hour := hr; minute := min; second := sec |}.

Definition two (z : Z) : string := pad_left0 2 (show_Z z).

(** ["{year:04}-{month:02}-{day:02}T{hour:02}:{min:02}:{sec:02}"] *)
Definition date_time_text (d : DateTime) : string :=
  pad_left0 4 (show_Z (year d)) +:+ "-" +:+ two (month d) +:+ "-" +:+ two (day d) +:+ "T"
  +:+ two (hour d) +:+ ":" +:+ two (minute d) +:+ ":" +:+ two (second d).

(** The argument is the whole seconds since the epoch. *)
Definition format_rfc3339_utc (secs : Z) : option string :=
  d ← epoch_to_datetime secs; Some (date_time_text d +:+ "Z").

(** The clock's answer as an argument: seconds and milliseconds. *)
Definition current_iso8601_utc (secs millis : Z) : option string :=
  d ← epoch_to_datetime secs;
  Some (date_time_text d +:+ "." +:+ pad_left0 3 (show_Z millis) +:+ "Z").

(** ** Parsing ([audit_log/verify.rs]) *)

Definition parse_decimal_u32 (ts : string) (start end_ : nat) (field : string) : result string Z :=
  let s := String.substring start (end_ - start) ts in
  if negb (str_all is_ascii_digit s)
  then Err ("timestamp " +:+ field +:+ " contains non-decimal digits")
  else map_err (fun _ => "timestamp " +:+ field +:+ " is out of range") (parse_int u32 s).

Definition is_leap_year_u32 (year : Z) : bool :=
  ((year mod 4 =? 0) && negb (year mod 100 =? 0)) || (year mod 400 =? 0).

Definition days_in_month (year month : Z) : Z :=
  if existsb (Z.eqb month) [1; 3; 5; 7; 8; 10; 12] then 31
  else if existsb (Z.eqb month) [4; 6; 9; 11] then 30
  else if month =? 2 then if is_leap_year_u32 year then 29 else 28
  else 0.

(** [for y in 1970..year] and [for m in 1..month]: the sums. *)
Fixpoint sum_years (n : nat) (y : Z) : Z :=
  match n with
  | O => 0
  | S n' => (if is_leap_year_u32 y then 366 else 365) + sum_years n' (y + 1)
  end.

Fixpoint sum_months (n : nat) (year m : Z) : Z :=
  match n with
  | O => 0
  | S n' => days_in_month year m + sum_months n' year (m + 1)
  end.

Definition parse_utc_date_time_seconds (ts : string) : result string Z :=
  yr ← parse_decimal_u32 ts 0 4 "year";
  mon ← parse_decimal_u32 ts 5 7 "month";
  dy ← parse_decimal_u32 ts 8 10 "day";
  hr ← parse_decimal_u32 ts 11 13 "hour";
  min ← parse_decimal_u32 ts 14 16 "minute";
  sec ← parse_decimal_u32 ts 17 19 "second";
  if negb ((1970 <=? yr) && (yr <=? 2099)) || negb ((1 <=? mon) && (mon <=? 12))
     || (23 <? hr) || (59 <? min) || (59 <? sec)
  then Err "timestamp component out of supported range"
  else
  let month_days := days_in_month yr mon in
  if (dy =? 0) || (month_days <? dy) then Err "timestamp day out of range for month" else
  let days := sum_years (Z.to_nat (yr - 1970)) 1970 in
  let days := days + sum_months (Z.to_nat (mon - 1)) yr 1 in
  let days := days + (dy - 1) in
  Ok (days * 86400 + hr * 3600 + min * 60 + sec).

(** [ts.as_bytes().get(i) != Some(&c)] *)
Definition byte_is (ts : string) (i : nat) (c : ascii) : bool :=
  bool_decide (String.get i ts = Some c).

Definition separators_ok (ts : string) : bool :=
  byte_is ts 4 "-" && byte_is ts 7 "-" && byte_is ts 10 "T" && byte_is ts 13 ":" && byte_is ts 16 ":".

Definition parse_rfc3339_utc_seconds (ts : string) : result string Z :=
  if negb ((String.length ts =? 20)%nat && separators_ok ts && byte_is ts 19 "Z")
  then Err "timestamp must match YYYY-MM-DDTHH:MM:SSZ"
  else parse_utc_date_time_seconds ts.

Definition parse_audit_timestamp_ms (ts : string) : result string Z :=
  if negb ((String.length ts =? 24)%nat && separators_ok ts && byte_is ts 19 "." && byte_is ts 23 "Z")
  then Err "timestamp must match YYYY-MM-DDTHH:MM:SS.mmmZ"
  else
  seconds ← parse_utc_date_time_seconds ts;
  millis ← parse_decimal_u32 ts 20 23 "millisecond";
  if 999 <? millis then Err "timestamp component out of supported range"
  else Ok (seconds * 1000 + millis).

(** ** The calendar *)

Lemma days_in_year_pos y : 365 <= days_in_year y <= 366.
Proof. unfold days_in_year. case_match; lia. Qed.

Lemma sum_years_S n y : sum_years (S n) y = days_in_year y + sum_years n (y + 1).
Proof. reflexivity. Qed.

Lemma sum_years_nonneg n y : 0 <= sum_years n y.
Proof.
  revert y. induction n as [|n IH]; intros y; [done|]. rewrite sum_years_S.
  pose proof (days_in_year_pos y). specialize (IH (y + 1)). lia.
Qed.

Lemma sum_years_app n m y :
  sum_years (n + m) y = sum_years n y + sum_years m (y + Z.of_nat n).
Proof.
  revert y. induction n as [|n IH]; intros y.
  { cbn [Nat.add sum_years Z.of_nat]. by rewrite Z.add_0_r. }
  cbn [Nat.add]. rewrite !sum_years_S, IH, Nat2Z.inj_succ.
  replace (y + 1 + Z.of_nat n) with (y + Z.succ (Z.of_nat n)) by lia. lia.
Qed.

(** The loop ends within its fuel, at the year the days fall into. *)
Lemma year_loop_spec fuel days y :
  0 <= days < 365 * Z.of_nat fuel ->
  exists d n, year_loop fuel days y = Some (d, y + Z.of_nat n) /\
    days = sum_years n y + d /\ 0 <= d < days_in_year (y + Z.of_nat n).
Proof.
  revert days y. induction fuel as [|fuel IH]; intros days y Hd; [lia|]. cbn [year_loop].
  pose proof (days_in_year_pos y).
  destruct (Z.ltb_spec days (days_in_year y)).
  - exists days, 0%nat. cbn [Z.of_nat sum_years]. rewrite Z.add_0_r. split_and!; [done|lia|lia|done].
  - destruct (IH (days - days_in_year y) (y + 1)) as (d & n & Hl & Hs & Hr); [lia|].
    exists d, (S n). rewrite sum_years_S, Hl, Nat2Z.inj_succ.
    replace (y + Z.succ (Z.of_nat n)) with (y + 1 + Z.of_nat n) by lia.
    split_and!; [done|lia|lia|lia].
Qed.

(** Evaluate the month sums at closed months. *)
Ltac calendar :=
  repeat match goal with
  | |- context [Z.to_nat ?k] => let n := eval vm_compute in (Z.to_nat k) in change (Z.to_nat k) with n
  end;
  cbn [sum_months];
  repeat match goal with
  | |- context [days_in_month ?y ?m] =>
      let v := eval vm_compute in m in
      let t := eval cbv [days_in_month existsb Z.eqb Pos.eqb orb] in (days_in_month y v) in
      change (days_in_month y m) with t
  end.

(** The loop over the months stops at the month the days fall into. *)
Lemma month_loop_spec yr d :
  0 <= d < days_in_year yr ->
  exists r k, month_loop (month_lengths (is_leap_year yr)) d 0 = (r, k) /\ 0 <= k <= 11 /\
    d = sum_months (Z.to_nat k) yr 1 + r /\ 0 <= r < days_in_month yr (k + 1).
Proof.
  unfold days_in_year, month_lengths. intros Hd.
  assert (Hleap : is_leap_year_u32 yr = is_leap_year yr) by done. revert Hd.
  destruct (is_leap_year yr); intros Hd; cbn [month_loop];
  repeat match goal with
  | |- context [if ?x <? ?c then _ else _] => destruct (Z.ltb_spec x c)
  end; try (exfalso; lia);
  (eexists _, _; split; [reflexivity|]; split; [cbn; lia|];
   calendar; rewrite ?Hleap; lia).
Qed.

(** ** Fields *)

(** 2099-12-31T23:59:59Z *)
Definition LAST_SECOND : Z := 4102444799.

Definition fields_ok (d : DateTime) : Prop :=
  1970 <= year d <= 2099 /\ 1 <= month d <= 12 /\ 1 <= day d <= days_in_month (year d) (month d) /\
  0 <= hour d <= 23 /\ 0 <= minute d <= 59 /\ 0 <= second d <= 59.

Definition seconds_of (d : DateTime) : Z :=
  (sum_years (Z.to_nat (year d - 1970)) 1970 + sum_months (Z.to_nat (month d - 1)) (year d) 1
   + (day d - 1)) * 86400 + hour d * 3600 + minute d * 60 + second d.

Lemma year_bound n : sum_years n 1970 <= 47481 -> (n < 130)%nat.
Proof.
  intros H. destruct (decide (130 <= n)%nat) as [Hn|]; [|lia]. exfalso.
  replace n with (130 + (n - 130))%nat in H by lia. rewrite sum_years_app in H.
  assert (E : sum_years 130 1970 = 47482) by by vm_compute.
  pose proof (sum_years_nonneg (n - 130) (1970 + Z.of_nat 130)). lia.
Qed.

Lemma days_split secs :
  0 <= secs <= LAST_SECOND ->
  0 <= secs / 60 / 60 / 24 <= 47481 /\ 0 <= secs mod 60 <= 59 /\
  0 <= (secs / 60) mod 60 <= 59 /\ 0 <= (secs / 60 / 60) mod 24 <= 23 /\
  secs = secs / 60 / 60 / 24 * 86400 + (secs / 60 / 60) mod 24 * 3600
         + (secs / 60) mod 60 * 60 + secs mod 60.
Proof.
  unfold LAST_SECOND. intros H.
  pose proof (Z.div_mod secs 60). pose proof (Z.mod_pos_bound secs 60).
  pose proof (Z.div_mod (secs / 60) 60). pose proof (Z.mod_pos_bound (secs / 60) 60).
  pose proof (Z.div_mod (secs / 60 / 60) 24). pose proof (Z.mod_pos_bound (secs / 60 / 60) 24).
  lia.
Qed.

Lemma epoch_fields secs :
  0 <= secs <= LAST_SECOND ->
  exists d, epoch_to_datetime secs = Some d /\ fields_ok d /\ seconds_of d = secs.
Proof.
  intros H. destruct (days_split secs H) as (Hd & Hs & Hm & Hh & E).
  unfold epoch_to_datetime. cbv zeta. set (D := secs / 60 / 60 / 24) in *.
  rewrite wrap_u_small by (change (2 ^ 32) with 4294967296; lia).
  destruct (year_loop_spec (S (Z.to_nat (D / 365))) D 1970) as (r & n & -> & Hsum & Hr).
  { pose proof (Z.div_mod D 365). pose proof (Z.mod_pos_bound D 365).
    pose proof (Z.div_pos D 365). lia. }
  pose proof (year_bound n ltac:(lia)). cbn [mbind option_bind].
  destruct (month_loop_spec (1970 + Z.of_nat n) r Hr) as (q & k & -> & Hk & Hq & Hqr).
  eexists. split; [reflexivity|]. unfold fields_ok, seconds_of. cbn [year month day hour minute second].
  replace (k + 1 - 1) with k by lia.
  replace (Z.to_nat (1970 + Z.of_nat n - 1970)) with n by lia. split_and!; lia.
Qed.

(** ** Text *)

(** A field of [w] digits. *)
Definition field_text (w : nat) (z : Z) (s : string) : Prop :=
  String.length s = w /\ str_all is_ascii_digit s = true /\ dec_val s = z.

Lemma pad_field w z :
  (0 < w)%nat -> 0 <= z < 10 ^ Z.of_nat w -> field_text w z (pad_left0 w (show_Z z)).
Proof.
  intros Hw Hz. pose proof (show_length z w Hz Hw).
  destruct (show_nonneg_digits z) as (Hd & Hv & _); [lia|].
  unfold field_text, pad_left0. rewrite str_all_app, str_length_app, zeros_length, zeros_digits, Hd.
  split_and!; [lia|done|]. unfold dec_val in *. by rewrite dec_val_from_app, dec_val_zeros.
Qed.

Lemma parse_int_digits t s :
  lo t <= 0 -> str_all is_ascii_digit s = true -> s ≠ EmptyString -> dec_val s <= hi t ->
  parse_int t s = Ok (dec_val s).
Proof.
  intros Hlo Hd Hs Hv. destruct s as [|c s]; [done|]. unfold parse_int.
  assert (is_ascii_digit c = true) as Hc by (cbn in Hd; by apply andb_true_iff in Hd as [? _]).
  rewrite !bool_decide_false by (intros ->; by vm_compute in Hc).
  rewrite parse_loop_pos by done. rewrite (proj2 (Z.leb_le _ _)) by done. by rewrite orb_true_r.
Qed.

Lemma parse_field ts a b f w z s :
  String.substring a (b - a) ts = s -> field_text w z s -> (0 < w)%nat -> z <= hi u32 ->
  parse_decimal_u32 ts a b f = Ok z.
Proof.
  unfold parse_decimal_u32. intros -> (Hl & Hd & Hv) Hw Hz. cbv zeta. rewrite Hd. cbn [negb].
  rewrite parse_int_digits; [by rewrite Hv|done|done| |by rewrite Hv].
  intros ->. cbn in Hl. lia.
Qed.

(** The text of a date, byte by byte. *)
Definition date_time_bytes (y1 y2 y3 y4 m1 m2 d1 d2 h1 h2 i1 i2 s1 s2 : ascii) (rest : string)
  : string :=
  String y1 (String y2 (String y3 (String y4 (String "-" (String m1 (String m2 (String "-"
  (String d1 (String d2 (String "T" (String h1 (String h2 (String ":" (String i1 (String i2
  (String ":" (String s1 (String s2 rest)))))))))))))))))).

Lemma field_two w z s :
  field_text w z s -> w = 2%nat -> exists a b, s = String a (String b EmptyString).
Proof.
  intros (Hl & _) ->. destruct s as [|a [|b [|c s]]]; cbn in Hl; try lia. eauto.
Qed.

Lemma field_four w z s :
  field_text w z s -> w = 4%nat ->
  exists a b c d, s = String a (String b (String c (String d EmptyString))).
Proof.
  intros (Hl & _) ->. destruct s as [|a [|b [|c [|d [|e s]]]]]; cbn in Hl; try lia. eauto.
Qed.

Lemma days_in_month_31 y m : days_in_month y m <= 31.
Proof. unfold days_in_month. repeat case_match; lia. Qed.

Lemma date_time_text_parse d rest :
  fields_ok d ->
  separators_ok (date_time_text d +:+ rest) = true /\
  (exists y1 y2 y3 y4 m1 m2 d1 d2 h1 h2 i1 i2 s1 s2,
     date_time_text d +:+ rest = date_time_bytes y1 y2 y3 y4 m1 m2 d1 d2 h1 h2 i1 i2 s1 s2 rest) /\
  parse_utc_date_time_seconds (date_time_text d +:+ rest) = Ok (seconds_of d).
Proof.
  intros (Hy & Hm & Hd & Hh & Hi & Hs). pose proof (days_in_month_31 (year d) (month d)).
  pose proof (pad_field 4 (year d) ltac:(lia) ltac:(cbn; lia)) as Fy.
  pose proof (pad_field 2 (month d) ltac:(lia) ltac:(cbn; lia)) as Fm.
  pose proof (pad_field 2 (day d) ltac:(lia) ltac:(cbn; lia)) as Fd.
  pose proof (pad_field 2 (hour d) ltac:(lia) ltac:(cbn; lia)) as Fh.
  pose proof (pad_field 2 (minute d) ltac:(lia) ltac:(cbn; lia)) as Fi.
  pose proof (pad_field 2 (second d) ltac:(lia) ltac:(cbn; lia)) as Fs.
  unfold date_time_text, two.
  destruct (field_four _ _ _ Fy eq_refl) as (y1 & y2 & y3 & y4 & Ey).
  destruct (field_two _ _ _ Fm eq_refl) as (m1 & m2 & Em).
  destruct (field_two _ _ _ Fd eq_refl) as (d1 & d2 & Ed).
  destruct (field_two _ _ _ Fh eq_refl) as (h1 & h2 & Eh).
  destruct (field_two _ _ _ Fi eq_refl) as (i1 & i2 & Ei).
  destruct (field_two _ _ _ Fs eq_refl) as (s1 & s2 & Es).
  rewrite Ey, Em, Ed, Eh, Ei, Es in *.
  pose (ts := date_time_bytes y1 y2 y3 y4 m1 m2 d1 d2 h1 h2 i1 i2 s1 s2 rest).
  match goal with |- separators_ok ?t = _ /\ _ => change t with ts end.
  split; [done|]. split; [by repeat eexists|].
  unfold parse_utc_date_time_seconds.
  rewrite (parse_field ts 0 4 _ 4 (year d) _ eq_refl Fy) by (change (hi u32) with 4294967295; lia).
  rewrite (parse_field ts 5 7 _ 2 (month d) _ eq_refl Fm) by (change (hi u32) with 4294967295; lia).
  rewrite (parse_field ts 8 10 _ 2 (day d) _ eq_refl Fd) by (change (hi u32) with 4294967295; lia).
  rewrite (parse_field ts 11 13 _ 2 (hour d) _ eq_refl Fh) by (change (hi u32) with 4294967295; lia).
  rewrite (parse_field ts 14 16 _ 2 (minute d) _ eq_refl Fi) by (change (hi u32) with 4294967295; lia).
  assert (Hsec : String.substring 17 (19 - 17) ts = String s1 (String s2 EmptyString))
    by (by destruct rest).
  rewrite (parse_field ts 17 19 _ 2 (second d) _ Hsec Fs) by (change (hi u32) with 4294967295; lia).
  cbn [mbind result_bind].
  match goal with |- (if ?b then _ else _) = _ => assert (b = false) as -> by lia end. cbv zeta.
  match goal with |- (if ?b then _ else _) = _ => assert (b = false) as -> by lia end. done.
Qed.

(** Every second from 1970 to the end of 2099 survives its text form: the
    formatter's loop over the years ends, and the audit parser reads back the
    same second, and the same millisecond of the long form. *)
Theorem timestamp_roundtrip secs millis :
  0 <= secs <= LAST_SECOND -> 0 <= millis <= 999 ->
  (exists s, format_rfc3339_utc secs = Some s /\ parse_rfc3339_utc_seconds s = Ok secs) /\
  (exists s, current_iso8601_utc secs millis = Some s /\
     parse_audit_timestamp_ms s = Ok (secs * 1000 + millis)).
Proof.
  intros Hs Hms. destruct (epoch_fields secs Hs) as (d & Hd & Hok & Hsec).
  unfold format_rfc3339_utc, current_iso8601_utc. rewrite Hd. cbn [mbind option_bind]. split.
  - eexists. split; [reflexivity|]. unfold parse_rfc3339_utc_seconds.
    destruct (date_time_text_parse d "Z" Hok) as (-> & Hb & ->).
    destruct Hb as (y1 & y2 & y3 & y4 & m1 & m2 & d1 & d2 & h1 & h2 & i1 & i2 & s1 & s2 & ->).
    cbn. by rewrite Hsec.
  - eexists. split; [reflexivity|]. unfold parse_audit_timestamp_ms.
    pose proof (pad_field 3 millis ltac:(lia) ltac:(cbn; lia)) as Fm.
    destruct (pad_left0 3 (show_Z millis)) as [|a [|b [|c [|x r]]]] eqn:Em;
      try (destruct Fm as [Hl _]; cbn in Hl; lia).
    set (rest := "." +:+ String a (String b (String c EmptyString)) +:+ "Z").
    destruct (date_time_text_parse d rest Hok) as (-> & Hb & ->).
    destruct Hb as (y1 & y2 & y3 & y4 & m1 & m2 & d1 & d2 & h1 & h2 & i1 & i2 & s1 & s2 & ->).
    set (ts := date_time_bytes _ _ _ _ _ _ _ _ _ _ _ _ _ _ _).
    assert (((String.length ts =? 24)%nat && true && byte_is ts 19 "." && byte_is ts 23 "Z") = true)
      as -> by done.
    cbn [negb mbind result_bind].
    rewrite (parse_field ts 20 23 _ 3 millis _ eq_refl Fm) by (change (hi u32) with 4294967295; lia).
    cbn [mbind result_bind]. rewrite (proj2 (Z.ltb_ge _ _)) by lia. by rewrite Hsec.
Qed.

Lemma timestamp_roundtrip_witness :
  format_rfc3339_utc 1777552496 = Some "2026-04-30T12:34:56Z" /\
  (exists s, format_rfc3339_utc 1777552496 = Some s /\ parse_rfc3339_utc_seconds s = Ok 1777552496) /\
  (exists s, current_iso8601_utc 1777552496 7 = Some s /\
     parse_audit_timestamp_ms s = Ok (1777552496 * 1000 + 7)).
Proof.
  split; [by vm_compute|]. apply timestamp_roundtrip; unfold LAST_SECOND; lia.
Defined.
