(* ===== verification/AuditEntry.v ===== *)
(** * Audit entries and their hash chain (stellar-agent-core, [audit_log/chain.rs],
      [audit_log/entry.rs], [audit_log/tip_anchor.rs])

    An entry is one JSON line.  Its hash covers the JSON of the entry with an
    empty [previous_entry_hash], followed by the 32 bytes of the previous hash.
    The event payloads that the chain never looks into are one constructor over
    a type that stays abstract; [serde_json] on entries is the class [AuditJson].
    The tip anchor is the text kept in the keyring that names the last entry. *)

From S2P Require Import Prelude RustStr Bytes.
From stdpp Require Import options.

Local Open Scope string_scope.
Local Open Scope list_scope.
Local Open Scope Z_scope.

(** ** Hashes as text *)

Definition ZERO_BLOCK_HASH : string :=
  "sha256:66687aadf862bd776c8fc18b8e9f8e20089714856ee233b3902a591d0d5f2925".

Inductive HashError := HashInvalidFormat | HashInvalidHex.
Inductive HmacError := HmacInvalidKeyLength | HmacInvalidTagFormat | HmacTagMismatch.

(** The decoder of this file takes lower-case digits only. *)
Definition hex_nibble (b : ascii) : option Z :=
  if byte_in 48 57 b then Some (byte_val b - 48)
  else if byte_in 97 102 b then Some (byte_val b - 97 + 10)
  else None.

Fixpoint decode_to_slice (s : string) : option (list Z) :=
  match s with
  | String a (String b rest) =>
      hi ← hex_nibble a; lo ← hex_nibble b; out ← decode_to_slice rest;
      Some (Z.lor (Z.shiftl hi 4) lo :: out)
  | EmptyString => Some []
  | _ => None
  end.

Definition decode_hash (s : string) : result HashError (list Z) :=
  hex_part ← ok_or HashInvalidFormat (strip_prefix "sha256:" s);
  if negb (len hex_part =? 64) then Err HashInvalidFormat
  else ok_or HashInvalidHex (decode_to_slice hex_part).

(** [format!("sha256:{}", hex::encode(..))]. *)
Definition hash_text (digest : list Z) : string := "sha256:" +:+ encode digest.

Section hashes.
Context `{!Sha2}.

Definition compute_entry_hash (canonical_body : list Z) (previous_entry_hash : string)
  : result HashError string :=
  prev_bytes ← decode_hash previous_entry_hash;
  Ok (hash_text (sha256 (canonical_body ++ prev_bytes))).

(** [Hmac::new_from_slice] takes keys of every length. *)
Definition sign_chain_root (key canonical_body : list Z) : string :=
  hash_text (hmac_sha256 key canonical_body).

Definition verify_chain_root (key canonical_body : list Z) (tag_hex : string)
  : result HmacError unit :=
  tag_bytes ← map_err (fun _ => HmacInvalidTagFormat) (decode_hash tag_hex);
  if bool_decide (hmac_sha256 key canonical_body = tag_bytes) then Ok ()
  else Err HmacTagMismatch.

End hashes.

(** ** Entries *)

Definition MAX_ENTRY_BYTES : Z := 4096.
Definition MAX_ARG_KEYS : nat := 64.

Inductive AuditDecision := AuditAllow | AuditDeny (reason : string) | AuditRequireApproval.

Inductive TipAnchorReason := Adopted | RollbackAcknowledged | BindingChanged.

(** The kinds the log itself writes and reads; [OtherEvent] stands for the kinds
    of the rest of the program, over the type [E] of their payloads. *)
Inductive EventKind (E : Type) :=
| ToolInvocation
| AuditRotationHandoff (next_file_name : string)
| AuditTipAnchored (reason : TipAnchorReason) (entry_count : Z) (previous_anchor : option string)
    (reanchor_count : option Z)
| OtherEvent (e : E).
Arguments ToolInvocation {E}.
Arguments AuditRotationHandoff {E} _.
Arguments AuditTipAnchored {E} _ _ _ _.
Arguments OtherEvent {E} _.

Record AuditEntry (E : Type) := MkEntry {
  ae_ts : string;
  ae_tool : string;
  ae_chain_id : option string;
  ae_arg_keys : list string;
  ae_arg_keys_truncated : option Z;
  ae_truncated : bool;
  ae_envelope_hash : option string;
  ae_nonce_id : option string;
  ae_policy_decision : AuditDecision;
  ae_decision_reason : option string;
  ae_request_id : string;
  ae_event_kind : EventKind E;
  ae_previous_entry_hash : string;
}.
Arguments MkEntry {E} _ _ _ _ _ _ _ _ _ _ _ _ _.
Arguments ae_ts {E} _.
Arguments ae_tool {E} _.
Arguments ae_chain_id {E} _.
Arguments ae_arg_keys {E} _.
Arguments ae_arg_keys_truncated {E} _.
Arguments ae_truncated {E} _.
Arguments ae_envelope_hash {E} _.
Arguments ae_nonce_id {E} _.
Arguments ae_policy_decision {E} _.
Arguments ae_decision_reason {E} _.
Arguments ae_request_id {E} _.
Arguments ae_event_kind {E} _.
Arguments ae_previous_entry_hash {E} _.

(** Field updates. *)
Definition with_previous {E} (h : string) (e : AuditEntry E) : AuditEntry E :=
  MkEntry (ae_ts e) (ae_tool e) (ae_chain_id e) (ae_arg_keys e) (ae_arg_keys_truncated e)
    (ae_truncated e) (ae_envelope_hash e) (ae_nonce_id e) (ae_policy_decision e)
    (ae_decision_reason e) (ae_request_id e) (ae_event_kind e) h.
Definition with_keys {E} (keys : list string) (dropped : option Z) (e : AuditEntry E)
  : AuditEntry E :=
  MkEntry (ae_ts e) (ae_tool e) (ae_chain_id e) keys dropped
    true (ae_envelope_hash e) (ae_nonce_id e) (ae_policy_decision e)
    (ae_decision_reason e) (ae_request_id e) (ae_event_kind e) (ae_previous_entry_hash e).

(** An entry the log writes about itself; [ts] is the clock's text. *)
Definition internal_entry {E} (ts tool request_id : string) (kind : EventKind E) : AuditEntry E :=
  MkEntry ts tool None [] None false None None AuditAllow None request_id kind EmptyString.

Definition new_rotation_handoff {E} (ts next_file_name request_id : string) : AuditEntry E :=
  internal_entry ts "audit.rotation_handoff_to" request_id (AuditRotationHandoff next_file_name).

Definition new_audit_tip_anchored {E} (ts : string) (reason : TipAnchorReason) (entry_count : Z)
    (previous_anchor : option string) (reanchor_count : option Z) (request_id : string)
  : AuditEntry E :=
  internal_entry ts "audit.tip_anchored" request_id
    (AuditTipAnchored reason entry_count previous_anchor reanchor_count).

(** [serde_json::to_vec] and [serde_json::from_slice] of entries, and whether a
    text is JSON at all.  Serialising a derived structure without maps does not
    fail. *)
Class AuditJson (E : Type) := {
  to_vec : AuditEntry E -> string;
  from_slice : string -> result string (AuditEntry E);
  json_value : string -> bool;
}.

(** A printable byte: JSON escapes the control characters. *)
Definition json_byte (a : ascii) : bool := 32 <=? byte_val a.

(** An entry reads back; its text is one JSON object on one line of UTF-8.  What
    reads as an entry has a brace, and only whitespace may follow it. *)
Class AuditJsonLaws (E : Type) `{!AuditJson E} := {
  from_to_vec e : from_slice (to_vec e) = Ok e;
  to_vec_object e : exists fields, to_vec e = "{" +:+ fields +:+ "}";
  to_vec_bytes e : str_all json_byte (to_vec e) = true;
  to_vec_utf8 e : utf8_valid (to_vec e) = true;
  from_slice_object s e : from_slice s = Ok e -> contains "{" s = true;
  from_slice_prefix s t e e' : from_slice s = Ok e -> from_slice (s +:+ t) = Ok e' ->
    e' = e /\ str_all is_ascii_whitespace t = true;
}.

Section entries.
Context {E : Type} `{!AuditJson E} `{!Sha2}.

Definition canonical_json_body (e : AuditEntry E) : string := to_vec (with_previous EmptyString e).

Definition compute_entry_hash_streamed (e : AuditEntry E) (previous_entry_hash : string)
  : result HashError string :=
  prev_bytes ← decode_hash previous_entry_hash;
  Ok (hash_text (sha256 (as_bytes (canonical_json_body e) ++ prev_bytes))).

Definition dropped (e : AuditEntry E) (n : Z) : option Z :=
  Some (default 0 (ae_arg_keys_truncated e) + n).

(** The loop drops the last key until the line fits; it has run once for every
    key when none is left. *)
Fixpoint truncate_loop (keys : nat) (e : AuditEntry E) : AuditEntry E :=
  if len (to_vec e) <=? MAX_ENTRY_BYTES then e
  else match keys with
       | O => with_keys (ae_arg_keys e) (ae_arg_keys_truncated e) e
       | S keys' =>
           truncate_loop keys' (with_keys (removelast (ae_arg_keys e)) (dropped e 1) e)
       end.

Definition truncate_arg_keys_if_needed (e : AuditEntry E) : AuditEntry E :=
  let n := length (ae_arg_keys e) in
  let e := if (MAX_ARG_KEYS <? n)%nat
           then with_keys (take MAX_ARG_KEYS (ae_arg_keys e)) (dropped e (Z.of_nat (n - MAX_ARG_KEYS))) e
           else e in
  truncate_loop (length (ae_arg_keys e)) e.

End entries.

(** ** The tip anchor *)

Definition SHA256_HEX_LEN : Z := 64.

Record TipAnchor := MkAnchor { ta_entry_count : Z; ta_tip_hash : string; ta_end_offset : Z }.

Inductive TipAnchorParseError := FieldCount | EntryCount | TipHash | EndOffset | EmptyAnchor.

Definition parse_decimal_u64 (s : string) : option Z :=
  if is_empty s || negb (str_all is_ascii_digit s) then None
  else if (1 <? len s) && starts_with "0" s then None
  else ok (parse_int u64 s).

Definition is_lower_hex (b : ascii) : bool := byte_in 48 57 b || byte_in 97 102 b.

Definition tip_anchor_parse (value : string) : result TipAnchorParseError TipAnchor :=
  match split ":" value with
  | [count; hash; offset] =>
      entry_count ← ok_or EntryCount (parse_decimal_u64 count);
      if entry_count =? 0 then Err EmptyAnchor
      else if negb (len hash =? SHA256_HEX_LEN) || negb (str_all is_lower_hex hash)
      then Err TipHash
      else
        end_offset ← ok_or EndOffset (parse_decimal_u64 offset);
        Ok (MkAnchor entry_count ("sha256:" +:+ hash) end_offset)
  | _ => Err FieldCount
  end.

Definition to_keyring_value (a : TipAnchor) : string :=
  show_Z (ta_entry_count a) +:+ ":" +:+ default (ta_tip_hash a) (strip_prefix "sha256:" (ta_tip_hash a))
  +:+ ":" +:+ show_Z (ta_end_offset a).

Definition matches_tip (a : TipAnchor) (entry_count : Z) (tip_hash : string) (end_offset : Z) : bool :=
  (ta_entry_count a =? entry_count) && (ta_end_offset a =? end_offset)
  && bool_decide (ta_tip_hash a = tip_hash).

Definition coordinates (a : TipAnchor) : string :=
  show_Z (ta_entry_count a) +:+ ":" +:+ show_Z (ta_end_offset a).

Global Instance HashError_eq_dec : EqDecision HashError.
Proof. solve_decision. Defined.
Global Instance TipAnchor_eq_dec : EqDecision TipAnchor.
Proof. solve_decision. Defined.
