(* ===== verification/AuditFiles.v ===== *)
(** * The files of an audit log (stellar-agent-core, [audit_log/verify.rs],
      [audit_log/writer.rs])

    A log is one active file and its rotated archives in one directory.  A
    directory maps base names to nodes; a file is its bytes.  Here are the
    readers both the writer and the verifier use: the list of files in order, the
    lines of a file, its last line before an offset, the replay of its hash chain
    and the hash a file starts from. *)

From S2P Require Import Prelude RustStr Bytes AuditEntry.
From stdpp Require Import options.

Local Open Scope string_scope.
Local Open Scope list_scope.
Local Open Scope Z_scope.

(** ** Errors *)

Inductive PartialRotationState :=
| OrphanSidecar (sidecar_path expected_log_path : string)
| MidRename (tmp_path : string) (size_bytes : Z)
| PartialHandoffWrite (log_path : string) (file_size_bytes partial_entry_offset : Z).

Inductive VerifyError :=
| ChainBroken (line : Z) (file reason : string)
| RotationGap (file : string)
| HmacMismatch (file : string)
| HmacSidecarMissing (file : string)
| TooManyRotatedFiles (found cap : Z)
| NonRegularFileLogPath (path : string)
| VParseError (line : Z) (detail : string)
| VPathContract (detail : string)
| LogNotFound (path : string)
| VIo (kind : string)
| VSignerSetCanonicalBody (detail : string)
| VPartialRotation (state : PartialRotationState) (recovery_hint : string)
| VTipAnchorMismatch (expected_count expected_offset actual_count actual_offset : Z) (reason : string).

(** [OutboxUnusable] leaves out the column and class of the JSON error. *)
Inductive WriterError :=
| WIo (kind : string)
| FileLocked
| WPathContract (detail : string)
| Serialise (detail : string)
| WHash (e : HashError)
| WPartialRotation (archive_name : string)
| ChainBrokenAtOpen (entry_idx : Z) (expected_hex got_hex : string)
| PathMismatch (profile_name cached_path requested_path : string)
| HmacKeyMismatch (profile_name : string)
| IntegrityViolation (e : VerifyError)
| WTipAnchorMismatch (expected_count expected_offset actual_len : Z) (reason : string)
| WTipAnchorStore (detail : string)
| TipAnchorUnavailable
| RotationBridgeUnusable (archive_name reason : string)
| OutboxBusy
| OutboxUnusable (line : Z).

(** ** Directories *)

(** [Special]: not a regular file; [Unreadable]: its metadata or its content
    cannot be read. *)
Inductive DirNode := Regular (content : string) | Special | Unreadable (kind : string).

Abbreviation Dir := (gmap string DirNode) (only parsing).

Definition exists_in (d : Dir) (name : string) : bool := bool_decide (is_Some (d !! name)).

Definition open_regular_file (d : Dir) (name : string) : result VerifyError string :=
  match d !! name with
  | Some (Regular content) => Ok content
  | Some Special => Err (NonRegularFileLogPath name)
  | Some (Unreadable kind) => Err (VIo kind)
  | None => Err (VIo "entity not found")
  end.

(** [read_to_string]: the content must be UTF-8. *)
Definition read_regular_file_to_string (d : Dir) (name : string) : result VerifyError string :=
  content ← open_regular_file d name;
  if utf8_valid content then Ok content else Err (VIo "invalid data").

Definition sidecar_path (name suffix : string) : string := name +:+ suffix.
Definition hmac_sidecar_path (name : string) : string := sidecar_path name ".root_hmac".

(** ** Archive names *)

Definition is_rotated_suffix (base_suffix : string) : bool :=
  ((len base_suffix =? 15) || (len base_suffix =? 18))
  && str_all is_ascii_digit (String.substring 0 8 base_suffix)
  && bool_decide (String.get 8 base_suffix = Some "T"%char)
  && str_all is_ascii_digit (String.substring 9 (String.length base_suffix - 9) base_suffix).

Definition is_rotated_sibling (stem name : string) : bool :=
  match strip_prefix (stem +:+ ".") name with
  | None => false
  | Some suffix =>
      match split_once "-" suffix with
      | Some (base_suffix, collision) =>
          negb (is_empty collision) && str_all is_ascii_digit collision
          && (len base_suffix =? 18) && is_rotated_suffix base_suffix
      | None => is_rotated_suffix suffix
      end
  end.

Definition MAX_ROTATED_FILES : Z := 10.
Definition ROTATED_FILE_CHAIN_CAP : Z := MAX_ROTATED_FILES * 2 + 1.

(** The archives of the log, in no order ([read_dir]). *)
Definition rotated_names (d : Dir) (stem : string) : list string :=
  filter (fun name => is_rotated_sibling stem name = true) (fst <$> map_to_list d).

(** The archives by name, then the active file.  The reader gives up at the
    first archive beyond the cap. *)
Definition collect_file_chain (d : Dir) (stem : string) : result VerifyError (list string) :=
  let rotated := rotated_names d stem in
  if ROTATED_FILE_CHAIN_CAP <? count rotated
  then Err (TooManyRotatedFiles (ROTATED_FILE_CHAIN_CAP + 1) ROTATED_FILE_CHAIN_CAP)
  else Ok (sort_strings rotated ++ [stem]).

(** ** Lines *)

(** [read_until(b'\n')] until the end of the file: every line with its newline. *)
Fixpoint raw_lines (s : string) : list string :=
  match s with
  | EmptyString => []
  | String a s' =>
      if bool_decide (a = newline) then String a EmptyString :: raw_lines s'
      else match raw_lines s' with
           | [] => [String a EmptyString]
           | l :: ls => String a l :: ls
           end
  end.

Definition strip_last (c : ascii) (s : string) : string :=
  if ends_with c s then String.substring 0 (String.length s - 1) s else s.
Definition strip_line_terminator (raw : string) : string :=
  strip_last carriage_return (strip_last newline raw).

Definition SCAN_CHUNK : Z := 4096.

Fixpoint drop_whitespace (s : string) : string :=
  match s with
  | EmptyString => EmptyString
  | String a s' => if is_ascii_whitespace a then drop_whitespace s' else s
  end.
(** [while buf.last().is_some_and(is_ascii_whitespace) { buf.pop(); }] *)
Definition pop_whitespace (buf : string) : string := str_rev (drop_whitespace (str_rev buf)).

(** What follows the last newline. *)
Fixpoint after_last_newline (s : string) : option string :=
  match s with
  | EmptyString => None
  | String a s' =>
      match after_last_newline s' with
      | Some t => Some t
      | None => if bool_decide (a = newline) then Some s' else None
      end
  end.

(** The backward scan in chunks.  [None] means the fuel ran out. *)
Fixpoint last_line_loop (fuel : nat) (content : string) (scan_end : nat) (buf : string)
  : option (option string) :=
  match fuel with
  | O => None
  | S fuel' =>
      let chunk_size := Z.to_nat (Z.min SCAN_CHUNK (Z.of_nat scan_end)) in
      let chunk_start := (scan_end - chunk_size)%nat in
      let buf := pop_whitespace (String.substring chunk_start chunk_size content +:+ buf) in
      if is_empty buf then
        if (chunk_start =? 0)%nat then Some None else last_line_loop fuel' content chunk_start buf
      else
        match after_last_newline buf with
        | Some line => Some (Some (strip_line_terminator line))
        | None =>
            if (chunk_start =? 0)%nat then Some (Some (strip_line_terminator buf))
            else last_line_loop fuel' content chunk_start buf
        end
  end.

Definition read_last_line_before (content : string) (end_offset : Z) : option string :=
  let scan_end := Nat.min (Z.to_nat end_offset) (String.length content) in
  if (scan_end =? 0)%nat then None
  else default None (last_line_loop (S scan_end) content scan_end EmptyString).

(** ** Replaying a file *)

Record ChainScan := MkScan { cs_last_hash : string; cs_entry_count : Z; cs_end_offset : Z }.

Section replay.
Context {E : Type} `{!AuditJson E} `{!Sha2}.

(** File lengths are far below 2^64, where the code's counters saturate. *)
Fixpoint scan_lines (raws : list string) (last_hash : string) (entry_idx consumed end_offset : Z)
  : result WriterError ChainScan :=
  match raws with
  | [] => Ok (MkScan last_hash entry_idx end_offset)
  | raw :: raws' =>
      let consumed := consumed + len raw in
      let line := strip_line_terminator raw in
      if str_all is_ascii_whitespace line
      then scan_lines raws' last_hash entry_idx consumed end_offset
      else
        let entry_idx := entry_idx + 1 in
        entry ← map_err Serialise (from_slice line);
        if negb (bool_decide (ae_previous_entry_hash entry = last_hash))
        then Err (ChainBrokenAtOpen entry_idx last_hash (ae_previous_entry_hash entry))
        else
          hash ← map_err WHash (compute_entry_hash_streamed entry (ae_previous_entry_hash entry));
          scan_lines raws' hash entry_idx consumed consumed
  end.

Definition read_and_verify_entry_chain (content : string) (start_offset : Z) (seed_hash : string)
  : result WriterError ChainScan :=
  let tail := String.substring (Z.to_nat start_offset)
                (String.length content - Z.to_nat start_offset) content in
  scan_lines (raw_lines tail) seed_hash 0 start_offset start_offset.

(** The archive the active file continues: the one before the last of the list. *)
Definition newest_archive (chain : list string) : option string := last (removelast chain).

Definition initial_chain_seed (d : Dir) (stem : string) : result WriterError string :=
  chain ← map_err IntegrityViolation (collect_file_chain d stem);
  match newest_archive chain with
  | None => Ok ZERO_BLOCK_HASH
  | Some archive =>
      match d !! archive with
      | None | Some (Unreadable _) => Ok ZERO_BLOCK_HASH
      | Some Special => Err (WIo "is a directory")
      | Some (Regular content) =>
          match read_last_line_before content (len content) with
          | None => Ok ZERO_BLOCK_HASH
          | Some line =>
              entry ← map_err (fun _ => RotationBridgeUnusable archive
                         "the archive's last line is not a parseable audit entry") (from_slice line);
              match ae_event_kind entry with
              | AuditRotationHandoff next_file_name =>
                  if bool_decide (next_file_name = archive)
                  then map_err WHash (compute_entry_hash_streamed entry (ae_previous_entry_hash entry))
                  else Err (RotationBridgeUnusable archive
                         "the archive's handoff entry names a different archive")
              | _ => Err (RotationBridgeUnusable archive
                         "the archive does not end with a rotation handoff entry")
              end
          end
      end
  end.

End replay.
