(* ===== verification/AuditVerify.v ===== *)
(** * Verification of an audit log (stellar-agent-core, [audit_log/verify.rs])

    The walk over the files of a log in order, line by line: each entry must
    parse, carry a readable timestamp and name the hash of the entry before it;
    with a key, the first entry of each file must carry the tag of its sidecar;
    every archive must end its chain with a handoff to its own name.  Then the
    check of the keyring's tip anchor against the walk. *)

From S2P Require Import Prelude RustStr Bytes Time AuditEntry AuditFiles.
From stdpp Require Import options.

Local Open Scope string_scope.
Local Open Scope list_scope.
Local Open Scope Z_scope.

Definition BACKWARD_TS_WARN_THRESHOLD_MS : Z := 60000.

Inductive VerifyWarning :=
| BackwardTimestampJump (previous_ts current_ts : string) (drift_ms file_index entry_index : Z)
| OutboxTornTail (torn_bytes : Z)
| OutboxUnparseable (lines : list Z)
| OutboxUnreadable (error_kind : string).

Record VerifiedTip := MkTip { vt_entry_count : Z; vt_tip_hash : string; vt_end_offset : Z }.

Record FileVerifyResult := MkFileResult {
  fv_path : string; fv_entries_verified : Z; fv_hmac_verified : option bool }.

Record VerifyOk := MkVerifyOk {
  vo_entries_verified : Z;
  vo_files_walked : Z;
  vo_per_file : list FileVerifyResult;
  vo_warnings : list VerifyWarning;
  vo_hmac_verified : bool;
  vo_active_tip : option VerifiedTip;
}.

Record SingleFileResult := MkSingle {
  sf_entries : Z;
  sf_last_hash : string;
  sf_end_offset : Z;
  sf_last_timestamp : option (string * Z);
  sf_warnings : list VerifyWarning;
  sf_sidecar_verified : bool;
}.

Record VerifySingleFileContext := {
  vc_path : string;
  vc_hmac_key : option (list Z);
  vc_expected_initial_prev_hash : option string;
  vc_next_file_basename : option string;
  vc_is_last_file : bool;
  vc_active_stem : string;
  vc_file_index : Z;
  vc_previous_timestamp : option (string * Z);
}.

(** The variables of the loop over the lines of one file. *)
Record FileWalk := MkWalk {
  fw_prev_hash : string;
  fw_entries : Z;
  fw_end_offset : Z;
  fw_is_first_entry : bool;
  fw_last_handoff : option string;
  fw_previous_timestamp : option (string * Z);
  fw_warnings : list VerifyWarning;
  fw_consumed : Z;
  fw_line_index : Z;
}.

(** The texts of errors of the standard library. *)
Class Utf8Error := { utf8_error : string -> string }.

Definition HashError_to_string (e : HashError) : string :=
  match e with
  | HashInvalidFormat => "invalid hash format: expected 'sha256:<64-hex-chars>'"
  | HashInvalidHex => "invalid hex in hash string"
  end.

Definition sanitize_handoff_next_file_name (active_stem next_file_name : string) : string :=
  if is_rotated_sibling active_stem next_file_name then next_file_name
  else "<invalid: " +:+ show_Z (len next_file_name) +:+ " bytes>".

Section verify.
Context {E : Type} `{!AuditJson E} `{!Sha2} `{!Utf8Error}.
Variable d : Dir.

(** The warning of a timestamp that lies more than a minute before the last. *)
Definition timestamp_warning (ctx : VerifySingleFileContext) (st : FileWalk) (ts : string)
    (current_ts_ms : Z) : list VerifyWarning :=
  match fw_previous_timestamp st with
  | Some (previous_ts, previous_ts_ms) =>
      let drift_ms := previous_ts_ms - current_ts_ms in
      if (current_ts_ms <? previous_ts_ms) && (BACKWARD_TS_WARN_THRESHOLD_MS <? drift_ms)
      then [BackwardTimestampJump previous_ts ts drift_ms (vc_file_index ctx) (fw_entries st)]
      else []
  | None => []
  end.

(** The chain-root tag, checked on the first entry of a file. *)
Definition check_sidecar (ctx : VerifySingleFileContext) (body : string) : result VerifyError unit :=
  match vc_hmac_key ctx with
  | None => Ok ()
  | Some key =>
      let sidecar := hmac_sidecar_path (vc_path ctx) in
      if exists_in d sidecar then
        tag ← read_regular_file_to_string d sidecar;
        map_err (fun _ => HmacMismatch (vc_path ctx)) (verify_chain_root key (as_bytes body) (trim tag))
      else Err (HmacSidecarMissing (vc_path ctx))
  end.

(** One line of the file. *)
Definition verify_line (ctx : VerifySingleFileContext) (st : FileWalk) (raw : string)
  : result VerifyError FileWalk :=
  let consumed := fw_consumed st + len raw in
  let line_number := fw_line_index st + 1 in
  let line := strip_line_terminator raw in
  if negb (utf8_valid line)
  then Err (VParseError line_number ("line is not valid UTF-8: " +:+ utf8_error line))
  else if is_empty (trim line)
  then Ok (MkWalk (fw_prev_hash st) (fw_entries st) (fw_end_offset st) (fw_is_first_entry st)
             (fw_last_handoff st) (fw_previous_timestamp st) (fw_warnings st) consumed line_number)
  else
    entry ← map_err (VParseError line_number) (from_slice line);
    current_ts_ms ← map_err (VParseError line_number) (parse_audit_timestamp_ms (ae_ts entry));
    let warnings := fw_warnings st ++ timestamp_warning ctx st (ae_ts entry) current_ts_ms in
    if negb (bool_decide (ae_previous_entry_hash entry = fw_prev_hash st))
    then Err (ChainBroken line_number (vc_path ctx) "previous_entry_hash_mismatch")
    else
      let body := canonical_json_body entry in
      current_hash ← map_err (fun e => VParseError line_number (HashError_to_string e))
                       (compute_entry_hash (as_bytes body) (fw_prev_hash st));
      _ ← (if fw_is_first_entry st then check_sidecar ctx body else Ok ());
      last_handoff ←
        match ae_event_kind entry with
        | AuditRotationHandoff next_file_name =>
            if vc_is_last_file ctx
            then Err (ChainBroken line_number (vc_path ctx) "rotation_handoff_in_active_file")
            else Ok (Some next_file_name)
        | _ => Ok (fw_last_handoff st)
        end;
      Ok (MkWalk current_hash (fw_entries st + 1) consumed false last_handoff
            (Some (ae_ts entry, current_ts_ms)) warnings consumed line_number).

Fixpoint verify_lines (ctx : VerifySingleFileContext) (st : FileWalk) (raws : list string)
  : result VerifyError FileWalk :=
  match raws with
  | [] => Ok st
  | raw :: raws' => st' ← verify_line ctx st raw; verify_lines ctx st' raws'
  end.

(** After the last line: an archive must have handed off to its own name. *)
Definition check_handoff (ctx : VerifySingleFileContext) (last_handoff : option string)
  : result VerifyError unit :=
  match vc_next_file_basename ctx with
  | None => Ok ()
  | Some this_file =>
      match last_handoff with
      | Some actual =>
          if bool_decide (actual = this_file) then Ok ()
          else Err (RotationGap ("handoff names '"
                      +:+ sanitize_handoff_next_file_name (vc_active_stem ctx) actual
                      +:+ "' but file is '" +:+ this_file +:+ "'"))
      | None => Err (RotationGap ("no handoff entry in '" +:+ vc_path ctx
                      +:+ "' (expected archive name '" +:+ this_file +:+ "')"))
      end
  end.

Definition initial_walk (ctx : VerifySingleFileContext) : FileWalk :=
  MkWalk (default ZERO_BLOCK_HASH (vc_expected_initial_prev_hash ctx)) 0 0 true None
    (vc_previous_timestamp ctx) [] 0 0.

Definition verify_single_file (ctx : VerifySingleFileContext) : result VerifyError SingleFileResult :=
  content ← open_regular_file d (vc_path ctx);
  st ← verify_lines ctx (initial_walk ctx) (raw_lines content);
  _ ← check_handoff ctx (fw_last_handoff st);
  Ok (MkSingle (fw_entries st) (fw_prev_hash st) (fw_end_offset st) (fw_previous_timestamp st)
        (fw_warnings st) (bool_decide (is_Some (vc_hmac_key ctx)))).

(** The variables of the loop over the files. *)
Record LogWalk := MkLogWalk {
  lw_expected_prev_hash : option string;
  lw_previous_timestamp : option (string * Z);
  lw_warnings : list VerifyWarning;
  lw_per_file : list FileVerifyResult;
  lw_all_sidecars_verified : bool;
  lw_active_tip : option VerifiedTip;
  lw_total_entries : Z;
  lw_files_walked : Z;
}.

Definition file_context (stem : string) (key : option (list Z)) (st : LogWalk) (path : string)
    (is_last : bool) : VerifySingleFileContext := {|
  vc_path := path;
  vc_hmac_key := key;
  vc_expected_initial_prev_hash := lw_expected_prev_hash st;
  vc_next_file_basename := if is_last then None else Some path;
  vc_is_last_file := is_last;
  vc_active_stem := stem;
  vc_file_index := lw_files_walked st;
  vc_previous_timestamp := lw_previous_timestamp st;
|}.

(** One file of the chain; [rest] are the files after it. *)
Definition walk_file (stem : string) (key : option (list Z)) (st : LogWalk) (path : string)
    (rest : list string) : result VerifyError LogWalk :=
  if negb (exists_in d path) then
    Err (if lw_files_walked st =? 0 then LogNotFound path else RotationGap path)
  else
    let is_last := match rest with [] => true | _ => false end in
    r ← verify_single_file (file_context stem key st path is_last);
    let active_tip := if is_last
                      then Some (MkTip (sf_entries r) (sf_last_hash r) (sf_end_offset r))
                      else lw_active_tip st in
    Ok (MkLogWalk (Some (sf_last_hash r)) (sf_last_timestamp r) (lw_warnings st ++ sf_warnings r)
          (lw_per_file st ++ [MkFileResult path (sf_entries r)
             ((fun _ => sf_sidecar_verified r) <$> key)])
          (lw_all_sidecars_verified st && sf_sidecar_verified r) active_tip
          (lw_total_entries st + sf_entries r) (lw_files_walked st + 1)).

Fixpoint walk_files (stem : string) (key : option (list Z)) (st : LogWalk) (chain : list string)
  : result VerifyError LogWalk :=
  match chain with
  | [] => Ok st
  | path :: rest => st' ← walk_file stem key st path rest; walk_files stem key st' rest
  end.

Definition walk_log (stem : string) (key : option (list Z)) (chain : list string)
  : result VerifyError VerifyOk :=
  st ← walk_files stem key (MkLogWalk None None [] [] true None 0 0) chain;
  Ok (MkVerifyOk (lw_total_entries st) (lw_files_walked st) (lw_per_file st) (lw_warnings st)
        (bool_decide (is_Some key) && lw_all_sidecars_verified st) (lw_active_tip st)).

(** ** The tip anchor against the walk *)

Definition anchor_names_the_rotation_handoff (stem : string) (anchor : TipAnchor) : bool :=
  match initial_chain_seed d stem with
  | Ok seed => bool_decide (seed = ta_tip_hash anchor)
  | Err _ => false
  end.

Definition anchored_entry_is_intact (stem : string) (anchor : TipAnchor) : result VerifyError bool :=
  content ← open_regular_file d stem;
  Ok (match read_last_line_before content (ta_end_offset anchor) with
      | None => false
      | Some line =>
          match from_slice line with
          | Err _ => false
          | Ok entry =>
              match compute_entry_hash (as_bytes (canonical_json_body entry))
                      (ae_previous_entry_hash entry) with
              | Ok hash => bool_decide (hash = ta_tip_hash anchor)
              | Err _ => false
              end
          end
      end).

Definition check_anchor_against_walk (stem : string) (anchor : TipAnchor)
    (active_tip : option VerifiedTip) : result VerifyError unit :=
  match active_tip with
  | None => Err (VTipAnchorMismatch (ta_entry_count anchor) (ta_end_offset anchor) 0 0
                   "no active file was walked")
  | Some tip =>
      let mismatch := VTipAnchorMismatch (ta_entry_count anchor) (ta_end_offset anchor)
                        (vt_entry_count tip) (vt_end_offset tip) in
      if matches_tip anchor (vt_entry_count tip) (vt_tip_hash tip) (vt_end_offset tip) then Ok ()
      else if anchor_names_the_rotation_handoff stem anchor then Ok ()
      else if vt_end_offset tip <? ta_end_offset anchor
      then Err (mismatch "the active file's verified prefix is shorter than the anchor")
      else
        intact ← anchored_entry_is_intact stem anchor;
        if negb intact
        then Err (mismatch "the entry at the anchored offset is not the anchored entry")
        else if vt_end_offset tip =? ta_end_offset anchor
        then Err (mismatch "the active file's tip is not the anchored tip")
        else Ok ()
  end.

End verify.

(** ** The whole verification *)

(** What the verifier sees of a log that a writer may be rotating: the directory
    and the writer's lock at each scan. *)
Record LogView := { scan : nat -> Dir; lock_held : nat -> bool }.

Definition ROTATION_WINDOW_RETRY_ATTEMPTS : nat := 20.

Section verify_log.
Context {E : Type} `{!AuditJson E} `{!Sha2} `{!Utf8Error}.

Definition last_absent (view : LogView) (k : nat) (chain : list string) : bool :=
  negb (default false (exists_in (scan view k) <$> last chain)).

(** Scan [k] gave [chain]; while the active file is missing and the writer holds
    its lock, scan again. *)
Fixpoint wait_out_transient_rotation_window (attempts : nat) (view : LogView) (stem : string)
    (k : nat) (chain : list string) : result VerifyError (nat * list string) :=
  match attempts with
  | O => Ok (k, chain)
  | S attempts' =>
      if negb (last_absent view k chain) then Ok (k, chain)
      else if negb (lock_held view k) then Ok (k, chain)
      else
        chain' ← collect_file_chain (scan view (S k)) stem;
        wait_out_transient_rotation_window attempts' view stem (S k) chain'
  end.

(** The files are read from the directory of the last scan. *)
Definition verify_log (view : LogView) (stem : string) (hmac_key : option (list Z))
  : result VerifyError VerifyOk :=
  chain ← collect_file_chain (scan view 0) stem;
  '(k, chain) ←
    (if (1 <? count chain) && last_absent view 0 chain
     then wait_out_transient_rotation_window ROTATION_WINDOW_RETRY_ATTEMPTS view stem 0 chain
     else Ok (0%nat, chain));
  walk_log (scan view k) stem hmac_key chain.

(** A log that nobody is rotating. *)
Definition still (d : Dir) : LogView := {| scan _ := d; lock_held _ := false |}.

Definition verify_log_with_health (d : Dir) (stem : string) (hmac_key : option (list Z))
    (anchor : option TipAnchor) (degraded : bool) : result VerifyError (VerifyOk * bool) :=
  verify_ok ← verify_log (still d) stem hmac_key;
  _ ← match anchor with
      | Some a => check_anchor_against_walk d stem a (vo_active_tip verify_ok)
      | None => Ok ()
      end;
  Ok (verify_ok, degraded).

End verify_log.
