(* ===== verification/AuditChainProps.v ===== *)
(** * Properties of the audit hash chain

    Hash texts decode to one digest, an anchor's text is its only spelling, and
    two chains from the zero block with one tip are the same chain, unless two of
    the byte strings hashed for them collide. *)

From S2P Require Import Prelude RustStr Bytes AuditEntry.
From stdpp Require Import options.

Local Open Scope string_scope.
Local Open Scope list_scope.
Local Open Scope Z_scope.

(** ** Hash texts *)

Lemma hex_nibble_spec a n :
  hex_nibble a = Some n -> 0 <= n < 16 /\ nibble_char n = a /\ is_lower_hex a = true.
Proof.
  unfold hex_nibble, is_lower_hex, nibble_char.
  assert (Ha : a = Ascii.ascii_of_N (Z.to_N (byte_val a))).
  { unfold byte_val. by rewrite N2Z.id, Ascii.ascii_N_embedding. }
  destruct (byte_in 48 57 a) eqn:E1; [|destruct (byte_in 97 102 a) eqn:E2; [|done]];
    unfold byte_in in *; intros [= <-]; (split; [lia|]); (split; [|done]).
  - replace (byte_val a - 48 <? 10) with true by lia.
    by replace (byte_val a - 48 + 48) with (byte_val a) by lia.
  - replace (byte_val a - 97 + 10 <? 10) with false by lia.
    by replace (byte_val a - 97 + 10 + 87) with (byte_val a) by lia.
Qed.

Lemma hex_nibble_char n : 0 <= n < 16 -> hex_nibble (nibble_char n) = Some n.
Proof.
  intros H. assert (n ∈ [0;1;2;3;4;5;6;7;8;9;10;11;12;13;14;15]) as Hn.
  { rewrite !elem_of_cons. lia. }
  rewrite !elem_of_cons, elem_of_nil in Hn. repeat (destruct Hn as [->|Hn]; [done|]). done.
Qed.

Lemma decode_to_slice_encode bs : bytes_ok bs -> decode_to_slice (encode bs) = Some bs.
Proof.
  induction 1 as [|b bs Hb _ IH]; [done|]. rewrite encode_cons. unfold hex_byte.
  change (_ +:+ encode bs) with (String (nibble_char (b / 16)) (String (nibble_char (b mod 16)) (encode bs))).
  cbn [decode_to_slice].
  destruct (byte_nibbles b Hb). rewrite !hex_nibble_char by done. cbn. rewrite IH. cbn.
  by rewrite nibbles_byte.
Qed.

(** Lower-case digits have one spelling. *)
Lemma decode_to_slice_inv s bs :
  decode_to_slice s = Some bs -> s = encode bs /\ str_all is_lower_hex s = true.
Proof.
  revert bs. assert (Hn : forall n s bs, (String.length s <= n)%nat -> decode_to_slice s = Some bs ->
    s = encode bs /\ str_all is_lower_hex s = true); [|by eauto].
  clear s. induction n as [|n IH]; intros s bs Hl; destruct s as [|a [|b s]];
    cbn in Hl; try lia; cbn [decode_to_slice]; intros H; try done.
  - by injection H as <-.
  - by injection H as <-.
  - destruct (hex_nibble a) as [x|] eqn:Ea; [|done]. destruct (hex_nibble b) as [y|] eqn:Eb; [|done].
    cbn in H. destruct (decode_to_slice s) as [t|] eqn:Et; [|done]. injection H as <-.
    apply hex_nibble_spec in Ea as (Hx & <- & Hxl). apply hex_nibble_spec in Eb as (Hy & <- & Hyl).
    destruct (IH s t ltac:(lia) Et) as [-> Hl']. rewrite encode_cons. unfold hex_byte.
    assert (Hd : Z.lor (Z.shiftl x 4) y = x * 2 ^ 4 + y).
    { rewrite <- Z.shiftl_mul_pow2 with (n := 4) by lia. symmetry. apply Z.add_nocarry_lor.
      apply Z.bits_inj'. intros k Hk. rewrite Z.land_spec, Z.bits_0.
      destruct (decide (k < 4)); [by rewrite Z.shiftl_spec_low|].
      rewrite <- (Z.mod_small y (2 ^ 4)), Z.mod_pow2_bits_high by lia. by rewrite andb_false_r. }
    rewrite Hd. change (2 ^ 4) with 16. rewrite Z.div_add_l, Z.div_small, Z.add_0_r by lia.
    rewrite Z.add_comm, Z.mod_add, Z.mod_small by lia. split; [done|].
    cbn. by rewrite Hxl, Hyl, Hl'.
Qed.

Lemma strip_prefix_Some p s t : strip_prefix p s = Some t <-> s = p +:+ t.
Proof.
  revert s. induction p as [|a p IH]; intros s; cbn.
  - split; [by intros [= ->]|by intros ->].
  - destruct s as [|b s]; [done|]. destruct (bool_decide (a = b)) eqn:E.
    + apply bool_decide_eq_true in E as ->. rewrite IH. split; [by intros ->|by intros [= ->]].
    + apply bool_decide_eq_false in E. split; [done|]. by intros [= -> _].
Qed.

Lemma decode_hash_text bs : length bs = 32%nat -> bytes_ok bs -> decode_hash (hash_text bs) = Ok bs.
Proof.
  intros Hl Hb. unfold decode_hash, hash_text.
  rewrite (proj2 (strip_prefix_Some _ _ _) eq_refl). cbn [mbind result_bind ok_or].
  unfold len. rewrite encode_length, Hl. cbn [negb Z.eqb]. by rewrite decode_to_slice_encode.
Qed.

Lemma decode_hash_inv s bs : decode_hash s = Ok bs -> s = hash_text bs /\ length bs = 32%nat.
Proof.
  unfold decode_hash. intros H. res_inv. apply strip_prefix_Some in H0 as ->.
  destruct (negb _) eqn:Hl; [done|]. apply ok_or_Ok, decode_to_slice_inv in H as [-> _].
  split; [done|]. unfold len in Hl. rewrite encode_length in Hl. apply negb_false_iff, Z.eqb_eq in Hl. lia.
Qed.

Lemma hash_text_inj a b :
  length a = 32%nat -> bytes_ok a -> length b = 32%nat -> bytes_ok b -> hash_text a = hash_text b -> a = b.
Proof.
  intros Ha Ha' Hb Hb' H%(f_equal decode_hash). rewrite !decode_hash_text in H by done. by injection H.
Qed.

(** ** The hash input of an entry *)

(** The constant is the hash of the zero block. *)
Class ZeroBlock `{!Sha2} := { zero_block_hash : ZERO_BLOCK_HASH = hash_text (sha256 (replicate 32 0)) }.

Lemma fips_zero_block : @ZeroBlock fips.
Proof. split. vm_compute. reflexivity. Qed.

(** Two different inputs of a list with one digest. *)
Definition collision_among `{!Sha2} (inputs : list (list Z)) : Prop :=
  exists x y, x ∈ inputs /\ y ∈ inputs /\ x <> y /\ sha256 x = sha256 y.

Section chain.
Set Default Proof Using "Type*".
Context {E : Type} {AJ : AuditJson E} {AL : AuditJsonLaws E} {SH : Sha2} {SL : Sha2Laws} {ZB : ZeroBlock}.
Implicit Types (e : AuditEntry E) (es : list (AuditEntry E)).

(** What is hashed for an entry: its body and the digest it names. *)
Definition hash_input e : list Z :=
  as_bytes (canonical_json_body e)
  ++ match decode_hash (ae_previous_entry_hash e) with Ok b => b | Err _ => [] end.

Definition hash_inputs es : list (list Z) := replicate 32 0 :: (hash_input <$> es).

(** The entries [es] form a chain from the hash [seed] to the hash [tip]. *)
Fixpoint linked (seed : string) es (tip : string) : Prop :=
  match es with
  | [] => tip = seed
  | e :: es' =>
      ae_previous_entry_hash e = seed /\
      exists h, compute_entry_hash_streamed e seed = Ok h /\ linked h es' tip
  end.

Lemma linked_app seed es1 es2 tip :
  linked seed (es1 ++ es2) tip <-> exists mid, linked seed es1 mid /\ linked mid es2 tip.
Proof.
  revert seed. induction es1 as [|e es1 IH]; intros seed; cbn; [naive_solver|].
  setoid_rewrite IH. naive_solver.
Qed.

Lemma entry_hash_Ok e h :
  compute_entry_hash_streamed e (ae_previous_entry_hash e) = Ok h ->
  h = hash_text (sha256 (hash_input e)) /\
  exists b, decode_hash (ae_previous_entry_hash e) = Ok b /\ length b = 32%nat /\
    ae_previous_entry_hash e = hash_text b.
Proof.
  unfold compute_entry_hash_streamed, hash_input. intros H. res_inv. rewrite H0. split; [done|].
  apply decode_hash_inv in H0 as Hb. naive_solver.
Qed.

Lemma to_vec_inj e1 e2 : to_vec e1 = to_vec e2 -> e1 = e2.
Proof. intros H%(f_equal from_slice). rewrite !from_to_vec in H. by injection H. Qed.

(** Entries with one hash input are the same entry. *)
Lemma hash_input_inj e1 e2 h1 h2 :
  compute_entry_hash_streamed e1 (ae_previous_entry_hash e1) = Ok h1 ->
  compute_entry_hash_streamed e2 (ae_previous_entry_hash e2) = Ok h2 ->
  hash_input e1 = hash_input e2 -> e1 = e2.
Proof.
  intros (_ & b1 & D1 & L1 & P1)%entry_hash_Ok (_ & b2 & D2 & L2 & P2)%entry_hash_Ok.
  unfold hash_input. rewrite D1, D2. intros [Hb ->]%app_inj_2; [|lia].
  apply as_bytes_inj, to_vec_inj in Hb. rewrite <- P2 in P1.
  destruct e1, e2. unfold with_previous in Hb. cbn in *. clear -Hb P1. injection Hb. intros. by subst.
Qed.

Lemma sha256_eq (x y : list Z) : hash_text (sha256 x) = hash_text (sha256 y) -> sha256 x = sha256 y.
Proof. apply hash_text_inj; auto using sha256_length, sha256_bytes. Qed.

(** An entry's input is not the zero block: it starts with a brace. *)
Lemma hash_input_nonzero e : hash_input e <> replicate 32 0.
Proof.
  unfold hash_input, canonical_json_body. destruct (to_vec_object (with_previous EmptyString e)) as [f ->].
  by intros [=].
Qed.

Lemma linked_tip es tip e :
  linked ZERO_BLOCK_HASH (es ++ [e]) tip ->
  linked ZERO_BLOCK_HASH es (ae_previous_entry_hash e) /\
  compute_entry_hash_streamed e (ae_previous_entry_hash e) = Ok tip.
Proof. intros (mid & H & He & h & Hh & ->)%linked_app. subst. done. Qed.

Lemma collision_mono l1 l2 : l1 ⊆ l2 -> collision_among l1 -> collision_among l2.
Proof. intros Hs (x & y & Hx & Hy & ?). exists x, y. by auto. Qed.

Lemma hash_inputs_sub es1 es2 : es1 ⊆ es2 -> hash_inputs es1 ⊆ hash_inputs es2.
Proof.
  intros H x. unfold hash_inputs. rewrite !elem_of_cons, !list_elem_of_fmap.
  intros [?|(e & ? & ?)]; [by left|right]. eauto.
Qed.

(** A chain that returns to the zero block has no entry. *)
Lemma linked_zero es e : linked ZERO_BLOCK_HASH (es ++ [e]) ZERO_BLOCK_HASH ->
  collision_among (hash_inputs [e]).
Proof.
  intros [_ (H & _)%entry_hash_Ok]%linked_tip. rewrite zero_block_hash in H. apply sha256_eq in H.
  exists (replicate 32 0), (hash_input e). repeat split.
  - apply elem_of_cons. by left.
  - apply elem_of_cons. right. apply list_elem_of_fmap. exists e. split; [done|]. by apply list_elem_of_singleton.
  - intros Hz. by apply (hash_input_nonzero e).
  - done.
Qed.

(** Two chains from the zero block with one tip are the same. *)
Lemma linked_determined es1 es2 tip :
  linked ZERO_BLOCK_HASH es1 tip -> linked ZERO_BLOCK_HASH es2 tip ->
  es1 = es2 \/ collision_among (hash_inputs (es1 ++ es2)).
Proof.
  revert es2 tip. induction es1 as [|e1 es1 IH] using rev_ind; intros es2 tip H1 H2.
  - cbn in H1. subst tip. destruct es2 as [|e2 es2 _] using rev_ind; [by left|right].
    eapply collision_mono; [|eapply linked_zero; exact H2]. apply hash_inputs_sub. set_solver.
  - destruct es2 as [|e2 es2 _] using rev_ind.
    + cbn in H2. subst tip. right. eapply collision_mono; [|eapply linked_zero; exact H1].
      apply hash_inputs_sub. set_solver.
    + apply linked_tip in H1 as [H1 C1]. apply linked_tip in H2 as [H2 C2].
      destruct (decide (hash_input e1 = hash_input e2)) as [Hi|Hi].
      * apply (hash_input_inj _ _ _ _ C1 C2) in Hi as ->.
        destruct (IH _ _ H1 H2) as [->|Hc]; [by left|right].
        eapply collision_mono; [|exact Hc]. apply hash_inputs_sub. set_solver.
      * right. exists (hash_input e1), (hash_input e2).
        pose proof (entry_hash_Ok _ _ C1) as [T1 _]. pose proof (entry_hash_Ok _ _ C2) as [T2 _].
        repeat split; [| |done|apply sha256_eq; congruence];
          (apply elem_of_cons; right; apply list_elem_of_fmap; eexists; split; [done|]); set_solver.
Qed.

End chain.

(** ** The text of the anchor *)

(** What the keyring holds: a positive count and an offset of 64 bits, and a
    digest in lower-case hexadecimal. *)
Definition anchor_ok (a : TipAnchor) : Prop :=
  1 <= ta_entry_count a <= hi u64 /\ in_range u64 (ta_end_offset a) /\
  exists hex, ta_tip_hash a = "sha256:" +:+ hex /\ len hex = 64 /\ str_all is_lower_hex hex = true.

Lemma parse_decimal_u64_spec s n :
  parse_decimal_u64 s = Some n <-> in_range u64 n /\ s = show_Z n.
Proof.
  assert (Hu : lo u64 <= 0 <= hi u64) by done.
  assert (Hc : parse_decimal_u64 s = if canonical_decimal s then ok (parse_int u64 s) else None).
  { unfold parse_decimal_u64, canonical_decimal. destruct (is_empty s), (str_all is_ascii_digit s); try done.
    cbn [orb negb andb]. by destruct (_ && _). }
  rewrite Hc. split.
  - destruct (canonical_decimal s) eqn:Es; [|done]. rewrite ok_Some. intros Hp.
    pose proof (parse_int_in_range u64 s n Hu Hp) as Hr. split; [done|].
    pose proof Es as Ed. unfold canonical_decimal in Ed. rewrite !andb_true_iff in Ed. destruct Ed as [[Ee Ed] _].
    apply canonical_decimal_unique; [done|apply canonical_decimal_show, Hr|].
    destruct (show_nonneg_digits n (proj1 Hr)) as (_ & -> & _).
    destruct (decide (dec_val s <= hi u64)) as [Hv|Hv].
    + rewrite (canonical_decimal_parse u64 s Hu Es Hv) in Hp. by injection Hp.
    + exfalso. destruct s as [|c s]; [done|]. cbn [parse_int] in Hp. pose proof (digits_no_sign (String c s) c) as Hn.
      rewrite !bool_decide_false in Hp; [| |];
        [|intros ->; cbn in Ed; discriminate Ed|intros ->; cbn in Ed; discriminate Ed].
      rewrite parse_loop_pos in Hp; [|done|lia|done]. rewrite bool_decide_false in Hp by done.
      fold (dec_val (String c s)) in Hp. cbn [orb] in Hp. by replace (_ <=? _) with false in Hp by lia.
  - intros [Hr ->]. rewrite canonical_decimal_show by apply Hr. apply ok_Some. by apply parse_int_show.
Qed.

Lemma show_no_colon n : in_range u64 n -> contains ":" (show_Z n) = false.
Proof. intros [Hn _]. destruct (show_nonneg_digits n Hn) as (Hd & _). by apply digits_no_char. Qed.

Lemma hex_no_colon s : str_all is_lower_hex s = true -> contains ":" s = false.
Proof.
  rewrite contains_false. apply str_all_impl. intros a Ha. apply negb_true_iff, bool_decide_eq_false.
  by intros ->.
Qed.

(** The text of an anchor reads back as the anchor, and is the only text that
    does. *)
Theorem tip_anchor_text_exact value a :
  tip_anchor_parse value = Ok a <-> anchor_ok a /\ value = to_keyring_value a.
Proof.
  unfold tip_anchor_parse, to_keyring_value. split.
  - destruct (split ":" value) as [|c [|h [|o [|]]]] eqn:Es; try done. intros H. res_inv.
    apply parse_decimal_u64_spec in H0 as [Hc ->]. destruct (_ =? 0) eqn:E0; [done|].
    destruct (negb _ || negb _) eqn:Eh; [done|]. apply orb_false_iff in Eh as [El Eh].
    apply negb_false_iff in El, Eh. apply Z.eqb_eq in El. res_inv.
    apply parse_decimal_u64_spec in H0 as [Ho ->]. unfold anchor_ok. cbn [ta_entry_count ta_tip_hash ta_end_offset].
    rewrite (proj2 (strip_prefix_Some _ _ h) eq_refl). cbn [default].
    apply split_inv in Es as (_ & r & -> & Es). apply split_inv in Es as (_ & r' & -> & Es).
    apply split_inv in Es as (_ & ->). split; [|done]. split; [|split; [done|by exists h]].
    unfold in_range in Hc. change (lo u64) with 0 in Hc. lia.
  - intros ((Hc & Ho & hex & Hh & Hl & Hx) & ->). destruct a as [n t o]. cbn [ta_entry_count ta_tip_hash ta_end_offset] in *.
    subst t. rewrite (proj2 (strip_prefix_Some _ _ hex) eq_refl). cbn [default].
    assert (Hn : in_range u64 n) by (unfold in_range; change (lo u64) with 0; lia).
    change (show_Z n +:+ _) with (show_Z n +:+ String ":" (hex +:+ String ":" (show_Z o))).
    rewrite split_at_char by by apply show_no_colon.
    rewrite split_at_char by by apply hex_no_colon. rewrite split_no_char by by apply show_no_colon.
    rewrite (proj2 (parse_decimal_u64_spec (show_Z n) n) (conj Hn eq_refl)). cbn [ok_or mbind result_bind].
    replace (n =? 0) with false by lia. rewrite Hl, Hx. cbn [negb Z.eqb orb SHA256_HEX_LEN].
    rewrite (proj2 (parse_decimal_u64_spec (show_Z o) o) (conj Ho eq_refl)). done.
Qed.
