(* ===== verification/AuditFilesProps.v ===== *)
(** * Properties of the readers of audit files

    The backward scan in chunks finds the last line of the prefix it is asked
    about, for every chunk size; the lines of a file and the order of its archives. *)

From S2P Require Import Prelude RustStr Bytes AuditEntry AuditFiles AuditChainProps.
From stdpp Require Import options.

Local Open Scope string_scope.
Local Open Scope list_scope.
Local Open Scope Z_scope.

(** ** Trailing whitespace *)

Lemma is_empty_spec s : is_empty s = true <-> s = EmptyString.
Proof. by destruct s. Qed.

Lemma is_empty_app s t : is_empty (s +:+ t) = is_empty s && is_empty t.
Proof. by destruct s. Qed.

Definition all_ws (w : string) : Prop := str_all is_ascii_whitespace w = true.

(** Empty, or ending in a byte that is not whitespace. *)
Definition trimmed (b : string) : Prop :=
  b = EmptyString \/ exists t c, b = t +:+ String c EmptyString /\ is_ascii_whitespace c = false.

Lemma drop_whitespace_spec s :
  exists w, s = w +:+ drop_whitespace s /\ all_ws w /\
    match drop_whitespace s with EmptyString => True | String c _ => is_ascii_whitespace c = false end.
Proof.
  induction s as [|a s (w & Hs & Hw & Hd)]; [by exists EmptyString|]. cbn.
  destruct (is_ascii_whitespace a) eqn:Ea; [|by exists EmptyString].
  exists (String a w). split; [|split; [|done]].
  - change (String a s = String a (w +:+ drop_whitespace s)). by rewrite <- Hs.
  - unfold all_ws in *. cbn. by rewrite Ea, Hw.
Qed.

Lemma pop_whitespace_spec s :
  exists w, s = pop_whitespace s +:+ w /\ all_ws w /\ trimmed (pop_whitespace s).
Proof.
  unfold pop_whitespace. destruct (drop_whitespace_spec (str_rev s)) as (w & Hs & Hw & Hd).
  exists (str_rev w). split; [|split].
  - by rewrite <- str_rev_app, <- Hs, str_rev_involutive.
  - unfold all_ws. by rewrite str_all_rev.
  - destruct (drop_whitespace (str_rev s)) as [|c r]; [by left|right].
    exists (str_rev r), c. split; [|done]. change (String c r) with (String c EmptyString +:+ r).
    by rewrite str_rev_app.
Qed.

Lemma drop_whitespace_app w s :
  all_ws w -> drop_whitespace (w +:+ s) = drop_whitespace s.
Proof.
  unfold all_ws. induction w as [|a w IH]; cbn [str_all]; [done|]. rewrite andb_true_iff. intros [Ha H].
  change (drop_whitespace (String a (w +:+ s)) = drop_whitespace s). cbn [drop_whitespace].
  rewrite Ha. by apply IH.
Qed.

Lemma pop_whitespace_unique b w : trimmed b -> all_ws w -> pop_whitespace (b +:+ w) = b.
Proof.
  intros Hb Hw. unfold pop_whitespace. rewrite str_rev_app, drop_whitespace_app.
  2: { unfold all_ws. by rewrite str_all_rev. }
  destruct Hb as [->|(t & c & -> & Hc)]; [done|]. rewrite str_rev_app.
  change (str_rev (String c EmptyString) +:+ str_rev t) with (String c (str_rev t)).
  cbn [drop_whitespace]. rewrite Hc. change (String c (str_rev t)) with (str_rev (String c EmptyString) +:+ str_rev t).
  by rewrite <- str_rev_app, str_rev_involutive.
Qed.

Lemma trimmed_app s b : trimmed b -> b <> EmptyString -> trimmed (s +:+ b).
Proof.
  intros [->|(t & c & -> & Hc)] Hb; [done|]. right. exists (s +:+ t), c. by rewrite str_app_assoc.
Qed.

Lemma all_ws_app a b : all_ws a -> all_ws b -> all_ws (a +:+ b).
Proof. unfold all_ws. rewrite str_all_app. by intros -> ->. Qed.

Lemma pop_whitespace_app s t :
  pop_whitespace (s +:+ pop_whitespace t) = pop_whitespace (s +:+ t).
Proof.
  destruct (pop_whitespace_spec t) as (w & Ht & Hw & _).
  destruct (pop_whitespace_spec (s +:+ pop_whitespace t)) as (v & Hv & Hv' & Htr).
  set (b := pop_whitespace (s +:+ pop_whitespace t)) in *.
  replace (s +:+ t) with (b +:+ (v +:+ w)); [by rewrite pop_whitespace_unique by auto using all_ws_app|].
  by rewrite str_app_assoc, <- Hv, <- str_app_assoc, <- Ht.
Qed.

Lemma pop_whitespace_app_nonempty s t :
  pop_whitespace t <> EmptyString -> pop_whitespace (s +:+ t) = s +:+ pop_whitespace t.
Proof.
  intros H. destruct (pop_whitespace_spec t) as (w & Ht & Hw & Htr).
  rewrite Ht at 1. rewrite str_app_assoc. apply pop_whitespace_unique; [by apply trimmed_app|done].
Qed.

(** ** The last line *)

(** The last line of a text that is not blank, without its trailing whitespace. *)
Definition last_line (t : string) : option string :=
  let b := pop_whitespace t in
  if is_empty b then None else Some (default b (after_last_newline b)).

Lemma after_last_newline_app s t l :
  after_last_newline t = Some l -> after_last_newline (s +:+ t) = Some l.
Proof.
  intros H. induction s as [|a s IH]; [done|]. rewrite str_app_cons. cbn [after_last_newline]. by rewrite IH.
Qed.

Lemma after_last_newline_spec s l :
  after_last_newline s = Some l -> exists p, s = p +:+ String newline l /\ contains newline l = false.
Proof.
  revert l. induction s as [|a s IH]; intros l; [done|]. cbn.
  destruct (after_last_newline s) as [t|] eqn:Et.
  - intros [= ->]. destruct (IH _ eq_refl) as (p & -> & Hc). by exists (String a p).
  - destruct (bool_decide (a = newline)) eqn:Ea; [|done]. apply bool_decide_eq_true in Ea as ->.
    intros [= ->]. exists EmptyString. split; [done|]. clear IH.
    induction l as [|b l IH]; [done|]. cbn in Et. destruct (after_last_newline l) eqn:El; [done|].
    unfold contains in *. cbn. destruct (bool_decide (b = newline)); [done|]. by apply IH.
Qed.

Lemma after_last_newline_None s : after_last_newline s = None -> contains newline s = false.
Proof.
  induction s as [|a s IH]; [done|]. cbn. destruct (after_last_newline s); [done|].
  unfold contains in *. cbn. destruct (bool_decide (a = newline)); [done|]. auto.
Qed.

Lemma ends_with_app c s a : ends_with c (s +:+ String a EmptyString) = bool_decide (a = c).
Proof. unfold ends_with. by rewrite str_rev_app. Qed.

(** Nothing is stripped from a line that ends in a visible byte. *)
Lemma strip_trimmed b : trimmed b -> strip_line_terminator b = b.
Proof.
  intros [->|(t & c & -> & Hc)]; [done|]. unfold strip_line_terminator, strip_last.
  rewrite (ends_with_app newline), bool_decide_false by (by intros ->).
  by rewrite (ends_with_app carriage_return), bool_decide_false by (by intros ->).
Qed.

Lemma trimmed_suffix s b : trimmed (s +:+ b) -> trimmed b.
Proof.
  destruct b as [|a b]; [by left|]. intros [H|(t & c & H & Hc)]; [by destruct s|right].
  destruct (str_last (String a b) eq_refl) as (t' & c' & Hb). exists t', c'. split; [done|].
  rewrite Hb in H. apply (f_equal str_rev) in H. rewrite !str_rev_app in H. by injection H as ->.
Qed.

Lemma substring_parts a b s :
  (a + b <= String.length s)%nat ->
  exists p q, s = p +:+ String.substring a b s +:+ q /\ String.length p = a /\
    String.length (String.substring a b s) = b.
Proof.
  revert a b. induction s as [|c s IH]; intros a b H; cbn in H.
  - assert (a = 0%nat) as -> by lia. assert (b = 0%nat) as -> by lia. by exists EmptyString, EmptyString.
  - destruct a as [|a].
    + destruct b as [|b]; [by exists EmptyString, (String c s)|].
      destruct (IH 0%nat b ltac:(lia)) as (p & q & Hs & Hp & Hl). destruct p; [|done].
      exists EmptyString, q. cbn [String.substring]. split; [|split; [done|cbn; lia]].
      change (String c s = String c (String.substring 0 b s +:+ q)). f_equal. exact Hs.
    + destruct (IH a b ltac:(lia)) as (p & q & Hs & Hp & Hl).
      exists (String c p), q. cbn [String.substring]. split; [|split; [cbn; lia|done]].
      change (String c s = String c (p +:+ String.substring a b s +:+ q)). f_equal. exact Hs.
Qed.

Lemma str_app_cancel a b x y : String.length a = String.length b -> a +:+ x = b +:+ y -> a = b /\ x = y.
Proof.
  revert b. induction a as [|c a IH]; intros [|d b] Hl H; try done.
  change (String c (a +:+ x) = String d (b +:+ y)) in H. injection H as -> H. injection Hl as Hl.
  by destruct (IH b Hl H) as [-> ->].
Qed.

(** The end of a prefix of [pre ++ post]. *)
Lemma substring_end pre post n :
  (n <= String.length pre)%nat ->
  exists p, pre = p +:+ String.substring (String.length pre - n) n (pre +:+ post) /\
    String.length p = (String.length pre - n)%nat.
Proof.
  intros H. destruct (substring_parts (String.length pre - n) n (pre +:+ post)) as (p & q & Hs & Hp & Hl).
  { rewrite str_length_app. lia. }
  exists p. split; [|done]. rewrite str_app_assoc in Hs.
  apply (str_app_cancel _ (p +:+ _)) in Hs as [Hs _]; [done|]. rewrite str_length_app. lia.
Qed.

Lemma last_line_loop_spec fuel content pre mid post :
  content = pre +:+ mid +:+ post -> pre <> EmptyString -> (String.length pre < fuel)%nat ->
  (pop_whitespace mid = EmptyString \/ after_last_newline (pop_whitespace mid) = None) ->
  last_line_loop fuel content (String.length pre) (pop_whitespace mid) = Some (last_line (pre +:+ mid)).
Proof.
  intros Hc. revert pre mid Hc. induction fuel as [|fuel IH]; intros pre mid Hc Hne Hf Hb; [lia|].
  cbn [last_line_loop]. set (n := Z.to_nat (Z.min SCAN_CHUNK (Z.of_nat (String.length pre)))).
  assert (Hn : (0 < n <= String.length pre)%nat).
  { destruct pre; [done|]. unfold n, SCAN_CHUNK. cbn [String.length]. lia. }
  destruct (substring_end pre (mid +:+ post) n (proj2 Hn)) as (p & Hp & Hl).
  rewrite <- Hc in Hp. set (chunk := String.substring (String.length pre - n) n content) in *.
  assert (Hpm : pre +:+ mid = p +:+ (chunk +:+ mid)) by (rewrite Hp at 1; by rewrite str_app_assoc).
  assert (Hcp : content = p +:+ (chunk +:+ mid) +:+ post) by (by rewrite Hc, (str_app_assoc pre), Hpm, !str_app_assoc).
  rewrite pop_whitespace_app, Hpm. unfold last_line.
  assert (Hz : (String.length pre - n =? 0)%nat = bool_decide (p = EmptyString)).
  { rewrite <- Hl. destruct p; [done|]. by rewrite bool_decide_false. }
  rewrite Hz, <- Hl. destruct (is_empty (pop_whitespace (chunk +:+ mid))) eqn:Ee.
  - assert (Hem : pop_whitespace (chunk +:+ mid) = EmptyString) by (by apply is_empty_spec).
    destruct (decide (p = EmptyString)) as [->|Hpe].
    + rewrite bool_decide_true by done. change (EmptyString +:+ ?x) with x. by rewrite Hem.
    + rewrite bool_decide_false by done. rewrite (IH p (chunk +:+ mid)).
      * done.
      * done.
      * done.
      * lia.
      * by left.
  - assert (Hem : pop_whitespace (chunk +:+ mid) <> EmptyString) by (intros Hx; by rewrite Hx in Ee).
    rewrite (pop_whitespace_app_nonempty p (chunk +:+ mid) Hem).
    destruct (pop_whitespace_spec (chunk +:+ mid)) as (_ & _ & _ & Htr).
    rewrite is_empty_app, Ee, andb_false_r.
    destruct (after_last_newline (pop_whitespace (chunk +:+ mid))) as [l|] eqn:El.
    + rewrite (after_last_newline_app p _ _ El). cbn [default]. do 2 f_equal.
      apply strip_trimmed. apply after_last_newline_spec in El as (x & Hx & _). rewrite Hx in Htr.
      change (String newline l) with (String newline EmptyString +:+ l) in Htr.
      rewrite str_app_assoc in Htr. by apply trimmed_suffix in Htr.
    + destruct (decide (p = EmptyString)) as [->|Hpe].
      * rewrite bool_decide_true by done. change (EmptyString +:+ ?x) with x. rewrite El. cbn [default].
        by rewrite strip_trimmed.
      * rewrite bool_decide_false by done. rewrite (IH p (chunk +:+ mid)).
        -- unfold last_line. rewrite (pop_whitespace_app_nonempty p (chunk +:+ mid) Hem).
           by rewrite is_empty_app, Ee, andb_false_r.
        -- done.
        -- done.
        -- lia.
        -- by right.
Qed.

(** Up to any offset, the scan from the end of the file in chunks of 4 KiB gives
    the last line of the prefix that is not blank, whatever the length of the
    lines and however they lie across chunks. *)
Theorem last_line_scan_exact content post :
  read_last_line_before (content +:+ post) (len content) = last_line content.
Proof.
  unfold read_last_line_before, len. rewrite Nat2Z.id, str_length_app, Nat.min_l by lia.
  destruct content as [|a s]; [done|]. replace (String.length (String a s) =? 0)%nat with false by done.
  change EmptyString with (pop_whitespace EmptyString).
  rewrite (last_line_loop_spec _ _ (String a s) EmptyString post); try done.
  - by rewrite str_app_nil_r.
  - lia.
  - by left.
Qed.

(** ** Lines *)

Lemma strip_last_char c s : strip_last c (s +:+ String c EmptyString) = s.
Proof.
  unfold strip_last. rewrite ends_with_app, bool_decide_true by done. rewrite str_length_app. cbn [String.length].
  replace (String.length s + 1 - 1)%nat with (String.length s) by lia. apply substring_prefix.
Qed.

Lemma strip_last_other c s a : a <> c -> strip_last c (s +:+ String a EmptyString) = s +:+ String a EmptyString.
Proof. intros H. unfold strip_last. by rewrite ends_with_app, bool_decide_false. Qed.

Lemma raw_lines_cons l s :
  contains newline l = false ->
  raw_lines (l +:+ String newline s) = (l +:+ String newline EmptyString) :: raw_lines s.
Proof.
  rewrite contains_false. induction l as [|a l IH].
  - intros _. change (EmptyString +:+ ?x) with x. cbn [raw_lines]. by rewrite bool_decide_true.
  - cbn [str_all]. rewrite andb_true_iff, negb_true_iff. intros [Ha H]. rewrite !str_app_cons.
    cbn [raw_lines]. by rewrite Ha, (IH H).
Qed.

(** After a newline a new line starts. *)
Lemma raw_lines_app p s :
  raw_lines (p +:+ String newline s) = raw_lines (p +:+ String newline EmptyString) ++ raw_lines s.
Proof.
  induction p as [|a p IH].
  - change (EmptyString +:+ ?x) with x. cbn [raw_lines]. by rewrite bool_decide_true.
  - rewrite !str_app_cons. cbn [raw_lines]. rewrite IH. destruct (bool_decide (a = newline)); [done|].
    destruct (raw_lines (p +:+ String newline EmptyString)) eqn:Er; [|done].
    exfalso. destruct (p +:+ String newline EmptyString) as [|b t] eqn:Ep; [by destruct p|].
    cbn [raw_lines] in Er. destruct (bool_decide (b = newline)); [done|]. by destruct (raw_lines t).
Qed.

(** The first line of a text continues what stands before its first newline. *)
Lemma raw_lines_first l r :
  l <> EmptyString -> contains newline l = false ->
  exists x rest, raw_lines (l +:+ r) = (l +:+ x) :: rest.
Proof.
  intros Hl. rewrite contains_false. induction l as [|a l IH]; [done|]. cbn [str_all].
  rewrite andb_true_iff, negb_true_iff. intros [Ha H]. rewrite str_app_cons. cbn [raw_lines]. rewrite Ha.
  destruct (decide (l = EmptyString)) as [->|Hne].
  - change (EmptyString +:+ r) with r. destruct (raw_lines r) as [|y ys].
    + by exists EmptyString, [].
    + by exists y, ys.
  - destruct (IH Hne H) as (x & rest & ->). by exists x, rest.
Qed.

Lemma strip_last_app c l x :
  trimmed l -> l <> EmptyString -> is_ascii_whitespace c = true ->
  exists x', strip_last c (l +:+ x) = l +:+ x'.
Proof.
  intros Hl Hne Hc. destruct (is_empty x) eqn:Ex.
  - apply is_empty_spec in Ex as ->. rewrite str_app_nil_r. exists EmptyString. rewrite str_app_nil_r.
    destruct Hl as [->|(t & a & -> & Ha)]; [done|]. apply strip_last_other. intros ->. congruence.
  - destruct (str_last x Ex) as (t & a & ->). rewrite str_app_assoc.
    destruct (decide (a = c)) as [->|Hac].
    + rewrite strip_last_char. by exists t.
    + rewrite strip_last_other by done. exists (t +:+ String a EmptyString). by rewrite str_app_assoc.
Qed.

Lemma strip_terminator_app l x :
  trimmed l -> l <> EmptyString -> exists x', strip_line_terminator (l +:+ x) = l +:+ x'.
Proof.
  intros Hl Hne. unfold strip_line_terminator.
  destruct (strip_last_app newline l x Hl Hne eq_refl) as (y & ->).
  by apply strip_last_app.
Qed.

(** A line that a prefix ends with starts a line of the whole text. *)
Lemma last_line_position p q line :
  last_line p = Some line ->
  exists before x after, raw_lines (p +:+ q) = before ++ (line +:+ x) :: after /\
    trimmed line /\ line <> EmptyString.
Proof.
  unfold last_line. destruct (pop_whitespace_spec p) as (w & Hp & _ & Htr).
  destruct (is_empty (pop_whitespace p)) eqn:Ee; [done|]. intros [= Hline].
  set (b := pop_whitespace p) in *. clearbody b. subst p.
  destruct (after_last_newline b) as [l|] eqn:El; cbn in Hline; subst line.
  - apply after_last_newline_spec in El as (u & -> & Hl).
    assert (Htl : trimmed l).
    { change (String newline l) with (String newline EmptyString +:+ l) in Htr.
      rewrite str_app_assoc in Htr. by apply trimmed_suffix in Htr. }
    assert (Hne : l <> EmptyString).
    { intros ->. destruct Htr as [Hx|(t & c & Ht & Hc)]; [by destruct u|].
      apply (f_equal str_rev) in Ht. rewrite !str_rev_app in Ht. injection Ht as <- _. discriminate Hc. }
    rewrite <- !str_app_assoc, str_app_cons, raw_lines_app.
    destruct (raw_lines_first l (w +:+ q) Hne Hl) as (x & rest & ->). by eexists _, x, rest.
  - assert (Hne : b <> EmptyString) by (intros ->; done).
    rewrite <- str_app_assoc. apply after_last_newline_None in El.
    destruct (raw_lines_first b (w +:+ q) Hne El) as (x & rest & ->). by exists [], x, rest.
Qed.

(** Trimming removes no brace. *)
Lemma trim_with_brace w2 w3 s :
  (forall a b, w2 a b = true -> a <> "{"%char /\ b <> "{"%char) ->
  (forall a b c, w3 a b c = true -> a <> "{"%char /\ b <> "{"%char /\ c <> "{"%char) ->
  contains "{" (trim_with w2 w3 s) = contains "{" s.
Proof.
  intros H2 H3. assert (Hc : forall a t, a <> "{"%char -> contains "{" (String a t) = contains "{" t).
  { intros a t Ha. unfold contains. cbn [str_all]. by rewrite bool_decide_false. }
  assert (Hn : forall n s, (String.length s <= n)%nat -> contains "{" (trim_with w2 w3 s) = contains "{" s);
    [|by eapply Hn].
  clear s. induction n as [|n IH]; intros [|a s] Hl; try done; cbn [String.length] in Hl; [lia|].
  cbn [trim_with]. destruct (ws1 a) eqn:Ea.
  { rewrite IH, Hc by lia || (by intros ->). done. }
  destruct s as [|b s]; [done|]. cbn [String.length] in Hl. destruct (w2 a b) eqn:Eb.
  { apply H2 in Eb as [? ?]. rewrite IH, !Hc by lia || done. done. }
  destruct s as [|c s]; [done|]. cbn [String.length] in Hl. destruct (w3 a b c) eqn:Ecc; [|done].
  apply H3 in Ecc as (? & ? & ?). rewrite IH, !Hc by lia || done. done.
Qed.

Lemma contains_rev c s : contains c (str_rev s) = contains c s.
Proof. unfold contains. by rewrite str_all_rev. Qed.

Lemma trim_brace s : contains "{" (trim s) = contains "{" s.
Proof.
  assert (H2 : forall a b, ws2 a b = true -> a <> "{"%char /\ b <> "{"%char).
  { intros a b H. split; intros ->; [done|]. unfold ws2 in H. by rewrite andb_false_r in H. }
  assert (H3 : forall a b c, ws3 a b c = true -> a <> "{"%char /\ b <> "{"%char /\ c <> "{"%char).
  { intros a b c H. unfold ws3 in H.
    split; [by intros ->|]. split; intros ->; change (byte_val "{") with 123 in H; lia. }
  unfold trim, trim_end, trim_start. rewrite contains_rev, trim_with_brace, contains_rev, trim_with_brace.
  - done.
  - done.
  - done.
  - intros a b H. destruct (H2 _ _ H). done.
  - intros a b c H. destruct (H3 _ _ _ H) as (? & ? & ?). done.
Qed.
