(* ===== verification/AuditVerifyProps.v ===== *)
(** * What a verified audit log shows

    A log that verifies is one chain of entries from the zero block to its tip:
    its tip hash determines every entry, a log that still passes the check of an
    earlier tip's anchor has lost nothing, and a log whose oldest archives are
    removed no longer verifies. *)

From S2P Require Import Prelude RustStr Bytes Time AuditEntry AuditFiles AuditVerify AuditChainProps AuditFilesProps.
From stdpp Require Import options.

Local Open Scope string_scope.
Local Open Scope list_scope.
Local Open Scope Z_scope.
Set Default Proof Using "Type*".

(** ** The entries of a log *)

Section entries.
Context {E : Type} {AJ : AuditJson E}.

Definition line_entry (raw : string) : option (AuditEntry E) :=
  let line := strip_line_terminator raw in
  if is_empty (trim line) then None else ok (from_slice line).

Definition file_entries (content : string) : list (AuditEntry E) := omap line_entry (raw_lines content).

Definition node_entries (d : Dir) (name : string) : list (AuditEntry E) :=
  match d !! name with Some (Regular content) => file_entries content | _ => [] end.

(** The entries of every archive in order, then those of the active file. *)
Definition log_entries (d : Dir) (stem : string) : list (AuditEntry E) :=
  match collect_file_chain d stem with
  | Ok chain => flat_map (node_entries d) chain
  | Err _ => []
  end.

(** A line that is blank or reads as an entry. *)
Definition readable_line (raw : string) : Prop :=
  is_empty (trim (strip_line_terminator raw)) = true \/ is_Some (line_entry raw).

End entries.

(** ** One file *)

Section files.
Context {E : Type} {AJ : AuditJson E} {AL : AuditJsonLaws E} {SH : Sha2} {SL : Sha2Laws}
  {ZB : ZeroBlock} {UE : Utf8Error}.
Variable d : Dir.


Lemma compute_hash_agrees (e : AuditEntry E) prev :
  compute_entry_hash (as_bytes (canonical_json_body e)) prev = compute_entry_hash_streamed e prev.
Proof. done. Qed.

(** One line: nothing, or the next entry of the chain. *)
Lemma verify_line_Ok ctx st raw st' :
  verify_line (E:=E) d ctx st raw = Ok st' ->
  (line_entry (E:=E) raw = None /\ is_empty (trim (strip_line_terminator raw)) = true /\
   fw_prev_hash st' = fw_prev_hash st /\ fw_entries st' = fw_entries st /\
   fw_last_handoff st' = fw_last_handoff st) \/
  (exists e, line_entry (E:=E) raw = Some e /\ ae_previous_entry_hash e = fw_prev_hash st /\
   compute_entry_hash_streamed e (fw_prev_hash st) = Ok (fw_prev_hash st') /\
   fw_entries st' = fw_entries st + 1).
Proof.
  unfold verify_line, line_entry. set (line := strip_line_terminator raw).
  destruct (negb (utf8_valid line)); [done|]. destruct (is_empty (trim line)) eqn:Eb.
  { intros [= <-]. left. done. }
  intros H. res_inv. rename H0 into Hs. destruct (negb (bool_decide _)) eqn:Ep; [done|].
  apply negb_false_iff, bool_decide_eq_true in Ep. res_inv. right. exists x. rewrite Hs.
  rewrite compute_hash_agrees in *. split; [done|]. split; [done|].
  destruct (ae_event_kind x); res_inv; try done.
Qed.

Lemma verify_lines_Ok ctx raws st st' :
  verify_lines (E:=E) d ctx st raws = Ok st' ->
  linked (fw_prev_hash st) (omap (line_entry (E:=E)) raws) (fw_prev_hash st') /\
  fw_entries st' = fw_entries st + count (omap (line_entry (E:=E)) raws) /\
  Forall (readable_line (E:=E)) raws /\
  (omap (line_entry (E:=E)) raws = [] -> fw_last_handoff st' = fw_last_handoff st).
Proof.
  revert st. induction raws as [|raw raws IH]; intros st; cbn [verify_lines].
  { intros [= <-]. cbn. split; [done|]. split; [unfold count; cbn; lia|]. done. }
  intros H. res_inv. apply verify_line_Ok in H0 as Hl.
  destruct (IH _ H) as (Hlk & Hn & Hr & Hh).
  destruct Hl as [(He & Hb & Hp & Hc & Hf)|(e & He & Hp & Hc & Hk)]; cbn [omap list_omap]; rewrite He.
  - rewrite <- Hp, <- Hc, <- Hf. split; [done|]. split; [done|]. split; [|done]. constructor; [by left|done].
  - split; [|split; [|split; [|done]]].
    + cbn [linked]. split; [done|]. by exists (fw_prev_hash x).
    + unfold count in *. cbn [length]. lia.
    + constructor; [right; by exists e|done].
Qed.

(** The outcome of one file: its entries continue the chain, and an archive
    holds at least the entry that hands off. *)
Lemma verify_single_file_Ok ctx r :
  verify_single_file (E:=E) d ctx = Ok r ->
  exists content, d !! vc_path ctx = Some (Regular content) /\
    linked (default ZERO_BLOCK_HASH (vc_expected_initial_prev_hash ctx)) (file_entries (E:=E) content) (sf_last_hash r) /\
    Forall (readable_line (E:=E)) (raw_lines content) /\
    (is_Some (vc_next_file_basename ctx) -> file_entries (E:=E) content <> []).
Proof.
  unfold verify_single_file. intros H. res_inv. rename H0 into Ho.
  unfold open_regular_file in Ho. destruct (d !! vc_path ctx) as [[c| |]|] eqn:Ed; try done.
  injection Ho as ->. exists x. destruct (verify_lines_Ok _ _ _ _ H1) as (Hl & _ & Hr & Hh).
  split; [done|]. split; [exact Hl|]. split; [done|]. intros [b Hb] Hnil. specialize (Hh Hnil).
  unfold check_handoff in H2. rewrite Hb, Hh in H2. done.
Qed.

(** The walk over the files of the chain. *)
Lemma walk_files_Ok stem key chain st st' :
  walk_files (E:=E) d stem key st chain = Ok st' ->
  lw_expected_prev_hash st' = match chain with [] => lw_expected_prev_hash st | _ => lw_expected_prev_hash st' end /\
  linked (default ZERO_BLOCK_HASH (lw_expected_prev_hash st)) (flat_map (node_entries (E:=E) d) chain)
    (default ZERO_BLOCK_HASH (lw_expected_prev_hash st')) /\
  (chain <> [] -> exists tip, lw_active_tip st' = Some tip /\
     vt_tip_hash tip = default ZERO_BLOCK_HASH (lw_expected_prev_hash st')) /\
  Forall (fun name => exists content, d !! name = Some (Regular content) /\
     Forall (readable_line (E:=E)) (raw_lines content)) chain /\
  Forall (fun name => node_entries (E:=E) d name <> []) (removelast chain).
Proof.
  revert st. induction chain as [|path rest IH]; intros st; cbn [walk_files].
  { intros [= <-]. cbn. done. }
  intros H. res_inv. destruct (IH _ H) as (He & Hl & Ht & Hr & Hn). clear IH.
  unfold walk_file in H0. destruct (negb (exists_in d path)); [done|]. res_inv.
  apply verify_single_file_Ok in H1 as (content & Hd & Hlk & Hrd & Hne). cbn [vc_path file_context] in Hd.
  cbn [vc_expected_initial_prev_hash file_context lw_expected_prev_hash default] in *.
  assert (Hnode : node_entries (E:=E) d path = file_entries (E:=E) content).
  { unfold node_entries. by rewrite Hd. }
  split; [done|]. split; [|split; [|split]].
  - cbn [flat_map]. rewrite Hnode, linked_app. eexists. split; [exact Hlk|]. exact Hl.
  - intros _. destruct rest as [|p rest]; [|by apply Ht]. cbn [walk_files] in H.
    injection H as <-. cbn. by eexists.
  - constructor; [|done]. by exists content.
  - destruct rest as [|p rest]; [constructor|]. change (removelast (path :: p :: rest)) with (path :: removelast (p :: rest)).
    constructor; [|done]. rewrite Hnode. apply Hne. cbn. by eexists.
Qed.

End files.

(** ** The whole log *)

Section logs.
Context {E : Type} {AJ : AuditJson E} {AL : AuditJsonLaws E} {SH : Sha2} {SL : Sha2Laws}
  {ZB : ZeroBlock} {UE : Utf8Error}.
Implicit Types (d : Dir) (stem : string).

Lemma collect_Ok d stem chain :
  collect_file_chain d stem = Ok chain -> chain = sort_strings (rotated_names d stem) ++ [stem].
Proof. unfold collect_file_chain. by destruct (_ <? _); intros [= <-]. Qed.

(** A log nobody rotates is read once. *)
Lemma verify_still d stem key :
  verify_log (E:=E) (still d) stem key
  = (chain ← collect_file_chain d stem; walk_log (E:=E) d stem key chain).
Proof.
  unfold verify_log. cbn [scan still]. destruct (collect_file_chain d stem) as [chain|e]; [|done].
  cbn [mbind result_bind]. destruct ((1 <? count chain) && last_absent (still d) 0 chain); [|done].
  cbn [wait_out_transient_rotation_window ROTATION_WINDOW_RETRY_ATTEMPTS lock_held still negb].
  by destruct (negb (last_absent (still d) 0 chain)).
Qed.

(** A log that is being rotated is read at one of at most 21 scans. *)
Lemma verify_view view stem key r :
  verify_log (E:=E) view stem key = Ok r ->
  exists k chain, (k <= ROTATION_WINDOW_RETRY_ATTEMPTS)%nat /\
    collect_file_chain (scan view k) stem = Ok chain /\ walk_log (E:=E) (scan view k) stem key chain = Ok r.
Proof.
  unfold verify_log. intros H. res_inv. rename H0 into Hc. destruct x0 as [k chain].
  assert (Hw : forall n k0 c0, collect_file_chain (scan view k0) stem = Ok c0 ->
    wait_out_transient_rotation_window n view stem k0 c0 = Ok (k, chain) ->
    (k <= k0 + n)%nat /\ collect_file_chain (scan view k) stem = Ok chain).
  { induction n as [|n IH]; intros k0 c0 H0 Hw; cbn in Hw; [injection Hw as <- <-; split; [lia|done]|].
    destruct (negb (last_absent _ _ _)); [injection Hw as <- <-; split; [lia|done]|].
    destruct (negb (lock_held _ _)); [injection Hw as <- <-; split; [lia|done]|].
    apply res_bind_Ok in Hw as (c1 & Hc1 & Hw). destruct (IH _ _ Hc1 Hw). split; [lia|done]. }
  exists k, chain. destruct ((1 <? count x) && _).
  - destruct (Hw _ _ _ Hc H1) as [Hk Hk']. done.
  - injection H1 as <- <-. split; [lia|]. done.
Qed.

(** A verified log is a chain from the zero block to its tip. *)
Lemma verified_linked d stem key r :
  verify_log (E:=E) (still d) stem key = Ok r ->
  exists tip, vo_active_tip r = Some tip /\ linked ZERO_BLOCK_HASH (log_entries (E:=E) d stem) (vt_tip_hash tip).
Proof.
  rewrite verify_still. intros H. res_inv. unfold log_entries. rewrite H0.
  assert (Hne : x <> []) by (apply collect_Ok in H0 as ->; by destruct (sort_strings _)).
  unfold walk_log in H. res_inv.
  destruct (walk_files_Ok _ _ _ _ _ _ H1) as (_ & Hl & Ht & _). cbn in Hl.
  destruct (Ht Hne) as (tip & Htip & Hh).
  exists tip. rewrite Hh. done.
Qed.

(** C23: The tip hash of a verified log determines every entry of the log, over all
    its files: two logs that verify with one tip hash hold the same entries in
    the same order, unless two of the byte strings hashed for them collide. *)
Theorem audit_tip_determines_log d1 d2 stem1 stem2 key1 key2 r1 r2 tip1 tip2 :
  verify_log (E:=E) (still d1) stem1 key1 = Ok r1 -> vo_active_tip r1 = Some tip1 ->
  verify_log (E:=E) (still d2) stem2 key2 = Ok r2 -> vo_active_tip r2 = Some tip2 ->
  vt_tip_hash tip1 = vt_tip_hash tip2 ->
  log_entries (E:=E) d1 stem1 = log_entries d2 stem2 \/
  collision_among (hash_inputs (log_entries (E:=E) d1 stem1 ++ log_entries d2 stem2)).
Proof.
  intros (t1 & Ht1 & H1)%verified_linked E1 (t2 & Ht2 & H2)%verified_linked E2 Ht.
  apply (linked_determined _ _ (vt_tip_hash tip1)); congruence.
Qed.

(** ** Anchors *)

(** A line that reads as an entry at the end of a prefix of a readable file is
    an entry of the file. *)
Lemma prefix_line_entry p q line e :
  Forall (readable_line (E:=E)) (raw_lines (p +:+ q)) ->
  last_line p = Some line -> from_slice line = Ok e ->
  exists es1 es2, file_entries (p +:+ q) = es1 ++ e :: es2.
Proof.
  intros Hr Hl He. destruct (last_line_position p q line Hl) as (before & x & after & Hraw & Htr & Hne).
  unfold file_entries. rewrite Hraw in Hr |- *. rewrite omap_app. cbn [omap list_omap].
  apply Forall_app in Hr as [_ [Hx _]%Forall_cons].
  destruct (strip_terminator_app line x Htr Hne) as (y & Hy).
  assert (Hbr : contains "{" (strip_line_terminator (line +:+ x)) = true).
  { rewrite Hy. pose proof (from_slice_object _ _ He) as Hb. unfold contains in *.
    rewrite negb_true_iff in *. rewrite str_all_app, Hb. done. }
  assert (Hb : is_empty (trim (strip_line_terminator (line +:+ x))) = false).
  { destruct (is_empty _) eqn:Ee; [|done]. apply is_empty_spec in Ee.
    rewrite <- trim_brace, Ee in Hbr. done. }
  destruct Hx as [Hx|[e' He']]; [congruence|]. exists (omap line_entry before), (omap line_entry after).
  enough (line_entry (line +:+ x) = Some e) as -> by done.
  unfold line_entry in *. rewrite Hb in *. rewrite ok_Some in He'. rewrite ok_Some, He'. f_equal.
  rewrite Hy in He'. by destruct (from_slice_prefix _ _ _ _ He He') as [-> _].
Qed.

(** A chain that ends in the hash of one of its entries, cut after the entry. *)
Lemma linked_cut seed es1 (e : AuditEntry E) es2 tip h :
  linked seed (es1 ++ e :: es2) tip ->
  compute_entry_hash_streamed e (ae_previous_entry_hash e) = Ok h -> linked seed (es1 ++ [e]) h.
Proof.
  intros (mid & H1 & Hp & h' & Hh & H2)%linked_app Hc. apply linked_app. exists mid. split; [done|].
  subst mid. rewrite Hc in Hh. injection Hh as <-. split; [done|]. by exists h.
Qed.

(** Entries up to a hash [h] that the chain of a log reaches are the log of the
    anchor. *)
Lemma prefix_of_linked es es1 (e : AuditEntry E) es2 tip h :
  linked ZERO_BLOCK_HASH (es1 ++ e :: es2) tip ->
  compute_entry_hash_streamed e (ae_previous_entry_hash e) = Ok h -> linked ZERO_BLOCK_HASH es h ->
  es `prefix_of` es1 ++ e :: es2 \/ collision_among (hash_inputs (es ++ es1 ++ e :: es2)).
Proof.
  intros Hl Hh He. pose proof (linked_cut _ _ _ _ _ _ Hl Hh) as Hc.
  destruct (linked_determined _ _ _ He Hc) as [->|Hx]; [left|right].
  - exists es2. by rewrite <- app_assoc.
  - eapply collision_mono; [|exact Hx]. apply hash_inputs_sub. intros z.
    rewrite !elem_of_app, !elem_of_cons, elem_of_nil. tauto.
Qed.

(** Splitting the file at an offset inside it. *)
Lemma split_at_offset content off line :
  read_last_line_before content off = Some line ->
  exists p q, content = p +:+ q /\ last_line p = Some line.
Proof.
  intros H. set (n := Nat.min (Z.to_nat off) (String.length content)).
  destruct (substring_parts 0 n content ltac:(lia)) as (p & q & Hc & Hp & Hl). destruct p; [|done].
  change (EmptyString +:+ ?x) with x in Hc. exists (String.substring 0 n content), q. split; [done|].
  rewrite <- (last_line_scan_exact _ q), <- Hc. rewrite <- H. unfold read_last_line_before, len.
  rewrite Hl, Nat2Z.id, Nat.min_l by lia. done.
Qed.

Lemma flat_map_split (f : string -> list (AuditEntry E)) names name a b :
  name ∈ names -> f name = a ++ b ->
  exists pre post, flat_map f names = (pre ++ a) ++ b ++ post.
Proof.
  intros (l1 & l2 & ->)%list_elem_of_split Hf. rewrite flat_map_app. cbn [flat_map]. rewrite Hf.
  exists (flat_map f l1), (flat_map f l2). by rewrite !app_assoc.
Qed.

(** An entry whose line ends a prefix of a file of a verified log. *)
Lemma anchored_prefix d stem key r es name content off line (e : AuditEntry E) h :
  verify_log (E:=E) (still d) stem key = Ok r ->
  forall chain, collect_file_chain d stem = Ok chain -> name ∈ chain ->
  d !! name = Some (Regular content) -> read_last_line_before content off = Some line ->
  from_slice line = Ok e -> compute_entry_hash_streamed e (ae_previous_entry_hash e) = Ok h ->
  linked ZERO_BLOCK_HASH es h ->
  es `prefix_of` log_entries d stem \/ collision_among (hash_inputs (es ++ log_entries d stem)).
Proof.
  intros Hv chain Hc Hin Hd Hl He Hh Hes. destruct (verified_linked _ _ _ _ Hv) as (tip & _ & Hlk).
  rewrite verify_still, Hc in Hv. cbn [mbind result_bind] in Hv. unfold walk_log in Hv. res_inv.
  destruct (walk_files_Ok _ _ _ _ _ _ Hv0) as (_ & _ & _ & Hr & _).
  rewrite Forall_forall in Hr. destruct (Hr name Hin) as (c & Hd' & Hrd). rewrite Hd in Hd'. injection Hd' as <-.
  destruct (split_at_offset _ _ _ Hl) as (p & q & -> & Hp).
  destruct (prefix_line_entry p q line e Hrd Hp He) as (es1 & es2 & Hf).
  assert (Hn : node_entries d name = es1 ++ e :: es2) by (unfold node_entries; by rewrite Hd).
  unfold log_entries in *. rewrite Hc in *.
  destruct (flat_map_split _ _ _ _ _ Hin Hn) as (pre & post & Hfm). rewrite Hfm in *.
  change ((e :: es2) ++ post) with (e :: es2 ++ post) in *.
  by eapply prefix_of_linked.
Qed.

Lemma newest_archive_in chain a : newest_archive chain = Some a -> a ∈ chain.
Proof.
  unfold newest_archive. intros H. apply last_Some in H as (l & Hl).
  assert (Ha : a ∈ removelast chain) by (rewrite Hl; apply elem_of_app; right; by apply list_elem_of_singleton).
  destruct chain as [|x c]; [by apply elem_of_nil in Ha|].
  rewrite (app_removelast_last x (l:=x::c)) by done. apply elem_of_app. by left.
Qed.

(** C13: Once a log has verified with some tip, a log that verifies and passes the
    check of that tip's anchor contains every entry of the earlier log, in order
    and from the start: no entry was removed, changed or put in between, unless
    two of the byte strings hashed for the two logs collide. *)
Theorem anchored_log_only_grows d d' stem key key' r r' tip :
  verify_log (E:=E) (still d) stem key = Ok r -> vo_active_tip r = Some tip ->
  verify_log (E:=E) (still d') stem key' = Ok r' ->
  check_anchor_against_walk (E:=E) d' stem
    (MkAnchor (vt_entry_count tip) (vt_tip_hash tip) (vt_end_offset tip)) (vo_active_tip r') = Ok () ->
  log_entries (E:=E) d stem `prefix_of` log_entries d' stem \/
  collision_among (hash_inputs (log_entries (E:=E) d stem ++ log_entries d' stem)).
Proof.
  intros Hv Ht Hv' Hc. destruct (verified_linked _ _ _ _ Hv) as (t & Ht' & Hl).
  rewrite Ht in Ht'. injection Ht' as <-.
  destruct (verified_linked _ _ _ _ Hv') as (t' & Ht' & Hl').
  unfold check_anchor_against_walk in Hc. rewrite Ht' in Hc. cbn [ta_entry_count ta_tip_hash ta_end_offset] in Hc.
  destruct (matches_tip _ _ _ _) eqn:Em; [clear Hc|].
  { unfold matches_tip in Em. rewrite !andb_true_iff in Em. destruct Em as [_ Em%bool_decide_eq_true].
    cbn [ta_tip_hash] in Em. rewrite Em in Hl.
    destruct (linked_determined _ _ _ Hl Hl') as [->|]; [by left|by right]. }
  destruct (anchor_names_the_rotation_handoff d' stem _) eqn:Ea; [clear Hc|].
  - unfold anchor_names_the_rotation_handoff in Ea. destruct (initial_chain_seed d' stem) as [seed|] eqn:Es; [|done].
    apply bool_decide_eq_true in Ea. cbn [ta_tip_hash] in Ea. subst seed.
    unfold initial_chain_seed in Es. res_inv. rename Es0 into Hch.
    assert (Hzero : ZERO_BLOCK_HASH = vt_tip_hash tip -> log_entries (E:=E) d stem `prefix_of` log_entries d' stem \/
      collision_among (hash_inputs (log_entries (E:=E) d stem ++ log_entries d' stem))).
    { intros Hz. rewrite <- Hz in Hl. destruct (linked_determined [] _ _ (eq_refl : linked _ [] _) Hl) as [<-|Hx].
      - left. apply prefix_nil.
      - right. eapply collision_mono; [|exact Hx]. apply hash_inputs_sub. intros z.
        rewrite !elem_of_app, elem_of_nil. tauto. }
    destruct (newest_archive x) as [a|] eqn:Hna; [|apply Hzero; by injection Es].
    destruct (d' !! a) as [[c| |k]|] eqn:Hd; try (apply Hzero; by injection Es); [|done].
    destruct (read_last_line_before c (len c)) as [line|] eqn:Hln; [|apply Hzero; by injection Es].
    res_inv. destruct (ae_event_kind x0); try done. destruct (bool_decide _); [|done]. res_inv.
    eapply anchored_prefix; eauto using newest_archive_in.
  - destruct (_ <? _); [done|]. res_inv. destruct x; [|done].
    unfold anchored_entry_is_intact in Hc0. res_inv. cbn [ta_end_offset ta_tip_hash] in Hc0.
    unfold open_regular_file in Hc1. destruct (d' !! stem) as [[c| |]|] eqn:Hd; try done. injection Hc1 as <-.
    destruct (read_last_line_before c (vt_end_offset tip)) as [line|] eqn:Hln; [|done].
    destruct (from_slice line) as [e|] eqn:He; [|done].
    rewrite compute_hash_agrees in *. destruct (compute_entry_hash_streamed e _) as [h|] eqn:Hh; [|done].
    apply bool_decide_eq_true in Hc0. subst h.
    assert (exists chain, collect_file_chain d' stem = Ok chain) as [chain Hch].
    { rewrite verify_still in Hv'. apply res_bind_Ok in Hv' as (ch & Hch & _). by exists ch. }
    eapply anchored_prefix; [exact Hv'|exact Hch| |exact Hd|exact Hln|exact He|exact Hh|exact Hl].
    apply collect_Ok in Hch as ->. apply elem_of_app. right. by apply list_elem_of_singleton.
Qed.

End logs.
