(* ===== verification/AuditWriter.v ===== *)
(** * The audit writer (stellar-agent-core, [audit_log/writer.rs], [audit_log/outbox.rs])

    One writer owns the log of a profile.  It appends entries to the active file,
    rotates the file when it is full, prunes old archives, drains the outbox of
    other processes, and keeps in the keyring the anchor of the last entry.

    The world it acts on is a directory whose names lead to files, and the
    keyring.  A writer holds its file open: the name in the directory can come to
    lead elsewhere.  Every system call can fail; which ones do is a list of
    outcomes the world consumes.  A failed write may have written a part.  The
    clock, the random identifiers and the rotation threshold are arguments. *)

From S2P Require Import Prelude RustStr Bytes AuditEntry AuditFiles.
From stdpp Require Import options.

Local Open Scope string_scope.
Local Open Scope list_scope.
Local Open Scope Z_scope.

Definition ROTATION_THRESHOLD_BYTES : Z := 10 * 1024 * 1024.

(** ** The world *)

Inductive Outcome := Fine | Fails (kind : string) | Short (written : nat).

Record World := MkWorld {
  w_names : gmap string nat;
  w_nodes : gmap nat DirNode;
  w_next : nat;
  w_keyring : option string;
  w_reanchors : Z;
  w_tick : nat;
  w_last_rotation_timestamp_ms : Z;
  w_rotation_collision_counter : Z;
  w_outcomes : list Outcome;
}.

Definition dir_of (w : World) : Dir := omap (fun i => w_nodes w !! i) (w_names w).

Definition set_files (names : gmap string nat) (nodes : gmap nat DirNode) (next : nat) (w : World) : World :=
  MkWorld names nodes next (w_keyring w) (w_reanchors w) (w_tick w) (w_last_rotation_timestamp_ms w)
    (w_rotation_collision_counter w) (w_outcomes w).
Definition set_keyring (k : option string) (n : Z) (w : World) : World :=
  MkWorld (w_names w) (w_nodes w) (w_next w) k n (w_tick w) (w_last_rotation_timestamp_ms w)
    (w_rotation_collision_counter w) (w_outcomes w).
Definition set_outcomes (o : list Outcome) (w : World) : World :=
  MkWorld (w_names w) (w_nodes w) (w_next w) (w_keyring w) (w_reanchors w) (w_tick w)
    (w_last_rotation_timestamp_ms w) (w_rotation_collision_counter w) o.
Definition set_rotation (tick : nat) (last collisions : Z) (w : World) : World :=
  MkWorld (w_names w) (w_nodes w) (w_next w) (w_keyring w) (w_reanchors w) tick last collisions (w_outcomes w).

(** ** The writer *)

Record AuditWriter := MkWriter {
  wr_file : nat;
  wr_last_hash : string;
  wr_is_new_file : bool;
  wr_hmac_key : option (list Z);
  wr_entry_count : Z;
  wr_end_offset : Z;
  wr_pending_tip_anchor : option TipAnchor;
  wr_tip_anchor : bool;
  wr_partial_rotation_archive : option string;
  wr_log_diverged : option string;
  wr_owed_row_anchored : bool;
  wr_drains : bool;
}.

Definition set_tip (hash : string) (is_new : bool) (count offset : Z) (wr : AuditWriter) : AuditWriter :=
  MkWriter (wr_file wr) hash is_new (wr_hmac_key wr) count offset (wr_pending_tip_anchor wr)
    (wr_tip_anchor wr) (wr_partial_rotation_archive wr) (wr_log_diverged wr) (wr_owed_row_anchored wr)
    (wr_drains wr).
Definition set_file (file : nat) (wr : AuditWriter) : AuditWriter :=
  MkWriter file (wr_last_hash wr) (wr_is_new_file wr) (wr_hmac_key wr) (wr_entry_count wr)
    (wr_end_offset wr) (wr_pending_tip_anchor wr) (wr_tip_anchor wr) (wr_partial_rotation_archive wr)
    (wr_log_diverged wr) (wr_owed_row_anchored wr) (wr_drains wr).
Definition set_pending (p : option TipAnchor) (wr : AuditWriter) : AuditWriter :=
  MkWriter (wr_file wr) (wr_last_hash wr) (wr_is_new_file wr) (wr_hmac_key wr) (wr_entry_count wr)
    (wr_end_offset wr) p (wr_tip_anchor wr) (wr_partial_rotation_archive wr)
    (wr_log_diverged wr) (wr_owed_row_anchored wr) (wr_drains wr).
Definition set_flags (partial diverged : option string) (owed : bool) (wr : AuditWriter) : AuditWriter :=
  MkWriter (wr_file wr) (wr_last_hash wr) (wr_is_new_file wr) (wr_hmac_key wr) (wr_entry_count wr)
    (wr_end_offset wr) (wr_pending_tip_anchor wr) (wr_tip_anchor wr) partial diverged owed (wr_drains wr).

Inductive TipAnchorOpenMode := ModeCheck | ModeRepair.
Inductive AnchorOutcome :=
| NotAnchored | AdoptedEmpty | AdoptedExisting | Current | Advanced | RotationCompleted.

Inductive StoredTipAnchor := StoredAbsent | StoredUsable (a : TipAnchor) | StoredUnusable (shape reason : string).

(** ** Effects: the writer and the world are threaded through, errors or not. *)

Definition State : Type := World * AuditWriter.
Definition M (A : Type) : Type := State -> result WriterError A * State.

Global Instance M_ret : MRet M := fun A a s => (Ok a, s).
Global Instance M_bind : MBind M := fun A B f m s =>
  match m s with
  | (Ok a, s') => f a s'
  | (Err e, s') => (Err e, s')
  end.

Definition fail {A} (e : WriterError) : M A := fun s => (Err e, s).
Definition lift {A} (r : result WriterError A) : M A := fun s => (r, s).
Definition get_world : M World := fun s => (Ok (fst s), s).
Definition get_writer : M AuditWriter := fun s => (Ok (snd s), s).
Definition on_world (f : World -> World) : M unit := fun s => (Ok (), (f (fst s), snd s)).
Definition on_writer (f : AuditWriter -> AuditWriter) : M unit := fun s => (Ok (), (fst s, f (snd s))).
(** The outcome of a call as a value. *)
Definition attempt {A} (m : M A) : M (result WriterError A) := fun s =>
  let '(r, s') := m s in (Ok r, s').

Definition next_outcome : M Outcome := fun s =>
  match w_outcomes (fst s) with
  | [] => (Ok Fine, s)
  | o :: os => (Ok o, (set_outcomes os (fst s), snd s))
  end.

(** A system call that changes nothing here. *)
Definition sys : M unit :=
  o ← next_outcome;
  match o with
  | Fine => mret ()
  | Fails kind => fail (WIo kind)
  | Short _ => fail (WIo "write zero")
  end.

Definition held_content (w : World) (file : nat) : string :=
  match w_nodes w !! file with Some (Regular c) => c | _ => EmptyString end.

(** [write_all] in append mode. *)
Definition write_all (file : nat) (bytes : string) : M unit :=
  o ← next_outcome;
  let put text := on_world (fun w =>
    set_files (w_names w) (<[file := Regular (held_content w file +:+ text)]> (w_nodes w)) (w_next w) w) in
  match o with
  | Fine => put bytes
  | Fails kind => fail (WIo kind)
  | Short n => put (String.substring 0 n bytes) ;; fail (WIo "write zero")
  end.

(** A fresh file behind a name. *)
Definition create_file (name content : string) (w : World) : World :=
  set_files (<[name := w_next w]> (w_names w)) (<[w_next w := Regular content]> (w_nodes w)) (S (w_next w)) w.

Definition remove_name (name : string) (w : World) : World :=
  set_files (delete name (w_names w)) (w_nodes w) (w_next w) w.

Definition rename_file (from to : string) (w : World) : World :=
  match w_names w !! from with
  | Some i => set_files (<[to := i]> (delete from (w_names w))) (w_nodes w) (w_next w) w
  | None => w
  end.

(** [fs::rename]: nothing happens when it fails. *)
Definition rename (from to : string) : M unit := sys ;; on_world (rename_file from to).

(** The keyring's anchor. *)
Definition TipAnchorParseError_to_string (e : TipAnchorParseError) : string :=
  match e with
  | FieldCount => "audit tip anchor: expected three colon-separated fields"
  | EntryCount => "audit tip anchor: entry count is not a decimal integer"
  | TipHash => "audit tip anchor: tip hash is not a 64-character lowercase hex digest"
  | EndOffset => "audit tip anchor: end offset is not a decimal integer"
  | EmptyAnchor => "audit tip anchor: entry count is zero; a file with no entries is not anchored"
  end.

Definition keyring_call : M unit :=
  o ← next_outcome;
  match o with
  | Fine => mret ()
  | Fails kind => fail (WTipAnchorStore kind)
  | Short _ => fail (WTipAnchorStore "keyring failure")
  end.

Definition load_anchor : M (option TipAnchor) :=
  keyring_call ;;
  w ← get_world;
  match w_keyring w with
  | None => mret None
  | Some raw =>
      match tip_anchor_parse (trim raw) with
      | Ok a => mret (Some a)
      | Err e => fail (WTipAnchorStore ("anchor value is unusable: " +:+ TipAnchorParseError_to_string e))
      end
  end.

Definition store_anchor (a : TipAnchor) : M unit :=
  keyring_call ;; on_world (fun w => set_keyring (Some (to_keyring_value a)) (w_reanchors w) w).

(** The counter is read, checked and written back. *)
Definition bump_reanchor_count : M Z :=
  keyring_call ;;
  w ← get_world;
  let next := w_reanchors w + 1 in
  if hi u64 <? next then fail (WTipAnchorStore "audit re-anchor counter overflow")
  else
    keyring_call ;;
    on_world (fun w => set_keyring (w_keyring w) next w) ;;
    mret next.

Definition LOG_REPLACED_REASON : string := "the log at the path was replaced underneath the writer".
Definition LOG_TRUNCATED_REASON : string := "the log is shorter than the writer's last append".
Definition LOG_TIP_REWRITTEN_REASON : string := "the entry at the writer's last append is not the one it wrote".

Section writer.
Context {E : Type} `{!AuditJson E} `{!Sha2}.
(** The base name of the log, the text of the clock and the identifiers drawn at
    each reading, and the length at which the file is rotated
    ([ROTATION_THRESHOLD_BYTES] in a production build). *)
Variables (stem : string) (clock uuid : nat -> string) (threshold : Z).

Definition tick : M nat := fun s =>
  let w := fst s in
  (Ok (w_tick w), (set_rotation (S (w_tick w)) (w_last_rotation_timestamp_ms w)
                     (w_rotation_collision_counter w) w, snd s)).

(** ** The anchor *)

Definition anchor_behind (wr : AuditWriter) : bool := bool_decide (is_Some (wr_pending_tip_anchor wr)).

(** Stored at the second attempt at the latest, or owed. *)
Definition store_tip_anchor_best_effort (a : TipAnchor) : M unit :=
  wr ← get_writer;
  if negb (wr_tip_anchor wr) then mret ()
  else
    r ← attempt (store_anchor a);
    r ← match r with Ok _ => mret r | Err _ => attempt (store_anchor a) end;
    match r with
    | Ok _ => on_writer (set_pending None)
    | Err _ => on_writer (set_pending (Some a))
    end.

Definition retry_tip_anchor_if_behind : M unit :=
  wr ← get_writer;
  match wr_pending_tip_anchor wr with
  | None => mret ()
  | Some a =>
      if negb (wr_tip_anchor wr) then fail TipAnchorUnavailable
      else store_anchor a ;; on_writer (set_pending None)
  end.

Definition path_len (w : World) : option Z :=
  match dir_of w !! stem with Some (Regular c) => Some (len c) | Some _ => Some 0 | None => None end.

Definition diverged_error (w : World) (wr : AuditWriter) (anchor : option TipAnchor) (reason : string)
  : WriterError :=
  let '(expected_count, expected_offset) :=
    match anchor with
    | Some a => (ta_entry_count a, ta_end_offset a)
    | None => (wr_entry_count wr, wr_end_offset wr)
    end in
  WTipAnchorMismatch expected_count expected_offset (default 0 (path_len w)) reason.

(** A divergence stays. *)
Definition latch {A} (anchor : option TipAnchor) (reason : string) : M A :=
  on_writer (fun wr => set_flags (wr_partial_rotation_archive wr) (Some reason) (wr_owed_row_anchored wr) wr) ;;
  w ← get_world; wr ← get_writer; fail (diverged_error w wr anchor reason).

Definition refuse_if_replaced (anchor : option TipAnchor) : M unit :=
  w ← get_world; wr ← get_writer;
  match wr_log_diverged wr with
  | Some reason => fail (diverged_error w wr anchor reason)
  | None =>
      sys ;;
      if bool_decide (w_names w !! stem = Some (wr_file wr)) then mret ()
      else latch anchor LOG_REPLACED_REASON
  end.

Definition entry_is_intact_at (end_offset : Z) (tip_hash : string) : M bool :=
  sys ;;
  w ← get_world; wr ← get_writer;
  match read_last_line_before (held_content w (wr_file wr)) end_offset with
  | None => mret false
  | Some line =>
      match from_slice (E:=E) line with
      | Err _ => mret false
      | Ok e =>
          hash ← lift (map_err WHash (compute_entry_hash_streamed e (ae_previous_entry_hash e)));
          mret (bool_decide (hash = tip_hash))
      end
  end.

Definition refuse_if_log_moved_on_append : M unit :=
  wr ← get_writer;
  if negb (wr_tip_anchor wr) then mret ()
  else
    refuse_if_replaced None ;;
    sys ;;
    w ← get_world;
    match path_len w with
    | None => fail (WIo "entity not found")
    | Some l =>
        if l <? wr_end_offset wr then latch None LOG_TRUNCATED_REASON
        else
          intact ← (if 0 <? wr_entry_count wr
                    then entry_is_intact_at (wr_end_offset wr) (wr_last_hash wr) else mret true);
          if (intact : bool) then mret () else latch None LOG_TIP_REWRITTEN_REASON
    end.

(** ** Rotation *)

(** The clock's text without its punctuation; a name already used in this
    process, or an earlier clock, gets a counter. *)
Fixpoint str_filter (f : ascii -> bool) (s : string) : string :=
  match s with
  | EmptyString => EmptyString
  | String a s' => if f a then String a (str_filter f s') else str_filter f s'
  end.

Definition compact_timestamp : M string :=
  k ← tick;
  let compact := str_filter (fun a => negb (bool_decide (a = "Z"%char)))
                   (str_filter is_ascii_alphanumeric (clock k)) in
  let timestamp_ms := default 0 (ok (parse_int u64 (str_filter is_ascii_digit compact))) in
  w ← get_world;
  if w_last_rotation_timestamp_ms w <? timestamp_ms then
    on_world (set_rotation (w_tick w) timestamp_ms (w_rotation_collision_counter w)) ;; mret compact
  else
    let suffix := w_rotation_collision_counter w + 1 in
    on_world (set_rotation (w_tick w) (w_last_rotation_timestamp_ms w) suffix) ;;
    mret (compact +:+ "-" +:+ show_Z suffix).

Definition needs_rotation : M bool :=
  sys ;; w ← get_world; wr ← get_writer;
  mret (threshold <=? len (held_content w (wr_file wr))).

Definition entry_end_offset : M Z :=
  sys ;; w ← get_world; wr ← get_writer; mret (len (held_content w (wr_file wr))).

Definition nl : string := String newline EmptyString.

Definition append_rotation_handoff (rotated_name : string) : M string :=
  k ← tick;
  wr ← get_writer;
  let handoff : AuditEntry E := truncate_arg_keys_if_needed
    (with_previous (wr_last_hash wr) (new_rotation_handoff (clock k) rotated_name (uuid k))) in
  handoff_hash ← lift (map_err WHash (compute_entry_hash_streamed handoff (wr_last_hash wr)));
  write_all (wr_file wr) (to_vec handoff +:+ nl) ;;
  sys ;;
  on_writer (fun wr => set_tip (wr_last_hash wr) (wr_is_new_file wr) (wr_entry_count wr + 1) (wr_end_offset wr) wr) ;;
  off ← entry_end_offset;
  on_writer (fun wr => set_tip (wr_last_hash wr) (wr_is_new_file wr) (wr_entry_count wr) off wr) ;;
  wr ← get_writer;
  store_tip_anchor_best_effort (MkAnchor (wr_entry_count wr) handoff_hash (wr_end_offset wr)) ;;
  mret handoff_hash.

(** Failed removals are ignored. *)
Definition remove_file (name : string) : M unit :=
  o ← next_outcome; match o with Fine => on_world (remove_name name) | _ => mret () end.

Fixpoint remove_archives (names : list string) : M unit :=
  match names with
  | [] => mret ()
  | name :: names' =>
      remove_file name ;;
      w ← get_world;
      (if exists_in (dir_of w) (hmac_sidecar_path name) then remove_file (hmac_sidecar_path name) else mret ()) ;;
      remove_archives names'
  end.

Definition prune_rotated_files : M unit :=
  sys ;;
  w ← get_world;
  let rotated := rotated_names (dir_of w) stem in
  if count rotated <=? MAX_ROTATED_FILES then mret ()
  else remove_archives (take (Z.to_nat (count rotated - MAX_ROTATED_FILES)) (sort_strings rotated)).

(** [create_new]: refused when the name exists. *)
Definition create_new_active_file : M nat :=
  sys ;;
  w ← get_world;
  match w_names w !! stem with
  | Some _ => fail (WIo "already exists")
  | None => on_world (create_file stem EmptyString) ;; mret (w_next w)
  end.

Definition finish_rotation (rotated_name handoff_hash : string) : M unit :=
  rename stem rotated_name ;;
  prune_rotated_files ;;
  r ← attempt create_new_active_file;
  match r with
  | Err _ =>
      on_writer (fun wr => set_flags (Some rotated_name) (wr_log_diverged wr) (wr_owed_row_anchored wr) wr) ;;
      fail (WPartialRotation rotated_name)
  | Ok file => on_writer (fun wr => set_tip handoff_hash true 0 0 (set_file file wr))
  end.

Definition rotate : M unit :=
  ts ← compact_timestamp;
  let rotated_name := stem +:+ "." +:+ ts in
  handoff_hash ← append_rotation_handoff rotated_name;
  w ← get_world;
  (if exists_in (dir_of w) (hmac_sidecar_path stem)
   then rename (hmac_sidecar_path stem) (hmac_sidecar_path rotated_name) else mret ()) ;;
  finish_rotation rotated_name handoff_hash.

(** ** Appending *)

(** [OpenOptions::create.truncate] and two writes. *)
Definition write_root_hmac_sidecar (tag : string) : M unit :=
  o ← next_outcome;
  match o with
  | Fine => on_world (create_file (hmac_sidecar_path stem) (tag +:+ nl)) ;; sys
  | Fails kind => fail (WIo kind)
  | Short n => on_world (create_file (hmac_sidecar_path stem) (String.substring 0 n (tag +:+ nl))) ;;
               fail (WIo "write zero")
  end.

(** Checks before an append; [inl] when the log moved underneath the writer. *)
Inductive AppendRefusal := LogMoved (e : WriterError) | OtherRefusal (e : WriterError).

Definition prepare_append : M (option AppendRefusal) :=
  wr ← get_writer;
  match wr_partial_rotation_archive wr with
  | Some archive_name => mret (Some (OtherRefusal (WPartialRotation archive_name)))
  | None =>
      r ← attempt refuse_if_log_moved_on_append;
      match r with
      | Err e => mret (Some (LogMoved e))
      | Ok _ =>
          attempt retry_tip_anchor_if_behind ;;
          r ← attempt (full ← needs_rotation; if (full : bool) then rotate else mret ());
          match r with Err e => mret (Some (OtherRefusal e)) | Ok _ => mret None end
      end
  end.

Definition commit_append (e : AuditEntry E) : M unit :=
  let e := truncate_arg_keys_if_needed e in
  wr ← get_writer;
  let e := with_previous (wr_last_hash wr) e in
  current_hash ← lift (map_err WHash (compute_entry_hash_streamed e (wr_last_hash wr)));
  write_all (wr_file wr) (to_vec e +:+ nl) ;;
  sys ;;
  (if wr_is_new_file wr then
     (match wr_hmac_key wr with
      | Some key => write_root_hmac_sidecar (sign_chain_root key (as_bytes (canonical_json_body e)))
      | None => mret ()
      end) ;;
     on_writer (fun wr => set_tip (wr_last_hash wr) false (wr_entry_count wr) (wr_end_offset wr) wr)
   else mret ()) ;;
  on_writer (fun wr => set_tip (wr_last_hash wr) (wr_is_new_file wr) (wr_entry_count wr + 1) (wr_end_offset wr) wr) ;;
  off ← entry_end_offset;
  on_writer (fun wr => set_tip current_hash (wr_is_new_file wr) (wr_entry_count wr) off wr) ;;
  wr ← get_writer;
  store_tip_anchor_best_effort (MkAnchor (wr_entry_count wr) (wr_last_hash wr) (wr_end_offset wr)).

(** The anchor of a row that could not be written: the log owes it. *)
Definition anchor_the_refused_row (e : AuditEntry E) : M unit :=
  let e := truncate_arg_keys_if_needed e in
  wr ← get_writer;
  let e := with_previous (wr_last_hash wr) e in
  match compute_entry_hash_streamed e (wr_last_hash wr) with
  | Err _ => mret ()
  | Ok hash =>
      store_tip_anchor_best_effort
        (MkAnchor (wr_entry_count wr + 1) hash (wr_end_offset wr + len (to_vec e) + 1)) ;;
      on_writer (fun wr => set_flags (wr_partial_rotation_archive wr) (wr_log_diverged wr)
                             (negb (anchor_behind wr)) wr)
  end.

Definition anchor_owed_row (e : AuditEntry E) : M unit :=
  wr ← get_writer;
  if wr_owed_row_anchored wr then mret () else anchor_the_refused_row e.

Definition append_checked (e : AuditEntry E) : M unit :=
  refusal ← prepare_append;
  match refusal with
  | Some (LogMoved err) => anchor_owed_row e ;; fail err
  | Some (OtherRefusal err) => fail err
  | None => commit_append e
  end.

(** ** The outbox *)

(** The complete lines of the outbox, and whether a torn one follows. *)
Definition outbox_lines (bytes : string) : list string * bool :=
  let ls := raw_lines bytes in
  (strip_last newline <$> filter (fun l => ends_with newline l = true) ls,
   match last ls with Some l => negb (ends_with newline l) | None => false end).

Fixpoint parse_outbox (index : Z) (ls : list string) : result WriterError (list (AuditEntry E)) :=
  match ls with
  | [] => Ok []
  | l :: ls' =>
      e ← map_err (fun _ => OutboxUnusable index) (from_slice l);
      es ← parse_outbox (index + 1) ls'; Ok (e :: es)
  end.

Fixpoint append_all (es : list (AuditEntry E)) : M unit :=
  match es with
  | [] => mret ()
  | e :: es' => append_checked e ;; append_all es'
  end.

Definition outbox_path : string := sidecar_path stem ".outbox".

(** Waiting for the outbox lock: it stays held, or the lock file cannot be used. *)
Definition lock_outbox : M unit :=
  o ← next_outcome;
  match o with
  | Fine => mret ()
  | Fails kind => fail (WIo kind)
  | Short _ => fail OutboxBusy
  end.

Definition drain_outbox : M Z :=
  w ← get_world;
  match w_names w !! outbox_path with
  | None => mret 0
  | Some file =>
      lock_outbox ;;
      sys ;;
      w ← get_world;
      let '(ls, torn) := outbox_lines (held_content w file) in
      es ← lift (parse_outbox 1 ls);
      if match es with [] => negb torn | _ => false end then mret 0
      else
        append_all es ;;
        sys ;;
        on_world (fun w => set_files (w_names w) (<[file := Regular EmptyString]> (w_nodes w)) (w_next w) w) ;;
        mret (Z.of_nat (length es))
  end.

(** The text up to its last newline. *)
Definition complete_lines (bytes : string) : string :=
  String.concat EmptyString (filter (fun l => ends_with newline l = true) (raw_lines bytes)).

Definition put_content (file : nat) (text : string) : M unit :=
  on_world (fun w => set_files (w_names w) (<[file := Regular text]> (w_nodes w)) (w_next w) w).

(** [set_len], which may fail, and a sync, which may fail after it. *)
Definition truncate_in_place (file : nat) (text : string) : M unit := sys ;; put_content file text ;; sys.

Definition repair_torn_tail (file : nat) : M unit :=
  sys ;;
  w ← get_world;
  let bytes := held_content w file in
  if is_empty bytes || ends_with newline bytes then mret ()
  else truncate_in_place file (complete_lines bytes).

(** [AuditOutbox::append]: a line is durable when the call is acknowledged, and a refused one is
    cut off again, if that does not fail too. *)
Definition outbox_append (e : AuditEntry E) : M unit :=
  sys ;;
  lock_outbox ;;
  sys ;;
  w ← get_world;
  let created := bool_decide (w_names w !! outbox_path = None) in
  sys ;;
  (if created then on_world (create_file outbox_path EmptyString) else mret ()) ;;
  w ← get_world;
  match w_names w !! outbox_path with
  | None => fail (WIo "entity not found")
  | Some file =>
      repair_torn_tail file ;;
      sys ;;
      w ← get_world;
      let before := held_content w file in
      appended ← attempt (sys ;; write_all file (to_vec e +:+ nl) ;; sys ;; (if created then sys else mret ()));
      match appended with
      | Ok _ => mret ()
      | Err error => attempt (truncate_in_place file before) ;; fail error
      end
  end.

Definition write_entry (e : AuditEntry E) : M unit :=
  wr ← get_writer;
  (if wr_drains wr then drain_outbox ;; mret () else mret ()) ;;
  append_checked e.

(** The row is built from the writer as it stands when it is committed. *)
Definition write_built (build : AuditWriter -> AuditEntry E) : M unit :=
  wr ← get_writer;
  (if wr_drains wr then drain_outbox ;; mret () else mret ()) ;;
  refusal ← prepare_append;
  match refusal with
  | Some (LogMoved err) => wr ← get_writer; anchor_owed_row (build wr) ;; fail err
  | Some (OtherRefusal err) => fail err
  | None => wr ← get_writer; commit_append (build wr)
  end.

(** ** The reconciliation with the anchor *)

Definition adopt_scan_state (s : ChainScan) : M unit :=
  on_writer (fun wr => set_tip (if 0 <? cs_entry_count s then cs_last_hash s else wr_last_hash wr)
                         (cs_entry_count s =? 0) (cs_entry_count s) (cs_end_offset s) wr).

Definition chain_seed : M string :=
  sys ;; w ← get_world; lift (initial_chain_seed (E:=E) (dir_of w) stem).

Definition replay_active_file : M ChainScan :=
  seed ← chain_seed;
  sys ;; w ← get_world; wr ← get_writer;
  lift (read_and_verify_entry_chain (E:=E) (held_content w (wr_file wr)) 0 seed).

Definition scan_anchor (s : ChainScan) : TipAnchor :=
  MkAnchor (cs_entry_count s) (cs_last_hash s) (cs_end_offset s).

Definition require_anchor_current : M unit :=
  refuse_if_log_moved_on_append ;; retry_tip_anchor_if_behind.

Fixpoint first_entry (raws : list string) : result WriterError (AuditEntry E) :=
  match raws with
  | [] => Err (WIo "audit log has no first entry to verify the chain root against")
  | raw :: raws' =>
      let line := strip_line_terminator raw in
      if str_all is_ascii_whitespace line then first_entry raws'
      else map_err Serialise (from_slice line)
  end.

Definition verify_chain_root_for_adoption : M unit :=
  w ← get_world; wr ← get_writer;
  match wr_hmac_key wr with
  | None => mret ()
  | Some key =>
      match dir_of w !! hmac_sidecar_path stem with
      | None => mret ()
      | Some (Regular tag) =>
          sys ;;
          first ← lift (first_entry (raw_lines (held_content w (wr_file wr))));
          lift (map_err (fun _ => IntegrityViolation (HmacMismatch stem))
                  (verify_chain_root key (as_bytes (canonical_json_body first)) (trim tag)))
      | Some _ => fail (WIo "invalid data")
      end
  end.

Definition adopt_tip_anchor (l : Z) : M AnchorOutcome :=
  if l =? 0 then
    on_writer (fun wr => set_tip (wr_last_hash wr) (wr_is_new_file wr) 0 0 wr) ;; mret AdoptedEmpty
  else
    s ← replay_active_file;
    verify_chain_root_for_adoption ;;
    adopt_scan_state s ;;
    store_anchor (scan_anchor s) ;;
    mret (if cs_entry_count s =? 0 then AdoptedEmpty else AdoptedExisting).

Definition adopt_rotated_file : M AnchorOutcome :=
  s ← replay_active_file;
  adopt_scan_state s ;;
  (if 0 <? cs_entry_count s then store_anchor (scan_anchor s) else mret ()) ;;
  mret RotationCompleted.

Definition tip_anchor_mismatch (a : TipAnchor) (l : Z) (reason : string) : WriterError :=
  WTipAnchorMismatch (ta_entry_count a) (ta_end_offset a) l reason.

(** The anchor is there: the file must still hold the anchored entry where it was. *)
Definition reconcile_with (a : TipAnchor) (l : Z) : M AnchorOutcome :=
  intact ← entry_is_intact_at (ta_end_offset a) (ta_tip_hash a);
  if (intact : bool) && (l =? ta_end_offset a) then
    on_writer (set_tip (ta_tip_hash a) false (ta_entry_count a) (ta_end_offset a)) ;; mret Current
  else
    seed ← chain_seed;
    if bool_decide (seed = ta_tip_hash a) then adopt_rotated_file
    else if l <? ta_end_offset a then fail (tip_anchor_mismatch a l "file is shorter than the anchor")
    else if negb intact
    then fail (tip_anchor_mismatch a l "the entry at the anchored offset is not the anchored entry")
    else
      sys ;; w ← get_world; wr ← get_writer;
      tail ← lift (read_and_verify_entry_chain (E:=E) (held_content w (wr_file wr)) (ta_end_offset a) (ta_tip_hash a));
      let advanced := MkAnchor (ta_entry_count a + cs_entry_count tail) (cs_last_hash tail) (cs_end_offset tail) in
      on_writer (set_tip (ta_tip_hash advanced) false (ta_entry_count advanced) (ta_end_offset advanced)) ;;
      store_anchor advanced ;;
      mret Advanced.

Definition reconcile_tip_anchor : M AnchorOutcome :=
  wr ← get_writer;
  if negb (wr_tip_anchor wr) then mret NotAnchored
  else
    match wr_partial_rotation_archive wr with
    | Some archive_name => fail (WPartialRotation archive_name)
    | None =>
        anchor ← load_anchor;
        refuse_if_replaced anchor ;;
        wr ← get_writer;
        anchor ← (if anchor_behind wr then require_anchor_current ;; load_anchor else mret anchor);
        sys ;;
        w ← get_world;
        match path_len w with
        | None => fail (WIo "entity not found")
        | Some l =>
            match anchor with
            | None => adopt_tip_anchor l
            | Some a => reconcile_with a l
            end
        end
    end.

Definition record_adoption (outcome : AnchorOutcome) (entry_count : Z) : M unit :=
  match outcome with
  | AdoptedExisting =>
      k ← tick;
      attempt (append_checked (new_audit_tip_anchored (clock k) Adopted entry_count None None (uuid k))) ;; mret ()
  | _ => mret ()
  end.

Definition drain_then_record_adoption (outcome : AnchorOutcome) (entry_count : Z) : M unit :=
  wr ← get_writer;
  if wr_drains wr then
    r ← attempt drain_outbox;
    record_adoption outcome entry_count ;;
    match r with Err e => fail e | Ok _ => mret () end
  else record_adoption outcome entry_count.

Definition verify_tip_anchor : M unit :=
  outcome ← reconcile_tip_anchor;
  wr ← get_writer;
  drain_then_record_adoption outcome (wr_entry_count wr).

End writer.
