(* ===== verification/AuditOpen.v ===== *)
(** * Opening, checking and re-anchoring a log (stellar-agent-core,
      [audit_log/writer.rs])

    Opening looks for the traces of a rotation or an append that was cut short,
    replays the active file, and reconciles it with the anchor in the keyring.
    Re-anchoring replaces an anchor the operator acknowledges to be wrong.  Last come the
    two sinks of consent rows ([approval/attest.rs]). *)

From S2P Require Import Prelude RustStr Bytes Attest AuditEntry AuditFiles AuditWriter.
From stdpp Require Import options.

Local Open Scope string_scope.
Local Open Scope list_scope.
Local Open Scope Z_scope.

(** [while buf.last() == Some(&b'\n') { buf.pop(); }] *)
Fixpoint drop_newlines (s : string) : string :=
  match s with
  | EmptyString => EmptyString
  | String a s' => if bool_decide (a = newline) then drop_newlines s' else s
  end.
Definition pop_newlines (buf : string) : string := str_rev (drop_newlines (str_rev buf)).

Definition strip_suffix (suffix s : string) : option string :=
  str_rev <$> strip_prefix (str_rev suffix) (str_rev s).

Definition DRAIN_LOCK_ATTEMPTS : nat := 5.

Inductive ReanchorAcknowledgement := AckRollback | AckBindingChange (previous_anchor : option string).

Record ReanchorReport := MkReport {
  rr_previous : StoredTipAnchor;
  rr_current : option TipAnchor;
  rr_reanchor_count : Z;
  rr_outbox_drained : option Z;
}.

Section opening.
Context {E : Type} `{!AuditJson E} `{!Sha2}.
Variables (stem : string) (clock uuid : nat -> string) (threshold : Z).

(** ** Traces of a crash *)

Definition classify_last_line (last_line : string) (offset file_size : Z) : option PartialRotationState :=
  if json_value (E:=E) last_line then None else Some (PartialHandoffWrite stem file_size offset).

(** The backward scan for the last line, in chunks.  Out of fuel: [None] outside. *)
Fixpoint partial_loop (fuel : nat) (content : string) (scan_end : nat) (buf : string)
  : option (option PartialRotationState) :=
  match fuel with
  | O => None
  | S fuel' =>
      let chunk_size := Z.to_nat (Z.min SCAN_CHUNK (Z.of_nat scan_end)) in
      let chunk_start := (scan_end - chunk_size)%nat in
      let buf := pop_newlines (String.substring chunk_start chunk_size content +:+ buf) in
      if is_empty buf then Some None
      else
        match after_last_newline buf with
        | Some last_line =>
            if is_empty last_line then Some None
            else Some (classify_last_line last_line
                         (Z.of_nat chunk_start + len buf - len last_line) (len content))
        | None =>
            if (chunk_start =? 0)%nat then Some (classify_last_line buf 0 (len content))
            else partial_loop fuel' content chunk_start buf
        end
  end.

Definition detect_partial_last_entry (content : string) : option PartialRotationState :=
  if is_empty content then None
  else default None (partial_loop (S (String.length content)) content (String.length content) EmptyString).

(** A name that a finished rotation leaves no trace of. *)
Definition crash_trace (d : Dir) (name : string) : option VerifyError :=
  let orphan :=
    match strip_suffix ".root_hmac" name with
    | Some log_name =>
        if is_rotated_sibling stem log_name
           && match d !! log_name with Some (Regular _) => false | _ => true end
        then Some (VPartialRotation (OrphanSidecar name log_name)
               ("orphan sidecar detected — see docs/maintainers/audit-log-recovery.md §2.1. Sidecar: "
                +:+ name +:+ ". Expected log: " +:+ log_name +:+ "."))
        else None
    | None => None
    end in
  match orphan with
  | Some e => Some e
  | None =>
      match strip_suffix ".tmp" name with
      | Some _ =>
          let size := match d !! name with Some (Regular c) => len c | _ => 0 end in
          Some (VPartialRotation (MidRename name size)
            ("tmp file found — see docs/maintainers/audit-log-recovery.md §2.2. Tmp file: "
             +:+ name +:+ " (" +:+ show_Z size +:+ " bytes)."))
      | None => None
      end
  end.

(** The directory is read in no particular order. *)
Definition detect_partial_rotation (d : Dir) (active : string) : result WriterError unit :=
  match omap (crash_trace d) (fst <$> map_to_list d) with
  | e :: _ => Err (IntegrityViolation e)
  | [] =>
      match d !! stem with
      | Some (Regular _) =>
          match detect_partial_last_entry active with
          | Some state => Err (IntegrityViolation (VPartialRotation state
              ("truncated entry detected — see docs/maintainers/audit-log-recovery.md §2.3. Log: "
               +:+ stem +:+ ".")))
          | None => Ok ()
          end
      | _ => Ok ()
      end
  end.

(** ** Opening *)

(** A held lock is refused; other failures are errors of the file system. *)
Definition acquire_lock : M unit :=
  o ← next_outcome;
  match o with Fine => mret () | Fails kind => fail (WIo kind) | Short _ => fail FileLocked end.

(** A held lock is tried again [retries] times. *)
Fixpoint acquire_drain_lock (retries : nat) : M unit :=
  match retries with
  | O => acquire_lock
  | S retries' =>
      r ← attempt acquire_lock;
      match r with
      | Ok _ => mret ()
      | Err FileLocked => acquire_drain_lock retries'
      | Err e => fail e
      end
  end.

(** [create.append.read]: the file behind the name, made if there is none. *)
Definition open_append : M nat :=
  sys ;;
  w ← get_world;
  match w_names w !! stem with
  | None => on_world (create_file stem EmptyString) ;; mret (w_next w)
  | Some i =>
      match w_nodes w !! i with
      | Some (Regular _) => mret i
      | Some (Unreadable kind) => fail (WIo kind)
      | _ => fail (WIo "is a directory")
      end
  end.

Definition open_inner (hmac_key : option (list Z)) (tip_anchor : bool) (mode : TipAnchorOpenMode) : M unit :=
  sys ;;
  acquire_lock ;;
  let drains := tip_anchor && match mode with ModeCheck => true | ModeRepair => false end in
  (if drains then acquire_drain_lock (DRAIN_LOCK_ATTEMPTS - 1) else mret ()) ;;
  file ← open_append;
  w ← get_world;
  let content := held_content w file in
  lift (detect_partial_rotation (dir_of w) content) ;;
  sys ;;
  seed ← lift (initial_chain_seed (E:=E) (dir_of w) stem);
  s ← (if is_empty content then mret (MkScan seed 0 0)
       else lift (read_and_verify_entry_chain (E:=E) content 0 seed));
  on_writer (fun _ => MkWriter file (cs_last_hash s) (is_empty content) hmac_key (cs_entry_count s)
                        (cs_end_offset s) None tip_anchor None None false drains) ;;
  if drains then verify_tip_anchor (E:=E) stem clock uuid threshold else mret ().

Definition audit_open (access : option (list Z)) : M unit :=
  open_inner access (bool_decide (is_Some access)) ModeCheck.

(** ** Re-anchoring *)

Definition describe_anchor_shape (raw : option string) : string :=
  match raw with
  | None => "the value disappeared between the two reads"
  | Some raw => show_Z (count (split ":" raw)) +:+ " colon-separated fields, "
                +:+ show_Z (len raw) +:+ " bytes"
  end.

Definition stored_tip_anchor : M StoredTipAnchor :=
  wr ← get_writer;
  if negb (wr_tip_anchor wr) then fail TipAnchorUnavailable
  else
    r ← attempt load_anchor;
    match r with
    | Ok (Some a) => mret (StoredUsable a)
    | Ok None => mret StoredAbsent
    | Err e =>
        keyring_call ;;
        w ← get_world;
        mret (StoredUnusable (describe_anchor_shape (w_keyring w))
                match e with WTipAnchorStore detail => detail | _ => EmptyString end)
    end.

Definition stored_coordinates (s : StoredTipAnchor) : option string :=
  match s with
  | StoredAbsent => None
  | StoredUsable a => Some (coordinates a)
  | StoredUnusable shape _ => Some ("unusable (" +:+ shape +:+ ")")
  end.

Fixpoint append_acknowledgements (acks : list ReanchorAcknowledgement) (previous : StoredTipAnchor)
    (repaired_count reanchor_count : Z) : M unit :=
  match acks with
  | [] => mret ()
  | ack :: acks' =>
      let '(reason, previous_anchor) :=
        match ack with
        | AckRollback => (RollbackAcknowledged, stored_coordinates previous)
        | AckBindingChange p => (BindingChanged, p)
        end in
      k ← tick;
      append_checked (E:=E) stem clock uuid threshold
        (new_audit_tip_anchored (clock k) reason repaired_count previous_anchor (Some reanchor_count) (uuid k)) ;;
      append_acknowledgements acks' previous repaired_count reanchor_count
  end.

Definition reanchor_acknowledging (acks : list ReanchorAcknowledgement) : M ReanchorReport :=
  wr ← get_writer;
  if negb (wr_tip_anchor wr) then fail TipAnchorUnavailable
  else match acks with
  | [] => fail (WIo "invalid input")
  | _ =>
      previous ← stored_tip_anchor;
      s ← replay_active_file (E:=E) stem;
      adopt_scan_state s ;;
      (if 0 <? cs_entry_count s then store_anchor (scan_anchor s) else mret ()) ;;
      reanchor_count ← bump_reanchor_count;
      append_acknowledgements acks previous (cs_entry_count s) reanchor_count ;;
      r ← attempt (drain_outbox (E:=E) stem clock uuid threshold);
      current ← load_anchor;
      mret (MkReport previous current reanchor_count (ok r))
  end.

End opening.

(** ** Where consent rows go *)

Section consent.
Context {E : Type} `{!AuditJson E} `{!Sha2}.
Variables (stem : string) (clock uuid : nat -> string) (threshold : Z).
(** The payload of the event, and [Display] of the writer's errors. *)
Variables (event : AttestedRow -> E) (display : WriterError -> string).

Definition audit_log_unusable_detail (e : WriterError) : option string :=
  match e with
  | FileLocked => Some ("audit.writer_locked: an active audit writer holds this profile's lock "
      +:+ "(for example, a running stellar-agent-mcp server); stop the process using "
      +:+ "this profile, retry the command, then restart the server if needed")
  | RotationBridgeUnusable _ _ | IntegrityViolation _ | OutboxBusy | OutboxUnusable _ => Some (display e)
  | ChainBrokenAtOpen entry_idx _ _ => Some ("audit.chain_broken: the log's own hash chain is broken at entry "
      +:+ show_Z entry_idx +:+ "; the file was modified outside the writer")
  | WTipAnchorStore detail => Some ("audit.tip_anchor_unavailable: the tip anchor could not be read or written ("
      +:+ detail +:+ "); the keyring must be reachable before a value-moving verb can prove "
      +:+ "the log has not been rolled back")
  | WPathContract detail => Some ("audit.path_contract: " +:+ detail)
  | WIo kind => Some ("audit.io_error: the audit log could not be read or written (" +:+ kind +:+ ")")
  | Serialise _ | WHash _ => Some ("audit.parse_error: the audit log could not be parsed or hashed; the file was "
      +:+ "modified outside the writer")
  | WPartialRotation _ => Some ("audit.partial_rotation: the audit directory holds evidence of a crash "
      +:+ "mid-rotation and needs operator inspection")
  | TipAnchorUnavailable | WTipAnchorMismatch _ _ _ _ | PathMismatch _ _ _ | HmacKeyMismatch _ => None
  end.

Definition audit_writer_refusal (e : WriterError) : AuditRefusal :=
  match e with
  | WTipAnchorMismatch _ _ _ reason => AuditTipAnchorMismatch reason
  | _ => match audit_log_unusable_detail e with
         | Some detail => AuditLogUnusable detail
         | None => AuditWriterOpenFailed
         end
  end.

(** [new_approval_attested] and [new_approval_attested_remote], which differ in the event alone. *)
Definition new_approval_attested (ts request_id : string) (row : AttestedRow) : AuditEntry E :=
  MkEntry ts "approval.attested" None [] None false None None AuditAllow None request_id (OtherEvent (event row)) EmptyString.

(** The entry is stamped when it is built. *)
Definition stamped (write : AuditEntry E -> M unit) (row : AttestedRow) : M unit :=
  t ← tick; write (new_approval_attested (clock t) (uuid t) row).

Definition sink_of (write : AuditEntry E -> M unit) : ConsentAudit State := fun row s =>
  let '(r, s') := stamped write row s in (map_err audit_writer_refusal r, s').

(** [ConsentAudit::Writer] and [ConsentAudit::Outbox]. *)
Definition writer_sink : ConsentAudit State := sink_of (write_entry stem clock uuid threshold).
Definition outbox_sink : ConsentAudit State := sink_of (outbox_append stem).
End consent.
