(* ===== verification/AuditRunProps.v ===== *)
(** * The writer's log verifies

    The bytes the writer leaves are the entries one per line.  As long as no
    archive has been pruned and no write has failed, the verifier accepts the log
    and finds in it what was written; the first pruning ends that. *)

From S2P Require Import Prelude RustStr Bytes Time AuditEntry AuditFiles AuditVerify AuditChainProps AuditFilesProps AuditVerifyProps AuditWriter.
From stdpp Require Import options.

Local Open Scope string_scope.
Local Open Scope list_scope.
Local Open Scope Z_scope.
Set Default Proof Using "Type*".

Section text.
Context {E : Type} {AJ : AuditJson E} {AL : AuditJsonLaws E} {SH : Sha2} {SL : Sha2Laws}
  {ZB : ZeroBlock} {UE : Utf8Error}.
Implicit Types (e : AuditEntry E) (es : list (AuditEntry E)) (d : Dir).

(** ** The text of entries *)

Definition line_of e : string := to_vec e +:+ nl.
Definition text_of es : string := foldr (fun e s => line_of e +:+ s) EmptyString es.

Lemma text_of_snoc es e : text_of (es ++ [e]) = text_of es +:+ line_of e.
Proof.
  induction es as [|x es IH]; cbn [app text_of foldr]; [by rewrite str_app_nil_r|].
  fold (text_of (es ++ [e])) (text_of es). by rewrite IH, str_app_assoc.
Qed.

Lemma to_vec_no_newline e : contains newline (to_vec e) = false.
Proof.
  rewrite contains_false. eapply str_all_impl; [|apply (to_vec_bytes e)]. intros a Ha.
  apply negb_true_iff, bool_decide_eq_false. by intros ->.
Qed.

Lemma raw_lines_text es : raw_lines (text_of es) = line_of <$> es.
Proof.
  induction es as [|e es IH]; [done|]. cbn [text_of foldr fmap list_fmap]. fold (text_of es).
  unfold line_of at 1. rewrite <- str_app_assoc. change (nl +:+ text_of es) with (String newline (text_of es)).
  rewrite raw_lines_cons by apply to_vec_no_newline. by rewrite IH.
Qed.

Lemma to_vec_trimmed e : trimmed (to_vec e) /\ to_vec e <> EmptyString.
Proof.
  destruct (to_vec_object e) as [f Hf]. rewrite Hf. split; [|by destruct f].
  right. exists ("{" +:+ f), "}"%char. by rewrite str_app_assoc.
Qed.

Lemma strip_line_of e : strip_line_terminator (line_of e) = to_vec e.
Proof.
  unfold strip_line_terminator, line_of, nl. rewrite strip_last_char.
  destruct (to_vec_object e) as [f Hf]. rewrite Hf, str_app_assoc. by apply strip_last_other.
Qed.

Lemma to_vec_visible e : is_empty (trim (to_vec e)) = false.
Proof.
  destruct (is_empty _) eqn:Ee; [|done]. apply is_empty_spec in Ee.
  pose proof (trim_brace (to_vec e)) as Hb. rewrite Ee in Hb. destruct (to_vec_object e) as [f Hf].
  by rewrite Hf in Hb.
Qed.

Lemma to_vec_not_blank e : str_all is_ascii_whitespace (to_vec e) = false.
Proof. destruct (to_vec_object e) as [f ->]. done. Qed.

Lemma line_entry_line_of e : line_entry (line_of e) = Some e.
Proof. unfold line_entry. by rewrite strip_line_of, to_vec_visible, from_to_vec. Qed.

Lemma file_entries_text es : file_entries (text_of es) = es.
Proof.
  unfold file_entries. rewrite raw_lines_text. induction es as [|e es IH]; [done|].
  cbn [fmap list_fmap omap list_omap]. by rewrite line_entry_line_of, IH.
Qed.

(** The last entry is what a scan from the end finds. *)
Lemma last_line_text es e post :
  read_last_line_before (text_of (es ++ [e]) +:+ post) (len (text_of (es ++ [e]))) = Some (to_vec e).
Proof.
  rewrite last_line_scan_exact. unfold last_line. rewrite text_of_snoc. unfold line_of.
  destruct (to_vec_trimmed e) as [Ht Hne]. rewrite str_app_assoc, pop_whitespace_unique; [|by apply trimmed_app|done].
  rewrite is_empty_app. replace (is_empty (to_vec e)) with false by (by destruct (to_vec e)).
  rewrite andb_false_r. f_equal. destruct es as [|x es _] using rev_ind.
  - change (text_of []) with EmptyString. change (EmptyString +:+ ?x) with x.
    destruct (after_last_newline (to_vec e)) as [l|] eqn:El; [|done]. exfalso.
    apply after_last_newline_spec in El as (p & Hp & _). pose proof (to_vec_no_newline e) as Hn.
    rewrite Hp in Hn. unfold contains in Hn. rewrite str_all_app in Hn. cbn [str_all] in Hn.
    rewrite bool_decide_true in Hn by done. by rewrite andb_false_r in Hn.
  - rewrite text_of_snoc. unfold line_of, nl. rewrite <- !str_app_assoc, str_app_cons.
    change (EmptyString +:+ ?x) with x.
    assert (Hal : after_last_newline (String newline (to_vec e)) = Some (to_vec e)).
    { cbn [after_last_newline]. destruct (after_last_newline (to_vec e)) as [l|] eqn:El; [|by rewrite bool_decide_true].
      exfalso. apply after_last_newline_spec in El as (p & Hp & _). pose proof (to_vec_no_newline e) as Hn.
      rewrite Hp in Hn. unfold contains in Hn. rewrite str_all_app in Hn. cbn [str_all] in Hn.
      rewrite bool_decide_true in Hn by done. by rewrite andb_false_r in Hn. }
    by rewrite (after_last_newline_app _ _ _ (after_last_newline_app (to_vec x) _ _ Hal)).
Qed.

(** ** Verification of such a text *)

Definition ts_ok e : Prop := is_ok (parse_audit_timestamp_ms (ae_ts e)) = true.
Definition is_handoff e : bool := match ae_event_kind e with AuditRotationHandoff _ => true | _ => false end.

(** The archive name of the last handoff. *)
Definition last_handoff (acc : option string) es : option string :=
  foldl (fun acc e => match ae_event_kind e with AuditRotationHandoff n => Some n | _ => acc end) acc es.

Lemma verify_lines_text d ctx es st tip :
  linked (fw_prev_hash st) es tip -> Forall ts_ok es ->
  (vc_is_last_file ctx = true -> Forall (fun e => is_handoff e = false) es) ->
  (fw_is_first_entry st = true -> forall e es', es = e :: es' ->
     check_sidecar d ctx (canonical_json_body e) = Ok ()) ->
  exists st', verify_lines d ctx st (line_of <$> es) = Ok st' /\
    fw_prev_hash st' = tip /\ fw_entries st' = fw_entries st + count es /\
    fw_consumed st' = fw_consumed st + len (text_of es) /\
    fw_end_offset st' = match es with [] => fw_end_offset st | _ => fw_consumed st' end /\
    fw_last_handoff st' = last_handoff (fw_last_handoff st) es.
Proof.
  revert st. induction es as [|e es IH]; intros st Hl Ht Hh Hs.
  { exists st. cbn in *. subst tip. repeat split; unfold count, len; cbn; lia. }
  apply Forall_cons in Ht as [Hte Ht]. destruct Hl as (Hp & h & Hc & Hl).
  unfold ts_ok in Hte. destruct (parse_audit_timestamp_ms (ae_ts e)) as [ms|] eqn:Ems; [|done].
  set (st1 := MkWalk h (fw_entries st + 1) (fw_consumed st + len (line_of e)) false
    (last_handoff (fw_last_handoff st) [e]) (Some (ae_ts e, ms))
    (fw_warnings st ++ timestamp_warning ctx st (ae_ts e) ms)
    (fw_consumed st + len (line_of e)) (fw_line_index st + 1)).
  assert (H1 : verify_line d ctx st (line_of e) = Ok st1).
  { unfold verify_line. rewrite strip_line_of, to_vec_utf8, to_vec_visible, from_to_vec. cbn [negb map_err mbind result_bind].
    rewrite Ems. cbn [map_err]. rewrite Hp, bool_decide_true by done. cbn [negb].
    rewrite compute_hash_agrees, Hc. cbn [map_err].
    assert (Hsc : (if fw_is_first_entry st then check_sidecar d ctx (canonical_json_body e) else Ok ()) = Ok ()).
    { destruct (fw_is_first_entry st) eqn:Ef; [|done]. by eapply Hs. }
    rewrite Hsc. unfold st1, last_handoff. cbn [foldl]. unfold is_handoff in Hh.
    destruct (ae_event_kind e) eqn:Ek; try done.
    destruct (vc_is_last_file ctx) eqn:Elast; [|done]. specialize (Hh eq_refl). apply Forall_cons in Hh as [Hh _].
    by rewrite Ek in Hh. }
  destruct (IH st1) as (st' & Hv & Hprev & Hn & Hcons & Hoff & Hhand); [done|done| |done|].
  { intros Hx. specialize (Hh Hx). by apply Forall_cons in Hh as [_ Hh]. }
  exists st'. cbn [fmap list_fmap verify_lines]. rewrite H1. cbn [mbind result_bind].
  split; [done|]. split; [done|]. cbn [fw_entries fw_consumed fw_last_handoff st1] in *.
  split; [unfold count in *; cbn [length]; lia|].
  assert (Hlen : len (text_of (e :: es)) = len (line_of e) + len (text_of es)).
  { cbn [text_of foldr]. fold (text_of es). unfold len. rewrite str_length_app. lia. }
  split; [lia|]. split; [|done]. rewrite Hoff. destruct es; [|done].
  cbn [fw_end_offset]. rewrite Hcons. cbn. unfold len. cbn. lia.
Qed.

(** The sidecar of a file with these entries. *)
Definition sidecar_ok d (key : option (list Z)) (path : string) es : Prop :=
  forall k e es', key = Some k -> es = e :: es' ->
    d !! hmac_sidecar_path path
    = Some (Regular (sign_chain_root k (as_bytes (canonical_json_body e)) +:+ nl)).

Lemma hash_text_plain bs : bytes_ok bs -> str_all plain (hash_text bs) = true.
Proof.
  intros Hb. unfold hash_text. rewrite str_all_app. apply andb_true_iff. split; [done|].
  destruct (decode_to_slice_inv _ _ (decode_to_slice_encode bs Hb)) as [_ Hl].
  eapply str_all_impl; [|exact Hl]. intros a Ha. unfold is_lower_hex, byte_in, plain, ws1, byte_in in *. lia.
Qed.

Lemma check_sidecar_ok d ctx e es :
  sidecar_ok d (vc_hmac_key ctx) (vc_path ctx) (e :: es) ->
  check_sidecar d ctx (canonical_json_body e) = Ok ().
Proof.
  unfold sidecar_ok, check_sidecar. destruct (vc_hmac_key ctx) as [k|]; [|done]. intros Hs.
  specialize (Hs k e es eq_refl eq_refl). unfold exists_in. rewrite Hs, bool_decide_true by by eexists.
  set (tag := sign_chain_root k _) in *.
  assert (Hp : str_all plain tag = true) by (apply hash_text_plain, hmac_bytes).
  unfold read_regular_file_to_string, open_regular_file. rewrite Hs. cbn [mbind result_bind].
  rewrite utf8_ascii.
  - unfold nl. cbn [mbind result_bind]. rewrite trim_newline by done. unfold verify_chain_root, tag, sign_chain_root.
    rewrite decode_hash_text by auto using hmac_length, hmac_bytes. cbn [map_err mbind result_bind].
    by rewrite bool_decide_true.
  - rewrite str_all_app, (str_all_impl plain _ tag); [done| |done].
    intros a Ha. unfold plain in Ha. by apply andb_true_iff in Ha as [_ Ha].
Qed.

(** One file. *)
Lemma verify_file_text d ctx es tip :
  d !! vc_path ctx = Some (Regular (text_of es)) ->
  linked (default ZERO_BLOCK_HASH (vc_expected_initial_prev_hash ctx)) es tip -> Forall ts_ok es ->
  (vc_is_last_file ctx = true -> Forall (fun e => is_handoff e = false) es) ->
  sidecar_ok d (vc_hmac_key ctx) (vc_path ctx) es ->
  (forall name, vc_next_file_basename ctx = Some name -> last_handoff None es = Some name) ->
  exists r, verify_single_file d ctx = Ok r /\ sf_last_hash r = tip /\ sf_entries r = count es /\
    sf_end_offset r = len (text_of es) /\ sf_sidecar_verified r = bool_decide (is_Some (vc_hmac_key ctx)).
Proof.
  intros Hd Hl Ht Hh Hs Hn. unfold verify_single_file, open_regular_file. rewrite Hd. cbn [mbind result_bind].
  rewrite raw_lines_text.
  destruct (verify_lines_text d ctx es (initial_walk ctx) tip) as (st & -> & Hp & He & Hc & Ho & Hf); try done.
  { intros _ e es' ->. by eapply check_sidecar_ok. }
  cbn [mbind result_bind initial_walk fw_last_handoff fw_entries fw_consumed fw_end_offset] in *.
  assert (Hck : check_handoff ctx (fw_last_handoff st) = Ok ()).
  { unfold check_handoff. destruct (vc_next_file_basename ctx) as [name|]; [|done].
    rewrite Hf, (Hn name eq_refl). by rewrite bool_decide_true. }
  rewrite Hck. eexists. split; [done|]. cbn [sf_last_hash sf_entries sf_end_offset sf_sidecar_verified].
  split; [done|]. split; [lia|]. split; [|done]. rewrite Ho. destruct es; [done|]. lia.
Qed.

(** ** A whole log of such files *)

(** An archive: its entries, with a handoff to its own name at the end. *)
Definition archive_ok d (key : option (list Z)) (a : string * list (AuditEntry E)) : Prop :=
  d !! fst a = Some (Regular (text_of (snd a))) /\ Forall ts_ok (snd a) /\
  last_handoff None (snd a) = Some (fst a) /\ sidecar_ok d key (fst a) (snd a).

Definition archived (archs : list (string * list (AuditEntry E))) : list (AuditEntry E) := concat (snd <$> archs).

(** The directory [d] holds the archives [archs], oldest first, and the entries
    [es] in the active file, chained from the zero block to [tip]. *)
Record log_ok d (stem : string) (key : option (list Z)) archs es (tip : string) : Prop := {
  lo_names : sort_strings (rotated_names d stem) = fst <$> archs;
  lo_cap : count archs <= ROTATED_FILE_CHAIN_CAP;
  lo_archives : Forall (archive_ok d key) archs;
  lo_active : d !! stem = Some (Regular (text_of es));
  lo_ts : Forall ts_ok es;
  lo_no_handoff : Forall (fun e => is_handoff e = false) es;
  lo_sidecar : sidecar_ok d key stem es;
  lo_chain : linked ZERO_BLOCK_HASH (archived archs ++ es) tip;
}.

Lemma log_ok_chain d stem key archs es tip :
  log_ok d stem key archs es tip -> collect_file_chain d stem = Ok ((fst <$> archs) ++ [stem]).
Proof.
  intros H. unfold collect_file_chain. pose proof (lo_names _ _ _ _ _ _ H) as Hn.
  assert (Hc : count (rotated_names d stem) = count archs).
  { unfold count. rewrite <- (sort_strings_perm (rotated_names d stem)), Hn, length_fmap. done. }
  rewrite Hc. replace (_ <? _) with false; [by rewrite Hn|].
  symmetry. apply Z.ltb_ge, (lo_cap _ _ _ _ _ _ H).
Qed.

Lemma walk_files_text d stem key archs es tip st :
  Forall (archive_ok d key) archs -> d !! stem = Some (Regular (text_of es)) -> Forall ts_ok es ->
  Forall (fun e => is_handoff e = false) es -> sidecar_ok d key stem es ->
  linked (default ZERO_BLOCK_HASH (lw_expected_prev_hash st)) (archived archs ++ es) tip ->
  exists st', walk_files d stem key st ((fst <$> archs) ++ [stem]) = Ok st' /\
    lw_active_tip st' = Some (MkTip (count es) tip (len (text_of es))) /\
    lw_total_entries st' = lw_total_entries st + count (archived archs ++ es).
Proof.
  intros Ha Hd Ht Hh Hs. revert st. induction Ha as [|[n l] archs (Hn & Hnt & Hnh & Hns) _ IH]; intros st Hl.
  - cbn [fmap list_fmap app walk_files]. unfold walk_file, exists_in. rewrite bool_decide_true by (rewrite Hd; by eexists).
    destruct (verify_file_text d (file_context stem key st stem true) es tip) as (r & -> & Hlast & Hcnt & Hoff & _); try done.
    cbn [negb mbind result_bind]. eexists. split; [done|]. cbn [lw_active_tip lw_total_entries].
    rewrite Hlast, Hcnt, Hoff. done.
  - cbn [fmap list_fmap app fst snd walk_files] in *. unfold archived in Hl. cbn [fmap list_fmap concat snd] in Hl.
    fold (archived archs) in Hl. rewrite <- app_assoc in Hl. apply linked_app in Hl as (h & Hl1 & Hl2).
    unfold walk_file, exists_in. rewrite bool_decide_true by (rewrite Hn; by eexists). cbn [negb].
    assert (Hrest : match (fst <$> archs) ++ [stem] with [] => true | _ => false end = false) by (by destruct archs).
    rewrite Hrest.
    destruct (verify_file_text d (file_context stem key st n false) l h) as (r & -> & Hlast & Hcnt & _); try done.
    { cbn. by intros ? [= <-]. }
    cbn [mbind result_bind]. edestruct IH as (st' & -> & Htip & Htot); [cbn; rewrite Hlast; exact Hl2|].
    exists st'. split; [done|]. split; [done|]. rewrite Htot. cbn [lw_total_entries]. rewrite Hcnt.
    unfold archived. cbn [fmap list_fmap concat snd]. unfold count. rewrite <- app_assoc, !length_app. lia.
Qed.

(** Such a log verifies, and its entries are found. *)
Lemma log_ok_verifies d stem key archs es tip :
  log_ok d stem key archs es tip ->
  (exists r, verify_log (still d) stem key = Ok r /\
    vo_active_tip r = Some (MkTip (count es) tip (len (text_of es))) /\
    vo_entries_verified r = count (archived archs ++ es)) /\
  log_entries d stem = archived archs ++ es.
Proof.
  intros H. pose proof (log_ok_chain _ _ _ _ _ _ H) as Hc. destruct H as [_ _ Ha Hd Ht Hh Hs Hl]. split.
  - rewrite verify_still, Hc. cbn [mbind result_bind]. unfold walk_log.
    edestruct walk_files_text as (st & -> & Htip & Htot); [exact Ha|exact Hd|exact Ht|exact Hh|exact Hs|exact Hl|].
    cbn [mbind result_bind]. eexists. split; [done|]. done.
  - unfold log_entries. rewrite Hc, flat_map_app. cbn [flat_map]. rewrite app_nil_r. f_equal.
    + clear -Ha AL. induction Ha as [|[n l] archs (Hn & _) _ IH]; [done|]. cbn [fmap list_fmap flat_map fst snd] in *.
      unfold archived. cbn [fmap list_fmap concat snd]. fold (archived archs). f_equal; [|done].
      unfold node_entries. by rewrite Hn, file_entries_text.
    + unfold node_entries. by rewrite Hd, file_entries_text.
Qed.

(** A log whose oldest file does not start at the zero block is refused at once. *)
Lemma broken_start d stem key first rest l e :
  collect_file_chain d stem = Ok (first :: rest) -> d !! first = Some (Regular (text_of (e :: l))) ->
  ts_ok e -> ae_previous_entry_hash e <> ZERO_BLOCK_HASH ->
  verify_log (E:=E) (still d) stem key = Err (ChainBroken 1 first "previous_entry_hash_mismatch").
Proof.
  intros Hc Hd Ht Hp. rewrite verify_still, Hc. cbn [mbind result_bind]. unfold walk_log. cbn [walk_files].
  assert (Hex : exists_in d first = true) by (apply bool_decide_eq_true; rewrite Hd; by eexists).
  unfold walk_file. rewrite Hex. cbn [negb].
  set (ctx := file_context _ _ _ _ _). assert (Hx : verify_single_file (E:=E) d ctx
    = Err (ChainBroken 1 first "previous_entry_hash_mismatch")); [|by rewrite Hx].
  unfold verify_single_file, open_regular_file. change (vc_path ctx) with first. rewrite Hd. cbn [mbind result_bind].
  rewrite raw_lines_text. cbn [fmap list_fmap verify_lines]. unfold verify_line.
  rewrite strip_line_of, to_vec_utf8, to_vec_visible, from_to_vec. cbn [negb map_err mbind result_bind].
  unfold ts_ok in Ht. destruct (parse_audit_timestamp_ms (ae_ts e)); [|done]. cbn [map_err].
  by rewrite (bool_decide_false (ae_previous_entry_hash e = fw_prev_hash (initial_walk ctx))) by exact Hp.
Qed.

End text.
