(* ===== verification/AuditWriterProps.v ===== *)
(** * What the audit writer leaves behind

    Runs of the writer in which no system call fails: the log on disk verifies at
    every point, holds exactly what was written, and the keyring names its tip -
    until the eleventh rotation, whose pruning makes the verifier refuse it. *)

From S2P Require Import Prelude RustStr Bytes Time AuditEntry AuditFiles AuditVerify AuditChainProps AuditFilesProps AuditVerifyProps AuditWriter AuditRunProps.
From stdpp Require Import options.

Local Open Scope string_scope.
Local Open Scope list_scope.
Local Open Scope Z_scope.
Set Default Proof Using "Type*".

(** ** The directory behind the names *)

(** Names lead to different files, all of them made before. *)
Record world_ok (w : World) : Prop := {
  wk_fresh name i : w_names w !! name = Some i -> (i < w_next w)%nat;
  wk_inj a b i : w_names w !! a = Some i -> w_names w !! b = Some i -> a = b;
  wk_node name i : w_names w !! name = Some i -> is_Some (w_nodes w !! i);
}.

Lemma dir_lookup w name : dir_of w !! name = (w_names w !! name) ≫= fun i => w_nodes w !! i.
Proof. apply lookup_omap. Qed.

Lemma dir_is_Some w name : world_ok w -> is_Some (dir_of w !! name) <-> is_Some (w_names w !! name).
Proof.
  intros Hw. rewrite dir_lookup. destruct (w_names w !! name) as [i|] eqn:E; cbn; [|done].
  pose proof (wk_node _ Hw _ _ E). split; [by eexists|done].
Qed.

(** Appending through an open file changes what its name shows. *)
Definition put (file : nat) (text : string) (w : World) : World :=
  set_files (w_names w) (<[file := Regular text]> (w_nodes w)) (w_next w) w.

Lemma dir_put w file name text :
  world_ok w -> w_names w !! name = Some file ->
  dir_of (put file text w) = <[name := Regular text]> (dir_of w) /\ world_ok (put file text w).
Proof.
  intros Hw Hn. split.
  - apply map_eq. intros n. rewrite dir_lookup. cbn [put set_files w_names w_nodes].
    destruct (decide (n = name)) as [->|Hne].
    + rewrite Hn, lookup_insert_eq. cbn. by rewrite lookup_insert_eq.
    + rewrite lookup_insert_ne by done. rewrite dir_lookup.
      destruct (w_names w !! n) as [i|] eqn:E; [|done]. cbn. apply lookup_insert_ne.
      intros ->. apply Hne. by eapply (wk_inj _ Hw).
  - split; cbn [put set_files w_names w_nodes w_next]; intros; [by eapply (wk_fresh _ Hw)|by eapply (wk_inj _ Hw)|].
    destruct (decide (i = file)) as [->|?]; [rewrite lookup_insert_eq; by eexists|].
    rewrite lookup_insert_ne by done. by eapply (wk_node _ Hw).
Qed.

Lemma dir_create w name text :
  world_ok w ->
  dir_of (create_file name text w) = <[name := Regular text]> (dir_of w) /\ world_ok (create_file name text w).
Proof.
  intros Hw. assert (Hf : forall n i, w_names w !! n = Some i -> i <> w_next w).
  { intros n i Hn ->. apply (wk_fresh _ Hw) in Hn. lia. }
  split.
  - apply map_eq. intros n. rewrite dir_lookup. cbn [create_file set_files w_names w_nodes].
    destruct (decide (n = name)) as [->|Hne]; [rewrite !lookup_insert_eq; cbn; by rewrite lookup_insert_eq|].
    rewrite !lookup_insert_ne by done. rewrite dir_lookup.
    destruct (w_names w !! n) as [i|] eqn:E; [|done]. cbn. apply lookup_insert_ne. intros H. by apply (Hf n i).
  - split; cbn [create_file set_files w_names w_nodes w_next].
    + intros n i. destruct (decide (n = name)) as [->|?]; [rewrite lookup_insert_eq; intros [= <-]; lia|].
      rewrite lookup_insert_ne by done. intros H%(wk_fresh _ Hw). lia.
    + intros a b i. destruct (decide (a = name)) as [->|Ha], (decide (b = name)) as [->|Hb];
        rewrite ?lookup_insert_eq, ?lookup_insert_ne by done; try done.
      * intros [= <-] H. by destruct (Hf b (w_next w)).
      * intros H [= <-]. by destruct (Hf a (w_next w)).
      * apply (wk_inj _ Hw).
    + intros n i. destruct (decide (n = name)) as [->|?].
      * rewrite lookup_insert_eq. intros [= <-]. rewrite lookup_insert_eq. by eexists.
      * rewrite lookup_insert_ne by done. intros H. rewrite lookup_insert_ne by (intros Hi; by apply (Hf n i)).
        by eapply (wk_node _ Hw).
Qed.

Lemma dir_remove w name :
  world_ok w -> dir_of (remove_name name w) = delete name (dir_of w) /\ world_ok (remove_name name w).
Proof.
  intros Hw. split.
  - apply map_eq. intros n. rewrite dir_lookup. cbn [remove_name set_files w_names w_nodes].
    destruct (decide (n = name)) as [->|Hne]; [by rewrite !lookup_delete_eq|].
    rewrite !lookup_delete_ne by done. by rewrite dir_lookup.
  - split; cbn [remove_name set_files w_names w_nodes w_next]; intros until i; rewrite ?lookup_delete_Some.
    + intros [_ H]. by eapply (wk_fresh _ Hw).
    + intros [_ H1] [_ H2]. by eapply (wk_inj _ Hw).
    + intros [_ H]. by eapply (wk_node _ Hw).
Qed.

Lemma dir_rename w from to node :
  world_ok w -> from <> to -> dir_of w !! from = Some node ->
  dir_of (rename_file from to w) = <[to := node]> (delete from (dir_of w)) /\ world_ok (rename_file from to w).
Proof.
  intros Hw Hft Hd. rewrite dir_lookup in Hd. unfold rename_file.
  destruct (w_names w !! from) as [i|] eqn:Ef; [|done]. cbn in Hd. split.
  - apply map_eq. intros n. rewrite dir_lookup. cbn [set_files w_names w_nodes].
    destruct (decide (n = to)) as [->|Hne]; [by rewrite !lookup_insert_eq|].
    rewrite !lookup_insert_ne by done. destruct (decide (n = from)) as [->|Hnf]; [by rewrite !lookup_delete_eq|].
    rewrite !lookup_delete_ne by done. by rewrite dir_lookup.
  - split; cbn [set_files w_names w_nodes w_next].
    + intros n j. destruct (decide (n = to)) as [->|?]; [rewrite lookup_insert_eq; intros [= <-]; by eapply (wk_fresh _ Hw)|].
      rewrite lookup_insert_ne by done. rewrite lookup_delete_Some. intros [_ H]. by eapply (wk_fresh _ Hw).
    + intros a b j. destruct (decide (a = to)) as [->|Ha], (decide (b = to)) as [->|Hb];
        rewrite ?lookup_insert_eq, ?lookup_insert_ne, ?lookup_delete_Some by done; try done.
      * intros [= <-] [Hb' H]. destruct Hb'. by eapply (wk_inj _ Hw).
      * intros [Ha' H] [= <-]. destruct Ha'. by eapply (wk_inj _ Hw).
      * intros [_ H1] [_ H2]. by eapply (wk_inj _ Hw).
    + intros n j. destruct (decide (n = to)) as [->|?].
      * rewrite lookup_insert_eq. intros [= <-]. by eexists.
      * rewrite lookup_insert_ne, lookup_delete_Some by done. intros [_ H]. by eapply (wk_node _ Hw).
Qed.

(** ** Archives *)

Lemma rotated_names_elem d stem name :
  name ∈ rotated_names d stem <-> is_rotated_sibling stem name = true /\ is_Some (d !! name).
Proof.
  unfold rotated_names. rewrite list_elem_of_filter. apply and_iff_compat_l. split.
  - intros ([n node] & -> & H%elem_of_map_to_list)%list_elem_of_fmap. by eexists.
  - intros [node H]. apply list_elem_of_fmap. exists (name, node). split; [done|]. by apply elem_of_map_to_list.
Qed.

Lemma rotated_names_NoDup d stem : NoDup (rotated_names d stem).
Proof. apply NoDup_filter, NoDup_fst_map_to_list. Qed.

(** The archives in order are the sorted list of the names there are. *)
Lemma rotated_sorted d stem names :
  StronglySorted str_le names -> NoDup names ->
  (forall n, n ∈ names <-> is_rotated_sibling stem n = true /\ is_Some (d !! n)) ->
  sort_strings (rotated_names d stem) = names.
Proof.
  intros Hs Hn He. apply sort_strings_unique; [done|]. apply NoDup_Permutation; [done|apply rotated_names_NoDup|].
  intros n. by rewrite He, rotated_names_elem.
Qed.

Lemma sorted_names_NoDup d stem : NoDup (sort_strings (rotated_names d stem)).
Proof. rewrite sort_strings_perm. apply rotated_names_NoDup. Qed.

Lemma sorted_names_elem d stem n :
  n ∈ sort_strings (rotated_names d stem) <-> is_rotated_sibling stem n = true /\ is_Some (d !! n).
Proof. by rewrite sort_strings_perm, rotated_names_elem. Qed.

(** The name of an archive ends in a digit. *)
Definition ends_in_digit (s : string) : Prop := exists t c, s = t +:+ String c EmptyString /\ is_ascii_digit c = true.

Lemma ends_in_digit_app s t : ends_in_digit t -> ends_in_digit (s +:+ t).
Proof. intros (u & c & -> & Hc). exists (s +:+ u), c. by rewrite str_app_assoc. Qed.

Lemma digits_end s : is_empty s = false -> str_all is_ascii_digit s = true -> ends_in_digit s.
Proof.
  intros He Hd. destruct (str_last s He) as (t & c & ->). exists t, c. split; [done|].
  rewrite str_all_app in Hd. cbn [str_all] in Hd. rewrite !andb_true_iff in Hd. naive_solver.
Qed.

Lemma rotated_suffix_end s : is_rotated_suffix s = true -> ends_in_digit s.
Proof.
  unfold is_rotated_suffix. rewrite !andb_true_iff. intros (((Hl & _) & _) & Hd).
  unfold len in Hl. destruct (substring_parts 9 (String.length s - 9) s ltac:(lia)) as (p & q & Hs & Hp & Hlen).
  set (t := String.substring _ _ s) in *.
  assert (q = EmptyString) as ->.
  { apply (f_equal String.length) in Hs. rewrite !str_length_app in Hs. destruct q; [done|]. cbn in Hs. lia. }
  rewrite str_app_nil_r in Hs. rewrite Hs. apply ends_in_digit_app, digits_end; [|done].
  destruct t; [cbn in Hlen; lia|done].
Qed.

Lemma rotated_end stem name : is_rotated_sibling stem name = true -> ends_in_digit name.
Proof.
  unfold is_rotated_sibling. destruct (strip_prefix _ name) as [suffix|] eqn:Es; [|done].
  apply strip_prefix_Some in Es as ->. intros H. apply ends_in_digit_app.
  destruct (split_once "-" suffix) as [[b c]|] eqn:Eo.
  - apply split_once_Some in Eo as ->. rewrite !andb_true_iff in H. destruct H as (((He & Hd) & _) & _).
    change (String "-" c) with (String "-" EmptyString +:+ c). rewrite str_app_assoc.
    apply ends_in_digit_app, digits_end; [|done]. by destruct (is_empty c).
  - by apply rotated_suffix_end.
Qed.

(** So the files beside the archives are not archives. *)
Lemma not_rotated stem s c :
  is_ascii_digit c = false -> is_rotated_sibling stem (s +:+ String c EmptyString) = false.
Proof.
  intros Hc. destruct (is_rotated_sibling _ _) eqn:E; [|done]. apply rotated_end in E as (t & x & H & Hx).
  apply (f_equal str_rev) in H. rewrite !str_rev_app in H. injection H as -> _. congruence.
Qed.

Lemma sidecar_not_rotated stem name : is_rotated_sibling stem (hmac_sidecar_path name) = false.
Proof.
  unfold hmac_sidecar_path, sidecar_path. change ".root_hmac" with (".root_hma" +:+ String "c" EmptyString).
  rewrite str_app_assoc. by apply not_rotated.
Qed.

Lemma stem_not_rotated stem : is_rotated_sibling stem stem = false.
Proof.
  unfold is_rotated_sibling. destruct (strip_prefix (stem +:+ ".") stem) as [s|] eqn:E; [|done].
  apply strip_prefix_Some in E. apply (f_equal String.length) in E. rewrite !str_length_app in E. cbn in E. lia.
Qed.

Lemma sidecar_ne name : hmac_sidecar_path name <> name.
Proof. intros E%(f_equal String.length). unfold hmac_sidecar_path, sidecar_path in E. rewrite str_length_app in E. cbn in E. lia. Qed.

Lemma sidecar_inj a b : hmac_sidecar_path a = hmac_sidecar_path b -> a = b.
Proof.
  unfold hmac_sidecar_path, sidecar_path. intros H. apply str_app_cancel in H as [-> _]; [done|].
  apply (f_equal String.length) in H. rewrite !str_length_app in H. lia.
Qed.

(** ** Steps that do not fail *)

Lemma bind_Ok {A B} (m : M A) (f : A -> M B) s a s' : m s = (Ok a, s') -> (m ≫= f) s = f a s'.
Proof. intros H. unfold mbind, M_bind. by rewrite H. Qed.

Definition calm (w : World) : Prop := w_outcomes w = [].

Lemma next_outcome_calm w wr : calm w -> next_outcome (w, wr) = (Ok Fine, (w, wr)).
Proof. intros H. unfold next_outcome. cbn. by rewrite H. Qed.

Lemma sys_calm w wr : calm w -> sys (w, wr) = (Ok (), (w, wr)).
Proof. intros H. unfold sys. by rewrite (bind_Ok _ _ _ _ _ (next_outcome_calm w wr H)). Qed.

Lemma write_all_calm w wr file bytes :
  calm w -> write_all file bytes (w, wr) = (Ok (), (put file (held_content w file +:+ bytes) w, wr)).
Proof. intros H. unfold write_all. by rewrite (bind_Ok _ _ _ _ _ (next_outcome_calm w wr H)). Qed.

Lemma keyring_calm w wr : calm w -> keyring_call (w, wr) = (Ok (), (w, wr)).
Proof. intros H. unfold keyring_call. by rewrite (bind_Ok _ _ _ _ _ (next_outcome_calm w wr H)). Qed.

(** The keyring after the anchor of [wr] was stored. *)
Definition anchored (wr : AuditWriter) (a : TipAnchor) (w : World) : World :=
  if wr_tip_anchor wr then set_keyring (Some (to_keyring_value a)) (w_reanchors w) w else w.

Lemma anchored_dir wr a w : dir_of (anchored wr a w) = dir_of w.
Proof. unfold anchored. by destruct (wr_tip_anchor wr). Qed.
Lemma anchored_names wr a w : w_names (anchored wr a w) = w_names w.
Proof. unfold anchored. by destruct (wr_tip_anchor wr). Qed.
Lemma anchored_calm wr a w : calm w -> calm (anchored wr a w).
Proof. unfold anchored. by destruct (wr_tip_anchor wr). Qed.
Lemma anchored_ok wr a w : world_ok w -> world_ok (anchored wr a w).
Proof. unfold anchored. destruct (wr_tip_anchor wr); [|done]. intros [H1 H2 H3]. by split. Qed.
Lemma anchored_held wr a w i : held_content (anchored wr a w) i = held_content w i.
Proof. unfold anchored. by destruct (wr_tip_anchor wr). Qed.
Lemma anchored_keyring wr a w :
  wr_tip_anchor wr = true -> w_keyring (anchored wr a w) = Some (to_keyring_value a).
Proof. unfold anchored. by intros ->. Qed.

Lemma store_best_effort_calm w wr a :
  calm w -> wr_pending_tip_anchor wr = None ->
  store_tip_anchor_best_effort a (w, wr) = (Ok (), (anchored wr a w, wr)).
Proof.
  intros H Hp. unfold store_tip_anchor_best_effort, anchored.
  erewrite bind_Ok by reflexivity. cbn [snd]. destruct (wr_tip_anchor wr) eqn:Ea; cbn [negb]; [|done].
  assert (Hs : store_anchor a (w, wr)
    = (Ok (), (set_keyring (Some (to_keyring_value a)) (w_reanchors w) w, wr))).
  { unfold store_anchor. by rewrite (bind_Ok _ _ _ _ _ (keyring_calm w wr H)). }
  erewrite bind_Ok by (unfold attempt; rewrite Hs; reflexivity).
  erewrite bind_Ok by reflexivity. unfold on_writer. cbn. do 2 f_equal.
  destruct wr. cbn in *. by subst.
Qed.

Section runs.
Context {E : Type} {AJ : AuditJson E} {AL : AuditJsonLaws E} {SH : Sha2} {SL : Sha2Laws}
  {ZB : ZeroBlock} {UE : Utf8Error}.
Variables (stem : string) (clock uuid : nat -> string) (threshold : Z).
Implicit Types (e : AuditEntry E) (es : list (AuditEntry E)) (w : World) (wr : AuditWriter).

(** ** One append *)

Lemma truncate_loop_keeps n e :
  ae_ts (truncate_loop n e) = ae_ts e /\ ae_event_kind (truncate_loop n e) = ae_event_kind e /\
  ae_previous_entry_hash (truncate_loop n e) = ae_previous_entry_hash e.
Proof.
  revert e. induction n as [|n IH]; intros e; cbn; destruct (_ <=? _); try done.
  by destruct (IH (with_keys (removelast (ae_arg_keys e)) (dropped e 1) e)) as (-> & -> & ->).
Qed.

Lemma truncate_keeps e :
  ae_ts (truncate_arg_keys_if_needed e) = ae_ts e /\
  ae_event_kind (truncate_arg_keys_if_needed e) = ae_event_kind e /\
  ae_previous_entry_hash (truncate_arg_keys_if_needed e) = ae_previous_entry_hash e.
Proof.
  unfold truncate_arg_keys_if_needed. destruct (_ <? _)%nat; [|apply truncate_loop_keeps].
  by destruct (truncate_loop_keeps (length (ae_arg_keys (with_keys (take MAX_ARG_KEYS (ae_arg_keys e))
    (dropped e (Z.of_nat (length (ae_arg_keys e) - MAX_ARG_KEYS))) e)))
    (with_keys (take MAX_ARG_KEYS (ae_arg_keys e))
    (dropped e (Z.of_nat (length (ae_arg_keys e) - MAX_ARG_KEYS))) e)) as (-> & -> & ->).
Qed.

(** The entry as the writer stores it. *)
Definition stored (prev : string) e : AuditEntry E := with_previous prev (truncate_arg_keys_if_needed e).

Lemma linked_decodes es tip : linked ZERO_BLOCK_HASH es tip -> exists b, decode_hash tip = Ok b.
Proof.
  destruct es as [|e es _] using rev_ind.
  - cbn. intros ->. rewrite zero_block_hash. eexists. apply decode_hash_text; [apply sha256_length|apply sha256_bytes].
  - intros [_ (-> & _)%entry_hash_Ok]%linked_tip. eexists.
    apply decode_hash_text; [apply sha256_length|apply sha256_bytes].
Qed.

(** The sidecar that the first entry of a file brings. *)
Definition add_sidecar (wr : AuditWriter) e (d : Dir) : Dir :=
  match wr_hmac_key wr with
  | Some key => if wr_is_new_file wr
                then <[hmac_sidecar_path stem := Regular (sign_chain_root key (as_bytes (canonical_json_body e)) +:+ nl)]> d
                else d
  | None => d
  end.

Lemma held_put w file text : held_content (put file text w) file = text.
Proof. unfold held_content. cbn. by rewrite lookup_insert_eq. Qed.

Lemma commit_append_calm w wr e h :
  calm w -> world_ok w -> w_names w !! stem = Some (wr_file wr) ->
  wr_pending_tip_anchor wr = None ->
  compute_entry_hash_streamed (stored (wr_last_hash wr) e) (wr_last_hash wr) = Ok h ->
  let text := held_content w (wr_file wr) +:+ line_of (stored (wr_last_hash wr) e) in
  let wr' := set_tip h false (wr_entry_count wr + 1) (len text) wr in
  exists w', commit_append stem e (w, wr) = (Ok (), (w', wr')) /\
    calm w' /\ world_ok w' /\ w_names w' !! stem = Some (wr_file wr) /\
    dir_of w' = add_sidecar wr (stored (wr_last_hash wr) e) (<[stem := Regular text]> (dir_of w)) /\
    (wr_tip_anchor wr = true ->
     w_keyring w' = Some (to_keyring_value (MkAnchor (wr_entry_count wr + 1) h (len text)))).
Proof.
  intros Hc Hw Hn Hp Hh text wr'. unfold commit_append. fold (stored (wr_last_hash wr) e).
  set (e' := stored (wr_last_hash wr) e) in *.
  erewrite bind_Ok by reflexivity. cbn [snd]. fold (stored (wr_last_hash wr) e). fold e'.
  rewrite Hh. erewrite bind_Ok by reflexivity.
  erewrite bind_Ok by (by apply write_all_calm). fold (line_of e'). fold text. set (w1 := put (wr_file wr) text w).
  destruct (dir_put w (wr_file wr) stem text Hw Hn) as [Hd1 Hw1]. fold w1 in Hd1, Hw1.
  assert (Hc1 : calm w1) by done.
  erewrite bind_Ok by (by apply sys_calm).
  assert (exists w2, (if wr_is_new_file wr then
       (match wr_hmac_key wr with
        | Some key => write_root_hmac_sidecar stem (sign_chain_root key (as_bytes (canonical_json_body e')))
        | None => mret ()
        end) ;;
       on_writer (fun wr => set_tip (wr_last_hash wr) false (wr_entry_count wr) (wr_end_offset wr) wr)
     else mret ()) (w1, wr) = (Ok (), (w2, set_tip (wr_last_hash wr) false (wr_entry_count wr) (wr_end_offset wr) wr)) /\
     calm w2 /\ world_ok w2 /\ w_names w2 !! stem = Some (wr_file wr) /\
     held_content w2 (wr_file wr) = text /\ w_reanchors w2 = w_reanchors w1 /\
     dir_of w2 = add_sidecar wr e' (dir_of w1)) as (w2 & Hs & Hc2 & Hw2 & Hn2 & Hh2 & _ & Hd2).
  { unfold add_sidecar. destruct (wr_is_new_file wr) eqn:En; [destruct (wr_hmac_key wr) as [key|] eqn:Ek|].
    - set (tag := sign_chain_root key _). exists (create_file (hmac_sidecar_path stem) (tag +:+ nl) w1).
      destruct (dir_create w1 (hmac_sidecar_path stem) (tag +:+ nl) Hw1) as [Hd Hw'].
      split; [|split; [done|split; [done|split; [|split; [|split; [done|done]]]]]].
      + assert (Hside : write_root_hmac_sidecar stem tag (w1, wr)
          = (Ok (), (create_file (hmac_sidecar_path stem) (tag +:+ nl) w1, wr))).
        { unfold write_root_hmac_sidecar. erewrite bind_Ok by (by apply next_outcome_calm).
          cbv beta iota. erewrite bind_Ok by reflexivity. by apply sys_calm. }
        by rewrite (bind_Ok _ _ _ _ _ Hside).
      + cbn. rewrite lookup_insert_ne by apply sidecar_ne. done.
      + unfold held_content. cbn. rewrite lookup_insert_ne.
        * by rewrite lookup_insert_eq.
        * intros H. pose proof (wk_fresh _ Hw _ _ Hn). cbn in H. lia.
    - exists w1. split; [done|]. split; [done|]. split; [done|]. split; [done|].
      split; [apply held_put|]. done.
    - exists w1. split; [|split; [done|split; [done|split; [done|split; [apply held_put|]]]]].
      + destruct wr. cbn in *. by subst.
      + by destruct (wr_hmac_key wr). }
  erewrite bind_Ok by exact Hs. erewrite bind_Ok by reflexivity.
  unfold entry_end_offset at 1.
  set (wr1 := set_tip _ _ _ _ _). erewrite bind_Ok by (erewrite bind_Ok by (by apply sys_calm); reflexivity).
  cbn [fst snd wr_file set_tip wr1]. rewrite Hh2.
  erewrite bind_Ok by reflexivity. erewrite bind_Ok by reflexivity. cbn [fst snd].
  erewrite store_best_effort_calm by done.
  change (set_tip h _ _ (len text) wr1) with wr'. eexists. split; [reflexivity|].
  split; [by apply anchored_calm|]. split; [by apply anchored_ok|]. rewrite anchored_names, anchored_dir.
  split; [done|]. split; [by rewrite Hd2, Hd1|]. intros Ha. by rewrite anchored_keyring.
Qed.

(** ** The state between appends *)

(** Rewrite with a fact about the pair of world and writer. *)
Ltac use_eq L := let H := fresh "H" in pose proof L as H; cbn [fst snd] in H; rewrite H; clear H.

(** The writer's picture of the log is the log. *)
Record writer_ok (s : State) (archs : list (string * list (AuditEntry E))) es : Prop := {
  wo_calm : calm (fst s);
  wo_world : world_ok (fst s);
  wo_held : w_names (fst s) !! stem = Some (wr_file (snd s));
  wo_log : log_ok (dir_of (fst s)) stem (wr_hmac_key (snd s)) archs es (wr_last_hash (snd s));
  wo_count : wr_entry_count (snd s) = count es;
  wo_offset : wr_end_offset (snd s) = len (text_of es);
  wo_new : wr_is_new_file (snd s) = match es with [] => true | _ => false end;
  wo_pending : wr_pending_tip_anchor (snd s) = None;
  wo_partial : wr_partial_rotation_archive (snd s) = None;
  wo_diverged : wr_log_diverged (snd s) = None;
  wo_outbox : dir_of (fst s) !! outbox_path stem = None;
  wo_anchor : wr_tip_anchor (snd s) = true -> es <> [] ->
    w_keyring (fst s) = Some (to_keyring_value
      (MkAnchor (count es) (wr_last_hash (snd s)) (len (text_of es))));
}.

Lemma held_text s archs es : writer_ok s archs es -> held_content (fst s) (wr_file (snd s)) = text_of es.
Proof.
  intros H. pose proof (lo_active _ _ _ _ _ _ (wo_log _ _ _ H)) as Hd. rewrite dir_lookup, (wo_held _ _ _ H) in Hd.
  cbn in Hd. unfold held_content. by rewrite Hd.
Qed.

Lemma path_len_ok s archs es : writer_ok s archs es -> path_len stem (fst s) = Some (len (text_of es)).
Proof. intros H. unfold path_len. by rewrite (lo_active _ _ _ _ _ _ (wo_log _ _ _ H)). Qed.

(** The entry at the writer's tip is the one it wrote. *)
Lemma tip_intact s archs es :
  writer_ok s archs es -> es <> [] ->
  entry_is_intact_at (E:=E) (wr_end_offset (snd s)) (wr_last_hash (snd s)) s = (Ok true, s).
Proof.
  intros H Hne. pose proof (wo_log _ _ _ H) as Hl. destruct s as [w wr]. cbn [fst snd] in *.
  unfold entry_is_intact_at. erewrite bind_Ok by (apply sys_calm, (wo_calm _ _ _ H)).
  erewrite bind_Ok by reflexivity. erewrite bind_Ok by reflexivity. cbn [fst snd].
  use_eq (held_text _ _ _ H). use_eq (wo_offset _ _ _ H). destruct es as [|e es _] using rev_ind; [done|].
  pose proof (last_line_text es e EmptyString) as Hll. rewrite str_app_nil_r in Hll. rewrite Hll, from_to_vec.
  pose proof (lo_chain _ _ _ _ _ _ Hl) as Hc. rewrite app_assoc in Hc. apply linked_tip in Hc as [_ Hc].
  cbn [snd] in Hc. rewrite Hc. erewrite bind_Ok by reflexivity. by rewrite bool_decide_true.
Qed.

Lemma not_moved s archs es :
  writer_ok s archs es -> refuse_if_log_moved_on_append (E:=E) stem s = (Ok (), s).
Proof.
  intros H. destruct s as [w wr]. unfold refuse_if_log_moved_on_append. erewrite bind_Ok by reflexivity. cbn [snd].
  destruct (wr_tip_anchor wr) eqn:Ea; cbn [negb]; [|done].
  assert (Hr : refuse_if_replaced stem None (w, wr) = (Ok (), (w, wr))).
  { unfold refuse_if_replaced. erewrite bind_Ok by reflexivity. erewrite bind_Ok by reflexivity. cbn [fst snd].
    use_eq (wo_diverged _ _ _ H).
    erewrite bind_Ok by (apply sys_calm, (wo_calm _ _ _ H)).
    rewrite bool_decide_true by apply (wo_held _ _ _ H). done. }
  erewrite bind_Ok by exact Hr. erewrite bind_Ok by (apply sys_calm, (wo_calm _ _ _ H)).
  erewrite bind_Ok by reflexivity. cbn [fst]. use_eq (path_len_ok _ _ _ H).
  pose proof (wo_offset _ _ _ H) as Ho. pose proof (wo_count _ _ _ H) as Hcn. cbn in Ho, Hcn.
  replace (len (text_of es) <? wr_end_offset wr) with false by lia.
  assert (Hi : (if 0 <? wr_entry_count wr
    then entry_is_intact_at (E:=E) (wr_end_offset wr) (wr_last_hash wr) else mret true) (w, wr) = (Ok true, (w, wr))).
  { destruct (0 <? wr_entry_count wr) eqn:Ez; [|done]. apply (tip_intact _ _ _ H). intros ->. rewrite Hcn in Ez. done. }
  by rewrite (bind_Ok _ _ _ _ _ Hi).
Qed.

(** Before an append only a rotation can change anything. *)
Lemma prepare_append_calm s archs es s' :
  writer_ok s archs es ->
  (if threshold <=? len (text_of es) then rotate (E:=E) stem clock uuid s = (Ok (), s') else s' = s) ->
  prepare_append (E:=E) stem clock uuid threshold s = (Ok None, s').
Proof.
  intros H Hs. destruct s as [w wr]. unfold prepare_append. erewrite bind_Ok by reflexivity. cbn [snd].
  use_eq (wo_partial _ _ _ H).
  erewrite bind_Ok by (unfold attempt; by rewrite (not_moved _ _ _ H)). cbv beta iota.
  assert (Hr : attempt retry_tip_anchor_if_behind (w, wr) = (Ok (Ok ()), (w, wr))).
  { unfold attempt, retry_tip_anchor_if_behind. erewrite bind_Ok by reflexivity. cbn [snd].
    by use_eq (wo_pending _ _ _ H). }
  erewrite bind_Ok by exact Hr.
  assert (Hn : (needs_rotation threshold ≫= fun full : bool =>
      if full then rotate (E:=E) stem clock uuid else mret ()) (w, wr) = (Ok (), s')).
  { unfold needs_rotation. erewrite bind_Ok.
    2: { erewrite bind_Ok by (apply sys_calm, (wo_calm _ _ _ H)). erewrite bind_Ok by reflexivity.
         erewrite bind_Ok by reflexivity. reflexivity. }
    cbn [fst snd]. use_eq (held_text _ _ _ H).
    destruct (threshold <=? len (text_of es)); [done|]. by subst s'. }
  erewrite bind_Ok by (unfold attempt; by rewrite Hn). done.
Qed.

Lemma outbox_not_rotated name : is_rotated_sibling name (outbox_path stem) = false.
Proof.
  unfold outbox_path, sidecar_path. change ".outbox" with (".outbo" +:+ String "x" EmptyString).
  rewrite str_app_assoc. by apply not_rotated.
Qed.
Lemma outbox_ne_stem : outbox_path stem <> stem.
Proof. intros H%(f_equal String.length). unfold outbox_path, sidecar_path in H. rewrite str_length_app in H. cbn in H. lia. Qed.
Lemma outbox_ne_sidecar name : outbox_path stem <> hmac_sidecar_path name.
Proof.
  unfold outbox_path, hmac_sidecar_path, sidecar_path. intros H%(f_equal str_rev). rewrite !str_rev_app in H.
  discriminate H.
Qed.

(** Names in the directory after an append. *)
Lemma add_sidecar_lookup wr e d name :
  name <> hmac_sidecar_path stem -> add_sidecar wr e d !! name = d !! name.
Proof.
  intros Hn. unfold add_sidecar. destruct (wr_hmac_key wr); [|done]. destruct (wr_is_new_file wr); [|done].
  by rewrite lookup_insert_ne.
Qed.

Lemma rotated_names_agree d d' :
  (forall n, is_rotated_sibling stem n = true -> is_Some (d !! n) <-> is_Some (d' !! n)) ->
  sort_strings (rotated_names d stem) = sort_strings (rotated_names d' stem).
Proof.
  intros H. apply rotated_sorted; [apply sort_strings_sorted|apply sorted_names_NoDup|].
  intros n. rewrite sorted_names_elem. specialize (H n). destruct (is_rotated_sibling stem n); naive_solver.
Qed.

(** Where the archives and their sidecars are not touched, they stay. *)
Lemma rotated_longer name : is_rotated_sibling stem name = true -> (String.length stem < String.length name)%nat.
Proof.
  unfold is_rotated_sibling. destruct (strip_prefix _ name) as [s|] eqn:Es; [|done].
  apply strip_prefix_Some in Es as ->. rewrite !str_length_app. cbn. lia.
Qed.

Lemma rotated_ne_stem name : is_rotated_sibling stem name = true -> name <> stem.
Proof. intros H ->. by rewrite stem_not_rotated in H. Qed.
Lemma rotated_ne_sidecar name other : is_rotated_sibling stem name = true -> name <> hmac_sidecar_path other.
Proof. intros H ->. by rewrite sidecar_not_rotated in H. Qed.
Lemma sidecar_ne_stem name : is_rotated_sibling stem name = true -> hmac_sidecar_path name <> stem.
Proof.
  intros H%rotated_longer E'%(f_equal String.length). unfold hmac_sidecar_path, sidecar_path in E'.
  rewrite str_length_app in E'. lia.
Qed.
Lemma sidecar_ne_own name : is_rotated_sibling stem name = true -> hmac_sidecar_path name <> hmac_sidecar_path stem.
Proof. intros H He%sidecar_inj. by apply (rotated_ne_stem name). Qed.

Lemma archive_ok_agree d d' key a :
  archive_ok d key a -> d' !! fst a = d !! fst a ->
  d' !! hmac_sidecar_path (fst a) = d !! hmac_sidecar_path (fst a) -> archive_ok (E:=E) d' key a.
Proof. unfold archive_ok, sidecar_ok. intros (H1 & H2 & H3 & H4) -> ->. done. Qed.

Lemma log_ok_rotated d key archs es tip :
  log_ok (E:=E) d stem key archs es tip -> Forall (fun a => is_rotated_sibling stem (fst a) = true) archs.
Proof.
  intros H. apply Forall_forall. intros a Ha. apply (sorted_names_elem d stem (fst a)).
  rewrite (lo_names _ _ _ _ _ _ H). by apply list_elem_of_fmap_2.
Qed.

(** The sidecar of the active file after an append. *)
Lemma add_sidecar_ok wr d es e :
  wr_is_new_file wr = match es with [] => true | _ => false end ->
  sidecar_ok d (wr_hmac_key wr) stem es ->
  sidecar_ok (add_sidecar wr e (<[stem := Regular (text_of (es ++ [e]))]> d)) (wr_hmac_key wr) stem (es ++ [e]).
Proof.
  unfold sidecar_ok, add_sidecar. intros Hn H k x xs Hk Hx. rewrite Hk, Hn. destruct es as [|y es].
  - injection Hx as <- <-. by rewrite lookup_insert_eq.
  - injection Hx as <- <-. rewrite lookup_insert_ne by (intros Hy; by apply (sidecar_ne stem)). by eapply H.
Qed.

(** An append keeps the log in order. *)
Lemma commit_keeps s archs es e :
  writer_ok s archs es -> ts_ok e -> is_handoff e = false ->
  exists s', commit_append stem e s = (Ok (), s') /\
  writer_ok s' archs (es ++ [stored (wr_last_hash (snd s)) e]) /\ wr_hmac_key (snd s') = wr_hmac_key (snd s) /\
  wr_tip_anchor (snd s') = wr_tip_anchor (snd s) /\ wr_drains (snd s') = wr_drains (snd s).
Proof.
  intros H Hts Hnh. pose proof (wo_log _ _ _ H) as Hl. destruct s as [w wr]. cbn [fst snd] in *.
  destruct (linked_decodes _ _ (lo_chain _ _ _ _ _ _ Hl)) as [b Hb].
  set (e' := stored (wr_last_hash wr) e) in *.
  assert (Hh : compute_entry_hash_streamed e' (wr_last_hash wr)
    = Ok (hash_text (sha256 (as_bytes (canonical_json_body e') ++ b)))).
  { unfold compute_entry_hash_streamed. by rewrite Hb. }
  set (h := hash_text _) in Hh.
  destruct (commit_append_calm w wr e h) as (w' & Hc & Hc' & Hw' & Hn' & Hd' & Hk'); try done;
    try apply H; [].
  eexists. split; [exact Hc|]. fold e' in Hd', Hk'. pose proof (held_text _ _ _ H) as Ht. cbn [fst snd] in Ht.
  rewrite Ht in *. fold e'. rewrite <- text_of_snoc in *. split; [|done].
  assert (Hte : ts_ok e' /\ is_handoff e' = false).
  { unfold e', stored, ts_ok, is_handoff in *. destruct (truncate_keeps e) as (T1 & T2 & _).
    cbn [ae_ts ae_event_kind with_previous]. by rewrite T1, T2. }
  destruct Hte as [Hte Hhe].
  split; cbn [fst snd set_tip wr_last_hash wr_hmac_key wr_file wr_entry_count wr_end_offset wr_is_new_file
    wr_pending_tip_anchor wr_partial_rotation_archive wr_log_diverged wr_tip_anchor]; try done; try apply H.
  - rewrite Hd'. pose proof (log_ok_rotated _ _ _ _ _ Hl) as Hrot.
    destruct Hl as [Hnm Hcap Harch Hact Hts' Hno Hsc Hch]. split; try done.
    + rewrite <- Hnm. apply rotated_names_agree. intros n Hr.
      by rewrite add_sidecar_lookup, lookup_insert_ne by auto using rotated_ne_sidecar, not_eq_sym, rotated_ne_stem.
    + apply Forall_forall. intros a Ha. rewrite Forall_forall in Harch, Hrot. specialize (Harch a Ha). specialize (Hrot a Ha).
      eapply archive_ok_agree; [done| |]; rewrite add_sidecar_lookup, lookup_insert_ne by
        auto using rotated_ne_sidecar, not_eq_sym, rotated_ne_stem, sidecar_ne_stem, sidecar_ne_own; done.
    + rewrite add_sidecar_lookup by apply not_eq_sym, sidecar_ne. apply lookup_insert_eq.
    + apply Forall_app. split; [done|]. by apply Forall_singleton.
    + apply Forall_app. split; [done|]. by apply Forall_singleton.
    + apply add_sidecar_ok; [|done]. apply (wo_new _ _ _ H).
    + rewrite app_assoc. apply linked_app. eexists. split; [exact Hch|]. split; [done|]. by exists h.
  - use_eq (wo_count _ _ _ H). unfold count. rewrite length_app. cbn. lia.
  - by destruct es.
  - rewrite Hd', add_sidecar_lookup by apply outbox_ne_sidecar.
    rewrite lookup_insert_ne by apply not_eq_sym, outbox_ne_stem. apply H.
  - intros Ha _. rewrite (Hk' Ha). use_eq (wo_count _ _ _ H). do 3 f_equal.
    unfold count. rewrite length_app. cbn. lia.
Qed.

End runs.
