(* ===== verification/AuditRotateProps.v ===== *)
(** * Rotation of the audit log

    What a rotation leaves in the directory, and the runs of the writer in which
    no system call fails: as long as no archive is pruned the log verifies at every
    point, holds exactly what was written, and the keyring names its tip.  The
    first pruning makes the verifier refuse it. *)

From S2P Require Import Prelude RustStr Bytes Time AuditEntry AuditFiles AuditVerify AuditChainProps AuditFilesProps AuditVerifyProps AuditWriter AuditOpen AuditRunProps AuditWriterProps.
From stdpp Require Import options.

Local Open Scope string_scope.
Local Open Scope list_scope.
Local Open Scope Z_scope.
Set Default Proof Using "Type*".

(** Worlds with the same files, keyring and outcomes to come. *)
Definition same_files (w w' : World) : Prop :=
  w_names w' = w_names w /\ w_nodes w' = w_nodes w /\ w_next w' = w_next w /\
  w_keyring w' = w_keyring w /\ w_outcomes w' = w_outcomes w.

Lemma same_files_dir w w' : same_files w w' -> dir_of w' = dir_of w.
Proof. intros (H1 & H2 & _). unfold dir_of. by rewrite H1, H2. Qed.
Lemma same_files_ok w w' : same_files w w' -> world_ok w -> world_ok w'.
Proof. intros (H1 & H2 & H3 & _) [A B C]. split; rewrite ?H1, ?H2, ?H3; eauto. Qed.
Lemma same_files_held w w' i : same_files w w' -> held_content w' i = held_content w i.
Proof. intros (_ & H & _). unfold held_content. by rewrite H. Qed.

Lemma rename_calm w wr from to node :
  calm w -> world_ok w -> from <> to -> dir_of w !! from = Some node ->
  exists w', rename from to (w, wr) = (Ok (), (w', wr)) /\ calm w' /\ world_ok w' /\
    dir_of w' = <[to := node]> (delete from (dir_of w)) /\
    (forall n, n <> from -> n <> to -> w_names w' !! n = w_names w !! n) /\ w_names w' !! from = None.
Proof.
  intros Hc Hw Hne Hd. exists (rename_file from to w). destruct (dir_rename w from to node Hw Hne Hd) as [Hd' Hw'].
  unfold rename. rewrite (bind_Ok _ _ _ _ _ (sys_calm w wr Hc)). split; [done|].
  assert (Hn : is_Some (w_names w !! from)) by (apply dir_is_Some; [done|]; by rewrite Hd).
  destruct Hn as [i Hi]. split; [|split; [done|split; [done|]]].
  - unfold rename_file. by rewrite Hi.
  - unfold rename_file. rewrite Hi. cbn. split.
    + intros n H1 H2. by rewrite lookup_insert_ne, lookup_delete_ne.
    + rewrite lookup_insert_ne by done. apply lookup_delete_eq.
Qed.

(** Removing archives and their sidecars. *)
Definition without (names : list string) (d : Dir) : Dir :=
  foldl (fun d n => delete (hmac_sidecar_path n) (delete n d)) d names.

Lemma without_lookup names d n :
  n ∉ names -> n ∉ (hmac_sidecar_path <$> names) -> without names d !! n = d !! n.
Proof.
  revert d. induction names as [|x names IH]; intros d H1 H2; [done|].
  rewrite fmap_cons, not_elem_of_cons in H2. apply not_elem_of_cons in H1 as [H1 H1'].
  destruct H2 as [H2 H2']. cbn [without foldl]. unfold without in IH. rewrite IH by done.
  by rewrite !lookup_delete_ne by done.
Qed.

Lemma without_gone names d n : n ∈ names -> without names d !! n = None.
Proof.
  revert d. induction names as [|x names IH]; intros d Hn; [by apply elem_of_nil in Hn|].
  cbn [without foldl]. destruct (decide (n ∈ names)) as [Hi|Hi]; [by apply IH|].
  apply elem_of_cons in Hn as [->|?]; [|done].
  assert (Hgone : delete (hmac_sidecar_path x) (delete x d) !! x = None).
  { rewrite lookup_delete_ne by apply sidecar_ne. apply lookup_delete_eq. }
  revert Hgone. generalize (delete (hmac_sidecar_path x) (delete x d)). clear.
  induction names as [|y names IH]; intros d Hd; [done|]. cbn [foldl]. apply IH.
  rewrite lookup_delete_None. right. rewrite lookup_delete_None. by right.
Qed.

Lemma remove_file_calm w wr name :
  calm w -> world_ok w -> exists w', remove_file name (w, wr) = (Ok (), (w', wr)) /\ calm w' /\ world_ok w' /\
    dir_of w' = delete name (dir_of w) /\ (forall n, w_names w !! n = None -> w_names w' !! n = None).
Proof.
  intros Hc Hw. exists (remove_name name w). unfold remove_file.
  rewrite (bind_Ok _ _ _ _ _ (next_outcome_calm w wr Hc)). destruct (dir_remove w name Hw) as [Hd Hw'].
  repeat split; [done|by apply Hw'..|done|]. intros n Hn. cbn. rewrite lookup_delete_None. by right.
Qed.

Lemma remove_archives_calm w wr names :
  calm w -> world_ok w -> exists w', remove_archives names (w, wr) = (Ok (), (w', wr)) /\ calm w' /\ world_ok w' /\
    dir_of w' = without names (dir_of w) /\ (forall n, w_names w !! n = None -> w_names w' !! n = None).
Proof.
  revert w. induction names as [|x names IH]; intros w Hc Hw; [exists w; by repeat split; try apply Hw|].
  destruct (remove_file_calm w wr x Hc Hw) as (w1 & H1 & Hc1 & Hw1 & Hd1 & Hn1).
  assert (exists w2, (if exists_in (dir_of w1) (hmac_sidecar_path x) then remove_file (hmac_sidecar_path x) else mret ())
     (w1, wr) = (Ok (), (w2, wr)) /\ calm w2 /\ world_ok w2 /\
     dir_of w2 = delete (hmac_sidecar_path x) (dir_of w1) /\
     (forall n, w_names w1 !! n = None -> w_names w2 !! n = None)) as (w2 & H2 & Hc2 & Hw2 & Hd2 & Hn2).
  { destruct (exists_in _ _) eqn:Ex; [by apply remove_file_calm|]. exists w1.
    unfold exists_in in Ex. apply bool_decide_eq_false, eq_None_not_Some in Ex.
    split; [done|]. split; [done|]. split; [done|]. split; [|done]. by rewrite delete_id. }
  destruct (IH w2 Hc2 Hw2) as (w3 & H3 & Hc3 & Hw3 & Hd3 & Hn3). exists w3.
  cbn [remove_archives]. rewrite (bind_Ok _ _ _ _ _ H1). erewrite bind_Ok by reflexivity. cbn [fst].
  rewrite (bind_Ok _ _ _ _ _ H2). split; [done|]. split; [done|]. split; [done|]. split; [|by eauto].
  cbn [without foldl]. rewrite Hd3, Hd2, Hd1. done.
Qed.

Lemma NoDup_take_drop {A} (l : list A) k x : NoDup l -> x ∈ drop k l <-> x ∈ l /\ x ∉ take k l.
Proof.
  intros Hl. rewrite <- (take_drop k l) in Hl. apply NoDup_app in Hl as (_ & Hd & _).
  rewrite <- (take_drop k l) at 2. rewrite elem_of_app. naive_solver.
Qed.

Section rotation.
Context {E : Type} {AJ : AuditJson E} {AL : AuditJsonLaws E} {SH : Sha2} {SL : Sha2Laws}
  {ZB : ZeroBlock} {UE : Utf8Error}.
Variables (stem : string) (clock uuid : nat -> string) (threshold : Z).
Implicit Types (e : AuditEntry E) (es : list (AuditEntry E)) (w : World) (wr : AuditWriter) (d : Dir).

(** ** The name of the next archive *)

Definition compact_of (text : string) : string :=
  str_filter (fun a => negb (bool_decide (a = "Z"%char))) (str_filter is_ascii_alphanumeric text).

Definition rotation_name w : string :=
  let compact := compact_of (clock (w_tick w)) in
  stem +:+ "." +:+
  if w_last_rotation_timestamp_ms w <? default 0 (ok (parse_int u64 (str_filter is_ascii_digit compact)))
  then compact else compact +:+ "-" +:+ show_Z (w_rotation_collision_counter w + 1).

Lemma compact_timestamp_calm w wr :
  exists w' ts, compact_timestamp clock (w, wr) = (Ok ts, (w', wr)) /\ rotation_name w = stem +:+ "." +:+ ts /\
    same_files w w' /\ w_tick w' = S (w_tick w).
Proof.
  unfold compact_timestamp. erewrite bind_Ok by reflexivity. cbv zeta.
  erewrite bind_Ok by reflexivity. cbn [fst w_last_rotation_timestamp_ms set_rotation].
  unfold rotation_name. fold (compact_of (clock (w_tick w))).
  destruct (_ <? _); (eexists _, _; split; [reflexivity|]); by repeat split.
Qed.

(** ** The handoff *)

(** The handoff the writer adds to a full file. *)
Definition handoff_of w wr : AuditEntry E :=
  truncate_arg_keys_if_needed
    (with_previous (wr_last_hash wr) (new_rotation_handoff (clock (S (w_tick w))) (rotation_name w) (uuid (S (w_tick w))))).

Lemma handoff_facts w wr :
  ae_ts (handoff_of w wr) = clock (S (w_tick w)) /\
  ae_event_kind (handoff_of w wr) = AuditRotationHandoff (rotation_name w) /\
  ae_previous_entry_hash (handoff_of w wr) = wr_last_hash wr.
Proof. unfold handoff_of. match goal with |- context [truncate_arg_keys_if_needed ?x] => apply (truncate_keeps x) end. Qed.

Lemma append_handoff_calm w wr k name h :
  calm w -> world_ok w -> w_names w !! stem = Some (wr_file wr) -> wr_pending_tip_anchor wr = None -> w_tick w = k ->
  let e := truncate_arg_keys_if_needed (with_previous (wr_last_hash wr) (new_rotation_handoff (clock k) name (uuid k))) in
  compute_entry_hash_streamed e (wr_last_hash wr) = Ok h ->
  let text := held_content w (wr_file wr) +:+ line_of e in
  exists w', append_rotation_handoff (E:=E) clock uuid name (w, wr)
      = (Ok h, (w', set_tip (wr_last_hash wr) (wr_is_new_file wr) (wr_entry_count wr + 1) (len text) wr)) /\
    calm w' /\ world_ok w' /\ dir_of w' = <[stem := Regular text]> (dir_of w) /\
    (forall n, w_names w' !! n = w_names w !! n).
Proof.
  intros Hc Hw Hn Hp Hk e Hh text. unfold append_rotation_handoff. erewrite bind_Ok by reflexivity.
  cbn [fst snd]. set (w1 := set_rotation _ _ _ _). erewrite bind_Ok by reflexivity. cbn [fst snd]. rewrite Hk. cbv zeta.
  fold e. rewrite Hh. erewrite bind_Ok by reflexivity.
  assert (Hs : same_files w w1) by (by repeat split).
  assert (Hc1 : calm w1) by done. assert (Hw1 : world_ok w1) by by eapply same_files_ok.
  erewrite bind_Ok by (by apply write_all_calm). fold (line_of e). rewrite (same_files_held _ _ _ Hs). fold text.
  destruct (dir_put w1 (wr_file wr) stem text Hw1 Hn) as [Hd2 Hw2]. set (w2 := put (wr_file wr) text w1) in *.
  erewrite bind_Ok by (by apply sys_calm). erewrite bind_Ok by reflexivity. unfold entry_end_offset at 1. cbn [fst snd].
  erewrite bind_Ok by (erewrite bind_Ok by (by apply sys_calm); reflexivity).
  cbn [fst snd set_tip wr_file]. unfold w2 at 1. rewrite held_put.
  erewrite bind_Ok by reflexivity. erewrite bind_Ok by reflexivity. cbn [fst snd].
  erewrite bind_Ok by (by apply store_best_effort_calm). eexists. split; [reflexivity|].
  split; [by apply anchored_calm|]. split; [by apply anchored_ok|]. rewrite anchored_names, anchored_dir.
  split; [|done]. by rewrite Hd2, (same_files_dir _ _ Hs).
Qed.

(** ** The directory after a rotation *)

(** The full file and its sidecar under the archive's name. *)
Definition moved (rot text : string) d : Dir :=
  let d := match d !! hmac_sidecar_path stem with
           | Some node => <[hmac_sidecar_path rot := node]> (delete (hmac_sidecar_path stem) d)
           | None => d
           end in
  <[rot := Regular text]> (delete stem d).

Definition excess d : list string :=
  take (Z.to_nat (count (rotated_names d stem) - MAX_ROTATED_FILES)) (sort_strings (rotated_names d stem)).

(** Rotated and pruned, with a new active file. *)
Definition rotated (rot text : string) d : Dir :=
  <[stem := Regular EmptyString]> (without (excess (moved rot text d)) (moved rot text d)).

Lemma prune_calm w wr :
  calm w -> world_ok w -> exists w', prune_rotated_files stem (w, wr) = (Ok (), (w', wr)) /\ calm w' /\ world_ok w' /\
    dir_of w' = without (excess (dir_of w)) (dir_of w) /\ (forall n, w_names w !! n = None -> w_names w' !! n = None).
Proof.
  intros Hc Hw. unfold prune_rotated_files. rewrite (bind_Ok _ _ _ _ _ (sys_calm w wr Hc)).
  erewrite bind_Ok by reflexivity. cbn [fst]. cbv zeta. unfold excess.
  destruct (_ <=? _) eqn:El; [|by apply remove_archives_calm].
  exists w. replace (Z.to_nat _) with 0%nat by lia. by repeat split; try apply Hw.
Qed.

Lemma rotate_calm w wr h :
  calm w -> world_ok w -> w_names w !! stem = Some (wr_file wr) -> wr_pending_tip_anchor wr = None ->
  is_rotated_sibling stem (rotation_name w) = true ->
  compute_entry_hash_streamed (handoff_of w wr) (wr_last_hash wr) = Ok h ->
  let text := held_content w (wr_file wr) +:+ line_of (handoff_of w wr) in
  exists w' file, rotate (E:=E) stem clock uuid (w, wr)
      = (Ok (), (w', set_tip h true 0 0 (set_file file wr))) /\
    calm w' /\ world_ok w' /\ w_names w' !! stem = Some file /\
    dir_of w' = rotated (rotation_name w) text (dir_of w).
Proof.
  intros Hc Hw Hn Hp Hr Hh text. unfold rotate.
  destruct (compact_timestamp_calm w wr) as (w1 & ts & H1 & Hts & Hs & Ht). rewrite (bind_Ok _ _ _ _ _ H1). cbv zeta.
  rewrite <- Hts. set (rot := rotation_name w) in *.
  assert (Hc1 : calm w1) by (unfold calm; destruct Hs as (_ & _ & _ & _ & ->); done).
  destruct (append_handoff_calm w1 wr (S (w_tick w)) rot h) as (w2 & H2 & Hc2 & Hw2 & Hd2 & Hn2); try done.
  { by eapply same_files_ok. }
  { by rewrite (proj1 Hs). }
  change (truncate_arg_keys_if_needed _) with (handoff_of w wr) in H2, Hd2. rewrite (same_files_held _ _ _ Hs) in H2, Hd2. fold text in H2, Hd2.
  rewrite (bind_Ok _ _ _ _ _ H2). erewrite bind_Ok by reflexivity. cbn [fst]. set (wr2 := set_tip _ _ _ _ _).
  rewrite (same_files_dir _ _ Hs) in Hd2.
  assert (Hside : dir_of w2 !! hmac_sidecar_path stem = dir_of w !! hmac_sidecar_path stem).
  { rewrite Hd2. apply lookup_insert_ne, not_eq_sym, sidecar_ne. }
  pose proof (rotated_ne_stem stem rot Hr) as Hne.
  assert (exists w3, (if exists_in (dir_of w2) (hmac_sidecar_path stem)
     then rename (hmac_sidecar_path stem) (hmac_sidecar_path rot) else mret ()) (w2, wr2) = (Ok (), (w3, wr2)) /\
     calm w3 /\ world_ok w3 /\ dir_of w3 !! stem = Some (Regular text) /\
     <[rot := Regular text]> (delete stem (dir_of w3)) = moved rot text (dir_of w)) as (w3 & H3 & Hc3 & Hw3 & Hx3 & Hd3).
  { unfold exists_in, moved. rewrite Hside. destruct (dir_of w !! hmac_sidecar_path stem) as [node|] eqn:Es.
    - rewrite bool_decide_true by by eexists.
      destruct (rename_calm w2 wr2 (hmac_sidecar_path stem) (hmac_sidecar_path rot) node)
        as (w3 & H3 & Hc3 & Hw3 & Hd3 & _); try done; [by apply not_eq_sym, sidecar_ne_own|].
      exists w3. split; [done|]. split; [done|]. split; [done|]. rewrite Hd3, Hd2. split.
      + rewrite lookup_insert_ne by by apply sidecar_ne_stem. rewrite lookup_delete_ne by apply sidecar_ne.
        apply lookup_insert_eq.
      + f_equal. apply map_eq. intros n. destruct (decide (n = stem)) as [->|?]; [by rewrite !lookup_delete_eq|].
        rewrite !lookup_delete_ne by done. destruct (decide (n = hmac_sidecar_path rot)) as [->|?];
          [by rewrite !lookup_insert_eq|]. rewrite !lookup_insert_ne by done.
        destruct (decide (n = hmac_sidecar_path stem)) as [->|?]; [by rewrite !lookup_delete_eq|].
        by rewrite !lookup_delete_ne, lookup_insert_ne by done.
    - rewrite bool_decide_false by (by intros [? ?]). exists w2. split; [done|]. split; [done|]. split; [done|].
      rewrite Hd2. split; [apply lookup_insert_eq|]. by rewrite delete_insert_eq. }
  rewrite (bind_Ok _ _ _ _ _ H3). unfold finish_rotation.
  destruct (rename_calm w3 wr2 stem rot (Regular text)) as (w4 & H4 & Hc4 & Hw4 & Hd4 & _ & Hn4); try done.
  rewrite (bind_Ok _ _ _ _ _ H4). rewrite Hd3 in Hd4.
  destruct (prune_calm w4 wr2 Hc4 Hw4) as (w5 & H5 & Hc5 & Hw5 & Hd5 & Hn5). rewrite (bind_Ok _ _ _ _ _ H5).
  rewrite Hd4 in Hd5. destruct (dir_create w5 stem EmptyString Hw5) as [Hd6 Hw6].
  assert (H6 : create_new_active_file stem (w5, wr2) = (Ok (w_next w5), (create_file stem EmptyString w5, wr2))).
  { unfold create_new_active_file. rewrite (bind_Ok _ _ _ _ _ (sys_calm w5 wr2 Hc5)).
    erewrite bind_Ok by reflexivity. cbn [fst]. by rewrite (Hn5 _ Hn4). }
  erewrite bind_Ok by (unfold attempt; by rewrite H6). cbv beta iota.
  eexists _, _. split; [reflexivity|]. split; [done|]. split; [done|]. cbn [create_file set_files w_names].
  split; [apply lookup_insert_eq|]. etransitivity; [exact Hd6|]. by rewrite Hd5.
Qed.

(** Archives and their sidecars stay where they are when the file is moved. *)
Lemma moved_lookup d rot text n :
  n <> stem -> n <> rot -> n <> hmac_sidecar_path stem -> n <> hmac_sidecar_path rot -> moved rot text d !! n = d !! n.
Proof.
  intros H1 H2 H3 H4. unfold moved. rewrite lookup_insert_ne, lookup_delete_ne by done.
  destruct (d !! hmac_sidecar_path stem); [|done]. by rewrite lookup_insert_ne, lookup_delete_ne by done.
Qed.

(** ** The archives after a rotation *)

(** An archive name drawn after those there are. *)
Definition next_name (rot : string) (archs : list (string * list (AuditEntry E))) : Prop :=
  is_rotated_sibling stem rot = true /\ Forall (fun a => str_le (fst a) rot /\ fst a <> rot) archs.

Section one.
Variables (d : Dir) (key : option (list Z)) (archs : list (string * list (AuditEntry E)))
  (es : list (AuditEntry E)) (tip rot text : string).
Hypotheses (Hlog : log_ok d stem key archs es tip) (Hrot : next_name rot archs).

Set Default Proof Using "Type* Hlog Hrot text".

Let names : list string := (fst <$> archs) ++ [rot].

Lemma names_sorted : StronglySorted str_le names.
Proof.
  unfold names. rewrite <- (lo_names _ _ _ _ _ _ Hlog). apply StronglySorted_app.
  split; [|split; [apply sort_strings_sorted|by repeat constructor]].
  rewrite (lo_names _ _ _ _ _ _ Hlog). intros x y Hx ->%list_elem_of_singleton.
  apply list_elem_of_fmap in Hx as (a & -> & Ha). destruct Hrot as [_ Hf]. rewrite Forall_forall in Hf. by apply Hf.
Qed.

Lemma names_NoDup : NoDup names.
Proof.
  unfold names. apply NoDup_app. rewrite <- (lo_names _ _ _ _ _ _ Hlog). split; [apply sorted_names_NoDup|].
  split; [|apply NoDup_singleton]. rewrite (lo_names _ _ _ _ _ _ Hlog).
  intros x (a & -> & Ha)%list_elem_of_fmap ?%list_elem_of_singleton.
  destruct Hrot as [_ Hf]. rewrite Forall_forall in Hf. by apply (Hf a Ha).
Qed.

Lemma names_elem n : n ∈ names <-> is_rotated_sibling stem n = true /\ is_Some (moved rot text d !! n).
Proof.
  pose proof (proj1 Hrot) as Hr. unfold names. rewrite elem_of_app, list_elem_of_singleton, <- (lo_names _ _ _ _ _ _ Hlog).
  rewrite sorted_names_elem. destruct (decide (n = rot)) as [->|Hn].
  - split; [intros _|by right]. split; [done|]. unfold moved. rewrite lookup_insert_eq. by eexists.
  - split.
    + intros [[H1 H2]|?]; [|done]. split; [done|].
      by rewrite moved_lookup by eauto using rotated_ne_stem, rotated_ne_sidecar.
    + intros [H1 H2]. left. split; [done|].
      by rewrite moved_lookup in H2 by eauto using rotated_ne_stem, rotated_ne_sidecar.
Qed.

Lemma moved_names : sort_strings (rotated_names (moved rot text d) stem) = names.
Proof. apply rotated_sorted; [apply names_sorted|apply names_NoDup|apply names_elem]. Qed.

(** How many archives are pruned. *)
Definition pruned_count (n : nat) : nat := Z.to_nat (Z.of_nat n + 1 - MAX_ROTATED_FILES).

Lemma excess_names : excess (moved rot text d) = take (pruned_count (length archs)) names.
Proof.
  unfold excess. rewrite moved_names. f_equal. unfold count, pruned_count.
  rewrite <- (sort_strings_perm (rotated_names (moved rot text d) stem)), moved_names.
  unfold names. rewrite length_app, length_fmap. cbn. lia.
Qed.

Lemma names_rotated n : n ∈ names -> is_rotated_sibling stem n = true.
Proof. by intros [? _]%names_elem. Qed.

Lemma kept_lookup n :
  n ∈ names -> n ∉ take (pruned_count (length archs)) names ->
  rotated rot text d !! n = moved rot text d !! n /\
  rotated rot text d !! hmac_sidecar_path n = moved rot text d !! hmac_sidecar_path n.
Proof.
  intros Hn%names_rotated Hk. unfold rotated. rewrite excess_names.
  rewrite !lookup_insert_ne by auto using not_eq_sym, rotated_ne_stem, sidecar_ne_stem.
  split; apply without_lookup; try done.
  - intros (x & -> & _)%list_elem_of_fmap. by apply (rotated_ne_sidecar stem _ x Hn).
  - intros Hx. apply elem_of_take in Hx as (i & Hi & _). apply list_elem_of_lookup_2, names_rotated in Hi.
    by rewrite sidecar_not_rotated in Hi.
  - intros (x & ->%sidecar_inj & Hx)%list_elem_of_fmap. done.
Qed.

Lemma rotated_dir_names :
  sort_strings (rotated_names (rotated rot text d) stem) = drop (pruned_count (length archs)) names.
Proof.
  set (k := pruned_count _). pose proof names_sorted as Hs. pose proof names_NoDup as Hd.
  apply rotated_sorted.
  - rewrite <- (take_drop k names) in Hs. by apply StronglySorted_app in Hs as (_ & _ & ?).
  - rewrite <- (take_drop k names) in Hd. by apply NoDup_app in Hd as (_ & _ & ?).
  - intros n. rewrite NoDup_take_drop by done. split.
    + intros [Hn Hk]. split; [by apply names_rotated|]. rewrite (proj1 (kept_lookup n Hn Hk)). by apply names_elem.
    + intros [Hn Hx]. destruct (decide (n ∈ take k names)) as [Hk|Hk].
      * unfold rotated in Hx. rewrite excess_names, lookup_insert_ne, without_gone in Hx
          by (auto using not_eq_sym, rotated_ne_stem). by destruct Hx.
      * split; [|done]. apply names_elem. split; [done|]. unfold rotated in Hx.
        rewrite excess_names, lookup_insert_ne in Hx by (auto using not_eq_sym, rotated_ne_stem).
        rewrite without_lookup in Hx; [done|done|].
        intros (x & -> & _)%list_elem_of_fmap. by apply (rotated_ne_sidecar stem _ x Hn).
Qed.

Lemma moved_archive a : a ∈ archs -> archive_ok (moved rot text d) key a.
Proof.
  intros Ha. pose proof (log_ok_rotated _ _ _ _ _ _ Hlog) as Hr. destruct Hrot as [Hrr Hlt].
  pose proof (lo_archives _ _ _ _ _ _ Hlog) as Hok. rewrite Forall_forall in Hr, Hlt, Hok.
  specialize (Hr a Ha). destruct (Hlt a Ha) as [_ Hne].
  eapply archive_ok_agree; [by apply Hok| |]; apply moved_lookup;
    eauto using rotated_ne_stem, rotated_ne_sidecar, sidecar_ne_stem, sidecar_ne_own, not_eq_sym.
  by intros ?%sidecar_inj.
Qed.

Lemma moved_new hand :
  text = text_of (es ++ [hand]) -> ts_ok hand -> ae_event_kind hand = AuditRotationHandoff rot -> es <> [] ->
  archive_ok (moved rot text d) key (rot, es ++ [hand]).
Proof.
  intros Ht Hts Hk Hne. pose proof (proj1 Hrot) as Hr. unfold archive_ok. cbn [fst snd]. split; [|split; [|split]].
  - unfold moved. by rewrite lookup_insert_eq, Ht.
  - apply Forall_app. split; [apply (lo_ts _ _ _ _ _ _ Hlog)|]. by apply Forall_singleton.
  - unfold last_handoff. rewrite foldl_app. cbn [foldl]. by rewrite Hk.
  - intros k e es' Hkey He. destruct es as [|x xs]; [done|]. injection He as <- <-.
    pose proof (lo_sidecar _ _ _ _ _ _ Hlog k x xs Hkey eq_refl) as Hs.
    unfold moved. rewrite Hs, lookup_insert_ne by eauto using rotated_ne_sidecar.
    rewrite lookup_delete_ne by by apply not_eq_sym, sidecar_ne_stem. by rewrite lookup_insert_eq.
Qed.

Lemma rotated_archives hand :
  text = text_of (es ++ [hand]) -> ts_ok hand -> ae_event_kind hand = AuditRotationHandoff rot -> es <> [] ->
  Forall (archive_ok (rotated rot text d) key) (drop (pruned_count (length archs)) (archs ++ [(rot, es ++ [hand])])).
Proof.
  intros Ht Hts Hk Hne. apply Forall_forall. intros a Ha.
  assert (Hn : fst a ∈ drop (pruned_count (length archs)) names).
  { unfold names. change [rot] with (fst <$> [(rot, es ++ [hand])]). rewrite <- fmap_app, <- fmap_drop.
    by apply list_elem_of_fmap_2. }
  rewrite NoDup_take_drop in Hn by apply names_NoDup. destruct Hn as [Hin Hout].
  destruct (kept_lookup _ Hin Hout) as [H1 H2]. eapply archive_ok_agree; [|exact H1|exact H2].
  assert (Hi : a ∈ archs ++ [(rot, es ++ [hand])]).
  { rewrite <- (take_drop (pruned_count (length archs)) (archs ++ _)). apply elem_of_app. by right. }
  apply elem_of_app in Hi as [Hi|Hi].
  - by apply moved_archive.
  - apply list_elem_of_singleton in Hi as ->. by apply moved_new.
Qed.

(** Without pruning the rotated log is a log again. *)
Lemma rotated_keeps hand h :
  text = text_of (es ++ [hand]) -> ts_ok hand -> ae_event_kind hand = AuditRotationHandoff rot -> es <> [] ->
  ae_previous_entry_hash hand = tip -> compute_entry_hash_streamed hand tip = Ok h -> count archs < MAX_ROTATED_FILES ->
  log_ok (rotated rot text d) stem key (archs ++ [(rot, es ++ [hand])]) [] h.
Proof.
  intros Ht Hts Hk Hne Hp Hh Hc. pose proof rotated_dir_names as Hn.
  pose proof (rotated_archives hand Ht Hts Hk Hne) as Ha.
  replace (pruned_count (length archs)) with 0%nat in Hn, Ha by (unfold pruned_count, count in *; lia).
  split.
  - rewrite Hn. unfold names. rewrite fmap_app. done.
  - unfold count in *. rewrite length_app. cbn [length]. unfold ROTATED_FILE_CHAIN_CAP, MAX_ROTATED_FILES in *. lia.
  - done.
  - apply lookup_insert_eq.
  - done.
  - done.
  - by intros k e es' _ [=].
  - rewrite app_nil_r. unfold archived. rewrite fmap_app, concat_app. cbn. rewrite app_nil_r, app_assoc.
    apply linked_app. exists tip. split; [apply (lo_chain _ _ _ _ _ _ Hlog)|]. split; [done|]. by exists h.
Qed.

(** Ten archives are followed by the pruning of the oldest, and the log by then
    starts with an entry that does not. *)
Lemma pruning_breaks d' hand e0 es0 a0 archs0 e1 es1 n1 archs1 :
  text = text_of (es ++ [hand]) -> ts_ok hand -> ae_event_kind hand = AuditRotationHandoff rot -> es <> [] ->
  count archs = MAX_ROTATED_FILES -> archs = (a0, e0 :: es0) :: archs0 -> archs0 = (n1, e1 :: es1) :: archs1 ->
  (forall n, is_rotated_sibling stem n = true -> d' !! n = rotated rot text d !! n) ->
  verify_log (E:=E) (still d') stem key = Err (ChainBroken 1 n1 "previous_entry_hash_mismatch") \/
  collision_among (hash_inputs (archived archs)).
Proof.
  intros Ht Hts Hk Hne Hc H0 H1 Hd'. pose proof rotated_dir_names as Hn.
  pose proof (rotated_archives hand Ht Hts Hk Hne) as Ha.
  replace (pruned_count (length archs)) with 1%nat in Hn, Ha by (unfold pruned_count, count in *; lia).
  assert (Hn' : sort_strings (rotated_names d' stem) = drop 1 names).
  { rewrite <- Hn. apply rotated_names_agree. intros n Hr. by rewrite Hd'. }
  assert (H1r : is_rotated_sibling stem n1 = true).
  { apply names_rotated. unfold names. subst. apply elem_of_app. left. right. left. }
  unfold names in Hn'. subst archs archs0. cbn [fmap list_fmap fst app drop] in Hn', Ha.
  apply Forall_cons in Ha as [(Hd & Hts1 & _) _]. cbn [fst snd] in Hd, Hts1. apply Forall_cons in Hts1 as [Hts1 _].
  destruct (decide (ae_previous_entry_hash e1 = ZERO_BLOCK_HASH)) as [Hz|Hz]; [right|left].
  - pose proof (lo_chain _ _ _ _ _ _ Hlog) as Hl. unfold archived in Hl |- *. cbn [fmap list_fmap concat snd] in Hl |- *.
    rewrite <- app_assoc in Hl. apply linked_app in Hl as (mid & Hl & Hl'). cbn [app linked] in Hl'.
    destruct Hl' as [Hm _]. rewrite Hz in Hm. subst mid.
    destruct (exists_last (l := e0 :: es0)) as (l & e & He); [done|]. rewrite He in Hl |- *.
    eapply collision_mono; [|eapply linked_zero; exact Hl]. apply hash_inputs_sub.
    intros x Hx. apply elem_of_app. left. apply elem_of_app. by right.
  - eapply (broken_start d' stem key n1); try done; [|by rewrite Hd']. unfold collect_file_chain. rewrite Hn'.
    replace (_ <? _) with false; [done|]. symmetry. apply Z.ltb_ge.
    unfold count. rewrite <- (sort_strings_perm (rotated_names _ stem)), Hn'. cbn [length] in *.
    rewrite length_app, length_fmap. unfold count in Hc. cbn [length] in Hc |- *.
    unfold ROTATED_FILE_CHAIN_CAP, MAX_ROTATED_FILES in *. lia.
Qed.

End one.
Set Default Proof Using "Type*".
End rotation.
