(* ===== verification/AuditLogged.v ===== *)
(** * Runs of the audit writer

    A log is opened in an empty directory and entries are written to it, with no
    system call failing.  As long as no archive is pruned the verifier accepts the
    log after every entry, finds in it exactly what was written, and the anchor in
    the keyring is the one of its tip; the first pruning makes it refuse the log. *)

From S2P Require Import Prelude RustStr Bytes Time AuditEntry AuditFiles AuditVerify AuditChainProps AuditFilesProps AuditVerifyProps AuditWriter AuditOpen AuditRunProps AuditWriterProps AuditRotateProps.
From stdpp Require Import options.

Local Open Scope string_scope.
Local Open Scope list_scope.
Local Open Scope Z_scope.
Set Default Proof Using "Type*".

Section logged.
Context {E : Type} {AJ : AuditJson E} {AL : AuditJsonLaws E} {SH : Sha2} {SL : Sha2Laws}
  {ZB : ZeroBlock} {UE : Utf8Error}.
Variables (stem : string) (clock uuid : nat -> string) (threshold : Z).
Implicit Types (e : AuditEntry E) (es : list (AuditEntry E)) (s : State) (d : Dir).

(** The entries that are not the log's own handoffs. *)
Definition records es : list (AuditEntry E) := filter (fun e => is_handoff e = false) es.

Lemma records_app es1 es2 : records (es1 ++ es2) = records es1 ++ records es2.
Proof. apply filter_app. Qed.
Lemma records_none es : Forall (fun e => is_handoff e = false) es -> records es = es.
Proof. induction 1 as [|e es He _ IH]; [done|]. unfold records in *. by rewrite filter_cons_True, IH. Qed.

(** An entry that a caller writes: with a readable time, and no handoff. *)
Definition recordable e : Prop := ts_ok e /\ is_handoff e = false.

(** What a rotation, if one is due, asks of the clock and the directory: a
    readable time, and an archive name that sorts after those there are. *)
Definition rotation_due s : bool := threshold <=? len (held_content (fst s) (wr_file (snd s))).

Definition rotation_clock s : Prop :=
  rotation_due s = true ->
  is_ok (parse_audit_timestamp_ms (clock (S (w_tick (fst s))))) = true /\
  is_rotated_sibling stem (rotation_name stem clock (fst s)) = true /\
  Forall (fun n => str_le n (rotation_name stem clock (fst s)) /\ n <> rotation_name stem clock (fst s))
    (rotated_names (dir_of (fst s)) stem).

Definition rotation_room s : Prop :=
  rotation_due s = true -> count (rotated_names (dir_of (fst s)) stem) < MAX_ROTATED_FILES.

Lemma archs_count d key archs es tip :
  log_ok (E:=E) d stem key archs es tip -> count (rotated_names d stem) = count archs.
Proof.
  intros H. unfold count.
  rewrite <- (sort_strings_perm (rotated_names d stem)), (lo_names _ _ _ _ _ _ H), length_fmap. done.
Qed.

Lemma rotation_facts s archs es :
  writer_ok (E:=E) stem s archs es -> rotation_clock s -> rotation_due s = true ->
  ts_ok (handoff_of (E:=E) stem clock uuid (fst s) (snd s)) /\
  next_name (E:=E) stem (rotation_name stem clock (fst s)) archs.
Proof.
  intros H Hr Hd. destruct (Hr Hd) as (H1 & H2 & H3). split.
  - unfold ts_ok. by rewrite (proj1 (handoff_facts stem clock uuid (fst s) (snd s))).
  - split; [done|]. apply Forall_forall. intros a Ha. rewrite Forall_forall in H3. apply H3.
    rewrite <- sort_strings_perm, (lo_names _ _ _ _ _ _ (wo_log _ _ _ _ H)). by apply list_elem_of_fmap_2.
Qed.

Lemma due_full s archs es :
  writer_ok (E:=E) stem s archs es -> rotation_due s = (threshold <=? len (text_of es)).
Proof. intros H. unfold rotation_due. by rewrite (held_text _ _ _ _ H). Qed.

Lemma tip_hashes s archs es e :
  writer_ok (E:=E) stem s archs es ->
  exists h, compute_entry_hash_streamed e (wr_last_hash (snd s)) = Ok h.
Proof.
  intros H. destruct (linked_decodes _ _ (lo_chain _ _ _ _ _ _ (wo_log _ _ _ _ H))) as [b Hb].
  unfold compute_entry_hash_streamed. rewrite Hb. by eexists.
Qed.

(** A rotation with room for the archive. *)
Lemma rotate_keeps s archs es :
  writer_ok (E:=E) stem s archs es -> 0 < threshold -> rotation_clock s -> rotation_room s -> rotation_due s = true ->
  exists s' hand, rotate (E:=E) stem clock uuid s = (Ok (), s') /\
    writer_ok stem s' (archs ++ [(rotation_name stem clock (fst s), es ++ [hand])]) [] /\ is_handoff hand = true /\
    wr_hmac_key (snd s') = wr_hmac_key (snd s) /\ wr_tip_anchor (snd s') = wr_tip_anchor (snd s) /\
    wr_drains (snd s') = wr_drains (snd s).
Proof.
  intros H Hpos Hclk Hroom Hdue. destruct (rotation_facts _ _ _ H Hclk Hdue) as [Hts Hnx].
  destruct (tip_hashes _ _ _ (handoff_of stem clock uuid (fst s) (snd s)) H) as [h Hh].
  destruct (handoff_facts (E:=E) stem clock uuid (fst s) (snd s)) as (_ & Hk & Hp).
  rewrite (due_full _ _ _ H) in Hdue.
  assert (Hne : es <> []) by (intros ->; change (len (text_of (E:=E) [])) with 0 in Hdue; lia).
  pose proof (held_text _ _ _ _ H) as Ht. pose proof (wo_log _ _ _ _ H) as Hl. destruct s as [w wr]. cbn [fst snd] in *.
  destruct (rotate_calm stem clock uuid w wr h) as (w' & file & Hrun & Hc' & Hw' & Hn' & Hd'); try done; try apply H.
  { apply Hnx. }
  rewrite Ht, <- text_of_snoc in Hd'.
  eexists _, _. split; [exact Hrun|]. split; [|split; [unfold is_handoff; by rewrite Hk|done]].
  split; cbn [fst snd set_tip set_file wr_last_hash wr_hmac_key wr_file wr_entry_count wr_end_offset wr_is_new_file
    wr_pending_tip_anchor wr_partial_rotation_archive wr_log_diverged wr_tip_anchor]; try done; try apply H.
  - rewrite Hd'. eapply rotated_keeps; try done. rewrite <- (archs_count _ _ _ _ _ Hl).
    apply Hroom. by rewrite (due_full _ _ _ H).
  - rewrite Hd'. unfold rotated. rewrite lookup_insert_ne by apply not_eq_sym, outbox_ne_stem.
    set (dd := moved _ _ _ _).
    assert (Hnone : dd !! outbox_path stem = None).
    { unfold dd. rewrite moved_lookup; eauto using outbox_ne_stem, outbox_ne_sidecar; [apply H|].
      intros Hx. pose proof (outbox_not_rotated stem stem) as Hy. rewrite Hx in Hy. destruct Hnx as [Hz _]. congruence. }
    rewrite without_lookup; [done| |].
    + unfold excess. intros (i & Hi & _)%elem_of_take. apply list_elem_of_lookup_2, sorted_names_elem in Hi as [_ [? Hi]].
      congruence.
    + intros (x & Hx & _)%list_elem_of_fmap. by apply (outbox_ne_sidecar stem x).
Qed.

(** One append of a caller's entry. *)
Lemma append_keeps s archs es e :
  writer_ok (E:=E) stem s archs es -> 0 < threshold -> recordable e -> rotation_clock s -> rotation_room s ->
  exists s' archs' es' prev, append_checked stem clock uuid threshold e s = (Ok (), s') /\
    writer_ok stem s' archs' es' /\ es' <> [] /\
    records (archived archs' ++ es') = records (archived archs ++ es) ++ [stored prev e] /\
    wr_hmac_key (snd s') = wr_hmac_key (snd s) /\ wr_tip_anchor (snd s') = wr_tip_anchor (snd s) /\
    wr_drains (snd s') = wr_drains (snd s).
Proof.
  intros H Hpos [Hts Hnh] Hclk Hroom.
  assert (Hst : forall p, records [stored p e] = [stored p e]).
  { intros p. apply records_none, Forall_singleton. unfold is_handoff, stored in *. cbn [with_previous ae_event_kind].
    by rewrite (proj1 (proj2 (truncate_keeps e))). }
  unfold append_checked. destruct (rotation_due s) eqn:Hdue.
  - destruct (rotate_keeps _ _ _ H Hpos Hclk Hroom Hdue) as (s1 & hand & Hrun & H1 & Hh & Hk1 & Ha1 & Hd1).
    rewrite (due_full _ _ _ H) in Hdue.
    erewrite bind_Ok by (eapply prepare_append_calm; [exact H|]; by rewrite Hdue).
    destruct (commit_keeps stem s1 _ _ e H1 Hts Hnh) as (s2 & Hc & H2 & Hk2 & Ha2 & Hd2).
    eexists s2, _, _, _. split; [exact Hc|]. split; [exact H2|]. split; [done|].
    split; [|split; [congruence|split; congruence]].
    unfold archived. rewrite fmap_app, concat_app. cbn [fmap list_fmap concat snd app]. rewrite app_nil_r, !records_app.
    rewrite Hst. unfold records at 3. rewrite filter_cons_False by (by rewrite Hh). change (filter _ []) with (@nil (AuditEntry E)). by rewrite app_nil_r.
  - rewrite (due_full _ _ _ H) in Hdue.
    erewrite bind_Ok by (eapply (prepare_append_calm _ _ _ _ s); [exact H|]; by rewrite Hdue).
    destruct (commit_keeps stem s _ _ e H Hts Hnh) as (s2 & Hc & H2 & Hk2 & Ha2 & Hd2).
    eexists s2, archs, _, _. split; [exact Hc|]. split; [exact H2|]. split; [by destruct es|]. split; [|done].
    by rewrite app_assoc, (records_app _ [_]), Hst.
Qed.

(** The outbox is empty, so a write is an append. *)
Lemma write_entry_calm s archs es e :
  writer_ok (E:=E) stem s archs es ->
  write_entry stem clock uuid threshold e s = append_checked stem clock uuid threshold e s.
Proof.
  intros H. destruct s as [w wr]. unfold write_entry. erewrite bind_Ok by reflexivity. cbn [snd].
  assert (Hn : w_names w !! outbox_path stem = None).
  { apply eq_None_not_Some. rewrite <- dir_is_Some by apply (wo_world _ _ _ _ H).
    pose proof (wo_outbox _ _ _ _ H) as Ho. cbn [fst] in Ho. rewrite Ho. by intros [? ?]. }
  erewrite bind_Ok; [reflexivity|]. destruct (wr_drains wr); [|done].
  unfold drain_outbox. erewrite bind_Ok; [reflexivity|]. erewrite bind_Ok by reflexivity. cbn [fst]. by rewrite Hn.
Qed.

(** ** Opening in an empty directory *)

Lemma lift_inv {A B} (r : result WriterError A) (f : A -> M B) s b s' :
  (lift r ≫= f) s = (Ok b, s') -> exists a, r = Ok a /\ f a s = (Ok b, s').
Proof. unfold mbind, M_bind, lift. destruct r; [|done]. by eauto. Qed.

(** The log there is before the first entry. *)
Lemma no_archives : rotated_names {[stem := Regular EmptyString]} stem = [].
Proof.
  unfold rotated_names. rewrite map_to_list_singleton. cbn [fmap list_fmap fst].
  by rewrite filter_cons_False by (by rewrite stem_not_rotated).
Qed.

Lemma empty_log_ok w key :
  dir_of w = {[stem := Regular EmptyString]} -> log_ok (E:=E) (dir_of w) stem key [] [] ZERO_BLOCK_HASH.
Proof. intros Hd. rewrite Hd. split; try done; [by rewrite no_archives|apply lookup_singleton_eq]. Qed.

Lemma dir_fresh w : w_names w = ∅ ->
  world_ok (create_file stem EmptyString w) /\
  dir_of (create_file stem EmptyString w) = {[stem := Regular EmptyString]}.
Proof.
  intros Hn. destruct (dir_create w stem EmptyString) as [Hd Hw].
  { split; intros *; rewrite Hn, lookup_empty; done. }
  split; [done|]. rewrite Hd. replace (dir_of w) with (∅ : Dir); [apply insert_empty|].
  symmetry. apply map_eq. intros n. rewrite dir_lookup, Hn, !lookup_empty. done.
Qed.

(** What opening leaves of a writer before the anchor is consulted. *)
Definition fresh_writer (file : nat) (key : option (list Z)) (anchored : bool) : AuditWriter :=
  MkWriter file ZERO_BLOCK_HASH true key 0 0 None anchored None None false anchored.

Lemma fresh_writer_ok w key file :
  calm w -> world_ok w -> w_names w !! stem = Some file -> dir_of w = {[stem := Regular EmptyString]} ->
  writer_ok (E:=E) stem (w, fresh_writer file key (bool_decide (is_Some key))) [] [].
Proof.
  intros Hc Hw Hn Hd. split; try done; cbn [fst snd fresh_writer wr_hmac_key wr_last_hash].
  - by apply empty_log_ok.
  - rewrite Hd. apply lookup_singleton_ne, not_eq_sym, outbox_ne_stem.
Qed.

(** An empty log without an anchor needs none. *)
Lemma verify_tip_anchor_fresh w key file s' :
  let s := (w, fresh_writer file key true) in
  calm w -> w_keyring w = None -> w_names w !! stem = Some file -> dir_of w = {[stem := Regular EmptyString]} ->
  world_ok w -> verify_tip_anchor (E:=E) stem clock uuid threshold s = (Ok (), s') -> s' = s.
Proof.
  intros s Hc Hk Hn Hd Hw. unfold verify_tip_anchor, reconcile_tip_anchor.
  assert (Hr : forall f, ((wr ← get_writer;
     if negb (wr_tip_anchor wr) then mret NotAnchored
     else match wr_partial_rotation_archive wr with
          | Some a => fail (WPartialRotation a)
          | None => f
          end) : M AnchorOutcome) s = f s) by done.
  assert (Hl : load_anchor s = (Ok None, s)).
  { unfold load_anchor. erewrite bind_Ok by (by apply keyring_calm). erewrite bind_Ok by reflexivity. cbn [fst s]. by rewrite Hk. }
  assert (Hrep : refuse_if_replaced stem None s = (Ok (), s)).
  { unfold refuse_if_replaced. erewrite bind_Ok by reflexivity. erewrite bind_Ok by reflexivity.
    cbn [fst snd s fresh_writer wr_log_diverged wr_file]. erewrite bind_Ok by (by apply sys_calm).
    by rewrite bool_decide_true. }
  intros Hrun. erewrite bind_Ok in Hrun.
  2: { rewrite Hr. erewrite bind_Ok by exact Hl. erewrite bind_Ok by exact Hrep. erewrite bind_Ok by reflexivity.
       erewrite bind_Ok by reflexivity. erewrite bind_Ok by (by apply sys_calm). erewrite bind_Ok by reflexivity.
       unfold path_len. cbn [fst s]. rewrite Hd, lookup_singleton_eq. reflexivity. }
  unfold on_writer in Hrun. cbn [fst snd s] in Hrun. erewrite bind_Ok in Hrun by reflexivity.
  unfold drain_then_record_adoption in Hrun. erewrite bind_Ok in Hrun by reflexivity.
  cbn [snd set_tip fresh_writer wr_drains] in Hrun. erewrite bind_Ok in Hrun.
  2: { unfold attempt, drain_outbox. erewrite bind_Ok by reflexivity. cbn [fst].
       replace (w_names w !! outbox_path stem) with (@None nat); [reflexivity|].
       symmetry. apply eq_None_not_Some. rewrite <- dir_is_Some, Hd by done.
       rewrite lookup_singleton_ne by apply not_eq_sym, outbox_ne_stem. by intros [? ?]. }
  cbv beta iota in Hrun. erewrite bind_Ok in Hrun by reflexivity. injection Hrun as <-. done.
Qed.

Lemma initial_seed_fresh : initial_chain_seed (E:=E) {[stem := Regular EmptyString]} stem = Ok ZERO_BLOCK_HASH.
Proof. unfold initial_chain_seed, collect_file_chain. by rewrite no_archives. Qed.

Lemma acquire_drain_calm n w wr : calm w -> acquire_drain_lock n (w, wr) = (Ok (), (w, wr)).
Proof.
  intros Hc. assert (Hl : acquire_lock (w, wr) = (Ok (), (w, wr))).
  { unfold acquire_lock. by rewrite (bind_Ok _ _ _ _ _ (next_outcome_calm w wr Hc)). }
  destruct n; cbn [acquire_drain_lock]; [done|]. erewrite bind_Ok by (unfold attempt; by rewrite Hl). done.
Qed.

(** Opening makes the file and nothing else. *)
Lemma audit_open_fresh key w wr s' :
  calm w -> w_names w = ∅ -> w_keyring w = None ->
  audit_open (E:=E) stem clock uuid threshold key (w, wr) = (Ok (), s') ->
  s' = (create_file stem EmptyString w, fresh_writer (w_next w) key (bool_decide (is_Some key))).
Proof.
  intros Hc Hn Hk. unfold audit_open, open_inner. erewrite bind_Ok by (by apply sys_calm).
  erewrite bind_Ok by (by apply (acquire_drain_calm 0)). cbv zeta.
  erewrite bind_Ok by (destruct (bool_decide (is_Some key)); [by apply (acquire_drain_calm 4)|reflexivity]).
  destruct (dir_fresh w Hn) as [Hw Hd]. set (w1 := create_file stem EmptyString w) in *.
  assert (Hcontent : held_content w1 (w_next w) = EmptyString) by (unfold held_content, w1; cbn; by rewrite lookup_insert_eq).
  assert (Hop : open_append stem (w, wr) = (Ok (w_next w), (w1, wr))).
  { unfold open_append. erewrite bind_Ok by (by apply sys_calm). erewrite bind_Ok by reflexivity. cbn [fst].
    by rewrite Hn, lookup_empty. }
  erewrite bind_Ok by exact Hop. erewrite bind_Ok by reflexivity. cbn [fst]. rewrite Hcontent, Hd.
  intros (_ & _ & Hrun)%lift_inv. erewrite bind_Ok in Hrun by (by apply sys_calm).
  rewrite initial_seed_fresh in Hrun. erewrite bind_Ok in Hrun by reflexivity. cbn [is_empty] in Hrun.
  erewrite bind_Ok in Hrun by reflexivity. erewrite bind_Ok in Hrun by reflexivity.
  cbn [fst cs_last_hash cs_entry_count cs_end_offset] in Hrun. rewrite andb_true_r in Hrun.
  assert (Hname : w_names w1 !! stem = Some (w_next w)) by apply lookup_insert_eq.
  fold (fresh_writer (w_next w) key (bool_decide (is_Some key))) in Hrun.
  destruct (bool_decide (is_Some key)) eqn:Ek; [|by injection Hrun as <-].
  eapply verify_tip_anchor_fresh in Hrun; done.
Qed.

(** ** Runs *)

Inductive logged (key : option (list Z)) : State -> list (AuditEntry E) -> Prop :=
| logged_open w wr s :
    calm w -> w_names w = ∅ -> w_keyring w = None ->
    audit_open (E:=E) stem clock uuid threshold key (w, wr) = (Ok (), s) -> logged key s []
| logged_write s written e s' :
    logged key s written -> recordable e -> rotation_clock s -> rotation_room s ->
    write_entry stem clock uuid threshold e s = (Ok (), s') -> logged key s' (written ++ [e]).

(** An entry on disk is the one written: with keys dropped if it was too long,
    and with the hash before it. *)
Definition on_disk (x e : AuditEntry E) : Prop := exists prev, x = stored prev e.

Lemma logged_ok key s written :
  0 < threshold -> logged key s written ->
  exists archs es, writer_ok stem s archs es /\ (written = [] \/ es <> []) /\
    Forall2 on_disk (records (archived archs ++ es)) written /\
    wr_hmac_key (snd s) = key /\ wr_tip_anchor (snd s) = bool_decide (is_Some key).
Proof.
  intros Hpos. induction 1 as [w wr s Hc Hn Hk Hrun|s written e s' _ IH He Hclk Hroom Hrun].
  - apply audit_open_fresh in Hrun as ->; [|done..]. destruct (dir_fresh w Hn) as [Hw Hd].
    exists [], []. split; [|split; [by left|split; [constructor|done]]].
    apply fresh_writer_ok; [done|done|apply lookup_insert_eq|done].
  - destruct IH as (archs & es & H & _ & Hf & Hk & Ha).
    rewrite (write_entry_calm _ _ _ _ H) in Hrun.
    destruct (append_keeps _ _ _ e H Hpos He Hclk Hroom) as (s1 & archs' & es' & prev & Hrun' & H' & Hne & Hr & Hk' & Ha' & _).
    rewrite Hrun in Hrun'. injection Hrun' as <-.
    exists archs', es'. split; [done|]. split; [by right|]. split; [|split; congruence].
    rewrite Hr. apply Forall2_app; [done|]. constructor; [by exists prev|constructor].
Qed.

Definition anchor_of (tip : VerifiedTip) : TipAnchor :=
  MkAnchor (vt_entry_count tip) (vt_tip_hash tip) (vt_end_offset tip).

(** C8: Take a run of the writer from an empty directory in which no system call fails, no archive
    is pruned, entries have readable times and are not handoffs, and at each rotation the clock's text is
    readable and the archive's name, which is made of it, sorts after those of the archives there are
    (a clock that goes back, or ten rotations at one timestamp, break this).  Then a
    write is acknowledged, and what is on disk verifies together with the anchor in the
    keyring: the entries found are those written, in order, and the handoffs
    between the files. *)
Theorem written_log_verifies key s written e :
  0 < threshold -> logged key s written -> recordable e -> rotation_clock s -> rotation_room s ->
  exists s' r tip, write_entry stem clock uuid threshold e s = (Ok (), s') /\
    let d := dir_of (fst s') in
    verify_log_with_health (E:=E) d stem key (Some (anchor_of tip)) false = Ok (r, false) /\
    vo_active_tip r = Some tip /\ vo_entries_verified r = count (log_entries (E:=E) d stem) /\
    (is_Some key -> w_keyring (fst s') = Some (to_keyring_value (anchor_of tip))) /\
    Forall2 on_disk (records (log_entries d stem)) (written ++ [e]).
Proof.
  intros Hpos Hs He Hclk Hroom. destruct (logged_ok _ _ _ Hpos Hs) as (archs & es & H & _).
  destruct (append_keeps _ _ _ e H Hpos He Hclk Hroom) as (s' & _ & _ & _ & Hrun & _).
  rewrite <- (write_entry_calm _ _ _ _ H) in Hrun.
  destruct (logged_ok key s' (written ++ [e]) Hpos) as (archs' & es' & H' & Hne & Hf & Hk & Ha); [by eapply logged_write|].
  assert (es' <> []) as Hne' by (destruct Hne as [Hne|]; [by destruct written|done]).
  pose proof (wo_log _ _ _ _ H') as Hl. rewrite Hk in Hl.
  destruct (log_ok_verifies _ _ _ _ _ _ Hl) as [(r & Hv & Ht & Hc) Hent].
  exists s', r, (MkTip (count es') (wr_last_hash (snd s')) (len (text_of es'))). split; [done|].
  cbv zeta. rewrite Hent. split; [|split; [done|split; [done|split; [|done]]]].
  - unfold verify_log_with_health. rewrite Hv. cbn [mbind result_bind]. rewrite Ht.
    unfold check_anchor_against_walk, matches_tip, anchor_of. cbn [ta_entry_count ta_tip_hash ta_end_offset vt_entry_count vt_tip_hash vt_end_offset].
    rewrite !Z.eqb_refl, bool_decide_true by done. done.
  - intros Hkey. apply (wo_anchor _ _ _ _ H'); [|done]. rewrite Ha. by apply bool_decide_eq_true.
Qed.

Lemma archive_nonempty d key a : archive_ok (E:=E) d key a -> exists e es, snd a = e :: es.
Proof. intros (_ & _ & H & _). destruct (snd a); [done|by eauto]. Qed.

(** C24: In a run as above, with archive names that sort in the order of time, the write that rotates
    while there are ten archives prunes one, and the verifier, which
    starts every log at the zero block, refuses what is left: the write is
    acknowledged and the untampered log no longer verifies (short of a SHA-256
    collision among its entries). *)
Theorem pruned_log_fails_verification key s written e :
  0 < threshold -> logged key s written -> recordable e -> rotation_clock s -> rotation_due s = true ->
  count (rotated_names (dir_of (fst s)) stem) = MAX_ROTATED_FILES ->
  exists s' name, write_entry stem clock uuid threshold e s = (Ok (), s') /\
    (verify_log (E:=E) (still (dir_of (fst s'))) stem key
     = Err (ChainBroken 1 name "previous_entry_hash_mismatch") \/
     collision_among (hash_inputs (log_entries (E:=E) (dir_of (fst s)) stem))).
Proof.
  intros Hpos Hs He Hclk Hdue Hten. destruct (logged_ok _ _ _ Hpos Hs) as (archs & es & H & _ & _ & Hk & _).
  rewrite (write_entry_calm _ _ _ _ H). destruct (rotation_facts _ _ _ H Hclk Hdue) as [Hts Hnx].
  pose proof (wo_log _ _ _ _ H) as Hl. rewrite Hk in Hl. rewrite (archs_count _ _ _ _ _ Hl) in Hten.
  destruct (log_ok_verifies _ _ _ _ _ _ Hl) as [_ Hent]. rewrite Hent.
  destruct (tip_hashes _ _ _ (handoff_of stem clock uuid (fst s) (snd s)) H) as [h Hh].
  destruct (handoff_facts (E:=E) stem clock uuid (fst s) (snd s)) as (_ & Hkind & Hp).
  rewrite (due_full _ _ _ H) in Hdue.
  assert (Hne : es <> []) by (intros ->; change (len (text_of (E:=E) [])) with 0 in Hdue; lia).
  pose proof (held_text _ _ _ _ H) as Ht. pose proof (lo_archives _ _ _ _ _ _ Hl) as Harch.
  destruct (rotate_calm (E:=E) stem clock uuid (fst s) (snd s) h) as (w1 & file & Hrun & Hc1 & Hw1 & Hn1 & Hd1);
    try done; try apply H; [apply Hnx|]. rewrite Ht, <- text_of_snoc in Hd1.
  rewrite <- surjective_pairing in Hrun. set (wr1 := set_tip _ _ _ _ _) in *.
  assert (Hb : exists b, decode_hash (wr_last_hash wr1) = Ok b).
  { rewrite <- Hp in Hh. apply entry_hash_Ok in Hh as [-> _]. eexists. apply decode_hash_text; [apply sha256_length|apply sha256_bytes]. }
  destruct Hb as [b Hb].
  destruct (commit_append_calm stem w1 wr1 e _ Hc1 Hw1 Hn1 ltac:(apply H)
    ltac:(unfold compute_entry_hash_streamed; rewrite Hb; reflexivity)) as (w2 & Hc & _ & _ & _ & Hd2 & _).
  destruct archs as [|[n0 l0] archs]; [done|]. destruct archs as [|[n1 l1] archs]; [done|].
  apply Forall_cons in Harch as [H0 [H1 _]%Forall_cons].
  destruct (archive_nonempty _ _ _ H0) as (e0 & es0 & He0). destruct (archive_nonempty _ _ _ H1) as (e1 & es1 & He1).
  cbn [snd] in He0, He1. subst l0 l1. eexists _, n1. split.
  { unfold append_checked. erewrite bind_Ok by (eapply prepare_append_calm; [exact H|]; rewrite Hdue; exact Hrun). exact Hc. }
  cbn [fst]. destruct (pruning_breaks (E:=E) stem (dir_of (fst s)) key _ es _ _ _ Hl Hnx (dir_of w2) _ e0 es0 n0 _ e1 es1 n1 archs
    eq_refl Hts Hkind Hne Hten eq_refl eq_refl) as [Hv|Hx].
  - intros n Hn. rewrite Hd2, add_sidecar_lookup, lookup_insert_ne, Hd1 by eauto using rotated_ne_sidecar, not_eq_sym, rotated_ne_stem. done.
  - by left.
  - right. eapply collision_mono; [|exact Hx]. apply hash_inputs_sub. intros x Hx'. apply elem_of_app. by left.
Qed.

End logged.
