(* ===== verification/AuditDemo.v ===== *)
(** * Concrete inputs for the theorems about the audit log

    A codec for entries that satisfies the laws of the JSON one - the fields in
    hexadecimal between braces -, a clock, and runs of the writer. *)

From S2P Require Import Prelude RustStr Bytes Time AuditEntry AuditFiles AuditVerify AuditChainProps AuditFilesProps AuditVerifyProps AuditWriter AuditOpen AuditRunProps AuditWriterProps AuditRotateProps AuditLogged.
From stdpp Require Import options.

Local Open Scope string_scope.
Local Open Scope list_scope.
Local Open Scope Z_scope.

(** ** Values as texts *)

Fixpoint pos_text (p : positive) : string :=
  match p with xH => EmptyString | xO p => String "0" (pos_text p) | xI p => String "1" (pos_text p) end.
Fixpoint text_pos (s : string) : positive :=
  match s with
  | EmptyString => xH
  | String a s => if bool_decide (a = "0"%char) then xO (text_pos s) else xI (text_pos s)
  end.
Definition z_text (z : Z) : string :=
  match z with Z0 => EmptyString | Zpos p => String "+" (pos_text p) | Zneg p => String "-" (pos_text p) end.
Definition text_z (s : string) : Z :=
  match s with
  | EmptyString => 0
  | String a s => if bool_decide (a = "+"%char) then Zpos (text_pos s) else Zneg (text_pos s)
  end.
Definition opt_text (o : option string) : string :=
  match o with None => EmptyString | Some s => String "s" s end.
Definition text_opt (s : string) : option string :=
  match s with EmptyString => None | String _ s => Some s end.

Lemma text_z_text z : text_z (z_text z) = z.
Proof.
  assert (H : forall p, text_pos (pos_text p) = p).
  { induction p as [p IH|p IH|]; cbn [pos_text text_pos]; [rewrite bool_decide_false by done|rewrite bool_decide_true by done|done];
      by rewrite IH. }
  destruct z as [|p|p]; cbn [z_text text_z]; [done|rewrite bool_decide_true by done|rewrite bool_decide_false by done]; by rewrite H.
Qed.
Lemma text_opt_text o : text_opt (opt_text o) = o.
Proof. by destruct o. Qed.
Lemma optz_text (o : option Z) : text_z <$> text_opt (opt_text (z_text <$> o)) = o.
Proof. destruct o as [z|]; [|done]. cbn. by rewrite text_z_text. Qed.

Definition decision_text (d : AuditDecision) : string :=
  match d with AuditAllow => EmptyString | AuditDeny r => String "d" r | AuditRequireApproval => "r" end.
Definition text_decision (s : string) : AuditDecision :=
  match s with
  | EmptyString => AuditAllow
  | String a s => if bool_decide (a = "d"%char) then AuditDeny s else AuditRequireApproval
  end.

Definition kind_texts (k : EventKind unit) : list string :=
  match k with
  | ToolInvocation => ["t"; EmptyString; EmptyString; EmptyString]
  | AuditRotationHandoff n => ["h"; n; EmptyString; EmptyString]
  | AuditTipAnchored r c p n =>
      [match r with Adopted => "a" | RollbackAcknowledged => "r" | BindingChanged => "b" end;
       z_text c; opt_text p; opt_text (z_text <$> n)]
  | OtherEvent _ => ["o"; EmptyString; EmptyString; EmptyString]
  end.
Definition texts_kind (tag a b c : string) : EventKind unit :=
  match tag with
  | "t" => ToolInvocation
  | "h" => AuditRotationHandoff a
  | "a" => AuditTipAnchored Adopted (text_z a) (text_opt b) (text_z <$> text_opt c)
  | "r" => AuditTipAnchored RollbackAcknowledged (text_z a) (text_opt b) (text_z <$> text_opt c)
  | "b" => AuditTipAnchored BindingChanged (text_z a) (text_opt b) (text_z <$> text_opt c)
  | _ => OtherEvent ()
  end.

Definition entry_texts (e : AuditEntry unit) : list string :=
  [ae_ts e; ae_tool e; opt_text (ae_chain_id e); opt_text (z_text <$> ae_arg_keys_truncated e);
   if ae_truncated e then "t" else EmptyString; opt_text (ae_envelope_hash e); opt_text (ae_nonce_id e);
   decision_text (ae_policy_decision e); opt_text (ae_decision_reason e); ae_request_id e;
   ae_previous_entry_hash e] ++ kind_texts (ae_event_kind e) ++ ae_arg_keys e.
Definition texts_entry (l : list string) : option (AuditEntry unit) :=
  match l with
  | ts :: tool :: chain :: dropped :: trunc :: env :: nonce :: dec :: reason :: req :: prev :: k :: a :: b :: c :: keys =>
      Some (MkEntry ts tool (text_opt chain) keys (text_z <$> text_opt dropped) (negb (is_empty trunc))
              (text_opt env) (text_opt nonce) (text_decision dec) (text_opt reason) req (texts_kind k a b c) prev)
  | _ => None
  end.

Lemma texts_entry_texts e : texts_entry (entry_texts e) = Some e.
Proof.
  destruct e as [ts tool chain keys dropped trunc env nonce dec reason req kind prev].
  unfold entry_texts. cbn [ae_ts ae_tool ae_chain_id ae_arg_keys ae_arg_keys_truncated ae_truncated ae_envelope_hash
    ae_nonce_id ae_policy_decision ae_decision_reason ae_request_id ae_event_kind ae_previous_entry_hash].
  assert (Hk : exists k a b c, kind_texts kind = [k; a; b; c] /\ texts_kind k a b c = kind).
  { destruct kind as [|n|r c p n|[]]; (eexists _, _, _, _; split; [reflexivity|]); cbn; [done|done| |done].
    destruct r; cbn; by rewrite text_z_text, text_opt_text, optz_text. }
  destruct Hk as (k & a & b & c & -> & Hk). cbn [app texts_entry].
  rewrite optz_text, !text_opt_text, Hk. by destruct trunc, dec.
Qed.

(** ** The line of an entry *)

Definition unhex (s : string) : option string :=
  (fun bs => String.string_of_list_ascii ((fun b => Ascii.ascii_of_N (Z.to_N b)) <$> bs)) <$> decode_to_slice s.
Definition hex (s : string) : string := encode (as_bytes s).

Lemma as_bytes_ok s : bytes_ok (as_bytes s).
Proof.
  apply Forall_fmap, Forall_forall. intros a _. cbn. unfold in_range. change (lo u8) with 0. change (hi u8) with 255.
  unfold byte_val. pose proof (Ascii.N_ascii_bounded a). lia.
Qed.

Lemma unhex_hex s : unhex (hex s) = Some s.
Proof.
  unfold unhex, hex. rewrite decode_to_slice_encode by apply as_bytes_ok. cbn. f_equal.
  unfold as_bytes. rewrite <- (String.string_of_list_ascii_of_string s) at 2. f_equal.
  induction (String.list_ascii_of_string s) as [|a l IH]; [done|]. cbn. rewrite IH. f_equal.
  unfold byte_val. by rewrite N2Z.id, Ascii.ascii_N_embedding.
Qed.

Definition body_text (l : list string) : string := foldr (fun f s => hex f +:+ String "," s) "}" l.
Definition entry_line (e : AuditEntry unit) : string := String "{" (body_text (entry_texts e)).
Definition line_value (s : string) : result string (AuditEntry unit) :=
  match s with
  | String _ body =>
      match mapM unhex (removelast (split "," body)) ≫= texts_entry with
      | Some e => if bool_decide (entry_line e = s) then Ok e else Err "not an entry"
      | None => Err "not an entry"
      end
  | EmptyString => Err "not an entry"
  end.

#[export] Instance demo_json : AuditJson unit := {|
  to_vec := entry_line; from_slice := line_value; json_value s := is_ok (line_value s);
|}.
#[export] Instance demo_utf8_error : Utf8Error := {| utf8_error _ := "invalid utf-8 sequence" |}.

(** A hash that is quick to evaluate, with the digest of the zero block. *)
Definition zero_digest : list Z := match decode_hash ZERO_BLOCK_HASH with Ok b => b | Err _ => [] end.
Definition mix (seed : Z) (x : list Z) : Z := foldl (fun a b => (a * 257 + b) mod 18446744073709551557) seed x.
#[export] Instance quick_sha2 : Sha2 := {|
  sha256 x := if bool_decide (x = replicate 32 0) then zero_digest else be_bytes 32 (mix 7 x);
  hmac_sha256 k x := be_bytes 32 (mix (mix 11 k) x);
|}.
Lemma zero_digest_ok : length zero_digest = 32%nat /\ bytes_ok zero_digest.
Proof.
  assert (H : decode_hash ZERO_BLOCK_HASH = Ok zero_digest) by (vm_compute; reflexivity).
  split; [by apply decode_hash_inv in H as [_ ?]|].
  assert (Hb : forallb (fun b => (0 <=? b) && (b <=? 255)) zero_digest = true) by (vm_compute; reflexivity).
  apply Forall_forall. intros b Hin%list_elem_of_In. rewrite forallb_forall in Hb. specialize (Hb b Hin).
  unfold in_range. change (lo u8) with 0. change (hi u8) with 255. lia.
Qed.
#[export] Instance quick_sha2_laws : Sha2Laws.
Proof.
  split; cbn [sha256 hmac_sha256 quick_sha2]; intros; [destruct (bool_decide _)| |destruct (bool_decide _)|];
    first [apply zero_digest_ok|apply be_bytes_length|apply be_bytes_ok].
Qed.
#[export] Instance quick_zero_block : ZeroBlock.
Proof. split. vm_compute. reflexivity. Qed.

Lemma hex_plain s : str_all is_lower_hex (hex s) = true.
Proof. apply (decode_to_slice_inv (hex s) (as_bytes s)), decode_to_slice_encode, as_bytes_ok. Qed.

Lemma hex_no c s : is_lower_hex c = false -> contains c (hex s) = false.
Proof.
  intros Hc. rewrite contains_false. eapply str_all_impl; [|apply hex_plain]. intros a Ha.
  apply negb_true_iff, bool_decide_eq_false. intros ->. congruence.
Qed.

Lemma split_body l : split "," (body_text l) = (hex <$> l) ++ ["}"].
Proof. induction l as [|f l IH]; [done|]. cbn [body_text foldr]. fold (body_text l). rewrite split_at_char by (by apply hex_no). by rewrite IH. Qed.

Lemma line_value_line e : line_value (entry_line e) = Ok e.
Proof.
  unfold line_value, entry_line at 1. rewrite split_body, removelast_last.
  assert (Hm : forall l, mapM unhex (hex <$> l) = Some l).
  { induction l as [|f l IH]; [done|]. cbn. rewrite unhex_hex. cbn. by rewrite IH. }
  rewrite Hm. cbn [mbind option_bind]. rewrite texts_entry_texts. by rewrite bool_decide_true.
Qed.

Lemma line_value_Ok s e : line_value s = Ok e -> s = entry_line e.
Proof.
  unfold line_value. destruct s as [|a s]; [done|]. destruct (_ ≫= _); [|done].
  destruct (bool_decide _) eqn:Hb; [|done]. intros [= <-]. by apply bool_decide_eq_true in Hb.
Qed.

Definition line_byte (a : ascii) : bool := is_lower_hex a || bool_decide (a = ","%char).

Lemma body_parts l : exists t, body_text l = t +:+ "}" /\ str_all line_byte t = true.
Proof.
  induction l as [|f l (t & IH & Ht)]; [by exists EmptyString|]. exists (hex f +:+ String "," t).
  cbn [body_text foldr]. fold (body_text l). rewrite IH. split; [by rewrite <- str_app_assoc|].
  rewrite str_all_app. cbn [str_all]. change (line_byte ",") with true. rewrite Ht, andb_true_r.
  eapply str_all_impl; [|apply hex_plain]. intros a Ha. unfold line_byte. by rewrite Ha.
Qed.

Lemma entry_line_parts e : exists t, entry_line e = "{" +:+ t +:+ "}" /\ str_all line_byte t = true.
Proof. destruct (body_parts (entry_texts e)) as (t & Ht & Hb). exists t. unfold entry_line. by rewrite Ht. Qed.

Lemma line_byte_ascii a : line_byte a = true -> 44 <= byte_val a <= 102.
Proof.
  unfold line_byte, is_lower_hex, byte_in. rewrite !orb_true_iff. intros [[H|H]|H%bool_decide_eq_true]; [lia|lia|].
  subst. by vm_compute.
Qed.

Lemma closing_unique t t' u :
  str_all line_byte t = true -> str_all line_byte t' = true -> t +:+ "}" +:+ u = t' +:+ "}" -> u = EmptyString /\ t = t'.
Proof.
  revert t'. induction t as [|a t IH]; intros t' Ht Ht' H.
  - destruct t' as [|b t']; [by injection H|]. injection H as <- H. by cbn in Ht'.
  - destruct t' as [|b t']; [injection H as -> H; by cbn in Ht|]. injection H as <- H.
    cbn in Ht, Ht'. apply andb_true_iff in Ht as [_ Ht]. apply andb_true_iff in Ht' as [_ Ht'].
    destruct (IH t' Ht Ht' H) as [-> ->]. done.
Qed.

#[export] Instance demo_json_laws : AuditJsonLaws unit.
Proof.
  split; cbn [to_vec from_slice demo_json].
  - apply line_value_line.
  - intros e. destruct (entry_line_parts e) as (t & Ht & _). by exists t.
  - intros e. destruct (entry_line_parts e) as (t & -> & Hb). rewrite !str_all_app. cbn [str_all].
    rewrite (str_all_impl line_byte _ t); [done| |done]. intros a Ha%line_byte_ascii. unfold json_byte. lia.
  - intros e. destruct (entry_line_parts e) as (t & -> & Hb). apply utf8_ascii. rewrite !str_all_app. cbn [str_all].
    rewrite (str_all_impl line_byte _ t); [done| |done]. intros a Ha%line_byte_ascii. lia.
  - intros s e ->%line_value_Ok. done.
  - intros s t e e' ->%line_value_Ok H'%line_value_Ok.
    destruct (entry_line_parts e) as (x & Hx & Hb). destruct (entry_line_parts e') as (y & Hy & Hb').
    assert (He : t = EmptyString /\ x = y).
    { apply (closing_unique x y t Hb Hb'). rewrite Hx, Hy in H'. rewrite <- !str_app_assoc in H'. by injection H'. }
    destruct He as [-> ->]. split; [|done].
    assert (Hl : entry_line e = entry_line e') by congruence. apply (f_equal line_value) in Hl.
    rewrite !line_value_line in Hl. by injection Hl.
Qed.

(** ** Runs *)

Definition pad2 (n : nat) : string := (if (n <? 10)%nat then "0" else EmptyString) +:+ show_Z (Z.of_nat n).
Definition demo_clock (k : nat) : string := "2026-01-01T00:00:" +:+ pad2 k +:+ ".000Z".
Definition demo_uuid (k : nat) : string := "r" +:+ show_Z (Z.of_nat k).
Definition demo_key : list Z := replicate 32 7.
Definition demo_stem : string := "default.jsonl".
Definition demo_entry (n : nat) : AuditEntry unit :=
  MkEntry (demo_clock n) "pay" None ["to"] None false None None AuditAllow None
    (demo_uuid n) ToolInvocation EmptyString.
Definition empty_world : World := MkWorld ∅ ∅ 0 None 0 0 0 0 [].

Definition demo_write (threshold : Z) (e : AuditEntry unit) (s : State) : result WriterError unit * State :=
  write_entry demo_stem demo_clock demo_uuid threshold e s.

(** The conditions of a write, decided. *)
Definition recordableb (e : AuditEntry unit) : bool :=
  is_ok (parse_audit_timestamp_ms (ae_ts e)) && negb (is_handoff e).
Definition rotation_clockb (threshold : Z) (s : State) : bool :=
  let rot := rotation_name demo_stem demo_clock (fst s) in
  implb (rotation_due threshold s)
    (is_ok (parse_audit_timestamp_ms (demo_clock (S (w_tick (fst s))))) && is_rotated_sibling demo_stem rot
     && forallb (fun n => String.leb n rot && negb (bool_decide (n = rot))) (rotated_names (dir_of (fst s)) demo_stem)).
Definition rotation_roomb (threshold : Z) (s : State) : bool :=
  implb (rotation_due threshold s) (count (rotated_names (dir_of (fst s)) demo_stem) <? MAX_ROTATED_FILES).

Fixpoint write_run (threshold : Z) (es : list (AuditEntry unit)) (s : State) : option State :=
  match es with
  | [] => Some s
  | e :: es' =>
      if recordableb e && rotation_clockb threshold s && rotation_roomb threshold s then
        match demo_write threshold e s with
        | (Ok _, s') => write_run threshold es' s'
        | (Err _, _) => None
        end
      else None
  end.

Definition demo_run (threshold : Z) (key : option (list Z)) (es : list (AuditEntry unit)) : option State :=
  match audit_open (E:=unit) demo_stem demo_clock demo_uuid threshold key (empty_world, fresh_writer 0 None false) with
  | (Ok _, s) => write_run threshold es s
  | (Err _, _) => None
  end.

Lemma recordableb_spec e : recordableb e = true -> recordable e.
Proof. unfold recordableb. rewrite andb_true_iff, negb_true_iff. by intros [H1 H2]. Qed.
Lemma rotation_clockb_spec t s : rotation_clockb t s = true -> rotation_clock demo_stem demo_clock t s.
Proof.
  unfold rotation_clockb, rotation_clock. intros H Hd. rewrite Hd in H. cbn [implb] in H.
  rewrite !andb_true_iff in H. destruct H as [[H1 H2] H3]. split; [done|]. split; [done|].
  apply Forall_forall. intros n Hn. rewrite forallb_forall in H3. apply list_elem_of_In in Hn. specialize (H3 n Hn).
  rewrite andb_true_iff, negb_true_iff, bool_decide_eq_false in H3. done.
Qed.
Lemma rotation_roomb_spec t s : rotation_roomb t s = true -> rotation_room demo_stem t s.
Proof. unfold rotation_roomb, rotation_room. intros H Hd. rewrite Hd in H. cbn [implb] in H. lia. Qed.

Lemma write_run_logged t key es s w s' :
  logged demo_stem demo_clock demo_uuid t key s w -> write_run t es s = Some s' ->
  logged demo_stem demo_clock demo_uuid t key s' (w ++ es).
Proof.
  revert s w. induction es as [|e es IH]; intros s w Hl; cbn [write_run]; [intros [= <-]; by rewrite app_nil_r|].
  destruct (_ && _) eqn:Hc; [|done]. rewrite !andb_true_iff in Hc. destruct Hc as [[H1 H2] H3].
  destruct (demo_write t e s) as [[[]|err] s1] eqn:Hw; [|done]. intros Hr.
  change (e :: es) with ([e] ++ es). rewrite app_assoc. apply (IH s1); [|done].
  eapply logged_write; eauto using recordableb_spec, rotation_clockb_spec, rotation_roomb_spec.
Qed.

Lemma demo_run_logged t key es s :
  demo_run t key es = Some s -> logged demo_stem demo_clock demo_uuid t key s es.
Proof.
  unfold demo_run. destruct (audit_open _ _ _ _ _ _) as [[[]|err] s0] eqn:Ho; [|done].
  apply (write_run_logged t key es s0 []). by eapply (logged_open _ _ _ _ _ empty_world).
Qed.

(** The state at the end of a run that succeeds. *)
Definition the_state (o : option State) : State := default (empty_world, fresh_writer 0 None false) o.
Definition two_files : State := Eval vm_compute in the_state (demo_run 1 (Some demo_key) [demo_entry 1; demo_entry 2]).
Definition ten_archives : State := Eval vm_compute in the_state (demo_run 1 (Some demo_key) (demo_entry <$> seq 1 11)).

Lemma two_files_logged :
  logged demo_stem demo_clock demo_uuid 1 (Some demo_key) two_files [demo_entry 1; demo_entry 2].
Proof. apply demo_run_logged. vm_cast_no_check (eq_refl (Some two_files)). Qed.
Lemma ten_archives_logged :
  logged demo_stem demo_clock demo_uuid 1 (Some demo_key) ten_archives (demo_entry <$> seq 1 11).
Proof. apply demo_run_logged. vm_cast_no_check (eq_refl (Some ten_archives)). Qed.

(** A second and third file are started; the third entry makes the log rotate. *)
Lemma written_log_verifies_witness :
  exists s' r tip, demo_write 1 (demo_entry 3) two_files = (Ok (), s') /\
    let d := dir_of (fst s') in
    verify_log_with_health (E:=unit) d demo_stem (Some demo_key) (Some (anchor_of tip)) false = Ok (r, false) /\
    vo_active_tip r = Some tip /\ vo_entries_verified r = count (log_entries (E:=unit) d demo_stem) /\
    (is_Some (Some demo_key) -> w_keyring (fst s') = Some (to_keyring_value (anchor_of tip))) /\
    Forall2 on_disk (records (log_entries d demo_stem)) ([demo_entry 1; demo_entry 2] ++ [demo_entry 3]).
Proof.
  apply (written_log_verifies demo_stem demo_clock demo_uuid 1 (Some demo_key) two_files [demo_entry 1; demo_entry 2]).
  - lia.
  - apply two_files_logged.
  - by apply recordableb_spec.
  - apply rotation_clockb_spec. vm_compute. reflexivity.
  - apply rotation_roomb_spec. vm_compute. reflexivity.
Defined.

(** The entry after ten archives. *)
Lemma pruned_log_fails_verification_witness :
  exists s' name, demo_write 1 (demo_entry 12) ten_archives = (Ok (), s') /\
    (verify_log (E:=unit) (still (dir_of (fst s'))) demo_stem (Some demo_key)
     = Err (ChainBroken 1 name "previous_entry_hash_mismatch") \/
     collision_among (hash_inputs (log_entries (E:=unit) (dir_of (fst ten_archives)) demo_stem))).
Proof.
  apply (pruned_log_fails_verification demo_stem demo_clock demo_uuid 1 (Some demo_key) ten_archives (demo_entry <$> seq 1 11)).
  - lia.
  - apply ten_archives_logged.
  - by apply recordableb_spec.
  - apply rotation_clockb_spec. vm_compute. reflexivity.
  - vm_compute. reflexivity.
  - vm_compute. reflexivity.
Defined.

(** The verdict on a directory, and the tip of its active file. *)
Definition verdict (d : gmap string DirNode) (key : option (list Z)) : VerifyOk :=
  match verify_log (E:=unit) (still d) demo_stem key with
  | Ok r => r
  | Err _ => MkVerifyOk 0 0 [] [] false None
  end.
Definition tip_of (r : VerifyOk) : VerifiedTip := default (MkTip 0 EmptyString 0) (vo_active_tip r).
Definition two_entries : State := Eval vm_compute in
  the_state (demo_run ROTATION_THRESHOLD_BYTES (Some demo_key) (demo_entry <$> seq 1 2)).
Definition three_entries : State := Eval vm_compute in
  the_state (demo_run ROTATION_THRESHOLD_BYTES (Some demo_key) (demo_entry <$> seq 1 3)).

(** One log, verified with the key and without. *)
Lemma audit_tip_determines_log_witness :
  let d := dir_of (fst two_files) in
  log_entries (E:=unit) d demo_stem = log_entries d demo_stem \/
  collision_among (hash_inputs (log_entries (E:=unit) d demo_stem ++ log_entries d demo_stem)).
Proof.
  intros d.
  apply (audit_tip_determines_log d d demo_stem demo_stem (Some demo_key) None (verdict d (Some demo_key)) (verdict d None)
    (tip_of (verdict d (Some demo_key))) (tip_of (verdict d None))); vm_compute; reflexivity.
Defined.

(** A log of two entries, and the same log an entry later. *)
Lemma anchored_log_only_grows_witness :
  let d := dir_of (fst two_entries) in let d' := dir_of (fst three_entries) in
  log_entries (E:=unit) d demo_stem `prefix_of` log_entries d' demo_stem \/
  collision_among (hash_inputs (log_entries (E:=unit) d demo_stem ++ log_entries d' demo_stem)).
Proof.
  intros d d'.
  apply (anchored_log_only_grows d d' demo_stem (Some demo_key) (Some demo_key) (verdict d (Some demo_key))
    (verdict d' (Some demo_key)) (tip_of (verdict d (Some demo_key)))); vm_compute; reflexivity.
Defined.
