(* ===== verification/Receipts.v ===== *)
(** * Submission receipts (stellar-agent-core, [profile/receipt.rs])

    One file per profile records what happened to every envelope handed to the
    network.  Each call reads the file again, under a lock when it writes, changes
    one receipt and replaces the file.  The model keeps the file's text; the calls of
    the system are answered by an environment, and the rewriting of the file can
    fail before or after the rename.  Paths inside errors are left out. *)

From S2P Require Import Prelude RustStr PolicyTypes.
From stdpp Require Import options.

Local Open Scope string_scope.
Local Open Scope list_scope.
Local Open Scope Z_scope.

(** ** Receipts *)

Inductive ReceiptStatus :=
| RsPending | RsSuccess | RsFailed (code : string) | RsAmbiguous | RsReorged | RsClearedByOperator.

Global Instance ReceiptStatus_eq_dec : EqDecision ReceiptStatus.
Proof. solve_decision. Defined.

Definition is_terminal (s : ReceiptStatus) : bool :=
  match s with RsPending => false | _ => true end.
Definition is_definitive_outcome (s : ReceiptStatus) : bool :=
  match s with RsSuccess | RsFailed _ => true | _ => false end.
Definition is_operator_clearable (s : ReceiptStatus) : bool :=
  match s with RsPending | RsAmbiguous => true | _ => false end.

Definition status_label (s : ReceiptStatus) : string :=
  match s with
  | RsPending => "pending"
  | RsSuccess => "success"
  | RsFailed _ => "failed"
  | RsAmbiguous => "ambiguous"
  | RsReorged => "reorged"
  | RsClearedByOperator => "cleared_by_operator"
  end.

Inductive ReleaseEvidence := SequenceConsumed | TimeBoundPassed.

Global Instance ReleaseEvidence_eq_dec : EqDecision ReleaseEvidence.
Proof. solve_decision. Defined.

Definition SEQUENCE_CONSUMED_CODE : string := "submission.sequence_consumed".
Definition TIME_BOUND_PASSED_CODE : string := "submission.time_bound_passed".
Definition evidence_code (e : ReleaseEvidence) : string :=
  match e with SequenceConsumed => SEQUENCE_CONSUMED_CODE | TimeBoundPassed => TIME_BOUND_PASSED_CODE end.

Inductive SettledRow := RowSubmitted | RowFailed (code : string).
Definition settled_row (s : ReceiptStatus) (release_code : option ReleaseEvidence) : option SettledRow :=
  match s, release_code with
  | RsSuccess, _ => Some RowSubmitted
  | RsFailed code, _ => Some (RowFailed code)
  | RsAmbiguous, Some evidence => Some (RowFailed (evidence_code evidence))
  | _, _ => None
  end.

Record SubmissionReceipt := MkReceipt {
  sr_envelope_hash : string;
  sr_tx_hash : string;
  sr_source : string;
  sr_sequence : Z;
  sr_status : ReceiptStatus;
  sr_ledger : option Z;
  sr_recorded_at_ledger : Z;
  sr_max_time : Z;
  sr_prior_ledger : option Z;
  sr_reorg_pending_at_ledger : option Z;
  sr_submitted : bool;
  sr_approval_nonce : option string;
  sr_approval_consumed : bool;
  sr_recovered_from_reservation : bool;
  sr_release_code : option ReleaseEvidence;
}.

(** Field updates. *)
Definition with_status (s : ReceiptStatus) (ledger : option Z) (r : SubmissionReceipt) : SubmissionReceipt :=
  MkReceipt (sr_envelope_hash r) (sr_tx_hash r) (sr_source r) (sr_sequence r) s ledger
    (sr_recorded_at_ledger r) (sr_max_time r) (sr_prior_ledger r) (sr_reorg_pending_at_ledger r)
    (sr_submitted r) (sr_approval_nonce r) (sr_approval_consumed r) (sr_recovered_from_reservation r)
    (sr_release_code r).
Definition with_release (e : option ReleaseEvidence) (r : SubmissionReceipt) : SubmissionReceipt :=
  MkReceipt (sr_envelope_hash r) (sr_tx_hash r) (sr_source r) (sr_sequence r) (sr_status r) (sr_ledger r)
    (sr_recorded_at_ledger r) (sr_max_time r) (sr_prior_ledger r) (sr_reorg_pending_at_ledger r)
    (sr_submitted r) (sr_approval_nonce r) (sr_approval_consumed r) (sr_recovered_from_reservation r) e.
Definition with_approval (nonce : option string) (consumed : bool) (r : SubmissionReceipt) : SubmissionReceipt :=
  MkReceipt (sr_envelope_hash r) (sr_tx_hash r) (sr_source r) (sr_sequence r) (sr_status r) (sr_ledger r)
    (sr_recorded_at_ledger r) (sr_max_time r) (sr_prior_ledger r) (sr_reorg_pending_at_ledger r)
    (sr_submitted r) nonce consumed (sr_recovered_from_reservation r) (sr_release_code r).
Definition with_submitted (r : SubmissionReceipt) : SubmissionReceipt :=
  MkReceipt (sr_envelope_hash r) (sr_tx_hash r) (sr_source r) (sr_sequence r) (sr_status r) (sr_ledger r)
    (sr_recorded_at_ledger r) (sr_max_time r) (sr_prior_ledger r) (sr_reorg_pending_at_ledger r)
    true (sr_approval_nonce r) (sr_approval_consumed r) (sr_recovered_from_reservation r) (sr_release_code r).
Definition with_reorg (prior pending : option Z) (r : SubmissionReceipt) : SubmissionReceipt :=
  MkReceipt (sr_envelope_hash r) (sr_tx_hash r) (sr_source r) (sr_sequence r) (sr_status r) (sr_ledger r)
    (sr_recorded_at_ledger r) (sr_max_time r) prior pending
    (sr_submitted r) (sr_approval_nonce r) (sr_approval_consumed r) (sr_recovered_from_reservation r)
    (sr_release_code r).

Inductive BeginOutcome := Winner | BoAlreadyPresent (r : SubmissionReceipt).
Inductive BeginSubmissionOutcome :=
| Recorded
| AlreadyPresent (r : SubmissionReceipt)
| DuplicateSequence (r : SubmissionReceipt)
| DuplicateApproval (r : SubmissionReceipt).

Inductive ReceiptStoreError :=
| RIo (kind : IoErrorKind)
| RJson (detail : string)
| MutexPoisoned
| RWriterLocked
| InvalidTransition (from to : string).

Definition RECEIPT_LOCK_ATTEMPTS : nat := 5.

(** ** Sessions *)

Abbreviation Receipts := (gmap string SubmissionReceipt) (only parsing).

(** [serde_json] of the map of receipts. *)
Class ReceiptJson (Text : Type) := {
  receipts_to_json : Receipts -> Text;
  receipts_from_json : Text -> result string Receipts;
}.
Class ReceiptJsonLaws (Text : Type) `{!ReceiptJson Text} := {
  receipts_from_to m : receipts_from_json (receipts_to_json m) = Ok m;
}.

Inductive LockAnswer := LaFree | LaHeld | LaFails (kind : IoErrorKind).

(** What the system answers to one session. *)
Record SessionEnv := MkSession {
  se_poisoned : bool;
  se_create_dir : option IoErrorKind;
  se_lock : nat -> LockAnswer;
  se_read : option IoErrorKind;
}.

(** Where the rewriting of the file stops; [true]: after the rename. *)
Definition PersistFault : Type := option (bool * IoErrorKind).

(** The lock is tried [left] times more when it is held. *)
Fixpoint acquire_with_retry (left attempt : nat) (answers : nat -> LockAnswer) : result ReceiptStoreError unit :=
  match answers attempt with
  | LaFree => Ok ()
  | LaFails kind => Err (RIo kind)
  | LaHeld => match left with
              | O => Err RWriterLocked
              | S left' => acquire_with_retry left' (S attempt) answers
              end
  end.

Record Indexes := MkIndexes {
  by_tx_hash : gmap string string;
  by_source_sequence : gmap (string * Z) string;
}.

Definition is_pending (m : Receipts) (envelope_hash : string) : bool :=
  match m !! envelope_hash with Some r => bool_decide (sr_status r = RsPending) | None => false end.

(** One receipt, in the order of the envelope hashes. *)
Definition index_receipt (m : Receipts) (ix : Indexes) (envelope_hash : string) : Indexes :=
  match m !! envelope_hash with
  | None => ix
  | Some r =>
      let tx :=
        if is_empty (sr_tx_hash r) then by_tx_hash ix
        else if match by_tx_hash ix !! sr_tx_hash r with Some held => is_pending m held | None => false end
        then by_tx_hash ix
        else <[sr_tx_hash r := envelope_hash]> (by_tx_hash ix) in
      let pairs :=
        if negb (is_empty (sr_source r)) && bool_decide (sr_status r = RsPending)
        then <[(sr_source r, sr_sequence r) := envelope_hash]> (by_source_sequence ix)
        else by_source_sequence ix in
      MkIndexes tx pairs
  end.

Definition rebuild_indexes (m : Receipts) : Indexes :=
  foldl (index_receipt m) (MkIndexes ∅ ∅) (sort_strings (fst <$> map_to_list m)).

Definition find_pending_for_pair (m : Receipts) (source : string) (sequence : Z) : option SubmissionReceipt :=
  if is_empty source then None
  else
    envelope_hash ← by_source_sequence (rebuild_indexes m) !! (source, sequence);
    r ← m !! envelope_hash;
    if bool_decide (sr_status r = RsPending) then Some r else None.

Section store.
Context {Text : Type} `{!ReceiptJson Text}.

Definition Run (A : Type) : Type := result ReceiptStoreError A * option Text.

Definition read_map (env : SessionEnv) (file : option Text) : result ReceiptStoreError Receipts :=
  match se_read env with
  | Some kind => Err (RIo kind)
  | None => match file with
            | None => Ok ∅
            | Some raw => map_err RJson (receipts_from_json raw)
            end
  end.

Definition read_session (env : SessionEnv) (file : option Text) : result ReceiptStoreError Receipts :=
  if se_poisoned env then Err MutexPoisoned else read_map env file.

Definition write_session (env : SessionEnv) (file : option Text) : result ReceiptStoreError Receipts :=
  if se_poisoned env then Err MutexPoisoned
  else
    _ ← match se_create_dir env with Some kind => Err (RIo kind) | None => Ok () end;
    _ ← acquire_with_retry (RECEIPT_LOCK_ATTEMPTS - 1) 0 (se_lock env);
    read_map env file.

Definition persist_locked (fault : PersistFault) (m : Receipts) (file : option Text) : Run unit :=
  match fault with
  | None => (Ok (), Some (receipts_to_json m))
  | Some (true, kind) => (Err (RIo kind), Some (receipts_to_json m))
  | Some (false, kind) => (Err (RIo kind), file)
  end.

(** A session that may change the map, and writes it when it does. *)
Definition session {A} (env : SessionEnv) (fault : PersistFault)
    (body : Receipts -> result ReceiptStoreError (A * option Receipts)) (file : option Text) : Run A :=
  match write_session env file with
  | Err e => (Err e, file)
  | Ok m =>
      match body m with
      | Err e => (Err e, file)
      | Ok (a, None) => (Ok a, file)
      | Ok (a, Some m') =>
          match persist_locked fault m' file with
          | (Ok _, file') => (Ok a, file')
          | (Err e, file') => (Err e, file')
          end
      end
  end.

(** ** Reading *)

Definition open_at (env : SessionEnv) (file : option Text) : result ReceiptStoreError (Receipts * Indexes) :=
  _ ← match se_create_dir env with Some kind => Err (RIo kind) | None => Ok () end;
  m ← read_map env file; Ok (m, rebuild_indexes m).

Definition get_receipt (env : SessionEnv) (envelope_hash : string) (file : option Text)
  : result ReceiptStoreError (option SubmissionReceipt) :=
  m ← read_session env file; Ok (m !! envelope_hash).

Definition find_by_tx_hash (env : SessionEnv) (tx_hash : string) (file : option Text)
  : result ReceiptStoreError (option SubmissionReceipt) :=
  m ← read_session env file; Ok (by_tx_hash (rebuild_indexes m) !! tx_hash ≫= fun h => m !! h).

Definition find_pending_by_source_sequence (env : SessionEnv) (source : string) (sequence : Z) (file : option Text)
  : result ReceiptStoreError (option SubmissionReceipt) :=
  m ← read_session env file; Ok (find_pending_for_pair m source sequence).

Definition all_receipts (env : SessionEnv) (file : option Text) : result ReceiptStoreError (list SubmissionReceipt) :=
  m ← read_session env file; Ok (snd <$> map_to_list m).

Definition carries_nonce (nonce : string) (r : SubmissionReceipt) : bool :=
  bool_decide (sr_approval_nonce r = Some nonce).

Definition find_by_approval_nonce (env : SessionEnv) (nonce : string) (file : option Text)
  : result ReceiptStoreError (option SubmissionReceipt) :=
  l ← all_receipts env file; Ok (List.find (carries_nonce nonce) l).

(** ** Beginning a submission *)

Definition pending_receipt (envelope_hash tx_hash source : string) (sequence max_time recorded_at_ledger : Z)
    (approval_nonce : option string) : SubmissionReceipt :=
  MkReceipt envelope_hash tx_hash source sequence RsPending None recorded_at_ledger max_time None None false
    approval_nonce false false None.

Definition try_begin (env : SessionEnv) (fault : PersistFault) (envelope_hash tx_hash source : string)
    (sequence max_time recorded_at_ledger : Z) : option Text -> Run BeginOutcome :=
  session env fault (fun m =>
    match m !! envelope_hash with
    | Some existing => Ok (BoAlreadyPresent existing, None)
    | None => Ok (Winner, Some (<[envelope_hash :=
        pending_receipt envelope_hash tx_hash source sequence max_time recorded_at_ledger None]> m))
    end).

Definition recover_from_reservation (env : SessionEnv) (fault : PersistFault) (envelope_hash tx_hash source : string)
    (sequence max_time recorded_at_ledger : Z) : option Text -> Run SubmissionReceipt :=
  session env fault (fun m =>
    match m !! envelope_hash with
    | Some existing =>
        if negb (bool_decide (sr_tx_hash existing = tx_hash)) || negb (bool_decide (sr_source existing = source))
           || negb (sr_sequence existing =? sequence) || negb (sr_max_time existing =? max_time)
           || negb (sr_recorded_at_ledger existing =? recorded_at_ledger)
        then Err (InvalidTransition "conflicting identity" "recovered")
        else Ok (existing, None)
    | None =>
        let r := MkReceipt envelope_hash tx_hash source sequence RsAmbiguous None recorded_at_ledger max_time
                   None None true None false true None in
        Ok (r, Some (<[envelope_hash := r]> m))
    end).

Definition begin_submission_with_approval (env : SessionEnv) (fault : PersistFault)
    (envelope_hash tx_hash source : string) (sequence max_time recorded_at_ledger : Z)
    (approval_nonce : option string) : option Text -> Run BeginSubmissionOutcome :=
  session env fault (fun m =>
    match approval_nonce ≫= fun nonce => List.find (carries_nonce nonce) (snd <$> map_to_list m) with
    | Some existing => Ok (DuplicateApproval existing, None)
    | None =>
        match find_pending_for_pair m source sequence with
        | Some pending => Ok (DuplicateSequence pending, None)
        | None =>
            match m !! envelope_hash with
            | Some existing => Ok (AlreadyPresent existing, None)
            | None => Ok (Recorded, Some (<[envelope_hash :=
                pending_receipt envelope_hash tx_hash source sequence max_time recorded_at_ledger approval_nonce]> m))
            end
        end
    end).

Definition begin_submission (env : SessionEnv) (fault : PersistFault) (envelope_hash tx_hash source : string)
    (sequence max_time recorded_at_ledger : Z) : option Text -> Run BeginSubmissionOutcome :=
  begin_submission_with_approval env fault envelope_hash tx_hash source sequence max_time recorded_at_ledger None.

(** ** Settling *)

Definition check_transition (from to : ReceiptStatus) : result ReceiptStoreError unit :=
  if bool_decide (from = to) then Ok ()
  else
    let allowed :=
      if bool_decide (to = RsPending) then false
      else match from with
           | RsPending => true
           | RsAmbiguous | RsClearedByOperator => is_definitive_outcome to
           | RsSuccess | RsFailed _ | RsReorged => false
           end in
    if allowed then Ok () else Err (InvalidTransition (status_label from) (status_label to)).

Definition settle_receipt (s : ReceiptStatus) (ledger : option Z) (evidence : option ReleaseEvidence)
    (r : SubmissionReceipt) : SubmissionReceipt :=
  let r := with_status s ledger r in
  if negb (bool_decide (s = RsAmbiguous)) then with_release None r
  else match sr_release_code r with None => with_release evidence r | Some _ => r end.

Definition finalize_with_release (env : SessionEnv) (fault : PersistFault) (envelope_hash : string)
    (s : ReceiptStatus) (ledger : option Z) (evidence : option ReleaseEvidence) : option Text -> Run unit :=
  session env fault (fun m =>
    match m !! envelope_hash with
    | Some r =>
        _ ← check_transition (sr_status r) s;
        Ok ((), Some (<[envelope_hash := settle_receipt s ledger evidence r]> m))
    | None =>
        Ok ((), Some (<[envelope_hash := MkReceipt envelope_hash EmptyString EmptyString 0 s ledger 0 0 None None
                          true None false false evidence]> m))
    end).

Definition finalize (env : SessionEnv) (fault : PersistFault) (envelope_hash : string) (s : ReceiptStatus)
    (ledger : option Z) : option Text -> Run unit :=
  finalize_with_release env fault envelope_hash s ledger None.

Definition finalize_released (env : SessionEnv) (fault : PersistFault) (envelope_hash : string)
    (evidence : ReleaseEvidence) : option Text -> Run unit :=
  finalize_with_release env fault envelope_hash RsAmbiguous None (Some evidence).

Definition finalize_send_refusal (env : SessionEnv) (fault : PersistFault) (envelope_hash code : string)
  : option Text -> Run unit :=
  session env fault (fun m =>
    match m !! envelope_hash with
    | None => Err (InvalidTransition "absent" "failed")
    | Some r =>
        _ ← check_transition (sr_status r) (RsFailed code);
        Ok ((), Some (<[envelope_hash := with_approval None false (with_status (RsFailed code) None r)]> m))
    end).

Definition acknowledge_approval_consumption (env : SessionEnv) (fault : PersistFault) (envelope_hash : string)
  : option Text -> Run unit :=
  session env fault (fun m =>
    match m !! envelope_hash with
    | None => Err (InvalidTransition "absent" "approval_settled")
    | Some r => Ok ((), Some (<[envelope_hash := with_approval (sr_approval_nonce r) true r]> m))
    end).

Definition mark_approval_consumed := acknowledge_approval_consumption.

Definition clear_by_operator (env : SessionEnv) (fault : PersistFault) (envelope_hash : string)
  : option Text -> Run SubmissionReceipt :=
  session env fault (fun m =>
    match m !! envelope_hash with
    | None => Err (InvalidTransition "absent" (status_label RsClearedByOperator))
    | Some r =>
        if negb (is_operator_clearable (sr_status r))
        then Err (InvalidTransition (status_label (sr_status r)) (status_label RsClearedByOperator))
        else let cleared := with_status RsClearedByOperator None r in
             Ok (cleared, Some (<[envelope_hash := cleared]> m))
    end).

Definition finalize_reorged (env : SessionEnv) (fault : PersistFault) (envelope_hash : string)
  : option Text -> Run unit :=
  session env fault (fun m =>
    match m !! envelope_hash with
    | Some r =>
        if bool_decide (sr_status r = RsSuccess)
        then Ok ((), Some (<[envelope_hash :=
               with_status RsReorged None (with_reorg (sr_ledger r) (sr_reorg_pending_at_ledger r) r)]> m))
        else Ok ((), None)
    | None => Ok ((), None)
    end).

Definition mark_submitted (env : SessionEnv) (fault : PersistFault) (envelope_hash : string)
  : option Text -> Run unit :=
  session env fault (fun m =>
    match m !! envelope_hash with
    | Some r => if negb (sr_submitted r) then Ok ((), Some (<[envelope_hash := with_submitted r]> m)) else Ok ((), None)
    | None => Ok ((), None)
    end).

Definition abandon_pre_submit (env : SessionEnv) (fault : PersistFault) (envelope_hash : string)
  : option Text -> Run unit :=
  session env fault (fun m =>
    match m !! envelope_hash with
    | Some r =>
        if bool_decide (sr_status r = RsPending) && negb (sr_submitted r)
        then Ok ((), Some (delete envelope_hash m)) else Ok ((), None)
    | None => Ok ((), None)
    end).

Definition mark_reorg_pending (env : SessionEnv) (fault : PersistFault) (envelope_hash : string)
    (latest_ledger_at_first_miss : Z) : option Text -> Run unit :=
  session env fault (fun m =>
    match m !! envelope_hash with
    | Some r =>
        if bool_decide (sr_status r = RsSuccess) && negb (bool_decide (is_Some (sr_reorg_pending_at_ledger r)))
        then Ok ((), Some (<[envelope_hash :=
               with_reorg (sr_prior_ledger r) (Some latest_ledger_at_first_miss) r]> m))
        else Ok ((), None)
    | None => Ok ((), None)
    end).

Definition clear_reorg_pending (env : SessionEnv) (fault : PersistFault) (envelope_hash : string)
  : option Text -> Run unit :=
  session env fault (fun m =>
    match m !! envelope_hash with
    | Some r =>
        if bool_decide (sr_status r = RsSuccess) && bool_decide (is_Some (sr_reorg_pending_at_ledger r))
        then Ok ((), Some (<[envelope_hash := with_reorg (sr_prior_ledger r) None r]> m))
        else Ok ((), None)
    | None => Ok ((), None)
    end).

End store.
