(* ===== verification/ReceiptsProps.v ===== *)
(** * Properties of submission receipts

    Whatever calls are made, by however many processes, with the file's rewriting
    failing at any step: an outcome once written stays, and of the submissions begun
    with the checks of [begin_submission] at most one is open for an account and
    sequence number, and at most one exists for an approval. *)

From S2P Require Import Prelude RustStr PolicyTypes Receipts.
From stdpp Require Import options.

Local Open Scope string_scope.
Local Open Scope list_scope.
Local Open Scope Z_scope.
Set Default Proof Using "Type*".

(** ** What may become of a receipt *)

Definition later (s s' : ReceiptStatus) : bool :=
  bool_decide (s = s') ||
  match s with
  | RsPending => true
  | RsAmbiguous => match s' with RsSuccess | RsFailed _ | RsReorged | RsClearedByOperator => true | _ => false end
  | RsClearedByOperator => match s' with RsSuccess | RsFailed _ | RsReorged => true | _ => false end
  | RsSuccess => bool_decide (s' = RsReorged)
  | RsFailed _ | RsReorged => false
  end.

Lemma later_refl s : later s s = true.
Proof. unfold later. by rewrite bool_decide_true. Qed.

Lemma later_trans a b c : later a b = true -> later b c = true -> later a c = true.
Proof.
  unfold later. intros H1 H2. destruct (decide (a = b)) as [->|Hab]; [done|].
  destruct (decide (b = c)) as [->|Hbc]; [done|].
  rewrite !(bool_decide_false (a = b)) in H1 by done. rewrite (bool_decide_false (b = c)) in H2 by done.
  cbn [orb] in H1, H2. destruct a, b, c; by rewrite ?orb_true_r.
Qed.

Lemma transition_later a b : check_transition a b = Ok () -> later a b = true.
Proof.
  unfold check_transition, later. destruct (bool_decide (a = b)); [done|]. cbn [orb].
  destruct (bool_decide (b = RsPending)) eqn:Hb; [done|]. apply bool_decide_eq_false in Hb.
  by destruct a, b.
Qed.

(** The fields that say which submission it is. *)
Definition identity (r : SubmissionReceipt) : string * string * string * Z * Z * Z :=
  (sr_envelope_hash r, sr_tx_hash r, sr_source r, sr_sequence r, sr_max_time r, sr_recorded_at_ledger r).

Definition evolves (r r' : SubmissionReceipt) : Prop :=
  identity r' = identity r /\ later (sr_status r) (sr_status r') = true /\
  (sr_submitted r = true -> sr_submitted r' = true) /\
  (sr_approval_nonce r' = sr_approval_nonce r \/ sr_approval_nonce r' = None).

Lemma evolves_refl r : evolves r r.
Proof. repeat split; [apply later_refl|done|by left]. Qed.
Lemma evolves_trans a b c : evolves a b -> evolves b c -> evolves a c.
Proof.
  intros (H1 & H2 & H3 & H4) (K1 & K2 & K3 & K4). split; [congruence|]. split; [by eapply later_trans|].
  split; [auto|]. destruct K4 as [E1|E1]; rewrite E1; [done|by right].
Qed.

(** Only a receipt that is not marked as sent may vanish. *)
Definition unsent (r : SubmissionReceipt) : Prop := sr_status r = RsPending /\ sr_submitted r = false.

(** ** One call on the map *)

(** What a call does to the map, if anything: a new receipt, one that evolves, or
    the removal of one that is not marked as sent. *)
Inductive map_step (m : gmap string SubmissionReceipt) : gmap string SubmissionReceipt -> Prop :=
| step_new h r : m !! h = None ->
    (sr_status r = RsPending -> sr_source r <> EmptyString -> find_pending_for_pair m (sr_source r) (sr_sequence r) = None) ->
    (forall n, sr_approval_nonce r = Some n -> List.find (carries_nonce n) (snd <$> map_to_list m) = None) ->
    map_step m (<[h := r]> m)
| step_evolve h r r' : m !! h = Some r -> evolves r r' -> map_step m (<[h := r']> m)
| step_abandon h r : m !! h = Some r -> unsent r -> map_step m (delete h m).

Section runs.
Context {Text : Type} {RJ : ReceiptJson Text} {RL : ReceiptJsonLaws Text}.
Implicit Types (file : option Text) (m : gmap string SubmissionReceipt).

(** The receipts a file holds; [None]: it cannot be read. *)
Definition receipts_of file : option (gmap string SubmissionReceipt) :=
  match file with None => Some ∅ | Some t => ok (receipts_from_json t) end.

Lemma read_map_Ok env file m : read_map env file = Ok m -> receipts_of file = Some m.
Proof.
  unfold read_map. destruct (se_read env); [done|]. destruct file; [|by intros [= <-]].
  cbn. by destruct (receipts_from_json t); [intros [= <-]|].
Qed.

Lemma write_session_Ok env file m : write_session env file = Ok m -> receipts_of file = Some m.
Proof. unfold write_session. destruct (se_poisoned env); [done|]. intros H. res_inv. by eapply read_map_Ok. Qed.

Lemma get_receipt_Ok env h file r : get_receipt env h file = Ok r -> exists m, receipts_of file = Some m /\ m !! h = r.
Proof.
  unfold get_receipt, read_session. destruct (se_poisoned env); [done|]. intros H. res_inv.
  exists x. split; [by eapply read_map_Ok|done].
Qed.

Lemma session_effect {A} env fault (body : _ -> result ReceiptStoreError (A * _)) file :
  snd (session env fault body file) = file \/
  exists m a m', receipts_of file = Some m /\ body m = Ok (a, Some m') /\
    snd (session env fault body file) = Some (receipts_to_json m').
Proof.
  unfold session. destruct (write_session env file) as [m|e] eqn:Hw; [|by left]. apply write_session_Ok in Hw as Hm.
  destruct (body m) as [[a [m'|]]|e] eqn:Hb; [|by left|by left].
  unfold persist_locked. destruct fault as [[[] k]|]; cbn; [right|by left|right]; by exists m, a, m'.
Qed.

(** A session that succeeds has read the file, and written what it changed. *)
Lemma session_Ok {A} env fault (body : _ -> result ReceiptStoreError (A * _)) file a file' :
  session env fault body file = (Ok a, file') ->
  exists m, receipts_of file = Some m /\
    (body m = Ok (a, None) /\ file' = file \/ exists m', body m = Ok (a, Some m') /\ receipts_of file' = Some m').
Proof.
  unfold session. intros H. destruct (write_session env file) as [m|e] eqn:Hw; [|done]. apply write_session_Ok in Hw as Hm.
  exists m. split; [done|]. destruct (body m) as [[x [m'|]]|e] eqn:Hb; [|by injection H as <- <-; left|done].
  unfold persist_locked in H. destruct fault as [[[] k]|]; [done|done|]. injection H as <- <-. right. exists m'.
  split; [done|]. cbn. by rewrite receipts_from_to.
Qed.

(** The calls that write.  One begins a submission without looking for others that are
    open: it is labelled with the envelope it is about. *)
Inductive call : option string -> option Text -> option Text -> Prop :=
| c_try_begin env fault h t s q mt l file :
    call (Some h) file (snd (try_begin env fault h t s q mt l file))
| c_recover env fault h t s q mt l file :
    call None file (snd (recover_from_reservation env fault h t s q mt l file))
| c_begin env fault h t s q mt l n file :
    call None file (snd (begin_submission_with_approval env fault h t s q mt l n file))
| c_finalize env fault h s ledger e file :
    s <> RsPending -> call None file (snd (finalize_with_release env fault h s ledger e file))
| c_refusal env fault h code file : call None file (snd (finalize_send_refusal env fault h code file))
| c_consumed env fault h file : call None file (snd (mark_approval_consumed env fault h file))
| c_clear env fault h file : call None file (snd (clear_by_operator env fault h file))
| c_reorged env fault h file : call None file (snd (finalize_reorged env fault h file))
| c_submitted env fault h file : call None file (snd (mark_submitted env fault h file))
| c_abandon env fault h file : call None file (snd (abandon_pre_submit env fault h file))
| c_reorg_pending env fault h l file : call None file (snd (mark_reorg_pending env fault h l file))
| c_reorg_clear env fault h file : call None file (snd (clear_reorg_pending env fault h file)).

(** A sequence of calls, and the envelopes whose submission some of them may have begun without
    the checks. *)
Inductive calls : list string -> option Text -> option Text -> Prop :=
| calls_nil file : calls [] file file
| calls_cons o T file file1 file' : call o file file1 -> calls T file1 file' -> calls (option_list o ++ T) file file'.

(** What a call makes of the receipts. *)
Definition effect (o : option string) m m' : Prop :=
  m' = m \/ map_step m m' \/
  exists h r, o = Some h /\ m !! h = None /\ sr_approval_nonce r = None /\ m' = <[h := r]> m.

Lemma effect_intro o m m' : map_step m m' -> effect o m m'.
Proof. intros H. right. by left. Qed.

Lemma session_call {A} o env fault (body : _ -> result ReceiptStoreError (A * _)) file m :
  receipts_of file = Some m ->
  (forall a m', body m = Ok (a, Some m') -> effect o m m') ->
  exists m', receipts_of (snd (session env fault body file)) = Some m' /\ effect o m m'.
Proof.
  intros Hm Hb. destruct (session_effect env fault body file) as [->|(m1 & a & m' & H1 & H2 & ->)].
  - exists m. split; [done|by left].
  - rewrite Hm in H1. injection H1 as <-. exists m'. split; [cbn; by rewrite receipts_from_to|by eapply Hb].
Qed.

(** A receipt that evolves: its status is what is left to show. *)
Ltac evolve := apply effect_intro; eapply step_evolve; [eassumption|];
  (split; [reflexivity|]; split; [|split; [done|first [by left|by right]]]).

Lemma call_effect o file file' m :
  call o file file' -> receipts_of file = Some m ->
  exists m', receipts_of file' = Some m' /\ effect o m m'.
Proof.
  intros Hc Hm. destruct Hc; (apply (session_call _ _ _ _ _ _ Hm); intros a m' Hb; cbn beta in Hb).
  - destruct (m !! h) eqn:E; [done|]. injection Hb as <- <-. right. right. eexists h, _. split; [reflexivity|]. split; [done|]. split; [|reflexivity]. reflexivity.
  - destruct (m !! h) eqn:E; [by destruct (_ || _)|]. injection Hb as <- <-.
    apply effect_intro, step_new; [done|done|done].
  - destruct (_ ≫= _) eqn:En; [done|]. destruct (find_pending_for_pair m s q) eqn:Ep; [done|].
    destruct (m !! h) eqn:E; [done|]. injection Hb as <- <-. apply effect_intro, step_new; [done|done|].
    cbn. intros x ->. done.
  - destruct (m !! h) as [r|] eqn:E.
    + res_inv. destruct (check_transition _ _) as [[]|] eqn:Ht; [|done].
      apply transition_later in Ht. unfold settle_receipt.
      destruct (negb _); [|destruct (sr_release_code _)]; by evolve.
    + injection Hb as <- <-. apply effect_intro, step_new; [done|done|done].
  - destruct (m !! h) as [r|] eqn:E; [|done]. res_inv. destruct (check_transition _ _) as [[]|] eqn:Ht; [|done].
    apply transition_later in Ht. by evolve.
  - destruct (m !! h) as [r|] eqn:E; [|done]. injection Hb as <- <-.
    evolve; apply later_refl.
  - destruct (m !! h) as [r|] eqn:E; [|done]. destruct (negb _) eqn:Ec; [done|]. injection Hb as <- <-.
    evolve. cbn. by destruct (sr_status r).
  - destruct (m !! h) as [r|] eqn:E; [|done]. destruct (bool_decide _) eqn:Es; [|done]. injection Hb as <- <-.
    apply bool_decide_eq_true in Es. evolve. cbn. by rewrite Es.
  - destruct (m !! h) as [r|] eqn:E; [|done]. destruct (negb _) eqn:Es; [|done]. injection Hb as <- <-.
    evolve; apply later_refl.
  - destruct (m !! h) as [r|] eqn:E; [|done]. destruct (_ && _) eqn:Es; [|done]. injection Hb as <- <-.
    apply andb_true_iff in Es as [Es1%bool_decide_eq_true Es2%negb_true_iff].
    apply effect_intro. by eapply step_abandon.
  - destruct (m !! h) as [r|] eqn:E; [|done]. destruct (_ && _) eqn:Es; [|done]. injection Hb as <- <-.
    evolve; apply later_refl.
  - destruct (m !! h) as [r|] eqn:E; [|done]. destruct (_ && _) eqn:Es; [|done]. injection Hb as <- <-.
    evolve; apply later_refl.
Qed.

(** ** Outcomes stay *)

Lemma evolves_unsent r r' : evolves r r' -> unsent r' -> unsent r.
Proof.
  intros (_ & Hl & Hs & _) [Hp Hn]. rewrite Hp in Hl. split.
  - unfold later in Hl. destruct (sr_status r); try done.
  - destruct (sr_submitted r); [|done]. by rewrite Hs in Hn.
Qed.

Lemma effect_keeps o m m' h r :
  effect o m m' -> m !! h = Some r -> unsent r \/ exists r', m' !! h = Some r' /\ evolves r r'.
Proof.
  assert (Hm : forall m', map_step m m' -> m !! h = Some r -> unsent r \/ exists r', m' !! h = Some r' /\ evolves r r').
  { intros m1 Hs Hr. destruct Hs as [h0 r0 Hn|h0 r0 r1 Hn He|h0 r0 Hn Hu]; (destruct (decide (h0 = h)) as [->|Hne]).
    - congruence.
    - right. exists r. rewrite lookup_insert_ne by done. split; [done|apply evolves_refl].
    - right. exists r1. rewrite lookup_insert_eq. rewrite Hn in Hr. injection Hr as <-. done.
    - right. exists r. rewrite lookup_insert_ne by done. split; [done|apply evolves_refl].
    - left. rewrite Hn in Hr. by injection Hr as <-.
    - right. exists r. rewrite lookup_delete_ne by done. split; [done|apply evolves_refl]. }
  intros [->|[Hs|(h0 & r0 & _ & Hn & _ & ->)]] Hr; [right; exists r; split; [done|apply evolves_refl]|by apply Hm|].
  right. exists r. rewrite lookup_insert_ne by congruence. split; [done|apply evolves_refl].
Qed.

(** The file stays readable. *)
Lemma runs_readable T file file' m :
  calls T file file' -> receipts_of file = Some m -> exists m', receipts_of file' = Some m'.
Proof.
  intros Hrun. revert m. induction Hrun as [file|o T file file1 file' Hc _ IH]; intros m Hm; [eauto|].
  destruct (call_effect _ _ _ _ Hc Hm) as (m1 & Hm1 & _). eauto.
Qed.

(** C27: An outcome that was written stays written.  Whatever calls follow, of this
    process or another, with their writes failing anywhere, the receipt of an
    envelope keeps the submission it names and can only settle further: a failure is
    final, a success can only be reorganised away, nothing becomes pending again, and a
    receipt disappears only while it is pending and not marked as sent.  (The mark is a write of its
    own before the send and can fail: an envelope may be out although its receipt lacks it.) *)
Theorem receipt_outcome_is_final T file file' m h r :
  calls T file file' -> receipts_of file = Some m -> m !! h = Some r ->
  exists m', receipts_of file' = Some m' /\
    (unsent r \/ exists r', m' !! h = Some r' /\ evolves r r').
Proof.
  intros Hrun. revert m r. induction Hrun as [file|o T file file1 file' Hc Hrest IH]; intros m r Hm Hr.
  - exists m. split; [done|]. right. exists r. split; [done|apply evolves_refl].
  - destruct (call_effect _ _ _ _ Hc Hm) as (m1 & Hm1 & He).
    destruct (effect_keeps _ _ _ _ _ He Hr) as [Hu|(r1 & Hr1 & Hev)].
    + destruct (runs_readable _ _ _ _ Hrest Hm1) as [m' Hm']. eauto.
    + destruct (IH m1 r1 Hm1 Hr1) as (m' & Hm' & [Hu|(r' & Hr' & Hev')]); exists m'; (split; [done|]).
      * left. by eapply evolves_unsent.
      * right. exists r'. split; [done|by eapply evolves_trans].
Qed.

(** ** One open submission *)

(** The pair index, after the receipts of [l]: it leads every pending receipt of [l]
    to a pending receipt of the same pair. *)
Definition pairs_indexed m (l : list string) (ix : Indexes) : Prop :=
  forall h r, h ∈ l -> m !! h = Some r -> sr_status r = RsPending -> sr_source r <> EmptyString ->
    exists h' r', by_source_sequence ix !! (sr_source r, sr_sequence r) = Some h' /\
      m !! h' = Some r' /\ sr_status r' = RsPending.

Lemma index_receipt_pairs m l ix h :
  pairs_indexed m l ix -> pairs_indexed m (l ++ [h]) (index_receipt m ix h).
Proof.
  intros Hix x r Hx Hr Hp Hs. unfold index_receipt. apply elem_of_app in Hx as [Hx|Hx%list_elem_of_singleton].
  - destruct (Hix x r Hx Hr Hp Hs) as (h' & r' & H1 & H2 & H3).
    destruct (m !! h) as [r0|] eqn:E; [|by exists h', r']. cbn [by_source_sequence].
    destruct (_ && _) eqn:Ec; [|by exists h', r'].
    apply andb_true_iff in Ec as [_ Ep%bool_decide_eq_true].
    destruct (decide ((sr_source r0, sr_sequence r0) = (sr_source r, sr_sequence r))) as [Heq|Hne].
    + exists h, r0. by rewrite Heq, lookup_insert_eq.
    + exists h', r'. by rewrite lookup_insert_ne.
  - subst x. rewrite Hr. cbn [by_source_sequence].
    rewrite bool_decide_true by done. destruct (sr_source r) eqn:Es; [done|]. cbn.
    exists h, r. by rewrite lookup_insert_eq.
Qed.

Lemma index_receipts_pairs m k : forall l ix,
  pairs_indexed m l ix -> pairs_indexed m (l ++ k) (foldl (index_receipt m) ix k).
Proof.
  induction k as [|h k IH]; intros l ix H; [by rewrite app_nil_r|].
  cbn. rewrite (app_assoc l [h] k : l ++ h :: k = _). by apply IH, index_receipt_pairs.
Qed.

(** A pair without a pending receipt in the index has none at all. *)
Lemma no_pending_for_pair m source sequence h r :
  find_pending_for_pair m source sequence = None -> source <> EmptyString ->
  m !! h = Some r -> sr_source r = source -> sr_sequence r = sequence -> sr_status r <> RsPending.
Proof.
  intros Hf Hs Hr <- <- Hp.
  assert (Hh : h ∈ sort_strings (fst <$> map_to_list m)).
  { rewrite sort_strings_perm. apply list_elem_of_fmap.
    exists (h, r). split; [done|]. by apply elem_of_map_to_list. }
  destruct (index_receipts_pairs m (sort_strings (fst <$> map_to_list m)) [] (MkIndexes ∅ ∅)
              ltac:(intros ? ? []%not_elem_of_nil) h r Hh Hr Hp Hs) as (h' & r' & H1 & H2 & H3).
  unfold find_pending_for_pair, rebuild_indexes in Hf. destruct (sr_source r) eqn:Es; [done|]. cbn [is_empty] in Hf.
  rewrite H1 in Hf. cbn in Hf. rewrite H2 in Hf. cbn in Hf. by rewrite bool_decide_true in Hf.
Qed.

(** Of two receipts that are pending for one named account and sequence number, one is of [T]. *)
Definition one_pending (T : list string) m : Prop :=
  forall h h' r r', m !! h = Some r -> m !! h' = Some r' ->
    sr_status r = RsPending -> sr_status r' = RsPending -> sr_source r <> EmptyString ->
    sr_source r = sr_source r' -> sr_sequence r = sr_sequence r' -> h = h' \/ h ∈ T \/ h' ∈ T.

(** At most one receipt names an approval. *)
Definition one_per_approval m : Prop :=
  forall h h' r r' n, m !! h = Some r -> m !! h' = Some r' ->
    sr_approval_nonce r = Some n -> sr_approval_nonce r' = Some n -> h = h'.

Lemma no_receipt_for_nonce m n h r :
  List.find (carries_nonce n) (snd <$> map_to_list m) = None -> m !! h = Some r -> sr_approval_nonce r <> Some n.
Proof.
  intros Hf Hr Hn. assert (Hin : r ∈ snd <$> map_to_list m).
  { apply list_elem_of_fmap. exists (h, r). split; [done|]. by apply elem_of_map_to_list. }
  apply list_elem_of_In in Hin. pose proof (List.find_none _ _ Hf r Hin) as Hc.
  unfold carries_nonce in Hc. by rewrite bool_decide_true in Hc.
Qed.

(** A receipt after an evolution comes from one before. *)
Lemma evolve_back m h0 r0 r1 h r :
  m !! h0 = Some r0 -> evolves r0 r1 -> <[h0 := r1]> m !! h = Some r ->
  exists r', m !! h = Some r' /\ identity r = identity r' /\ (sr_status r = RsPending -> sr_status r' = RsPending) /\
    (forall n, sr_approval_nonce r = Some n -> sr_approval_nonce r' = Some n).
Proof.
  intros H0 (Hi & Hl & _ & Ha) Hr. apply lookup_insert_Some in Hr as [[<- <-]|[Hne Hr]]; [|by exists r].
  exists r0. split; [done|]. split; [done|]. split.
  - intros E. rewrite E in Hl. by destruct (sr_status r0).
  - intros n E. destruct Ha as [Ha|Ha]; congruence.
Qed.

Lemma effect_one_pending o T m m' : effect o m m' -> one_pending T m -> one_pending (T ++ option_list o) m'.
Proof.
  intros He Hp. assert (Hw : one_pending (T ++ option_list o) m).
  { intros h h' r r' H1 H2 H3 H4 H5 H6 H7. destruct (Hp h h' r r' H1 H2 H3 H4 H5 H6 H7) as [?|[?|?]]; [by left| |];
      right; [left|right]; apply elem_of_app; by left. }
  destruct He as [->|[Hs|(h0 & r0 & -> & H0 & _ & ->)]]; [done| |].
  - intros h h' r r' Hr Hr' P P' S E Q. destruct Hs as [h0 r0 H0 Hpair _|h0 r0 r1 H0 Hev|h0 r0 H0 _].
    + apply lookup_insert_Some in Hr as [[<- <-]|[Hne Hr]]; apply lookup_insert_Some in Hr' as [[<- <-]|[Hne' Hr']];
        [by left| | |by eapply Hw].
      * by destruct (no_pending_for_pair _ _ _ _ _ (Hpair P S) S Hr' (eq_sym E) (eq_sym Q)).
      * rewrite E in S. by destruct (no_pending_for_pair _ _ _ _ _ (Hpair P' S) S Hr E Q).
    + destruct (evolve_back _ _ _ _ _ _ H0 Hev Hr) as (x & Hx & I & Px & _), (evolve_back _ _ _ _ _ _ H0 Hev Hr') as (x' & Hx' & I' & Px' & _).
      injection I as _ _ I1 I2 _ _. injection I' as _ _ I1' I2' _ _.
      eapply Hw; [exact Hx|exact Hx'|auto|auto|congruence|congruence|congruence].
    + apply lookup_delete_Some in Hr as [_ Hr], Hr' as [_ Hr']. by eapply Hw.
  - intros h h' r r' Hr Hr' P P' S E Q. cbn in Hw |- *.
    apply lookup_insert_Some in Hr as [[<- <-]|[Hne Hr]]; [right; left; apply elem_of_app; right; by left|].
    apply lookup_insert_Some in Hr' as [[<- <-]|[Hne' Hr']]; [right; right; apply elem_of_app; right; by left|]. by eapply Hw.
Qed.

Lemma effect_one_per_approval o m m' : effect o m m' -> one_per_approval m -> one_per_approval m'.
Proof.
  intros He Hn h h' r r' n. destruct He as [->|[Hs|(h0 & r0 & _ & H0 & Ha & ->)]]; [by apply Hn| |].
  - destruct Hs as [h0 r0 H0 _ Hnonce|h0 r0 r1 H0 Hev|h0 r0 H0 _]; intros Hr Hr' A A'.
    + apply lookup_insert_Some in Hr as [[<- <-]|[Hne Hr]]; apply lookup_insert_Some in Hr' as [[<- <-]|[Hne' Hr']];
        [done| | |by eapply Hn].
      * by destruct (no_receipt_for_nonce _ _ _ _ (Hnonce n A) Hr').
      * by destruct (no_receipt_for_nonce _ _ _ _ (Hnonce n A') Hr).
    + destruct (evolve_back _ _ _ _ _ _ H0 Hev Hr) as (x & Hx & _ & _ & Nx), (evolve_back _ _ _ _ _ _ H0 Hev Hr') as (x' & Hx' & _ & _ & Nx').
      eapply Hn; eauto.
    + apply lookup_delete_Some in Hr as [_ Hr], Hr' as [_ Hr']. by eapply Hn.
  - intros Hr Hr' A A'. apply lookup_insert_Some in Hr as [[<- <-]|[Hne Hr]]; [congruence|].
    apply lookup_insert_Some in Hr' as [[<- <-]|[Hne' Hr']]; [congruence|by eapply Hn].
Qed.

Lemma calls_one_open T a b : calls T a b -> forall T0 ma, receipts_of a = Some ma -> one_pending T0 ma -> one_per_approval ma ->
  exists mb, receipts_of b = Some mb /\ one_pending (T0 ++ T) mb /\ one_per_approval mb.
Proof.
  induction 1 as [a|o T a a1 b Hc Hrest IH]; intros T0 ma Ha Hp Hn; [exists ma; by rewrite app_nil_r|].
  destruct (call_effect _ _ _ _ Hc Ha) as (m1 & H1 & He). rewrite app_assoc.
  eapply IH; [exact H1|by eapply effect_one_pending|by eapply effect_one_per_approval].
Qed.

(** A submission that was recorded is the only one open for its pair. *)
Lemma recorded_alone env fault h t s q mt l n file file' m' :
  begin_submission_with_approval env fault h t s q mt l n file = (Ok Recorded, file') -> s <> EmptyString ->
  receipts_of file' = Some m' ->
  forall h' r', m' !! h' = Some r' -> sr_status r' = RsPending -> sr_source r' = s -> sr_sequence r' = q -> h' = h.
Proof.
  intros H Hs Hm' h' r' Hr' P E Q. unfold begin_submission_with_approval in H.
  apply session_Ok in H as (m & Hm & [[Hb _]|(m1 & Hb & Hm1)]); destruct (_ ≫= _); try discriminate Hb;
    destruct (find_pending_for_pair m s q) eqn:Ef; try discriminate Hb; destruct (m !! h) eqn:Eh; try discriminate Hb.
  injection Hb as <-. rewrite Hm' in Hm1. injection Hm1 as ->.
  apply lookup_insert_Some in Hr' as [[-> _]|[_ Hr']]; [done|]. by destruct (no_pending_for_pair _ _ _ _ _ Ef Hs Hr' E Q).
Qed.

(** C15: Submissions do not double.  From an empty profile, whatever calls are made, [try_begin] included,
    with their writes failing anywhere: at most one receipt carries a given approval, so an approval
    pays at most one envelope unless its send was refused; of two receipts that are pending for
    one source account and sequence number, at least one was begun by [try_begin], which does not look for the
    other; and a [begin_submission] that is answered with [Recorded] leaves its receipt the only pending one of its
    account and sequence number, however the others were begun.  (The source is one that is named: receipts with
    an empty one are of no pair.) *)
Theorem one_open_submission T file :
  calls T None file ->
  (exists m, receipts_of file = Some m /\ one_per_approval m /\ one_pending T m) /\
  forall env fault h t s q mt l n file',
    begin_submission_with_approval env fault h t s q mt l n file = (Ok Recorded, file') -> s <> EmptyString ->
    exists m', receipts_of file' = Some m' /\ (exists r, m' !! h = Some r /\ sr_status r = RsPending) /\
      forall h' r', m' !! h' = Some r' -> sr_status r' = RsPending -> sr_source r' = s -> sr_sequence r' = q -> h' = h.
Proof.
  intros Hrun. destruct (calls_one_open _ _ _ Hrun [] ∅ eq_refl) as (m & Hm & Hp & Hn);
    [intros ????; by rewrite lookup_empty|intros ?????; by rewrite lookup_empty|]. split; [by exists m|].
  intros env fault h t s q mt l n file' H Hs.
  assert (Hr : exists m', receipts_of file' = Some m' /\ exists r, m' !! h = Some r /\ sr_status r = RsPending).
  { apply session_Ok in H as (m0 & _ & [[Hb _]|(m1 & Hb & Hm1)]); destruct (_ ≫= _); try discriminate Hb;
      destruct (find_pending_for_pair m0 s q); try discriminate Hb; destruct (m0 !! h); try discriminate Hb.
    injection Hb as <-. eexists. split; [exact Hm1|]. rewrite lookup_insert_eq. by eexists. }
  destruct Hr as (m' & Hm' & Hr). exists m'. split; [done|]. split; [done|]. by eapply recorded_alone.
Qed.
End runs.

(** ** An example *)

Definition Demo : Type := gmap string SubmissionReceipt.
Local Instance demo_receipts : ReceiptJson Demo := {| receipts_to_json m := m; receipts_from_json t := Ok t |}.
Local Instance demo_receipts_laws : ReceiptJsonLaws Demo := {| receipts_from_to m := eq_refl |}.

(** The lock is held twice, then free. *)
Definition demo_env : SessionEnv :=
  MkSession false None (fun k => if Nat.ltb k 2 then LaHeld else LaFree) None.

Definition demo_begun : option Demo :=
  snd (begin_submission_with_approval demo_env None "e1" "t1" "GA" 7 100 50 (Some "n1") None).
Definition demo_settled : option Demo :=
  snd (finalize demo_env None "e1" RsSuccess (Some 51) (snd (mark_submitted demo_env None "e1" demo_begun))).
Definition demo_later : option Demo :=
  snd (finalize_send_refusal demo_env None "e1" "tx_bad_seq"
    (snd (abandon_pre_submit demo_env None "e1"
      (snd (begin_submission_with_approval demo_env None "e2" "t2" "GA" 7 100 50 (Some "n1") demo_settled))))).

(** An envelope of the same account and sequence number is begun without the checks. *)
Definition demo_doubled : option Demo :=
  snd (try_begin demo_env None "e3" "t3" "GB" 9 100 50
    (snd (try_begin demo_env None "e4" "t4" "GB" 9 100 50 demo_later))).

Lemma demo_later_calls : calls [] demo_settled demo_later.
Proof.
  eapply (calls_cons None); [apply c_begin|]. eapply (calls_cons None); [apply c_abandon|].
  eapply (calls_cons None []); [apply c_refusal|constructor].
Qed.

Lemma calls_app T1 T2 a b c : calls T1 a b -> calls T2 b c -> calls (T1 ++ T2) a c.
Proof. induction 1 as [|o T a a1 b Hc _ IH]; [done|]. intros H. rewrite <- app_assoc. econstructor; [done|auto]. Qed.

Lemma demo_doubled_calls : calls ["e4"; "e3"] None demo_doubled.
Proof.
  eapply (calls_cons None _ _ demo_begun); [apply c_begin|].
  eapply (calls_cons None); [apply (c_submitted demo_env None "e1")|].
  eapply (calls_cons None _ _ demo_settled); [by apply c_finalize|]. eapply (calls_app []); [exact demo_later_calls|].
  eapply (calls_cons (Some "e4")); [apply c_try_begin|]. eapply (calls_cons (Some "e3") []); [apply c_try_begin|constructor].
Qed.

Definition demo_receipt : SubmissionReceipt :=
  MkReceipt "e1" "t1" "GA" 7 RsSuccess (Some 51) 50 100 None None true (Some "n1") false false None.

(** A success stands: the same approval, an abandonment and a refusal that come later leave it. *)
Lemma receipt_outcome_is_final_witness :
  exists m r, receipts_of demo_settled = Some m /\ m !! "e1" = Some r /\ sr_status r = RsSuccess /\
    exists m', receipts_of demo_later = Some m' /\
      (unsent r \/ exists r', m' !! "e1" = Some r' /\ evolves r r').
Proof.
  exists {["e1" := demo_receipt]}, demo_receipt.
  assert (H : receipts_of demo_settled = Some {["e1" := demo_receipt]}) by (vm_compute; reflexivity).
  split; [exact H|]. split; [vm_compute; reflexivity|]. split; [reflexivity|].
  eapply (receipt_outcome_is_final [] demo_settled demo_later _ "e1" demo_receipt);
    [exact demo_later_calls|exact H|vm_compute; reflexivity].
Defined.

Lemma one_open_submission_witness :
  (exists m, receipts_of demo_doubled = Some m /\ one_per_approval m /\ one_pending ["e4"; "e3"] m) /\
  exists m', receipts_of (snd (begin_submission demo_env None "e5" "t5" "GA" 8 100 50 demo_doubled)) = Some m' /\
    (exists r, m' !! "e5" = Some r /\ sr_status r = RsPending) /\
    forall h' r', m' !! h' = Some r' -> sr_status r' = RsPending -> sr_source r' = "GA" -> sr_sequence r' = 8 -> h' = "e5".
Proof.
  destruct (one_open_submission ["e4"; "e3"] demo_doubled demo_doubled_calls) as [H1 H2]. split; [exact H1|].
  apply (H2 demo_env None "e5" "t5" "GA" 8 100 50 None); [vm_compute; reflexivity|discriminate].
Defined.
