(* ===== verification/Keyring.v ===== *)
(** * Keys in the credential store
      (stellar-agent-network, [keyring.rs]; stellar-agent-core, [profile/owner_key.rs], [profile/name.rs],
      [keyring_errors.rs])

    The credential store of the system is a map from coordinates to secrets; an
    environment says which of its calls fail, at the first, second, ... moment a call
    asks.  Of an error the class is kept, not its text. *)

From S2P Require Import Prelude RustStr Json Bytes.
From stdpp Require Import options.

Local Open Scope string_scope.
Local Open Scope list_scope.
Local Open Scope Z_scope.

Record KeyringEntryRef := MkRef { service : string; account : string }.

Global Instance KeyringEntryRef_eq_dec : EqDecision KeyringEntryRef.
Proof. solve_decision. Defined.
Global Instance KeyringEntryRef_countable : Countable KeyringEntryRef.
Proof.
  refine (inj_countable' (fun r => (service r, account r)) (fun '(s, a) => MkRef s a) _). by intros [].
Defined.

(** ** The store *)

(** A call of the store fails, or it has no such entry. *)
Inductive RingFault := NoDefaultStore | NoLogonSession | OtherRing.
Inductive RingError := NoEntry | RingFails (f : RingFault).

Abbreviation Ring := (gmap KeyringEntryRef string) (only parsing).

(** [re_write]: a write that fails may have stored its value. *)
Record RingEnv := MkRingEnv {
  re_open : KeyringEntryRef -> option RingFault;
  re_read : nat -> KeyringEntryRef -> option RingFault;
  re_write : KeyringEntryRef -> option (RingFault * bool);
}.

Definition entry_new (env : RingEnv) (r : KeyringEntryRef) : result RingError unit :=
  match re_open env r with Some f => Err (RingFails f) | None => Ok () end.

Definition get_password (env : RingEnv) (moment : nat) (r : KeyringEntryRef) (ring : Ring) : result RingError string :=
  match re_read env moment r with Some f => Err (RingFails f) | None => ok_or NoEntry (ring !! r) end.

Definition set_password (env : RingEnv) (r : KeyringEntryRef) (value : string) (ring : Ring) : result RingError unit * Ring :=
  match re_write env r with
  | None => (Ok (), <[r := value]> ring)
  | Some (f, true) => (Err (RingFails f), <[r := value]> ring)
  | Some (f, false) => (Err (RingFails f), ring)
  end.

(** ** Errors of an operation *)

Inductive KeyringOperation := KoConstruct | KoRead | KoWrite | KoDelete.

(** [WalletError], as far as the store's callers tell them apart. *)
Inductive KeyError :=
| KeyringNotFound
| KeyringInteractiveSessionRequired
| KeyringPlatformError (operation : KeyringOperation)
| KeyDecodeFailed
| KeyLengthError (got : Z)
| KeyMatchesOwnerPublicKey.

Definition classify_keyring_operation_error (e : RingError) (operation : KeyringOperation) : KeyError :=
  match e, operation with
  | NoEntry, KoRead | RingFails NoDefaultStore, KoRead => KeyringNotFound
  | RingFails NoLogonSession, _ => KeyringInteractiveSessionRequired
  | _, _ => KeyringPlatformError operation
  end.

Definition classified {A} (operation : KeyringOperation) (r : result RingError A) : result KeyError A :=
  map_err (fun e => classify_keyring_operation_error e operation) r.

Section keys.
Context `{BB : !Base64}.

(** ** Symmetric keys *)

Definition load_hmac_key_32 (env : RingEnv) (moment : nat) (r : KeyringEntryRef) (ring : Ring) : result KeyError (list Z) :=
  _ ← classified KoConstruct (entry_new env r);
  secret_b64 ← classified KoRead (get_password env moment r ring);
  decoded ← ok_or KeyDecodeFailed (base64_decode secret_b64);
  if negb (count decoded =? 32) then Err (KeyLengthError (count decoded)) else Ok decoded.

Definition rotate_keyring_secret_32 (env : RingEnv) (raw : list Z) (r : KeyringEntryRef) (ring : Ring)
  : result KeyError unit * Ring :=
  match classified KoConstruct (entry_new env r) with
  | Err e => (Err e, ring)
  | Ok _ => let '(res, ring') := set_password env r (base64_encode raw) ring in (classified KoWrite res, ring')
  end.

(** ** The owner's public key *)

Definition OWNER_KEY_SERVICE_PREFIX : string := "stellar-agent-owner-".

Definition default_owner_key (profile_name : string) : KeyringEntryRef :=
  MkRef (OWNER_KEY_SERVICE_PREFIX +:+ profile_name) "default".

(** The fields of [Profile] that name keys here. *)
Record KeyProfile := MkKeyProfile {
  policy_window_state_key_id : KeyringEntryRef;
  policy_owner_key_id : KeyringEntryRef;
}.

Definition derive_profile_name_from_owner_key (profile : KeyProfile) : option string :=
  strip_prefix OWNER_KEY_SERVICE_PREFIX (service (policy_owner_key_id profile)).

Definition profile_name_for_approval (profile : KeyProfile) : string :=
  default "default" (derive_profile_name_from_owner_key profile).

Inductive OwnerKeyForm := FormStrkey | FormOlderBase64.

Context `{SK : !Strkey}.

Definition decode_owner_public_key (raw : string) : option (list Z * OwnerKeyForm) :=
  let trimmed := trim raw in
  match public_key_from_string trimmed with
  | Ok key => Some (key, FormStrkey)
  | Err _ =>
      bytes ← base64_decode trimmed;
      if count bytes =? 32 then Some (bytes, FormOlderBase64) else None
  end.

Definition encode_owner_public_key (key : list Z) : string := public_key_to_string key.

Inductive OwnerEntryRewrite :=
| AlreadyStrkey | Rewritten | Absent | Undecodable | Unreadable (code : KeyError) | WriteFailed (code : KeyError).

Definition rewrite_value (env : RingEnv) (r : KeyringEntryRef) (raw : string) (ring : Ring) : OwnerEntryRewrite * Ring :=
  match decode_owner_public_key raw with
  | None => (Undecodable, ring)
  | Some (_, FormStrkey) => (AlreadyStrkey, ring)
  | Some (key, FormOlderBase64) =>
      match set_password env r (encode_owner_public_key key) ring with
      | (Ok _, ring') => (Rewritten, ring')
      | (Err e, ring') => (WriteFailed (classify_keyring_operation_error e KoWrite), ring')
      end
  end.

Definition rewrite_older_form_owner_entry (env : RingEnv) (r : KeyringEntryRef) (ring : Ring) : OwnerEntryRewrite * Ring :=
  match entry_new env r with
  | Err e => (Unreadable (classify_keyring_operation_error e KoConstruct), ring)
  | Ok _ =>
      match get_password env 0 r ring with
      | Ok raw => rewrite_value env r raw ring
      | Err NoEntry => (Absent, ring)
      | Err e => (Unreadable (classify_keyring_operation_error e KoRead), ring)
      end
  end.

Definition rewrite_owner_value_if_older (env : RingEnv) (r : KeyringEntryRef) (raw : string) (ring : Ring)
  : OwnerEntryRewrite * Ring :=
  match entry_new env r with
  | Ok _ => rewrite_value env r raw ring
  | Err e => (WriteFailed (classify_keyring_operation_error e KoConstruct), ring)
  end.

(** The other profiles' entries, one after the other. *)
Definition rewrite_older_form_owner_entries (env : RingEnv) (names : list string) (skip : option string) (ring : Ring) : Ring :=
  foldl (fun ring name => snd (rewrite_older_form_owner_entry env (default_owner_key name) ring)) ring
    (filter (fun name => Some name <> skip) names).

Definition refuse_owner_key_coordinate (r : KeyringEntryRef) : result KeyError unit :=
  if starts_with_str OWNER_KEY_SERVICE_PREFIX (service r) then Err KeyMatchesOwnerPublicKey else Ok ().

Definition OwnerKeyContext : Type := list KeyringEntryRef.
Definition for_profile_name (profile_name : string) : OwnerKeyContext := [default_owner_key profile_name].
Definition for_profile (profile_name : string) (profile : KeyProfile) : OwnerKeyContext :=
  let context := for_profile_name profile_name in
  if bool_decide (policy_owner_key_id profile ∈ context) then context
  else context ++ [policy_owner_key_id profile].
Definition for_loaded_profile (profile : KeyProfile) : OwnerKeyContext :=
  for_profile (profile_name_for_approval profile) profile.

Fixpoint refuse_owner_public_key (env : RingEnv) (key : list Z) (owner : OwnerKeyContext) (ring : Ring)
  : result KeyError unit :=
  match owner with
  | [] => Ok ()
  | coordinate :: rest =>
      _ ← classified KoConstruct (entry_new env coordinate);
      match get_password env 0 coordinate ring with
      | Err NoEntry => refuse_owner_public_key env key rest ring
      | Err e => Err (classify_keyring_operation_error e KoRead)
      | Ok raw =>
          match decode_owner_public_key raw with
          | None => refuse_owner_public_key env key rest ring
          | Some (owner_key, _) =>
              if bool_decide (key = owner_key) then Err KeyMatchesOwnerPublicKey
              else refuse_owner_public_key env key rest ring
          end
      end
  end.

(** A key that passes is none of the owner keys that can be read. *)
Lemma accepted_key_is_not_owner env key owner ring c raw k form :
  refuse_owner_public_key env key owner ring = Ok () -> c ∈ owner ->
  get_password env 0 c ring = Ok raw -> decode_owner_public_key raw = Some (k, form) -> key <> k.
Proof.
  induction owner as [|x owner IH]; intros H Hc Hg Hd; [by apply not_elem_of_nil in Hc|]. cbn in H.
  destruct (entry_new env x) as [[]|]; [|done]. cbn in H.
  apply elem_of_cons in Hc as [<-|Hc].
  - rewrite Hg, Hd in H. by destruct (bool_decide_reflect (key = k)).
  - destruct (get_password env 0 x ring) as [r|[]]; try done; [|by apply IH].
    destruct (decode_owner_public_key r) as [[o f]|]; [|by apply IH]. destruct (bool_decide _); [done|by apply IH].
Qed.

(** Rewriting an older owner entry keeps its key. *)
Lemma rewrite_keeps_owner_key env r raw ring ring' k form :
  (forall key, count key = 32 -> public_key_from_string (trim (public_key_to_string key)) = Ok key) ->
  ring !! r = Some raw -> decode_owner_public_key raw = Some (k, form) ->
  rewrite_older_form_owner_entry env r ring = (Rewritten, ring') ->
  exists raw', ring' !! r = Some raw' /\ decode_owner_public_key raw' = Some (k, FormStrkey).
Proof.
  intros Hrt Hr Hd. unfold rewrite_older_form_owner_entry.
  destruct (entry_new env r); [|done]. unfold get_password. destruct (re_read env 0 r) as [[]|]; try done.
  rewrite Hr. cbn. unfold rewrite_value. rewrite Hd. destruct form; [done|].
  unfold set_password. destruct (re_write env r) as [[e []]|]; try done. intros [= <-].
  exists (encode_owner_public_key k). rewrite lookup_insert_eq. split; [done|].
  unfold decode_owner_public_key, encode_owner_public_key. rewrite Hrt; [done|].
  unfold decode_owner_public_key in Hd. destruct (public_key_from_string (trim raw)) as [x|]; [done|].
  destruct (base64_decode (trim raw)) as [b|]; [|done]. cbn in Hd. destruct (Z.eqb_spec (count b) 32); [|done].
  by injection Hd as <-.
Qed.
End keys.
