(* ===== verification/WindowStore.v ===== *)
(** * The durable spending window (stellar-agent-network, [policy_state/store.rs], [mod.rs], [lock.rs])

    The rolling windows of a profile survive restarts in one file, authenticated
    by a key of the keyring and pinned, by a generation and the hash of its body, to
    an entry of the keyring.  A call reads the file under a lock, changes the records,
    stores the commitment and replaces the file.  Each system call can fail, and a
    write that fails may have happened; a process that dies is a call that fails at
    that point. *)

From S2P Require Import Prelude RustStr Json Bytes PolicyTypes StateStore Receipts Keyring.
From stdpp Require Import options.

Local Open Scope string_scope.
Local Open Scope list_scope.
Local Open Scope Z_scope.

(** ** The file *)

Inductive RecordStatus := Confirmed | Pending.
Global Instance RecordStatus_eq_dec : EqDecision RecordStatus.
Proof. solve_decision. Defined.

Record WireRecord := MkRecord {
  wr_ts_ms : Z;
  wr_amount : Z;
  wr_id : string;
  wr_status : RecordStatus;
  wr_tx_hash : string;
  wr_source : string;
  wr_sequence : Z;
  wr_max_time : Z;
  wr_pending_since_ms : Z;
  wr_submission_ledger : Z;
  wr_operator_required : bool;
}.

Definition confirmed_record (ts_ms amount : Z) : WireRecord :=
  MkRecord ts_ms amount EmptyString Confirmed EmptyString EmptyString 0 0 0 0 false.

Record WindowReservation := MkReservation {
  rv_id : string;
  rv_tx_hash : string;
  rv_source : string;
  rv_sequence : Z;
  rv_max_time : Z;
  rv_pending_since_ms : Z;
  rv_submission_ledger : Z;
  rv_operator_required : bool;
}.

Definition pending_record (ts_ms amount : Z) (v : WindowReservation) : WireRecord :=
  MkRecord ts_ms amount (rv_id v) Pending (rv_tx_hash v) (rv_source v) (rv_sequence v) (rv_max_time v)
    (rv_pending_since_ms v) (rv_submission_ledger v) false.

Record WireBucket := MkBucket {
  wb_scope_specificity : Z;
  wb_bucket : string;
  wb_window_secs : Z;
  wb_records : list WireRecord;
}.

(** [prepared]: the next state, written before the keyring commits to it. *)
Inductive WireFile := MkWire (version generation : Z) (entries : list WireBucket) (prepared : option WireFile).

Definition wf_version (w : WireFile) : Z := let '(MkWire v _ _ _) := w in v.
Definition wf_generation (w : WireFile) : Z := let '(MkWire _ g _ _) := w in g.
Definition wf_entries (w : WireFile) : list WireBucket := let '(MkWire _ _ es _) := w in es.
Definition wf_prepared (w : WireFile) : option WireFile := let '(MkWire _ _ _ p) := w in p.

Definition HMAC_TAG_LEN : Z := 32.
Definition HMAC_CONTEXT_LABEL : list Z := as_bytes "stellar-agent-policy-window/v1/body" ++ [0].
Definition RETENTION_MS : Z := 604800 * 1000.
Definition WIRE_VERSION : Z := 3.
Definition WIRE_VERSION_MAX : Z := 3.
Definition RECONCILE_BUDGET : Z := 5.
Definition RECONCILE_MIN_AGE_MS : Z := 300000.

Definition empty_wire (generation : Z) : WireFile := MkWire WIRE_VERSION generation [] None.

Inductive WindowStoreError :=
| WsWriterLocked
| WsIo (kind : IoErrorKind)
| WsInvalid (detail : string)
| WsHmacMismatch
| WsGenerationMismatch
| WsKeyring
| WsKeyMatchesOwnerPublicKey
| WsPolicyDenied (reason : DenyReason)
| WsDuplicateReservation.

(** ** Records *)

Definition in_bucket (key : StateKey) (b : WireBucket) : bool :=
  (wb_scope_specificity b =? scope_specificity key) && bool_decide (wb_bucket b = bucket key)
  && (wb_window_secs b =? window_secs key).

Definition set_records (b : WireBucket) (rs : list WireRecord) : WireBucket :=
  MkBucket (wb_scope_specificity b) (wb_bucket b) (wb_window_secs b) rs.

(** The buckets, with one for [key], and its index. *)
Definition find_or_insert_bucket (es : list WireBucket) (key : StateKey) : list WireBucket * nat :=
  match list_find (fun b => in_bucket key b = true) es with
  | Some (idx, _) => (es, idx)
  | None => (es ++ [MkBucket (scope_specificity key) (bucket key) (window_secs key) []], length es)
  end.

Definition push_record (es : list WireBucket) (kr : StateKey * WireRecord) : list WireBucket :=
  let '(es', idx) := find_or_insert_bucket es (fst kr) in
  alter (fun b => set_records b (wb_records b ++ [snd kr])) idx es'.

(** The records without those [drop_record] names, empty buckets dropped. *)
Definition retain_records (keep : WireRecord -> bool) (es : list WireBucket) : list WireBucket :=
  filter (fun b => wb_records b <> [])
    ((fun b => set_records b (filter (fun r => keep r = true) (wb_records b))) <$> es).

Definition is_pending_record (r : WireRecord) : bool := bool_decide (wr_status r = Pending).

Definition prune_stale (es : list WireBucket) (now_ms : Z) : list WireBucket :=
  let cutoff := sat_sub u64 now_ms RETENTION_MS in
  retain_records (fun r => (cutoff <=? wr_ts_ms r) || is_pending_record r) es.

Definition record_is_live (r : WireRecord) (now_ms window_secs : Z) : bool :=
  is_pending_record r || (sat_sub u64 now_ms (sat_mul u64 window_secs 1000) <=? wr_ts_ms r).

Fixpoint records_in_window (key : StateKey) (now_ms sum count : Z) (rs : list WireRecord) : result DenyReason (Z * Z) :=
  match rs with
  | [] => Ok (sum, count)
  | r :: rs' =>
      if is_pending_record r && (sat_add u64 now_ms CLOCK_SKEW_TOLERANCE_MS <? wr_ts_ms r)
      then Err (EvaluationError (StateStoreError_to_string (ClockSkewExceeded (wr_ts_ms r) now_ms)))
      else if negb (record_is_live r now_ms (window_secs key)) then records_in_window key now_ms sum count rs'
      else records_in_window key now_ms (sat_add i128 sum (wr_amount r)) (sat_add u32 count 1) rs'
  end.

Fixpoint buckets_in_window (key : StateKey) (now_ms sum count : Z) (es : list WireBucket) : result DenyReason (Z * Z) :=
  match es with
  | [] => Ok (sum, count)
  | b :: es' =>
      if negb (in_bucket key b) then buckets_in_window key now_ms sum count es'
      else
        '(sum', count') ← records_in_window key now_ms sum count (wb_records b);
        buckets_in_window key now_ms sum' count' es'
  end.

Definition window_in_file (w : WireFile) (key : StateKey) (now_ms : Z) : result DenyReason (Z * Z) :=
  buckets_in_window key now_ms 0 0 (wf_entries w).

(** One entry after the other, on what the file and the batch hold. *)
Fixpoint admit_loop (w : WireFile) (batch : gmap StateKey (Z * Z)) (entries : list WindowEntry)
  : result WindowStoreError unit :=
  match entries with
  | [] => Ok ()
  | e :: entries' =>
      '(file_sum, file_count) ← map_err WsPolicyDenied (window_in_file w (we_key e) (we_timestamp_ms e));
      let '(batch_sum, batch_count) := default (0, 0) (batch !! we_key e) in
      match refusal e (sat_add i128 file_sum batch_sum) (sat_add u32 file_count batch_count) with
      | Some reason => Err (WsPolicyDenied reason)
      | None => admit_loop w (<[we_key e := (sat_add i128 batch_sum (we_amount e), sat_add u32 batch_count 1)]> batch)
                  entries'
      end
  end.

Definition admit_batch (w : WireFile) (entries : list WindowEntry) : result WindowStoreError unit :=
  admit_loop w ∅ entries.

Definition file_holds_id (w : WireFile) (id : string) : bool :=
  negb (is_empty id)
  && existsb (fun b => existsb (fun r => bool_decide (wr_id r = id)) (wb_records b)) (wf_entries w).

Definition all_records (es : list WireBucket) : list WireRecord := es ≫= wb_records.

(** ** The keyring's commitment *)

Record GenerationState := MkGeneration { gs_generation : Z; gs_body_sha256 : option string }.

Definition increment_generation (generation : Z) : result WindowStoreError Z :=
  ok_or (WsInvalid "policy window-state generation counter overflow") (checked u64 (generation + 1)).

Definition is_digest_char (a : ascii) : bool := is_ascii_digit a || byte_in 97 102 a.

(** [serde_json] of the file's body and of the commitment. *)
Class WindowJson := {
  wire_to_json : WireFile -> list Z;
  wire_from_json : list Z -> result string WireFile;
  commitment_to_json : Z -> string -> string;
  commitment_from_json : string -> result string (Z * string);
}.
Class WindowJsonLaws `{!WindowJson} := {
  wire_from_to w : wire_from_json (wire_to_json w) = Ok w;
  commitment_from_to g d : commitment_from_json (commitment_to_json g d) = Ok (g, d);
  commitment_braced g d : exists s, commitment_to_json g d = String "{" (s +:+ "}");
}.

(** What the system answers to one call. *)
Record WindowEnv := MkWindowEnv {
  wv_ring : RingEnv;
  wv_create_dir : option IoErrorKind;
  wv_lock : LockAnswer;
  wv_read : option IoErrorKind;
  wv_persist : nat -> PersistFault;
  wv_random : list Z;
  wv_clock : option Z;
}.

Record Disk := MkDisk { d_file : option (list Z); d_ring : gmap KeyringEntryRef string }.

Definition generation_account (account : string) : string := account +:+ "-generation".
Definition generation_entry_ref (profile : KeyProfile) : KeyringEntryRef :=
  let base := policy_window_state_key_id profile in MkRef (service base) (generation_account (account base)).

(** Calls thread the disk through, errors or not. *)
Definition WM (A : Type) : Type := Disk -> result WindowStoreError A * Disk.
Global Instance WM_ret : MRet WM := fun A a d => (Ok a, d).
Global Instance WM_bind : MBind WM := fun A B f m d =>
  match m d with (Ok a, d') => f a d' | (Err e, d') => (Err e, d') end.
(** The error is logged only. *)
Definition quietly (m : WM unit) : WM unit := fun d => (Ok (), snd (m d)).
Definition wlift {A} (f : Disk -> result WindowStoreError A) : WM A := fun d => (f d, d).

Section window.
Context `{S2 : !Sha2, BB : !Base64, SK : !Strkey, WJ : !WindowJson}.

Definition body_digest (w : WireFile) : string := encode (sha256 (wire_to_json w)).

Definition load_counter (env : RingEnv) (moment : nat) (r : KeyringEntryRef) (ring : gmap KeyringEntryRef string)
  : result WindowStoreError (option GenerationState) :=
  _ ← map_err (fun _ => WsKeyring) (entry_new env r);
  match get_password env moment r ring with
  | Err NoEntry => Ok None
  | Err _ => Err WsKeyring
  | Ok value =>
      match parse_int u64 (trim value) with
      | Ok generation => Ok (Some (MkGeneration generation None))
      | Err _ =>
          '(generation, digest) ← map_err (fun _ => WsKeyring) (commitment_from_json value);
          if negb (len digest =? 64) || negb (str_all is_digest_char digest) then Err WsKeyring
          else Ok (Some (MkGeneration generation (Some digest)))
      end
  end.

Definition load_generation (env : RingEnv) (moment : nat) (r : KeyringEntryRef) (ring : gmap KeyringEntryRef string)
  : result WindowStoreError (option Z) :=
  state ← load_counter env moment r ring; Ok (option_map gs_generation state).

Definition next_generation (env : RingEnv) (moment : nat) (r : KeyringEntryRef) (ring : gmap KeyringEntryRef string)
  : result WindowStoreError Z :=
  generation ← load_generation env moment r ring; increment_generation (default 0 generation).

Definition write_generation (env : WindowEnv) (r : KeyringEntryRef) (w : WireFile) : WM unit := fun d =>
  match entry_new (wv_ring env) r with
  | Err _ => (Err WsKeyring, d)
  | Ok _ =>
      let '(res, ring') := set_password (wv_ring env) r (commitment_to_json (wf_generation w) (body_digest w)) (d_ring d) in
      (map_err (fun _ => WsKeyring) res, MkDisk (d_file d) ring')
  end.

Definition select_generation (w : WireFile) (counter : option GenerationState) : result WindowStoreError WireFile :=
  let malformed := match wf_prepared w with
    | Some next => negb (wf_version w =? WIRE_VERSION) || negb (wf_version next =? WIRE_VERSION)
                   || bool_decide (is_Some (wf_prepared next))
                   || negb (bool_decide (checked u64 (wf_generation w + 1) = Some (wf_generation next)))
    | None => false
    end in
  if malformed then Err WsGenerationMismatch
  else
    counter ← ok_or WsGenerationMismatch counter;
    w ← (if gs_generation counter =? wf_generation w
         then Ok (MkWire (wf_version w) (wf_generation w) (wf_entries w) None)
         else match gs_body_sha256 counter, wf_prepared w with
              | Some _, Some next =>
                  if gs_generation counter =? wf_generation next then Ok next else Err WsGenerationMismatch
              | _, _ => Err WsGenerationMismatch
              end);
    match gs_body_sha256 counter with
    | Some expected => if bool_decide (expected = body_digest w) then Ok w else Err WsGenerationMismatch
    | None => Ok w
    end.

(** ** Reading and writing the file *)

Definition window_tag (key body : list Z) : list Z := hmac_sha256 key (HMAC_CONTEXT_LABEL ++ body).

Definition verify_with_key (key bytes : list Z) : result WindowStoreError WireFile :=
  if count bytes <? HMAC_TAG_LEN then Err (WsInvalid "store file is shorter than the HMAC tag prefix")
  else
    let stored_tag := take 32 bytes in
    let body := drop 32 bytes in
    if negb (bool_decide (stored_tag = window_tag key body)) then Err WsHmacMismatch
    else
      w ← map_err (fun e => WsInvalid ("store body is not valid JSON: " +:+ e)) (wire_from_json body);
      if WIRE_VERSION_MAX <? wf_version w
      then Err (WsInvalid ("store file wire version " +:+ show_Z (wf_version w)
                           +:+ " is newer than this build reads (max 3)"))
      else Ok w.

(** Temporary file, rename, directory sync. *)
Definition write_atomic_raw (fault : PersistFault) (tag body : list Z) : WM unit := fun d =>
  match fault with
  | None => (Ok (), MkDisk (Some (tag ++ body)) (d_ring d))
  | Some (true, kind) => (Err (WsIo kind), MkDisk (Some (tag ++ body)) (d_ring d))
  | Some (false, kind) => (Err (WsIo kind), d)
  end.

Definition write_atomic (fault : PersistFault) (key : list Z) (w : WireFile) : WM unit :=
  let body := wire_to_json w in write_atomic_raw fault (window_tag key body) body.

(** [fs::read]; [None]: there is no file. *)
Definition read_store (env : WindowEnv) : WM (option (list Z)) :=
  wlift (fun d => match wv_read env with Some kind => Err (WsIo kind) | None => Ok (d_file d) end).

(** No file is a first run only when the keyring knows of none. *)
Definition absent_file {A} (env : WindowEnv) (r : KeyringEntryRef) (a : A) : WM A :=
  wlift (fun d =>
    generation ← load_generation (wv_ring env) 0 r (d_ring d);
    match generation with None => Ok a | Some _ => Err WsGenerationMismatch end).

Definition read_verified (env : WindowEnv) (key : list Z) (r : KeyringEntryRef) : WM WireFile :=
  bytes ← read_store env;
  match bytes with
  | Some bytes =>
      w ← wlift (fun _ => verify_with_key key bytes);
      wlift (fun d => counter ← load_counter (wv_ring env) 0 r (d_ring d); select_generation w counter)
  | None => absent_file env r (empty_wire 0)
  end.

Definition refuse_owner_coordinate (profile : KeyProfile) : result WindowStoreError unit :=
  map_err (fun _ => WsKeyMatchesOwnerPublicKey) (refuse_owner_key_coordinate (policy_window_state_key_id profile)).

Definition refuse_owner_key (env : WindowEnv) (key : list Z) (owner : OwnerKeyContext) : WM unit :=
  wlift (fun d => map_err (fun e => match e with
                                    | KeyMatchesOwnerPublicKey => WsKeyMatchesOwnerPublicKey
                                    | _ => WsKeyring
                                    end) (refuse_owner_public_key (wv_ring env) key owner (d_ring d))).

Definition load_window_key (env : WindowEnv) (moment : nat) (profile : KeyProfile) : WM (list Z) :=
  wlift (fun d => map_err (fun _ => WsKeyring)
                    (load_hmac_key_32 (wv_ring env) moment (policy_window_state_key_id profile) (d_ring d))).

Definition mint_key (env : WindowEnv) (profile : KeyProfile) : WM unit := fun d =>
  let '(res, ring') := rotate_keyring_secret_32 (wv_ring env) (wv_random env) (policy_window_state_key_id profile)
                         (d_ring d) in
  (map_err (fun _ => WsKeyring) res, MkDisk (d_file d) ring').

(** The key, and whether it is new. *)
Definition load_or_mint_key (env : WindowEnv) (profile : KeyProfile) : WM (list Z * bool) :=
  _ ← wlift (fun _ => refuse_owner_coordinate profile);
  loaded ← wlift (fun d => Ok (load_hmac_key_32 (wv_ring env) 0 (policy_window_state_key_id profile) (d_ring d)));
  match loaded with
  | Ok key =>
      _ ← refuse_owner_key env key (for_loaded_profile profile);
      mret (key, false)
  | Err _ =>
      _ ← mint_key env profile;
      key ← load_window_key env 1 profile;
      mret (key, true)
  end.

Definition read_for_inspection (env : WindowEnv) (profile : KeyProfile) : WM (option WireFile) :=
  _ ← wlift (fun _ => refuse_owner_coordinate profile);
  bytes ← read_store env;
  match bytes with
  | None => absent_file env (generation_entry_ref profile) None
  | Some bytes =>
      key ← load_window_key env 0 profile;
      _ ← refuse_owner_key env key (for_loaded_profile profile);
      w ← wlift (fun _ => verify_with_key key bytes);
      wlift (fun d =>
        counter ← load_counter (wv_ring env) 0 (generation_entry_ref profile) (d_ring d);
        w ← select_generation w counter; Ok (Some w))
  end.

(** The in-memory store gets the file's records, in order, as far as it takes them. *)
Fixpoint append_records (key : StateKey) (rs : list WireRecord) (dest : PolicyStateStore)
  : result WindowStoreError unit * PolicyStateStore :=
  match rs with
  | [] => (Ok (), dest)
  | r :: rs' =>
      let appended := if is_pending_record r then append_pending dest key (wr_ts_ms r) (wr_amount r)
                      else append dest key (wr_ts_ms r) (wr_amount r) in
      match appended with
      | (Ok _, dest') => append_records key rs' dest'
      | (Err e, dest') => (Err (WsInvalid ("in-memory store append failed: " +:+ StateStoreError_to_string e)), dest')
      end
  end.

Fixpoint append_buckets (profile_name : string) (es : list WireBucket) (dest : PolicyStateStore)
  : result WindowStoreError unit * PolicyStateStore :=
  match es with
  | [] => (Ok (), dest)
  | b :: es' =>
      let key := StateKey_new profile_name (wb_scope_specificity b) (wb_bucket b) (wb_window_secs b) in
      match append_records key (wb_records b) dest with
      | (Ok _, dest') => append_buckets profile_name es' dest'
      | (Err e, dest') => (Err e, dest')
      end
  end.

(** The file's state, [None] on a first run. *)
Definition load_wire (env : WindowEnv) (profile_name : string) (profile : KeyProfile) : WM (option WireFile) :=
  _ ← wlift (fun _ => refuse_owner_coordinate profile);
  bytes ← read_store env;
  match bytes with
  | None => absent_file env (generation_entry_ref profile) None
  | Some bytes =>
      key ← load_window_key env 0 profile;
      _ ← refuse_owner_key env key (for_profile profile_name profile);
      w ← wlift (fun _ => verify_with_key key bytes);
      wlift (fun d =>
        counter ← load_counter (wv_ring env) 0 (generation_entry_ref profile) (d_ring d);
        w ← select_generation w counter; Ok (Some w))
  end.

Definition load_into (env : WindowEnv) (profile_name : string) (profile : KeyProfile) (d : Disk)
    (dest : PolicyStateStore) : result WindowStoreError unit * PolicyStateStore :=
  match fst (load_wire env profile_name profile d) with
  | Err e => (Err e, dest)
  | Ok None => (Ok (), dest)
  | Ok (Some w) => append_buckets profile_name (wf_entries w) dest
  end.

(** ** Recording *)

Definition ensure_parent_dir (env : WindowEnv) : WM unit :=
  wlift (fun _ => match wv_create_dir env with Some kind => Err (WsIo kind) | None => Ok () end).

Definition lock_acquire (env : WindowEnv) : WM unit :=
  wlift (fun _ => match wv_lock env with
                  | LaFree => Ok ()
                  | LaHeld => Err WsWriterLocked
                  | LaFails kind => Err (WsIo kind)
                  end).

Definition clock_ms (env : WindowEnv) : WM Z :=
  wlift (fun _ => ok_or (WsInvalid "system clock is before UNIX epoch: second time provided was later than self")
                    (wv_clock env)).

(** The state with the records of a batch. *)
Definition with_records (w : WireFile) (batch : list (StateKey * WireRecord)) (now generation : Z) : WireFile :=
  MkWire WIRE_VERSION generation (prune_stale (foldl push_record (wf_entries w) batch) now) (wf_prepared w).

(** Commit to the next state, then write it. *)
Definition persist_next (env : WindowEnv) (key : list Z) (r : KeyringEntryRef) (w : WireFile)
    (batch : list (StateKey * WireRecord)) : WM unit :=
  now ← clock_ms env;
  generation ← wlift (fun d => next_generation (wv_ring env) 1 r (d_ring d));
  let next := with_records w batch now generation in
  _ ← write_generation env r next;
  write_atomic (wv_persist env 0) key next.

Definition settled_batch (entries : list WindowEntry) : list (StateKey * WireRecord) :=
  (fun e => (we_key e, confirmed_record (we_timestamp_ms e) (we_amount e))) <$> entries.

Definition pending_batch (v : WindowReservation) (entries : list WindowEntry) : list (StateKey * WireRecord) :=
  (fun e => (we_key e, pending_record (we_timestamp_ms e) (we_amount e) v)) <$> entries.

(** Whether the key was minted. *)
Definition record_settled (env : WindowEnv) (profile : KeyProfile) (entries : list WindowEntry)
    (require_admission : bool) : WM bool :=
  _ ← ensure_parent_dir env;
  _ ← lock_acquire env;
  '(key, newly_minted) ← load_or_mint_key env profile;
  let r := generation_entry_ref profile in
  w ← read_verified env key r;
  _ ← wlift (fun _ => if require_admission then admit_batch w entries else Ok ());
  _ ← persist_next env key r w (settled_batch entries);
  mret newly_minted.

Definition record_and_persist (env : WindowEnv) (profile : KeyProfile) (entries : list WindowEntry) : WM bool :=
  record_settled env profile entries false.
Definition record_authorized (env : WindowEnv) (profile : KeyProfile) (entries : list WindowEntry) : WM bool :=
  record_settled env profile entries true.

Definition record_pending (env : WindowEnv) (profile : KeyProfile) (entries : list WindowEntry)
    (v : WindowReservation) : WM bool :=
  _ ← ensure_parent_dir env;
  _ ← lock_acquire env;
  '(key, newly_minted) ← load_or_mint_key env profile;
  let r := generation_entry_ref profile in
  w ← read_verified env key r;
  _ ← wlift (fun _ => if file_holds_id w (rv_id v) then Err WsDuplicateReservation else admit_batch w entries);
  _ ← persist_next env key r w (pending_batch v entries);
  mret newly_minted.

(** ** Settling *)

(** Prepare beside the old state, commit, compact. *)
Definition commit_generation (env : WindowEnv) (key : list Z) (r : KeyringEntryRef) (original next : WireFile) : WM unit :=
  generation ← wlift (fun _ => increment_generation (wf_generation original));
  let next := MkWire (wf_version next) generation (wf_entries next) None in
  if wf_generation original =? 0 then
    _ ← write_generation env r next;
    write_atomic (wv_persist env 0) key next
  else
    let original := MkWire WIRE_VERSION (wf_generation original) (wf_entries original) (Some next) in
    _ ← write_atomic (wv_persist env 0) key original;
    _ ← write_generation env r next;
    quietly (write_atomic (wv_persist env 1) key next).

(** [mutate]: the records after the change, and whether one was touched. *)
Definition rewrite_records (env : WindowEnv) (profile : KeyProfile) (mutate : list WireBucket -> list WireBucket * bool)
  : WM unit :=
  _ ← ensure_parent_dir env;
  _ ← lock_acquire env;
  '(key, _) ← load_or_mint_key env profile;
  let r := generation_entry_ref profile in
  w ← read_verified env key r;
  let '(es, touched) := mutate (wf_entries w) in
  if negb touched then mret ()
  else
    now ← clock_ms env;
    commit_generation env key r w (MkWire WIRE_VERSION (wf_generation w) (prune_stale es now) (wf_prepared w)).

Definition opens (id : string) (r : WireRecord) : bool := bool_decide (wr_id r = id) && is_pending_record r.

Definition update_records (f : WireRecord -> WireRecord) (es : list WireBucket) : list WireBucket :=
  (fun b => set_records b (f <$> wb_records b)) <$> es.

Definition confirm_record (id : string) (close_ms : Z) (r : WireRecord) : WireRecord :=
  if opens id r
  then MkRecord close_ms (wr_amount r) (wr_id r) Confirmed (wr_tx_hash r) (wr_source r) (wr_sequence r) (wr_max_time r)
         (wr_pending_since_ms r) (wr_submission_ledger r) (wr_operator_required r)
  else r.

Definition confirm_entries (id : string) (close_ms : Z) (es : list WireBucket) : list WireBucket * bool :=
  (update_records (confirm_record id close_ms) es, existsb (opens id) (all_records es)).

(** The applying ledger's close time, in milliseconds. *)
Definition close_ms (created_at : option Z) : option Z :=
  time ← created_at; if 0 <? time then checked u64 (time * 1000) else None.

Definition confirm (env : WindowEnv) (profile : KeyProfile) (id : string) (created_at : option Z) : WM unit :=
  match close_ms created_at with
  | None => mret ()
  | Some ms => rewrite_records env profile (confirm_entries id ms)
  end.

Definition release_entries (id : string) (es : list WireBucket) : list WireBucket * bool :=
  let es' := retain_records (fun r => negb (opens id r)) es in
  (es', negb (Nat.eqb (length (all_records es')) (length (all_records es)))).

Definition release (env : WindowEnv) (profile : KeyProfile) (id : string) : WM unit :=
  rewrite_records env profile (release_entries id).

Definition mark_record (id : string) (r : WireRecord) : WireRecord :=
  if opens id r && negb (wr_operator_required r)
  then MkRecord (wr_ts_ms r) (wr_amount r) (wr_id r) (wr_status r) (wr_tx_hash r) (wr_source r) (wr_sequence r)
         (wr_max_time r) (wr_pending_since_ms r) (wr_submission_ledger r) true
  else r.

Definition mark_entries (id : string) (es : list WireBucket) : list WireBucket * bool :=
  (update_records (mark_record id) es,
   existsb (fun r => opens id r && negb (wr_operator_required r)) (all_records es)).

Definition mark_operator_required (env : WindowEnv) (profile : KeyProfile) (id : string) : WM unit :=
  rewrite_records env profile (mark_entries id).

(** ** Inspection *)

Definition reservation_of (r : WireRecord) : WindowReservation :=
  MkReservation (wr_id r) (wr_tx_hash r) (wr_source r) (wr_sequence r) (wr_max_time r) (wr_pending_since_ms r)
    (wr_submission_ledger r) (wr_operator_required r).

Definition see_record (seen : list WindowReservation) (r : WireRecord) : list WindowReservation :=
  if negb (is_pending_record r) || is_empty (wr_id r) then seen
  else if existsb (fun v => bool_decide (rv_id v = wr_id r)) seen then seen
  else seen ++ [reservation_of r].

(** By age, then by id; the sort is stable. *)
Definition reservation_before (a b : WindowReservation) : bool :=
  (rv_pending_since_ms a <? rv_pending_since_ms b)
  || ((rv_pending_since_ms a =? rv_pending_since_ms b) && String.leb (rv_id a) (rv_id b)).
Fixpoint insert_reservation (v : WindowReservation) (l : list WindowReservation) : list WindowReservation :=
  match l with
  | [] => [v]
  | u :: l' => if reservation_before v u then v :: l else u :: insert_reservation v l'
  end.

Definition collect_pending (w : WireFile) : list WindowReservation :=
  foldr insert_reservation [] (foldl see_record [] (all_records (wf_entries w))).

Definition holds_reservation (env : WindowEnv) (profile : KeyProfile) (id : string) : WM bool :=
  w ← read_for_inspection env profile;
  mret (match w with Some w => file_holds_id w id | None => false end).

Definition pending_reservations (env : WindowEnv) (profile : KeyProfile) : WM (list WindowReservation) :=
  w ← read_for_inspection env profile;
  mret (match w with Some w => collect_pending w | None => [] end).

(** ** Keys and reset *)

Definition verify_tag (env : WindowEnv) (key : list Z) : WM unit :=
  bytes ← read_store env;
  wlift (fun _ =>
    match bytes with
    | None => Ok ()
    | Some bytes =>
        if count bytes <? HMAC_TAG_LEN then Err (WsInvalid "store file is shorter than the HMAC tag prefix")
        else if negb (bool_decide (take 32 bytes = window_tag key (drop 32 bytes))) then Err WsHmacMismatch
        else Ok ()
    end).

Definition resign (env : WindowEnv) (new_key : list Z) : WM unit :=
  _ ← ensure_parent_dir env;
  _ ← lock_acquire env;
  bytes ← read_store env;
  match bytes with
  | None => mret ()
  | Some bytes =>
      if count bytes <? HMAC_TAG_LEN
      then wlift (fun _ => Err (WsInvalid "store file is shorter than the HMAC tag prefix"))
      else write_atomic_raw (wv_persist env 0) (window_tag new_key (drop 32 bytes)) (drop 32 bytes)
  end.

Inductive PreviousState := PsVerified | PsMissing | PsUnverifiable.

Record WipedBucket := MkWiped {
  wp_scope_specificity : Z;
  wp_bucket : string;
  wp_window_secs : Z;
  wp_confirmed_count : Z;
  wp_confirmed_total : Z;
  wp_pending_count : Z;
  wp_pending_total : Z;
}.

Record WipedAccrualRecord := MkAccrual {
  wa_previous : PreviousState;
  wa_entry_count : Z;
  wa_buckets : list WipedBucket;
  wa_truncated : bool;
  wa_generation_before : option Z;
  wa_generation_after : Z;
}.

(** The characters of a text, each its bytes. *)
Fixpoint chars_of (s : string) : list string :=
  match s with
  | EmptyString => []
  | String a s' =>
      match chars_of s' with
      | String b t :: cs => if is_continuation b then String a (String b t) :: cs else String a EmptyString :: String b t :: cs
      | cs => String a EmptyString :: cs
      end
  end.

Definition is_control (c : string) : bool :=
  match c with
  | String a EmptyString => (byte_val a <? 32) || (byte_val a =? 127)
  | String a (String b EmptyString) => (byte_val a =? 194) && byte_in 128 159 b
  | _ => false
  end.

Definition encoded_len (c : string) : Z :=
  if bool_decide (c = double_quote) || bool_decide (c = "\") then 2
  else if is_control c then 6 else len c.

Fixpoint take_encoded (bytes : Z) (cs : list string) : string :=
  match cs with
  | [] => EmptyString
  | c :: cs' => if bytes + encoded_len c <=? 64 then c +:+ take_encoded (bytes + encoded_len c) cs' else EmptyString
  end.

Definition bounded_reset_bucket (b : string) : string := take_encoded 0 (take 64 (chars_of b)).

Definition snapshot_record (snap : WipedBucket) (r : WireRecord) : WipedBucket :=
  match wr_status r with
  | Confirmed => MkWiped (wp_scope_specificity snap) (wp_bucket snap) (wp_window_secs snap)
      (sat_add u64 (wp_confirmed_count snap) 1) (sat_add i128 (wp_confirmed_total snap) (wr_amount r))
      (wp_pending_count snap) (wp_pending_total snap)
  | Pending => MkWiped (wp_scope_specificity snap) (wp_bucket snap) (wp_window_secs snap)
      (wp_confirmed_count snap) (wp_confirmed_total snap)
      (sat_add u64 (wp_pending_count snap) 1) (sat_add i128 (wp_pending_total snap) (wr_amount r))
  end.

Definition snapshot_bucket (now_ms : Z) (a : WipedAccrualRecord) (b : WireBucket) : WipedAccrualRecord :=
  let live := filter (fun r => record_is_live r now_ms (wb_window_secs b) = true) (wb_records b) in
  let snap := foldl snapshot_record
    (MkWiped (wb_scope_specificity b) (bounded_reset_bucket (wb_bucket b)) (wb_window_secs b) 0 0 0 0) live in
  let entry_count := foldl (fun n _ => sat_add u64 n 1) (wa_entry_count a) live in
  let full := negb (count (wa_buckets a) <? 8) in
  let none := (wp_confirmed_count snap =? 0) && (wp_pending_count snap =? 0) in
  MkAccrual (wa_previous a) entry_count
    (if none || full then wa_buckets a else wa_buckets a ++ [snap])
    (wa_truncated a || (negb none && full)) (wa_generation_before a) (wa_generation_after a).

Definition snapshot_accrual (w : WireFile) (now_ms : Z) (a : WipedAccrualRecord) : WipedAccrualRecord :=
  foldl (snapshot_bucket now_ms) a (wf_entries w).

Definition set_previous (p : PreviousState) (a : WipedAccrualRecord) : WipedAccrualRecord :=
  MkAccrual p (wa_entry_count a) (wa_buckets a) (wa_truncated a) (wa_generation_before a) (wa_generation_after a).

(** The key when it can be used. *)
Definition usable_key (env : WindowEnv) (profile : KeyProfile) : WM (option (list Z)) :=
  loaded ← wlift (fun d => Ok (load_hmac_key_32 (wv_ring env) 0 (policy_window_state_key_id profile) (d_ring d)));
  match loaded with
  | Ok key => _ ← refuse_owner_key env key (for_loaded_profile profile); mret (Some key)
  | Err KeyringNotFound | Err KeyDecodeFailed | Err (KeyLengthError _) => mret None
  | Err _ => wlift (fun _ => Err WsKeyring)
  end.

(** The key, and what a reset wipes. *)
Definition reset_snapshot (env : WindowEnv) (profile : KeyProfile) (now_ms : Z) : WM (option (list Z) * WipedAccrualRecord) :=
  _ ← wlift (fun _ => refuse_owner_coordinate profile);
  key ← usable_key env profile;
  counter ← wlift (fun d => load_counter (wv_ring env) 0 (generation_entry_ref profile) (d_ring d));
  let generation_before := option_map gs_generation counter in
  generation_after ← wlift (fun _ => increment_generation (default 0 generation_before));
  let accrual := MkAccrual PsMissing 0 [] false generation_before generation_after in
  bytes ← read_store env;
  match bytes with
  | None => mret (key, accrual)
  | Some bytes =>
      let unverified := set_previous PsUnverifiable accrual in
      match key with
      | None => mret (None, unverified)
      | Some k =>
          wlift (fun _ =>
            match (w ← verify_with_key k bytes; select_generation w counter) with
            | Ok w => Ok (key, snapshot_accrual w now_ms (set_previous PsVerified accrual))
            | Err WsHmacMismatch | Err (WsInvalid _) | Err WsGenerationMismatch => Ok (key, unverified)
            | Err e => Err e
            end)
      end
  end.

Inductive ResetError (E : Type) := RsStore (error : WindowStoreError) (minted : bool) | RsRecorder (e : E).

(** Under the lock: the key and the snapshot. *)
Definition reset_begin (env : WindowEnv) (profile : KeyProfile) (now_ms : Z) : WM (option (list Z) * WipedAccrualRecord) :=
  _ ← ensure_parent_dir env;
  _ ← lock_acquire env;
  reset_snapshot env profile now_ms.

(** The key a reset signs with, minted when there is none. *)
Definition reset_key (env : WindowEnv) (profile : KeyProfile) (key : option (list Z)) : WM (list Z) :=
  match key with
  | Some key => mret key
  | None => _ ← mint_key env profile; load_window_key env 1 profile
  end.

Definition reset_mutation (env : WindowEnv) (profile : KeyProfile) (key : option (list Z)) (generation_after : Z) : WM unit :=
  key ← reset_key env profile key;
  _ ← write_generation env (generation_entry_ref profile) (empty_wire generation_after);
  write_atomic (wv_persist env 0) key (empty_wire generation_after).

(** [record] writes the audit row before anything is wiped.  The outcome says
    whether a key was minted. *)
Definition reset {E} (env : WindowEnv) (profile : KeyProfile) (now_ms : Z)
    (record : WipedAccrualRecord -> result E unit) (d : Disk) : result (ResetError E) (bool * WipedAccrualRecord) * Disk :=
  match reset_begin env profile now_ms d with
  | (Err e, d') => (Err (RsStore _ e false), d')
  | (Ok (key, accrual), d0) =>
      match record accrual with
      | Err e => (Err (RsRecorder _ e), d0)
      | Ok _ =>
          let minted := match key with Some _ => false | None => is_ok (fst (mint_key env profile d0)) end in
          match reset_mutation env profile key (wa_generation_after accrual) d0 with
          | (Err e, d') => (Err (RsStore _ e minted), d')
          | (Ok _, d') => (Ok (minted, accrual), d')
          end
      end
  end.

End window.
