(* ===== verification/WindowStoreProps.v ===== *)
(** * Properties of the durable spending window

    The commitment in the keyring decides which state a file may show: whatever is
    put into the file, a call that reads it at all reads the state committed last.
    Runs of calls, with any system call failing and the file replaced in between,
    refine the abstract effects of the calls. *)

From S2P Require Import Prelude RustStr Json Bytes PolicyTypes StateStore Receipts Keyring WindowStore.
From stdpp Require Import options.
Set Default Proof Using "Type*".

Local Open Scope string_scope.
Local Open Scope list_scope.
Local Open Scope Z_scope.

(** ** Calls *)

Lemma wm_bind_inv {A B} (m : WM A) (f : A -> WM B) d r d' :
  (m ≫= f) d = (r, d') ->
  (exists e, m d = (Err e, d') /\ r = Err e) \/ (exists a d1, m d = (Ok a, d1) /\ f a d1 = (r, d')).
Proof.
  unfold mbind, WM_bind. destruct (m d) as [[a|e] d1]; intros H; [right; eauto|]. injection H as <- <-. left. eauto.
Qed.

Lemma wm_bind_Ok {A B} (m : WM A) (f : A -> WM B) d b d' :
  (m ≫= f) d = (Ok b, d') -> exists a d1, m d = (Ok a, d1) /\ f a d1 = (Ok b, d').
Proof. intros [(e & _ & ?)|H]%wm_bind_inv; [done|exact H]. Qed.

Lemma wlift_inv {A} (f : Disk -> result WindowStoreError A) d r d' : wlift f d = (r, d') -> f d = r /\ d' = d.
Proof. by intros [= <- <-]. Qed.

(** Inverts what succeeded. *)
Ltac wm_ok :=
  repeat match goal with
  | H : (_ ≫= _) _ = (Ok _, _) |- _ =>
      let a := fresh "a" in let d1 := fresh "d" in let H1 := fresh H in
      apply wm_bind_Ok in H as (a & d1 & H1 & H)
  | H : wlift _ _ = (_, _) |- _ => apply wlift_inv in H as [H ?]; try subst
  | H : mret _ _ = (_, _) |- _ => injection H as H ?; try subst
  end.

Section window.
Context `{S2 : !Sha2, BB : !Base64, SK : !Strkey, WJ : !WindowJson}.
Context {SL : Sha2Laws} {WL : WindowJsonLaws}.
Variable profile : KeyProfile.
Implicit Types (d : Disk) (w x : WireFile).

Local Abbreviation gref := (generation_entry_ref profile).
Local Abbreviation kref := (policy_window_state_key_id profile).

(** ** The commitment *)

Definition stripped w : WireFile := MkWire (wf_version w) (wf_generation w) (wf_entries w) None.

(** The state the keyring is committed to; [None]: nothing was ever recorded. *)
Definition committed d (ow : option WireFile) : Prop :=
  match ow with
  | None => d_ring d !! gref = None
  | Some w => d_ring d !! gref = Some (commitment_to_json (wf_generation w) (body_digest w)) /\ wf_prepared w = None
  end.

Definition base (ow : option WireFile) : WireFile := default (empty_wire 0) ow.

(** A state the file could show. *)
Definition candidate d x : Prop :=
  exists bytes file, d_file d = Some bytes /\ wire_from_json (drop 32 bytes) = Ok file /\
    (x = stripped file \/ wf_prepared file = Some x).

(** Two bodies with one hash. *)
Definition collides x w : Prop :=
  wire_to_json x <> wire_to_json w /\ sha256 (wire_to_json x) = sha256 (wire_to_json w).

Lemma gref_ne_kref : gref <> kref.
Proof.
  unfold generation_entry_ref, generation_account. destruct kref as [s a]. cbn. intros [= H].
  apply (f_equal String.length) in H. rewrite str_length_app in H. cbn in H. lia.
Qed.

Lemma commitment_not_integer g h : exists e, parse_int u64 (trim (commitment_to_json g h)) = Err e.
Proof.
  destruct (commitment_braced g h) as [s ->]. rewrite (trim_plain "{" (s +:+ "}") "}" (String "{" s)) by done.
  by eexists.
Qed.

Lemma body_digest_inj x w : body_digest x = body_digest w -> sha256 (wire_to_json x) = sha256 (wire_to_json w).
Proof.
  unfold body_digest. intros H. enough (E : Ok (E := HexDecodeError) (sha256 (wire_to_json x)) = Ok (sha256 (wire_to_json w))) by congruence.
  rewrite <- (decode_chunks_encode 0 (sha256 (wire_to_json x)) (sha256_bytes _)), H.
  apply decode_chunks_encode, sha256_bytes.
Qed.

Lemma same_digest x w : body_digest x = body_digest w -> x = w \/ collides x w.
Proof.
  intros H%body_digest_inj. destruct (decide (wire_to_json x = wire_to_json w)) as [E|E]; [|by right].
  left. apply (f_equal wire_from_json) in E. rewrite !wire_from_to in E. by injection E.
Qed.

Lemma load_counter_committed env k d ow c :
  committed d ow -> load_counter env k gref (d_ring d) = Ok c ->
  c = (fun w => MkGeneration (wf_generation w) (Some (body_digest w))) <$> ow.
Proof.
  intros Hc H. unfold load_counter in H. res_inv. unfold get_password in H. destruct (re_read env k gref); [done|].
  destruct ow as [w|]; cbn in Hc; [destruct Hc as [Hc _]|]; rewrite Hc in H; cbn in H; [|by injection H as <-].
  destruct (commitment_not_integer (wf_generation w) (body_digest w)) as [e He]. rewrite He, commitment_from_to in H.
  cbn in H. destruct (_ || _); [done|]. by injection H as <-.
Qed.

Lemma select_generation_Ok x g h y :
  select_generation x (Some (MkGeneration g (Some h))) = Ok y ->
  h = body_digest y /\ g = wf_generation y /\ wf_prepared y = None /\ (y = stripped x \/ wf_prepared x = Some y).
Proof.
  unfold select_generation. destruct (match wf_prepared x with Some _ => _ | None => _ end) eqn:Em; [done|].
  cbn [ok_or mbind result_bind gs_generation gs_body_sha256].
  destruct (Z.eqb_spec g (wf_generation x)) as [->|Hg].
  - cbn. case_bool_decide as Hh; [|done]. intros [= <-]. split; [done|]. split; [done|]. split; [done|by left].
  - destruct (wf_prepared x) as [n|] eqn:Ep; [|done].
    destruct (Z.eqb_spec g (wf_generation n)) as [->|]; [cbn|by intros].
    destruct (bool_decide_reflect (h = body_digest n)) as [Hh|]; [|done]. intros [= <-]. split; [done|]. split; [done|]. split; [|by right]. rewrite !orb_false_iff in Em. destruct Em as [[_ Em] _].
    apply bool_decide_eq_false in Em. destruct (wf_prepared n); [|done]. destruct Em. eauto.
Qed.

(** Reading changes nothing. *)
Lemma read_verified_disk env key r d res d' : read_verified env key r d = (res, d') -> d' = d.
Proof.
  unfold read_verified, read_store, absent_file. intros H.
  apply wm_bind_inv in H as [(e & H & _)|(c & d1 & H1 & H)]; [by wm_ok|]. wm_ok. destruct c; [|by wm_ok].
  apply wm_bind_inv in H as [(e & H & _)|(x & d2 & H2 & H)]; by wm_ok.
Qed.

(** A call reads the committed state, or the file holds a body with its hash. *)
Lemma read_committed env key d d' ow x :
  committed d ow -> read_verified env key gref d = (Ok x, d') ->
  d' = d /\ (x = base ow \/ candidate d x /\ collides x (base ow)).
Proof.
  intros Hc H. unfold read_verified, read_store, absent_file in H. wm_ok.
  destruct (wv_read env); [done|]. injection H0 as <-. destruct (d_file d) as [bytes|] eqn:Ef; wm_ok.
  - rename H0 into Hv. res_inv. split; [done|].
    pose proof (load_counter_committed _ _ _ _ _ Hc H0) as ->.
    destruct ow as [w|];
      [|cbn in H; unfold select_generation in H; by destruct (match wf_prepared a with Some _ => _ | None => _ end)].
    cbn in H. apply select_generation_Ok in H as (Hh & _ & _ & Hx).
    destruct (same_digest x w (eq_sym Hh)) as [->|Hcol]; [by left|]. right. split; [|done].
    exists bytes, a. split; [done|]. split; [|by destruct Hx; [left|right]].
    unfold verify_with_key in Hv. destruct (_ <? _); [done|]. destruct (negb _); [done|]. res_inv.
    destruct (_ <? _); [done|]. by injection Hv as ->.
  - unfold load_generation in H. res_inv. split; [done|]. left.
    pose proof (load_counter_committed _ _ _ _ _ Hc H1) as ->. destruct ow; cbn in *; [done|]. by injection H as <-.
Qed.

(** ** What the calls leave alone *)

(** The file and the commitment are as before. *)
Definition quiet d d' : Prop := d_file d' = d_file d /\ d_ring d' !! gref = d_ring d !! gref.

Lemma quiet_refl d : quiet d d.
Proof. done. Qed.
Lemma quiet_committed d d' ow : quiet d d' -> committed d ow -> committed d' ow.
Proof. intros [_ Hr]. unfold committed. destruct ow; by rewrite Hr. Qed.
Lemma quiet_candidate d d' x : quiet d d' -> candidate d' x -> candidate d x.
Proof. intros [Hf _] (b & f & Hb & H). exists b, f. by rewrite <- Hf. Qed.

Lemma mint_quiet env d r d' : mint_key env profile d = (r, d') -> quiet d d'.
Proof.
  unfold mint_key, rotate_keyring_secret_32, set_password. destruct (entry_new _ _); cbn; [|by intros [= _ <-]].
  destruct (re_write _ _) as [[f []]|]; cbn; intros [= _ <-]; split; try done; cbn;
    by rewrite lookup_insert_ne by (symmetry; apply gref_ne_kref).
Qed.

Lemma load_or_mint_quiet env d r d' : load_or_mint_key env profile d = (r, d') -> quiet d d'.
Proof.
  unfold load_or_mint_key. intros H. apply wm_bind_inv in H as [(e & H & _)|(a & d1 & H1 & H)]; [by wm_ok|].
  apply wm_bind_inv in H as [(e & H & _)|(b & d2 & H2 & H)]; [by wm_ok|]. wm_ok. destruct b.
  - apply wm_bind_inv in H as [(e & H & _)|(c & d3 & H3 & H)]; unfold refuse_owner_key in *; by wm_ok.
  - apply wm_bind_inv in H as [(e0 & H & _)|(c & d3 & H3 & H)]; [by eapply mint_quiet|].
    apply mint_quiet in H3. unfold load_window_key in H.
    apply wm_bind_inv in H as [(e0 & H & _)|(k & d4 & H4 & H)]; by wm_ok.
Qed.

(** The way into every call that changes records. *)
Definition opening {A} (env : WindowEnv) (body : list Z -> bool -> WireFile -> WM A) : WM A :=
  _ ← ensure_parent_dir env;
  _ ← lock_acquire env;
  '(key, newly_minted) ← load_or_mint_key env profile;
  w ← read_verified env key gref;
  body key newly_minted w.

Lemma opening_inv {A} env (body : list Z -> bool -> WireFile -> WM A) d r d' ow :
  committed d ow -> opening env body d = (r, d') ->
  (exists e, r = Err e /\ quiet d d') \/
  (exists key minted w d1, quiet d d1 /\ (w = base ow \/ candidate d w /\ collides w (base ow)) /\
     body key minted w d1 = (r, d')).
Proof.
  intros Hc H. unfold opening, ensure_parent_dir, lock_acquire in H.
  apply wm_bind_inv in H as [(e & H & ->)|(a & d1 & H1 & H)]; [left; exists e; by wm_ok|]. wm_ok.
  apply wm_bind_inv in H as [(e & H & ->)|(b & d2 & H2 & H)]; [left; exists e; by wm_ok|]. wm_ok.
  apply wm_bind_inv in H as [(e & H & ->)|([key minted] & d3 & H3 & H)];
    [left; exists e; split; [done|]; by eapply load_or_mint_quiet|].
  apply load_or_mint_quiet in H3. pose proof (quiet_committed _ _ _ H3 Hc) as Hc3.
  apply wm_bind_inv in H as [(e & H & ->)|(w & d4 & H4 & H)].
  - left. exists e. split; [done|].
    by apply read_verified_disk in H as ->.
  - right. destruct (read_committed _ _ _ _ _ _ Hc3 H4) as [-> Hw].
    exists key, minted, w, d3. split; [done|]. split; [|done].
    destruct Hw as [?|[Hcand ?]]; [by left|right]. split; [by eapply quiet_candidate|done].
Qed.

(** ** Committing *)

Lemma write_generation_inv env w d r d' ow :
  committed d ow -> wf_prepared w = None -> write_generation env gref w d = (r, d') ->
  d_file d' = d_file d /\ (committed d' ow \/ committed d' (Some w)) /\ (r = Ok () -> committed d' (Some w)).
Proof.
  intros Hc Hp. unfold write_generation, set_password. destruct (entry_new _ _); [|by intros [= <- <-]; split; [|split; [left|]]].
  assert (Hn : committed (MkDisk (d_file d) (<[gref := commitment_to_json (wf_generation w) (body_digest w)]> (d_ring d))) (Some w)).
  { split; [|done]. cbn. by rewrite lookup_insert_eq. }
  destruct (re_write _ _) as [[f []]|]; intros [= <- <-]; (split; [done|]).
  - split; [by right|done].
  - split; [left; by destruct d|done].
  - split; [by right|done].
Qed.

Lemma write_atomic_ring fault key w d r d' : write_atomic fault key w d = (r, d') -> d_ring d' = d_ring d.
Proof. unfold write_atomic, write_atomic_raw. destruct fault as [[[] k]|]; by intros [= _ <-]. Qed.

Lemma ring_committed d d' ow : d_ring d' = d_ring d -> committed d ow -> committed d' ow.
Proof. unfold committed. by intros ->. Qed.

Lemma next_generation_committed env k d ow g :
  committed d ow -> next_generation env k gref (d_ring d) = Ok g -> g = wf_generation (base ow) + 1.
Proof.
  intros Hc H. unfold next_generation, load_generation in H. res_inv.
  pose proof (load_counter_committed _ _ _ _ _ Hc H1) as ->. unfold increment_generation in H. res_inv.
  apply checked_Some in H as [-> _]. by destruct ow.
Qed.

(** A commit: after it the commitment is to the next state, and when it fails, to
    that or to the one before. *)
Definition commits d d' (ow : option WireFile) w (acked : bool) : Prop :=
  (committed d' ow \/ committed d' (Some w)) /\ (acked = true -> committed d' (Some w)).

Lemma commits_then_write env key w d r d' ow fault :
  committed d ow -> wf_prepared w = None ->
  (_ ← write_generation env gref w; write_atomic fault key w) d = (r, d') -> commits d d' ow w (is_ok r).
Proof.
  intros Hc Hp H. apply wm_bind_inv in H as [(e & H & ->)|([] & d1 & H1 & H)].
  - destruct (write_generation_inv _ _ _ _ _ _ Hc Hp H) as (_ & H1 & _). by split.
  - destruct (write_generation_inv _ _ _ _ _ _ Hc Hp H1) as (_ & _ & H2). specialize (H2 eq_refl).
    apply write_atomic_ring in H. pose proof (ring_committed _ _ _ H H2). split; [by right|done].
Qed.

Lemma persist_next_inv env key w batch d r d' ow :
  committed d ow -> wf_prepared w = None -> persist_next env key gref w batch d = (r, d') ->
  (exists e, r = Err e /\ d' = d) \/
  (exists now, wv_clock env = Some now /\
     commits d d' ow (with_records w batch now (wf_generation (base ow) + 1)) (is_ok r)).
Proof.
  intros Hc Hp H. unfold persist_next, clock_ms in H.
  apply wm_bind_inv in H as [(e & H & ->)|(now & d1 & H1 & H)]; [left; wm_ok; eauto|]. wm_ok. res_inv.
  apply wm_bind_inv in H as [(e & H & ->)|(g & d2 & H2 & H)]; [left; wm_ok; eauto|]. wm_ok.
  apply (next_generation_committed _ _ _ _ _ Hc) in H2 as ->. right. exists now. split; [done|].
  by eapply commits_then_write.
Qed.

Lemma commit_generation_inv env key x next d r d' ow :
  committed d ow -> commit_generation env key gref x next d = (r, d') ->
  (exists e, r = Err e /\ committed d' ow) \/
  commits d d' ow (MkWire (wf_version next) (wf_generation x + 1) (wf_entries next) None) (is_ok r).
Proof.
  intros Hc H. set (w := MkWire _ _ _ None). assert (Hp : wf_prepared w = None) by done.
  unfold commit_generation in H. apply wm_bind_inv in H as [(e & H & ->)|(g & d1 & H1 & H)]; [left; wm_ok; eauto|].
  wm_ok. unfold increment_generation in H1. res_inv. apply checked_Some in H1 as [-> _]. fold w in H.
  destruct (wf_generation x =? 0); [right; by eapply commits_then_write|].
  apply wm_bind_inv in H as [(e & H & ->)|([] & d1 & H1 & H)].
  - left. exists e. split; [done|]. apply write_atomic_ring in H. by eapply ring_committed.
  - apply write_atomic_ring in H1. pose proof (ring_committed _ _ _ H1 Hc) as Hc1. right.
    apply wm_bind_inv in H as [(e & H & ->)|([] & d2 & H2 & H)].
    + destruct (write_generation_inv _ _ _ _ _ _ Hc1 Hp H) as (_ & H2 & _). by split.
    + destruct (write_generation_inv _ _ _ _ _ _ Hc1 Hp H2) as (_ & _ & H3). specialize (H3 eq_refl).
      unfold quietly in H. injection H as <- <-. destruct (write_atomic _ _ _ d2) as [r2 d3] eqn:Ew.
      apply write_atomic_ring in Ew. pose proof (ring_committed _ _ _ Ew H3). split; [by right|done].
Qed.

(** ** The abstract effects *)

Inductive WCall :=
| CSettled (entries : list WindowEntry) (require_admission : bool)
| CPending (entries : list WindowEntry) (v : WindowReservation)
| CConfirm (id : string) (created_at : option Z)
| CRelease (id : string)
| CMark (id : string)
| CReset (now : Z) (record : WipedAccrualRecord -> result unit unit)
| CResign (new_key : list Z).

(** Whether the call succeeded, and the disk after it. *)
Definition wexec (env : WindowEnv) (c : WCall) d : bool * Disk :=
  match c with
  | CSettled entries adm => let '(r, d') := record_settled env profile entries adm d in (is_ok r, d')
  | CPending entries v => let '(r, d') := record_pending env profile entries v d in (is_ok r, d')
  | CConfirm id at_ => let '(r, d') := confirm env profile id at_ d in (is_ok r, d')
  | CRelease id => let '(r, d') := release env profile id d in (is_ok r, d')
  | CMark id => let '(r, d') := mark_operator_required env profile id d in (is_ok r, d')
  | CReset now record => let '(r, d') := reset env profile now record d in (is_ok r, d')
  | CResign key => let '(r, d') := resign env key d in (is_ok r, d')
  end.

Definition mutation_of (c : WCall) : option (list WireBucket -> list WireBucket * bool) :=
  match c with
  | CConfirm id at_ => Some (match close_ms at_ with Some ms => confirm_entries id ms | None => fun es => (es, false) end)
  | CRelease id => Some (release_entries id)
  | CMark id => Some (mark_entries id)
  | _ => None
  end.

(** What a call makes of the state. *)
Inductive weffect (env : WindowEnv) : WCall -> option WireFile -> option WireFile -> Prop :=
| we_settled entries adm ow now :
    wv_clock env = Some now -> (adm = true -> admit_batch (base ow) entries = Ok ()) ->
    weffect env (CSettled entries adm) ow
      (Some (with_records (base ow) (settled_batch entries) now (wf_generation (base ow) + 1)))
| we_pending entries v ow now :
    wv_clock env = Some now -> file_holds_id (base ow) (rv_id v) = false -> admit_batch (base ow) entries = Ok () ->
    weffect env (CPending entries v) ow
      (Some (with_records (base ow) (pending_batch v entries) now (wf_generation (base ow) + 1)))
| we_touched c mutate ow now :
    wv_clock env = Some now -> mutation_of c = Some mutate -> snd (mutate (wf_entries (base ow))) = true ->
    weffect env c ow
      (Some (MkWire WIRE_VERSION (wf_generation (base ow) + 1) (prune_stale (fst (mutate (wf_entries (base ow)))) now) None))
| we_untouched c mutate ow :
    mutation_of c = Some mutate -> snd (mutate (wf_entries (base ow))) = false -> weffect env c ow ow
| we_reset now record ow : weffect env (CReset now record) ow (Some (empty_wire (wf_generation (base ow) + 1)))
| we_resign key ow : weffect env (CResign key) ow ow.

(** One call against its effect. *)
Definition refines env c (acked : bool) (ow : option WireFile) d' : Prop :=
  exists ow', committed d' ow' /\ (weffect env c ow ow' \/ acked = false /\ ow' = ow).

Lemma refines_commits env c acked ow w d d' :
  weffect env c ow (Some w) -> commits d d' ow w acked -> refines env c acked ow d'.
Proof.
  intros He [[H1|H1] H2].
  - destruct acked; [exists (Some w); split; [by apply H2|by left]|]. exists ow. split; [done|by right].
  - exists (Some w). split; [done|by left].
Qed.

Lemma base_prepared d ow : committed d ow -> wf_prepared (base ow) = None.
Proof. destruct ow; [by intros [_ ?]|done]. Qed.

(** The body read collides with the committed one. *)
Definition caught d (ow : option WireFile) : Prop := exists x, candidate d x /\ collides x (base ow).

Lemma settled_refines env entries adm d ow acked d' :
  committed d ow -> wexec env (CSettled entries adm) d = (acked, d') ->
  refines env (CSettled entries adm) acked ow d' \/ caught d ow.
Proof.
  intros Hc. cbn. destruct (record_settled env profile entries adm d) as [r d1] eqn:H. intros [= <- <-].
  destruct (opening_inv _ _ _ _ _ _ Hc H) as [(e & -> & Hq)|(key & m & w & d2 & Hq & [->|Hx] & H2)]; [| |right; by exists w].
  - left. exists ow. split; [by eapply quiet_committed|by right].
  - left. pose proof (quiet_committed _ _ _ Hq Hc) as Hc2. clear H.
    apply wm_bind_inv in H2 as [(e & H & ->)|([] & d3 & H3 & H)]; wm_ok; [exists ow; split; [done|by right]|].
    apply wm_bind_inv in H as [(e & H & ->)|([] & d4 & H4 & H)]; wm_ok.
    + destruct (persist_next_inv _ _ _ _ _ _ _ _ Hc2 (base_prepared _ _ Hc2) H) as [(e' & _ & ->)|(now & Hn & Hcm)];
        [exists ow; split; [done|by right]|].
      eapply refines_commits; [|exact Hcm]. constructor; [done|]. by intros ->.
    + destruct (persist_next_inv _ _ _ _ _ _ _ _ Hc2 (base_prepared _ _ Hc2) H4) as [(e' & ? & ->)|(now & Hn & Hcm)]; [done|].
      eapply refines_commits; [|exact Hcm]. constructor; [done|]. by intros ->.
Qed.

Lemma refines_same env c ow d : committed d ow -> refines env c false ow d.
Proof. intros. exists ow. split; [done|by right]. Qed.

Lemma pending_refines env entries v d ow acked d' :
  committed d ow -> wexec env (CPending entries v) d = (acked, d') ->
  refines env (CPending entries v) acked ow d' \/ caught d ow.
Proof.
  intros Hc. cbn. destruct (record_pending env profile entries v d) as [r d1] eqn:H. intros [= <- <-].
  destruct (opening_inv _ _ _ _ _ _ Hc H) as [(e & -> & Hq)|(key & m & w & d2 & Hq & [->|Hx] & H2)]; [| |right; by exists w].
  - left. by eapply refines_same, quiet_committed.
  - left. pose proof (quiet_committed _ _ _ Hq Hc) as Hc2. clear H.
    apply wm_bind_inv in H2 as [(e & H & ->)|([] & d3 & H3 & H)]; wm_ok; [by apply refines_same|].
    destruct (file_holds_id (base ow) (rv_id v)) eqn:Ei; [done|].
    apply wm_bind_inv in H as [(e & H & ->)|([] & d4 & H4 & H)]; wm_ok.
    + destruct (persist_next_inv _ _ _ _ _ _ _ _ Hc2 (base_prepared _ _ Hc2) H) as [(e' & _ & ->)|(now & Hn & Hcm)];
        [by apply refines_same|]. by eapply refines_commits; [constructor|].
    + destruct (persist_next_inv _ _ _ _ _ _ _ _ Hc2 (base_prepared _ _ Hc2) H4) as [(e' & ? & ->)|(now & Hn & Hcm)]; [done|].
      by eapply refines_commits; [constructor|].
Qed.

Lemma rewrite_refines env c mutate d ow r d' :
  mutation_of c = Some mutate -> committed d ow -> rewrite_records env profile mutate d = (r, d') ->
  refines env c (is_ok r) ow d' \/ caught d ow.
Proof.
  intros Hm Hc H.
  destruct (opening_inv _ _ _ _ _ _ Hc H) as [(e & -> & Hq)|(key & m & w & d2 & Hq & [->|Hx] & H2)]; [| |right; by exists w].
  - left. by eapply refines_same, quiet_committed.
  - left. pose proof (quiet_committed _ _ _ Hq Hc) as Hc2. clear H.
    destruct (mutate (wf_entries (base ow))) as [es touched] eqn:Et. destruct touched; cbn [negb] in H2; wm_ok.
    + apply wm_bind_inv in H2 as [(e & H & ->)|(now & d3 & H3 & H)]; unfold clock_ms in *; wm_ok; [by apply refines_same|]. res_inv.
      destruct (commit_generation_inv _ _ _ _ _ _ _ _ Hc2 H) as [(e & -> & Hc3)|Hcm]; [by apply refines_same|].
      eapply refines_commits; [|exact Hcm]. cbn.
      pose proof (we_touched env c mutate ow now) as He. rewrite Et in He. by apply He.
    + exists ow. split; [done|]. left. apply (we_untouched _ _ mutate); [done|by rewrite Et].
Qed.

Lemma usable_key_quiet env d r d' : usable_key env profile d = (r, d') -> d' = d.
Proof.
  unfold usable_key. intros H. apply wm_bind_inv in H as [(e & H & _)|(b & d2 & H2 & H)]; [by wm_ok|]. wm_ok.
  destruct b as [k|[]]; try by wm_ok.
  apply wm_bind_inv in H as [(e & H & _)|(c & d4 & H4 & H)]; unfold refuse_owner_key in *; by wm_ok.
Qed.

Lemma reset_snapshot_quiet env now d r d' : reset_snapshot env profile now d = (r, d') -> d' = d.
Proof.
  unfold reset_snapshot. intros H. apply wm_bind_inv in H as [(e & H & _)|(a & d1 & H1 & H)]; [by wm_ok|]. wm_ok.
  apply wm_bind_inv in H as [(e & H & _)|(key & d3 & H3 & H)]; [by eapply usable_key_quiet|].
  apply usable_key_quiet in H3 as ->.
  apply wm_bind_inv in H as [(e & H & _)|(c & d3 & H3 & H)]; [by wm_ok|]. wm_ok.
  apply wm_bind_inv in H as [(e & H & _)|(g & d3 & H4 & H)]; [by wm_ok|]. wm_ok.
  apply wm_bind_inv in H as [(e & H & _)|(bytes & d3 & H5 & H)]; unfold read_store in *; [by wm_ok|]. wm_ok.
  destruct bytes; [|by wm_ok]. destruct key; by wm_ok.
Qed.

Lemma snapshot_generation now es a : wa_generation_after (foldl (snapshot_bucket now) a es) = wa_generation_after a.
Proof. revert a. induction es as [|b es IH]; intros a; [done|]. cbn. by rewrite IH. Qed.

Lemma reset_snapshot_generation env now d key a d' ow :
  committed d ow -> reset_snapshot env profile now d = (Ok (key, a), d') ->
  wa_generation_after a = wf_generation (base ow) + 1.
Proof.
  intros Hc H. unfold reset_snapshot in H. apply wm_bind_Ok in H as (u & d1 & H0 & H). wm_ok.
  apply usable_key_quiet in H1 as ->.
  pose proof (load_counter_committed _ _ _ _ _ Hc H2) as ->. clear H2.
  unfold increment_generation in H3. res_inv. apply checked_Some in H3 as [-> _].
  set (g := default 0 _) in H. assert (wf_generation (base ow) = g) as -> by (subst g; by destruct ow).
  destruct a3 as [bytes|]; wm_ok; [|by simplify_eq].
  destruct a0 as [k|]; wm_ok; [|by simplify_eq].
  destruct (_ ≫= _) as [x|[]] eqn:Ex in H; try done; injection H as <- <-; [|done..].
  apply snapshot_generation.
Qed.

Lemma reset_begin_inv env now d r d' ow :
  committed d ow -> reset_begin env profile now d = (r, d') ->
  d' = d /\ forall key a, r = Ok (key, a) -> wa_generation_after a = wf_generation (base ow) + 1.
Proof.
  intros Hc H. unfold reset_begin, ensure_parent_dir, lock_acquire in H.
  apply wm_bind_inv in H as [(e & H & ->)|(a & d1 & H1 & H)]; [by wm_ok|]. wm_ok.
  apply wm_bind_inv in H as [(e & H & ->)|(b & d2 & H2 & H)]; [by wm_ok|]. wm_ok.
  split; [by eapply reset_snapshot_quiet|]. intros key a' ->. by eapply reset_snapshot_generation.
Qed.

Lemma reset_key_quiet env key d r d' : reset_key env profile key d = (r, d') -> quiet d d'.
Proof.
  unfold reset_key. intros H. destruct key; [by wm_ok|].
  apply wm_bind_inv in H as [(e & H & _)|(b & d2 & H2 & H)]; [by eapply mint_quiet|].
  apply mint_quiet in H2. unfold load_window_key in H. by wm_ok.
Qed.

Lemma reset_refines env now record d ow acked d' :
  committed d ow -> wexec env (CReset now record) d = (acked, d') -> refines env (CReset now record) acked ow d'.
Proof.
  intros Hc. cbn. unfold reset. destruct (reset_begin env profile now d) as [r0 d0] eqn:H0.
  destruct (reset_begin_inv _ _ _ _ _ _ Hc H0) as [-> Hg].
  destruct r0 as [[key a]|e]; [|intros [= <- <-]; by apply refines_same].
  destruct (record a); [|intros [= <- <-]; by apply refines_same].
  rewrite (Hg key a eq_refl). destruct (reset_mutation _ _ _ _ d) as [r1 d1] eqn:H1. intros H.
  assert (acked = is_ok r1 /\ d' = d1) as [-> ->] by (destruct r1; by injection H as <- <-). clear H.
  apply wm_bind_inv in H1 as [(e & H & ->)|(k & d2 & H2 & H)].
  - apply reset_key_quiet in H. by eapply refines_same, quiet_committed.
  - apply reset_key_quiet in H2. pose proof (quiet_committed _ _ _ H2 Hc) as Hc2.
    eapply refines_commits; [apply we_reset|]. by eapply commits_then_write.
Qed.

Lemma resign_refines env key d ow acked d' :
  committed d ow -> wexec env (CResign key) d = (acked, d') -> refines env (CResign key) acked ow d'.
Proof.
  intros Hc. cbn. destruct (resign env key d) as [r d1] eqn:H. intros [= <- <-].
  assert (Hr : d_ring d1 = d_ring d).
  { unfold resign, ensure_parent_dir, lock_acquire, read_store in H.
    apply wm_bind_inv in H as [(e & H & _)|(a & d2 & H1 & H)]; [by wm_ok|]. wm_ok.
    apply wm_bind_inv in H as [(e & H & _)|(b & d2 & H2 & H)]; [by wm_ok|]. wm_ok.
    apply wm_bind_inv in H as [(e & H & _)|(c & d2 & H3 & H)]; [by wm_ok|]. wm_ok.
    destruct c as [bytes|]; [|by wm_ok]. destruct (_ <? _); [by wm_ok|].
    unfold write_atomic_raw in H. destruct (wv_persist env 0) as [[[] ?]|]; by injection H as _ <-. }
  exists ow. split; [by eapply ring_committed|left; apply we_resign].
Qed.

(** One call, whatever the system answers. *)
Lemma call_refines env c d ow acked d' :
  committed d ow -> wexec env c d = (acked, d') -> refines env c acked ow d' \/ caught d ow.
Proof.
  intros Hc H. destruct c;
    [by eapply settled_refines|by eapply pending_refines| | | |left; by eapply reset_refines|left; by eapply resign_refines].
  - cbn in H. unfold confirm in H. destruct (close_ms created_at) as [ms|] eqn:Em.
    + destruct (rewrite_records _ _ _ d) as [r d1] eqn:Hr. injection H as <- <-.
      eapply rewrite_refines; [|done|done]. cbn. by rewrite Em.
    + injection H as <- <-. left. exists ow. split; [done|left].
      eapply we_untouched; [done|]. cbn. by rewrite Em.
  - cbn in H. unfold release in H. destruct (rewrite_records _ _ _ d) as [r d1] eqn:Hr. injection H as <- <-.
    by eapply rewrite_refines.
  - cbn in H. unfold mark_operator_required in H. destruct (rewrite_records _ _ _ d) as [r d1] eqn:Hr. injection H as <- <-.
    by eapply rewrite_refines.
Qed.

(** ** Runs *)

Inductive WEvent := EvCall (env : WindowEnv) (c : WCall) (acked : bool) | EvReplaced (file : option (list Z)).

(** Calls one after the other; in between anyone may replace the file or remove it. *)
Inductive wrun : Disk -> list WEvent -> Disk -> Prop :=
| wrun_nil d : wrun d [] d
| wrun_call d env c acked d1 evs d' :
    wexec env c d = (acked, d1) -> wrun d1 evs d' -> wrun d (EvCall env c acked :: evs) d'
| wrun_replaced d file evs d' : wrun (MkDisk file (d_ring d)) evs d' -> wrun d (EvReplaced file :: evs) d'.

(** Acknowledged calls have their effect, the others may have. *)
Inductive weffects : list WEvent -> option WireFile -> option WireFile -> Prop :=
| wes_nil ow : weffects [] ow ow
| wes_call env c acked evs ow ow1 ow' :
    weffect env c ow ow1 \/ acked = false /\ ow1 = ow -> weffects evs ow1 ow' ->
    weffects (EvCall env c acked :: evs) ow ow'
| wes_replaced file evs ow ow' : weffects evs ow ow' -> weffects (EvReplaced file :: evs) ow ow'.

(** At some point of the run the file held another body with the hash of the
    committed one. *)
Definition collision_seen d evs ow : Prop :=
  exists evs1 evs2 d1 ow1, evs = evs1 ++ evs2 /\ wrun d evs1 d1 /\ weffects evs1 ow ow1 /\ caught d1 ow1.

Lemma runs_refine d evs d' ow :
  wrun d evs d' -> committed d ow ->
  (exists ow', weffects evs ow ow' /\ committed d' ow' /\
     forall env key x d1, read_verified env key gref d' = (Ok x, d1) -> x = base ow' \/ caught d' ow') \/
  collision_seen d evs ow.
Proof.
  intros Hrun. revert ow. induction Hrun as [d|d env c acked d1 evs d' Hx Hrun IH|d file evs d' Hrun IH]; intros ow Hc.
  - left. exists ow. split; [constructor|]. split; [done|]. intros env key x d1 H.
    destruct (read_committed _ _ _ _ _ _ Hc H) as [_ [?|?]]; [by left|right; by exists x].
  - destruct (call_refines _ _ _ _ _ _ Hc Hx) as [(ow1 & Hc1 & He)|Hcaught].
    + destruct (IH ow1 Hc1) as [(ow' & H1 & H2)|(e1 & e2 & d2 & ow2 & -> & H1 & H2 & H3)].
      * left. exists ow'. split; [by econstructor|done].
      * right. exists (EvCall env c acked :: e1), e2, d2, ow2. split; [done|]. split; [by econstructor|].
        split; [by econstructor|done].
    + right. exists [], (EvCall env c acked :: evs), d, ow. split; [done|]. split; [constructor|]. split; [constructor|done].
  - destruct (IH ow Hc) as [(ow' & H1 & H2)|(e1 & e2 & d2 & ow2 & -> & H1 & H2 & H3)].
    + left. exists ow'. split; [by constructor|done].
    + right. exists (EvReplaced file :: e1), e2, d2, ow2. split; [done|]. split; [by constructor|]. split; [by constructor|done].
Qed.

(** C6: The spending window cannot be turned back.  Take any run of recordings,
    reservations, settlements, resets and key changes, by any number of processes,
    with system calls failing or processes dying anywhere and with the file replaced by
    anything at any time.  Then the keyring is committed to the result of applying, in
    order, every acknowledged call and some of the failed ones; and whenever the file is
    accepted, it shows exactly that state.  The only other way is a file in the run
    whose body differs from the committed one and has the same SHA-256. *)
Theorem window_runs_refine d evs d' ow :
  wrun d evs d' -> committed d ow ->
  (exists ow', weffects evs ow ow' /\ committed d' ow' /\
     forall env key x d1, read_verified env key gref d' = (Ok x, d1) -> x = base ow' \/ caught d' ow') \/
  collision_seen d evs ow.
Proof. apply runs_refine. Qed.
End window.
