(* ===== verification/WindowCapProps.v ===== *)
(** * What the durable window says of caps

    The file's reading of a window is the in-memory store's; and a batch that is
    admitted under the lock leaves every window it touches within its limit. *)

From S2P Require Import Prelude RustStr Json Bytes PolicyTypes StateStore Receipts Keyring WindowStore WindowStoreProps.
From stdpp Require Import options.
Set Default Proof Using "Type*".

Local Open Scope string_scope.
Local Open Scope list_scope.
Local Open Scope Z_scope.

Implicit Types (es : list WireBucket) (rs : list WireRecord) (key : StateKey).

Definition entry_of (r : WireRecord) : StateEntry := MkEntry (wr_ts_ms r) (wr_amount r) (is_pending_record r).

(** The records of a window, in the order of the file. *)
Definition records_of key es : list WireRecord := filter (fun b => in_bucket key b = true) es ≫= wb_records.
Local Arguments records_of : simpl never.

Definition denied (r : result StateStoreError (Z * Z)) : result DenyReason (Z * Z) :=
  map_err (fun e => EvaluationError (StateStoreError_to_string e)) r.

(** A window's sum and count, from any start. *)
Definition window_from key (now sum count : Z) (l : list StateEntry) : result StateStoreError (Z * Z) :=
  match keep (skewed now) l with
  | e :: _ => Err (ClockSkewExceeded (timestamp_ms e) now)
  | [] => Ok (foldl (fun s e => sat_add i128 s (amount e)) sum (keep (live key now) l),
              foldl (fun c _ => sat_add u32 c 1) count (keep (live key now) l))
  end.

Lemma keep_cons f e l : keep f (e :: l) = if f e then e :: keep f l else keep f l.
Proof. unfold keep. rewrite filter_cons. by destruct (f e); case_decide. Qed.

Lemma records_in_window_from key now rs : forall sum count,
  records_in_window key now sum count rs = denied (window_from key now sum count (entry_of <$> rs)).
Proof.
  unfold window_from. induction rs as [|r rs IH]; intros sum count; [done|]. cbn [records_in_window fmap list_fmap].
  rewrite !keep_cons. unfold skewed at 1. cbn [pending timestamp_ms entry_of].
  destruct (is_pending_record r && _); [done|]. rewrite !IH. unfold record_is_live, cutoff.
  change (live key now (entry_of r))
    with (is_pending_record r || (sat_sub u64 now (sat_mul u64 (window_secs key) 1000) <=? wr_ts_ms r)).
  destruct (_ || _); [|done]. by destruct (keep (skewed now) _).
Qed.

Lemma records_in_window_app key now rs1 rs2 sum count :
  records_in_window key now sum count (rs1 ++ rs2) =
  ('(s, c) ← records_in_window key now sum count rs1; records_in_window key now s c rs2).
Proof.
  revert sum count. induction rs1 as [|r rs1 IH]; intros sum count; [done|]. cbn.
  destruct (_ && _); [done|]. destruct (negb _); apply IH.
Qed.

Lemma buckets_in_window_records key now es : forall sum count,
  buckets_in_window key now sum count es = records_in_window key now sum count (records_of key es).
Proof.
  unfold records_of. induction es as [|b es IH]; intros sum count; [done|]. cbn [buckets_in_window].
  rewrite filter_cons. destruct (in_bucket key b) eqn:Eb; cbn [negb].
  - rewrite decide_True by done. cbn. rewrite records_in_window_app.
    destruct (records_in_window key now sum count (wb_records b)) as [[s c]|]; [apply IH|done].
  - rewrite decide_False by done. apply IH.
Qed.

(** A window of the file is a function of its records. *)
Lemma window_in_file_records w key now :
  window_in_file w key now = denied (window_from key now 0 0 (entry_of <$> records_of key (wf_entries w))).
Proof. unfold window_in_file. by rewrite buckets_in_window_records, records_in_window_from. Qed.

(** ** Loading *)

Lemma append_records_spec key rs : forall dest r dest',
  poisoned dest = false -> append_records key rs dest = (r, dest') ->
  r = Ok () /\ poisoned dest' = false /\
  forall k, deque_of (inner dest') k = deque_of (inner dest) k ++ (if decide (k = key) then entry_of <$> rs else []).
Proof.
  induction rs as [|x rs IH]; intros dest r dest' Hp H.
  - injection H as <- <-. split; [done|]. split; [done|]. intros k. case_decide; by rewrite app_nil_r.
  - cbn in H. assert (Ha : (if is_pending_record x then append_pending dest key (wr_ts_ms x) (wr_amount x)
        else append dest key (wr_ts_ms x) (wr_amount x)) =
        (Ok (), MkStore (<[key := deque_of (inner dest) key ++ [entry_of x]]> (inner dest)) (poisoned dest))).
    { unfold append_pending, append, append_entry, entry_of. rewrite Hp. by destruct (is_pending_record x). }
    rewrite Ha in H. apply IH in H as (-> & Hp' & Hd); [|exact Hp]. split; [done|]. split; [done|].
    intros k. rewrite Hd. cbn [inner]. case_decide as E; [subst k; rewrite deque_of_insert; by rewrite <- app_assoc|].
    by rewrite deque_of_insert_ne by done.
Qed.

Definition key_of (name : string) (b : WireBucket) : StateKey :=
  StateKey_new name (wb_scope_specificity b) (wb_bucket b) (wb_window_secs b).

Lemma in_bucket_key name key b : profile_name key = name -> in_bucket key b = bool_decide (key = key_of name b).
Proof.
  intros <-. destruct key as [p s k n]. unfold in_bucket, key_of. cbn.
  destruct (Z.eqb_spec (wb_scope_specificity b) s) as [<-|H1]; cbn; [|symmetry; apply bool_decide_false; congruence].
  case_bool_decide as H2; cbn; [|symmetry; apply bool_decide_false; congruence].
  destruct (Z.eqb_spec (wb_window_secs b) n) as [<-|H3]; symmetry; [apply bool_decide_true|apply bool_decide_false]; congruence.
Qed.

Lemma append_buckets_spec name es : forall dest r dest',
  poisoned dest = false -> append_buckets name es dest = (r, dest') ->
  r = Ok () /\ poisoned dest' = false /\
  forall key, profile_name key = name ->
    deque_of (inner dest') key = deque_of (inner dest) key ++ (entry_of <$> records_of key es).
Proof.
  induction es as [|b es IH]; intros dest r dest' Hp H.
  - injection H as <- <-. split; [done|]. split; [done|]. intros. by rewrite app_nil_r.
  - cbn in H. destruct (append_records _ _ dest) as [r1 d1] eqn:H1.
    destruct (append_records_spec _ _ _ _ _ Hp H1) as (-> & Hp1 & Hd1).
    destruct (IH _ _ _ Hp1 H) as (-> & Hp' & Hd). split; [done|]. split; [done|].
    intros key Hk. rewrite (Hd key Hk), Hd1. unfold records_of. rewrite filter_cons, (in_bucket_key name key b Hk).
    unfold key_of. rewrite <- app_assoc. f_equal. case_decide as E.
    + rewrite decide_True by (by apply bool_decide_eq_true). cbn. by rewrite fmap_app.
    + rewrite decide_False; [done|]. by rewrite bool_decide_eq_true.
Qed.

(** ** Batches *)

Lemma records_of_app key es1 es2 : records_of key (es1 ++ es2) = records_of key es1 ++ records_of key es2.
Proof. unfold records_of. by rewrite filter_app, bind_app. Qed.

Lemma records_of_cons key b es :
  records_of key (b :: es) = (if in_bucket key b then wb_records b else []) ++ records_of key es.
Proof.
  unfold records_of. rewrite filter_cons.
  destruct (in_bucket key b); [rewrite decide_True by done|rewrite decide_False by done]; done.
Qed.

Lemma records_of_alter key es : forall idx b r, es !! idx = Some b ->
  records_of key (alter (fun b => set_records b (wb_records b ++ [r])) idx es) ≡ₚ
  records_of key es ++ (if in_bucket key b then [r] else []).
Proof.
  induction es as [|x es IH]; intros [|idx] b r H; [done|done| |]; cbn in H |- *; rewrite !records_of_cons.
  - injection H as ->. change (in_bucket key (set_records b _)) with (in_bucket key b).
    destruct (in_bucket key b); [|by rewrite app_nil_r]. cbn. rewrite <- !app_assoc. f_equiv. apply Permutation_app_comm.
  - rewrite (IH _ _ _ H). by rewrite app_assoc.
Qed.

Lemma records_of_push key k r es :
  profile_name key = profile_name k ->
  records_of key (push_record es (k, r)) ≡ₚ records_of key es ++ (if decide (key = k) then [r] else []).
Proof.
  intros Hn. unfold push_record, find_or_insert_bucket. cbn [fst snd].
  assert (Hb : forall b, in_bucket k b = true -> in_bucket key b = bool_decide (key = k)).
  { intros b Hb. rewrite (in_bucket_key _ key b Hn). rewrite (in_bucket_key _ k b eq_refl) in Hb.
    apply bool_decide_eq_true in Hb. by rewrite <- Hb. }
  destruct (list_find _ es) as [[idx b]|] eqn:Ef.
  - apply list_find_Some in Ef as (Hi & Hk & _). rewrite (records_of_alter _ _ _ _ _ Hi), (Hb b Hk).
    case_decide; [by rewrite bool_decide_true|by rewrite bool_decide_false].
  - set (b := MkBucket _ _ _ []).
    assert (Hk : in_bucket k b = true) by (rewrite (in_bucket_key _ k b eq_refl); apply bool_decide_true; by destruct k).
    assert (Hi : (es ++ [b]) !! length es = Some b) by (by rewrite lookup_app_r, Nat.sub_diag by lia).
    rewrite (records_of_alter _ _ _ _ _ Hi), (Hb b Hk), records_of_app, records_of_cons.
    change (records_of key []) with (@nil WireRecord). change (wb_records b) with (@nil WireRecord).
    destruct (in_bucket key b); cbn; rewrite app_nil_r;
      (case_decide; [by rewrite bool_decide_true|by rewrite bool_decide_false]).
Qed.

Lemma records_of_pushes key batch : forall es,
  Forall (fun kr => profile_name key = profile_name (fst kr)) batch ->
  records_of key (foldl push_record es batch) ≡ₚ
  records_of key es ++ (snd <$> filter (fun kr => fst kr = key) batch).
Proof.
  induction batch as [|[k r] batch IH]; intros es H; [by rewrite app_nil_r|]. inversion H; subst. cbn [foldl].
  rewrite IH, records_of_push by done. rewrite <- app_assoc. f_equiv. rewrite filter_cons. cbn [fst].
  case_decide as E1; case_decide as E2; done || congruence.
Qed.

Lemma records_of_retain key f es : records_of key (retain_records f es) = filter (fun r => f r = true) (records_of key es).
Proof.
  unfold retain_records. induction es as [|b es IH]; [done|]. rewrite fmap_cons, filter_cons, records_of_cons, filter_app.
  rewrite <- IH. clear IH. destruct (decide (wb_records (set_records b _) <> [])) as [H|H].
  - rewrite records_of_cons. change (in_bucket key (set_records b _)) with (in_bucket key b). by destruct (in_bucket key b).
  - apply dec_stable in H. cbn in H. destruct (in_bucket key b); [by rewrite H|done].
Qed.

(** ** Sums and counts *)

Lemma amounts_perm l1 l2 : l1 ≡ₚ l2 -> amounts l1 = amounts l2.
Proof. induction 1; cbn; lia. Qed.

(** What is dropped from a window makes it no fuller. *)
Lemma live_filter_le key now (f : WireRecord -> bool) rs :
  Forall (fun r => 0 <= wr_amount r) rs ->
  amounts (keep (live key now) (entry_of <$> filter (fun r => f r = true) rs)) <= amounts (keep (live key now) (entry_of <$> rs)) /\
  (length (keep (live key now) (entry_of <$> filter (fun r => f r = true) rs)) <= length (keep (live key now) (entry_of <$> rs)))%nat.
Proof.
  induction 1 as [|r rs Hr Hrs [IH1 IH2]]; [done|]. rewrite filter_cons, fmap_cons, keep_cons. case_decide.
  - rewrite fmap_cons, keep_cons. destruct (live key now (entry_of r)); cbn; lia.
  - destruct (live key now (entry_of r)); cbn; lia.
Qed.

Lemma keep_le f l : Forall (fun e => 0 <= amount e) l ->
  amounts (keep f l) <= amounts l /\ (length (keep f l) <= length l)%nat.
Proof.
  induction 1 as [|e l He Hl [IH1 IH2]]; [done|]. rewrite keep_cons. destruct (f e); cbn; lia.
Qed.

Lemma window_from_Ok key now l :
  Forall (fun e => 0 <= amount e) l -> keep (skewed now) l = [] ->
  window_from key now 0 0 l =
    Ok (Z.min (hi i128) (amounts (keep (live key now) l)), Z.min (hi u32) (Z.of_nat (length (keep (live key now) l)))).
Proof.
  intros Hn Hs. unfold window_from. rewrite Hs. f_equal. f_equal.
  - rewrite sat_foldl_nonneg; [f_equal; lia|cbn; lia|by apply Forall_keep].
  - apply window_count_spec.
Qed.

(** ** Admission *)

Implicit Types (entries : list WindowEntry).

(** The entries of a batch for one window. *)
Definition batch_of (pend : bool) key entries : list StateEntry :=
  (fun e => MkEntry (we_timestamp_ms e) (we_amount e) pend) <$> filter (fun e => we_key e = key) entries.

Lemma batch_of_app pend key l1 l2 : batch_of pend key (l1 ++ l2) = batch_of pend key l1 ++ batch_of pend key l2.
Proof. unfold batch_of. by rewrite filter_app, fmap_app. Qed.

Lemma batch_of_other pend key l : Forall (fun e => we_key e <> key) l -> batch_of pend key l = [].
Proof.
  unfold batch_of. induction 1 as [|e l He Hl IH]; [done|]. by rewrite filter_cons, decide_False by done.
Qed.

Lemma batch_of_one pend e : batch_of pend (we_key e) [e] = [MkEntry (we_timestamp_ms e) (we_amount e) pend].
Proof. unfold batch_of. by rewrite filter_cons, decide_True. Qed.

Lemma batch_of_nonneg pend key l : Forall (fun e => 0 <= we_amount e) l -> Forall (fun e => 0 <= amount e) (batch_of pend key l).
Proof.
  intros H. unfold batch_of. apply Forall_fmap. apply Forall_forall. intros e [_ He]%list_elem_of_filter.
  rewrite Forall_forall in H. by apply H.
Qed.

(** The running totals of the entries admitted so far. *)
Definition totals (batch : gmap StateKey (Z * Z)) pre : Prop :=
  forall key, default (0, 0) (batch !! key) =
    (Z.min (hi i128) (amounts (batch_of false key pre)), Z.min (hi u32) (Z.of_nat (length (batch_of false key pre)))).

Lemma totals_add batch pre e :
  totals batch pre -> Forall (fun e => 0 <= we_amount e) pre -> 0 <= we_amount e ->
  totals (<[we_key e := (sat_add i128 (fst (default (0, 0) (batch !! we_key e))) (we_amount e),
                         sat_add u32 (snd (default (0, 0) (batch !! we_key e))) 1)]> batch) (pre ++ [e]).
Proof.
  intros Ht Hp He key. rewrite batch_of_app. unfold batch_of at 2 4. rewrite filter_cons.
  case_decide as E.
  - subst key. rewrite lookup_insert_eq, Ht. cbn [default fst snd from_option id fmap list_fmap filter list_filter].
    rewrite amounts_app, length_app. cbn [amounts amount length].
    pose proof (amounts_nonneg _ (batch_of_nonneg false (we_key e) _ Hp)). unfold sat_add, clamp. cbn. f_equal; lia.
  - rewrite lookup_insert_ne by done. rewrite Ht. cbn. by rewrite app_nil_r.
Qed.

(** Every entry passed its comparison, with the file and the entries before it. *)
Lemma admit_loop_inv w entries : forall batch pre,
  totals batch pre -> Forall (fun e => 0 <= we_amount e) (pre ++ entries) -> admit_loop w batch entries = Ok () ->
  forall p e q, entries = p ++ e :: q ->
  exists fs fc, window_in_file w (we_key e) (we_timestamp_ms e) = Ok (fs, fc) /\
    refusal e (sat_add i128 fs (Z.min (hi i128) (amounts (batch_of false (we_key e) (pre ++ p)))))
      (sat_add u32 fc (Z.min (hi u32) (Z.of_nat (length (batch_of false (we_key e) (pre ++ p)))))) = None.
Proof.
  induction entries as [|x entries IH]; intros batch pre Ht Hn H p e q Heq; [by destruct p|].
  cbn in H. destruct (window_in_file w (we_key x) (we_timestamp_ms x)) as [[fs fc]|] eqn:Ew; [|done]. cbn in H.
  destruct (default (0, 0) (batch !! we_key x)) as [bs bc] eqn:Eb.
  destruct (refusal x _ _) eqn:Er; [done|]. destruct p as [|y p]; cbn in Heq; injection Heq as -> ->.
  - exists fs, fc. split; [done|]. rewrite app_nil_r. pose proof (Ht (we_key e)) as Hk. rewrite Eb in Hk.
    apply pair_equal_spec in Hk as [Hb1 Hb2]. by subst bs bc.
  - assert (Ht' := totals_add batch pre y Ht). rewrite Eb in Ht'. cbn [fst snd] in Ht'.
    apply Forall_app in Hn as [Hn1 Hn2]. inversion Hn2; subst.
    destruct (IH _ (pre ++ [y]) (Ht' Hn1 ltac:(done)) ltac:(rewrite <- app_assoc; by apply Forall_app) H p e q eq_refl) as (fs' & fc' & Hw & Hr).
    exists fs', fc'. by rewrite <- app_assoc in Hr.
Qed.

(** The entries of a call: of one profile, with amounts that are not negative. *)
Definition entries_ok (name : string) entries : Prop :=
  Forall (fun e => profile_name (we_key e) = name /\ 0 <= we_amount e) entries.

(** No record of the file has a negative amount. *)
Definition nonneg_buckets (es : list WireBucket) : Prop := Forall (fun b => Forall (fun r => 0 <= wr_amount r) (wb_records b)) es.
Definition nonneg_file (w : WireFile) : Prop := nonneg_buckets (wf_entries w).

Definition within (limit : WindowLimit) (sum calls : Z) : Prop :=
  match limit with LimitAmount _ _ max_stroops => sum <= max_stroops | LimitCount _ max_calls => calls <= max_calls end.

(** The window of [e] in a state that a batch with [e] and then [q] was written to.  Read at
    the time of [e] it is within the limit of [e], less what [q] adds to the same window; or the
    reading is refused, since a reservation of the batch is ahead of that time. *)
Definition within_at (w : WireFile) entries (e : WindowEntry) (q : list WindowEntry) : Prop :=
  match window_in_file w (we_key e) (we_timestamp_ms e) with
  | Ok (sum, calls) =>
      let later := batch_of false (we_key e) q in
      within (we_limit e) (sum - amounts later) (calls - Z.of_nat (length later))
  | Err _ => exists e', e' ∈ entries /\ we_key e' = we_key e /\
      sat_add u64 (we_timestamp_ms e) CLOCK_SKEW_TOLERANCE_MS < we_timestamp_ms e'
  end.

Lemma nonneg_records w key : nonneg_file w -> Forall (fun r => 0 <= wr_amount r) (records_of key (wf_entries w)).
Proof.
  unfold nonneg_file, nonneg_buckets, records_of. rewrite !Forall_forall. intros H r Hr.
  apply list_elem_of_bind in Hr as (b & Hr & Hb). apply list_elem_of_filter in Hb as [_ Hb].
  specialize (H b Hb). rewrite Forall_forall in H. by apply H.
Qed.

Lemma nonneg_retain f es : nonneg_buckets es -> nonneg_buckets (retain_records f es).
Proof.
  unfold nonneg_buckets, retain_records. intros H. apply Forall_forall. intros b [_ Hb]%list_elem_of_filter.
  apply list_elem_of_fmap in Hb as (b0 & -> & Hb). rewrite Forall_forall in H. specialize (H b0 Hb). cbn.
  apply Forall_forall. intros r [_ Hr]%list_elem_of_filter. rewrite Forall_forall in H. by apply H.
Qed.

Lemma nonneg_update f es : (forall r, wr_amount (f r) = wr_amount r) -> nonneg_buckets es -> nonneg_buckets (update_records f es).
Proof.
  intros Hf H. apply Forall_fmap. eapply Forall_impl; [exact H|]. intros b Hb. cbn. apply Forall_fmap.
  eapply Forall_impl; [exact Hb|]. intros r Hr. cbn. by rewrite Hf.
Qed.

Lemma nonneg_push es kr : nonneg_buckets es -> 0 <= wr_amount (snd kr) -> nonneg_buckets (push_record es kr).
Proof.
  intros H Hr. unfold push_record, find_or_insert_bucket.
  assert (Halter : forall l i, nonneg_buckets l ->
    nonneg_buckets (alter (fun b => set_records b (wb_records b ++ [snd kr])) i l)).
  { intros l i Hl. apply Forall_alter; [done|]. intros b _ Hb. cbn. apply Forall_app. by repeat constructor. }
  destruct (list_find _ es) as [[i b]|]; apply Halter; [done|]. apply Forall_app. by repeat constructor.
Qed.

Lemma nonneg_with_records w batch now g :
  nonneg_file w -> Forall (fun kr => 0 <= wr_amount (snd kr)) batch -> nonneg_file (with_records w batch now g).
Proof.
  unfold nonneg_file. intros H Hb. apply nonneg_retain. revert H. generalize (wf_entries w).
  induction Hb as [|kr batch Hk Hb IH]; intros es H; [done|]. by apply IH, nonneg_push.
Qed.
Lemma keep_none f l : keep f l = [] <-> Forall (fun e => f e = false) l.
Proof.
  induction l as [|e l IH]; [done|]. rewrite keep_cons, Forall_cons, <- IH. destruct (f e); [|by intuition].
  split; [done|by intros []].
Qed.

Lemma batch_of_totals pend pend' key l :
  amounts (batch_of pend key l) = amounts (batch_of pend' key l) /\
  length (batch_of pend key l) = length (batch_of pend' key l).
Proof.
  unfold batch_of. induction (filter _ l) as [|e l' [IH1 IH2]]; [done|]. cbn. split; congruence.
Qed.

Lemma batch_records key (rec : WindowEntry -> WireRecord) entries :
  snd <$> filter (fun kr => fst kr = key) ((fun e => (we_key e, rec e)) <$> entries) =
  rec <$> filter (fun e => we_key e = key) entries.
Proof.
  induction entries as [|e l IH]; [done|]. rewrite fmap_cons, !filter_cons. cbn [fst].
  case_decide; cbn; [by rewrite IH|done].
Qed.

(** The windows of the next file: a reading is refused only for the batch, and the totals
    are at most those of the old file with the batch. *)
Lemma next_window w entries name t pend rec now' g key A n :
  entries_ok name entries -> nonneg_file w -> profile_name key = name ->
  (forall e, entry_of (rec e) = MkEntry (we_timestamp_ms e) (we_amount e) pend) ->
  keep (skewed t) (entry_of <$> records_of key (wf_entries w)) = [] ->
  A = amounts (keep (live key t) (entry_of <$> records_of key (wf_entries w))) ->
  n = length (keep (live key t) (entry_of <$> records_of key (wf_entries w))) ->
  match window_in_file (with_records w ((fun e => (we_key e, rec e)) <$> entries) now' g) key t with
  | Ok (s, c) =>
      s <= Z.min (hi i128) (A + amounts (batch_of pend key entries)) /\
      c <= Z.min (hi u32) (Z.of_nat (n + length (batch_of pend key entries)))
  | Err _ => exists e', e' ∈ entries /\ we_key e' = key /\ sat_add u64 t CLOCK_SKEW_TOLERANCE_MS < we_timestamp_ms e'
  end.
Proof.
  intros Hb Hw Hk Hrec Hs -> ->. set (R := records_of key (wf_entries w)) in *.
  set (N := rec <$> filter (fun e => we_key e = key) entries).
  assert (HN : entry_of <$> N = batch_of pend key entries).
  { unfold N, batch_of. rewrite <- list_fmap_compose. apply list_fmap_ext. intros ? e _. apply Hrec. }
  assert (HNn : Forall (fun e => 0 <= amount e) (entry_of <$> N)).
  { rewrite HN. apply batch_of_nonneg. eapply Forall_impl; [exact Hb|]. by intros e [_ ?]. }
  set (X := records_of key (foldl push_record (wf_entries w) ((fun e => (we_key e, rec e)) <$> entries))).
  assert (HX : X ≡ₚ R ++ N).
  { unfold X. rewrite records_of_pushes.
    - by rewrite batch_records.
    - apply Forall_fmap. eapply Forall_impl; [exact Hb|]. intros e [<- _]. exact Hk. }
  assert (HXe : entry_of <$> X ≡ₚ (entry_of <$> R) ++ (entry_of <$> N)) by (by rewrite HX, fmap_app).
  assert (HXn : Forall (fun r => 0 <= wr_amount r) X).
  { rewrite HX. apply Forall_app. split; [by apply nonneg_records|]. by rewrite Forall_fmap in HNn. }
  set (f := fun r => (sat_sub u64 now' RETENTION_MS <=? wr_ts_ms r) || is_pending_record r).
  rewrite window_in_file_records. cbn [wf_entries with_records]. unfold prune_stale.
  rewrite records_of_retain. fold X. change (filter _ X) with (filter (fun r => f r = true) X).
  destruct (live_filter_le key t f X HXn) as [L1 L2].
  destruct (keep_le (live key t) (entry_of <$> N) HNn) as [K1 K2].
  assert (HA : amounts (keep (live key t) (entry_of <$> X)) =
    amounts (keep (live key t) (entry_of <$> R)) + amounts (keep (live key t) (entry_of <$> N))).
  { unfold keep at 1. by rewrite (amounts_perm _ _ (filter_Permutation _ _ _ HXe)), filter_app, amounts_app. }
  assert (HL : length (keep (live key t) (entry_of <$> X)) =
    (length (keep (live key t) (entry_of <$> R)) + length (keep (live key t) (entry_of <$> N)))%nat).
  { unfold keep at 1. by rewrite (Permutation_length (filter_Permutation _ _ _ HXe)), filter_app, length_app. }
  destruct (keep (skewed t) (entry_of <$> filter (fun r => f r = true) X)) as [|x xs] eqn:Ek.
  - rewrite window_from_Ok; [|apply Forall_fmap, Forall_forall|done].
    + cbn [denied map_err]. rewrite <- HN. split; apply Z.min_le_compat_l; [etransitivity; [exact L1|rewrite HA; clear -K1; lia]|].
      apply inj_le. etransitivity; [exact L2|]. rewrite HL. clear -K2. lia.
    + intros r [_ Hr]%list_elem_of_filter. rewrite Forall_forall in HXn. by apply HXn.
  - unfold window_from. rewrite Ek. cbn [denied map_err].
    assert (Hx : x ∈ keep (skewed t) (entry_of <$> filter (fun r => f r = true) X)) by (rewrite Ek; by left).
    apply list_elem_of_filter in Hx as [Hx (r & -> & [_ Hr]%list_elem_of_filter)%list_elem_of_fmap].
    rewrite HX in Hr. apply elem_of_app in Hr as [Hr|Hr].
    + apply keep_none in Hs. rewrite Forall_fmap, Forall_forall in Hs. specialize (Hs r Hr). cbn in Hs. congruence.
    + apply list_elem_of_fmap in Hr as (e' & -> & [He1 He2]%list_elem_of_filter). exists e'. split; [done|]. split; [done|].
      rewrite Hrec in Hx. unfold skewed in Hx. cbn in Hx. apply andb_true_iff in Hx as [_ Hx]. by apply Z.ltb_lt in Hx.
Qed.

Lemma batch_split pend p e q :
  amounts (batch_of pend (we_key e) (p ++ e :: q)) =
    amounts (batch_of false (we_key e) p) + we_amount e + amounts (batch_of false (we_key e) q) /\
  length (batch_of pend (we_key e) (p ++ e :: q)) =
    S (length (batch_of false (we_key e) p) + length (batch_of false (we_key e) q)).
Proof.
  destruct (batch_of_totals pend false (we_key e) (p ++ e :: q)) as [-> ->]. rewrite batch_of_app.
  change (e :: q) with ([e] ++ q). rewrite batch_of_app, batch_of_one, !amounts_app, !length_app. cbn. lia.
Qed.

Lemma admitted_within w entries name pend rec now' g :
  entries_ok name entries -> nonneg_file w -> admit_batch w entries = Ok () ->
  (forall e, entry_of (rec e) = MkEntry (we_timestamp_ms e) (we_amount e) pend) ->
  forall p e q, entries = p ++ e :: q ->
  within_at (with_records w ((fun e => (we_key e, rec e)) <$> entries) now' g) entries e q.
Proof.
  intros Hb Hw Ha Hrec p e q Heq.
  assert (Hn : Forall (fun e => 0 <= we_amount e) entries) by (eapply Forall_impl; [exact Hb|]; by intros ? [_ ?]).
  destruct (admit_loop_inv w entries ∅ [] ltac:(intros k; by rewrite lookup_empty) Hn Ha p e q Heq) as (fs & fc & Hf & Hr).
  rewrite window_in_file_records in Hf. rewrite app_nil_l in Hr.
  assert (Hp : profile_name (we_key e) = name /\ 0 <= we_amount e).
  { unfold entries_ok in Hb. rewrite Forall_forall in Hb. apply Hb. rewrite Heq. set_solver. }
  destruct Hp as [Hp Ha']. set (t := we_timestamp_ms e) in *.
  destruct (keep (skewed t) (entry_of <$> records_of (we_key e) (wf_entries w))) as [|x xs] eqn:Es;
    [|unfold window_from in Hf; by rewrite Es in Hf].
  rewrite window_from_Ok in Hf; [|apply Forall_fmap; by apply nonneg_records|done]. cbn [denied map_err] in Hf.
  pose proof (next_window w entries name t pend rec now' g (we_key e) _ _ Hb Hw Hp Hrec Es eq_refl eq_refl) as Hnext.
  unfold within_at. fold t. destruct (window_in_file (with_records _ _ _ _) _ _) as [[s c]|]; [|exact Hnext].
  destruct Hnext as [Hs Hc]. rewrite Heq in Hs, Hc. destruct (batch_split pend p e q) as [B1 B2]. rewrite B1 in Hs. rewrite B2 in Hc.
  set (A := amounts (keep _ _)) in *. set (n := length (keep _ _)) in *.
  assert (0 <= A) by (apply amounts_nonneg, Forall_keep, Forall_fmap, nonneg_records; done).
  rewrite Heq in Hn. apply Forall_app in Hn as [Hn1 [_ Hn2]%Forall_cons_1].
  pose proof (amounts_nonneg _ (batch_of_nonneg false (we_key e) p Hn1)).
  pose proof (amounts_nonneg _ (batch_of_nonneg false (we_key e) q Hn2)).
  apply (f_equal (fun r => default (0, 0) (ok r))) in Hf. cbn [ok default from_option id] in Hf.
  apply pair_equal_spec in Hf as [<- <-]. clear -Hr Hs Hc H H0 H1 Ha'.
  unfold refusal, within in *. destruct (we_limit e) as [asset win m|win m].
  - destruct (Z.ltb_spec m (sat_add i128 (sat_add i128 (Z.min (hi i128) A) (Z.min (hi i128) (amounts (batch_of false (we_key e) p)))) (we_amount e)));
      [done|]. unfold sat_add, clamp in *. cbn in *. lia.
  - destruct (Z.leb_spec m (sat_add u32 (Z.min (hi u32) (Z.of_nat n)) (Z.min (hi u32) (Z.of_nat (length (batch_of false (we_key e) p))))));
      [done|]. unfold sat_add, clamp in *. cbn in *. lia.
Qed.

Section window.
Context `{S2 : !Sha2, BB : !Base64, SK : !Strkey, WJ : !WindowJson}.
Context {SL : Sha2Laws} {WL : WindowJsonLaws}.
Variable profile : KeyProfile.

(** C26: The engine and the admission under the lock see the same windows.  After the file
    is loaded into an empty in-memory store, a query of that store gives, for every
    window and at every time, what reading the window in the file gives: the same sum,
    count and refusal of a clock that is behind. *)
Theorem loaded_window_agrees env name d dest key now :
  load_into env name profile d PolicyStateStore_new = (Ok (), dest) -> profile_name key = name ->
  exists ow, fst (load_wire env name profile d) = Ok ow /\
    window_in_file (base ow) key now = denied (fst (query_window dest key now)).
Proof.
  unfold load_into. intros H Hk. destruct (fst (load_wire env name profile d)) as [ow|]; [|done].
  exists ow. split; [done|]. rewrite window_in_file_records.
  assert (Hd : poisoned dest = false /\ deque_of (inner dest) key = entry_of <$> records_of key (wf_entries (base ow))).
  { destruct ow as [w|]; [|by injection H as <-].
    destruct (append_buckets_spec name (wf_entries w) PolicyStateStore_new (Ok ()) dest eq_refl H) as (_ & Hp & Hd).
    by rewrite (Hd key Hk). }
  destruct Hd as [Hp Hd]. unfold query_window, window_from. rewrite Hp, Hd. by destruct (keep (skewed now) _).
Qed.

(** The calls that admit their entries under the lock. *)
Definition admitting (c : WCall) entries : Prop := c = CSettled entries true \/ exists v, c = CPending entries v.

(** What a call records is not negative. *)
Definition records_nonneg (c : WCall) : Prop :=
  match c with
  | CSettled entries _ | CPending entries _ => Forall (fun e => 0 <= we_amount e) entries
  | _ => True
  end.

Definition event_nonneg (ev : WEvent) : Prop := match ev with EvCall _ c _ => records_nonneg c | EvReplaced _ => True end.

Lemma effect_nonneg env c ow ow' :
  weffect env c ow ow' -> records_nonneg c -> nonneg_file (base ow) -> nonneg_file (base ow').
Proof.
  destruct 1 as [entries adm ow now _ _|entries v ow now _ _ _|c mutate ow now _ Hm _| | |]; intros Hc Hw; try done; cbn [base default].
  - apply nonneg_with_records; [done|]. apply Forall_fmap. exact Hc.
  - apply nonneg_with_records; [done|]. apply Forall_fmap. exact Hc.
  - apply nonneg_retain. destruct c as [| |id at_|id|id| |]; try discriminate Hm; injection Hm as <-.
    + destruct (close_ms at_); [|done]. apply nonneg_update; [|done]. intros r. unfold confirm_record. by destruct (opens id r).
    + by apply nonneg_retain.
    + apply nonneg_update; [|done]. intros r. unfold mark_record. by destruct (_ && _).
  - by apply Forall_nil.
Qed.

Lemma effects_nonneg evs ow ow' :
  weffects evs ow ow' -> Forall event_nonneg evs -> nonneg_file (base ow) -> nonneg_file (base ow').
Proof.
  induction 1 as [|env c acked evs ow ow1 ow' He Hes IH|file evs ow ow' Hes IH]; intros Hev Hw; [done| |];
    apply Forall_cons in Hev as [Hev1 Hev2]; apply IH; [done| |done|done].
  destruct He as [He|[_ ->]]; [by eapply effect_nonneg|done].
Qed.

(** C7: The caps hold across processes.  Take a profile that starts without a window and any run of calls of any
    processes, with failing system calls and replaced files, that record no negative amount; then
    an acknowledged reservation or authorization whose entries are of one profile.  Each of its entries
    finds its window, in the state the call commits and read at the entry's own time, within the entry's
    limit: the sum at most the cap, the calls at most the rate, counting the entry itself and everything
    recorded before, but not the entries after it in the same batch.  So the last entry for a window bounds the
    window as a whole; of two entries with one window and different limits, only the second limit
    covers both.  The reading may only be refused for a reservation of the same batch that is more
    than the tolerance ahead of the entry.  The only other way is a SHA-256 collision in the run. *)
Theorem reservation_within_limits d0 evs d env c entries name d' :
  committed profile d0 None -> wrun profile d0 evs d -> Forall event_nonneg evs ->
  entries_ok name entries -> admitting c entries ->
  wexec profile env c d = (true, d') ->
  (exists w', committed profile d' (Some w') /\
     forall p e q, entries = p ++ e :: q -> within_at w' entries e q) \/
  collision_seen profile d0 evs None.
Proof.
  intros Hc Hrun Hev Hb Ha H. destruct (runs_refine _ _ _ _ _ Hrun Hc) as [(ow & Hes & Hc1 & _)|?]; [|by right].
  assert (Hn : nonneg_file (base ow)) by (eapply effects_nonneg; [exact Hes|exact Hev|by apply Forall_nil]).
  destruct (call_refines _ _ _ _ _ _ _ Hc1 H) as [(ow' & Hc' & [He|[? _]])|Hcaught]; [|done|].
  - left. destruct Ha as [->|[v ->]]; inversion He; subst; try done; eexists; (split; [exact Hc'|]).
    + eapply (admitted_within (base ow) entries name false); eauto.
    + eapply (admitted_within (base ow) entries name true); eauto.
  - right. exists evs, [], d, ow. by rewrite app_nil_r.
Qed.
End window.
