(* ===== verification/WindowCrash.v ===== *)
(** * The durable window and failing system calls

    A settlement is prepared beside the old state, committed in the keyring and
    compacted; wherever it stops, the store can still be read and shows the old state or
    the new.  A key that cannot be read is another matter: it is replaced. *)

From S2P Require Import Prelude RustStr Json Bytes PolicyTypes StateStore Receipts Keyring WindowStore WindowStoreProps.
From stdpp Require Import options.
Set Default Proof Using "Type*".

Local Open Scope string_scope.
Local Open Scope list_scope.
Local Open Scope Z_scope.

Section window.
Context `{S2 : !Sha2, BB : !Base64, SK : !Strkey, WJ : !WindowJson}.
Context {SL : Sha2Laws} {WL : WindowJsonLaws}.
Variable profile : KeyProfile.
Implicit Types (d : Disk) (w x : WireFile).

Local Abbreviation gref := (generation_entry_ref profile).
Local Abbreviation kref := (policy_window_state_key_id profile).

Definition commitment_of w : GenerationState := MkGeneration (wf_generation w) (Some (body_digest w)).

(** The bytes of a file. *)
Definition sealed (key : list Z) x : list Z := window_tag key (wire_to_json x) ++ wire_to_json x.

(** Under [key] the disk shows [w]. *)
Definition readable (key : list Z) d w : Prop :=
  committed profile d (Some w) /\
  exists x, d_file d = Some (sealed key x) /\ wf_version x <= WIRE_VERSION_MAX /\
    select_generation x (Some (commitment_of w)) = Ok w.

(** No call of the system fails. *)
Definition calm (env : WindowEnv) : Prop :=
  (forall r, re_open (wv_ring env) r = None) /\ (forall k r, re_read (wv_ring env) k r = None) /\ wv_read env = None.

Lemma nibble_lower_hex n : 0 <= n < 16 -> is_digest_char (nibble_char n) = true.
Proof.
  intros H. unfold is_digest_char, is_ascii_digit, byte_in. rewrite nibble_char_spec by done.
  destruct (Z.ltb_spec n 10); apply orb_true_iff; [left|right]; apply andb_true_iff; split; apply Z.leb_le; lia.
Qed.

Lemma encode_lower_hex bs : Forall (in_range u8) bs -> str_all is_digest_char (encode bs) = true.
Proof.
  induction 1 as [|b bs Hb _ IH]; [done|]. rewrite encode_cons. apply byte_nibbles in Hb as [H1 H2].
  change (hex_byte b +:+ encode bs) with (String (nibble_char (b / 16)) (String (nibble_char (b mod 16)) (encode bs))).
  cbn [str_all]. by rewrite !nibble_lower_hex, IH.
Qed.

Lemma load_counter_calm env k d w :
  (forall r, re_open env r = None) -> (forall k r, re_read env k r = None) -> committed profile d (Some w) ->
  load_counter env k gref (d_ring d) = Ok (Some (commitment_of w)).
Proof.
  intros Ho Hr [Hc _]. unfold load_counter, entry_new, get_password. rewrite Ho, Hr, Hc. cbn.
  destruct (commitment_not_integer (wf_generation w) (body_digest w)) as [e He]. rewrite He, commitment_from_to. cbn.
  unfold body_digest at 1 2. unfold len. rewrite encode_length, sha256_length, encode_lower_hex by apply sha256_bytes. done.
Qed.

Lemma verify_sealed key x : wf_version x <= WIRE_VERSION_MAX -> verify_with_key key (sealed key x) = Ok x.
Proof.
  intros Hv. unfold verify_with_key, sealed, window_tag.
  assert (Hl : length (hmac_sha256 key (HMAC_CONTEXT_LABEL ++ wire_to_json x)) = 32%nat) by apply hmac_length.
  unfold count. rewrite length_app, Hl.
  destruct (Z.ltb_spec (Z.of_nat (32 + length (wire_to_json x))) HMAC_TAG_LEN); [unfold HMAC_TAG_LEN in *; lia|].
  rewrite take_app_length' by done. rewrite drop_app_length' by done. rewrite bool_decide_true by done. cbn [negb].
  rewrite wire_from_to. cbn. destruct (Z.ltb_spec WIRE_VERSION_MAX (wf_version x)); [lia|done].
Qed.

(** A readable disk is read. *)
Lemma readable_reads env key d w : calm env -> readable key d w -> read_verified env key gref d = (Ok w, d).
Proof.
  intros (Ho & Hr & Hf) (Hc & x & Hx & Hv & Hs). unfold read_verified, read_store, mbind, WM_bind, wlift.
  rewrite Hf, Hx, (verify_sealed key x Hv). rewrite (load_counter_calm _ _ _ _ Ho Hr Hc). cbn. by rewrite Hs.
Qed.

(** With the right key nothing else is read. *)
Lemma readable_only env key d w x d' : readable key d w -> read_verified env key gref d = (Ok x, d') -> x = w /\ d' = d.
Proof.
  intros (Hc & y & Hy & Hv & Hs) H.
  destruct (read_committed _ _ _ _ _ _ _ Hc H) as [-> _]. split; [|done].
  unfold read_verified, read_store in H. wm_ok. destruct (wv_read env); [done|]. injection H0 as <-. rewrite Hy in H.
  wm_ok. rewrite (verify_sealed key y Hv) in H0. injection H0 as <-. res_inv.
  pose proof (load_counter_committed _ _ _ _ _ _ Hc H0) as ->. cbn in H. unfold commitment_of in Hs. rewrite Hs in H. by injection H as ->.
Qed.

(** ** Settlements *)

Lemma select_self w : wf_prepared w = None -> select_generation w (Some (commitment_of w)) = Ok w.
Proof.
  destruct w as [v g es p]. cbn. intros ->. unfold select_generation. cbn. rewrite Z.eqb_refl. cbn.
  by rewrite bool_decide_true.
Qed.

(** The two states in one file. *)
Definition both w next : WireFile := MkWire WIRE_VERSION (wf_generation w) (wf_entries w) (Some next).

Record successor w next : Prop := {
  su_version : wf_version w = WIRE_VERSION /\ wf_version next = WIRE_VERSION;
  su_prepared : wf_prepared w = None /\ wf_prepared next = None;
  su_generation : checked u64 (wf_generation w + 1) = Some (wf_generation next);
}.

Lemma select_both_old w next : successor w next -> select_generation (both w next) (Some (commitment_of w)) = Ok w.
Proof.
  intros [[V1 V2] [P1 P2] G]. unfold select_generation. cbn [wf_prepared both wf_version wf_generation].
  rewrite V2, P2, G. rewrite bool_decide_false by (by intros []). rewrite bool_decide_true by done. cbn.
  rewrite Z.eqb_refl. cbn. destruct w as [v g es p]. cbn in *. subst. by rewrite bool_decide_true.
Qed.

Lemma select_both_new w next : successor w next -> select_generation (both w next) (Some (commitment_of next)) = Ok next.
Proof.
  intros [[V1 V2] [P1 P2] G]. unfold select_generation. cbn [wf_prepared both wf_version wf_generation].
  rewrite V2, P2, G. rewrite bool_decide_false by (by intros []). rewrite bool_decide_true by done. cbn.
  apply checked_Some in G as [G _]. destruct (Z.eqb_spec (wf_generation next) (wf_generation w)); [lia|].
  rewrite Z.eqb_refl. cbn. by rewrite bool_decide_true.
Qed.

Lemma write_atomic_inv fault key x d r d' : write_atomic fault key x d = (r, d') ->
  d_ring d' = d_ring d /\ (d_file d' = d_file d \/ d_file d' = Some (sealed key x)) /\
  (r = Ok () -> d_file d' = Some (sealed key x)).
Proof.
  unfold write_atomic, write_atomic_raw, sealed. destruct fault as [[[] k]|]; intros [= <- <-]; cbn;
    (split; [done|]); (split; [by auto|done]).
Qed.

Lemma commit_readable env key w next d r d' :
  readable key d w -> successor w (MkWire (wf_version next) (wf_generation w + 1) (wf_entries next) None) -> 1 <= wf_generation w ->
  commit_generation env key gref w next d = (r, d') ->
  readable key d' w \/ readable key d' (MkWire (wf_version next) (wf_generation w + 1) (wf_entries next) None).
Proof.
  set (n := MkWire _ _ _ None). intros Hr Hsu Hg H. pose proof Hr as (Hc & _).
  assert (Hn : wf_prepared n = None) by done. destruct (su_version _ _ Hsu) as [V1 V2].
  unfold commit_generation in H. apply wm_bind_inv in H as [(e & H & ->)|(g & d1 & H1 & H)]; [left; by wm_ok|].
  wm_ok. unfold increment_generation in H1. res_inv. apply checked_Some in H1 as [-> _]. fold n in H.
  destruct (Z.eqb_spec (wf_generation w) 0); [lia|]. fold (both w n) in H.
  (* prepared, or not *)
  assert (Hold : forall d2, d_ring d2 = d_ring d -> d_file d2 = d_file d \/ d_file d2 = Some (sealed key (both w n)) -> readable key d2 w).
  { intros d2 Hring [Hf|Hf]; [destruct Hr as (_ & x & Hx & Hv & Hs); split; [by eapply ring_committed|]; exists x; by rewrite Hf|].
    split; [by eapply ring_committed|]. exists (both w n). split; [done|]. split; [done|by apply select_both_old]. }
  apply wm_bind_inv in H as [(e & H & ->)|([] & d1 & H1 & H)].
  { apply write_atomic_inv in H as (Hring & Hf & _). left. by apply Hold. }
  apply write_atomic_inv in H1 as (Hring1 & _ & Hf1). specialize (Hf1 eq_refl).
  pose proof (ring_committed _ _ _ _ Hring1 Hc) as Hc1.
  assert (Hnew : forall d2, committed profile d2 (Some n) -> d_file d2 = Some (sealed key (both w n)) \/ d_file d2 = Some (sealed key n) -> readable key d2 n).
  { intros d2 Hc2 [Hf|Hf]; split; try done; eexists; (split; [exact Hf|]).
    - split; [done|by apply select_both_new].
    - split; [by rewrite V2|by apply select_self]. }
  apply wm_bind_inv in H as [(e & H & ->)|([] & d2 & H2 & H)].
  - destruct (write_generation_inv _ _ _ _ _ _ _ Hc1 Hn H) as (Hf & [Hc2|Hc2] & _).
    + left. destruct Hr as (_ & _). split; [exact Hc2|]. exists (both w n). rewrite Hf, Hf1.
      split; [done|]. split; [done|by apply select_both_old].
    + right. apply Hnew; [done|]. left. by rewrite Hf, Hf1.
  - destruct (write_generation_inv _ _ _ _ _ _ _ Hc1 Hn H2) as (Hf & _ & Hc2). specialize (Hc2 eq_refl).
    unfold quietly in H. injection H as <- <-. destruct (write_atomic _ _ _ d2) as [r2 d3] eqn:Ew.
    apply write_atomic_inv in Ew as (Hring & Hf3 & _). cbn [snd]. right. apply Hnew; [by eapply ring_committed|].
    destruct Hf3 as [Hf3|Hf3]; [left; by rewrite Hf3, Hf, Hf1|by right].
Qed.

(** The key is there and can be read. *)
Definition key_served (env : WindowEnv) (key : list Z) d : Prop :=
  load_hmac_key_32 (wv_ring env) 0 kref (d_ring d) = Ok key.

Lemma load_or_mint_served env key d r d' : key_served env key d ->
  load_or_mint_key env profile d = (r, d') -> d' = d /\ forall k m, r = Ok (k, m) -> k = key.
Proof.
  unfold key_served, load_or_mint_key. intros Hk H.
  apply wm_bind_inv in H as [(e & H & ->)|(a & d1 & H1 & H)]; [by wm_ok|]. wm_ok.
  apply wm_bind_inv in H as [(e & H & ->)|(b & d2 & H2 & H)]; [by wm_ok|]. wm_ok. rewrite Hk in H2. injection H2 as <-.
  unfold refuse_owner_key in H. apply wm_bind_inv in H as [(e & H & ->)|(c & d3 & H3 & H)]; wm_ok; [done|].
  split; [done|]. congruence.
Qed.

Lemma rewrite_readable env c m key d w r d' :
  mutation_of c = Some m -> readable key d w -> wf_version w = WIRE_VERSION -> 1 <= wf_generation w ->
  key_served env key d -> rewrite_records env profile m d = (r, d') ->
  exists w', readable key d' w' /\ (w' = w \/ weffect env c (Some w) (Some w')).
Proof.
  intros Hm Hr Hv Hg Hk H.
  assert (Hno : exists w', readable key d w' /\ (w' = w \/ weffect env c (Some w) (Some w')))
    by (exists w; split; [done|by left]).
  unfold rewrite_records, ensure_parent_dir, lock_acquire in H.
  apply wm_bind_inv in H as [(e & H & ->)|(a & d1 & H1 & H)]; wm_ok; [done|].
  apply wm_bind_inv in H as [(e & H & ->)|(b & d1 & H2 & H)]; wm_ok; [done|].
  apply wm_bind_inv in H as [(e & H & ->)|([k mt] & d1 & H3 & H)];
    [by destruct (load_or_mint_served _ _ _ _ _ Hk H) as [-> _]|].
  destruct (load_or_mint_served _ _ _ _ _ Hk H3) as [-> Hkk]. specialize (Hkk _ _ eq_refl) as ->.
  apply wm_bind_inv in H as [(e & H & ->)|(x & d1 & H4 & H)]; [by apply read_verified_disk in H as ->|].
  destruct (readable_only _ _ _ _ _ _ Hr H4) as [-> ->].
  destruct (m (wf_entries w)) as [es touched] eqn:Et. destruct touched; cbn [negb] in H; wm_ok; [|done].
  apply wm_bind_inv in H as [(e & H & ->)|(now & d3 & H6 & H)]; unfold clock_ms in *; wm_ok; [done|]. res_inv.
  destruct (checked u64 (wf_generation w + 1)) as [g|] eqn:Ec;
    [|unfold commit_generation, increment_generation in H; rewrite Ec in H; by injection H as _ <-].
  pose proof Ec as [-> _]%checked_Some.
  eapply commit_readable in H as [H|H]; [exists w; split; [done|by left]| |done| |done].
  - eexists. split; [exact H|]. right.
    pose proof (we_touched env c m (Some w) now) as He. cbn [base default from_option id] in He. rewrite Et in He. by apply He.
  - destruct Hr as [[_ Hp] _]. constructor; [by split|by split|done].
Qed.

(** C25: A settlement is atomic.  As long as the keyring serves the window's key, a store that shows a state
    keeps showing one while its
    reservations are confirmed, released or marked, whichever write fails or however far a
    dying process got: afterwards it can be read, with the state before the call or the
    state after it. *)
Theorem settlement_is_atomic env c mutate key d w acked d' :
  mutation_of c = Some mutate -> readable key d w -> wf_version w = WIRE_VERSION -> 1 <= wf_generation w ->
  key_served env key d -> wexec profile env c d = (acked, d') ->
  exists w', readable key d' w' /\ (w' = w \/ weffect env c (Some w) (Some w')).
Proof.
  intros Hm Hr Hv Hg Hk H. destruct c; try done; cbn in H.
  - unfold confirm in H. destruct (close_ms created_at) as [ms|] eqn:Em; [|injection H as <- <-; exists w; split; [done|by left]].
    destruct (rewrite_records _ _ _ d) as [r d2] eqn:E. injection H as <- <-.
    eapply rewrite_readable; [|done..]. cbn. by rewrite Em.
  - unfold release in H. destruct (rewrite_records _ _ _ d) as [r d2] eqn:E. injection H as <- <-. eapply rewrite_readable; [reflexivity|done..].
  - unfold mark_operator_required in H. destruct (rewrite_records _ _ _ d) as [r d2] eqn:E. injection H as <- <-.
    eapply rewrite_readable; [reflexivity|done..].
Qed.

(** ** A key that cannot be read *)

(** C37: A passing failure to read the key destroys it.  A store that shows a state, and one
    settlement during which the keyring fails to read the window's key while it can write:
    the call mints a key over the old one and fails, and the file, to which the new key gives
    another tag, is refused even with nothing failing any more (until the store is reset). *)
Theorem key_read_failure_locks_the_store env fault key key2 d w id x :
  readable key d w -> d_file d = Some (sealed key x) ->
  refuse_owner_coordinate profile = Ok () ->
  wv_create_dir env = None -> wv_lock env = LaFree -> wv_read env = None ->
  (forall r, re_open (wv_ring env) r = None) -> re_write (wv_ring env) kref = None ->
  re_read (wv_ring env) 0 kref = Some fault -> re_read (wv_ring env) 1 kref = None ->
  wv_random env = key2 -> base64_decode (base64_encode key2) = Some key2 -> count key2 = 32 ->
  window_tag key2 (wire_to_json x) <> window_tag key (wire_to_json x) ->
  exists d', release env profile id d = (Err WsHmacMismatch, d') /\
    forall env', calm env' -> (forall owner, refuse_owner_public_key (wv_ring env') key2 owner (d_ring d') = Ok ()) ->
      read_for_inspection env' profile d' = (Err WsHmacMismatch, d').
Proof.
  intros Hr Hf Hcoord Hd Hl Hrd Ho Hw Hr0 Hr1 Hrand Hb64 Hlen Htag.
  set (d' := MkDisk (d_file d) (<[kref := base64_encode key2]> (d_ring d))).
  assert (Hv : verify_with_key key2 (sealed key x) = Err WsHmacMismatch).
  { unfold verify_with_key, sealed. assert (Hl32 : length (window_tag key (wire_to_json x)) = 32%nat) by apply hmac_length.
    unfold count. rewrite length_app, Hl32.
    destruct (Z.ltb_spec (Z.of_nat (32 + length (wire_to_json x))) HMAC_TAG_LEN); [unfold HMAC_TAG_LEN in *; lia|].
    rewrite take_app_length', drop_app_length' by done. by rewrite bool_decide_false by done. }
  exists d'. split.
  - unfold release, rewrite_records, ensure_parent_dir, lock_acquire, load_or_mint_key, mint_key, load_window_key, read_verified,
      read_store, mbind, WM_bind, wlift, mret, WM_ret. rewrite Hd, Hl, Hcoord.
    assert (E0 : load_hmac_key_32 (wv_ring env) 0 kref (d_ring d) = Err (classify_keyring_operation_error (RingFails fault) KoRead)).
    { unfold load_hmac_key_32, entry_new, get_password. rewrite Ho, Hr0. done. }
    rewrite E0. unfold rotate_keyring_secret_32, entry_new, set_password. rewrite Ho, Hw, Hrand. cbn [classified map_err].
    assert (E1 : load_hmac_key_32 (wv_ring env) 1 kref (<[kref := base64_encode key2]> (d_ring d)) = Ok key2).
    { unfold load_hmac_key_32, entry_new, get_password. rewrite Ho, Hr1, lookup_insert_eq. cbn. rewrite Hb64. cbn. by rewrite Hlen. }
    cbn [d_ring]. rewrite E1. cbn [map_err d_file]. rewrite Hrd, Hf, Hv. cbn. subst d'. by rewrite Hf.
  - intros env' (Ho' & Hr' & Hf') Hown.
    unfold read_for_inspection, read_store, load_window_key, refuse_owner_key, mbind, WM_bind, wlift. rewrite Hcoord, Hf'.
    cbn [d_file d']. rewrite Hf.
    assert (E1 : load_hmac_key_32 (wv_ring env') 0 kref (d_ring d') = Ok key2).
    { unfold load_hmac_key_32, entry_new, get_password. rewrite Ho', Hr'. cbn. rewrite lookup_insert_eq. cbn. rewrite Hb64. cbn. by rewrite Hlen. }
    rewrite E1. cbn [map_err]. rewrite Hown. cbn [map_err]. by rewrite Hv.
Qed.
End window.
