(* ===== verification/WindowReconcile.v ===== *)
(** * Settling reservations from the chain
      (stellar-agent-network, [policy_state/store.rs], [submit.rs])

    A reservation whose transaction's outcome is unknown is looked up on the chain:
    it is confirmed, released on proof that the transaction did not and cannot apply,
    or left as it is.  What is asked of the endpoint is kept in order.  What the endpoint, the receipt store and the system answer is an
    environment per reservation. *)

From S2P Require Import Prelude RustStr Json Bytes PolicyTypes StateStore Receipts Keyring WindowStore.
From stdpp Require Import options.

Local Open Scope string_scope.
Local Open Scope list_scope.
Local Open Scope Z_scope.

(** ** The endpoint's answers *)

(** A decoded [TransactionResult], as far as the error codes tell results apart. *)
Inductive OpResult :=
| OpPaymentUnderfunded | OpPaymentNoTrust | OpPaymentSrcNoTrust | OpPaymentNoDestination | OpPaymentOther
| OpBadAuth | OpNoAccount | OpOther.
Inductive TxResult :=
| TxSuccess | TxBadSeq | TxFailed (ops : list OpResult) | TxFeeBumpInnerFailed | TxFeeBumpInnerSuccess | TxOther.

(** [tr_result]: [None] when [resultXdr] does not decode. *)
Record TransactionRecord := MkTxRecord {
  tr_status : string;
  tr_ledger : option Z;
  tr_created_at : option Z;
  tr_result : option (option TxResult);
}.

Definition map_operation_result (op : OpResult) : string :=
  match op with
  | OpPaymentUnderfunded => "ledger.insufficient_balance"
  | OpPaymentNoTrust | OpPaymentSrcNoTrust => "ledger.trustline_missing"
  | OpPaymentNoDestination => "ledger.destination_invalid"
  | OpPaymentOther | OpBadAuth | OpNoAccount | OpOther => "ledger.op_failed"
  end.

Definition map_failed_result (r : option TxResult) : string :=
  match r with
  | None => "ledger.op_failed"
  | Some TxBadSeq => "submission.sequence_number_stale"
  | Some (TxFailed (op :: _)) => map_operation_result op
  | Some TxFeeBumpInnerFailed => "submission.feebump_inner_rejected"
  | Some _ => "ledger.op_failed"
  end.

(** The error code of a failed transaction. *)
Definition map_failed_record (record : TransactionRecord) : string :=
  match tr_result record with Some r => map_failed_result r | None => "ledger.op_failed" end.

Record Health := MkHealth { he_latest_ledger : Z; he_oldest_ledger : Z }.
Record Ledgers := MkLedgers {
  le_latest_ledger : Z;
  le_latest_ledger_close_time : Z;
  le_oldest_ledger : Z;
  le_oldest_ledger_close_time : Z;
}.
Inductive LedgersAnswer := LedgersOk (l : Ledgers) | LedgersFail (scrubbed : string) | LedgersTimeout.
Inductive AccountAnswer := AccountSequence (sequence : Z) | AccountNotFound | AccountFail (reason : string).

(** What one reservation's lookup is answered.  [st_receipts] and [st_faults]: the
    receipt store's sessions, in the order they may come. *)
Record StepEnv := MkStep {
  st_transaction : nat -> list Z -> result string TransactionRecord;
  st_health : result string Health;
  st_ledgers : LedgersAnswer;
  st_account : string -> AccountAnswer;
  st_receipts : nat -> SessionEnv;
  st_faults : nat -> PersistFault;
  st_window : WindowEnv;
}.

(** ** A pass *)

Definition usize : int_ty := u64.

Record ReconcilePass := MkPass {
  ps_remaining : Z;
  ps_spent : Z;
  ps_observed : bool;
  ps_oldest_ledger : option Z;
  ps_chain : option (Z * Z);
  ps_ledger_failure : option string;
  ps_failure : option string;
}.

Definition pass_new (budget : Z) : ReconcilePass :=
  MkPass (sat_add usize (sat_mul usize budget 3) 2) 0 false None None None None.

Definition pass_fail (reason : string) (p : ReconcilePass) : ReconcilePass :=
  match ps_failure p with
  | Some _ => p
  | None => MkPass (ps_remaining p) (ps_spent p) (ps_observed p) (ps_oldest_ledger p) (ps_chain p) (ps_ledger_failure p)
              (Some reason)
  end.

Definition pass_charge (p : ReconcilePass) : bool * ReconcilePass :=
  if ps_remaining p =? 0 then (false, p)
  else (true, MkPass (ps_remaining p - 1) (ps_spent p + 1) (ps_observed p) (ps_oldest_ledger p) (ps_chain p)
                (ps_ledger_failure p) (ps_failure p)).

Definition set_observed (p : ReconcilePass) : ReconcilePass :=
  MkPass (ps_remaining p) (ps_spent p) true (ps_oldest_ledger p) (ps_chain p) (ps_ledger_failure p) (ps_failure p).
Definition set_ledgers (oldest : option Z) (chain : option (Z * Z)) (failure : option string) (p : ReconcilePass) : ReconcilePass :=
  MkPass (ps_remaining p) (ps_spent p) (ps_observed p) oldest chain failure (ps_failure p).
Definition set_failure (failure : option string) (p : ReconcilePass) : ReconcilePass :=
  MkPass (ps_remaining p) (ps_spent p) (ps_observed p) (ps_oldest_ledger p) (ps_chain p) (ps_ledger_failure p) failure.

(** A usable answer: it has a close time and does not contradict the health answer. *)
Definition ledgers_valid (health : Health) (a : Ledgers) : bool :=
  (0 <? le_latest_ledger_close_time a) && (le_oldest_ledger_close_time a <=? le_latest_ledger_close_time a)
  && (he_latest_ledger health <=? le_latest_ledger a) && (le_oldest_ledger a <=? le_latest_ledger a).

(** A call of the endpoint's client. *)
Inductive Question :=
| AskTransaction (hash : list Z)
| AskHealth
| AskLedgers (start : Z)
| AskAccount (source : string).

Inductive Settlement :=
| SConfirmed (ledger : option Z)
| SFailed (code : string)
| SReleasedOnEvidence (evidence : ReleaseEvidence)
| SReceiptWriteFailed (error : ReceiptStoreError)
| SKeptPending
| SRetentionExpired.

Section reconcile.
Context `{S2 : !Sha2, BB : !Base64, SK : !Strkey, WJ : !WindowJson} {Text : Type} {RJ : ReceiptJson Text}.

(** The disk of the window store, the receipt file when there is a receipt store, and what the
    endpoint has been asked. *)
Record RWorld := MkRWorld { rw_disk : Disk; rw_receipts : option (option Text); rw_asked : list Question }.

Definition asking (q : Question) (w : RWorld) : RWorld := MkRWorld (rw_disk w) (rw_receipts w) (rw_asked w ++ [q]).

(** Retention and clock of the chain, asked for once in a pass. *)
Definition observe (env : StepEnv) (p : ReconcilePass) (w : RWorld) : ReconcilePass * RWorld :=
  if ps_observed p then (p, w)
  else
    match pass_charge (set_observed p) with
    | (false, p) => (p, w)
    | (true, p) =>
        let w := asking AskHealth w in
        match st_health env with
        | Err reason => (pass_fail reason p, w)
        | Ok health =>
            match pass_charge (set_ledgers (Some (he_oldest_ledger health)) (ps_chain p) (ps_ledger_failure p) p) with
            | (false, p) => (p, w)
            | (true, p) =>
                let w := asking (AskLedgers (he_latest_ledger health)) w in
                let failed reason := set_ledgers (ps_oldest_ledger p) (ps_chain p) (Some reason) p in
                (match st_ledgers env with
                 | LedgersOk a =>
                     if ledgers_valid health a
                     then set_ledgers (Some (Z.max (he_oldest_ledger health) (le_oldest_ledger a)))
                            (Some (le_latest_ledger a, le_latest_ledger_close_time a)) (ps_ledger_failure p) p
                     else failed "getLedgers answered without a valid ledger close time"
                 | LedgersFail e => failed ("getLedgers failed: " +:+ e)
                 | LedgersTimeout => failed "getLedgers did not answer within 2s"
                 end, w)
            end
        end
    end.

(** ** Receipts *)

Definition reservation_from_receipt (env : SessionEnv) (file : option Text) (id : string) : option WindowReservation :=
  match get_receipt env id file with
  | Ok (Some r) =>
      if is_terminal (sr_status r) || is_empty (sr_tx_hash r) then None
      else Some (MkReservation (sr_envelope_hash r) (sr_tx_hash r) (sr_source r) (sr_sequence r) (sr_max_time r) 0
                   (sr_recorded_at_ledger r) false)
  | _ => None
  end.

(** Brings back a missing receipt when asked to, then writes; on the receipt file. *)
Definition persist_receipt (env : StepEnv) (v : WindowReservation) (restore : bool)
    (write : option Text -> Run (Text := Text) unit) (file : option Text) : Run (Text := Text) unit :=
  match get_receipt (st_receipts env 2) (rv_id v) file with
  | Err e => (Err e, file)
  | Ok (Some _) => write file
  | Ok None =>
      if negb restore then (Ok (), file)
      else
        match try_begin (st_receipts env 3) (st_faults env 3) (rv_id v) (rv_tx_hash v) (rv_source v) (rv_sequence v)
                (rv_max_time v) (rv_submission_ledger v) file with
        | (Err e, file) => (Err e, file)
        | (Ok _, file) =>
            match mark_submitted (st_receipts env 4) (st_faults env 4) (rv_id v) file with
            | (Err e, file) => (Err e, file)
            | (Ok _, file) => write file
            end
        end
  end.

Definition finalize_receipt (env : StepEnv) (v : WindowReservation) (s : ReceiptStatus) (ledger : option Z)
    (w : RWorld) : result ReceiptStoreError unit * RWorld :=
  match rw_receipts w with
  | None => (Ok (), w)
  | Some file =>
      let '(r, file') := persist_receipt env v (is_definitive_outcome s)
        (finalize (st_receipts env 5) (st_faults env 5) (rv_id v) s ledger) file in
      (r, MkRWorld (rw_disk w) (Some file') (rw_asked w))
  end.

(** The evidence recorded for an unknown outcome. *)
Definition recorded_evidence (r : option SubmissionReceipt) : option ReleaseEvidence :=
  match r with
  | Some r => if bool_decide (sr_status r = RsAmbiguous) then sr_release_code r else None
  | None => None
  end.

(** Evidence already recorded stands. *)
Definition release_receipt (env : StepEnv) (v : WindowReservation) (evidence : ReleaseEvidence) (w : RWorld)
  : result ReceiptStoreError ReleaseEvidence * RWorld :=
  match rw_receipts w with
  | None => (Ok evidence, w)
  | Some file =>
      match get_receipt (st_receipts env 1) (rv_id v) file with
      | Err e => (Err e, w)
      | Ok found =>
          match recorded_evidence found with
          | Some recorded => (Ok recorded, w)
          | None =>
              match persist_receipt env v true
                      (finalize_released (st_receipts env 5) (st_faults env 5) (rv_id v) evidence) file with
              | (Err e, file') => (Err e, MkRWorld (rw_disk w) (Some file') (rw_asked w))
              | (Ok _, file') =>
                  let w' := MkRWorld (rw_disk w) (Some file') (rw_asked w) in
                  match get_receipt (st_receipts env 6) (rv_id v) file' with
                  | Err e => (Err e, w')
                  | Ok r => (Ok (default evidence (r ≫= sr_release_code)), w')
                  end
              end
          end
      end
  end.

(** ** One reservation *)

Definition window_call (m : WM unit) (s : Settlement) (w : RWorld) : result WindowStoreError Settlement * RWorld :=
  match m (rw_disk w) with
  | (Ok _, d') => (Ok s, MkRWorld d' (rw_receipts w) (rw_asked w))
  | (Err e, d') => (Err e, MkRWorld d' (rw_receipts w) (rw_asked w))
  end.

Definition settle_chain_answer (env : StepEnv) (profile : KeyProfile) (v : WindowReservation) (record : TransactionRecord)
    (w : RWorld) : result WindowStoreError Settlement * RWorld :=
  if bool_decide (tr_status record = "SUCCESS") then
    match finalize_receipt env v RsSuccess (tr_ledger record) w with
    | (Err e, w') => (Ok (SReceiptWriteFailed e), w')
    | (Ok _, w') => window_call (confirm (st_window env) profile (rv_id v) (tr_created_at record)) (SConfirmed (tr_ledger record)) w'
    end
  else if bool_decide (tr_status record = "FAILED") then
    let code := map_failed_record record in
    match finalize_receipt env v (RsFailed code) None w with
    | (Err e, w') => (Ok (SReceiptWriteFailed e), w')
    | (Ok _, w') => window_call (release (st_window env) profile (rv_id v)) (SFailed code) w'
    end
  else (Ok SKeptPending, w).

Definition release_on_evidence (env : StepEnv) (profile : KeyProfile) (v : WindowReservation) (evidence : ReleaseEvidence)
    (w : RWorld) : result WindowStoreError Settlement * RWorld :=
  match release_receipt env v evidence w with
  | (Err e, w') => (Ok (SReceiptWriteFailed e), w')
  | (Ok evidence, w') => window_call (release (st_window env) profile (rv_id v)) (SReleasedOnEvidence evidence) w'
  end.

Definition Step : Type := result WindowStoreError Settlement * RWorld * ReconcilePass.
Definition step_kept (p : ReconcilePass) (w : RWorld) : Step := (Ok SKeptPending, w, p).

(** The chain is asked once more before anything is released. *)
Definition fresh_answer_or_release (env : StepEnv) (profile : KeyProfile) (v : WindowReservation)
    (evidence : ReleaseEvidence) (p : ReconcilePass) (w : RWorld) : Step :=
  match decode_hex32 (rv_tx_hash v) with
  | Err _ => step_kept p w
  | Ok hash =>
      match pass_charge p with
      | (false, p) => step_kept p w
      | (true, p) =>
          let w := asking (AskTransaction hash) w in
          match st_transaction env 1 hash with
          | Err e => step_kept (pass_fail ("getTransaction failed: " +:+ e) p) w
          | Ok record =>
              if bool_decide (tr_status record = "NOT_FOUND")
              then (release_on_evidence env profile v evidence w, p)
              else (settle_chain_answer env profile v record w, p)
          end
      end
  end.

(** The reservation is older than what the endpoint still knows. *)
Definition settle_expired (env : StepEnv) (profile : KeyProfile) (v : WindowReservation) (w : RWorld)
  : result WindowStoreError Settlement * RWorld :=
  match rw_receipts w with
  | None => (Ok SRetentionExpired, w)
  | Some file =>
      match get_receipt (st_receipts env 1) (rv_id v) file with
      | Err _ => (Ok SKeptPending, w)
      | Ok None => window_call (mark_operator_required (st_window env) profile (rv_id v)) SRetentionExpired w
      | Ok (Some _) =>
          match finalize_receipt env v RsAmbiguous None w with
          | (Err e, w') => (Ok (SReceiptWriteFailed e), w')
          | (Ok _, w') => (Ok SRetentionExpired, w')
          end
      end
  end.

(** Whether the receipt says that the envelope was never sent. *)
Definition never_sent (env : StepEnv) (v : WindowReservation) (w : RWorld) : bool :=
  match rw_receipts w with
  | Some file => match get_receipt (st_receipts env 7) (rv_id v) file with
                 | Ok (Some r) => negb (sr_submitted r)
                 | _ => false
                 end
  | None => false
  end.

Definition time_expired (v : WindowReservation) (floor : Z) (p : ReconcilePass) : bool :=
  (0 <? rv_max_time v) && (floor <=? rv_submission_ledger v) && (0 <? rv_submission_ledger v)
  && match ps_chain p with
     | Some (ledger, close_time) => (rv_submission_ledger v <=? ledger) && (rv_max_time v <? close_time)
     | None => false
     end.

Definition settle_not_found (env : StepEnv) (profile : KeyProfile) (v : WindowReservation) (p : ReconcilePass) (w : RWorld)
  : Step :=
  let '(p, w) := observe env p w in
  match ps_oldest_ledger p with
  | None => step_kept p w
  | Some floor =>
      if (0 <? rv_submission_ledger v) && (rv_submission_ledger v <? floor) then (settle_expired env profile v w, p)
      else
        let p := if (0 <? rv_max_time v) && bool_decide (ps_chain p = None) && bool_decide (ps_failure p = None)
                    && negb (never_sent env v w)
                 then set_failure (ps_ledger_failure p) p else p in
        if time_expired v floor p then fresh_answer_or_release env profile v TimeBoundPassed p w
        else
          match pass_charge p with
          | (false, p) => step_kept p w
          | (true, p) =>
              let w := asking (AskAccount (rv_source v)) w in
              match st_account env (rv_source v) with
              | AccountNotFound => step_kept p w
              | AccountFail reason => step_kept (pass_fail reason p) w
              | AccountSequence sequence =>
                  if rv_sequence v <=? sequence then fresh_answer_or_release env profile v SequenceConsumed p w
                  else step_kept p w
              end
          end
  end.

(** The chain's answer for the reservation's transaction. *)
Definition settle_on_chain (env : StepEnv) (profile : KeyProfile) (v : WindowReservation) (p : ReconcilePass) (w : RWorld)
  : Step :=
  match decode_hex32 (rv_tx_hash v) with
  | Err _ => step_kept p w
  | Ok hash =>
      match pass_charge p with
      | (false, p) => step_kept p w
      | (true, p) =>
          let w := asking (AskTransaction hash) w in
          match st_transaction env 0 hash with
          | Err e => step_kept (pass_fail ("getTransaction failed: " +:+ e) p) w
          | Ok record =>
              if bool_decide (tr_status record = "NOT_FOUND") then settle_not_found env profile v p w
              else (settle_chain_answer env profile v record w, p)
          end
      end
  end.

Definition settle_reservation (env : StepEnv) (profile : KeyProfile) (v : WindowReservation) (p : ReconcilePass) (w : RWorld)
  : Step :=
  match rw_receipts w with
  | None => settle_on_chain env profile v p w
  | Some file =>
      match get_receipt (st_receipts env 0) (rv_id v) file with
      | Err _ => step_kept p w
      | Ok found =>
          match recorded_evidence found with
          | Some evidence => (release_on_evidence env profile v evidence w, p)
          | None => settle_on_chain env profile v p w
          end
      end
  end.

(** ** The report *)

Record SettledSubmission := MkSettled {
  ss_envelope_hash : string;
  ss_tx_hash : string;
  ss_status : ReceiptStatus;
  ss_release_code : option ReleaseEvidence;
  ss_ledger : option Z;
}.

Record ReconcileReport := MkReport {
  rr_examined : Z;
  rr_rpc_calls : Z;
  rr_confirmed : Z;
  rr_released : Z;
  rr_kept_pending : Z;
  rr_receipt_write_failed : Z;
  rr_receipt_write_error : option ReceiptStoreError;
  rr_retention_expired : Z;
  rr_settled : list SettledSubmission;
  rr_endpoint_failure : option string;
}.
Definition report_default : ReconcileReport := MkReport 0 0 0 0 0 0 None 0 [] None.

Definition record_settlement (v : WindowReservation) (s : Settlement) (r : ReconcileReport) : ReconcileReport :=
  let settled st code ledger := MkSettled (rv_id v) (rv_tx_hash v) st code ledger in
  match s with
  | SConfirmed ledger =>
      MkReport (rr_examined r) (rr_rpc_calls r) (rr_confirmed r + 1) (rr_released r) (rr_kept_pending r)
        (rr_receipt_write_failed r) (rr_receipt_write_error r) (rr_retention_expired r)
        (rr_settled r ++ [settled RsSuccess None ledger]) (rr_endpoint_failure r)
  | SFailed code =>
      MkReport (rr_examined r) (rr_rpc_calls r) (rr_confirmed r) (rr_released r + 1) (rr_kept_pending r)
        (rr_receipt_write_failed r) (rr_receipt_write_error r) (rr_retention_expired r)
        (rr_settled r ++ [settled (RsFailed code) None None]) (rr_endpoint_failure r)
  | SReleasedOnEvidence evidence =>
      MkReport (rr_examined r) (rr_rpc_calls r) (rr_confirmed r) (rr_released r + 1) (rr_kept_pending r)
        (rr_receipt_write_failed r) (rr_receipt_write_error r) (rr_retention_expired r)
        (rr_settled r ++ [settled RsAmbiguous (Some evidence) None]) (rr_endpoint_failure r)
  | SReceiptWriteFailed e =>
      MkReport (rr_examined r) (rr_rpc_calls r) (rr_confirmed r) (rr_released r) (rr_kept_pending r)
        (rr_receipt_write_failed r + 1) (Some (default e (rr_receipt_write_error r))) (rr_retention_expired r)
        (rr_settled r) (rr_endpoint_failure r)
  | SKeptPending =>
      MkReport (rr_examined r) (rr_rpc_calls r) (rr_confirmed r) (rr_released r) (rr_kept_pending r + 1)
        (rr_receipt_write_failed r) (rr_receipt_write_error r) (rr_retention_expired r) (rr_settled r) (rr_endpoint_failure r)
  | SRetentionExpired =>
      MkReport (rr_examined r) (rr_rpc_calls r) (rr_confirmed r) (rr_released r) (rr_kept_pending r)
        (rr_receipt_write_failed r) (rr_receipt_write_error r) (rr_retention_expired r + 1) (rr_settled r)
        (rr_endpoint_failure r)
  end.

Definition count_examined (r : ReconcileReport) : ReconcileReport :=
  MkReport (rr_examined r + 1) (rr_rpc_calls r) (rr_confirmed r) (rr_released r) (rr_kept_pending r)
    (rr_receipt_write_failed r) (rr_receipt_write_error r) (rr_retention_expired r) (rr_settled r) (rr_endpoint_failure r).

Definition close_report (p : ReconcilePass) (r : ReconcileReport) : ReconcileReport :=
  MkReport (rr_examined r) (ps_spent p) (rr_confirmed r) (rr_released r) (rr_kept_pending r) (rr_receipt_write_failed r)
    (rr_receipt_write_error r) (rr_retention_expired r) (rr_settled r) (ps_failure p).

(** ** Passes *)

(** Reservations whose outcome was given up on are not looked up again. *)
Definition outcome_already_unknown (known : list SubmissionReceipt) (id : string) : bool :=
  match List.find (fun r => bool_decide (sr_envelope_hash r = id)) (rev known) with
  | Some r => match sr_status r, sr_release_code r with
              | RsAmbiguous, None => true
              | RsClearedByOperator, _ => true
              | _, _ => false
              end
  | None => false
  end.

Definition due_reservations (w : WireFile) (known : list SubmissionReceipt) (now_ms budget : Z) : list WindowReservation :=
  take (Z.to_nat budget)
    (filter (fun v => (RECONCILE_MIN_AGE_MS <=? sat_sub u64 now_ms (rv_pending_since_ms v))
                      && negb (rv_operator_required v) && negb (outcome_already_unknown known (rv_id v)) = true)
       (collect_pending w)).

Fixpoint reconcile_loop (envs : nat -> StepEnv) (profile : KeyProfile) (k : nat) (due : list WindowReservation)
    (r : ReconcileReport) (p : ReconcilePass) (w : RWorld)
  : result WindowStoreError (ReconcileReport * ReconcilePass) * RWorld :=
  match due with
  | [] => (Ok (r, p), w)
  | v :: due' =>
      match settle_reservation (envs k) profile v p w with
      | (Err e, w', _) => (Err e, w')
      | (Ok s, w', p') => reconcile_loop envs profile (S k) due' (record_settlement v s (count_examined r)) p' w'
      end
  end.

Definition reconcile_due (env : WindowEnv) (all_env : SessionEnv) (envs : nat -> StepEnv) (profile : KeyProfile)
    (now_ms budget : Z) (w : RWorld) : result WindowStoreError ReconcileReport * RWorld :=
  match read_for_inspection env profile (rw_disk w) with
  | (Err e, _) => (Err e, w)
  | (Ok None, _) => (Ok report_default, w)
  | (Ok (Some wire), _) =>
      let known := match rw_receipts w with
                   | Some file => match all_receipts all_env file with Ok l => l | Err _ => [] end
                   | None => []
                   end in
      match reconcile_loop envs profile 0 (due_reservations wire known now_ms budget) report_default (pass_new budget) w with
      | (Err e, w') => (Err e, w')
      | (Ok (r, p), w') => (Ok (close_report p r), w')
      end
  end.

Definition reconcile_one (env : WindowEnv) (receipt_env : SessionEnv) (step : StepEnv) (profile : KeyProfile) (id : string)
    (w : RWorld) : result WindowStoreError ReconcileReport * RWorld :=
  match read_for_inspection env profile (rw_disk w) with
  | (Err e, _) => (Err e, w)
  | (Ok wire, _) =>
      let open := wire ≫= fun wire => List.find (fun v => bool_decide (rv_id v = id)) (collect_pending wire) in
      let found := match open with
                   | Some v => Some v
                   | None => rw_receipts w ≫= fun file => reservation_from_receipt receipt_env file id
                   end in
      match found with
      | None => (Ok report_default, w)
      | Some v =>
          match settle_reservation step profile v (pass_new 1) w with
          | (Err e, w', _) => (Err e, w')
          | (Ok s, w', p) => (Ok (close_report p (record_settlement v s (count_examined report_default))), w')
          end
      end
  end.
End reconcile.
