(* ===== verification/WindowReconcileProps.v ===== *)
(** * Properties of settling reservations

    A reservation is let go only on proof, and only once its receipt says so on disk;
    a pass asks the endpoint a bounded number of questions. *)

From S2P Require Import Prelude RustStr Json Bytes PolicyTypes StateStore Receipts ReceiptsProps Keyring WindowStore WindowReconcile.
From stdpp Require Import options.
Set Default Proof Using "Type*".

Local Open Scope string_scope.
Local Open Scope list_scope.
Local Open Scope Z_scope.

(** ** Questions to the endpoint *)

Section reconcile.
Context `{S2 : !Sha2, BB : !Base64, SK : !Strkey, WJ : !WindowJson} {Text : Type} {RJ : ReceiptJson Text}.
Context {RL : ReceiptJsonLaws Text}.
Implicit Types (env : StepEnv) (profile : KeyProfile) (v : WindowReservation) (w : RWorld (Text := Text)).

(** What is left of the budget, and what was asked of it. *)
Definition pass_ok (total : Z) (p : ReconcilePass) w : Prop :=
  0 <= ps_remaining p /\ ps_spent p = count (rw_asked w) /\ ps_spent p + ps_remaining p = total.

Lemma pass_new_ok budget w : rw_asked w = [] -> pass_ok (sat_add usize (sat_mul usize budget 3) 2) (pass_new budget) w.
Proof. intros Hw. unfold pass_ok. rewrite Hw. split; [|by split]. cbn. unfold sat_add, clamp. cbn. lia. Qed.

(** A question is asked after its charge. *)
Lemma charge_ask_ok total q p p' w : pass_ok total p w -> pass_charge p = (true, p') -> pass_ok total p' (asking q w).
Proof.
  unfold pass_charge, pass_ok. intros (H1 & H2 & H3). destruct (Z.eqb_spec (ps_remaining p) 0); intros [= <-]; cbn.
  unfold count in *. rewrite length_app. cbn [length]. lia.
Qed.
Lemma no_charge_ok total p p' w : pass_ok total p w -> pass_charge p = (false, p') -> pass_ok total p' w.
Proof. unfold pass_charge. destruct (_ =? _); by intros ? [= <-]. Qed.

Lemma pass_fail_ok total reason p w : pass_ok total p w -> pass_ok total (pass_fail reason p) w.
Proof. unfold pass_fail. by destruct (ps_failure p). Qed.

Lemma same_asked total p w w' : rw_asked w' = rw_asked w -> pass_ok total p w -> pass_ok total p w'.
Proof. unfold pass_ok. by intros ->. Qed.

Lemma observe_ok total env p w p' w' : pass_ok total p w -> observe env p w = (p', w') -> pass_ok total p' w'.
Proof.
  unfold observe. intros H. destruct (ps_observed p); [by intros [= <- <-]|].
  destruct (pass_charge (set_observed p)) as [[] p1] eqn:E1;
    [eapply charge_ask_ok in E1; [|exact H]|eapply no_charge_ok in E1; [|exact H]; by intros [= <- <-]].
  destruct (st_health env) as [h|]; [|intros [= <- <-]; by apply pass_fail_ok].
  destruct (pass_charge (set_ledgers _ _ _ p1)) as [[] p2] eqn:E2;
    [eapply charge_ask_ok in E2; [|exact E1]|eapply no_charge_ok in E2; [|exact E1]; by intros [= <- <-]].
  destruct (st_ledgers env) as [a| |]; [destruct (ledgers_valid h a)| |]; by intros [= <- <-].
Qed.

Lemma finalize_receipt_asked env v st ledger w r w' : finalize_receipt env v st ledger w = (r, w') -> rw_asked w' = rw_asked w.
Proof.
  unfold finalize_receipt. destruct (rw_receipts w); [destruct (persist_receipt _ _ _ _ _)|]; by intros [= _ <-].
Qed.
Lemma window_call_asked m st w r w' : window_call m st w = (r, w') -> rw_asked w' = rw_asked w.
Proof. unfold window_call. destruct (m (rw_disk w)) as [[]]; by intros [= _ <-]. Qed.

Lemma chain_answer_asked env profile v record w r w' : settle_chain_answer env profile v record w = (r, w') -> rw_asked w' = rw_asked w.
Proof.
  unfold settle_chain_answer. case_bool_decide; [|case_bool_decide; [|by intros [= _ <-]]];
    destruct (finalize_receipt _ _ _ _ _) as [[[]|] w1] eqn:E; apply finalize_receipt_asked in E;
    intros Hw; try (apply window_call_asked in Hw; congruence); injection Hw as _ <-; done.
Qed.
Lemma release_on_evidence_asked env profile v e w r w' : release_on_evidence env profile v e w = (r, w') -> rw_asked w' = rw_asked w.
Proof.
  unfold release_on_evidence. destruct (release_receipt _ _ _ _) as [x w1] eqn:E. assert (Hw : rw_asked w1 = rw_asked w).
  { unfold release_receipt in E. destruct (rw_receipts w); [|by injection E as _ <-].
    destruct (get_receipt _ _ _); [|by injection E as _ <-]. destruct (recorded_evidence _); [by injection E as _ <-|].
    destruct (persist_receipt _ _ _ _ _) as [[] ?]; [|by injection E as _ <-]. destruct (get_receipt _ _ _); by injection E as _ <-. }
  destruct x; [intros H%window_call_asked; congruence|by intros [= _ <-]].
Qed.
Lemma settle_expired_asked env profile v w r w' : settle_expired env profile v w = (r, w') -> rw_asked w' = rw_asked w.
Proof.
  unfold settle_expired. destruct (rw_receipts w); [|by intros [= _ <-]]. destruct (get_receipt _ _ _) as [[]|]; [| |by intros [= _ <-]].
  - destruct (finalize_receipt _ _ _ _ _) as [[] w1] eqn:E; apply finalize_receipt_asked in E; by intros [= _ <-].
  - apply window_call_asked.
Qed.

Lemma fresh_pass total env profile v e p w res w' p' :
  pass_ok total p w -> fresh_answer_or_release env profile v e p w = (res, w', p') -> pass_ok total p' w'.
Proof.
  unfold fresh_answer_or_release, step_kept. intros Hp. destruct (decode_hex32 _) as [hash|]; [|by intros [= _ <- <-]].
  destruct (pass_charge p) as [[] p1] eqn:E;
    [apply (charge_ask_ok total (AskTransaction hash) _ _ w) in E; [|done]|apply (no_charge_ok total _ _ w) in E; [|done]; by intros [= _ <- <-]].
  destruct (st_transaction _ _ _); [|intros [= _ <- <-]; by apply pass_fail_ok].
  destruct (bool_decide _); [destruct (release_on_evidence _ _ _ _ _) eqn:Er; apply release_on_evidence_asked in Er
                            |destruct (settle_chain_answer _ _ _ _ _) eqn:Er; apply chain_answer_asked in Er];
    intros [= _ <- <-]; by eapply same_asked.
Qed.

Lemma not_found_pass total env profile v p w res w' p' :
  pass_ok total p w -> settle_not_found env profile v p w = (res, w', p') -> pass_ok total p' w'.
Proof.
  intros Hp. unfold settle_not_found. destruct (observe env p w) as [o w1] eqn:Eo. apply (observe_ok total) in Eo as Ho; [|done].
  destruct (ps_oldest_ledger o) as [floor|]; [|by intros [= _ <- <-]].
  destruct (_ && _); [destruct (settle_expired _ _ _ _) eqn:Es; apply settle_expired_asked in Es; intros [= _ <- <-]; by eapply same_asked|].
  set (q := if (_ && _ && _ && _) then _ else _). assert (Hq : pass_ok total q w1) by (unfold q; by destruct (_ && _)).
  destruct (time_expired v floor q); [by apply fresh_pass|].
  destruct (pass_charge q) as [[] p1] eqn:E;
    [apply (charge_ask_ok total (AskAccount (rv_source v)) _ _ w1) in E; [|done]|apply (no_charge_ok total _ _ w1) in E; [|done]; by intros [= _ <- <-]].
  destruct (st_account _ _); [destruct (_ <=? _)| |]; [by apply fresh_pass| | |]; intros [= _ <- <-]; by try apply pass_fail_ok.
Qed.

Lemma settle_pass total env profile v p w res w' p' :
  pass_ok total p w -> settle_reservation env profile v p w = (res, w', p') -> pass_ok total p' w'.
Proof.
  intros Hp. assert (Hc : settle_on_chain env profile v p w = (res, w', p') -> pass_ok total p' w').
  { unfold settle_on_chain, step_kept. destruct (decode_hex32 _) as [hash|]; [|by intros [= _ <- <-]].
    destruct (pass_charge p) as [[] p1] eqn:E;
      [apply (charge_ask_ok total (AskTransaction hash) _ _ w) in E; [|done]|apply (no_charge_ok total _ _ w) in E; [|done]; by intros [= _ <- <-]].
    destruct (st_transaction _ _ _); [|intros [= _ <- <-]; by apply pass_fail_ok].
    destruct (bool_decide _); [by apply not_found_pass|].
    destruct (settle_chain_answer _ _ _ _ _) eqn:Er; apply chain_answer_asked in Er; intros [= _ <- <-]; by eapply same_asked. }
  unfold settle_reservation, step_kept. destruct (rw_receipts w); [|done]. destruct (get_receipt _ _ _); [|by intros [= _ <- <-]].
  destruct (recorded_evidence _); [|done]. destruct (release_on_evidence _ _ _ _ _) eqn:Er. apply release_on_evidence_asked in Er.
  intros [= _ <- <-]. by eapply same_asked.
Qed.

Lemma record_settlement_examined v s r : rr_examined (record_settlement v s r) = rr_examined r.
Proof. by destruct s. Qed.

Lemma loop_pass total envs profile due : forall k r p w res w',
  pass_ok total p w -> reconcile_loop envs profile k due r p w = (res, w') ->
  count (rw_asked w') <= total /\
  forall r' p', res = Ok (r', p') -> ps_spent p' = count (rw_asked w') /\ rr_examined r' = rr_examined r + Z.of_nat (length due).
Proof.
  induction due as [|v due IH]; intros k r p w res w' Hp H; cbn in H.
  - injection H as <- <-. destruct Hp as (H1 & H2 & H3). split; [lia|]. intros r' p' [= <- <-]. cbn. split; [done|lia].
  - destruct (settle_reservation _ _ _ _ _) as [[[s|e] w1] p1] eqn:E; apply (settle_pass total) in E; try done.
    + destruct (IH _ _ _ _ _ _ E H) as [H1 H2]. split; [done|]. intros r' p' Hr. destruct (H2 r' p' Hr) as [H3 H4].
      split; [done|]. rewrite H4, record_settlement_examined. cbn. lia.
    + injection H as <- <-. destruct E as (H1 & H2 & H3). split; [lia|done].
Qed.

(** C33: A pass is bounded by its budget, and reports what it did.  However it ends, it has made at most three calls of
    the endpoint's client for each reservation of its budget and two for the pass; when it ends with a
    report it has examined at most [budget] reservations, and the report's count is the number of
    calls made. *)
Theorem reconcile_within_budget wenv all_env envs profile now budget w res w' :
  0 <= budget -> rw_asked w = [] -> reconcile_due wenv all_env envs profile now budget w = (res, w') ->
  count (rw_asked w') <= 3 * budget + 2 /\
  forall r, res = Ok r -> rr_examined r <= budget /\ rr_rpc_calls r = count (rw_asked w').
Proof.
  intros Hb Hw. unfold reconcile_due.
  assert (H0 : count (rw_asked w) <= 3 * budget + 2 /\ rr_rpc_calls report_default = count (rw_asked w)) by (rewrite Hw; split; [unfold count; simpl length; lia|done]).
  destruct (read_for_inspection _ _ _) as [[[wire|]|] d];
    [|intros [= <- <-]; split; [lia|]; intros r [= <-]; split; [done|lia]|intros [= <- <-]; by split; [lia|]].
  destruct (reconcile_loop _ _ _ _ _ _ _) as [x w1] eqn:E.
  destruct (loop_pass _ _ _ _ _ _ _ _ _ _ (pass_new_ok budget w Hw) E) as [H1 H2].
  assert (Hl : count (rw_asked w1) <= 3 * budget + 2) by (unfold sat_add, sat_mul, clamp in H1; cbn in H1; lia).
  destruct x as [[r1 p1]|e]; intros [= <- <-]; (split; [done|]); [|done]. intros r [= <-]. destruct (H2 _ _ eq_refl) as [H3 H4].
  cbn in H4 |- *. unfold due_reservations in H4. rewrite length_take in H4. split; [lia|done].
Qed.

(** ** The receipt first *)

(** The receipt store, when there is one, has a receipt of the reservation with [P]. *)
Definition receipt_on_disk w (id : string) (P : SubmissionReceipt -> Prop) : Prop :=
  match rw_receipts w with
  | None => True
  | Some file => exists m r, receipts_of file = Some m /\ m !! id = Some r /\ P r
  end.

Lemma finalize_with_release_Ok senv fault h st ledger e file file' :
  finalize_with_release senv fault h st ledger e file = (Ok (), file') ->
  exists m r, receipts_of file' = Some m /\ m !! h = Some r /\ sr_status r = st /\
    (st = RsAmbiguous -> is_Some e -> is_Some (sr_release_code r)).
Proof.
  intros H. apply session_Ok in H as (m & Hm & [[Hb _]|(m' & Hb & Hm')]).
  - destruct (m !! h); [|done]. res_inv. destruct (check_transition _ _); done.
  - exists m'. destruct (m !! h) as [r|] eqn:E.
    + destruct (check_transition _ _); [|done]. injection Hb as <-. eexists. split; [done|]. rewrite lookup_insert_eq.
      split; [done|]. unfold settle_receipt. destruct (bool_decide_reflect (st = RsAmbiguous)) as [->|]; cbn [negb];
        [|by split].
      destruct (sr_release_code (with_status RsAmbiguous ledger r)) eqn:Er; (split; [done|]); intros _ He; [by rewrite Er|done].
    + injection Hb as <-. eexists. split; [done|]. rewrite lookup_insert_eq. by repeat split.
Qed.

(** A write that succeeds is the last one. *)
Lemma persist_receipt_Ok env v restore write file file' :
  persist_receipt env v restore write file = (Ok (), file') ->
  (exists file1, write file1 = (Ok (), file')) \/ restore = false.
Proof.
  unfold persist_receipt. destruct (get_receipt _ _ _) as [[r|]|]; [|destruct restore; cbn [negb]|done].
  - intros H. left. eauto.
  - destruct (try_begin _ _ _ _ _ _ _ _ _) as [[] f1]; [|done]. destruct (mark_submitted _ _ _ _) as [[] f2]; [|done].
    intros H. left. eauto.
  - by right.
Qed.

Lemma finalize_receipt_inv env v st ledger w r w' :
  finalize_receipt env v st ledger w = (r, w') ->
  rw_disk w' = rw_disk w /\
  (r = Ok () -> is_definitive_outcome st = true -> receipt_on_disk w' (rv_id v) (fun x => sr_status x = st)).
Proof.
  unfold finalize_receipt, receipt_on_disk. destruct (rw_receipts w) as [file|] eqn:Ew.
  - destruct (persist_receipt _ _ _ _ _) as [r1 f1] eqn:E. intros [= <- <-]. split; [done|]. intros -> Hd. cbn.
    apply persist_receipt_Ok in E as [(f & Hf)|E]; [|congruence].
    apply finalize_with_release_Ok in Hf as (m & x & H1 & H2 & H3 & _). by exists m, x.
  - intros [= <- <-]. by rewrite Ew.
Qed.

(** An unknown outcome, given up on with evidence. *)
Definition given_up (x : SubmissionReceipt) : Prop := sr_status x = RsAmbiguous /\ is_Some (sr_release_code x).

Lemma recorded_given_up o e : recorded_evidence o = Some e -> exists x, o = Some x /\ given_up x.
Proof.
  unfold recorded_evidence, given_up. destruct o as [x|]; [|done]. case_bool_decide as Hs; [|done]. intros H.
  exists x. by rewrite H.
Qed.

Lemma release_receipt_inv env v e w r w' :
  release_receipt env v e w = (r, w') ->
  rw_disk w' = rw_disk w /\ (forall e', r = Ok e' -> receipt_on_disk w' (rv_id v) given_up).
Proof.
  unfold release_receipt, receipt_on_disk. destruct (rw_receipts w) as [file|] eqn:Ew; [|intros [= <- <-]; by rewrite Ew].
  destruct (get_receipt _ _ _) as [found|] eqn:Eg; [|by intros [= <- <-]].
  apply get_receipt_Ok in Eg as (m & Hm & Hf). destruct (recorded_evidence found) eqn:Er.
  - intros [= <- <-]. split; [done|]. intros e' _. rewrite Ew. apply recorded_given_up in Er as (x & -> & Hx). by exists m, x.
  - destruct (persist_receipt _ _ _ _ _) as [[[]|] f1] eqn:E; [|by intros [= <- <-]].
    apply persist_receipt_Ok in E as [(f & Hfin)|E]; [|done].
    apply finalize_with_release_Ok in Hfin as (m1 & x & H1 & H2 & H3 & H4). specialize (H4 eq_refl (ex_intro _ e eq_refl)).
    destruct (get_receipt _ _ f1); intros [= <- <-]; (split; [done|]); [intros e' _|done]. cbn. exists m1, x. by repeat split.
Qed.

(** ** Proof *)

Lemma observe_keeps env p w q w' : observe env p w = (q, w') -> rw_disk w' = rw_disk w /\ rw_receipts w' = rw_receipts w.
Proof.
  unfold observe. destruct (ps_observed p); [by intros [= _ <-]|]. destruct (pass_charge _) as [[] p1]; [|by intros [= _ <-]].
  destruct (st_health env); [|by intros [= _ <-]]. destruct (pass_charge _) as [[] p2]; by intros [= _ <-].
Qed.

(** The chain's answer to the [k]th question for the transaction. *)
Definition answered env v (k : nat) (record : TransactionRecord) : Prop :=
  exists hash, decode_hex32 (rv_tx_hash v) = Ok hash /\ st_transaction env k hash = Ok record.

(** The transaction did not apply and cannot apply any more: asked twice, the chain does
    not know it, and either its time bound has passed on a chain that would remember it,
    or its sequence number is used up. *)
Inductive cannot_apply env v (p' : ReconcilePass) : Prop :=
| ca_time floor ledger close_time :
    ps_oldest_ledger p' = Some floor -> ps_chain p' = Some (ledger, close_time) ->
    0 < rv_max_time v < close_time -> floor <= rv_submission_ledger v <= ledger -> cannot_apply env v p'
| ca_sequence sequence :
    st_account env (rv_source v) = AccountSequence sequence -> rv_sequence v <= sequence -> cannot_apply env v p'.

Definition not_found_twice env v : Prop :=
  (exists r0, answered env v 0 r0 /\ tr_status r0 = "NOT_FOUND") /\ (exists r1, answered env v 1 r1 /\ tr_status r1 = "NOT_FOUND").

(** What was done to the window, and why. *)
Inductive settled env profile v (p' : ReconcilePass) w w' : Prop :=
| sd_nothing : rw_disk w' = rw_disk w -> settled env profile v p' w w'
| sd_confirmed k record :
    answered env v k record -> tr_status record = "SUCCESS" ->
    rw_disk w' = snd (confirm (st_window env) profile (rv_id v) (tr_created_at record) (rw_disk w)) ->
    receipt_on_disk w' (rv_id v) (fun x => sr_status x = RsSuccess) -> settled env profile v p' w w'
| sd_failed k record :
    answered env v k record -> tr_status record = "FAILED" ->
    rw_disk w' = snd (release (st_window env) profile (rv_id v) (rw_disk w)) ->
    receipt_on_disk w' (rv_id v) (fun x => sr_status x = RsFailed (map_failed_record record)) -> settled env profile v p' w w'
| sd_recorded :
    rw_receipts w <> None -> receipt_on_disk w (rv_id v) given_up ->
    rw_disk w' = snd (release (st_window env) profile (rv_id v) (rw_disk w)) ->
    receipt_on_disk w' (rv_id v) given_up -> settled env profile v p' w w'
| sd_evidence :
    not_found_twice env v -> cannot_apply env v p' ->
    rw_disk w' = snd (release (st_window env) profile (rv_id v) (rw_disk w)) ->
    receipt_on_disk w' (rv_id v) given_up -> settled env profile v p' w w'
| sd_marked floor :
    ps_oldest_ledger p' = Some floor -> 0 < rv_submission_ledger v < floor ->
    rw_disk w' = snd (mark_operator_required (st_window env) profile (rv_id v) (rw_disk w)) -> settled env profile v p' w w'.

(** Only the disk and the receipts at the start matter. *)
Lemma settled_from env profile v p' w w0 w' :
  rw_disk w0 = rw_disk w -> rw_receipts w0 = rw_receipts w -> settled env profile v p' w0 w' -> settled env profile v p' w w'.
Proof.
  intros Hd Hr H. unfold receipt_on_disk in *. destruct H as [H|k record A S D R|k record A S D R|N G D R|N C D R|floor F L D]; rewrite Hd in *.
  - by apply sd_nothing.
  - by eapply sd_confirmed.
  - by eapply sd_failed.
  - apply sd_recorded; [congruence| |done|done]. unfold receipt_on_disk in *. by rewrite <- Hr.
  - by apply sd_evidence.
  - by eapply sd_marked.
Qed.

Lemma settled_asking env profile v p' q w w' : settled env profile v p' (asking q w) w' -> settled env profile v p' w w'.
Proof. by apply settled_from. Qed.

Lemma on_disk_inv m st w r w' : window_call m st w = (r, w') -> rw_disk w' = snd (m (rw_disk w)) /\ rw_receipts w' = rw_receipts w.
Proof. unfold window_call. destruct (m (rw_disk w)) as [[]]; by intros [= _ <-]. Qed.

Lemma receipt_on_disk_eq w w' id P : rw_receipts w' = rw_receipts w -> receipt_on_disk w id P -> receipt_on_disk w' id P.
Proof. unfold receipt_on_disk. by intros ->. Qed.

Lemma chain_answer_settled env profile v k record p' w r w' :
  answered env v k record -> settle_chain_answer env profile v record w = (r, w') -> settled env profile v p' w w'.
Proof.
  intros Ha. unfold settle_chain_answer. case_bool_decide as Hs; [|case_bool_decide as Hf; [|intros [= _ <-]; by apply sd_nothing]].
  - destruct (finalize_receipt _ _ _ _ _) as [[[]|] w1] eqn:E; apply finalize_receipt_inv in E as [Hd Hr]; [|intros [= _ <-]; by apply sd_nothing].
    intros [H1 H2]%on_disk_inv. eapply sd_confirmed; [done|done|by rewrite H1, Hd|].
    eapply receipt_on_disk_eq; [exact H2|]. by apply Hr.
  - destruct (finalize_receipt _ _ _ _ _) as [[[]|] w1] eqn:E; apply finalize_receipt_inv in E as [Hd Hr]; [|intros [= _ <-]; by apply sd_nothing].
    intros [H1 H2]%on_disk_inv. eapply sd_failed; [done|done|by rewrite H1, Hd|].
    eapply receipt_on_disk_eq; [exact H2|]. by apply Hr.
Qed.

Lemma release_on_evidence_inv env profile v e w r w' :
  release_on_evidence env profile v e w = (r, w') ->
  rw_disk w' = rw_disk w \/
  rw_disk w' = snd (release (st_window env) profile (rv_id v) (rw_disk w)) /\ receipt_on_disk w' (rv_id v) given_up.
Proof.
  unfold release_on_evidence. destruct (release_receipt _ _ _ _) as [[e'|] w1] eqn:E; apply release_receipt_inv in E as [Hd Hr];
    [|by intros [= _ <-]; left].
  intros [H1 H2]%on_disk_inv. right. split; [by rewrite H1, Hd|]. eapply receipt_on_disk_eq; [exact H2|]. by eapply Hr.
Qed.

(** Charging and failing leave what was observed. *)
Definition same_view (p p' : ReconcilePass) : Prop :=
  ps_oldest_ledger p' = ps_oldest_ledger p /\ ps_chain p' = ps_chain p.

Lemma charge_view p b p' : pass_charge p = (b, p') -> same_view p p'.
Proof. unfold pass_charge. destruct (_ =? _); by intros [= _ <-]. Qed.
Lemma pass_fail_view reason p : same_view p (pass_fail reason p).
Proof. unfold pass_fail. by destruct (ps_failure p). Qed.

Lemma cannot_apply_view env v p p' : same_view p p' -> cannot_apply env v p -> cannot_apply env v p'.
Proof. intros [H1 H2] [floor ledger ct H|]; [eapply ca_time|eapply ca_sequence]; try done; congruence. Qed.

Lemma fresh_settled env profile v e p w res w' p' :
  (exists r0, answered env v 0 r0 /\ tr_status r0 = "NOT_FOUND") -> cannot_apply env v p ->
  fresh_answer_or_release env profile v e p w = (res, w', p') -> settled env profile v p' w w'.
Proof.
  unfold fresh_answer_or_release, step_kept. intros H0 Hca.
  destruct (decode_hex32 (rv_tx_hash v)) as [hash|] eqn:Eh; [|intros [= _ <- _]; by apply sd_nothing].
  destruct (pass_charge p) as [[] p1] eqn:Ec; [|intros [= _ <- _]; by apply sd_nothing]. apply charge_view in Ec.
  destruct (st_transaction env 1 hash) as [record|] eqn:Et; [|intros [= _ <- _]; by apply sd_nothing].
  assert (Ha : answered env v 1 record) by (by exists hash). case_bool_decide as Hs.
  - destruct (release_on_evidence _ _ _ _ _) as [r1 w1] eqn:Er. intros [= _ <- <-].
    apply release_on_evidence_inv in Er as [?|[H1 H2]]; [by apply sd_nothing|].
    apply sd_evidence; [|by eapply cannot_apply_view|done|done]. split; [done|]. by exists record.
  - destruct (settle_chain_answer _ _ _ _ _) as [r1 w1] eqn:Er. intros [= _ <- <-].
    by eapply settled_asking, chain_answer_settled.
Qed.

Lemma time_expired_applies env v floor p :
  ps_oldest_ledger p = Some floor -> time_expired v floor p = true -> cannot_apply env v p.
Proof.
  unfold time_expired. intros Hf. destruct (ps_chain p) as [[ledger ct]|] eqn:Ec; [|by rewrite andb_false_r].
  rewrite !andb_true_iff, !Z.ltb_lt, !Z.leb_le. intros (((H1 & H2) & H3) & H4 & H5). by eapply ca_time.
Qed.

Lemma expired_settled env profile v floor p' w res w' :
  ps_oldest_ledger p' = Some floor -> 0 < rv_submission_ledger v < floor ->
  settle_expired env profile v w = (res, w') -> settled env profile v p' w w'.
Proof.
  intros Hf Hv. unfold settle_expired. destruct (rw_receipts w) as [file|]; [|intros [= _ <-]; by apply sd_nothing].
  destruct (get_receipt _ _ _) as [[x|]|]; [| |intros [= _ <-]; by apply sd_nothing].
  - destruct (finalize_receipt _ _ _ _ _) as [[[]|] w1] eqn:E; apply finalize_receipt_inv in E as [Hd _];
      intros [= _ <-]; by apply sd_nothing.
  - intros [H1 _]%on_disk_inv. by eapply sd_marked.
Qed.

Lemma not_found_settled env profile v p w res w' p' :
  (exists r0, answered env v 0 r0 /\ tr_status r0 = "NOT_FOUND") ->
  settle_not_found env profile v p w = (res, w', p') -> settled env profile v p' w w'.
Proof.
  intros H0. unfold settle_not_found. destruct (observe env p w) as [q w0] eqn:Eob.
  apply observe_keeps in Eob as [Hd0 Hr0]. intros H. eapply settled_from; [exact Hd0|exact Hr0|]. revert H.
  destruct (ps_oldest_ledger q) as [floor|] eqn:Eo; [|intros [= _ <- _]; by apply sd_nothing].
  destruct (_ && _) eqn:Ex.
  { destruct (settle_expired _ _ _ _) as [r1 w1] eqn:Er. intros [= _ <- <-].
    apply andb_true_iff in Ex as [?%Z.ltb_lt ?%Z.ltb_lt]. by eapply expired_settled. }
  set (q' := if (_ && _ && _ && _) then _ else _).
  assert (Hq : ps_oldest_ledger q' = Some floor) by (unfold q'; by case_match).
  destruct (time_expired v floor q') eqn:Et; [intros H; eapply fresh_settled; [done| |done]; by eapply time_expired_applies|].
  destruct (pass_charge q') as [[] p1] eqn:Ec; [|intros [= _ <- _]; by apply sd_nothing].
  destruct (st_account env (rv_source v)) as [sequence| |] eqn:Ea; [|intros [= _ <- _]; by apply sd_nothing..].
  destruct (Z.leb_spec (rv_sequence v) sequence); [|intros [= _ <- _]; by apply sd_nothing].
  intros Hf. eapply settled_asking, fresh_settled; [done| |done]. by eapply ca_sequence.
Qed.

(** C14: A reservation is let go only on proof, and its receipt first.  Whatever the
    endpoint, the stores and the system answer, settling a reservation leaves the window
    alone; or confirms it, because the chain says it was applied; or releases it, because
    the chain says it failed, because a receipt on disk already gives it up, or because the
    chain twice does not know it and it can no longer apply; or marks it for the operator,
    because the endpoint's history starts after it.  And when the window is confirmed or
    released, the receipt on disk says so already. *)
Theorem settled_only_on_proof env profile v p w res w' p' :
  settle_reservation env profile v p w = (res, w', p') -> settled env profile v p' w w'.
Proof.
  assert (Hc : settle_on_chain env profile v p w = (res, w', p') -> settled env profile v p' w w').
  { unfold settle_on_chain, step_kept.
    destruct (decode_hex32 (rv_tx_hash v)) as [hash|] eqn:Eh; [|intros [= _ <- _]; by apply sd_nothing].
    destruct (pass_charge p) as [[] p1] eqn:Ec; [|intros [= _ <- _]; by apply sd_nothing].
    destruct (st_transaction env 0 hash) as [record|] eqn:Et; [|intros [= _ <- _]; by apply sd_nothing].
    assert (Ha : answered env v 0 record) by (by exists hash). case_bool_decide as Hs;
      [intros H; eapply settled_asking, not_found_settled; [by exists record|exact H]|].
    destruct (settle_chain_answer _ _ _ _ _) as [r1 w1] eqn:Er. intros [= _ <- <-].
    by eapply settled_asking, chain_answer_settled. }
  unfold settle_reservation, step_kept. destruct (rw_receipts w) as [file|] eqn:Ew; [|done].
  destruct (get_receipt _ _ _) as [found|] eqn:Eg; [|intros [= _ <- _]; by apply sd_nothing].
  destruct (recorded_evidence found) as [e|] eqn:Er; [|done].
  destruct (release_on_evidence _ _ _ _ _) as [r1 w1] eqn:El. intros [= _ <- <-].
  apply release_on_evidence_inv in El as [?|[H1 H2]]; [by apply sd_nothing|].
  apply get_receipt_Ok in Eg as (m & Hm & Hf). apply recorded_given_up in Er as (x & -> & Hx).
  apply sd_recorded; [by rewrite Ew| |done|done]. unfold receipt_on_disk. rewrite Ew. by exists m, x.
Qed.
End reconcile.
