(* ===== verification/WindowDemo.v ===== *)
(** * The durable window on concrete inputs

    A codec, a hash and a disk with which the theorems on the window are evaluated. *)

From S2P Require Import Prelude RustStr Json Bytes AssetId PolicyTypes StateStore Receipts ReceiptsProps Keyring WindowStore WindowStoreProps WindowCapProps WindowCrash WindowReconcile WindowReconcileProps.
From stdpp Require Import options.

Local Open Scope string_scope.
Local Open Scope list_scope.
Local Open Scope Z_scope.

(** ** A codec *)

(** Values as runs of integers that can be read off the front of a list. *)
Record Codec (A : Type) := MkCodec { put : A -> list Z; take_off : list Z -> option (A * list Z) }.
Arguments put {A} _ _.
Arguments take_off {A} _ _.
Definition codec_ok {A} (c : Codec A) : Prop := forall a l, take_off c (put c a ++ l) = Some (a, l).

Definition int_codec : Codec Z := {| put z := [z]; take_off l := match l with z :: l' => Some (z, l') | [] => None end |}.

Definition map_codec {A B} (f : A -> B) (g : B -> A) (c : Codec A) : Codec B :=
  {| put b := put c (g b); take_off l := '(a, l') ← take_off c l; Some (f a, l') |}.

Definition pair_codec {A B} (c1 : Codec A) (c2 : Codec B) : Codec (A * B) :=
  {| put p := put c1 (fst p) ++ put c2 (snd p);
     take_off l := '(a, l1) ← take_off c1 l; '(b, l2) ← take_off c2 l1; Some ((a, b), l2) |}.

Fixpoint take_many {A} (c : Codec A) (n : nat) (l : list Z) : option (list A * list Z) :=
  match n with
  | O => Some ([], l)
  | S n' => '(a, l1) ← take_off c l; '(rest, l2) ← take_many c n' l1; Some (a :: rest, l2)
  end.
Definition list_codec {A} (c : Codec A) : Codec (list A) :=
  {| put l := Z.of_nat (length l) :: (l ≫= put c);
     take_off l := match l with n :: l' => take_many c (Z.to_nat n) l' | [] => None end |}.

Lemma int_codec_ok : codec_ok int_codec.
Proof. intros z l. reflexivity. Qed.
Lemma map_codec_ok {A B} (f : A -> B) (g : B -> A) c : (forall b, f (g b) = b) -> codec_ok c -> codec_ok (map_codec f g c).
Proof. intros Hfg Hc b l. cbn. rewrite Hc. cbn. by rewrite Hfg. Qed.
Lemma pair_codec_ok {A B} (c1 : Codec A) (c2 : Codec B) : codec_ok c1 -> codec_ok c2 -> codec_ok (pair_codec c1 c2).
Proof. intros H1 H2 [a b] l. cbn. rewrite <- app_assoc, H1. cbn. rewrite H2. done. Qed.
Lemma list_codec_ok {A} (c : Codec A) : codec_ok c -> codec_ok (list_codec c).
Proof.
  intros Hc l k. cbn. rewrite Nat2Z.id. induction l as [|a l IH]; [done|]. cbn. rewrite <- app_assoc, Hc. cbn. by rewrite IH.
Qed.

Definition bool_codec : Codec bool := map_codec (fun z => z =? 1) (fun b : bool => if b then 1 else 0) int_codec.
Definition ascii_codec : Codec ascii := map_codec (fun z => Ascii.ascii_of_N (Z.to_N z)) byte_val int_codec.
Definition string_codec : Codec string := map_codec String.string_of_list_ascii String.list_ascii_of_string (list_codec ascii_codec).

Lemma bool_codec_ok : codec_ok bool_codec.
Proof. apply map_codec_ok; [by intros []|apply int_codec_ok]. Qed.
Lemma string_codec_ok : codec_ok string_codec.
Proof.
  apply map_codec_ok; [apply String.string_of_list_ascii_of_string|]. apply list_codec_ok, map_codec_ok; [|apply int_codec_ok].
  intros a. unfold byte_val. rewrite N2Z.id. apply Ascii.ascii_N_embedding.
Qed.

Definition record_codec : Codec WireRecord :=
  map_codec (fun '(((a, b), ((c, s), t)), ((u, (v, w)), ((x, y), z))) => MkRecord a b c (if s : bool then Pending else Confirmed) t u v w x y z)
    (fun r => (((wr_ts_ms r, wr_amount r), ((wr_id r, is_pending_record r), wr_tx_hash r)),
               ((wr_source r, (wr_sequence r, wr_max_time r)), ((wr_pending_since_ms r, wr_submission_ledger r), wr_operator_required r))))
    (pair_codec (pair_codec (pair_codec int_codec int_codec) (pair_codec (pair_codec string_codec bool_codec) string_codec))
       (pair_codec (pair_codec string_codec (pair_codec int_codec int_codec)) (pair_codec (pair_codec int_codec int_codec) bool_codec))).
Definition bucket_codec : Codec WireBucket :=
  map_codec (fun '((a, b), (c, l)) => MkBucket a b c l)
    (fun b => ((wb_scope_specificity b, wb_bucket b), (wb_window_secs b, wb_records b)))
    (pair_codec (pair_codec int_codec string_codec) (pair_codec int_codec (list_codec record_codec))).

Create HintDb codecs.
#[local] Hint Resolve int_codec_ok bool_codec_ok string_codec_ok pair_codec_ok list_codec_ok : codecs.

Lemma record_codec_ok : codec_ok record_codec.
Proof. apply map_codec_ok; [by intros [? ? ? []]|auto 10 with codecs]. Qed.
Lemma bucket_codec_ok : codec_ok bucket_codec.
Proof. apply map_codec_ok; [by intros []|]. pose proof record_codec_ok. auto 10 with codecs. Qed.

(** A file is its state and the prepared ones. *)
Definition Layer : Type := (Z * Z) * list WireBucket.
Fixpoint layers (w : WireFile) : list Layer :=
  match w with
  | MkWire v g es None => [((v, g), es)]
  | MkWire v g es (Some n) => ((v, g), es) :: layers n
  end.
Fixpoint from_layers (l : list Layer) : option WireFile :=
  match l with
  | [] => None
  | ((v, g), es) :: l' => Some (MkWire v g es (from_layers l'))
  end.

Lemma from_layers_layers : forall w, from_layers (layers w) = Some w.
Proof.
  fix IH 1. intros [v g es [n|]]; [|reflexivity]. cbn [layers from_layers]. rewrite IH. reflexivity.
Qed.

Definition layers_codec : Codec (list Layer) := list_codec (pair_codec (pair_codec int_codec int_codec) (list_codec bucket_codec)).
Lemma layers_codec_ok : codec_ok layers_codec.
Proof. pose proof bucket_codec_ok. unfold layers_codec. auto 10 with codecs. Qed.

Fixpoint bits (p : positive) : string :=
  match p with xH => EmptyString | xO q => String "0" (bits q) | xI q => String "1" (bits q) end.
Fixpoint unbits (s : string) : positive :=
  match s with
  | String a s' => if bool_decide (a = "0"%char) then xO (unbits s') else if bool_decide (a = "1"%char) then xI (unbits s') else xH
  | EmptyString => xH
  end.
Lemma unbits_bits p : unbits (bits p +:+ "}") = p.
Proof.
  induction p as [q IH|q IH|]; [| |done]; cbn [bits]; [change (xI (unbits (bits q +:+ "}")) = xI q)|change (xO (unbits (bits q +:+ "}")) = xO q)];
    by rewrite IH. Qed.

#[export] Instance demo_window_json : WindowJson := {|
  wire_to_json w := put layers_codec (layers w);
  wire_from_json b := ok_or "not a window" ('(l, _) ← take_off layers_codec b; from_layers l);
  commitment_to_json g h := String "{" (bits (countable.encode (g, h)) +:+ "}");
  commitment_from_json s := match s with
    | String _ s' => ok_or "not a commitment" (countable.decode (unbits s'))
    | EmptyString => Err "not a commitment"
    end;
|}.

#[export] Instance demo_window_json_laws : WindowJsonLaws.
Proof.
  split.
  - intros w. cbn [wire_to_json wire_from_json demo_window_json].
    rewrite <- (app_nil_r (put _ _)), layers_codec_ok. cbn. by rewrite from_layers_layers.
  - intros g h. cbn. by rewrite unbits_bits, decode_encode.
  - intros g h. cbn. by eexists.
Qed.

#[local] Existing Instances rfc4648 rfc4648_laws demo_sha2 demo_sha2_laws demo_strkey.

(** ** A run *)

Definition demo_profile : KeyProfile :=
  MkKeyProfile (MkRef "stellar-agent-window-a" "default") (MkRef "stellar-agent-owner-a" "default").
Definition demo_ring : RingEnv := MkRingEnv (fun _ => None) (fun _ _ => None) (fun _ => None).
Definition demo_window_key : list Z := replicate 32 5.

(** Nothing fails, but the rewritings of the file as told. *)
Definition demo_window_env (persist : nat -> PersistFault) : WindowEnv :=
  MkWindowEnv demo_ring None LaFree None persist demo_window_key (Some 2000000).
Definition demo_calm : WindowEnv := demo_window_env (fun _ => None).

Definition demo_key : StateKey := StateKey_new "a" 1 "native" 86400.
Definition demo_pay_entry (n : Z) : WindowEntry := WindowEntry_new demo_key 1000000 n (LimitAmount "native" "day" 1000).
Definition demo_tx_hash : string := Eval vm_compute in Bytes.encode (replicate 32 17).
Definition demo_reservation (id : string) : WindowReservation :=
  MkReservation id demo_tx_hash "GA" 7 0 1000000 50 false.

Definition demo_empty : Disk := MkDisk None ∅.
Definition demo_reserve : WCall := CPending [demo_pay_entry 400] (demo_reservation "e1").
Definition demo_reserved : Disk := Eval vm_compute in snd (wexec demo_profile demo_calm demo_reserve demo_empty).
Definition demo_over : WCall := CPending [demo_pay_entry 700] (demo_reservation "e2").
Definition demo_confirm : WCall := CConfirm "e1" (Some 1100).

(** The file is emptied and put back; a confirmation comes between, a reservation
    over the cap after. *)
Definition demo_events : list WEvent :=
  [EvCall demo_calm demo_reserve true; EvReplaced None; EvCall demo_calm demo_confirm false;
   EvReplaced (d_file demo_reserved); EvCall demo_calm demo_over false].

Lemma demo_wrun : wrun demo_profile demo_empty demo_events demo_reserved.
Proof.
  eapply (wrun_call _ _ _ _ _ demo_reserved); [vm_compute; reflexivity|]. constructor.
  eapply wrun_call; [vm_compute; reflexivity|]. constructor.
  eapply wrun_call; [vm_compute; reflexivity|]. constructor.
Qed.

Lemma window_runs_refine_witness :
  wrun demo_profile demo_empty demo_events demo_reserved /\
  ((exists ow', weffects demo_events None ow' /\ committed demo_profile demo_reserved ow' /\
     forall env key x d1, read_verified env key (generation_entry_ref demo_profile) demo_reserved = (Ok x, d1) ->
       x = base ow' \/ caught demo_reserved ow') \/
   collision_seen demo_profile demo_empty demo_events None).
Proof.
  split; [exact demo_wrun|].
  apply (window_runs_refine demo_profile demo_empty demo_events demo_reserved None); [exact demo_wrun|reflexivity].
Defined.

(** ** Within the cap *)

Definition demo_wire : WireFile :=
  MkWire 3 1 [MkBucket 1 "native" 86400 [pending_record 1000000 400 (demo_reservation "e1")]] None.

Lemma demo_committed : committed demo_profile demo_reserved (Some demo_wire).
Proof. split; [vm_compute; reflexivity|reflexivity]. Qed.

(** Two caps on one window, of different size, with times of their own. *)
Definition demo_pair : list WindowEntry :=
  [WindowEntry_new demo_key 1000000 300 (LimitAmount "native" "day" 900);
   WindowEntry_new demo_key 1000005 300 (LimitAmount "native" "day" 1000)].
Definition demo_rest : WCall := CPending demo_pair (demo_reservation "e3").

Lemma reservation_within_limits_witness :
  exists d', wexec demo_profile demo_calm demo_rest demo_reserved = (true, d') /\
  ((exists w', committed demo_profile d' (Some w') /\
     forall p e q, demo_pair = p ++ e :: q -> within_at w' demo_pair e q) \/
   collision_seen demo_profile demo_empty demo_events None).
Proof.
  eexists. split; [vm_compute; reflexivity|].
  eapply (reservation_within_limits demo_profile demo_empty demo_events demo_reserved demo_calm demo_rest demo_pair "a").
  - reflexivity.
  - exact demo_wrun.
  - repeat constructor; vm_compute; discriminate.
  - repeat constructor; vm_compute; discriminate.
  - right. exists (demo_reservation "e3"). reflexivity.
  - vm_compute. reflexivity.
Defined.

Definition demo_loaded : PolicyStateStore := snd (load_into demo_calm "a" demo_profile demo_reserved PolicyStateStore_new).

Lemma loaded_window_agrees_witness :
  exists ow, fst (load_wire demo_calm "a" demo_profile demo_reserved) = Ok ow /\
    window_in_file (base ow) demo_key 1500000 = denied (fst (query_window demo_loaded demo_key 1500000)).
Proof.
  apply (loaded_window_agrees demo_profile demo_calm "a" demo_reserved demo_loaded demo_key 1500000); vm_compute; reflexivity.
Defined.

(** ** Failing writes *)

Lemma demo_readable : readable demo_profile demo_window_key demo_reserved demo_wire.
Proof.
  split; [exact demo_committed|]. exists demo_wire. split; [vm_compute; reflexivity|].
  split; [vm_compute; discriminate|vm_compute; reflexivity].
Qed.

(** The file is prepared and committed; the compaction fails. *)
Definition demo_uncompacted : WindowEnv := demo_window_env (fun k => if Nat.eqb k 1 then Some (false, OtherIo 28) else None).

Definition demo_half : Disk := Eval vm_compute in snd (wexec demo_profile demo_uncompacted demo_confirm demo_reserved).

Lemma settlement_is_atomic_witness :
  wexec demo_profile demo_uncompacted demo_confirm demo_reserved = (true, demo_half) /\
  exists w', readable demo_profile demo_window_key demo_half w' /\
    (w' = demo_wire \/ weffect demo_uncompacted demo_confirm (Some demo_wire) (Some w')).
Proof.
  split; [vm_compute; reflexivity|].
  refine (settlement_is_atomic demo_profile demo_uncompacted demo_confirm (confirm_entries "e1" 1100000) demo_window_key
           demo_reserved demo_wire true demo_half _ _ _ _ _ _).
  - reflexivity.
  - exact demo_readable.
  - reflexivity.
  - vm_compute. discriminate.
  - vm_compute. reflexivity.
  - vm_compute. reflexivity.
Defined.

(** The keyring does not answer the first question for the key. *)
Definition demo_hiccup : WindowEnv :=
  MkWindowEnv (MkRingEnv (fun _ => None)
      (fun k r => if Nat.eqb k 0 && bool_decide (r = policy_window_state_key_id demo_profile) then Some OtherRing else None)
      (fun _ => None))
    None LaFree None (fun _ => None) (replicate 32 6) (Some 2000000).

Lemma key_read_failure_locks_the_store_witness :
  exists d', release demo_hiccup demo_profile "e1" demo_reserved = (Err WsHmacMismatch, d') /\
    forall env', calm env' ->
      (forall owner, refuse_owner_public_key (wv_ring env') (replicate 32 6) owner (d_ring d') = Ok ()) ->
      read_for_inspection env' demo_profile d' = (Err WsHmacMismatch, d').
Proof.
  apply (key_read_failure_locks_the_store demo_profile demo_hiccup OtherRing demo_window_key (replicate 32 6)
           demo_reserved demo_wire "e1" demo_wire).
  1: exact demo_readable.
  13: vm_compute; discriminate.
  all: vm_compute; reflexivity.
Defined.

(** ** A lookup *)

Local Instance demo_receipts : ReceiptJson Demo := {| receipts_to_json m := m; receipts_from_json t := Ok t |}.
Local Instance demo_receipts_laws : ReceiptJsonLaws Demo := {| receipts_from_to m := eq_refl |}.

(** The chain does not know the transaction, and its sequence number is used up. *)
Definition demo_step : StepEnv :=
  MkStep (fun _ _ => Ok (MkTxRecord "NOT_FOUND" None None (Some None))) (Ok (MkHealth 100 10))
    (LedgersOk (MkLedgers 101 1000 10 500)) (fun _ => AccountSequence 9) (fun _ => demo_env) (fun _ => None) demo_calm.

Definition demo_world : RWorld (Text := Demo) := MkRWorld demo_reserved (Some None) [].
Definition demo_due : result WindowStoreError ReconcileReport * RWorld (Text := Demo) :=
  Eval vm_compute in reconcile_due demo_calm demo_env (fun _ => demo_step) demo_profile 2000000 RECONCILE_BUDGET demo_world.

(** One reservation is released, with five questions. *)
Lemma reconcile_within_budget_witness :
  exists r, fst demo_due = Ok r /\ rr_released r = 1 /\ count (rw_asked (snd demo_due)) = 5 /\
    count (rw_asked (snd demo_due)) <= 3 * 5 + 2 /\ rr_examined r <= 5 /\ rr_rpc_calls r = count (rw_asked (snd demo_due)).
Proof.
  eexists. split; [reflexivity|]. split; [reflexivity|]. split; [reflexivity|].
  destruct (reconcile_within_budget demo_calm demo_env (fun _ => demo_step) demo_profile 2000000 5 demo_world (fst demo_due) (snd demo_due))
    as [H1 H2]; [discriminate|reflexivity|vm_compute; reflexivity|]. split; [exact H1|]. apply H2. reflexivity.
Defined.

Definition demo_settling : Step (Text := Demo) :=
  Eval vm_compute in settle_reservation demo_step demo_profile (demo_reservation "e1") (pass_new 1) demo_world.

Lemma settled_only_on_proof_witness :
  fst (fst demo_settling) = Ok (SReleasedOnEvidence SequenceConsumed) /\
  settled demo_step demo_profile (demo_reservation "e1") (snd demo_settling) demo_world (snd (fst demo_settling)).
Proof.
  split; [reflexivity|].
  apply (settled_only_on_proof demo_step demo_profile (demo_reservation "e1") (pass_new 1) demo_world (fst (fst demo_settling))).
  vm_compute. reflexivity.
Defined.
