(* ===== verification/Network.v ===== *)
(** * Calls on the network (stellar-agent-network: [retry.rs], [client.rs], [endpoint_identity.rs],
      [account.rs], [signing/verify_binding.rs]; parts of [submit.rs] and [idempotent_submit.rs])

    What surrounds the sending of an envelope: a clock, awaited answers and their
    deadlines, retries with backoff, which network an endpoint serves, and the check that
    an envelope's signatures are over that network.  A store of any type stands for the
    files the wallet shares with other processes: at every await the others may have changed it.
    Times are nanoseconds.  URLs and the scrubbed texts of errors are left out. *)

From S2P Require Import Prelude RustStr Json Bytes PolicyTypes Receipts Keyring WindowStore WindowReconcile.
From stdpp Require Import options.

Local Open Scope string_scope.
Local Open Scope list_scope.
Local Open Scope Z_scope.

(** ** Errors *)

(** [jsonrpsee_core::ClientError]; a transport error may carry the status an
    endpoint rejected the request with. *)
Inductive ClientError := CeParseError | CeTransport (rejected : option Z) | CeOther.

(** [stellar_rpc_client::Error]. *)
Inductive RpcError :=
| TransactionSubmissionTimeout
| JsonRpc (e : ClientError)
| TransactionSubmissionFailed (detail : string)
| TransactionFailed | UnexpectedTransactionStatus | RpcXdr | InvalidAddress | InvalidRpcUrl | InvalidRpcUrlFromUriParts
| InvalidUrl | RpcSerde | MissingResult | MissingError | InvalidResponse | RpcNotFound | InvalidNetworkPassphrase
| MissingSignerForAddress | InvalidCursor | UnexpectedSimulateTransactionResultSize | UnexpectedOperationCount
| UnsupportedOperationType | UnexpectedContractCodeDataType | UnexpectedContractInstance | UnexpectedToken | LargeFee
| CannotAuthorizeRawTransaction | TransactionSimulationFailed | MissingOp.

Definition is_retryable_send_error (e : RpcError) : bool :=
  match e with TransactionSubmissionTimeout | JsonRpc _ => true | _ => false end.

Definition rejected_status (e : RpcError) : option Z :=
  match e with JsonRpc (CeTransport rejected) => rejected | _ => None end.

Definition is_retryable_identity_error (e : RpcError) : bool :=
  negb (match e with JsonRpc CeParseError => true | _ => false end)
  && negb (match rejected_status e with Some s => (s =? 401) || (s =? 403) | None => false end)
  && is_retryable_send_error e.

Definition is_retryable_poll_error (e : RpcError) : bool :=
  match e with JsonRpc _ => true | _ => false end.

(** Why an endpoint could not be used: an error of the client, a status it should not
    report, or a reason of the wallet's own. *)
Inductive UnreachableCause :=
| FromRpc (prefix : string) (e : RpcError)
| UnexpectedStatus (prefix status : string)
| Reason (text : string).

Inductive NetworkError :=
| MainnetWriteForbidden
| RpcTimeout (timeout_secs : Z)
| RpcUnreachable (cause : UnreachableCause)
| AccountNotFoundOnLedger (account_id : string)
| EndpointNetworkMismatch (expected server : string)
| EndpointIdentityUnavailable
| RpcCredentialRejected (status : Z)
| UnsupportedProtocolVersion (protocol_version supported_min supported_max : Z)
| EnvelopeSignedForMainnet
| EnvelopeSignatureUnverifiable (hint : string)
| EnvelopeUnsigned.

Definition NetworkError_code (e : NetworkError) : string :=
  match e with
  | MainnetWriteForbidden => "network.mainnet_write_forbidden"
  | RpcTimeout _ => "network.rpc_timeout"
  | RpcUnreachable _ => "network.rpc_unreachable"
  | AccountNotFoundOnLedger _ => "network.account_not_found"
  | EndpointNetworkMismatch _ _ => "network.endpoint_network_mismatch"
  | EndpointIdentityUnavailable => "network.endpoint_identity_unavailable"
  | RpcCredentialRejected _ => "network.rpc_credential_refused"
  | UnsupportedProtocolVersion _ _ _ => "network.unsupported_protocol_version"
  | EnvelopeSignedForMainnet => "network.envelope_signed_for_mainnet"
  | EnvelopeSignatureUnverifiable _ => "network.envelope_signature_unverifiable"
  | EnvelopeUnsigned => "network.envelope_unsigned"
  end.

(** What keeps a submission from being recorded. *)
Inductive UnavailableCause :=
| AuditPoisoned
| AuditRefuses (context : string)
| ReceiptRefuses (e : ReceiptStoreError)
| WindowRefuses (e : WindowStoreError)
| ApprovalStoreUnavailable (e : ApprovalError)
| ApprovalConsumptionFailed (e : ApprovalError)
| ApprovalNamesAnotherTransaction.

Inductive SubmissionError :=
| TxMalformed (detail : string)
| TxAlreadySubmitted (hash : string)
| TxTimeout (tx_hash : string) (seconds : Z)
| OnChainFailed (code : string)
| RecordUnavailable (cause : UnavailableCause)
| HashMismatch (local server : string).

Definition SubmissionError_code (e : SubmissionError) : string :=
  match e with
  | TxMalformed _ => "submission.tx_malformed"
  | TxAlreadySubmitted _ => "submission.tx_already_submitted"
  | TxTimeout _ _ => "submission.tx_timeout"
  | OnChainFailed _ => "submission.on_chain_failed"
  | RecordUnavailable _ => "submission.record_unavailable"
  | HashMismatch _ _ => "submission.hash_mismatch"
  end.

(** [WFailed]: the error of a transaction that failed on chain, by its code. *)
Inductive WalletError :=
| WNetwork (e : NetworkError)
| WProtocol (detail : string)
| WSubmission (e : SubmissionError)
| WFailed (code : string)
| WInternal (detail : string)
| WPolicyDenied (reason : DenyReason)
| WAuditTipAnchorMismatch (profile reason : string).

Definition wallet_code (e : WalletError) : string :=
  match e with
  | WNetwork e => NetworkError_code e
  | WProtocol _ => "protocol.xdr_codec_failed"
  | WSubmission e => SubmissionError_code e
  | WFailed code => code
  | WInternal _ => "internal.unexpected_state"
  | WPolicyDenied reason => wire_code reason
  | WAuditTipAnchorMismatch _ _ => "audit.tip_anchor_mismatch"
  end.

(** ** Envelopes ([stellar_xdr], as far as the wallet looks into them) *)

Inductive MuxedAccount := MuxEd25519 (key : list Z) | MuxMuxed (id : Z) (key : list Z).
Inductive OperationBody := CreateAccount (destination : list Z) | OtherBody (xdr : list Z).
Record Operation := MkOperation { op_source : option MuxedAccount; op_body : OperationBody }.
Record TimeBounds := MkTimeBounds { min_time : Z; max_time : Z }.
Inductive Preconditions := PreNone | PreTime (tb : TimeBounds) | PreV2 (tb : option TimeBounds) (rest : list Z).
Record Transaction := MkTransaction {
  tx_source_account : MuxedAccount;
  tx_seq_num : Z;
  tx_cond : Preconditions;
  tx_operations : list Operation;
  tx_rest : list Z;
}.
Record DecoratedSignature := MkDecorated { ds_hint : list Z; ds_signature : list Z }.
Record FeeBumpTransaction := MkFeeBump {
  fb_fee_source : MuxedAccount;
  fb_inner : Transaction;
  fb_inner_signatures : list DecoratedSignature;
  fb_rest : list Z;
}.
Inductive TransactionEnvelope :=
| EnvTxV0 (time_bounds : option TimeBounds) (rest : list Z)
| EnvTx (tx : Transaction) (signatures : list DecoratedSignature)
| EnvTxFeeBump (tx : FeeBumpTransaction) (signatures : list DecoratedSignature).

Inductive TaggedTransaction := TaggedTx (tx : Transaction) | TaggedFeeBump (tx : FeeBumpTransaction).

Inductive SignerKey := SignerEd25519 (key : list Z) | SignerOther.
Inductive LedgerEntryData := LeAccount (account_id : list Z) (signers : list SignerKey) | LeOther.

(** The XDR codec, its base64 form and the plain base64 alphabet. *)
Class Xdr := {
  envelope_from_xdr : list Z -> result string TransactionEnvelope;
  envelope_from_xdr_base64 : string -> result string TransactionEnvelope;
  payload_to_xdr : list Z -> TaggedTransaction -> result string (list Z);
  ledger_entry_from_xdr_base64 : string -> result string LedgerEntryData;
  base64_standard_decode : string -> result string (list Z);
}.

(** [VerifyingKey::from_bytes] and [verify_strict]. *)
Class Ed25519Verify := { dalek_verify_strict : list Z -> list Z -> list Z -> bool }.

(** ** The world and its answers *)

(** The store at the moment of a send, and what the endpoint said of a transaction. *)
Inductive NetEvent (S : Type) :=
| EvSent (envelope : TransactionEnvelope) (store : S)
| EvTransaction (hash : list Z) (answer : result RpcError TransactionRecord).
Arguments EvSent {S}. Arguments EvTransaction {S}.

(** [nw_trace]: the latest event first. *)
Record NetWorld (S : Type) := MkNet { nw_now : Z; nw_tick : nat; nw_store : S; nw_trace : list (NetEvent S) }.
Arguments MkNet {S}. Arguments nw_now {S}. Arguments nw_tick {S}. Arguments nw_store {S}. Arguments nw_trace {S}.

(** Everything is answered per await: how long it takes, how late a sleeper wakes,
    what other processes do to the store meanwhile, randomness, and the endpoint. *)
Record NetEnv (S : Type) := MkNetEnv {
  ne_delay : nat -> Z;
  ne_late : nat -> Z;
  ne_others : nat -> S -> S;
  ne_random : nat -> Z;
  ne_counter : nat -> Z;
  ne_unix_secs : nat -> Z;
  ne_get_network : nat -> result RpcError (string * Z);
  ne_ledger_entries : nat -> list (list Z) -> result RpcError (option (list string) * Z);
  ne_send : nat -> TransactionEnvelope -> result RpcError (list Z);
  ne_transaction : nat -> list Z -> result RpcError TransactionRecord;
  ne_health : nat -> result RpcError Health;
}.
Arguments ne_delay {S}. Arguments ne_late {S}. Arguments ne_others {S}. Arguments ne_random {S}. Arguments ne_counter {S}.
Arguments ne_unix_secs {S}. Arguments ne_get_network {S}. Arguments ne_ledger_entries {S}. Arguments ne_send {S}.
Arguments ne_transaction {S}. Arguments ne_health {S}.

Definition NM (S A : Type) : Type := NetWorld S -> A * NetWorld S.
Global Instance NM_ret {S} : MRet (NM S) := fun A a w => (a, w).
Global Instance NM_bind {S} : MBind (NM S) := fun A B f m w => let '(a, w') := m w in f a w'.

(** Calls that can fail: the rest runs on [Ok]. *)
Abbreviation NR S A := (NM S (result WalletError A)) (only parsing).
Definition bind_ok {S A B} (f : A -> NR S B) (m : NR S A) : NR S B := fun w =>
  match m w with (Ok a, w') => f a w' | (Err e, w') => (Err e, w') end.
Notation "x ←? m ; k" := (bind_ok (fun x => k) m)
  (at level 20, m at level 100, k at level 200, right associativity, format "x  ←?  m ;  '/' k").
Notation "' x ←? m ; k" := (bind_ok (fun y => let x := y in k) m)
  (at level 20, x pattern, m at level 100, k at level 200, right associativity).
Definition pure {S A} (r : result WalletError A) : NR S A := fun w => (r, w).

Section net.
Context {S : Type} (env : NetEnv S).

Definition now : NM S Z := fun w => (nw_now w, w).

(** Work on the store between two awaits. *)
Definition on_store {A} (f : S -> A * S) : NM S A := fun w =>
  let '(a, s') := f (nw_store w) in (a, MkNet (nw_now w) (nw_tick w) s' (nw_trace w)).

Definition emit (e : S -> NetEvent S) : NM S unit := fun w =>
  ((), MkNet (nw_now w) (nw_tick w) (nw_store w) (e (nw_store w) :: nw_trace w)).

(** The time moves on and others act. *)
Definition pass_to (t : Z) (w : NetWorld S) : NetWorld S :=
  MkNet t (nw_tick w + 1)%nat (ne_others env (nw_tick w) (nw_store w)) (nw_trace w).

Definition await {A} (answer : nat -> A) : NM S A := fun w =>
  let k := nw_tick w in (answer k, pass_to (nw_now w + Z.max 0 (ne_delay env k)) w).

(** [tokio::time::timeout_at]: an answer that is ready at once is taken even after
    the deadline. *)
Definition timeout_at {A} (deadline : Z) (answer : nat -> A) : NM S (option A) := fun w =>
  let k := nw_tick w in
  let d := Z.max 0 (ne_delay env k) in
  if (d =? 0) || (nw_now w + d <=? deadline) then (Some (answer k), pass_to (nw_now w + d) w)
  else (None, pass_to (Z.max (nw_now w) deadline + Z.max 0 (ne_late env k)) w).

Definition sleep_until (t : Z) : NM S unit := fun w =>
  ((), pass_to (Z.max (nw_now w) t + Z.max 0 (ne_late env (nw_tick w))) w).
Definition sleep (d : Z) : NM S unit := fun w => sleep_until (nw_now w + d) w.

(** ** Retries *)

Definition ms : Z := 1000000.
Definition secs : Z := 1000000000.

Record RetryPolicy := MkRetry { max_attempts : Z; base_delay : Z; max_delay : Z }.
Definition RetryPolicy_default : RetryPolicy := MkRetry 5 (500 * ms) (8 * secs).

(** The cap doubles with each attempt, up to [max_delay]. *)
Definition jitter_cap (attempt base_delay max_delay : Z) : Z :=
  let multiplier := if attempt <? 64 then 2 ^ attempt else 2 ^ 64 - 1 in
  Z.min (sat_mul u64 (wrap_u 64 base_delay) multiplier) (wrap_u 64 max_delay).

(** A sample of [0, cap] from the system's randomness and a call counter. *)
Definition jitter_sample (raw nonce cap : Z) : Z :=
  let mixed := Z.lxor (wrap_u 64 raw) (wrap_u 64 (nonce * 0x9e3779b97f4a7c15)) in
  wrap_u 64 (Z.shiftr (mixed * (cap + 1)) 64).

Definition jitter_delay (raw nonce attempt base_delay max_delay : Z) : Z :=
  let cap := jitter_cap attempt base_delay max_delay in
  if cap =? 0 then 0 else jitter_sample raw nonce cap.

(** [left]: the attempts after this one; [op] is one attempt under the deadline. *)
Fixpoint retry_with_delay {A} (policy : RetryPolicy) (deadline : Z) (is_retryable : RpcError -> bool)
    (delay_for : nat -> Z -> Z) (op : NM S (option (result RpcError A))) (left : nat) (attempt : Z)
  : NM S (result RpcError A) :=
  answer ← op;
  match answer with
  | None => mret (Err TransactionSubmissionTimeout)
  | Some (Ok a) => mret (Ok a)
  | Some (Err e) =>
      if negb (is_retryable e) then mret (Err e)
      else
        t ← now;
        if (max_attempts policy <=? attempt + 1) || (deadline <=? t) then mret (Err e)
        else
          k ← (fun w => (nw_tick w, w) : nat * NetWorld S);
          _ ← sleep (Z.min (delay_for k attempt) (Z.max 0 (deadline - t)));
          t' ← now;
          if deadline <=? t' then mret (Err e)
          else match left with
               | O => mret (Err e)
               | Datatypes.S left' => retry_with_delay policy deadline is_retryable delay_for op left' (attempt + 1)
               end
  end.

Definition retry_with_backoff {A} (policy : RetryPolicy) (deadline : Z) (is_retryable : RpcError -> bool)
    (op : NM S (option (result RpcError A))) : NM S (result RpcError A) :=
  retry_with_delay policy deadline is_retryable
    (fun k attempt => jitter_delay (ne_random env k) (ne_counter env k) attempt (base_delay policy) (max_delay policy))
    op (Z.to_nat (Z.max 1 (max_attempts policy) - 1)) 0.

(** ** Which network *)

Definition TESTNET_PASSPHRASE : string := "Test SDF Network ; September 2015".
Definition MAINNET_PASSPHRASE : string := "Public Global Stellar Network ; September 2015".

Inductive Caip2 := Testnet | Mainnet.
Definition caip2_from_passphrase (passphrase : string) : option Caip2 :=
  if bool_decide (passphrase = TESTNET_PASSPHRASE) then Some Testnet
  else if bool_decide (passphrase = MAINNET_PASSPHRASE) then Some Mainnet
  else None.
Definition is_mainnet (c : Caip2) : bool := match c with Mainnet => true | Testnet => false end.

(** No character outside ASCII has a lower case that matters to these texts. *)
Definition is_mainnet_url (url : string) : bool :=
  let lower := to_ascii_lowercase url in
  contains_str "mainnet.stellar" lower || contains_str "horizon.stellar.org" lower || contains_str "pubnet" lower.

Definition refuse_mainnet_write (network_passphrase rpc_url : string) : result NetworkError unit :=
  if bool_decide (network_passphrase = MAINNET_PASSPHRASE) then Err MainnetWriteForbidden
  else if is_mainnet_url rpc_url then Err MainnetWriteForbidden
  else Ok ().

Definition check_protocol_version (chain : option Caip2) (version : Z) : result NetworkError unit :=
  if (29 <=? version) && (version <=? 30) then Ok ()
  else if match chain with Some c => is_mainnet c | None => false end then Err (UnsupportedProtocolVersion version 29 30)
  else Ok ().

Record EndpointIdentity := MkIdentity { ei_chain_id : option Caip2; ei_protocol_version : Z }.

Definition endpoint_identity (expected_passphrase : string) (deadline : Z) : NR S EndpointIdentity :=
  network ← retry_with_backoff RetryPolicy_default deadline is_retryable_identity_error
              (timeout_at deadline (ne_get_network env));
  pure (
    '(passphrase, protocol_version) ←
      map_err (fun e => WNetwork (match rejected_status e with
                                  | Some s => if (s =? 401) || (s =? 403) then RpcCredentialRejected s
                                              else EndpointIdentityUnavailable
                                  | None => EndpointIdentityUnavailable
                                  end)) network;
    if bool_decide (passphrase = MAINNET_PASSPHRASE) then Err (WNetwork MainnetWriteForbidden)
    else if negb (bool_decide (passphrase = expected_passphrase))
    then Err (WNetwork (EndpointNetworkMismatch expected_passphrase passphrase))
    else
      let chain_id := caip2_from_passphrase passphrase in
      _ ← map_err WNetwork (check_protocol_version chain_id protocol_version);
      Ok (MkIdentity chain_id protocol_version)).

(** ** Whose signatures *)

Section binding.
Context `{S2 : !Sha2, SK : !Strkey, X : !Xdr, V : !Ed25519Verify}.

Record AccountRef := MkAccountRef { ar_id : string; ar_key : list Z; ar_created_in_transaction : bool }.
Record SignatureGroup := MkGroup {
  sg_signatures : list DecoratedSignature;
  sg_tagged : TaggedTransaction;
  sg_accounts : list AccountRef;
}.

Definition muxed_account_key (m : MuxedAccount) : list Z :=
  match m with MuxEd25519 key => key | MuxMuxed _ key => key end.

Definition account_ref (m : MuxedAccount) (created : bool) : AccountRef :=
  let key := muxed_account_key m in MkAccountRef (public_key_to_string key) key created.

Definition creates (key : list Z) (op : Operation) : bool :=
  match op_body op with CreateAccount destination => bool_decide (destination = key) | OtherBody _ => false end.

Definition created_before_index (tx : Transaction) (index : nat) (key : list Z) : bool :=
  existsb (creates key) (take index (tx_operations tx)).

Fixpoint operation_sources (tx : Transaction) (index : nat) (ops : list Operation) (accounts : list AccountRef)
  : list AccountRef :=
  match ops with
  | [] => accounts
  | op :: ops' =>
      let accounts' := match op_source op with
        | None => accounts
        | Some source =>
            let key := muxed_account_key source in
            if existsb (fun a => bool_decide (ar_key a = key)) accounts then accounts
            else accounts ++ [account_ref source (created_before_index tx index key)]
        end in
      operation_sources tx (Datatypes.S index) ops' accounts'
  end.

Definition transaction_source_accounts (tx : Transaction) : list AccountRef :=
  operation_sources tx 0 (tx_operations tx) [account_ref (tx_source_account tx) false].

Definition V0_UNSUPPORTED : string :=
  "legacy V0 transaction envelopes are not supported; use a V1 Tx or TxFeeBump envelope".

Definition signature_groups (e : TransactionEnvelope) : result WalletError (list SignatureGroup) :=
  match e with
  | EnvTx tx sigs => Ok [MkGroup sigs (TaggedTx tx) (transaction_source_accounts tx)]
  | EnvTxFeeBump fb sigs =>
      Ok [MkGroup sigs (TaggedFeeBump fb) [account_ref (fb_fee_source fb) false];
          MkGroup (fb_inner_signatures fb) (TaggedTx (fb_inner fb)) (transaction_source_accounts (fb_inner fb))]
  | EnvTxV0 _ _ => Err (WProtocol V0_UNSUPPORTED)
  end.

Definition reject_v0_envelope (e : TransactionEnvelope) : result WalletError unit :=
  match e with EnvTxV0 _ _ => Err (WProtocol V0_UNSUPPORTED) | _ => Ok () end.

Definition network_id (passphrase : string) : list Z := sha256 (as_bytes passphrase).

Definition payload_hash (id : list Z) (tagged : TaggedTransaction) : result WalletError (list Z) :=
  bytes ← map_err (fun e => WProtocol ("TransactionSignaturePayload XDR encode failed: " +:+ e)) (payload_to_xdr id tagged);
  Ok (sha256 bytes).

Definition verify_one_signature (s : DecoratedSignature) (candidate_keys : list (list Z)) (endpoint_hash mainnet_hash : list Z)
  : result WalletError unit :=
  let unverifiable := WNetwork (EnvelopeSignatureUnverifiable (encode (ds_hint s))) in
  let candidates := filter (fun key => take 4 (drop 28 key) = ds_hint s) candidate_keys in
  if bool_decide (candidates = []) then Err unverifiable
  else if negb (Nat.eqb (length (ds_signature s)) 64) then Err unverifiable
  else if existsb (fun key => dalek_verify_strict key endpoint_hash (ds_signature s)) candidates then Ok ()
  else if existsb (fun key => dalek_verify_strict key mainnet_hash (ds_signature s)) candidates
  then Err (WNetwork EnvelopeSignedForMainnet)
  else Err unverifiable.

(** Keys of the accounts, from their ledger entries. *)
Definition account_signers (m : gmap string (list (list Z))) (d : LedgerEntryData) : gmap string (list (list Z)) :=
  match d with
  | LeAccount master signers =>
      <[public_key_to_string master :=
         master :: omap (fun k => match k with SignerEd25519 key => Some key | SignerOther => None end) signers]> m
  | LeOther => m
  end.

Definition distinct_ids (ids : list string) : list string := sort_strings (elements (list_to_set ids : gset string)).

Definition read_signers (distinct : list string) (response : option (list string) * Z)
  : result WalletError (gmap string (list (list Z)) * Z) :=
  datas ← mapM_res (fun xdr => map_err (fun e => WProtocol ("failed to decode account entry data XDR: " +:+ e))
                                 (ledger_entry_from_xdr_base64 xdr)) (default [] (fst response));
  let signers := foldl account_signers ∅ datas in
  _ ← mapM_res (fun id => if bool_decide (is_Some (signers !! id)) then Ok ()
                          else Err (WNetwork (AccountNotFoundOnLedger id))) distinct;
  Ok (signers, if in_rangeb u32 (snd response) then snd response else 0).

Definition fetch_account_signers (ids : list string) (deadline : Z) : NR S (gmap string (list (list Z)) * Z) :=
  let distinct := distinct_ids ids in
  keys ←? pure (mapM_res (fun id => map_err (fun e => WProtocol ("invalid account_id for fetch_account_signers: " +:+ e))
                                      (public_key_from_string id)) distinct);
  response ← retry_with_backoff RetryPolicy_default deadline is_retryable_send_error
               (timeout_at deadline (fun k => ne_ledger_entries env k keys));
  pure (response ← map_err (fun e => WNetwork (RpcUnreachable (FromRpc "getLedgerEntries failed: " e))) response;
        read_signers distinct response).

Definition candidate_keys (signers : gmap string (list (list Z))) (accounts : list AccountRef) : list (list Z) :=
  accounts ≫= fun a => if ar_created_in_transaction a then [ar_key a] else default [] (signers !! ar_id a).

Definition verify_group (endpoint_passphrase : string) (signers : gmap string (list (list Z))) (g : SignatureGroup)
  : result WalletError unit :=
  endpoint_hash ← payload_hash (network_id endpoint_passphrase) (sg_tagged g);
  mainnet_hash ← payload_hash (network_id MAINNET_PASSPHRASE) (sg_tagged g);
  _ ← mapM_res (fun s => verify_one_signature s (candidate_keys signers (sg_accounts g)) endpoint_hash mainnet_hash)
        (sg_signatures g);
  Ok ().

(** The ledger the endpoint was at, when every signature is over this network. *)
Definition verify_signature_network_binding (e : TransactionEnvelope) (endpoint_passphrase : string) (deadline : Z)
  : NR S Z :=
  groups ←? pure (signature_groups e);
  if existsb (fun g => bool_decide (sg_signatures g = [])) groups then pure (Err (WNetwork EnvelopeUnsigned))
  else
    let ids := groups ≫= fun g => omap (fun a => if ar_created_in_transaction a then None else Some (ar_id a)) (sg_accounts g) in
    '(signers, latest_ledger) ←? fetch_account_signers ids deadline;
    pure (_ ← mapM_res (verify_group endpoint_passphrase signers) groups; Ok latest_ledger).

(** ** Hashes and identity of an envelope *)

Definition bytes_to_hex (bytes : list Z) : string := encode bytes.

Definition envelope_hash_hex (envelope_xdr : string) : string := bytes_to_hex (sha256 (as_bytes envelope_xdr)).

Definition compute_local_tx_hash_hex (e : TransactionEnvelope) (network_passphrase : string) : result WalletError string :=
  tagged ← match e with
           | EnvTx tx _ => Ok (TaggedTx tx)
           | EnvTxFeeBump fb _ => Ok (TaggedFeeBump fb)
           | EnvTxV0 _ _ => Err (WProtocol "a legacy TxV0 envelope has no tagged-transaction form and cannot be hashed or signed")
           end;
  bytes ← map_err (fun e => WProtocol ("failed to encode TransactionSignaturePayload: " +:+ e))
            (payload_to_xdr (network_id network_passphrase) tagged);
  Ok (bytes_to_hex (sha256 bytes)).

Definition replay_identity (e : TransactionEnvelope) : result WalletError (string * Z) :=
  tx ← match e with
       | EnvTx tx _ => Ok tx
       | EnvTxFeeBump fb _ => Ok (fb_inner fb)
       | EnvTxV0 _ _ => Err (WProtocol "a legacy TxV0 envelope is refused before the replay identity is read")
       end;
  Ok (public_key_to_string (muxed_account_key (tx_source_account tx)), tx_seq_num tx).

Definition bounds_max (tb : option TimeBounds) : Z := match tb with Some tb => max_time tb | None => 0 end.
Definition cond_max_time (c : Preconditions) : Z :=
  match c with PreNone => 0 | PreTime tb => max_time tb | PreV2 tb _ => bounds_max tb end.
Definition extract_max_time (e : TransactionEnvelope) : Z :=
  match e with
  | EnvTx tx _ => cond_max_time (tx_cond tx)
  | EnvTxV0 tb _ => bounds_max tb
  | EnvTxFeeBump fb _ => cond_max_time (tx_cond (fb_inner fb))
  end.

Definition tx_hash_bytes (hex : string) : result WalletError (list Z) :=
  map_err (fun _ => WProtocol "computed transaction hash is not 32 hex-encoded bytes") (decode_hex32 hex).

End binding.
End net.
