(* ===== verification/Submit.v ===== *)
(** * Submitting an envelope (stellar-agent-network, [submit.rs], [idempotent_submit.rs])

    Two ways to the network share the checks before a send and differ in their records:
    [submit_transaction_and_wait] tells a recorder before the send and of its outcome,
    [submit_transaction_idempotent] keeps a receipt of its own.  Both then poll for the
    outcome until a deadline.  The loops get fuel; the properties show that it is enough. *)

From S2P Require Import Prelude RustStr Json Bytes PolicyTypes Receipts Keyring WindowStore WindowReconcile Network.
From stdpp Require Import options.

Local Open Scope string_scope.
Local Open Scope list_scope.
Local Open Scope Z_scope.

(** How a call ends: with a result, or in a panic.  [Unfinished]: the fuel ran out. *)
Inductive Ended (A : Type) := Returned (r : result WalletError A) | Panicked | Unfinished.
Arguments Returned {A} r. Arguments Panicked {A}. Arguments Unfinished {A}.

Inductive SubmissionSignerKind := SkSoftware | SkKeyring | SkHardware.

Record SubmissionResult := MkSubmitted {
  su_tx_hash : string;
  su_ledger : Z;
  su_signer_kind : option SubmissionSignerKind;
}.

(** ** The recorder's interface ([submission_record.rs]) *)

Record SubmissionIntent := MkIntent {
  in_envelope_hash : string;
  in_tx_hash : string;
  in_source : string;
  in_sequence : Z;
  in_max_time : Z;
  in_submission_ledger : Z;
}.

Inductive SubmissionOutcome :=
| OutSuccess (ledger : Z) (created_at : option Z)
| OutOnChainFailed (code : string)
| OutRejected (code : string)
| OutTimeout
| OutTransportAfterSend.

Record SubmissionRecorder (S : Type) := MkRecorder {
  pre_send : SubmissionIntent -> NR S unit;
  outcome : SubmissionIntent -> SubmissionOutcome -> NM S unit;
}.
Arguments pre_send {S}. Arguments outcome {S}.

Definition POLL_INTERVAL : Z := 2 * secs.
Definition RETENTION_POLL_INTERVAL : Z := 2 * secs.
Definition FINAL_RETENTION_CHECK_TIMEOUT : Z := 2 * secs.

(** One poll per interval and the one that finds the deadline passed. *)
Definition poll_fuel (timeout : Z) : nat := Z.to_nat ((timeout + POLL_INTERVAL - 1) / POLL_INTERVAL + 1).

(** ** Sending and asking *)

Section send.
Context {S : Type} (env : NetEnv S).

(** A request that was begun may have arrived, answered or not. *)
Definition send_transaction (deadline : Z) (e : TransactionEnvelope) : NM S (option (result RpcError (list Z))) :=
  _ ← emit (EvSent e); timeout_at env deadline (fun k => ne_send env k e).

Definition get_transaction_record (hash : list Z) : NM S (result RpcError TransactionRecord) :=
  a ← await env (fun k => ne_transaction env k hash); _ ← emit (fun _ => EvTransaction hash a); mret a.

Definition get_transaction_within (deadline : Z) (hash : list Z) : NM S (option (result RpcError TransactionRecord)) :=
  a ← timeout_at env deadline (fun k => ne_transaction env k hash);
  match a with
  | Some a => _ ← emit (fun _ => EvTransaction hash a); mret (Some a)
  | None => mret None
  end.

Definition sleep_before_next_poll (interval deadline : Z) : NM S unit :=
  t ← now; sleep_until env (Z.min deadline (t + interval)).

Definition SEND_NO_RESPONSE_MARKER : string := "No status yet:".
Definition is_definitive_send_refusal (e : RpcError) : bool :=
  match e with TransactionSubmissionFailed detail => negb (contains_str SEND_NO_RESPONSE_MARKER detail) | _ => false end.

Definition map_send_error (e : RpcError) (timeout_secs : Z) : WalletError :=
  match e with
  | TransactionSubmissionFailed msg => WSubmission (TxMalformed msg)
  | TransactionSubmissionTimeout => WNetwork (RpcTimeout timeout_secs)
  | RpcXdr => WProtocol "the client's XDR error"
  | _ => WNetwork (RpcUnreachable (FromRpc EmptyString e))
  end.

Definition map_rpc_error_generic (e : RpcError) (timeout_secs : Z) : WalletError :=
  match e with
  | TransactionSubmissionTimeout => WNetwork (RpcTimeout timeout_secs)
  | RpcXdr => WProtocol "the client's XDR error"
  | _ => WNetwork (RpcUnreachable (FromRpc EmptyString e))
  end.

Definition transport_failure (e : RpcError) : WalletError := WNetwork (RpcUnreachable (FromRpc EmptyString e)).

(** The recorder is told, when there is one. *)
Definition tell (recorder : option (SubmissionRecorder S)) (i : SubmissionIntent) (o : SubmissionOutcome) : NM S unit :=
  match recorder with Some r => outcome r i o | None => mret () end.

Definition record_timeout (recorder : option (SubmissionRecorder S)) (i : SubmissionIntent) (seconds : Z) : NM S WalletError :=
  _ ← tell recorder i OutTimeout; mret (WSubmission (TxTimeout (in_tx_hash i) seconds)).

Definition handle_send_failure (recorder : option (SubmissionRecorder S)) (i : SubmissionIntent) (e : RpcError)
    (timeout_secs : Z) : NM S WalletError :=
  let mapped := map_send_error e timeout_secs in
  match recorder with
  | None => mret mapped
  | Some r =>
      if is_definitive_send_refusal e
      then _ ← outcome r i (OutRejected (wallet_code mapped)); mret mapped
      else _ ← outcome r i OutTransportAfterSend; mret (WSubmission (TxTimeout (in_tx_hash i) timeout_secs))
  end.

(** ** Polling for the outcome *)

(** What a poll's record means: an end, or another poll. *)
Definition settle_poll (recorder : option (SubmissionRecorder S)) (i : SubmissionIntent) (signer_kind : option SubmissionSignerKind)
    (timeout_secs : Z) (record : TransactionRecord) : NM S (option (result WalletError SubmissionResult)) :=
  if bool_decide (tr_status record = "SUCCESS") then
    let ledger := default 0 (tr_ledger record) in
    _ ← tell recorder i (OutSuccess ledger (tr_created_at record));
    mret (Some (Ok (MkSubmitted (in_tx_hash i) ledger signer_kind)))
  else if bool_decide (tr_status record = "FAILED") then
    let code := map_failed_record record in
    _ ← tell recorder i (OutOnChainFailed code);
    mret (Some (Err (WFailed code)))
  else if bool_decide (tr_status record = "NOT_FOUND") then mret None
  else match recorder with
       | None => mret (Some (Err (WNetwork (RpcUnreachable (UnexpectedStatus EmptyString (tr_status record))))))
       | Some r => _ ← outcome r i OutTransportAfterSend;
                   mret (Some (Err (WSubmission (TxTimeout (in_tx_hash i) timeout_secs))))
       end.

Definition settle_poll_error (recorder : option (SubmissionRecorder S)) (i : SubmissionIntent) (timeout_secs : Z)
    (e : RpcError) : NM S WalletError :=
  match recorder with
  | None => mret (map_rpc_error_generic e timeout_secs)
  | Some r => _ ← outcome r i OutTransportAfterSend; mret (WSubmission (TxTimeout (in_tx_hash i) timeout_secs))
  end.

Fixpoint poll_for_confirmation (fuel : nat) (hash : list Z) (send_deadline timeout_secs : Z) (i : SubmissionIntent)
    (recorder : option (SubmissionRecorder S)) (signer_kind : option SubmissionSignerKind)
  : NM S (Ended SubmissionResult) :=
  let timed_out := e ← record_timeout recorder i timeout_secs; mret (Returned (Err e)) in
  match fuel with
  | O => mret Unfinished
  | Datatypes.S fuel' =>
      let again := _ ← sleep_before_next_poll POLL_INTERVAL send_deadline;
                   poll_for_confirmation fuel' hash send_deadline timeout_secs i recorder signer_kind in
      t ← now;
      if send_deadline <=? t then timed_out
      else
        polled ← get_transaction_within send_deadline hash;
        match polled with
        | None => timed_out
        | Some polled =>
            t ← now;
            if send_deadline <=? t then timed_out
            else match polled with
                 | Err e => if is_retryable_poll_error e then again
                            else e ← settle_poll_error recorder i timeout_secs e; mret (Returned (Err e))
                 | Ok record =>
                     settled ← settle_poll recorder i signer_kind timeout_secs record;
                     match settled with Some r => mret (Returned r) | None => again end
                 end
        end
  end.

(** ** Submission with a recorder *)

Section submit.
Context `{S2 : !Sha2, SK : !Strkey, X : !Xdr, V : !Ed25519Verify}.

(** The rest of a call, unless an error ended it. *)
Definition ended {A B} (m : NR S A) (f : A -> NM S (Ended B)) : NM S (Ended B) := fun w =>
  match m w with (Ok a, w') => f a w' | (Err e, w') => (Returned (Err e), w') end.

(** What is known of an envelope when it may be sent. *)
Definition prepare_intent (envelope : TransactionEnvelope) (envelope_xdr network_passphrase : string) (submission_ledger : Z)
  : result WalletError (SubmissionIntent * list Z) :=
  tx_hash_hex ← compute_local_tx_hash_hex envelope network_passphrase;
  hash ← tx_hash_bytes tx_hash_hex;
  '(source, sequence) ← replay_identity envelope;
  Ok (MkIntent (envelope_hash_hex envelope_xdr) tx_hash_hex source sequence (extract_max_time envelope) submission_ledger, hash).

Definition submit_checked (envelope : TransactionEnvelope) (timeout : Z) (deadline : Z) (i : SubmissionIntent) (hash : list Z)
    (signer_kind : option SubmissionSignerKind) (recorder : option (SubmissionRecorder S)) : NM S (Ended SubmissionResult) :=
  let timeout_secs := timeout / secs in
  sent ← retry_with_backoff env RetryPolicy_default deadline is_retryable_send_error (send_transaction deadline envelope);
  match sent with
  | Err e => e ← handle_send_failure recorder i e timeout_secs; mret (Returned (Err e))
  | Ok server_tx_hash =>
      let server := bytes_to_hex server_tx_hash in
      if negb (bool_decide (server = in_tx_hash i)) then
        _ ← tell recorder i OutTransportAfterSend;
        mret (Returned (Err (WSubmission (HashMismatch (in_tx_hash i) server))))
      else poll_for_confirmation (poll_fuel timeout) hash deadline timeout_secs i recorder signer_kind
  end.

Definition submit_transaction_and_wait (url envelope_xdr : string) (timeout : Z) (network_passphrase : string)
    (signer_kind : option SubmissionSignerKind) (recorder : option (SubmissionRecorder S)) : NM S (Ended SubmissionResult) :=
  ended (pure (map_err WNetwork (refuse_mainnet_write network_passphrase url))) (fun _ =>
  ended (pure (map_err (fun e => WProtocol ("failed to decode TransactionEnvelope from base64 XDR: " +:+ e))
                 (envelope_from_xdr_base64 envelope_xdr))) (fun envelope =>
  start ← now;
  let deadline := start + timeout in
  ended (pure (reject_v0_envelope envelope)) (fun _ =>
  ended (endpoint_identity env network_passphrase deadline) (fun _ =>
  ended (verify_signature_network_binding env envelope network_passphrase deadline) (fun submission_ledger =>
  ended (pure (prepare_intent envelope envelope_xdr network_passphrase submission_ledger)) (fun '(i, hash) =>
  ended (match recorder with Some r => pre_send r i | None => mret (Ok ()) end) (fun _ =>
  submit_checked envelope timeout deadline i hash signer_kind recorder))))))).

(** ** The checks before an idempotent send *)

Definition decode_envelope (envelope_xdr : string) : result WalletError TransactionEnvelope :=
  bytes ← map_err (fun e => WProtocol ("base64 decode failed: " +:+ e)) (base64_standard_decode (trim envelope_xdr));
  map_err (fun e => WProtocol ("failed to decode TransactionEnvelope XDR: " +:+ e)) (envelope_from_xdr bytes).

(** The key is the hash of the text as given. *)
Definition decode_and_hash_envelope (envelope_xdr : string) : result WalletError (TransactionEnvelope * string) :=
  envelope ← decode_envelope envelope_xdr; Ok (envelope, envelope_hash_hex envelope_xdr).

Definition compute_tx_hash_hex (e : TransactionEnvelope) (network_passphrase : string) : result WalletError string :=
  match e with
  | EnvTx _ _ => compute_local_tx_hash_hex e network_passphrase
  | _ => Err (WProtocol "compute_tx_hash_hex: unexpected non-V1 envelope (should be unreachable after V1 guard)")
  end.

Definition pre_send_checks (url envelope_xdr network_passphrase : string) (deadline : Z) : NR S TransactionEnvelope :=
  _ ←? pure (map_err WNetwork (refuse_mainnet_write network_passphrase url));
  envelope ←? pure (decode_envelope envelope_xdr);
  _ ←? pure (reject_v0_envelope envelope);
  _ ←? endpoint_identity env network_passphrase deadline;
  _ ←? verify_signature_network_binding env envelope network_passphrase deadline;
  mret (Ok envelope).

End submit.
End send.

(** ** Idempotent submission *)

Definition LOSER_POLL_INTERVAL : Z := 500 * ms.
Definition LOSER_MAX_POLLS : nat := 120.
Definition ZERO_HASH_SENTINEL : string := "0000000000000000000000000000000000000000000000000000000000000000".

Inductive RetentionCheck := OutsideWindow (oldest_ledger : Z) | WithinWindow | HealthCheckFailed.

(** What the system answers the receipt store, per await and call. *)
Record ReceiptEnv := MkReceiptEnv { re_session : nat -> SessionEnv; re_fault : nat -> PersistFault }.

(** A byte from each two characters; slicing inside a character panics. *)
Fixpoint hex_bytes (hex : string) (i n : nat) : option (result WalletError (list Z)) :=
  match n with
  | O => Some (Ok [])
  | S n' =>
      pair ← str_get hex (i * 2) (i * 2 + 2);
      match u8_from_hex pair with
      | None => Some (Err (WProtocol "invalid hex in tx hash"))
      | Some b => rest ← hex_bytes hex (S i) n'; Some (bs ← rest; Ok (b :: bs))
      end
  end.
Definition hex_to_hash32 (hex : string) : option (result WalletError (list Z)) :=
  if negb (len hex =? 64) then Some (Err (WProtocol "expected 64-char hex tx hash")) else hex_bytes hex 0 32.

Definition health_plausible (h : Health) : bool := (0 <? he_oldest_ledger h) && (he_oldest_ledger h <=? he_latest_ledger h).

Section idempotent.
Context {Text : Type} {RJ : ReceiptJson Text} (env : NetEnv (option Text)) (renv : ReceiptEnv).
Abbreviation File := (option Text).

(** One session of the store; others may have theirs before the next. *)
Definition store_call {A} (f : SessionEnv -> PersistFault -> File -> Run (Text := Text) A)
  : NM File (result ReceiptStoreError A) := fun w =>
  (r ← on_store (f (re_session renv (nw_tick w)) (re_fault renv (nw_tick w))); _ ← await env (fun _ => ()); mret r) w.

Definition store_get (h : string) : NM File (result ReceiptStoreError (option SubmissionReceipt)) :=
  store_call (fun e _ file => (get_receipt e h file, file)).

(** A write whose failure is logged only, and one whose failure ends the call. *)
Definition finalize_quietly (h : string) (s : ReceiptStatus) (ledger : option Z) : NM File unit :=
  _ ← store_call (fun e f => finalize e f h s ledger); mret ().
Definition store_or_fail {A} (detail : string) (m : NM File (result ReceiptStoreError A)) : NR File A :=
  r ← m; mret (map_err (fun _ => WInternal detail) r).

Definition ambiguous (text : string) : WalletError := WNetwork (RpcUnreachable (Reason text)).

Definition check_retention_window (recorded_at_ledger deadline : Z) : NM File RetentionCheck :=
  t ← now;
  if deadline <=? t then mret HealthCheckFailed
  else
    answer ← timeout_at env deadline (ne_health env);
    match answer with
    | None => mret HealthCheckFailed
    | Some answer =>
        t ← now;
        mret (if deadline <=? t then HealthCheckFailed
              else match answer with
                   | Ok h => if negb (health_plausible h) then HealthCheckFailed
                             else if recorded_at_ledger <? he_oldest_ledger h then OutsideWindow (he_oldest_ledger h)
                             else WithinWindow
                   | Err _ => HealthCheckFailed
                   end)
    end.

Record RetentionPoll := MkRetention {
  rp_envelope_hash : string;
  rp_tx_hash_hex : string;
  rp_recorded_at_ledger : Z;
  rp_max_time : Z;
  rp_send_deadline : Z;
  rp_timeout : Z;
}.

(** [DeadlineExit::settle]: the outcome is unknown. *)
Definition deadline_settle (p : RetentionPoll) (after_transient_error : bool) : NM File WalletError :=
  let unknown_outcome text := _ ← finalize_quietly (rp_envelope_hash p) RsAmbiguous None; mret (ambiguous text) in
  if after_transient_error then unknown_outcome "transaction status ambiguous: timeout with transient poll error"
  else
    t ← now;
    check ← check_retention_window (rp_recorded_at_ledger p) (t + FINAL_RETENTION_CHECK_TIMEOUT);
    match check with
    | OutsideWindow _ => unknown_outcome "transaction status ambiguous: timeout + submission predates retention floor"
    | WithinWindow | HealthCheckFailed => unknown_outcome "transaction status ambiguous: not confirmed in time"
    end.

(** A poll's record; [None]: poll again. *)
Definition settle_record (p : RetentionPoll) (record : TransactionRecord) : NM File (option (result WalletError SubmissionResult)) :=
  if bool_decide (tr_status record = "SUCCESS") then
    let ledger := default 0 (tr_ledger record) in
    _ ← finalize_quietly (rp_envelope_hash p) RsSuccess (Some ledger);
    mret (Some (Ok (MkSubmitted (rp_tx_hash_hex p) ledger None)))
  else if bool_decide (tr_status record = "FAILED") then
    let code := map_failed_record record in
    _ ← finalize_quietly (rp_envelope_hash p) (RsFailed code) None;
    mret (Some (Err (WFailed code)))
  else if bool_decide (tr_status record = "NOT_FOUND") then
    check ← check_retention_window (rp_recorded_at_ledger p) (rp_send_deadline p);
    match check with
    | OutsideWindow _ =>
        _ ← finalize_quietly (rp_envelope_hash p) RsAmbiguous None;
        mret (Some (Err (ambiguous "transaction status ambiguous: NOT_FOUND and submission predates the RPC retention floor")))
    | WithinWindow | HealthCheckFailed => mret None
    end
  else mret (Some (Err (WNetwork (RpcUnreachable (UnexpectedStatus EmptyString (tr_status record)))))).

Fixpoint poll_with_retention (fuel : nat) (hash : list Z) (p : RetentionPoll) (after_transient_error : bool)
  : NM File (Ended SubmissionResult) :=
  let unknown_outcome after := e ← deadline_settle p after; mret (Returned (Err e)) in
  match fuel with
  | O => mret Unfinished
  | Datatypes.S fuel' =>
      let again after := _ ← sleep_before_next_poll env RETENTION_POLL_INTERVAL (rp_send_deadline p);
                         poll_with_retention fuel' hash p after in
      t ← now;
      if rp_send_deadline p <=? t then unknown_outcome after_transient_error
      else
        polled ← get_transaction_within env (rp_send_deadline p) hash;
        match polled with
        | None => unknown_outcome false
        | Some polled =>
            let after := match polled with Err e => is_retryable_poll_error e | Ok _ => false end in
            t ← now;
            if rp_send_deadline p <=? t then unknown_outcome after
            else match polled with
                 | Err e => if is_retryable_poll_error e then again after
                            else mret (Returned (Err (transport_failure e)))
                 | Ok record =>
                     settled ← settle_record p record;
                     match settled with Some r => mret (Returned r) | None => again after end
                 end
        end
  end.

Section net_checks.
Context `{S2 : !Sha2, SK : !Strkey, X : !Xdr, V : !Ed25519Verify}.

(** The checks; a refusal takes the receipt back. *)
Definition checks_or_abandon (url envelope_xdr network_passphrase envelope_hash : string) (deadline : Z)
  : NR File TransactionEnvelope :=
  checked ← pre_send_checks env url envelope_xdr network_passphrase deadline;
  match checked with
  | Ok envelope => mret (Ok envelope)
  | Err refusal => _ ← store_call (fun e f => abandon_pre_submit e f envelope_hash); mret (Err refusal)
  end.

Definition submit_with_retention_poll (url envelope_xdr : string) (timeout : Z) (network_passphrase envelope_hash : string)
    (recorded_at_ledger max_time : Z) : NM File (Ended SubmissionResult) :=
  start ← now;
  let deadline := start + timeout in
  ended (checks_or_abandon url envelope_xdr network_passphrase envelope_hash deadline) (fun envelope =>
  ended (pure (tx_hash_hex ← compute_local_tx_hash_hex envelope network_passphrase;
               hash ← tx_hash_bytes tx_hash_hex; Ok (tx_hash_hex, hash))) (fun '(tx_hash_hex, hash) =>
  _ ← store_call (fun e f => mark_submitted e f envelope_hash);
  sent ← retry_with_backoff env RetryPolicy_default deadline is_retryable_send_error (send_transaction env deadline envelope);
  match sent with
  | Err e => mret (Returned (Err (transport_failure e)))
  | Ok server_tx_hash =>
      let server := bytes_to_hex server_tx_hash in
      if negb (bool_decide (server = tx_hash_hex)) then mret (Returned (Err (WSubmission (HashMismatch tx_hash_hex server))))
      else poll_with_retention (poll_fuel timeout) hash
             (MkRetention envelope_hash tx_hash_hex recorded_at_ledger max_time deadline timeout) false
  end)).

Definition receipt_to_result (r : SubmissionReceipt) : result WalletError SubmissionResult :=
  match sr_status r with
  | RsSuccess => Ok (MkSubmitted (sr_tx_hash r) (default 0 (sr_ledger r)) None)
  | RsFailed code => Err (WSubmission (OnChainFailed code))
  | RsAmbiguous => Err (ambiguous "cached ambiguous receipt: transaction status unknown")
  | RsReorged => Err (ambiguous "cached reorged receipt: transaction was rewound")
  | RsPending => Err (WInternal "receipt_to_result called with Pending receipt")
  | RsClearedByOperator => Err (WInternal "unknown ReceiptStatus variant in receipt_to_result")
  end.

Fixpoint poll_store_loop (polls : nat) (envelope_hash : string) : NR File (option SubmissionReceipt) :=
  match polls with
  | O => mret (Ok None)
  | S polls' =>
      _ ← sleep env LOSER_POLL_INTERVAL;
      found ←? store_or_fail "receipt store get failed in store poll" (store_get envelope_hash);
      match found with
      | Some r => if is_terminal (sr_status r) then mret (Ok (Some r)) else poll_store_loop polls' envelope_hash
      | None => poll_store_loop polls' envelope_hash
      end
  end.
Definition poll_store_for_terminal (envelope_hash : string) : NR File (option SubmissionReceipt) :=
  poll_store_loop LOSER_MAX_POLLS envelope_hash.

Definition wait_for_winner (envelope_hash : string) : NR File SubmissionResult :=
  found ←? poll_store_for_terminal envelope_hash;
  mret (match found with
        | Some terminal => receipt_to_result terminal
        | None => Err (ambiguous "loser task timed out waiting for winner to finalise receipt")
        end).

Definition current_unix_secs : NM File Z := fun w => (ne_unix_secs env (nw_tick w), w).

(** The process that began the submission is gone. *)
Definition handle_stale_pending (url : string) (r : SubmissionReceipt) (envelope_hash envelope_xdr : string) (timeout : Z)
    (network_passphrase : string) (max_time recorded_at_ledger : Z) : NM File (Ended SubmissionResult) :=
  if bool_decide (sr_tx_hash r = ZERO_HASH_SENTINEL) || is_empty (sr_tx_hash r) then
    _ ← finalize_quietly envelope_hash RsAmbiguous None;
    mret (Returned (Err (ambiguous "transaction status ambiguous: stale Pending with unknown tx_hash")))
  else
    match hex_to_hash32 (sr_tx_hash r) with
    | None => mret Panicked
    | Some (Err e) => mret (Returned (Err e))
    | Some (Ok hash) =>
        answer ← get_transaction_record env hash;
        match answer with
        | Err e => mret (Returned (Err (transport_failure e)))
        | Ok record =>
            let finalize_or_fail s ledger := store_or_fail "receipt finalize failed"
                                               (store_call (fun e f => finalize e f envelope_hash s ledger)) in
            if bool_decide (tr_status record = "SUCCESS") then
              let ledger := default 0 (tr_ledger record) in
              ended (finalize_or_fail RsSuccess (Some ledger)) (fun _ =>
                mret (Returned (Ok (MkSubmitted (sr_tx_hash r) ledger None))))
            else if bool_decide (tr_status record = "FAILED") then
              let code := map_failed_record record in
              ended (finalize_or_fail (RsFailed code) (tr_ledger record)) (fun _ => mret (Returned (Err (WFailed code))))
            else if bool_decide (tr_status record = "NOT_FOUND") then
              now_unix ← current_unix_secs;
              if (0 <? max_time) && (max_time <=? now_unix) then
                ended (finalize_or_fail RsAmbiguous None) (fun _ =>
                  mret (Returned (Err (ambiguous "transaction status ambiguous: NOT_FOUND after max_time elapsed"))))
              else submit_with_retention_poll url envelope_xdr timeout network_passphrase envelope_hash recorded_at_ledger max_time
            else mret (Returned (Err (WNetwork (RpcUnreachable (UnexpectedStatus "stale-Pending recovery: " (tr_status record))))))
        end
    end.

Definition is_v1 (e : TransactionEnvelope) : bool := match e with EnvTx _ _ => true | _ => false end.

(** Another submission of the envelope is open: its end is waited for a while, and then
    it is taken over. *)
Definition resume_open (receipt : SubmissionReceipt) (url envelope_hash envelope_xdr : string) (timeout : Z)
    (network_passphrase : string) (max_time recorded_at_ledger : Z) : NM File (Ended SubmissionResult) :=
  ended (poll_store_for_terminal envelope_hash) (fun found =>
  match found with
  | Some terminal => mret (Returned (receipt_to_result terminal))
  | None =>
      ended (store_or_fail "receipt store get failed in stale-pending check" (store_get envelope_hash)) (fun stale =>
        handle_stale_pending url (default receipt stale) envelope_hash envelope_xdr timeout network_passphrase max_time
          recorded_at_ledger)
  end).

(** No receipt was found: one process wins the right to send, the others wait for it. *)
Definition begin_fresh (url envelope_hash tx_hash_hex source : string) (sequence : Z) (envelope_xdr : string) (timeout : Z)
    (network_passphrase : string) (max_time recorded_at_ledger : Z) : NM File (Ended SubmissionResult) :=
  ended (store_or_fail "receipt store try_begin failed"
           (store_call (fun e f => try_begin e f envelope_hash tx_hash_hex source sequence max_time recorded_at_ledger)))
    (fun begun =>
  match begun with
  | Winner => submit_with_retention_poll url envelope_xdr timeout network_passphrase envelope_hash recorded_at_ledger max_time
  | BoAlreadyPresent receipt =>
      if is_terminal (sr_status receipt) then mret (Returned (receipt_to_result receipt))
      else ended (wait_for_winner envelope_hash) (fun r => mret (Returned (Ok r)))
  end).

Definition submit_transaction_idempotent (url envelope_xdr : string) (timeout : Z) (network_passphrase : string)
    (recorded_at_ledger : Z) : NM File (Ended SubmissionResult) :=
  ended (pure (
    _ ← map_err WNetwork (refuse_mainnet_write network_passphrase url);
    '(envelope, envelope_hash) ← decode_and_hash_envelope envelope_xdr;
    _ ← (if is_v1 envelope then Ok () else Err (WProtocol "submit_transaction_idempotent: only V1 (Tx) envelopes are supported"));
    tx_hash_hex ← compute_tx_hash_hex envelope network_passphrase;
    '(source, sequence) ← replay_identity envelope;
    Ok (envelope_hash, tx_hash_hex, source, sequence, extract_max_time envelope)))
    (fun '(envelope_hash, tx_hash_hex, source, sequence, max_time) =>
  ended (store_or_fail "receipt store get failed" (store_get envelope_hash)) (fun existing =>
  match existing with
  | Some receipt =>
      if is_terminal (sr_status receipt) then mret (Returned (receipt_to_result receipt))
      else resume_open receipt url envelope_hash envelope_xdr timeout network_passphrase max_time recorded_at_ledger
  | None =>
      begin_fresh url envelope_hash tx_hash_hex source sequence envelope_xdr timeout network_passphrase max_time recorded_at_ledger
  end)).
End net_checks.

(** ** Reconciliation of a success *)

(** A transaction the endpoint no longer knows: beyond its retention, or reorganised
    away when a second look, a ledger later, misses it too. *)
Definition reconcile_missing (envelope_hash : string) (r : SubmissionReceipt) (health : result RpcError Health)
  : NR File ReceiptStatus :=
  match health with
  | Err _ => mret (Ok RsAmbiguous)
  | Ok h =>
      let prior := default 0 (sr_ledger r) in
      if negb (health_plausible h) || (prior <? he_oldest_ledger h) || (he_latest_ledger h <? prior) then mret (Ok RsAmbiguous)
      else
        match sr_reorg_pending_at_ledger r with
        | None =>
            _ ←? store_or_fail "receipt store mark_reorg_pending failed"
                   (store_call (fun e f => mark_reorg_pending e f envelope_hash (he_latest_ledger h)));
            mret (Ok RsSuccess)
        | Some first_miss =>
            if sat_add u32 first_miss 1 <=? he_latest_ledger h then
              _ ←? store_or_fail "receipt store finalize_reorged failed"
                     (store_call (fun e f => finalize_reorged e f envelope_hash));
              mret (Ok RsReorged)
            else mret (Ok RsSuccess)
        end
  end.

Definition reconcile_receipt (envelope_hash : string) : NM File (Ended ReceiptStatus) :=
  ended (store_or_fail "receipt store get failed in reconcile_receipt" (store_get envelope_hash)) (fun found =>
  match found with
  | None => mret (Returned (Ok RsPending))
  | Some r =>
      if negb (bool_decide (sr_status r = RsSuccess)) then mret (Returned (Ok (sr_status r)))
      else
        match hex_to_hash32 (sr_tx_hash r) with
        | None => mret Panicked
        | Some (Err e) => mret (Returned (Err e))
        | Some (Ok hash) =>
            answer ← get_transaction_record env hash;
            match answer with
            | Err e => mret (Returned (Err (transport_failure e)))
            | Ok record =>
                if bool_decide (tr_status record = "SUCCESS") then
                  ended (store_or_fail "receipt store clear_reorg_pending failed"
                           (store_call (fun e f => clear_reorg_pending e f envelope_hash))) (fun _ =>
                    mret (Returned (Ok RsSuccess)))
                else if bool_decide (tr_status record = "NOT_FOUND") then
                  health ← await env (ne_health env);
                  ended (reconcile_missing envelope_hash r health) (fun s => mret (Returned (Ok s)))
                else mret (Returned (Ok (sr_status r)))
            end
        end
  end).
End idempotent.
