(* ===== verification/SubmissionRecord.v ===== *)
(** * The wallet's record of a submission (stellar-agent-network, [submission_record.rs])

    Before an envelope is sent, the wallet writes a receipt, a pending row of the audit
    log and a reservation of the spending window, in this order, and undoes what it wrote
    when a later step refuses.  After the send it settles all of them by the outcome.  The
    stores are those of [Receipts.v], [AuditWriter.v], [WindowStore.v] and [ApprovalStore.v];
    every call on them is answered by an environment, per await and call. *)

From S2P Require Import Prelude RustStr Json Bytes PolicyTypes StateStore Value Attestation Approval ApprovalWire ApprovalStore AuditEntry AuditFiles AuditWriter Receipts Keyring WindowStore WindowReconcile Network Submit.
From stdpp Require Import options.

Local Open Scope string_scope.
Local Open Scope list_scope.
Local Open Scope Z_scope.

(** ** Rows of the audit log *)

Record ValueLegRecord := MkLegRecord {
  vl_action : ActionKind;
  vl_amount : option Z;
  vl_asset : option string;
  vl_destination_redacted : option string;
}.

(** The event kinds of a value action; [W]: the record of a cross-check. *)
Inductive ValueEvent (W : Type) :=
| ValueActionPending (witness : option W) (approval_nonce : option string) (legs : list ValueLegRecord)
    (transaction_hash_redacted source_redacted : string) (sequence : Z)
| ValueActionSubmitted (witness : option W) (approval_nonce : option string) (legs : list ValueLegRecord)
    (opaque_reason : option string) (transaction_hash_redacted : string) (ledger : Z)
| ValueActionFailed (approval_nonce : option string) (legs : list ValueLegRecord)
    (transaction_hash_redacted code : string).
Arguments ValueActionPending {W}. Arguments ValueActionSubmitted {W}. Arguments ValueActionFailed {W}.

(** First and last five characters; texts of an account are ASCII. *)
Definition redact_account (value : string) : string :=
  let cs := chars_of value in
  if 10 <? count cs then String.concat EmptyString (take 5 cs) +:+ "..." +:+ String.concat EmptyString (drop (length cs - 5) cs)
  else "G...?".

(** ** The recorder *)

Record WalletSubmissionRecorder (W : Type) := MkWalletRecorder {
  ws_witness : option W;
  ws_profile : KeyProfile;
  ws_profile_name : string;
  ws_tool : string;
  ws_chain_id : option string;
  ws_policy_decision : AuditDecision;
  ws_legs : list ValueLegRecord;
  ws_window_entries : list WindowEntry;
  ws_nonce_id : option string;
  ws_request_id : string;
  ws_now_ms : Z;
  ws_sequence_floor : bool;
  ws_approval_nonce : option string;
  ws_caller_writes_confirmed_row : bool;
}.
Arguments ws_witness {W}. Arguments ws_profile {W}. Arguments ws_profile_name {W}. Arguments ws_tool {W}.
Arguments ws_chain_id {W}. Arguments ws_policy_decision {W}. Arguments ws_legs {W}. Arguments ws_window_entries {W}.
Arguments ws_nonce_id {W}. Arguments ws_request_id {W}. Arguments ws_now_ms {W}. Arguments ws_sequence_floor {W}.
Arguments ws_approval_nonce {W}. Arguments ws_caller_writes_confirmed_row {W}.

Inductive WindowSettlement := SettleConfirm (created_at : option Z) | SettleRelease.
Inductive AnchorAfterRow := AnchorCurrent | AnchorBehind (refusal : WalletError).
Inductive UnwoundAfter := AfterReceipt | AfterPendingRow | AfterReservation.

Definition BEFORE_ROW_CONTEXT : string := "the audit log is not ready for the pending value-action row".
Definition APPEND_CONTEXT : string := "the pending value-action row could not be appended".
Definition AFTER_ROW_CONTEXT : string := "the pending value-action row is not covered by the audit tip anchor".

(** What the system answers at the [k]-th call of a moment. *)
Record RecorderEnv (AText : Type) := MkRecorderEnv {
  rc_session : nat -> SessionEnv;
  rc_fault : nat -> PersistFault;
  rc_window : nat -> WindowEnv;
  rc_poisoned : nat -> bool;
  rc_timestamp : nat -> string;
  rc_open : Z -> OpenEnv;
  rc_open_others : Z -> option AText -> option AText;
  rc_approval_fault : Fault;
}.
Arguments rc_session {AText}. Arguments rc_fault {AText}. Arguments rc_window {AText}. Arguments rc_poisoned {AText}.
Arguments rc_timestamp {AText}. Arguments rc_open {AText}. Arguments rc_open_others {AText}. Arguments rc_approval_fault {AText}.

(** The receipt file, the window's disk, the audit writer when there is one, the
    approval file and the sequence floors told. *)
Record Stores (Text AText : Type) := MkStores {
  sto_receipts : option Text;
  sto_window : Disk;
  sto_audit : option State;
  sto_approvals : option AText;
  sto_floor : list (string * Z);
}.
Arguments MkStores {Text AText}. Arguments sto_receipts {Text AText}. Arguments sto_window {Text AText}.
Arguments sto_audit {Text AText}. Arguments sto_approvals {Text AText}. Arguments sto_floor {Text AText}.

Definition record_unavailable (c : UnavailableCause) : WalletError := WSubmission (RecordUnavailable c).
Definition receipt_store_refusal (e : ReceiptStoreError) : WalletError := record_unavailable (ReceiptRefuses e).
Definition already_submitted (i : SubmissionIntent) : WalletError := WSubmission (TxAlreadySubmitted (in_tx_hash i)).

Definition reservation_refusal (e : WindowStoreError) (i : SubmissionIntent) : WalletError :=
  match e with
  | WsPolicyDenied reason => WPolicyDenied reason
  | WsDuplicateReservation => already_submitted i
  | other => record_unavailable (WindowRefuses other)
  end.

Section recorder.
Context {Text AText E W : Type} {RJ : ReceiptJson Text} {TF : TomlFile AText} {AJ : AuditJson E}
  `{S2 : !Sha2, BB : !Base64, SK : !Strkey, WJ : !WindowJson, ED : !EscapeDebug}.
(** How a value event is an event of the log; the log's file, threshold and identifiers. *)
Variables (event : ValueEvent W -> E) (stem : string) (clock uuid : nat -> string) (threshold : Z).
Variable rc : WalletSubmissionRecorder W.
Abbreviation St := (Stores Text AText).

(** Work on the stores of one moment. *)
Definition SM (A : Type) : Type := St -> A * St.
Global Instance SM_ret : MRet SM := fun A a s => (a, s).
Global Instance SM_bind : MBind SM := fun A B f m s => let '(a, s') := m s in f a s'.

Definition on_receipts {A} (f : option Text -> Run (Text := Text) A) : SM (result ReceiptStoreError A) := fun s =>
  let '(r, file) := f (sto_receipts s) in
  (r, MkStores file (sto_window s) (sto_audit s) (sto_approvals s) (sto_floor s)).
Definition on_window {A} (m : WM A) : SM (result WindowStoreError A) := fun s =>
  let '(r, d) := m (sto_window s) in
  (r, MkStores (sto_receipts s) d (sto_audit s) (sto_approvals s) (sto_floor s)).
Definition on_audit {A} (m : M A) (a : State) : SM (result WriterError A) := fun s =>
  let '(r, a') := m a in
  (r, MkStores (sto_receipts s) (sto_window s) (Some a') (sto_approvals s) (sto_floor s)).
Definition set_approvals (file : option AText) (s : St) : St :=
  MkStores (sto_receipts s) (sto_window s) (sto_audit s) file (sto_floor s).

Definition row (ts : string) (i : SubmissionIntent) (e : ValueEvent W) : AuditEntry E :=
  MkEntry ts (ws_tool rc) (ws_chain_id rc) [] None false (Some (in_envelope_hash i)) (ws_nonce_id rc)
    (ws_policy_decision rc) None (ws_request_id rc) (OtherEvent (event e)) EmptyString.

Definition new_value_action_pending (ts : string) (i : SubmissionIntent) : AuditEntry E :=
  row ts i (ValueActionPending (ws_witness rc) (ws_approval_nonce rc) (ws_legs rc) (redact_tx_hash (in_tx_hash i))
              (redact_account (in_source i)) (in_sequence i)).
Definition new_value_action_submitted (ts : string) (i : SubmissionIntent) (ledger : Z) : AuditEntry E :=
  row ts i (ValueActionSubmitted (ws_witness rc) (ws_approval_nonce rc) (ws_legs rc) None (redact_tx_hash (in_tx_hash i)) ledger).
Definition new_value_action_failed (ts : string) (i : SubmissionIntent) (code : string) : AuditEntry E :=
  row ts i (ValueActionFailed (ws_approval_nonce rc) (ws_legs rc) (redact_tx_hash (in_tx_hash i)) code).

Definition reservation (i : SubmissionIntent) : WindowReservation :=
  MkReservation (in_envelope_hash i) (in_tx_hash i) (in_source i) (in_sequence i) (in_max_time i) (ws_now_ms rc)
    (in_submission_ledger i) false.

Definition audit_refusal (e : WriterError) (context : string) : WalletError :=
  match e with
  | WTipAnchorMismatch _ _ _ reason => WAuditTipAnchorMismatch (ws_profile_name rc) reason
  | _ => record_unavailable (AuditRefuses context)
  end.

Section moment.
Variable env : RecorderEnv AText.

(** [lock_audit]: the writer, unless a panic left its mutex poisoned. *)
Definition lock_audit (site : nat) (a : State) : result WalletError State :=
  if rc_poisoned env site then Err (record_unavailable AuditPoisoned) else Ok a.

Definition require_anchor_before_row : SM (result WalletError unit) := fun s =>
  match sto_audit s with
  | None => (Ok (), s)
  | Some a =>
      match lock_audit 0 a with
      | Err e => (Err e, s)
      | Ok a => let '(r, s') := on_audit (require_anchor_current stem) a s in
                (map_err (fun e => audit_refusal e BEFORE_ROW_CONTEXT) r, s')
      end
  end.

Definition write_pending_row (i : SubmissionIntent) : SM (result WalletError AnchorAfterRow) := fun s =>
  match sto_audit s with
  | None => (Ok AnchorCurrent, s)
  | Some a =>
      match lock_audit 1 a with
      | Err e => (Err e, s)
      | Ok a =>
          match on_audit (write_entry stem clock uuid threshold (new_value_action_pending (rc_timestamp env 1) i)) a s with
          | (Err e, s') => (Err (audit_refusal e APPEND_CONTEXT), s')
          | (Ok _, s') =>
              let '(r, s'') := on_audit (require_anchor_current stem) (default a (sto_audit s')) s' in
              (Ok (match r with Ok _ => AnchorCurrent | Err e => AnchorBehind (audit_refusal e AFTER_ROW_CONTEXT) end), s'')
          end
      end
  end.

(** A row whose failure is logged only. *)
Definition write_outcome_row (site : nat) (e : AuditEntry E) : SM unit := fun s =>
  match sto_audit s with
  | None => ((), s)
  | Some a => if rc_poisoned env site then ((), s)
              else ((), snd (on_audit (write_entry stem clock uuid threshold e) a s))
  end.

Definition write_failed_row (site : nat) (i : SubmissionIntent) (code : string) : SM unit :=
  write_outcome_row site (new_value_action_failed (rc_timestamp env site) i code).

Definition settle_window (site : nat) (i : SubmissionIntent) (settlement : WindowSettlement) : SM unit :=
  match ws_window_entries rc with
  | [] => mret ()
  | _ =>
      _ ← on_window (match settlement with
                     | SettleConfirm created_at => confirm (rc_window env site) (ws_profile rc) (in_envelope_hash i) created_at
                     | SettleRelease => release (rc_window env site) (ws_profile rc) (in_envelope_hash i)
                     end);
      mret ()
  end.

Definition unwind (i : SubmissionIntent) (reached : UnwoundAfter) (code : string) : SM unit :=
  _ ← (match reached with AfterReservation => settle_window 4 i SettleRelease | _ => mret () end);
  _ ← (match reached with AfterReceipt => mret () | _ => write_failed_row 5 i code end);
  _ ← on_receipts (abandon_pre_submit (rc_session env 6) (rc_fault env 6) (in_envelope_hash i));
  mret ().

(** Refuse, after taking back what was written. *)
Definition refuse (i : SubmissionIntent) (reached : UnwoundAfter) (e : WalletError) : SM (result WalletError unit) :=
  _ ← unwind i reached (wallet_code e); mret (Err e).

Definition begin_receipt (i : SubmissionIntent) : SM (result WalletError unit) :=
  r ← on_receipts (begin_submission_with_approval (rc_session env 1) (rc_fault env 1) (in_envelope_hash i) (in_tx_hash i)
                     (in_source i) (in_sequence i) (in_max_time i) (in_submission_ledger i) (ws_approval_nonce rc));
  mret (match r with
        | Ok Recorded => Ok ()
        | Ok (DuplicateSequence existing) | Ok (DuplicateApproval existing) | Ok (AlreadyPresent existing) =>
            Err (WSubmission (TxAlreadySubmitted (sr_tx_hash existing)))
        | Err e => Err (receipt_store_refusal e)
        end).

(** A record of these bytes in the window: another submission of them. *)
Definition window_precheck (i : SubmissionIntent) : SM (option WalletError) :=
  match ws_window_entries rc with
  | [] => mret None
  | _ =>
      r ← on_window (holds_reservation (rc_window env 2) (ws_profile rc) (in_envelope_hash i));
      mret (match r with
            | Ok false => None
            | Ok true => Some (already_submitted i)
            | Err e => Some (reservation_refusal e i)
            end)
  end.

Definition mark_or_refuse (i : SubmissionIntent) : SM (result WalletError unit) :=
  r ← on_receipts (mark_submitted (rc_session env 7) (rc_fault env 7) (in_envelope_hash i));
  match r with
  | Ok _ => mret (Ok ())
  | Err e => refuse i AfterReservation (receipt_store_refusal e)
  end.

(** The reservation, when the policy keeps windows, and the anchor's verdict after it. *)
Definition reserve (i : SubmissionIntent) (anchor : AnchorAfterRow) : SM (result WalletError unit) :=
  match ws_window_entries rc with
  | [] => match anchor with
          | AnchorBehind refusal => refuse i AfterPendingRow refusal
          | AnchorCurrent => mark_or_refuse i
          end
  | _ =>
      r ← on_window (record_pending (rc_window env 3) (ws_profile rc) (ws_window_entries rc) (reservation i));
      match r with
      | Err e => refuse i (match e with WsDuplicateReservation => AfterReceipt | _ => AfterPendingRow end)
                   (reservation_refusal e i)
      | Ok _ => match anchor with
                | AnchorBehind refusal => refuse i AfterReservation refusal
                | AnchorCurrent => mark_or_refuse i
                end
      end
  end.

Definition wallet_pre_send (i : SubmissionIntent) : SM (result WalletError unit) :=
  ready ← require_anchor_before_row;
  match ready with
  | Err e => mret (Err e)
  | Ok _ =>
      begun ← begin_receipt i;
      match begun with
      | Err e => mret (Err e)
      | Ok _ =>
          refusal ← window_precheck i;
          match refusal with
          | Some e => refuse i AfterReceipt e
          | None =>
              anchor ← write_pending_row i;
              match anchor with
              | Err e => refuse i AfterReceipt e
              | Ok anchor => reserve i anchor
              end
          end
      end
  end.

(** ** After the send *)

(** The outcome an approval's tombstone names. *)
Definition consumed_outcome (s : ReceiptStatus) : ConsumedOutcome :=
  if is_definitive_outcome s then Approval.Confirmed else UnknownOutcome.

(** An approval store that is open: the tombstone, unless it is there. *)
Definition consume_or_check (store : Store AText) (nonce tx_hash : string) (status : ReceiptStatus)
  : result WalletError unit * option AText :=
  let spend :=
    match ApprovalStore.consume (rc_approval_fault env) nonce tx_hash (consumed_outcome status) store with
    | (Ok _, store') => (Ok (), disk store')
    | (Err e, store') => (Err (record_unavailable (ApprovalConsumptionFailed e)), disk store')
    end in
  match ApprovalStore.get store nonce with
  | Some entry => match kind entry with
                  | Consumed _ spent_on _ =>
                      if bool_decide (spent_on = tx_hash) then (Ok (), disk store)
                      else (Err (record_unavailable ApprovalNamesAnotherTransaction), disk store)
                  | _ => spend
                  end
  | None => spend
  end.

Definition open_approvals (file : option AText) : result ApprovalError (Store AText) :=
  match open_with_retry (Z.to_nat RETRY_DEFAULT_ATTEMPTS) RETRY_DEFAULT_ATTEMPTS (rc_open env)
          (fun attempt => rc_open_others env attempt file) with
  | Some (r, _) => r
  | None => Err WriterLocked
  end.

Definition repair_approval_consumption (envelope_hash : string) : SM (result WalletError unit) := fun s =>
  match get_receipt (rc_session env 10) envelope_hash (sto_receipts s) with
  | Err e => (Err (receipt_store_refusal e), s)
  | Ok None => (Ok (), s)
  | Ok (Some r) =>
      match sr_approval_nonce r with
      | None => (Ok (), s)
      | Some nonce =>
          if negb (sr_submitted r) || sr_approval_consumed r then (Ok (), s)
          else
            match open_approvals (sto_approvals s) with
            | Err e => (Err (record_unavailable (ApprovalStoreUnavailable e)), s)
            | Ok store =>
                let '(spent, file) := consume_or_check store nonce (sr_tx_hash r) (sr_status r) in
                let s' := set_approvals file s in
                match spent with
                | Err e => (Err e, s')
                | Ok _ =>
                    let '(marked, s'') := on_receipts (mark_approval_consumed (rc_session env 11) (rc_fault env 11) envelope_hash) s' in
                    (map_err receipt_store_refusal marked, s'')
                end
            end
      end
  end.

Definition tombstone_approval (i : SubmissionIntent) : SM unit :=
  match ws_approval_nonce rc with
  | None => mret ()
  | Some _ => _ ← repair_approval_consumption (in_envelope_hash i); mret ()
  end.

Definition finalize_outcome (i : SubmissionIntent) (s : ReceiptStatus) (ledger : option Z) : SM unit :=
  _ ← on_receipts (finalize (rc_session env 8) (rc_fault env 8) (in_envelope_hash i) s ledger); mret ().

(** What is settled before the sequence floor is told. *)
Definition settle_outcome (i : SubmissionIntent) (o : SubmissionOutcome) : SM unit :=
  match o with
  | OutSuccess ledger created_at =>
      _ ← finalize_outcome i RsSuccess (Some ledger);
      _ ← (if ws_caller_writes_confirmed_row rc then mret ()
           else write_outcome_row 9 (new_value_action_submitted (rc_timestamp env 9) i ledger));
      settle_window 9 i (SettleConfirm created_at)
  | OutOnChainFailed code =>
      _ ← finalize_outcome i (RsFailed code) None;
      _ ← write_failed_row 9 i code;
      settle_window 9 i SettleRelease
  | OutRejected code =>
      _ ← on_receipts (finalize_send_refusal (rc_session env 8) (rc_fault env 8) (in_envelope_hash i) code);
      _ ← write_failed_row 9 i code;
      settle_window 9 i SettleRelease
  | OutTimeout | OutTransportAfterSend => mret ()
  end.

Definition tells_floor (o : SubmissionOutcome) : bool := match o with OutRejected _ => false | _ => true end.

Definition record_floor (i : SubmissionIntent) : SM unit := fun s =>
  ((), if ws_sequence_floor rc
       then MkStores (sto_receipts s) (sto_window s) (sto_audit s) (sto_approvals s) ((in_source i, in_sequence i) :: sto_floor s)
       else s).

End moment.

(** ** The recorder of a submission *)

Definition lift_sm {A} (envs : nat -> RecorderEnv AText) (f : RecorderEnv AText -> SM A) : NM St A := fun w =>
  on_store (f (envs (nw_tick w))) w.

(** The floor's hook is awaited; what follows may meet other stores. *)
Definition wallet_outcome (net : NetEnv St) (envs : nat -> RecorderEnv AText) (i : SubmissionIntent) (o : SubmissionOutcome)
  : NM St unit :=
  _ ← lift_sm envs (fun env => settle_outcome env i o);
  if tells_floor o then
    _ ← lift_sm envs (fun _ => record_floor i);
    _ ← (if ws_sequence_floor rc then await net (fun _ => ()) else mret ());
    lift_sm envs (fun env => tombstone_approval env i)
  else mret ().

Definition wallet_recorder (net : NetEnv St) (envs : nat -> RecorderEnv AText) : SubmissionRecorder St :=
  MkRecorder St (fun i => lift_sm envs (fun env => wallet_pre_send env i)) (wallet_outcome net envs).

End recorder.
