(* ===== verification/SubmitProps.v ===== *)
(** * Properties of submission

    Whatever the endpoint answers, however long it takes, and whatever other processes
    do to the stores meanwhile: an envelope is sent only after the recorder accepted it,
    at most five times, and every submission comes to an end. *)

From S2P Require Import Prelude RustStr Json Bytes PolicyTypes Receipts Keyring WindowStore WindowReconcile Network Submit.
From stdpp Require Import options.

Local Open Scope string_scope.
Local Open Scope list_scope.
Local Open Scope Z_scope.
Set Default Proof Using "Type*".

(** ** Runs and their events *)

Definition is_sent {S} (ev : NetEvent S) : bool := match ev with EvSent _ _ => true | EvTransaction _ _ => false end.

Section runs.
Context {S : Type}.
Implicit Types (w : NetWorld S) (new : list (NetEvent S)).

(** The clock does not go back, and what is added to the trace holds [P]. *)
Definition extends (P : NetEvent S -> Prop) w w' : Prop :=
  nw_now w <= nw_now w' /\ exists new, nw_trace w' = new ++ nw_trace w /\ Forall P new.

Definition unsent_event (ev : NetEvent S) : Prop := is_sent ev = false.

(** A call that sends nothing. *)
Definition silent {A} (m : NM S A) : Prop := forall w a w', m w = (a, w') -> extends unsent_event w w'.

Lemma extends_refl P w : extends P w w.
Proof. split; [lia|]. exists []. done. Qed.
Lemma extends_trans P w w1 w' : extends P w w1 -> extends P w1 w' -> extends P w w'.
Proof.
  intros [H1 (n1 & E1 & F1)] [H2 (n2 & E2 & F2)]. split; [lia|]. exists (n2 ++ n1).
  split; [by rewrite E2, E1, app_assoc|]. by apply Forall_app.
Qed.
Lemma extends_impl (P Q : NetEvent S -> Prop) w w' : (forall ev, P ev -> Q ev) -> extends P w w' -> extends Q w w'.
Proof. intros H [H1 (n & E & F)]. split; [done|]. exists n. split; [done|]. by eapply Forall_impl. Qed.

Lemma nm_bind_inv {A B} (m : NM S A) (f : A -> NM S B) w b w' :
  (m ≫= f) w = (b, w') -> exists a w1, m w = (a, w1) /\ f a w1 = (b, w').
Proof. unfold mbind, NM_bind. destruct (m w) as [a w1]. eauto. Qed.
Lemma bind_ok_inv {A B} (m : NR S A) (f : A -> NR S B) w b w' :
  bind_ok f m w = (b, w') ->
  (exists e, m w = (Err e, w') /\ b = Err e) \/ exists a w1, m w = (Ok a, w1) /\ f a w1 = (b, w').
Proof. unfold bind_ok. destruct (m w) as [[a|e] w1]; intros H; [right; eauto|]. injection H as <- <-. left. eauto. Qed.
Lemma ended_inv {A B} (m : NR S A) (f : A -> NM S (Ended B)) w b w' :
  ended m f w = (b, w') ->
  (exists e, m w = (Err e, w') /\ b = Returned (Err e)) \/ exists a w1, m w = (Ok a, w1) /\ f a w1 = (b, w').
Proof. unfold ended. destruct (m w) as [[a|e] w1]; intros H; [right; eauto|]. injection H as <- <-. left. eauto. Qed.

Lemma silent_ret {A} (a : A) : silent (mret a : NM S A).
Proof. intros w x w' [= <- <-]. apply extends_refl. Qed.
Lemma silent_pure {A} (r : result WalletError A) : silent (pure r : NR S A).
Proof. intros w x w' [= <- <-]. apply extends_refl. Qed.
Lemma silent_bind {A B} (m : NM S A) (f : A -> NM S B) : silent m -> (forall a, silent (f a)) -> silent (m ≫= f).
Proof. intros Hm Hf w b w' (a & w1 & H1 & H2)%nm_bind_inv. eapply extends_trans; [by eapply Hm|by eapply Hf]. Qed.
Lemma silent_bind_ok {A B} (m : NR S A) (f : A -> NR S B) : silent m -> (forall a, silent (f a)) -> silent (bind_ok f m).
Proof.
  intros Hm Hf w b w' [(e & H1 & ->)|(a & w1 & H1 & H2)]%bind_ok_inv; [by eapply Hm|].
  eapply extends_trans; [by eapply Hm|by eapply Hf].
Qed.
Lemma silent_ended {A B} (m : NR S A) (f : A -> NM S (Ended B)) : silent m -> (forall a, silent (f a)) -> silent (ended m f).
Proof.
  intros Hm Hf w b w' [(e & H1 & ->)|(a & w1 & H1 & H2)]%ended_inv; [by eapply Hm|].
  eapply extends_trans; [by eapply Hm|by eapply Hf].
Qed.
Lemma silent_now : silent (now : NM S Z).
Proof. intros w x w' [= <- <-]. apply extends_refl. Qed.
Lemma silent_on_store {A} (f : S -> A * S) : silent (on_store f).
Proof. intros w x w'. unfold on_store. destruct (f _). intros [= <- <-]. split; [cbn; lia|]. exists []. done. Qed.
Lemma silent_emit (e : S -> NetEvent S) : (forall s, is_sent (e s) = false) -> silent (emit e).
Proof. intros H w x w' [= <- <-]. split; [cbn; lia|]. exists [e (nw_store w)]. split; [done|]. constructor; [apply H|done]. Qed.
Lemma silent_tick : silent ((fun w => (nw_tick w, w)) : NM S nat).
Proof. intros w x w' [= <- <-]. apply extends_refl. Qed.

Variable env : NetEnv S.

(** One await of the others. *)
Definition moved (s s' : S) : Prop := exists k, s' = ne_others env k s.

Lemma pass_extends P t w : nw_now w <= t -> extends P w (pass_to env t w).
Proof. split; [done|]. exists []. done. Qed.
Lemma silent_await {A} (f : nat -> A) : silent (await env f).
Proof. intros w x w' [= <- <-]. apply pass_extends. lia. Qed.
Lemma silent_timeout_at {A} d (f : nat -> A) : silent (timeout_at env d f).
Proof. intros w x w'. unfold timeout_at. destruct (_ || _); intros [= <- <-]; apply pass_extends; lia. Qed.
Lemma silent_sleep_until t : silent (sleep_until env t).
Proof. intros w x w' [= <- <-]. apply pass_extends. lia. Qed.
Lemma silent_sleep t : silent (sleep env t).
Proof. intros w x w'. apply silent_sleep_until. Qed.

End runs.

Create HintDb silent.
#[export] Hint Resolve silent_now silent_on_store silent_await silent_timeout_at silent_sleep_until silent_sleep silent_tick : silent.

(** Sends nothing, by its parts. *)
Ltac silently :=
  repeat match goal with
  | |- forall _, _ => intro
  | |- silent (mret _) => apply silent_ret
  | |- silent (pure _) => apply silent_pure
  | |- silent (mbind _ _) => apply silent_bind
  | |- silent (bind_ok _ _) => apply silent_bind_ok
  | |- silent (ended _ _) => apply silent_ended
  | |- silent (match ?x with _ => _ end) => destruct x
  | |- silent (emit _) => apply silent_emit; intros; reflexivity
  | |- silent _ => first [solve [eauto with silent nocore] | progress cbv zeta]
  end.

Section calls.
Context {S : Type} (env : NetEnv S).

Lemma silent_retry {A} policy deadline p delay (op : NM S (option (result RpcError A))) left : forall attempt,
  silent op -> silent (retry_with_delay env policy deadline p delay op left attempt).
Proof.
  induction left as [|left IH]; intros attempt Ho; cbn [retry_with_delay]; silently; try apply IH; done.
Qed.

Lemma silent_retry_backoff {A} policy deadline p (op : NM S (option (result RpcError A))) :
  silent op -> silent (retry_with_backoff env policy deadline p op).
Proof. apply silent_retry. Qed.

Lemma silent_identity passphrase deadline : silent (endpoint_identity env passphrase deadline).
Proof. unfold endpoint_identity. apply silent_bind; [|silently]. apply silent_retry_backoff. silently. Qed.

Context `{S2 : !Sha2, SK : !Strkey, X : !Xdr, V : !Ed25519Verify}.

Lemma silent_binding e passphrase deadline : silent (verify_signature_network_binding env e passphrase deadline).
Proof.
  unfold verify_signature_network_binding, fetch_account_signers. silently. apply silent_retry_backoff. silently.
Qed.

Lemma silent_get_transaction_within deadline hash : silent (get_transaction_within env deadline hash).
Proof. unfold get_transaction_within. silently. Qed.
Lemma silent_get_transaction hash : silent (get_transaction_record env hash).
Proof. unfold get_transaction_record. silently. Qed.
Lemma silent_sleep_before d t : silent (sleep_before_next_poll env d t).
Proof. unfold sleep_before_next_poll. silently. Qed.

(** A recorder does not send. *)
Definition recorder_silent (recorder : option (SubmissionRecorder S)) : Prop :=
  match recorder with Some r => (forall i, silent (pre_send r i)) /\ (forall i o, silent (outcome r i o)) | None => True end.

Lemma silent_tell recorder i o : recorder_silent recorder -> silent (tell recorder i o).
Proof. destruct recorder; [intros [_ H]; apply H|intros _; apply silent_ret]. Qed.

Lemma silent_poll fuel hash deadline secs i recorder kind :
  recorder_silent recorder -> silent (poll_for_confirmation env fuel hash deadline secs i recorder kind).
Proof.
  intros Hr. pose proof (fun i o => silent_tell recorder i o Hr) as Ht.
  assert (Ho : forall r, recorder = Some r -> forall i o, silent (outcome r i o)) by (intros r ->; apply Hr).
  induction fuel as [|fuel IH]; [apply silent_ret|]. cbn [poll_for_confirmation].
  unfold record_timeout, settle_poll, settle_poll_error.
  silently; first [apply Ht | apply silent_get_transaction_within | apply silent_sleep_before | by eapply Ho].
Qed.

(** ** Sends *)

Lemma moved_pass t w : rtc (moved env) (nw_store w) (nw_store (pass_to env t w)).
Proof. apply rtc_once. by eexists. Qed.

(** An attempt is one send and what the others do before its answer. *)
Lemma send_inv deadline e w r w' :
  send_transaction env deadline e w = (r, w') ->
  nw_now w <= nw_now w' /\ nw_trace w' = EvSent e (nw_store w) :: nw_trace w /\ rtc (moved env) (nw_store w) (nw_store w').
Proof.
  unfold send_transaction. intros (u & w1 & H1 & H2)%nm_bind_inv. injection H1 as _ <-.
  unfold timeout_at in H2. cbn in H2. destruct (_ || _); injection H2 as _ <-; cbn; (split; [lia|]; split; [done|]);
    apply rtc_once; by eexists.
Qed.

(** The sends of a retried send: each of the same envelope, at a store the others made of
    the first, the first at the store itself. *)
Definition resends (e : TransactionEnvelope) (n : nat) (w w' : NetWorld S) : Prop :=
  nw_now w <= nw_now w' /\ rtc (moved env) (nw_store w) (nw_store w') /\
  exists new, nw_trace w' = new ++ EvSent e (nw_store w) :: nw_trace w /\ (length new <= n)%nat /\
    Forall (fun ev => exists s, ev = EvSent e s /\ rtc (moved env) (nw_store w) s) new.

Lemma retry_sends policy deadline p delay e left : forall attempt w r w',
  retry_with_delay env policy deadline p delay (send_transaction env deadline e) left attempt w = (r, w') ->
  resends e left w w'.
Proof.
  assert (Hone : forall n w w1, nw_now w <= nw_now w1 -> nw_trace w1 = EvSent e (nw_store w) :: nw_trace w ->
    rtc (moved env) (nw_store w) (nw_store w1) -> resends e n w w1).
  { intros n w w1 H1 H2 H3. split; [done|]. split; [done|]. exists []. split; [done|]. split; [cbn; lia|done]. }
  assert (Hsleep : forall n w w1 w2 d u, resends e n w w1 -> sleep env d w1 = (u, w2) -> resends e n w w2).
  { intros n w w1 w2 d u (H1 & H2 & new & H3) Hs. injection Hs as _ <-. split; [cbn; lia|].
    split; [etransitivity; [exact H2|apply moved_pass]|]. by exists new. }
  induction left as [|left IH]; intros attempt w r w' H; cbn [retry_with_delay] in H;
    apply nm_bind_inv in H as (a & w1 & Hs & H); apply send_inv in Hs as (Hn & Ht & Hm);
    (destruct a as [[a|err]|]; [by injection H as _ <-; apply Hone| |by injection H as _ <-; apply Hone]);
    (destruct (negb _); [by injection H as _ <-; apply Hone|]); apply nm_bind_inv in H as (t & w2 & E & H);
    injection E as _ <-; (destruct (_ || _); [by injection H as _ <-; apply Hone|]);
    apply nm_bind_inv in H as (k & w2 & E & H); injection E as _ <-;
    apply nm_bind_inv in H as (u & w2 & Es & H); apply nm_bind_inv in H as (t' & w3 & E & H); injection E as _ <-;
    (destruct (_ <=? _); [injection H as _ <-; eapply Hsleep; [|exact Es]; by apply Hone|]).
  - injection H as _ <-. eapply Hsleep; [|exact Es]. by apply Hone.
  - destruct (IH _ _ _ _ H) as (Hn' & Hm' & new & Ht' & Hl & Hf). injection Es as _ <-. cbn in *.
    assert (Hm2 : rtc (moved env) (nw_store w) (ne_others env (nw_tick w1) (nw_store w1)))
      by (etransitivity; [exact Hm|apply rtc_once; by eexists]).
    split; [lia|]. split; [by etransitivity|].
    eexists (new ++ [_]). rewrite Ht', Ht. split; [by rewrite <- app_assoc|]. rewrite length_app. split; [cbn; lia|].
    apply Forall_app. split; [|constructor; [|done]; by eexists].
    eapply Forall_impl; [exact Hf|]. intros ev (s & -> & Hr). exists s. split; [done|]. by etransitivity.
Qed.

(** ** The end of a poll *)

Lemma timeout_at_now {A} deadline (f : nat -> A) w r w' :
  timeout_at env deadline f w = (r, w') -> nw_now w <= nw_now w'.
Proof. intros H. by apply silent_timeout_at in H as [? _]. Qed.

Lemma sleep_before_advances interval deadline w u w' :
  sleep_before_next_poll env interval deadline w = (u, w') -> Z.min deadline (nw_now w + interval) <= nw_now w'.
Proof. intros (t & w1 & E & H)%nm_bind_inv. injection E as <- <-. injection H as _ <-. cbn. lia. Qed.

(** A poll whose parts take no time back, and that sleeps between its rounds. *)
Definition timely {A} (m : NM S A) : Prop := forall w a w', m w = (a, w') -> nw_now w <= nw_now w'.

Lemma silent_timely {A} (m : NM S A) : silent m -> timely m.
Proof. intros H w a w' E. by apply H in E as [? _]. Qed.

Lemma poll_ends recorder hash deadline secs i kind fuel : forall w r w',
  recorder_silent recorder -> deadline - nw_now w <= Z.of_nat fuel * POLL_INTERVAL ->
  poll_for_confirmation env (Datatypes.S fuel) hash deadline secs i recorder kind w = (r, w') -> exists x, r = Returned x.
Proof.
  induction fuel as [|fuel IH]; intros w r w' Hr Hd H; cbn [poll_for_confirmation] in H;
    apply nm_bind_inv in H as (t & w1 & E & H); injection E as <- <-;
    destruct (Z.leb_spec deadline (nw_now w)) as [Hle|Hgt].
  - apply nm_bind_inv in H as (e & w2 & _ & H). injection H as <- _. eauto.
  - cbn in Hd. lia.
  - apply nm_bind_inv in H as (e & w2 & _ & H). injection H as <- _. eauto.
  - apply nm_bind_inv in H as (a & w2 & Ea & H).
    assert (Hn : nw_now w <= nw_now w2) by (by apply silent_get_transaction_within in Ea as [? _]).
    assert (Hagain : forall w0 r w', nw_now w2 <= nw_now w0 ->
      (_ ← sleep_before_next_poll env POLL_INTERVAL deadline;
       poll_for_confirmation env (Datatypes.S fuel) hash deadline secs i recorder kind) w0 = (r, w') -> exists x, r = Returned x).
    { intros w0 r0 w0' Hw (u & w4 & Es & H4)%nm_bind_inv. apply sleep_before_advances in Es.
      eapply IH; [done| |exact H4]. unfold POLL_INTERVAL, Network.secs in *. lia. }
    destruct a as [a|]; [|apply nm_bind_inv in H as (e & w3 & _ & H); injection H as <- _; eauto].
    apply nm_bind_inv in H as (t & w3 & E & H). injection E as <- <-.
    destruct (deadline <=? nw_now w2); [apply nm_bind_inv in H as (e & w3 & _ & H); injection H as <- _; eauto|].
    destruct a as [record|err].
    + apply nm_bind_inv in H as (x & w3 & Ex & H). destruct x as [x|]; [injection H as <- _; eauto|].
      eapply Hagain; [|exact H].
      assert (Hs : silent (settle_poll recorder i kind secs record)).
      { pose proof (fun i o => silent_tell recorder i o Hr).
        assert (Ho : forall r, recorder = Some r -> forall i o, silent (outcome r i o)) by (intros ? ->; apply Hr).
        unfold settle_poll. silently; by eapply Ho. }
      by apply Hs in Ex as [? _].
    + destruct (is_retryable_poll_error err); [by eapply Hagain; [|exact H]|].
      apply nm_bind_inv in H as (e & w3 & _ & H). injection H as <- _. eauto.
Qed.

Lemma poll_fuel_enough timeout :
  0 <= timeout -> exists n, poll_fuel timeout = Datatypes.S n /\ timeout <= Z.of_nat n * POLL_INTERVAL.
Proof.
  intros Ht. unfold poll_fuel. assert (Hi : POLL_INTERVAL = 2000000000) by reflexivity. rewrite Hi.
  set (q := (timeout + 2000000000 - 1) / 2000000000).
  assert (0 <= q) by (apply Z.div_pos; lia).
  pose proof (Z.div_mod (timeout + 2000000000 - 1) 2000000000 ltac:(lia)).
  pose proof (Z.mod_pos_bound (timeout + 2000000000 - 1) 2000000000 ltac:(lia)). fold q in H0.
  exists (Z.to_nat q). split; lia.
Qed.

(** ** Signed for this network *)

(** A signature of a key with the hint, over the transaction on the network. *)
Definition signed_over (passphrase : string) (tagged : TaggedTransaction) (s : DecoratedSignature) : Prop :=
  exists h key, payload_hash (network_id passphrase) tagged = Ok h /\ take 4 (drop 28 key) = ds_hint s /\
    dalek_verify_strict key h (ds_signature s) = true.

Definition bound_to (passphrase : string) (e : TransactionEnvelope) : Prop :=
  exists groups, signature_groups e = Ok groups /\
    Forall (fun g => sg_signatures g <> [] /\ Forall (signed_over passphrase (sg_tagged g)) (sg_signatures g)) groups.

Lemma verify_one_signature_Ok s keys h h' :
  verify_one_signature s keys h h' = Ok () ->
  exists key, take 4 (drop 28 key) = ds_hint s /\ dalek_verify_strict key h (ds_signature s) = true.
Proof.
  unfold verify_one_signature. case_bool_decide; [done|]. destruct (negb _); [done|].
  destruct (existsb _ _) eqn:E; [|intros Hx; cases_in Hx]. intros _.
  apply existsb_exists in E as (key & Hk & Hv). apply list_elem_of_In, list_elem_of_filter in Hk as [Hk _]. eauto.
Qed.

Lemma verify_group_Ok passphrase signers g :
  verify_group passphrase signers g = Ok () -> Forall (signed_over passphrase (sg_tagged g)) (sg_signatures g).
Proof.
  unfold verify_group. intros H. res_inv. apply mapM_res_Ok in H2. apply Forall_forall. intros s Hs.
  apply list_elem_of_lookup in Hs as [k Hk]. destruct (Forall2_lookup_l _ _ _ _ _ H2 Hk) as ([] & _ & Hv).
  apply verify_one_signature_Ok in Hv as (key & H3 & H4). by exists x, key.
Qed.

Lemma binding_Ok e passphrase deadline w l w' :
  verify_signature_network_binding env e passphrase deadline w = (Ok l, w') -> bound_to passphrase e.
Proof.
  unfold verify_signature_network_binding. intros [(? & _ & ?)|(groups & w1 & H1 & H)]%bind_ok_inv; [done|].
  injection H1 as Hg <-. destruct (existsb _ _) eqn:Ee; [done|].
  apply bind_ok_inv in H as [(? & _ & ?)|([signers ledger] & w2 & _ & H)]; [done|]. injection H as H _. res_inv.
  exists groups. split; [done|]. apply mapM_res_Ok in H0. apply Forall_forall. intros g Hin. split.
  - intros E. assert (existsb (fun g => bool_decide (sg_signatures g = [])) groups = true) by
      (apply existsb_exists; exists g; split; [by apply list_elem_of_In|by apply bool_decide_true]). congruence.
  - apply list_elem_of_lookup in Hin as [k Hk]. destruct (Forall2_lookup_l _ _ _ _ _ H0 Hk) as ([] & _ & Hv).
    by eapply verify_group_Ok.
Qed.

(** The endpoint said that it serves the network, and it is not the main one. *)
Lemma identity_Ok passphrase deadline w i w' :
  endpoint_identity env passphrase deadline w = (Ok i, w') -> passphrase <> MAINNET_PASSPHRASE.
Proof.
  unfold endpoint_identity. intros (r & w1 & _ & H)%nm_bind_inv. injection H as H _. res_inv.
  destruct x as [p v]. case_bool_decide; [done|]. case_bool_decide; [|done]. subst. done.
Qed.

(** ** A submission *)

(** What a submission adds to the trace. *)
Definition sent_stores (new : list (NetEvent S)) : list S :=
  omap (fun ev => match ev with EvSent _ s => Some s | EvTransaction _ _ => None end) new.

Lemma silent_no_stores new : Forall unsent_event new -> sent_stores new = [].
Proof using Type. induction 1 as [|[e s|h a] new Hev _ IH]; [done|discriminate Hev|done]. Qed.

Lemma sent_stores_app new1 new2 : sent_stores (new1 ++ new2) = sent_stores new1 ++ sent_stores new2.
Proof using Type. apply omap_app. Qed.

Lemma sent_stores_length new : (length (sent_stores new) <= length new)%nat.
Proof using Type.
  induction new as [|[e s|h a] new IH]; [done| |].
  - change (Datatypes.S (length (sent_stores new)) <= Datatypes.S (length new))%nat. lia.
  - change (length (sent_stores new) <= Datatypes.S (length new))%nat. lia.
Qed.

(** The sends of one run: none, or of one envelope that passed the checks [P], each at
    a store that the others made of the one [P] holds of. *)
Definition sends_of (P : TransactionEnvelope -> NetWorld S -> Prop) (w w' : NetWorld S) : Prop :=
  nw_now w <= nw_now w' /\ exists new, nw_trace w' = new ++ nw_trace w /\ (length (sent_stores new) <= 5)%nat /\
    (sent_stores new = [] \/ exists e w0, P e w0 /\ last (sent_stores new) = Some (nw_store w0) /\
       Forall (fun ev => forall e' s, ev = EvSent e' s -> e' = e /\ rtc (moved env) (nw_store w0) s) new).

Lemma silent_sends P w w' : extends unsent_event w w' -> sends_of P w w'.
Proof using Type.
  intros [H1 (new & H2 & H3)]. split; [done|]. exists new. rewrite (silent_no_stores _ H3). split; [done|].
  split; [cbn; lia|by left].
Qed.

Lemma sends_before P w w1 w' : extends unsent_event w w1 -> sends_of P w1 w' -> sends_of P w w'.
Proof using Type.
  intros [H1 (n1 & E1 & F1)] [H2 (n2 & E2 & L & H)]. split; [lia|]. exists (n2 ++ n1). split; [by rewrite E2, E1, app_assoc|].
  rewrite sent_stores_app, (silent_no_stores n1 F1), app_nil_r. split; [done|].
  destruct H as [H|(e & w0 & Hp & Hl & Hf)]; [by left|]. right. exists e, w0. split; [done|]. split; [done|].
  apply Forall_app. split; [done|]. eapply Forall_impl; [exact F1|]. intros ev Hev e' s ->. done.
Qed.

Lemma sends_after P w w1 w' : sends_of P w w1 -> extends unsent_event w1 w' -> sends_of P w w'.
Proof using Type.
  intros [H2 (n2 & E2 & L & H)] [H1 (n1 & E1 & F1)]. split; [lia|]. exists (n1 ++ n2). split; [by rewrite E1, E2, app_assoc|].
  rewrite sent_stores_app, (silent_no_stores n1 F1), app_nil_l. split; [done|].
  destruct H as [H|(e & w0 & Hp & Hl & Hf)]; [by left|]. right. exists e, w0. split; [done|]. split; [done|].
  apply Forall_app. split; [|done]. eapply Forall_impl; [exact F1|]. intros ev Hev e' s ->. done.
Qed.

Lemma backoff_sends (P : TransactionEnvelope -> NetWorld S -> Prop) deadline p e w r w' :
  retry_with_backoff env RetryPolicy_default deadline p (send_transaction env deadline e) w = (r, w') ->
  P e w -> sends_of P w w'.
Proof.
  intros H Hp. apply retry_sends in H as (Hn & Hm & new & Ht & Hl & Hf). split; [done|].
  exists (new ++ [EvSent e (nw_store w)]). split; [by rewrite <- app_assoc|]. rewrite sent_stores_app. split.
  - rewrite length_app. pose proof (sent_stores_length new). cbn in *. lia.
  - right. exists e, w. split; [done|]. split; [apply last_snoc|]. apply Forall_app. split.
    + eapply Forall_impl; [exact Hf|]. intros ev (s & -> & Hs) e' s' [= <- <-]. done.
    + constructor; [|done]. intros e' s' [= <- <-]. done.
Qed.

(** What held before the first send. *)
Record cleared (url envelope_xdr passphrase : string) (recorder : option (SubmissionRecorder S)) (e : TransactionEnvelope)
    (w0 : NetWorld S) : Prop := {
  cl_envelope : envelope_from_xdr_base64 envelope_xdr = Ok e;
  cl_network : refuse_mainnet_write passphrase url = Ok () /\ passphrase <> MAINNET_PASSPHRASE;
  cl_bound : bound_to passphrase e;
  cl_recorded : forall r, recorder = Some r -> exists i hash ledger w1,
    prepare_intent e envelope_xdr passphrase ledger = Ok (i, hash) /\ pre_send r i w1 = (Ok (), w0);
}.

Lemma send_failure_silent recorder i e t : recorder_silent recorder -> silent (handle_send_failure recorder i e t).
Proof.
  intros Hr. unfold handle_send_failure. destruct recorder as [r|]; [|apply silent_ret]. destruct Hr as [_ Ho]. silently; apply Ho.
Qed.

Lemma checked_sends (P : TransactionEnvelope -> NetWorld S -> Prop) e timeout deadline i hash kind recorder w r w' :
  recorder_silent recorder -> 0 <= timeout -> deadline <= nw_now w + timeout -> P e w ->
  submit_checked env e timeout deadline i hash kind recorder w = (r, w') ->
  (exists x, r = Returned x) /\ sends_of P w w'.
Proof.
  intros Hr Ht Hd Hp. unfold submit_checked. intros (sent & w1 & Hs & H)%nm_bind_inv.
  pose proof (backoff_sends P _ _ _ _ _ _ Hs Hp) as Hsends. destruct sent as [server|err].
  - destruct (negb _).
    + apply nm_bind_inv in H as (u & w2 & Hu & H). injection H as <- <-. split; [eauto|].
      eapply sends_after; [done|]. by eapply silent_tell.
    + split; [|eapply sends_after; [done|]; by eapply silent_poll].
      destruct (poll_fuel_enough timeout Ht) as (n & Hn & Hle). rewrite Hn in H.
      eapply poll_ends; [done| |exact H]. destruct Hsends as [? _]. lia.
  - apply nm_bind_inv in H as (u & w2 & Hu & H). injection H as <- <-. split; [eauto|].
    eapply sends_after; [done|]. by eapply send_failure_silent.
Qed.

Lemma submission_runs url xdr timeout passphrase kind recorder w r w' :
  recorder_silent recorder -> 0 <= timeout ->
  submit_transaction_and_wait env url xdr timeout passphrase kind recorder w = (r, w') ->
  (exists x, r = Returned x) /\ sends_of (cleared url xdr passphrase recorder) w w'.
Proof.
  intros Hr Ht. unfold submit_transaction_and_wait.
  intros [(e & H & ->)|([] & w1 & H1 & H)]%ended_inv; [injection H as _ <-; split; [eauto|apply silent_sends, extends_refl]|].
  injection H1 as Hmain <-. apply map_err_Ok in Hmain.
  apply ended_inv in H as [(x & H & ->)|(e & w1 & H1 & H)]; [injection H as _ <-; split; [eauto|apply silent_sends, extends_refl]|].
  injection H1 as Henv <-. apply map_err_Ok in Henv. apply nm_bind_inv in H as (start & w1 & E & H). injection E as <- <-.
  apply ended_inv in H as [(x & H & ->)|([] & w1 & H1 & H)]; [injection H as _ <-; split; [eauto|apply silent_sends, extends_refl]|].
  injection H1 as _ <-.
  apply ended_inv in H as [(x & H & ->)|(id & w1 & H1 & H)]; [split; [eauto|by eapply silent_sends, silent_identity]|].
  pose proof (identity_Ok _ _ _ _ _ H1) as Hnm. pose proof (silent_identity _ _ _ _ _ H1) as E1.
  apply ended_inv in H as [(x & H & ->)|(ledger & w2 & H2 & H)];
    [split; [eauto|]; eapply silent_sends, extends_trans; [exact E1|by eapply silent_binding]|].
  pose proof (binding_Ok _ _ _ _ _ _ H2) as Hb. pose proof (extends_trans _ _ _ _ E1 (silent_binding _ _ _ _ _ _ H2)) as E2.
  apply ended_inv in H as [(x & H & ->)|([i hash] & w3 & H3 & H)]; [injection H as _ <-; split; [eauto|by apply silent_sends]|].
  injection H3 as Hi <-.
  assert (Hpre : silent (match recorder with Some r => pre_send r i | None => mret (Ok ()) end))
    by (destruct recorder; [apply Hr|apply silent_ret]).
  apply ended_inv in H as [(x & H & ->)|([] & w4 & H4 & H)];
    [split; [eauto|]; eapply silent_sends, extends_trans; [exact E2|by eapply Hpre]|].
  pose proof (extends_trans _ _ _ _ E2 (Hpre _ _ _ H4)) as E4.
  destruct (checked_sends (cleared url xdr passphrase recorder) e timeout (nw_now w + timeout) i hash kind recorder w4 r w' Hr Ht) as [Hx Hs].
  - destruct E4 as [? _]. lia.
  - split; [done|done|done|]. intros r0 ->. exists i, hash, ledger, w2. done.
  - done.
  - split; [done|]. by eapply sends_before.
Qed.

(** ** Outcomes *)

(** The outcomes a recorder may be told, with the result the caller gets, on the
    events [new] of the submission. *)
Inductive justified (e : TransactionEnvelope) (hash : list Z) (i : SubmissionIntent) (kind : option SubmissionSignerKind)
    (seconds : Z) (new : list (NetEvent S)) : SubmissionOutcome -> result WalletError SubmissionResult -> Prop :=
| j_success record :
    EvTransaction hash (Ok record) ∈ new -> tr_status record = "SUCCESS" ->
    justified e hash i kind seconds new (OutSuccess (default 0 (tr_ledger record)) (tr_created_at record))
      (Ok (MkSubmitted (in_tx_hash i) (default 0 (tr_ledger record)) kind))
| j_failed record :
    EvTransaction hash (Ok record) ∈ new -> tr_status record = "FAILED" ->
    justified e hash i kind seconds new (OutOnChainFailed (map_failed_record record)) (Err (WFailed (map_failed_record record)))
| j_refused k detail :
    ne_send env k e = Err (TransactionSubmissionFailed detail) -> contains_str SEND_NO_RESPONSE_MARKER detail = false ->
    justified e hash i kind seconds new (OutRejected "submission.tx_malformed") (Err (WSubmission (TxMalformed detail)))
| j_unknown o err :
    o = OutTimeout \/ o = OutTransportAfterSend ->
    err = TxTimeout (in_tx_hash i) seconds \/ (exists server, err = HashMismatch (in_tx_hash i) server) ->
    justified e hash i kind seconds new o (Err (WSubmission err)).

(** The run ended by telling [rec] an outcome its events justify. *)
Definition told (rec : SubmissionRecorder S) e hash i kind seconds (w w' : NetWorld S) (x : result WalletError SubmissionResult) : Prop :=
  exists o w2 new, outcome rec i o w2 = ((), w') /\ nw_trace w2 = new ++ nw_trace w /\
    justified e hash i kind seconds new o x.

Lemma justified_more e hash i kind seconds new1 new2 o x :
  justified e hash i kind seconds new1 o x -> justified e hash i kind seconds (new1 ++ new2) o x.
Proof.
  intros [record H1 H2|record H1 H2|k d H1 H2|o' err H1 H2];
    [eapply j_success|eapply j_failed|eapply j_refused|eapply j_unknown]; eauto; apply elem_of_app; by left.
Qed.

Lemma told_before rec e hash i kind seconds w w1 w' x new :
  nw_trace w1 = new ++ nw_trace w -> told rec e hash i kind seconds w1 w' x -> told rec e hash i kind seconds w w' x.
Proof.
  intros H (o & w2 & n2 & H1 & H2 & H3). exists o, w2, (n2 ++ new). split; [done|]. split; [by rewrite H2, H, app_assoc|].
  by apply justified_more.
Qed.

Lemma get_transaction_within_inv deadline hash w a w' :
  get_transaction_within env deadline hash w = (a, w') ->
  match a with Some a => nw_trace w' = EvTransaction hash a :: nw_trace w | None => nw_trace w' = nw_trace w end.
Proof.
  unfold get_transaction_within, timeout_at. unfold mbind, NM_bind. destruct (_ || _); intros [= <- <-]; done.
Qed.

Lemma told_now rec e hash i kind seconds w w' o x :
  outcome rec i o w = ((), w') -> justified e hash i kind seconds [] o x -> told rec e hash i kind seconds w w' x.
Proof. intros H Hj. by exists o, w, []. Qed.

Lemma poll_told rec e hash deadline seconds i kind fuel : forall w x w',
  poll_for_confirmation env fuel hash deadline seconds i (Some rec) kind w = (Returned x, w') ->
  told rec e hash i kind seconds w w' x.
Proof.
  assert (Htimeout : forall w x w',
    (err ← record_timeout (Some rec) i seconds; mret (Returned (Err err))) w = (Returned x, w') ->
    told rec e hash i kind seconds w w' x).
  { intros w x w' (err & w1 & H1 & H)%nm_bind_inv. injection H as <- <-. apply nm_bind_inv in H1 as ([] & w2 & H1 & H).
    injection H as <- <-. eapply told_now; [exact H1|]. apply j_unknown; by left. }
  induction fuel as [|fuel IH]; intros w x w' H; [done|]. cbn [poll_for_confirmation] in H.
  apply nm_bind_inv in H as (t & w1 & E & H). injection E as <- <-.
  destruct (deadline <=? nw_now w); [by apply Htimeout|].
  apply nm_bind_inv in H as (a & w2 & Ea & H). apply get_transaction_within_inv in Ea. destruct a as [a|];
    [|eapply (told_before _ _ _ _ _ _ _ _ _ _ []); [exact Ea|by apply Htimeout]].
  assert (Hlater : told rec e hash i kind seconds w2 w' x -> told rec e hash i kind seconds w w' x)
    by (intros Hx; eapply (told_before _ _ _ _ _ _ w w2 w' x [EvTransaction hash a]); [exact Ea|done]).
  assert (Hagain : (_ ← sleep_before_next_poll env POLL_INTERVAL deadline;
     poll_for_confirmation env fuel hash deadline seconds i (Some rec) kind) w2 = (Returned x, w') ->
    told rec e hash i kind seconds w w' x).
  { intros (u & w4 & Es & H4)%nm_bind_inv. apply IH in H4. apply Hlater.
    eapply (told_before _ _ _ _ _ _ w2 w4 w' x []); [|done].
    apply nm_bind_inv in Es as (t & w5 & E & Es). injection E as <- <-. injection Es as _ <-. done. }
  apply nm_bind_inv in H as (t & w3 & E & H). injection E as <- <-. destruct (deadline <=? nw_now w2); [by apply Hlater, Htimeout|].
  destruct a as [record|err].
  - apply nm_bind_inv in H as (y & w3 & Ey & H). unfold settle_poll in Ey. clear Htimeout IH.
    case_bool_decide as Hs; [|case_bool_decide as Hf; [|case_bool_decide as Hn]].
    + apply nm_bind_inv in Ey as ([] & w4 & Eo & E). injection E as <- <-. injection H as <- <-.
      eexists _, w2, [EvTransaction hash (Ok record)]. split; [exact Eo|]. split; [done|]. apply j_success; [by left|done].
    + apply nm_bind_inv in Ey as ([] & w4 & Eo & E). injection E as <- <-. injection H as <- <-.
      eexists _, w2, [EvTransaction hash (Ok record)]. split; [exact Eo|]. split; [done|]. apply j_failed; [by left|done].
    + injection Ey as <- <-. by apply Hagain.
    + apply nm_bind_inv in Ey as ([] & w4 & Eo & E). injection E as <- <-. injection H as <- <-.
      apply Hlater. eapply told_now; [exact Eo|]. apply j_unknown; [by right|by left].
  - destruct (is_retryable_poll_error err); [by apply Hagain|].
    apply nm_bind_inv in H as (y & w3 & Ey & H). injection H as <- <-. apply nm_bind_inv in Ey as ([] & w4 & Eo & E).
    injection E as <- <-. apply Hlater. eapply told_now; [exact Eo|]. apply j_unknown; [by right|by left].
Qed.

(** The error of a retried call is the answer to one of its attempts. *)
Lemma retry_answer {A} policy deadline p delay (f : nat -> result RpcError A) (before : NM S unit) left : forall attempt w err w',
  retry_with_delay env policy deadline p delay (_ ← before; timeout_at env deadline f) left attempt w = (Err err, w') ->
  err = TransactionSubmissionTimeout \/ exists k, f k = Err err.
Proof.
  assert (Hop : forall w a w', (_ ← before; timeout_at env deadline f) w = (Some a, w') -> exists k, f k = a).
  { intros w a w' (u & w1 & _ & H)%nm_bind_inv. unfold timeout_at in H. destruct (_ || _); [|done]. injection H as <- _. eauto. }
  induction left as [|left IH]; intros attempt w err w' H; cbn [retry_with_delay] in H;
    apply nm_bind_inv in H as (a & w1 & Ha & H); destruct a as [[a|x]|];
    [done| |by injection H as <- _; left|done| |by injection H as <- _; left];
    apply Hop in Ha as [k Hk];
    (destruct (negb _); [injection H as <- _; eauto|]); apply nm_bind_inv in H as (t & w2 & E & H);
    (destruct (_ || _); [injection H as <- _; eauto|]); apply nm_bind_inv in H as (n & w3 & E1 & H);
    apply nm_bind_inv in H as (u & w4 & Es & H); apply nm_bind_inv in H as (t' & w5 & E2 & H);
    (destruct (_ <=? _); [injection H as <- _; eauto|]).
  - injection H as <- _. eauto.
  - by eapply IH.
Qed.

Lemma checked_told rec e timeout deadline i hash kind w x w' :
  submit_checked env e timeout deadline i hash kind (Some rec) w = (Returned x, w') ->
  told rec e hash i kind (timeout / secs) w w' x.
Proof.
  unfold submit_checked. intros (sent & w1 & Hs & H)%nm_bind_inv.
  assert (Ht : exists new, nw_trace w1 = new ++ nw_trace w).
  { apply retry_sends in Hs as (_ & _ & new & Ht & _). exists (new ++ [EvSent e (nw_store w)]). by rewrite <- app_assoc. }
  destruct Ht as [new Ht]. eapply told_before; [exact Ht|]. destruct sent as [server|err].
  - destruct (negb _); [|by eapply poll_told]. apply nm_bind_inv in H as ([] & w2 & Hu & H). injection H as <- <-.
    eapply told_now; [exact Hu|]. apply j_unknown; [by right|right; by eexists].
  - apply nm_bind_inv in H as (y & w2 & Hu & H). injection H as <- <-. unfold handle_send_failure in Hu.
    apply retry_answer in Hs. destruct (is_definitive_send_refusal err) eqn:Ed.
    + apply nm_bind_inv in Hu as ([] & w3 & Hu & H). injection H as <- <-. unfold is_definitive_send_refusal in Ed.
      destruct err; try discriminate Ed. apply negb_true_iff in Ed. destruct Hs as [Hs|[k Hs]]; [discriminate Hs|].
      eapply told_now; [exact Hu|]. by eapply j_refused.
    + apply nm_bind_inv in Hu as ([] & w3 & Hu & H). injection H as <- <-.
      eapply told_now; [exact Hu|]. apply j_unknown; [by right|by left].
Qed.

(** C16: The last a submission tells its recorder is the right outcome.  Whatever the endpoint
    answers and whichever recorder listens: a submission that returns either sent nothing, or
    its last step is to tell the recorder an outcome, and the outcome and the result follow
    the endpoint's answers: a success or a failure only after the endpoint said so of this
    transaction's hash, a refusal only when an attempt to send was answered with a verdict, and in
    every other case the unknown outcome and an error that says so. *)
Theorem outcome_is_justified url xdr timeout passphrase kind rec w x w' :
  recorder_silent (Some rec) ->
  submit_transaction_and_wait env url xdr timeout passphrase kind (Some rec) w = (Returned x, w') ->
  extends unsent_event w w' /\ is_ok x = false \/
  exists e i hash ledger w0,
    envelope_from_xdr_base64 xdr = Ok e /\ prepare_intent e xdr passphrase ledger = Ok (i, hash) /\
    extends unsent_event w w0 /\ told rec e hash i kind (timeout / secs) w0 w' x.
Proof.
  intros Hr. unfold submit_transaction_and_wait.
  intros [(err & H & [= ->])|([] & w1 & H1 & H)]%ended_inv; [injection H as _ <-; left; split; [apply extends_refl|done]|].
  injection H1 as _ <-.
  apply ended_inv in H as [(err & H & [= ->])|(e & w1 & H1 & H)]; [injection H as _ <-; left; split; [apply extends_refl|done]|].
  injection H1 as Henv <-. apply map_err_Ok in Henv. apply nm_bind_inv in H as (start & w1 & E & H). injection E as <- <-.
  apply ended_inv in H as [(err & H & [= ->])|([] & w1 & H1 & H)]; [injection H as _ <-; left; split; [apply extends_refl|done]|].
  injection H1 as _ <-.
  apply ended_inv in H as [(err & H & [= ->])|(id & w1 & H1 & H)]; [left; split; [by eapply silent_identity|done]|].
  apply silent_identity in H1 as E1.
  apply ended_inv in H as [(err & H & [= ->])|(ledger & w2 & H2 & H)];
    [left; split; [eapply extends_trans; [exact E1|by eapply silent_binding]|done]|].
  pose proof (extends_trans _ _ _ _ E1 (silent_binding _ _ _ _ _ _ H2)) as E2.
  apply ended_inv in H as [(err & H & [= ->])|([i hash] & w3 & H3 & H)]; [injection H as _ <-; by left|].
  injection H3 as Hi <-. destruct Hr as [Hpre _].
  apply ended_inv in H as [(err & H & [= ->])|([] & w4 & H4 & H)];
    [left; split; [eapply extends_trans; [exact E2|by eapply Hpre]|done]|].
  right. exists e, i, hash, ledger, w4. split; [done|]. split; [done|].
  split; [eapply extends_trans; [exact E2|by eapply Hpre]|]. by eapply checked_told.
Qed.

End calls.
