(* ===== verification/SubmissionRecordProps.v ===== *)
(** * Properties of the wallet's record

    The recorder accepts a submission only when everything is on record, and a
    submission tells its recorder exactly one outcome, the one the endpoint's answers justify. *)

From S2P Require Import Prelude RustStr Json Bytes PolicyTypes StateStore Value Attestation Approval ApprovalWire ApprovalStore AuditEntry AuditFiles AuditWriter Receipts ReceiptsProps Keyring WindowStore WindowStoreProps WindowReconcile Network Submit SubmissionRecord SubmitProps.
From stdpp Require Import options.

Local Open Scope string_scope.
Local Open Scope list_scope.
Local Open Scope Z_scope.
Set Default Proof Using "Type*".

Section record.
Context {Text AText E W : Type} {RJ : ReceiptJson Text} {RL : ReceiptJsonLaws Text} {TF : TomlFile AText} {AJ : AuditJson E}.
Context `{S2 : !Sha2, BB : !Base64, SK : !Strkey, WJ : !WindowJson, ED : !EscapeDebug}.
Variables (event : ValueEvent W -> E) (stem : string) (clock uuid : nat -> string) (threshold : Z).
Variable rc : WalletSubmissionRecorder W.
Abbreviation St := (Stores Text AText).
Implicit Types (s : St) (i : SubmissionIntent).

(** The stores when an envelope may go out. *)
Record recorded i s : Prop := {
  (** A receipt, pending and marked as sent, that no other may double. *)
  rd_receipt : exists m, receipts_of (sto_receipts s) = Some m /\
    m !! in_envelope_hash i = Some (with_submitted (pending_receipt (in_envelope_hash i) (in_tx_hash i) (in_source i)
      (in_sequence i) (in_max_time i) (in_submission_ledger i) (ws_approval_nonce rc)));
  (** The reservation was admitted and acknowledged. *)
  rd_window : ws_window_entries rc <> [] -> exists env d,
    wexec (ws_profile rc) env (CPending (ws_window_entries rc) (reservation rc i)) d = (true, sto_window s);
  (** The pending row is the last entry written and the tip anchor covers it. *)
  rd_audit : forall a, sto_audit s = Some a -> exists ts a0 a1,
    write_entry stem clock uuid threshold (new_value_action_pending event rc ts i) a0 = (Ok (), a1) /\
    require_anchor_current stem a1 = (Ok (), a);
}.

Lemma sm_bind_inv {A B} (m : SM A) (f : A -> SM B) s b s' :
  (m ≫= f) s = (b, s') -> exists a s1, m s = (a, s1) /\ f a s1 = (b, s').
Proof. unfold mbind, SM_bind. destruct (m s) as [a s1]. eauto. Qed.

Lemma on_receipts_inv {A} (f : option Text -> Run A) s r s' :
  on_receipts f s = (r, s') -> exists file, f (sto_receipts s) = (r, file) /\ sto_receipts s' = file /\
    sto_window s' = sto_window s /\ sto_audit s' = sto_audit s.
Proof. unfold on_receipts. destruct (f _) as [x file]. intros [= <- <-]. by exists file. Qed.

Lemma on_window_inv {A} (m : WM A) s r s' :
  on_window m s = (r, s') -> m (sto_window s) = (r, sto_window s') /\ sto_receipts s' = sto_receipts s /\ sto_audit s' = sto_audit s.
Proof. unfold on_window. destruct (m _) as [x d]. intros [= <- <-]. done. Qed.

Lemma refuse_Err env i reached e s r s' : refuse event stem clock uuid threshold rc env i reached e s = (r, s') -> r = Err e.
Proof. intros (u & s1 & _ & H)%sm_bind_inv. by injection H as <- _. Qed.

(** A new receipt was written. *)
Lemma begin_receipt_Ok env i s s' :
  begin_receipt rc env i s = (Ok (), s') ->
  (exists m, receipts_of (sto_receipts s') = Some m /\
    m !! in_envelope_hash i = Some (pending_receipt (in_envelope_hash i) (in_tx_hash i) (in_source i) (in_sequence i)
      (in_max_time i) (in_submission_ledger i) (ws_approval_nonce rc))) /\
  sto_window s' = sto_window s /\ sto_audit s' = sto_audit s.
Proof.
  unfold begin_receipt. intros (r & s1 & H1 & H)%sm_bind_inv. injection H as Hr <-.
  apply on_receipts_inv in H1 as (file & Hb & Hf & Hw & Ha). split; [|done]. rewrite Hf. clear Hf Hw Ha.
  destruct r as [[]|]; try discriminate Hr. apply session_Ok in Hb as (m & Hm & [[Hb ->]|(m' & Hb & Hm')]); cbn beta in Hb;
    (destruct (_ ≫= _); [done|]); (destruct (find_pending_for_pair _ _ _); [done|]);
    destruct (m !! in_envelope_hash i); try done.
  injection Hb as <-. eexists. split; [exact Hm'|]. by rewrite lookup_insert_eq.
Qed.

Lemma mark_or_refuse_Ok env i s s' r :
  mark_or_refuse event stem clock uuid threshold rc env i s = (Ok (), s') ->
  (exists m, receipts_of (sto_receipts s) = Some m /\ m !! in_envelope_hash i = Some r) -> sr_submitted r = false ->
  (exists m, receipts_of (sto_receipts s') = Some m /\ m !! in_envelope_hash i = Some (with_submitted r)) /\
  sto_window s' = sto_window s /\ sto_audit s' = sto_audit s.
Proof.
  unfold mark_or_refuse. intros (x & s1 & H1 & H)%sm_bind_inv (m & Hm & Hr) Hs.
  destruct x as [[]|e]; [|apply refuse_Err in H; discriminate H]. injection H as <-.
  apply on_receipts_inv in H1 as (file & Hb & Hf & Hw & Ha). split; [|done]. rewrite Hf.
  apply session_Ok in Hb as (m0 & Hm0 & Hb). rewrite Hm in Hm0. injection Hm0 as <-. cbn beta in Hb. rewrite Hr, Hs in Hb. cbn in Hb.
  destruct Hb as [[Hb _]|(m' & Hb & Hm')]; [done|]. injection Hb as <-. exists (<[in_envelope_hash i := with_submitted r]> m).
  split; [done|]. by rewrite lookup_insert_eq.
Qed.

(** The row is written, the anchor checked after it. *)
Lemma write_pending_row_Ok env i s s' :
  write_pending_row event stem clock uuid threshold rc env i s = (Ok AnchorCurrent, s') ->
  sto_receipts s' = sto_receipts s /\ sto_window s' = sto_window s /\
  forall a, sto_audit s' = Some a -> exists ts a0 a1,
    write_entry stem clock uuid threshold (new_value_action_pending event rc ts i) a0 = (Ok (), a1) /\
    require_anchor_current stem a1 = (Ok (), a).
Proof.
  unfold write_pending_row, lock_audit. destruct (sto_audit s) as [a|] eqn:Ea.
  - destruct (rc_poisoned env 1); [done|]. unfold on_audit.
    destruct (write_entry _ _ _ _ _ a) as [r a1] eqn:Ew. destruct r as [[]|e]; [|done]. cbn [sto_audit default from_option id].
    destruct (require_anchor_current stem a1) as [r2 a2] eqn:Er. destruct r2 as [[]|e]; [|done].
    intros [= <-]. cbn. split; [done|]. split; [done|]. intros a' [= <-]. eauto.
  - intros [= <-]. split; [done|]. split; [done|]. intros a. by rewrite Ea.
Qed.

Lemma window_precheck_None env i s s' :
  window_precheck rc env i s = (None, s') -> sto_receipts s' = sto_receipts s /\ sto_audit s' = sto_audit s.
Proof.
  unfold window_precheck. destruct (ws_window_entries rc); [by intros [= <-]|].
  intros (r & s1 & H1 & H)%sm_bind_inv. apply on_window_inv in H1 as (_ & H2 & H3). by injection H as _ <-.
Qed.

Lemma pre_send_recorded env i s s' :
  wallet_pre_send event stem clock uuid threshold rc env i s = (Ok (), s') -> recorded i s'.
Proof.
  unfold wallet_pre_send. intros (r0 & s0 & _ & H)%sm_bind_inv. destruct r0 as [[]|]; [|done].
  apply sm_bind_inv in H as (r1 & s1 & Hb & H). destruct r1 as [[]|]; [|done].
  apply begin_receipt_Ok in Hb as (Hrec & _ & _).
  apply sm_bind_inv in H as (r2 & s2 & Hp & H). destruct r2 as [e|]; [apply refuse_Err in H; discriminate H|].
  apply window_precheck_None in Hp as (Hr2 & _). rewrite <- Hr2 in Hrec.
  apply sm_bind_inv in H as (r3 & s3 & Hw & H). destruct r3 as [anchor|e]; [|apply refuse_Err in H; discriminate H].
  assert (Hfin : forall s4, anchor = AnchorCurrent -> sto_receipts s4 = sto_receipts s3 -> sto_audit s4 = sto_audit s3 ->
    (ws_window_entries rc <> [] -> exists env d,
       wexec (ws_profile rc) env (CPending (ws_window_entries rc) (reservation rc i)) d = (true, sto_window s4)) ->
    mark_or_refuse event stem clock uuid threshold rc env i s4 = (Ok (), s') -> recorded i s').
  { intros s4 -> E1 E2 Hwin Hm. apply write_pending_row_Ok in Hw as (E3 & E4 & Haud). rewrite <- E3, <- E1 in Hrec.
    destruct (mark_or_refuse_Ok _ _ _ _ _ Hm Hrec eq_refl) as (Hr' & Ew & Ea). split; [done| |].
    - by rewrite Ew.
    - by rewrite Ea, E2. }
  unfold reserve in H. destruct (ws_window_entries rc) as [|x l] eqn:Ee.
  - destruct anchor as [|e]; [|apply refuse_Err in H; discriminate H]. by eapply Hfin.
  - apply sm_bind_inv in H as (r4 & s4 & H4 & H). destruct r4 as [minted|e]; [|apply refuse_Err in H; discriminate H].
    destruct anchor as [|e]; [|apply refuse_Err in H; discriminate H].
    apply on_window_inv in H4 as (Hpend & E1 & E2). eapply Hfin; [done|exact E1|exact E2| |exact H].
    intros _. exists (rc_window env 3), (sto_window s3). cbn. by rewrite Hpend.
Qed.

Variables (net : NetEnv St) (envs : nat -> RecorderEnv AText).
Abbreviation recorder := (wallet_recorder event stem clock uuid threshold rc net envs).

Lemma silent_lift_sm {A} (f : RecorderEnv AText -> SM A) : silent (lift_sm (Text := Text) envs f).
Proof. intros w a w' H. unfold lift_sm in H. by eapply silent_on_store. Qed.

Lemma wallet_silent : recorder_silent (Some recorder).
Proof.
  split; [intros i; apply silent_lift_sm|]. intros i o. cbn [wallet_recorder outcome]. unfold wallet_outcome.
  silently; apply silent_lift_sm.
Qed.

Context `{X : !Xdr, V : !Ed25519Verify}.

(** C9: Nothing is sent before it is on record.  Whatever the endpoint answers and whatever
    other processes do to the stores while it waits, a submission with the wallet's recorder returns; it sends at most five
    times, and only one envelope: the one given, carrying signatures over the network
    named, which is not the main one.  At the first send its receipt stands, pending and marked
    as sent, its spending is reserved and acknowledged within the window, and its pending
    row is in the audit log and covered by the tip anchor; a later send differs from that
    only by what other processes did. *)
Theorem sent_only_when_recorded url xdr timeout passphrase kind w r w' :
  0 <= timeout ->
  submit_transaction_and_wait net url xdr timeout passphrase kind (Some recorder) w = (r, w') ->
  (exists x, r = Returned x) /\
  exists new, nw_trace w' = new ++ nw_trace w /\ (length (sent_stores new) <= 5)%nat /\
    (sent_stores new = [] \/ exists e i s0,
       envelope_from_xdr_base64 xdr = Ok e /\ passphrase <> MAINNET_PASSPHRASE /\ bound_to passphrase e /\
       in_envelope_hash i = envelope_hash_hex xdr /\ compute_local_tx_hash_hex e passphrase = Ok (in_tx_hash i) /\
       last (sent_stores new) = Some s0 /\ recorded i s0 /\
       forall e' s, EvSent e' s ∈ new -> e' = e /\ rtc (moved net) s0 s).
Proof.
  intros Ht H. destruct (submission_runs net _ _ _ _ _ _ _ _ _ wallet_silent Ht H) as [Hx (_ & new & Htr & Hl & Hs)].
  split; [done|]. exists new. split; [done|]. split; [done|]. destruct Hs as [Hs|(e & w0 & Hc & Hlast & Hf)]; [by left|]. right.
  destruct Hc as [Henv [_ Hnm] Hb Hrec]. destruct (Hrec _ eq_refl) as (i & hash & ledger & w1 & Hi & Hpre).
  exists e, i, (nw_store w0). do 3 (split; [done|]). unfold prepare_intent in Hi. res_inv. repeat match goal with x : (_ * _)%type |- _ => destruct x end. res_inv.
  split; [done|]. split; [done|]. split; [done|]. split.
  - cbn in Hpre. unfold lift_sm, on_store in Hpre. destruct (wallet_pre_send _ _ _ _ _ _ _ _ _) as [r0 s0] eqn:Ep.
    injection Hpre as -> <-. by eapply pre_send_recorded.
  - intros e' s' Hin. rewrite Forall_forall in Hf. by apply (Hf _ Hin).
Qed.
End record.
