(* ===== verification/IdempotentProps.v ===== *)
(** * Properties of idempotent submission

    Any number of processes may submit the same envelope, crash, and submit it again, while the
    endpoint answers anything: a receipt that is settled is the answer, one that is open is
    sent again only when the endpoint does not know its transaction, and a success is
    reported only when the endpoint or a receipt says so. *)

From S2P Require Import Prelude RustStr Json Bytes PolicyTypes Receipts ReceiptsProps Keyring WindowStore WindowReconcile Network Submit SubmitProps.
From stdpp Require Import options.

Local Open Scope string_scope.
Local Open Scope list_scope.
Local Open Scope Z_scope.
Set Default Proof Using "Type*".

Section idempotent.
Context {Text : Type} {RJ : ReceiptJson Text} {RL : ReceiptJsonLaws Text} (env : NetEnv (option Text)) (renv : ReceiptEnv).
Abbreviation File := (option Text).
Implicit Types (w : NetWorld File).

(** ** Silent parts *)

Lemma silent_store_call {A} (f : SessionEnv -> PersistFault -> File -> Run A) : silent (store_call env renv f).
Proof.
  intros w a w' (b & w1 & H1 & H)%nm_bind_inv. apply nm_bind_inv in H as (u & w2 & H2 & H). injection H as _ <-.
  eapply extends_trans; [by eapply silent_on_store|by eapply silent_await].
Qed.
Lemma silent_store_get h : silent (store_get env renv h).
Proof. apply silent_store_call. Qed.
Lemma silent_store_or_fail {A} d (m : NM File (result ReceiptStoreError A)) : silent m -> silent (store_or_fail d m).
Proof. intros H. unfold store_or_fail. silently. Qed.
Lemma silent_finalize_quietly h s l : silent (finalize_quietly env renv h s l).
Proof. unfold finalize_quietly. silently. apply silent_store_call. Qed.
Lemma silent_check_retention l d : silent (check_retention_window env l d).
Proof. unfold check_retention_window. silently. Qed.
Lemma silent_deadline_settle p b : silent (deadline_settle env renv p b).
Proof. unfold deadline_settle. silently; first [apply silent_finalize_quietly | apply silent_check_retention]. Qed.
Lemma silent_settle_record p r : silent (settle_record env renv p r).
Proof. unfold settle_record. silently; first [apply silent_finalize_quietly | apply silent_check_retention]. Qed.

Lemma silent_poll_retention fuel hash p : forall after, silent (poll_with_retention env renv fuel hash p after).
Proof.
  induction fuel as [|fuel IH]; intros after; [apply silent_ret|]. cbn [poll_with_retention].
  silently; first [apply silent_deadline_settle | apply silent_get_transaction_within | apply silent_settle_record
                  | apply silent_sleep_before | apply IH].
Qed.

Lemma silent_poll_store polls h : silent (poll_store_loop env renv polls h).
Proof.
  induction polls as [|polls IH]; [apply silent_ret|]. cbn [poll_store_loop].
  silently; first [apply IH | apply silent_store_or_fail, silent_store_get | idtac].
Qed.

Lemma silent_poll_terminal h : silent (poll_store_for_terminal env renv h).
Proof. apply silent_poll_store. Qed.

Lemma silent_wait h : silent (wait_for_winner env renv h).
Proof. unfold wait_for_winner. silently. apply silent_poll_terminal. Qed.

(** The retention poll ends before its fuel does. *)
Lemma retention_poll_ends hash p fuel : forall after w r w',
  rp_send_deadline p - nw_now w <= Z.of_nat fuel * POLL_INTERVAL ->
  poll_with_retention env renv (S fuel) hash p after w = (r, w') -> exists x, r = Returned x.
Proof.
  induction fuel as [|fuel IH]; intros after w r w' Hd H; cbn [poll_with_retention] in H;
    apply nm_bind_inv in H as (t & w1 & E & H); injection E as <- <-;
    (destruct (Z.leb_spec (rp_send_deadline p) (nw_now w)) as [Hle|Hgt];
      [apply nm_bind_inv in H as (e & w2 & _ & H); injection H as <- _; eauto|]).
  - change (Z.of_nat 0) with 0 in Hd. lia.
  - apply nm_bind_inv in H as (a & w2 & Ea & H). apply silent_get_transaction_within in Ea as [Hn _].
    destruct a as [a|]; [|apply nm_bind_inv in H as (e & w3 & _ & H); injection H as <- _; eauto].
    assert (Hagain : forall after w0 r w', nw_now w2 <= nw_now w0 ->
      (_ ← sleep_before_next_poll env RETENTION_POLL_INTERVAL (rp_send_deadline p);
       poll_with_retention env renv (S fuel) hash p after) w0 = (r, w') -> exists x, r = Returned x).
    { intros b w0 r0 w0' Hw (u & w4 & Es & H4)%nm_bind_inv. apply sleep_before_advances in Es.
      eapply IH; [|exact H4]. unfold POLL_INTERVAL, RETENTION_POLL_INTERVAL, secs in *. lia. }
    apply nm_bind_inv in H as (t & w3 & E & H). injection E as <- <-.
    destruct (rp_send_deadline p <=? nw_now w2); [apply nm_bind_inv in H as (e & w3 & _ & H); injection H as <- _; eauto|].
    destruct a as [record|err].
    + apply nm_bind_inv in H as (x & w3 & Ex & H). destruct x as [x|]; [injection H as <- _; eauto|].
      eapply Hagain; [|exact H]. by apply silent_settle_record in Ex as [? _].
    + destruct (is_retryable_poll_error err); [by eapply Hagain; [|exact H]|]. injection H as <- _. eauto.
Qed.

Context `{S2 : !Sha2, SK : !Strkey, X : !Xdr, V : !Ed25519Verify}.

Lemma silent_pre_send_checks url xdr passphrase deadline : silent (pre_send_checks env url xdr passphrase deadline).
Proof. unfold pre_send_checks. silently; first [apply silent_identity | apply silent_binding]. Qed.

Lemma silent_checks_or_abandon url xdr passphrase h deadline : silent (checks_or_abandon env renv url xdr passphrase h deadline).
Proof. unfold checks_or_abandon. silently; first [apply silent_pre_send_checks | apply silent_store_call]. Qed.

(** What holds of an envelope that is sent. *)
Definition checked_envelope (url xdr passphrase : string) (e : TransactionEnvelope) : Prop :=
  decode_envelope xdr = Ok e /\ refuse_mainnet_write passphrase url = Ok () /\ passphrase <> MAINNET_PASSPHRASE /\
  bound_to passphrase e.

Lemma pre_send_checks_Ok url xdr passphrase deadline w e w' :
  pre_send_checks env url xdr passphrase deadline w = (Ok e, w') -> checked_envelope url xdr passphrase e.
Proof.
  unfold pre_send_checks. intros [(? & _ & ?)|(u & w1 & H1 & H)]%bind_ok_inv; [done|]. injection H1 as Hm <-.
  apply bind_ok_inv in H as [(? & _ & ?)|(e0 & w1 & H1 & H)]; [done|]. injection H1 as He <-.
  apply bind_ok_inv in H as [(? & _ & ?)|(u1 & w1 & H1 & H)]; [done|].
  apply bind_ok_inv in H as [(? & _ & ?)|(id & w2 & H2 & H)]; [done|].
  apply bind_ok_inv in H as [(? & _ & ?)|(l & w3 & H3 & H)]; [done|]. injection H as -> _. destruct u.
  split; [done|]. split; [by apply map_err_Ok in Hm|]. split; [by eapply identity_Ok|by eapply binding_Ok].
Qed.

Lemma retention_runs url xdr timeout passphrase h ledger max_time w r w' :
  0 <= timeout ->
  submit_with_retention_poll env renv url xdr timeout passphrase h ledger max_time w = (r, w') ->
  (exists x, r = Returned x) /\ sends_of env (fun e _ => checked_envelope url xdr passphrase e) w w'.
Proof.
  intros Ht. unfold submit_with_retention_poll. intros (start & w1 & E & H)%nm_bind_inv. injection E as <- <-.
  apply ended_inv in H as [(e & H & ->)|(e & w1 & H1 & H)]; [split; [eauto|]; by eapply silent_sends, silent_checks_or_abandon|].
  pose proof (silent_checks_or_abandon _ _ _ _ _ _ _ _ H1) as E1.
  assert (He : checked_envelope url xdr passphrase e).
  { unfold checks_or_abandon in H1. apply nm_bind_inv in H1 as (c & w2 & Hc & H2). destruct c as [e0|err].
    - injection H2 as -> _. by eapply pre_send_checks_Ok.
    - by apply nm_bind_inv in H2 as (u & w3 & _ & H2). }
  apply ended_inv in H as [(x & H & ->)|([tx_hash_hex hash] & w2 & H2 & H)]; [injection H as _ <-; split; [eauto|by apply silent_sends]|].
  injection H2 as _ <-. apply nm_bind_inv in H as (u & w2 & Hm & H). apply silent_store_call in Hm as E2.
  pose proof (extends_trans _ _ _ _ E1 E2) as E12.
  apply nm_bind_inv in H as (sent & w3 & Hs & H).
  pose proof (backoff_sends env (fun e _ => checked_envelope url xdr passphrase e) _ _ _ _ _ _ Hs He) as Hsends.
  pose proof (sends_before env _ _ _ _ E12 Hsends) as Hall. destruct sent as [server|err].
  - destruct (negb _); [injection H as <- <-; split; [eauto|done]|].
    split; [|eapply sends_after; [done|]; by eapply silent_poll_retention].
    destruct (poll_fuel_enough timeout Ht) as (n & Hn & Hle). rewrite Hn in H.
    eapply retention_poll_ends; [|exact H]. cbn. destruct Hall as [? _]. lia.
  - injection H as <- <-. split; [eauto|done].
Qed.

(** ** Sent again only when the endpoint does not know it *)

(** [r] is the receipt of the envelope [h] in the file of [w], or in one the other processes made of it. *)
Definition receipt_seen (w : NetWorld File) (h : string) (r : SubmissionReceipt) : Prop :=
  exists file m, rtc (moved env) (nw_store w) file /\ receipts_of file = Some m /\ m !! h = Some r.

(** The events of a run that sends nothing, or only after the endpoint was asked for the
    transaction that a receipt of [Q] names and answered that it does not know it. *)
Definition looked_up_first (Q : SubmissionReceipt -> Prop) (w w' : NetWorld File) : Prop :=
  exists n1 n2, nw_trace w' = (n2 ++ n1) ++ nw_trace w /\ sent_stores n1 = [] /\
    (sent_stores n2 = [] \/
     exists r hash record, Q r /\ hex_to_hash32 (sr_tx_hash r) = Some (Ok hash) /\
       EvTransaction hash (Ok record) ∈ n1 /\ tr_status record = "NOT_FOUND").

Lemma silent_looked Q w w' : extends unsent_event w w' -> looked_up_first Q w w'.
Proof. intros [_ (n & E & F)]. exists n, []. split; [done|]. split; [by apply silent_no_stores|by left]. Qed.

Lemma looked_before (Q R : SubmissionReceipt -> Prop) w w1 w' :
  extends unsent_event w w1 -> (forall r, Q r -> R r) -> looked_up_first Q w1 w' -> looked_up_first R w w'.
Proof.
  intros [_ (n & E & F)] HQ (n1 & n2 & E2 & S1 & H). exists (n1 ++ n), n2. split; [by rewrite E2, E, !app_assoc|].
  rewrite sent_stores_app, S1, (silent_no_stores n F). split; [done|].
  destruct H as [H|(r & hash & record & Hr & Hh & H1 & H2)]; [by left|]. right. exists r, hash, record.
  split; [by apply HQ|]. split; [done|]. split; [|done]. apply elem_of_app. by left.
Qed.

Lemma get_transaction_inv hash w a w' :
  get_transaction_record env hash w = (a, w') -> nw_now w <= nw_now w' /\ nw_trace w' = EvTransaction hash a :: nw_trace w.
Proof.
  unfold get_transaction_record, await, mbind, NM_bind. intros [= <- <-]. cbn. split; [lia|done].
Qed.

Lemma silent_finalize_or_fail h s ledger :
  silent (store_or_fail "receipt finalize failed" (store_call env renv (fun e f => finalize e f h s ledger))).
Proof. apply silent_store_or_fail, silent_store_call. Qed.

(** A result, or a panic on the hash text of a receipt of [Q], which cannot be sliced. *)
Definition ends (Q : SubmissionReceipt -> Prop) (x : Ended SubmissionResult) : Prop :=
  (exists y, x = Returned y) \/ x = Panicked /\ exists r, Q r /\ hex_to_hash32 (sr_tx_hash r) = None.

Lemma ends_weaken (Q R : SubmissionReceipt -> Prop) x : (forall r, Q r -> R r) -> ends Q x -> ends R x.
Proof. intros HQ [H|(-> & r & Hr & H)]; [by left|right; eauto]. Qed.

Lemma stale_runs url r h xdr timeout passphrase max_time ledger w x w' :
  0 <= timeout ->
  handle_stale_pending env renv url r h xdr timeout passphrase max_time ledger w = (x, w') ->
  ends (eq r) x /\
  sends_of env (fun e _ => checked_envelope url xdr passphrase e) w w' /\ looked_up_first (eq r) w w'.
Proof.
  intros Ht H. unfold handle_stale_pending in H.
  assert (Hquiet : forall (x' : Ended SubmissionResult) w1, extends unsent_event w w1 -> (exists y, x' = Returned y) ->
    ends (eq r) x' /\
    sends_of env (fun e _ => checked_envelope url xdr passphrase e) w w1 /\ looked_up_first (eq r) w w1).
  { intros x' w1 E Hx. split; [by left|]. split; [by apply silent_sends|by apply silent_looked]. }
  destruct (_ || _).
  { apply nm_bind_inv in H as (u & w1 & H1 & H). injection H as <- <-. apply Hquiet; [by eapply silent_finalize_quietly|eauto]. }
  destruct (hex_to_hash32 (sr_tx_hash r)) as [[hash|e]|] eqn:Eh.
  - apply nm_bind_inv in H as (a & w1 & Ha & H). pose proof (silent_get_transaction _ _ _ _ _ Ha) as E1.
    apply get_transaction_inv in Ha as [_ Ha].
    destruct a as [record|e]; [|injection H as <- <-; apply Hquiet; [done|eauto]].
    assert (Hfin : forall s l (f : unit -> NM File (Ended SubmissionResult)) y,
      (forall u, f u = mret (Returned y)) ->
      ended (store_or_fail "receipt finalize failed" (store_call env renv (fun e f => finalize e f h s l))) f w1 = (x, w') ->
      ends (eq r) x /\
      sends_of env (fun e _ => checked_envelope url xdr passphrase e) w w' /\ looked_up_first (eq r) w w').
    { intros s l f y Hf H2. assert (E2 : extends unsent_event w1 w').
      { eapply silent_ended; [apply silent_finalize_or_fail| |exact H2]. intros u. rewrite Hf. apply silent_ret. }
      apply Hquiet; [by eapply extends_trans|].
      apply ended_inv in H2 as [(e & _ & ->)|(u & w2 & _ & H2)]; [eauto|]. rewrite Hf in H2. injection H2 as <- _. eauto. }
    case_bool_decide; [by eapply Hfin|]. case_bool_decide; [by eapply Hfin|].
    case_bool_decide as Hnf; [|injection H as <- <-; apply Hquiet; [done|eauto]].
    apply nm_bind_inv in H as (t & w2 & E & H). injection E as _ <-. destruct (_ && _); [by eapply Hfin|].
    destruct (retention_runs _ _ _ _ _ _ _ _ _ _ Ht H) as [Hx Hs]. split; [by left|]. split; [by eapply sends_before|].
    destruct Hs as [_ (new & E2 & _)]. exists [EvTransaction hash (Ok record)], new. split; [by rewrite E2, Ha, <- app_assoc|].
    split; [done|]. right. exists r, hash, record. do 2 (split; [done|]). split; [by left|done].
  - injection H as <- <-. apply Hquiet; [apply extends_refl|eauto].
  - injection H as <- <-. split; [right; eauto|]. split; [apply silent_sends, extends_refl|apply silent_looked, extends_refl].
Qed.

Lemma store_call_inv {A} (f : SessionEnv -> PersistFault -> File -> Run A) w r w' :
  store_call env renv f w = (r, w') ->
  exists e ft file, f e ft (nw_store w) = (r, file) /\ nw_trace w' = nw_trace w /\ moved env file (nw_store w').
Proof.
  intros (b & w1 & H1 & H)%nm_bind_inv. apply nm_bind_inv in H as (u & w2 & H2 & H). injection H as <- <-.
  unfold on_store in H1. destruct (f _ _ _) as [a file] eqn:E. injection H1 as <- <-. injection H2 as _ <-.
  exists (re_session renv (nw_tick w)), (re_fault renv (nw_tick w)), file. do 2 (split; [done|]). by eexists.
Qed.

Lemma store_get_inv h w r w' : store_get env renv h w = (r, w') ->
  nw_trace w' = nw_trace w /\ moved env (nw_store w) (nw_store w') /\
  forall x, r = Ok x -> exists m, receipts_of (nw_store w) = Some m /\ m !! h = x.
Proof.
  intros (e & ft & file & E & Ht & Hm)%store_call_inv. injection E as E <-. split; [done|]. split; [done|].
  intros x ->. by apply get_receipt_Ok in E.
Qed.

Lemma store_or_fail_inv {A} d (m : NM File (result ReceiptStoreError A)) w r w' :
  store_or_fail d m w = (r, w') ->
  (exists e, m w = (Err e, w') /\ r = Err (WInternal d)) \/ exists a, m w = (Ok a, w') /\ r = Ok a.
Proof.
  unfold store_or_fail. intros (x & w1 & H1 & H)%nm_bind_inv. injection H as <- <-. destruct x; cbn; eauto.
Qed.

(** A run that sends nothing, or sends after the checks. *)
Abbreviation checked_sends_of url xdr passphrase := (sends_of env (fun e _ => checked_envelope url xdr passphrase e)).

(** Waiting for another process changes the receipts only as the others do. *)
Lemma poll_store_moved polls h : forall w r w', poll_store_loop env renv polls h w = (Ok r, w') ->
  rtc (moved env) (nw_store w) (nw_store w').
Proof.
  induction polls as [|polls IH]; intros w r w' H; [by injection H as _ <-|]. cbn [poll_store_loop] in H.
  apply nm_bind_inv in H as (u & w1 & Es & H). injection Es as _ <-.
  apply bind_ok_inv in H as [(? & _ & [=])|(found & w2 & H2 & H)].
  apply store_or_fail_inv in H2 as [(? & _ & [=])|(a & Hg & [= <-])]. apply store_get_inv in Hg as (_ & Hm2 & _).
  cbn in Hm2. apply (rtc_l _ _ (ne_others env (nw_tick w) (nw_store w))); [by eexists|]. eapply rtc_l; [exact Hm2|].
  destruct found as [r0|]; [|by eapply IH]. destruct (is_terminal (sr_status r0)); [by injection H as _ <-|by eapply IH].
Qed.

Lemma poll_terminal_moved h w r w' : poll_store_for_terminal env renv h w = (Ok r, w') ->
  rtc (moved env) (nw_store w) (nw_store w').
Proof. unfold poll_store_for_terminal. generalize LOSER_MAX_POLLS. intros polls. apply poll_store_moved. Qed.

(** An open receipt was there. *)
Lemma open_receipt_runs receipt url h xdr timeout passphrase max_time ledger w x w' :
  0 <= timeout -> resume_open env renv receipt url h xdr timeout passphrase max_time ledger w = (x, w') ->
  ends (fun r => r = receipt \/ receipt_seen w h r) x /\ checked_sends_of url xdr passphrase w w' /\
  looked_up_first (fun r => r = receipt \/ receipt_seen w h r) w w'.
Proof.
  unfold resume_open. set (Q := fun r => r = receipt \/ receipt_seen w h r).
  assert (HQ0 : forall r, r = receipt \/ receipt_seen w h r -> Q r) by done. clearbody Q. intros Ht H.
  assert (Hq : forall w1 y, extends unsent_event w w1 -> ends Q (Returned y) /\
    checked_sends_of url xdr passphrase w w1 /\ looked_up_first Q w w1)
    by (intros w1 y E; split; [left; eauto|]; split; [by apply silent_sends|by apply silent_looked]).
  apply ended_inv in H as [(e & H & ->)|(found & w1 & H1 & H)]; [apply silent_poll_terminal in H; by apply Hq|].
  pose proof (poll_terminal_moved _ _ _ _ H1) as Hmoved.
  apply silent_poll_terminal in H1. destruct found as [terminal|]; [injection H as <- <-; by apply Hq|].
  apply ended_inv in H as [(e & H & ->)|(stale & w2 & H2 & H)].
  - eapply silent_store_or_fail in H; [|apply silent_store_get]. by eapply Hq, extends_trans.
  - assert (HQ : forall r, default receipt stale = r -> Q r).
    { intros r <-. apply HQ0. apply store_or_fail_inv in H2 as [(? & _ & [=])|(a & Hg & [= <-])].
      apply store_get_inv in Hg as (_ & _ & Hg). destruct (Hg _ eq_refl) as (m & Hm & Hr).
      destruct stale as [r|]; [right; by exists (nw_store w1), m|by left]. }
    eapply silent_store_or_fail in H2; [|apply silent_store_get]. pose proof (extends_trans _ _ _ _ H1 H2) as E.
    destruct (stale_runs _ _ _ _ _ _ _ _ _ _ _ Ht H) as (Hends & Hs & Hl).
    split; [by eapply ends_weaken|]. split; [by eapply sends_before|by eapply looked_before].
Qed.

(** No receipt was there. *)
Lemma fresh_runs url h tx_hash source sequence xdr timeout passphrase max_time ledger w x w' :
  0 <= timeout -> begin_fresh env renv url h tx_hash source sequence xdr timeout passphrase max_time ledger w = (x, w') ->
  ends (fun _ => False) x /\ checked_sends_of url xdr passphrase w w'.
Proof.
  unfold begin_fresh. intros Ht H.
  apply ended_inv in H as [(e & H & ->)|(begun & w1 & H1 & H)];
    [eapply silent_store_or_fail in H; [|apply silent_store_call]; split; [left; eauto|by apply silent_sends]|].
  eapply silent_store_or_fail in H1 as E1; [|apply silent_store_call]. destruct begun as [|receipt].
  - destruct (retention_runs _ _ _ _ _ _ _ _ _ _ Ht H) as [Hx Hs]. split; [by left|by eapply sends_before].
  - destruct (is_terminal (sr_status receipt)); [injection H as <- <-; split; [left; eauto|by apply silent_sends]|].
    apply ended_inv in H as [(e & H & ->)|(y & w2 & H2 & H)].
    + apply silent_wait in H. split; [left; eauto|]. by eapply silent_sends, extends_trans.
    + apply silent_wait in H2. injection H as <- <-. split; [left; eauto|]. by eapply silent_sends, extends_trans.
Qed.

(** Where a run begins. *)
Lemma idempotent_begins url xdr timeout passphrase ledger w x w' :
  submit_transaction_idempotent env renv url xdr timeout passphrase ledger w = (x, w') ->
  (exists e, x = Returned (Err e) /\ nw_trace w' = nw_trace w /\ extends unsent_event w w') \/
  exists tx_hash source sequence max_time existing w1,
    store_get env renv (envelope_hash_hex xdr) w = (Ok existing, w1) /\
    match existing with
    | Some receipt =>
        if is_terminal (sr_status receipt) then x = Returned (receipt_to_result receipt) /\ w' = w1
        else resume_open env renv receipt url (envelope_hash_hex xdr) xdr timeout passphrase max_time ledger w1 = (x, w')
    | None => begin_fresh env renv url (envelope_hash_hex xdr) tx_hash source sequence xdr timeout passphrase max_time ledger w1 = (x, w')
    end.
Proof.
  unfold submit_transaction_idempotent. intros H.
  apply ended_inv in H as [(e & H & ->)|([[[[h tx_hash] source] sequence] max_time] & w1 & H1 & H)];
    [injection H as _ <-; left; exists e; split; [done|]; split; [done|apply extends_refl]|].
  injection H1 as Hp <-. assert (h = envelope_hash_hex xdr) as ->.
  { res_inv. unfold decode_and_hash_envelope in Hp1. res_inv. by repeat match goal with p : (_ * _)%type |- _ => destruct p end; res_inv. }
  clear Hp. apply ended_inv in H as [(e & H & ->)|(existing & w1 & H1 & H)].
  { left. exists e. split; [done|]. eapply silent_store_or_fail in H as E; [|apply silent_store_get]. split; [|done].
    apply store_or_fail_inv in H as [(e' & H & _)|(a & _ & [=])]. by apply store_get_inv in H as [? _]. }
  right. apply store_or_fail_inv in H1 as [(? & _ & [=])|(a & Hg & [= <-])].
  exists tx_hash, source, sequence, max_time, existing, w1. split; [done|]. destruct existing as [receipt|]; [|exact H].
  destruct (is_terminal (sr_status receipt)); [|exact H]. by injection H as <- <-.
Qed.

(** C10: An envelope with a receipt is not sent blindly.  Whatever the endpoint answers and
    whatever other processes do to the receipts between two sessions, an idempotent submission
    ends, sends at most five times and only the envelope given, signed for the network.  When the envelope
    has a receipt at the start: if it is settled the run asks and sends nothing and answers with
    it (or with an error, when the store or the envelope is refused); if it is open the run sends
    only after it asked the endpoint for the transaction that the envelope's receipt names (the one at
    the start or what other processes made of it) and was answered that it is not known.  The run panics
    only when that receipt's hash text cannot be sliced. *)
Theorem no_blind_resend url xdr timeout passphrase ledger w x w' :
  0 <= timeout -> submit_transaction_idempotent env renv url xdr timeout passphrase ledger w = (x, w') ->
  ends (receipt_seen w (envelope_hash_hex xdr)) x /\ checked_sends_of url xdr passphrase w w' /\
  forall m r0, receipts_of (nw_store w) = Some m -> m !! envelope_hash_hex xdr = Some r0 ->
    looked_up_first (receipt_seen w (envelope_hash_hex xdr)) w w' /\
    (is_terminal (sr_status r0) = true ->
       nw_trace w' = nw_trace w /\ (x = Returned (receipt_to_result r0) \/ exists e, x = Returned (Err e))).
Proof.
  intros Ht [(e & -> & Htr & E)|(tx_hash & source & sequence & max_time & existing & w1 & Hg & H)]%idempotent_begins.
  { split; [left; eauto|]. split; [by apply silent_sends|]. intros m r0 Hm Hr0. split; [by apply silent_looked|eauto]. }
  apply silent_store_get in Hg as E1. apply store_get_inv in Hg as (Htr & Hmv & Hex). destruct (Hex _ eq_refl) as (m & Hm & Hr).
  destruct existing as [receipt|].
  - assert (Hsame : forall m' r0, receipts_of (nw_store w) = Some m' -> m' !! envelope_hash_hex xdr = Some r0 -> r0 = receipt)
      by (intros m' r0 Hm' Hr0; rewrite Hm in Hm'; injection Hm' as <-; rewrite Hr in Hr0; by injection Hr0).
    destruct (is_terminal (sr_status receipt)) eqn:Et.
    + destruct H as [-> ->]. split; [left; eauto|]. split; [by apply silent_sends|]. intros m' r0 Hm' Hr0.
      rewrite (Hsame _ _ Hm' Hr0). split; [by apply silent_looked|]. intros _. split; [done|by left].
    + assert (Hseen : forall r, r = receipt \/ receipt_seen w1 (envelope_hash_hex xdr) r -> receipt_seen w (envelope_hash_hex xdr) r).
      { intros r [->|(file & m' & H1 & H2)]; [by exists (nw_store w), m|]. exists file, m'. split; [by eapply rtc_l|done]. }
      destruct (open_receipt_runs _ _ _ _ _ _ _ _ _ _ _ Ht H) as (He & Hs & Hl).
      split; [exact (ends_weaken _ _ _ Hseen He)|]. split; [by eapply sends_before|].
      intros m' r0 Hm' Hr0. rewrite (Hsame _ _ Hm' Hr0), Et. split; [exact (looked_before _ _ _ _ _ E1 Hseen Hl)|done].
  - destruct (fresh_runs _ _ _ _ _ _ _ _ _ _ _ _ _ Ht H) as [He Hs]. split; [exact (ends_weaken _ _ _ (fun _ => False_ind _) He)|]. split; [by eapply sends_before|].
    intros m' r0 Hm' Hr0. rewrite Hm in Hm'. injection Hm' as <-. by rewrite Hr in Hr0.
Qed.

(** ** A success is backed *)

(** The endpoint reported a success for the hash [text] names. *)
Definition answered_success (w w' : NetWorld File) (res : SubmissionResult) : Prop :=
  exists new hash record, nw_trace w' = new ++ nw_trace w /\ EvTransaction hash (Ok record) ∈ new /\
    tr_status record = "SUCCESS" /\ su_ledger res = default 0 (tr_ledger record) /\
    (tx_hash_bytes (su_tx_hash res) = Ok hash \/ hex_to_hash32 (su_tx_hash res) = Some (Ok hash)).

(** A receipt of the envelope, in a file the other processes made of the first, says so. *)
Definition receipt_success (w : NetWorld File) (h : string) (res : SubmissionResult) : Prop :=
  exists file m r, rtc (moved env) (nw_store w) file /\ receipts_of file = Some m /\
    m !! h = Some r /\ sr_status r = RsSuccess /\ res = MkSubmitted (sr_tx_hash r) (default 0 (sr_ledger r)) None.

Lemma answered_before w w1 w' res : extends unsent_event w w1 \/ sends_of env (fun _ _ => True) w w1 ->
  answered_success w1 w' res -> answered_success w w' res.
Proof.
  intros Hw (new & hash & record & E & H). assert (exists n, nw_trace w1 = n ++ nw_trace w) as [n En].
  { destruct Hw as [[_ (n & En & _)]|[_ (n & En & _)]]; eauto. }
  exists (new ++ n), hash, record. split; [by rewrite E, En, app_assoc|].
  destruct H as (H1 & H2). split; [apply elem_of_app; by left|done].
Qed.

Lemma receipt_to_result_Ok r res :
  receipt_to_result r = Ok res -> sr_status r = RsSuccess /\ res = MkSubmitted (sr_tx_hash r) (default 0 (sr_ledger r)) None.
Proof. unfold receipt_to_result. destruct (sr_status r); try done. by intros [= <-]. Qed.

Lemma poll_store_found polls h : forall w r w', poll_store_loop env renv polls h w = (Ok (Some r), w') ->
  exists file m, rtc (moved env) (nw_store w) file /\ receipts_of file = Some m /\ m !! h = Some r.
Proof.
  induction polls as [|polls IH]; intros w r w' H; [done|]. cbn [poll_store_loop] in H.
  apply nm_bind_inv in H as (u & w1 & Es & H). injection Es as _ <-.
  apply bind_ok_inv in H as [(? & _ & [=])|(found & w2 & H2 & H)].
  apply store_or_fail_inv in H2 as [(? & _ & [=])|(a & Hg & [= <-])]. apply store_get_inv in Hg as (_ & Hm2 & Hg).
  destruct (Hg _ eq_refl) as (m & Hm & Hf). cbn in Hm2, Hm.
  assert (Hfirst : rtc (moved env) (nw_store w) (ne_others env (nw_tick w) (nw_store w))) by (apply rtc_once; by eexists).
  assert (Hrec : poll_store_loop env renv polls h w2 = (Ok (Some r), w') ->
    exists file m, rtc (moved env) (nw_store w) file /\ receipts_of file = Some m /\ m !! h = Some r).
  { intros (file & m0 & H1 & H3)%IH. exists file, m0. split; [|done]. etransitivity; [exact Hfirst|]. by eapply rtc_l. }
  destruct found as [r0|]; [|by apply Hrec].
  destruct (is_terminal (sr_status r0)); [injection H as -> _; by eauto 10|by apply Hrec].
Qed.

Lemma retention_poll_success hash p fuel : forall after w res w',
  poll_with_retention env renv fuel hash p after w = (Returned (Ok res), w') ->
  exists new record, nw_trace w' = new ++ nw_trace w /\ EvTransaction hash (Ok record) ∈ new /\ tr_status record = "SUCCESS" /\
    res = MkSubmitted (rp_tx_hash_hex p) (default 0 (tr_ledger record)) None.
Proof.
  induction fuel as [|fuel IH]; intros after w res w' H; [done|]. cbn [poll_with_retention] in H.
  apply nm_bind_inv in H as (t & w1 & E & H). injection E as <- <-.
  destruct (_ <=? _); [by apply nm_bind_inv in H as (e & w2 & _ & H)|].
  apply nm_bind_inv in H as (a & w2 & Ea & H). apply get_transaction_within_inv in Ea.
  destruct a as [a|]; [|by apply nm_bind_inv in H as (e & w3 & _ & H)].
  assert (Hagain : forall b w3, extends unsent_event w2 w3 ->
    (_ ← sleep_before_next_poll env RETENTION_POLL_INTERVAL (rp_send_deadline p); poll_with_retention env renv fuel hash p b) w3
      = (Returned (Ok res), w') ->
    exists new record, nw_trace w' = new ++ nw_trace w /\ EvTransaction hash (Ok record) ∈ new /\ tr_status record = "SUCCESS" /\
      res = MkSubmitted (rp_tx_hash_hex p) (default 0 (tr_ledger record)) None).
  { intros b w3 [_ (n3 & E3 & _)] (u & w4 & Es & H4)%nm_bind_inv. apply silent_sleep_before in Es as [_ (n4 & E4 & _)].
    apply IH in H4 as (new & record & En & H4). exists (((new ++ n4) ++ n3) ++ [EvTransaction hash a]), record.
    split; [rewrite <- !app_assoc; cbn; by rewrite En, E4, E3, Ea|]. destruct H4. split; [rewrite !elem_of_app; auto|done]. }
  apply nm_bind_inv in H as (t & w3 & E & H). injection E as <- <-.
  destruct (_ <=? _); [by apply nm_bind_inv in H as (e & w3 & _ & H)|]. destruct a as [record|err].
  - apply nm_bind_inv in H as (y & w3 & Ey & H). apply silent_settle_record in Ey as Es.
    destruct y as [y|]; [|by eapply Hagain]. injection H as -> <-. unfold settle_record in Ey. revert Ey.
    case_bool_decide as Hs; [|case_bool_decide; [|case_bool_decide]].
    + intros (u & w4 & _ & [= <- _])%nm_bind_inv. destruct Es as [_ (n & En & _)].
      exists (n ++ [EvTransaction hash (Ok record)]), record. split; [by rewrite En, Ea, <- app_assoc|].
      split; [rewrite elem_of_app; right; by left|done].
    + by intros (u & w4 & _ & [=])%nm_bind_inv.
    + intros (c & w4 & _ & Hc)%nm_bind_inv. destruct c; [|done|done]. by apply nm_bind_inv in Hc as (u & w5 & _ & [=]).
    + done.
  - destruct (is_retryable_poll_error err); [|done]. eapply Hagain; [|exact H]. apply extends_refl.
Qed.

Lemma retention_success url xdr timeout passphrase h ledger max_time w res w' :
  submit_with_retention_poll env renv url xdr timeout passphrase h ledger max_time w = (Returned (Ok res), w') ->
  answered_success w w' res.
Proof.
  unfold submit_with_retention_poll. intros (start & w1 & E & H)%nm_bind_inv. injection E as <- <-.
  apply ended_inv in H as [(? & _ & [=])|(e & w1 & H1 & H)]. apply silent_checks_or_abandon in H1 as E1.
  apply ended_inv in H as [(? & _ & [=])|([tx_hash_hex hash] & w2 & H2 & H)]. injection H2 as Hh <-.
  apply nm_bind_inv in H as (u & w2 & Hm & H). apply silent_store_call in Hm as E2.
  apply nm_bind_inv in H as (sent & w3 & Hs & H). apply (backoff_sends env (fun _ _ => True)) in Hs; [|done].
  destruct sent as [server|err]; [|done]. destruct (negb _); [done|].
  eapply answered_before; [left; eapply extends_trans; [exact E1|exact E2]|]. eapply answered_before; [right; exact Hs|].
  apply retention_poll_success in H as (new & record & H1' & H2' & H3' & ->). exists new, hash, record.
  do 4 (split; [done|]). left. res_inv. done.
Qed.

Lemma stale_success url r h xdr timeout passphrase max_time ledger w res w' :
  handle_stale_pending env renv url r h xdr timeout passphrase max_time ledger w = (Returned (Ok res), w') ->
  answered_success w w' res.
Proof.
  unfold handle_stale_pending. intros H. destruct (_ || _); [by apply nm_bind_inv in H as (u & w1 & _ & H)|].
  destruct (hex_to_hash32 (sr_tx_hash r)) as [[hash|e]|] eqn:Eh; [|done|done].
  apply nm_bind_inv in H as (a & w1 & Ha & H). pose proof (silent_get_transaction _ _ _ _ _ Ha) as E1.
  apply get_transaction_inv in Ha as [_ Ha]. destruct a as [record|]; [|done].
  case_bool_decide as Hs; [|case_bool_decide; [|case_bool_decide]].
  - apply ended_inv in H as [(? & _ & [=])|(u & w2 & H2 & H)]. injection H as <- <-.
    apply silent_finalize_or_fail in H2 as [_ (n & En & _)].
    exists (n ++ [EvTransaction hash (Ok record)]), hash, record. split; [by rewrite En, Ha, <- app_assoc|].
    split; [rewrite elem_of_app; right; by left|]. split; [done|]. split; [done|]. by right.
  - by apply ended_inv in H as [(? & _ & [=])|(u & w2 & H2 & H)].
  - apply nm_bind_inv in H as (t & w2 & E & H). injection E as _ <-. destruct (_ && _).
    + by apply ended_inv in H as [(? & _ & [=])|(u & w2 & H2 & H)].
    + eapply answered_before; [by left|]. by eapply retention_success.
  - done.
Qed.

Lemma receipt_found w file h m r res : rtc (moved env) (nw_store w) file -> receipts_of file = Some m -> m !! h = Some r ->
  receipt_to_result r = Ok res -> receipt_success w h res.
Proof. intros Hf Hm Hr [Hs ->]%receipt_to_result_Ok. by exists file, m, r. Qed.

Lemma receipt_found_later w w1 h res : moved env (nw_store w) (nw_store w1) -> receipt_success w1 h res -> receipt_success w h res.
Proof. intros Hm (file & m & r & Hf & H). exists file, m, r. split; [by eapply rtc_l|done]. Qed.

Lemma poll_terminal_success w h r w' res :
  poll_store_for_terminal env renv h w = (Ok (Some r), w') -> receipt_to_result r = Ok res -> receipt_success w h res.
Proof.
  unfold poll_store_for_terminal. generalize LOSER_MAX_POLLS. intros polls H Hr.
  apply poll_store_found in H as (file & m & H1 & H2 & H3). by eapply receipt_found.
Qed.

Lemma wait_for_winner_Ok w h res w' : wait_for_winner env renv h w = (Ok res, w') -> receipt_success w h res.
Proof.
  unfold wait_for_winner. intros H. apply bind_ok_inv in H as [(? & _ & [=])|(found & w1 & H1 & H)].
  injection H as H _. destruct found as [r|]; [|done]. by eapply poll_terminal_success.
Qed.

Lemma open_receipt_success receipt url h xdr timeout passphrase max_time ledger w res w' :
  resume_open env renv receipt url h xdr timeout passphrase max_time ledger w = (Returned (Ok res), w') ->
  answered_success w w' res \/ receipt_success w h res.
Proof.
  unfold resume_open. intros H. apply ended_inv in H as [(? & _ & [=])|(found & w1 & H1 & H)].
  apply silent_poll_terminal in H1 as E1. destruct found as [r|].
  { injection H as H _. right. by eapply poll_terminal_success. }
  apply ended_inv in H as [(? & _ & [=])|(stale & w2 & H2 & H)]. eapply silent_store_or_fail in H2 as E2; [|apply silent_store_get].
  left. eapply answered_before; [left; eapply extends_trans; [exact E1|exact E2]|]. by eapply stale_success.
Qed.

Lemma fresh_success url h tx_hash source sequence xdr timeout passphrase max_time ledger w res w' :
  begin_fresh env renv url h tx_hash source sequence xdr timeout passphrase max_time ledger w = (Returned (Ok res), w') ->
  answered_success w w' res \/ receipt_success w h res.
Proof.
  unfold begin_fresh. intros H. apply ended_inv in H as [(? & _ & [=])|(begun & w1 & H1 & H)].
  eapply silent_store_or_fail in H1 as E1; [|apply silent_store_call]. destruct begun as [|receipt].
  { left. eapply answered_before; [by left|]. by eapply retention_success. }
  apply store_or_fail_inv in H1 as [(? & _ & [=])|(b & Hb & [= <-])]. apply store_call_inv in Hb as (e & ft & file & Eb & _ & Hm).
  apply session_Ok in Eb as (m1 & Hm1 & [[Eb ->]|(m2 & Eb & _)]); cbn beta in Eb; [|by destruct (m1 !! _)].
  right. destruct (m1 !! h) as [r|] eqn:Er; [|done]. injection Eb as ->. destruct (is_terminal (sr_status receipt)).
  - injection H as H _. by eapply receipt_found.
  - apply ended_inv in H as [(? & _ & [=])|(r & w2 & H2 & H)]. injection H as -> _. eapply receipt_found_later; [exact Hm|].
    by eapply wait_for_winner_Ok.
Qed.

(** C17: A success that is reported happened.  Whatever other processes do, an idempotent
    submission returns a success only if the endpoint reported that transaction a success during the
    run, in the ledger returned, or if a receipt of this envelope, which was there or which another
    process wrote, says so. *)
Theorem reported_success_is_backed url xdr timeout passphrase ledger w res w' :
  submit_transaction_idempotent env renv url xdr timeout passphrase ledger w = (Returned (Ok res), w') ->
  answered_success w w' res \/ receipt_success w (envelope_hash_hex xdr) res.
Proof.
  intros [(e & [=] & _)|(tx_hash & source & sequence & max_time & existing & w1 & Hg & H)]%idempotent_begins.
  apply silent_store_get in Hg as E1. apply store_get_inv in Hg as (_ & Hm1 & Hex). destruct (Hex _ eq_refl) as (m & Hm & Hr).
  assert (Hlater : answered_success w1 w' res \/ receipt_success w1 (envelope_hash_hex xdr) res ->
    answered_success w w' res \/ receipt_success w (envelope_hash_hex xdr) res)
    by (intros [Ha|Ha]; [left; eapply answered_before; [by left|done]|right; by eapply receipt_found_later]).
  destruct existing as [receipt|]; [|by eapply Hlater, fresh_success].
  destruct (is_terminal (sr_status receipt)); [|by eapply Hlater, open_receipt_success].
  destruct H as [H ->]. injection H as H. right. by eapply receipt_found.
Qed.

(** ** A success is taken back *)

(** C38: A success is called reorganised only after two misses.  When a reconciliation answers
    that a transaction recorded as a success was reorganised away, an earlier reconciliation had
    noted a miss, the endpoint does not know the transaction now, and its health, which is
    plausible and covers the ledger of the success, shows a ledger closed since that miss. *)
Theorem reorged_after_two_misses h w w' m r :
  receipts_of (nw_store w) = Some m -> m !! h = Some r -> sr_status r = RsSuccess ->
  reconcile_receipt env renv h w = (Returned (Ok RsReorged), w') ->
  exists first hash record k health,
    sr_reorg_pending_at_ledger r = Some first /\ hex_to_hash32 (sr_tx_hash r) = Some (Ok hash) /\
    nw_trace w' = EvTransaction hash (Ok record) :: nw_trace w /\ tr_status record = "NOT_FOUND" /\
    ne_health env k = Ok health /\ 0 < he_oldest_ledger health <= default 0 (sr_ledger r) /\
    default 0 (sr_ledger r) <= he_latest_ledger health /\ sat_add u32 first 1 <= he_latest_ledger health.
Proof.
  intros Hm Hr Hs. unfold reconcile_receipt. intros [(? & _ & [=])|(found & w1 & H1 & H)]%ended_inv.
  apply store_or_fail_inv in H1 as [(? & _ & [=])|(a & Hg & [= <-])]. apply store_get_inv in Hg as (Ht1 & _ & Hg).
  destruct (Hg _ eq_refl) as (m' & Hm' & Hf). rewrite Hm in Hm'. injection Hm' as <-. rewrite Hr in Hf. subst found.
  rewrite Hs in H. cbn [negb] in H. rewrite bool_decide_true in H by done. cbn [negb] in H.
  destruct (hex_to_hash32 (sr_tx_hash r)) as [[hash|e]|] eqn:Eh; [|done|done].
  apply nm_bind_inv in H as (answer & w2 & Ha & H). apply get_transaction_inv in Ha as [_ Ha]. destruct answer as [record|]; [|done].
  case_bool_decide; [by apply ended_inv in H as [(? & _ & [=])|(u & w3 & _ & [=])]|].
  case_bool_decide as Hn; [|done]. apply nm_bind_inv in H as (answer & w3 & Hh & H). injection Hh as Hh <-.
  apply ended_inv in H as [(? & _ & [=])|(s & w4 & H4 & H)]. injection H as -> <-.
  unfold reconcile_missing in H4. destruct answer as [health|]; [|done].
  destruct (negb (health_plausible health) || _ || _) eqn:Eg; [done|]. unfold health_plausible in Eg.
  destruct (sr_reorg_pending_at_ledger r) as [first|]; [|by apply bind_ok_inv in H4 as [(? & _ & [=])|(u & w5 & _ & [=])]].
  destruct (Z.leb_spec (sat_add u32 first 1) (he_latest_ledger health)) as [Hl|]; [|done].
  apply bind_ok_inv in H4 as [(? & _ & [=])|(u & w5 & H5 & H4)]. injection H4 as <-.
  apply store_or_fail_inv in H5 as [(? & _ & [=])|(b & Hb & _)]. apply store_call_inv in Hb as (e & ft & file & _ & Ht5 & _).
  exists first, hash, record, (nw_tick w2), health. split; [done|]. split; [done|]. split; [by rewrite Ht5; cbn; rewrite Ha, Ht1|].
  split; [done|]. split; [done|]. lia.
Qed.

End idempotent.
