(* ===== verification/SubmitDemo.v ===== *)
(** * Runs of a submission

    An endpoint, a signed envelope and stores, for the witnesses: a payment that is
    confirmed, and one that an earlier process left open.  Before them, an approval whose
    consent row goes to the writer of a log. *)

From S2P Require Import Prelude RustStr Json Bytes AssetId PolicyTypes Attestation Approval ApprovalWire ApprovalStore ApprovalDemo Attest AttestProps AuditEntry AuditFiles AuditWriter AuditOpen AuditDemo Receipts ReceiptsProps Keyring WindowStore WindowReconcile WindowDemo Network Submit SubmissionRecord SubmitProps SubmissionRecordProps IdempotentProps.
From stdpp Require Import options.

Local Open Scope string_scope.
Local Open Scope list_scope.
Local Open Scope Z_scope.

#[local] Existing Instances rfc4648 quick_sha2 demo_strkey.
#[local] Instance demo_file : ReceiptJson Demo := {| receipts_to_json m := m; receipts_from_json t := Ok t |}.
#[local] Instance demo_file_laws : ReceiptJsonLaws Demo := {| receipts_from_to m := eq_refl |}.

(** ** A consent row and the writer *)

#[local] Instance demo_writer_sink : ConsentAudit State :=
  writer_sink demo_stem demo_clock demo_uuid ROTATION_THRESHOLD_BYTES (fun _ => ()) (fun _ => EmptyString).

(** The disk fills up while the row is written. *)
Definition torn_entries : State := (set_outcomes (replicate 4 Fine ++ [Short 5]) (fst two_entries), snd two_entries).
Definition answer (log : State) :=
  attest_and_persist (fun _ => EmptyString) calm_attest_env charge (replicate 32 3) alice Cli None (charge_world log).

Lemma consent_row_first_witness :
  consented (profile_name alice) charge (charge_world two_entries) (fst (answer two_entries)) (snd (answer two_entries)) /\
  is_ok (fst (answer two_entries)) = true /\
  consented (profile_name alice) charge (charge_world torn_entries) (fst (answer torn_entries)) (snd (answer torn_entries)) /\
  is_ok (fst (answer torn_entries)) = false /\
  len (held_content (fst (w_log (snd (answer torn_entries)))) 0) = len (held_content (fst two_entries) 0) + 5.
Proof.
  split; [|split; [vm_compute; reflexivity|split; [|split; vm_compute; reflexivity]]].
  - apply (consent_row_first (fun _ => EmptyString) calm_attest_env charge (replicate 32 3) alice Cli None
      (charge_world two_entries) (fst (answer two_entries)) (snd (answer two_entries))).
    exact (surjective_pairing (answer two_entries)).
  - apply (consent_row_first (fun _ => EmptyString) calm_attest_env charge (replicate 32 3) alice Cli None
      (charge_world torn_entries) (fst (answer torn_entries)) (snd (answer torn_entries))). exact (surjective_pairing (answer torn_entries)).
Defined.

(** ** The envelope *)

Definition sender : string := String "G" (letters 31 "A").
Definition sender_key : list Z := bytes_of sender.
Definition demo_tx : Transaction := MkTransaction (MuxEd25519 sender_key) 7 PreNone [MkOperation None (OtherBody [1])] [].

(** A signature names its key and what it signs. *)
#[local] Instance demo_verify : Ed25519Verify := {| dalek_verify_strict key h s := bool_decide (s = key ++ h) |}.
Definition signed_hash : list Z := Eval vm_compute in sha256 (network_id TESTNET_PASSPHRASE ++ [7; 1]).
Definition demo_envelope : TransactionEnvelope := EnvTx demo_tx [MkDecorated (drop 28 sender_key) (sender_key ++ signed_hash)].

#[local] Instance demo_xdr : Xdr := {|
  envelope_from_xdr b := if bool_decide (b = [9]) then Ok demo_envelope else Err "invalid";
  envelope_from_xdr_base64 s := if bool_decide (s = "CQ==") then Ok demo_envelope else Err "invalid";
  payload_to_xdr id tagged := match tagged with TaggedTx tx => Ok (id ++ [tx_seq_num tx; 1]) | TaggedFeeBump _ => Err "invalid" end;
  ledger_entry_from_xdr_base64 s := if bool_decide (s = "acct") then Ok (LeAccount sender_key []) else Err "invalid";
  base64_standard_decode s := if bool_decide (s = "CQ==") then Ok [9] else Err "invalid";
|}.

Definition demo_url : string := "https://soroban-testnet.stellar.org".

(** An endpoint that answers at once; [send] and [status] by await. *)
Definition demo_net {S} (others : nat -> S -> S) (send : nat -> result RpcError (list Z)) (status : nat -> string) : NetEnv S :=
  MkNetEnv S (fun _ => 0) (fun _ => 0) others (fun _ => 0) (fun _ => 0) (fun _ => 1000)
    (fun _ => Ok (TESTNET_PASSPHRASE, 29)) (fun _ _ => Ok (Some ["acct"], 50))
    (fun k _ => send k) (fun k _ => Ok (MkTxRecord (status k) (Some 51) (Some 1100) None))
    (fun _ => Ok (MkHealth 60 1)).

(** ** With the wallet's recorder *)

Abbreviation DemoStores := (Stores Demo (list PendingApprovalOnDisk)).
Definition demo_wallet : WalletSubmissionRecorder unit :=
  MkWalletRecorder unit None WindowDemo.demo_profile "a" "pay" None AuditAllow [] [demo_pay_entry 400] None "r1" 1000000 true None false.
Definition demo_recorder_env : RecorderEnv (list PendingApprovalOnDisk) :=
  MkRecorderEnv _ (fun _ => demo_env) (fun _ => None) (fun _ => demo_calm) (fun _ => false) (fun _ => demo_clock 5)
    (fun _ => calm_env) (fun _ f => f) None.
Definition demo_recorder (net : NetEnv DemoStores) : SubmissionRecorder DemoStores :=
  wallet_recorder (fun _ => ()) demo_stem demo_clock demo_uuid ROTATION_THRESHOLD_BYTES demo_wallet net (fun _ => demo_recorder_env).

(** No receipt, an empty window and an audit log of two entries. *)
Definition demo_stores : DemoStores := MkStores None demo_empty (Some two_entries) None [].
Definition demo_start : NetWorld DemoStores := MkNet 0 0 demo_stores [].

Definition demo_submit (net : NetEnv DemoStores) : Ended SubmissionResult * NetWorld DemoStores :=
  submit_transaction_and_wait net demo_url "CQ==" (30 * secs) TESTNET_PASSPHRASE None (Some (demo_recorder net)) demo_start.

Definition calm_net : NetEnv DemoStores := demo_net (fun _ s => s) (fun _ => Ok signed_hash) (fun _ => "SUCCESS").

Definition returned_ok {A} (x : Ended A) : bool := match x with Returned (Ok _) => true | _ => false end.

Lemma sent_only_when_recorded_witness : exists r w', demo_submit calm_net = (r, w') /\ returned_ok r = true /\
  (exists x, r = Returned x) /\
  exists new, nw_trace w' = new ++ [] /\ (length (sent_stores new) <= 5)%nat /\ sent_stores new <> [] /\
    (sent_stores new = [] \/ exists e i s0,
       envelope_from_xdr_base64 "CQ==" = Ok e /\ TESTNET_PASSPHRASE <> MAINNET_PASSPHRASE /\ bound_to TESTNET_PASSPHRASE e /\
       in_envelope_hash i = envelope_hash_hex "CQ==" /\ compute_local_tx_hash_hex e TESTNET_PASSPHRASE = Ok (in_tx_hash i) /\
       last (sent_stores new) = Some s0 /\
       recorded (fun _ => ()) demo_stem demo_clock demo_uuid ROTATION_THRESHOLD_BYTES demo_wallet i s0 /\
       forall e' s, EvSent e' s ∈ new -> e' = e /\ rtc (moved calm_net) s0 s).
Proof.
  exists (fst (demo_submit calm_net)), (snd (demo_submit calm_net)). split; [apply surjective_pairing|].
  split; [vm_cast_no_check (eq_refl true)|].
  assert (Hs : length (sent_stores (nw_trace (snd (demo_submit calm_net)))) = 1%nat) by (vm_cast_no_check (eq_refl 1%nat)).
  destruct (sent_only_when_recorded (fun _ => ()) demo_stem demo_clock demo_uuid ROTATION_THRESHOLD_BYTES demo_wallet calm_net
    (fun _ => demo_recorder_env) demo_url "CQ==" (30 * secs) TESTNET_PASSPHRASE None demo_start (fst (demo_submit calm_net))
    (snd (demo_submit calm_net))) as [H1 (new & H2 & H3 & H4)].
  - by vm_compute.
  - apply (surjective_pairing (demo_submit calm_net)).
  - split; [exact H1|]. exists new. split; [exact H2|]. split; [exact H3|]. split; [|exact H4].
    intros E. rewrite H2, sent_stores_app, E in Hs. discriminate Hs.
Defined.

Lemma outcome_is_justified_witness : exists x w', demo_submit calm_net = (Returned x, w') /\ is_ok x = true /\
  (extends unsent_event demo_start w' /\ is_ok x = false \/
   exists e i hash ledger w0,
     envelope_from_xdr_base64 "CQ==" = Ok e /\ prepare_intent e "CQ==" TESTNET_PASSPHRASE ledger = Ok (i, hash) /\
     extends unsent_event demo_start w0 /\ told calm_net (demo_recorder calm_net) e hash i None (30 * secs / secs) w0 w' x).
Proof.
  assert (Hr : returned_ok (fst (demo_submit calm_net)) = true) by (vm_cast_no_check (eq_refl true)).
  destruct (demo_submit calm_net) as [[[res|err]| |] w'] eqn:E; try discriminate Hr.
  exists (Ok res), w'. split; [reflexivity|]. split; [reflexivity|].
  apply (outcome_is_justified calm_net demo_url "CQ==" (30 * secs) TESTNET_PASSPHRASE None (demo_recorder calm_net) demo_start (Ok res) w');
    [apply wallet_silent|exact E].
Defined.

(** A request that is lost, and the verdict on the one sent again: the record says that
    the transaction failed and its spending is released, although the first may have arrived. *)
Definition lossy_net : NetEnv DemoStores :=
  demo_net (fun _ s => s)
    (fun k => if Nat.eqb k 2 then Err (JsonRpc (CeTransport None)) else Err (TransactionSubmissionFailed "tx_bad_seq"))
    (fun _ => "SUCCESS").

Definition status_of (h : string) (s : DemoStores) : option ReceiptStatus :=
  m ← receipts_of (sto_receipts s); sr_status <$> (m !! h).

Lemma refusal_after_lost_send :
  let '(r, w') := demo_submit lossy_net in
  (length (sent_stores (nw_trace w')), status_of (envelope_hash_hex "CQ==") (nw_store w'),
   match r with Returned (Err e) => wallet_code e | _ => EmptyString end)
  = (2%nat, Some (RsFailed "submission.tx_malformed"), "submission.tx_malformed").
Proof. vm_compute. reflexivity. Qed.

(** ** With a receipt of its own *)

Definition demo_receipt_env : ReceiptEnv := MkReceiptEnv (fun _ => demo_env) (fun _ => None).
Definition demo_key_text : string := Eval vm_compute in envelope_hash_hex "CQ==".

(** An earlier process began and is gone; the endpoint does not know the
    transaction until it is sent again. *)
Definition left_open : option Demo :=
  Some {[demo_key_text := pending_receipt demo_key_text (Bytes.encode signed_hash) sender 7 0 50 None]}.
Definition resume_net : NetEnv (option Demo) :=
  demo_net (fun _ f => f) (fun _ => Ok signed_hash) (fun k => if Nat.ltb k 250 then "NOT_FOUND" else "SUCCESS").
Definition resume_start : NetWorld (option Demo) := MkNet 0 0 left_open [].
Definition demo_resume : Ended SubmissionResult * NetWorld (option Demo) :=
  submit_transaction_idempotent resume_net demo_receipt_env demo_url "CQ==" (30 * secs) TESTNET_PASSPHRASE 50 resume_start.

Lemma no_blind_resend_witness : exists x w', demo_resume = (x, w') /\ length (sent_stores (nw_trace w')) = 1%nat /\
  ends (receipt_seen resume_net resume_start (envelope_hash_hex "CQ==")) x /\ sends_of resume_net (fun e _ => checked_envelope demo_url "CQ==" TESTNET_PASSPHRASE e) resume_start w' /\
  forall m r0, receipts_of (nw_store resume_start) = Some m -> m !! envelope_hash_hex "CQ==" = Some r0 ->
    looked_up_first (receipt_seen resume_net resume_start (envelope_hash_hex "CQ==")) resume_start w' /\
    (is_terminal (sr_status r0) = true ->
       nw_trace w' = nw_trace resume_start /\ (x = Returned (receipt_to_result r0) \/ exists e, x = Returned (Err e))).
Proof.
  exists (fst demo_resume), (snd demo_resume). split; [apply surjective_pairing|]. split; [vm_cast_no_check (eq_refl 1%nat)|].
  apply (no_blind_resend resume_net demo_receipt_env demo_url "CQ==" (30 * secs) TESTNET_PASSPHRASE 50 resume_start
    (fst demo_resume) (snd demo_resume)); [by vm_compute|apply (surjective_pairing demo_resume)].
Defined.

Lemma reported_success_is_backed_witness : exists res w', demo_resume = (Returned (Ok res), w') /\
  (answered_success resume_start w' res \/ receipt_success resume_net resume_start (envelope_hash_hex "CQ==") res).
Proof.
  assert (Hr : returned_ok (fst demo_resume) = true) by (vm_cast_no_check (eq_refl true)).
  destruct demo_resume as [[[res|err]| |] w'] eqn:E; try discriminate Hr. exists res, w'. split; [reflexivity|].
  apply (reported_success_is_backed resume_net demo_receipt_env demo_url "CQ==" (30 * secs) TESTNET_PASSPHRASE 50 resume_start res w').
  exact E.
Defined.

(** ** A success that is taken back *)

(** The first miss was at ledger 55. *)
Definition missed_receipt : SubmissionReceipt :=
  MkReceipt demo_key_text (Bytes.encode signed_hash) sender 7 RsSuccess (Some 51) 50 0 None (Some 55) true None false false None.
Definition missed_start : NetWorld (option Demo) := MkNet 0 0 (Some {[demo_key_text := missed_receipt]}) [].
Definition missing_net : NetEnv (option Demo) := demo_net (fun _ f => f) (fun _ => Ok signed_hash) (fun _ => "NOT_FOUND").
Definition demo_reconcile : Ended ReceiptStatus * NetWorld (option Demo) :=
  reconcile_receipt missing_net demo_receipt_env demo_key_text missed_start.

Lemma reorged_after_two_misses_witness :
  exists w', demo_reconcile = (Returned (Ok RsReorged), w') /\
  exists first hash record k health,
    sr_reorg_pending_at_ledger missed_receipt = Some first /\ hex_to_hash32 (sr_tx_hash missed_receipt) = Some (Ok hash) /\
    nw_trace w' = EvTransaction hash (Ok record) :: nw_trace missed_start /\ tr_status record = "NOT_FOUND" /\
    ne_health missing_net k = Ok health /\ 0 < he_oldest_ledger health <= default 0 (sr_ledger missed_receipt) /\
    default 0 (sr_ledger missed_receipt) <= he_latest_ledger health /\ sat_add u32 first 1 <= he_latest_ledger health.
Proof.
  assert (Hf : fst demo_reconcile = Returned (Ok RsReorged)) by (vm_cast_no_check (eq_refl (Returned (Ok RsReorged)))).
  destruct demo_reconcile as [x w'] eqn:E. cbn [fst] in Hf. subst x. exists w'. split; [reflexivity|].
  apply (reorged_after_two_misses missing_net demo_receipt_env demo_key_text missed_start w'
    {[demo_key_text := missed_receipt]} missed_receipt); [reflexivity|apply lookup_singleton_eq|reflexivity|exact E].
Defined.

(** ** A mark that is lost *)

(** The disk is full when the receipt is to be marked. *)
Definition full_disk (full : bool) : ReceiptEnv :=
  MkReceiptEnv (fun _ => demo_env) (fun k => if full && (3 <? Z.of_nat k) then Some (false, OtherIo 28) else None).
(** The requests are answered by nobody; later another network answers. *)
Definition silent_net : NetEnv (option Demo) :=
  demo_net (fun _ f => f) (fun _ => Err (JsonRpc (CeTransport None))) (fun _ => "NOT_FOUND").
Definition other_net : NetEnv (option Demo) :=
  MkNetEnv _ (fun _ => 0) (fun _ => 0) (fun _ f => f) (fun _ => 0) (fun _ => 0) (fun _ => 1000)
    (fun _ => Ok ("Standalone Network ; February 2017", 29)) (fun _ _ => Ok (Some ["acct"], 50))
    (fun _ _ => Ok signed_hash) (fun _ _ => Ok (MkTxRecord "NOT_FOUND" None None None)) (fun _ => Ok (MkHealth 60 1)).

Definition first_run (full : bool) : NetWorld (option Demo) :=
  snd (submit_transaction_idempotent silent_net (full_disk full) demo_url "CQ==" (30 * secs) TESTNET_PASSPHRASE 50 (MkNet 0 0 None [])).
Definition second_run (full : bool) : NetWorld (option Demo) :=
  snd (submit_transaction_idempotent other_net demo_receipt_env demo_url "CQ==" (30 * secs) TESTNET_PASSPHRASE 50
    (MkNet 0 0 (nw_store (first_run full)) [])).
Definition receipt_status (file : option Demo) : option ReceiptStatus :=
  m ← receipts_of file; sr_status <$> (m !! envelope_hash_hex "CQ==").

(** A receipt of a sent envelope can be withdrawn.  When the write that marks the receipt as
    sent fails, the envelope is sent all the same; the receipt on disk still says that it was not, and
    the next run, refused before its send by an endpoint of another network, removes it.  With
    the mark written the same two runs keep it. *)
Example unmarked_receipt_is_withdrawn :
  (forall full, length (sent_stores (nw_trace (first_run full))) = 5%nat /\
     receipt_status (nw_store (first_run full)) = Some RsPending) /\
  receipt_status (nw_store (second_run true)) = None /\ receipt_status (nw_store (second_run false)) = Some RsPending.
Proof. split; [intros []|]; (split; vm_compute; reflexivity). Qed.
