(* ===== verification/Mpp.v ===== *)
(** * Machine payments: records (stellar-agent-mpp, [error.rs], [limits.rs], [context.rs], [sponsored.rs], [state.rs])

    A charge is prepared from a payment challenge bound to its request, kept as a
    record with a lifecycle, and authorized at most once.  This file has the errors, the
    request contexts, the stored artifact with its checks, and the record with its state
    machine.  The URL crate, XDR and the canonical JSON of a context are classes. *)

From S2P Require Import Prelude RustStr Json Bytes Value.
From stdpp Require Import options.

Local Open Scope string_scope.
Local Open Scope list_scope.
Local Open Scope Z_scope.

(** ** Errors *)

Inductive MppErrorCode :=
| InputTooLarge | ChallengeInvalid | ChallengeAmbiguous | ChallengeExpired | ChallengeMismatch | UnsupportedMethod
| UnsupportedIntent | UnsupportedMode | NetworkForbidden | ApprovalRequired | ApprovalInvalid | AuthorizationNotFound
| AuthorizationReplayed | AuthorizationIndeterminate | StateUnavailable | SimulationFailed | SigningFailed
| CredentialTooLarge | ReceiptInvalid | ReceiptConflict | ReconciliationUnavailable.

Definition mpp_code_str (c : MppErrorCode) : string :=
  match c with
  | InputTooLarge => "mpp.input_too_large"
  | ChallengeInvalid => "mpp.challenge_invalid"
  | ChallengeAmbiguous => "mpp.challenge_ambiguous"
  | ChallengeExpired => "mpp.challenge_expired"
  | ChallengeMismatch => "mpp.challenge_mismatch"
  | UnsupportedMethod => "mpp.unsupported_method"
  | UnsupportedIntent => "mpp.unsupported_intent"
  | UnsupportedMode => "mpp.unsupported_mode"
  | NetworkForbidden => "mpp.network_forbidden"
  | ApprovalRequired => "mpp.approval_required"
  | ApprovalInvalid => "mpp.approval_invalid"
  | AuthorizationNotFound => "mpp.authorization_not_found"
  | AuthorizationReplayed => "mpp.authorization_replayed"
  | AuthorizationIndeterminate => "mpp.authorization_indeterminate"
  | StateUnavailable => "mpp.state_unavailable"
  | SimulationFailed => "mpp.simulation_failed"
  | SigningFailed => "mpp.signing_failed"
  | CredentialTooLarge => "mpp.credential_too_large"
  | ReceiptInvalid => "mpp.receipt_invalid"
  | ReceiptConflict => "mpp.receipt_conflict"
  | ReconciliationUnavailable => "mpp.reconciliation_unavailable"
  end.

Record MppError := MkMppError { mpp_error_code : string; mpp_error_message : string }.
Definition mpp_error (c : MppErrorCode) (message : string) : MppError := MkMppError (mpp_code_str c) message.

Definition authorization_not_found : MppError :=
  mpp_error AuthorizationNotFound "no MPP authorization matches the supplied identifier".
Definition state_error : MppError := mpp_error StateUnavailable "MPP authorization state is unavailable".
Definition replay_error : MppError := mpp_error AuthorizationReplayed "MPP authorization has already been consumed".
Definition simulation_error : MppError :=
  mpp_error SimulationFailed "sponsored transaction simulation failed validation".
Definition context_error (message : string) : MppError := mpp_error ChallengeMismatch message.

Definition MAX_FIELD_BYTES : Z := 512.
Definition MAX_XDR_BYTES : Z := 128 * 1024.
Definition MIN_CHALLENGE_LIFETIME_SECS : Z := 30.

(** ** Request contexts *)

Record ParsedUrl := MkUrl {
  url_scheme : string;
  url_host : option string;
  url_username : string;
  url_password : option string;
  url_path : string;
  url_query : option string;
  url_fragment : option string;
  url_origin : string;
  url_text : string;
}.

(** [Url::parse], and a URL printed without query and fragment. *)
Class UrlCrate := { parse_url : string -> option ParsedUrl; url_stripped : ParsedUrl -> string }.

Record HttpRequestContext := MkHttp {
  http_origin : string;
  http_method : string;
  canonical_resource : string;
  content_digest : option string;
  idempotency_key_hash : option string;
}.
Global Instance HttpRequestContext_eq_dec : EqDecision HttpRequestContext.
Proof. solve_decision. Defined.

Inductive McpOperationKind := OpTool | OpResource | OpPrompt.
Record McpRequestContext := MkMcp {
  server_identity : string;
  mcp_operation : McpOperationKind;
  mcp_target : string;
  params_digest : string;
}.

Inductive RequestContext := CtxHttp (c : HttpRequestContext) | CtxMcp (c : McpRequestContext).

Definition is_token_byte (a : ascii) : bool :=
  is_ascii_alphanumeric a || existsb (fun c => bool_decide (a = c)) (String.list_ascii_of_string "!#$%&'*+-.^_`|~").

Definition ascii_upper (a : ascii) : ascii :=
  if is_ascii_lower a then Ascii.ascii_of_N (Z.to_N (byte_val a - 32)) else a.
Definition to_ascii_uppercase : string -> string := str_map ascii_upper.

Definition normalize_http_method (value : string) : result MppError string :=
  if is_empty value || (MAX_FIELD_BYTES <? len value) || negb (str_all is_token_byte value)
     || eq_ignore_ascii_case value "TRACE" || eq_ignore_ascii_case value "CONNECT"
  then Err (context_error "unsupported HTTP method")
  else Ok (to_ascii_uppercase value).

Definition is_base64_byte (a : ascii) : bool :=
  is_ascii_alphanumeric a || bool_decide (a = "+"%char) || bool_decide (a = "/"%char) || bool_decide (a = "="%char).

Definition validate_content_digest (value : string) : result MppError string :=
  match strip_prefix "sha-256=" value with
  | None => Err (context_error "invalid content digest")
  | Some encoded =>
      if is_empty encoded || (MAX_FIELD_BYTES <? len encoded) || negb (str_all is_base64_byte encoded)
      then Err (context_error "invalid content digest")
      else Ok value
  end.

Definition is_hex_byte (a : ascii) : bool := is_ascii_digit a || byte_in 97 102 a.

Definition validate_hex_digest (value : string) : result MppError string :=
  if negb (len value =? 64) || negb (str_all is_hex_byte value)
  then Err (context_error "invalid idempotency-key digest")
  else Ok value.

Definition is_control_byte (a : ascii) : bool := byte_in 0 31 a || byte_in 127 127 a.

Definition validate_field (value : string) : result MppError unit :=
  if is_empty value || (MAX_FIELD_BYTES <? len value) || negb (str_all (fun a => negb (is_control_byte a)) value)
  then Err (context_error "invalid MCP request context")
  else Ok ().

Definition transpose_res {A B E} (f : A -> result E B) (o : option A) : result E (option B) :=
  match o with None => Ok None | Some a => b ← f a; Ok (Some b) end.

Section context.
Context `{U : !UrlCrate}.

Definition parse_https_url (value : string) : result MppError ParsedUrl :=
  url ← ok_or (context_error "invalid HTTPS URL") (parse_url value);
  if negb (bool_decide (url_scheme url = "https")) || negb (bool_decide (is_Some (url_host url)))
     || negb (is_empty (url_username url)) || bool_decide (is_Some (url_password url))
  then Err (context_error "invalid HTTPS URL")
  else Ok url.

Definition http_context_new (origin method resource : string) (digest key_hash : option string)
  : result MppError HttpRequestContext :=
  origin_url ← parse_https_url origin;
  if negb (bool_decide (url_path origin_url = "/")) || bool_decide (is_Some (url_query origin_url))
     || bool_decide (is_Some (url_fragment origin_url))
  then Err (context_error "origin must not contain a resource path")
  else
    resource_url ← parse_https_url resource;
    if negb (bool_decide (url_origin origin_url = url_origin resource_url)) || bool_decide (is_Some (url_fragment resource_url))
    then Err (context_error "resource must match the HTTPS origin")
    else
      method ← normalize_http_method method;
      digest ← transpose_res validate_content_digest digest;
      key_hash ← transpose_res validate_hex_digest key_hash;
      Ok (MkHttp (url_origin origin_url) method (url_text resource_url) digest key_hash).

Definition http_validate (c : HttpRequestContext) : result MppError unit :=
  normalized ← http_context_new (http_origin c) (http_method c) (canonical_resource c) (content_digest c) (idempotency_key_hash c);
  if bool_decide (normalized = c) then Ok () else Err (context_error "HTTP request context is not canonical").

Definition mcp_validate (c : McpRequestContext) : result MppError unit :=
  _ ← validate_field (server_identity c);
  _ ← validate_field (mcp_target c);
  _ ← validate_hex_digest (params_digest c);
  Ok ().

Definition context_validate (c : RequestContext) : result MppError unit :=
  match c with CtxHttp c => http_validate c | CtxMcp c => mcp_validate c end.

(** What an operator is shown: the query stays hidden. *)
Definition display_resource (c : HttpRequestContext) : string :=
  match parse_url (canonical_resource c) with Some url => url_stripped url | None => http_origin c end.

Definition context_terms (c : RequestContext) : string * string * string :=
  match c with
  | CtxHttp c => ("http", http_origin c, display_resource c)
  | CtxMcp c => ("mcp", server_identity c, mcp_target c)
  end.
End context.

(** ** The selected challenge and the stored artifact *)

Record StellarChargeRequest := MkCharge {
  ch_amount : Z;
  ch_amount_decimal : string;
  ch_currency : string;
  ch_recipient : string;
  ch_rest : string;
}.

(** [sc_echo_rest], [ch_rest]: fields nothing here looks at. *)
Record SelectedChallenge := MkSelected {
  sc_echo_id : option string;
  sc_echo_rest : string;
  sc_request : StellarChargeRequest;
  sc_context : RequestContext;
  sc_effective_expires_at : Z;
  sc_challenge_digest : list Z;
}.

Definition mpp_value_effects (s : SelectedChallenge) : ValueEffects :=
  MkEffects [MkLeg MppCharge (Some (ch_amount (sc_request s))) (Some (ch_currency (sc_request s)))
               (Some (ch_recipient (sc_request s)))].

Inductive ScAddress := ScAccount (key : list Z) | ScContract (h : list Z) | ScOther (xdr : list Z).
Global Instance ScAddress_eq_dec : EqDecision ScAddress.
Proof. solve_decision. Defined.

(** [ScVal]: the kinds that are looked at, the others by their XDR. *)
Inductive ScVal :=
| SvVoid
| SvBytes (b : list Z)
| SvSymbol (s : string)
| SvAddress (a : ScAddress)
| SvI128 (z : Z)
| SvVec (l : option (list ScVal))
| SvMap (l : option (list (ScVal * ScVal)))
| SvOther (xdr : list Z).
Global Instance ScVal_eq_dec : EqDecision ScVal.
Proof.
  refine (fix go (a b : ScVal) : Decision (a = b) :=
    match a, b with
    | SvVoid, SvVoid => left _
    | SvBytes x, SvBytes y => cast_if (decide (x = y))
    | SvSymbol x, SvSymbol y => cast_if (decide (x = y))
    | SvAddress x, SvAddress y => cast_if (decide (x = y))
    | SvI128 x, SvI128 y => cast_if (decide (x = y))
    | SvVec x, SvVec y => cast_if (@option_eq_dec _ (@list_eq_dec _ go) x y)
    | SvMap x, SvMap y => cast_if (@option_eq_dec _ (@list_eq_dec _ (@prod_eq_dec _ go _ go)) x y)
    | SvOther x, SvOther y => cast_if (decide (x = y))
    | _, _ => right _
    end); clear go; congruence.
Defined.

Record InvokeContractArgs := MkInvoke { inv_contract_address : ScAddress; inv_function_name : string; inv_args : list ScVal }.
Inductive AuthorizedFunction := ContractFn (i : InvokeContractArgs) | OtherFn (xdr : list Z).
Record AddressCredentials := MkCredentials {
  cr_address : ScAddress;
  cr_nonce : Z;
  cr_signature_expiration_ledger : Z;
  cr_signature : ScVal;
}.
Inductive SorobanCredentials := CredAddress (c : AddressCredentials) | CredOther (xdr : list Z).
Record AuthorizedInvocation := MkInvocation { ai_function : AuthorizedFunction; ai_sub_invocations : list (list Z) }.
Record SorobanAuthorizationEntry := MkAuth { au_credentials : SorobanCredentials; au_root_invocation : AuthorizedInvocation }.
Global Instance InvokeContractArgs_eq_dec : EqDecision InvokeContractArgs.
Proof. solve_decision. Defined.
Global Instance AuthorizedFunction_eq_dec : EqDecision AuthorizedFunction.
Proof. solve_decision. Defined.
Global Instance AddressCredentials_eq_dec : EqDecision AddressCredentials.
Proof. solve_decision. Defined.
Global Instance SorobanCredentials_eq_dec : EqDecision SorobanCredentials.
Proof. solve_decision. Defined.
Global Instance AuthorizedInvocation_eq_dec : EqDecision AuthorizedInvocation.
Proof. solve_decision. Defined.
Global Instance SorobanAuthorizationEntry_eq_dec : EqDecision SorobanAuthorizationEntry.
Proof. solve_decision. Defined.

Class SponsoredXdr := {
  invoke_to_xdr : InvokeContractArgs -> result string (list Z);
  invoke_to_base64 : InvokeContractArgs -> result string string;
  invoke_from_base64 : string -> result string InvokeContractArgs;
  auth_to_xdr : SorobanAuthorizationEntry -> result string (list Z);
  auth_to_base64 : SorobanAuthorizationEntry -> result string string;
  auth_from_base64 : string -> result string SorobanAuthorizationEntry;
}.

Record PreparedSponsoredCharge := MkPrepared {
  pc_selected : SelectedChallenge;
  pc_payer : string;
  pc_invoke : InvokeContractArgs;
  pc_auth_entry : SorobanAuthorizationEntry;
  pc_latest_ledger : Z;
  pc_simulated_fee_stroops : Z;
  pc_artifact_hash : list Z;
}.
Record StoredPreparedCharge := MkStored {
  sp_selected : SelectedChallenge;
  sp_payer : string;
  sp_invoke_xdr : string;
  sp_auth_entry_xdr : string;
  sp_latest_ledger : Z;
  sp_simulated_fee_stroops : Z;
  sp_artifact_hash : list Z;
}.

(** [update] of [state.rs] and [update_length_prefixed]: eight bytes of length. *)
Definition length_prefixed (l : list Z) : list Z := be_bytes 8 (default (hi u64) (checked u64 (count l))) ++ l.

(** Canonical JSON of a context ([serde_json], [json.rs]). *)
Class ContextJson := { context_json : RequestContext -> result MppError (list Z) }.

Section artifact.
Context `{S2 : !Sha2, SK : !Strkey, U : !UrlCrate, SX : !SponsoredXdr, CJ : !ContextJson}.

Definition payer_sc_address (value : string) : result MppError ScAddress :=
  map_err (fun _ => mpp_error ChallengeInvalid "MPP payer must be a classic account")
    (key ← public_key_from_string value; Ok (ScAccount key)).

Definition validate_auth_entry (entry : SorobanAuthorizationEntry) (payer : ScAddress) (invoke : InvokeContractArgs)
  : result MppError unit :=
  match au_credentials entry with
  | CredOther _ => Err simulation_error
  | CredAddress c =>
      if negb (bool_decide (cr_address c = payer)) || negb (cr_signature_expiration_ledger c =? 0)
         || negb (bool_decide (cr_signature c = SvVoid)) || negb (bool_decide (ai_sub_invocations (au_root_invocation entry) = []))
         || negb (bool_decide (ai_function (au_root_invocation entry) = ContractFn invoke))
      then Err simulation_error
      else Ok ()
  end.

Definition prepared_artifact_hash (s : SelectedChallenge) (payer : string) (invoke : InvokeContractArgs)
    (auth : SorobanAuthorizationEntry) (latest_ledger simulated_fee_stroops : Z) : result MppError (list Z) :=
  invoke_xdr ← map_err (fun _ => simulation_error) (invoke_to_xdr invoke);
  auth_xdr ← map_err (fun _ => simulation_error) (auth_to_xdr auth);
  Ok (sha256 (as_bytes "stellar-agent-mpp-prepared:v1" ++ [0] ++ length_prefixed (sc_challenge_digest s)
              ++ length_prefixed (as_bytes payer) ++ length_prefixed invoke_xdr ++ length_prefixed auth_xdr
              ++ length_prefixed (be_bytes 4 latest_ledger) ++ length_prefixed (be_bytes 4 simulated_fee_stroops))).

Definition to_stored (p : PreparedSponsoredCharge) : result MppError StoredPreparedCharge :=
  invoke_xdr ← map_err (fun _ => simulation_error) (invoke_to_base64 (pc_invoke p));
  auth_entry_xdr ← map_err (fun _ => simulation_error) (auth_to_base64 (pc_auth_entry p));
  Ok (MkStored (pc_selected p) (pc_payer p) invoke_xdr auth_entry_xdr (pc_latest_ledger p) (pc_simulated_fee_stroops p)
        (pc_artifact_hash p)).

Definition from_stored (s : StoredPreparedCharge) : result MppError PreparedSponsoredCharge :=
  if (sat_mul u64 MAX_XDR_BYTES 2 <? len (sp_invoke_xdr s)) || (sat_mul u64 MAX_XDR_BYTES 2 <? len (sp_auth_entry_xdr s))
  then Err simulation_error
  else
    _ ← context_validate (sc_context (sp_selected s));
    invoke ← map_err (fun _ => simulation_error) (invoke_from_base64 (sp_invoke_xdr s));
    auth_entry ← map_err (fun _ => simulation_error) (auth_from_base64 (sp_auth_entry_xdr s));
    payer ← payer_sc_address (sp_payer s);
    _ ← validate_auth_entry auth_entry payer invoke;
    expected ← prepared_artifact_hash (sp_selected s) (sp_payer s) invoke auth_entry (sp_latest_ledger s)
                 (sp_simulated_fee_stroops s);
    if negb (bool_decide (expected = sp_artifact_hash s)) then Err simulation_error
    else Ok (MkPrepared (sp_selected s) (sp_payer s) invoke auth_entry (sp_latest_ledger s) (sp_simulated_fee_stroops s)
               (sp_artifact_hash s)).

Definition context_digest (c : RequestContext) : result MppError (list Z) :=
  _ ← context_validate c;
  bytes ← context_json c;
  Ok (sha256 (as_bytes "stellar-agent-mpp-context:v1" ++ [0] ++ bytes)).

(** Profile, network, payer, request, challenge, terms and expiry. *)
Definition fingerprint_input (profile_name network_passphrase payer : string) (context challenge : list Z)
    (amount currency recipient : string) (expires_at : Z) : list Z :=
  as_bytes "stellar-agent-mpp-authorization:v1" ++ [0] ++ length_prefixed (as_bytes profile_name)
  ++ length_prefixed (sha256 (as_bytes network_passphrase)) ++ length_prefixed (as_bytes payer) ++ length_prefixed context
  ++ length_prefixed challenge ++ length_prefixed (as_bytes "stellar") ++ length_prefixed (as_bytes "charge")
  ++ length_prefixed (as_bytes "sponsored_pull") ++ length_prefixed (as_bytes amount) ++ length_prefixed (as_bytes currency)
  ++ length_prefixed (as_bytes recipient) ++ length_prefixed (be_bytes 8 (wrap_u 64 expires_at)).

Definition authorization_fingerprint (profile_name network_passphrase payer : string) (s : SelectedChallenge)
  : result MppError (list Z) :=
  context ← context_digest (sc_context s);
  let r := sc_request s in
  Ok (sha256 (fingerprint_input profile_name network_passphrase payer context (sc_challenge_digest s) (ch_amount_decimal r)
                (ch_currency r) (ch_recipient r) (sc_effective_expires_at s))).

(** ** The record and its states *)

Inductive AuthorizationStatus :=
| StPrepared | StApprovalPending | StReady | StAuthorizing | StDeliveryPending | StAuthorized | StAuthorizedWithheld
| StReceiptObserved | StSettled | StFailed | StRefused | StExpiredUnresolved | StIndeterminate.

Global Instance AuthorizationStatus_eq_dec : EqDecision AuthorizationStatus.
Proof. solve_decision. Defined.

Definition status_is_terminal (s : AuthorizationStatus) : bool :=
  match s with
  | StSettled | StRefused | StFailed | StExpiredUnresolved | StAuthorizedWithheld | StIndeterminate => true
  | _ => false
  end.

Definition status_allows (s next : AuthorizationStatus) : bool :=
  match s, next with
  | StPrepared, (StApprovalPending | StReady)
  | StReady, StApprovalPending
  | (StPrepared | StApprovalPending | StReady), StExpiredUnresolved
  | StApprovalPending, StReady
  | StReady, StAuthorizing
  | StAuthorizing, (StDeliveryPending | StFailed | StIndeterminate | StRefused)
  | StDeliveryPending, (StAuthorized | StAuthorizedWithheld)
  | StAuthorized, (StReceiptObserved | StSettled | StFailed)
  | StReceiptObserved, (StSettled | StFailed | StExpiredUnresolved)
  | StAuthorized, StExpiredUnresolved => true
  | _, _ => false
  end.

Record HostObservation := MkObservation {
  ob_receipt_digest : list Z;
  ob_reference_digest : list Z;
  ob_observed_at : Z;
}.

Inductive LedgerOutcome :=
| LoUnknown
| LoSettled (ledger reconciled_at : Z)
| LoFailed (ledger reconciled_at : Z).

Record AuthorizationRecord := MkAuthorization {
  ar_authorization_id : string;
  ar_fingerprint : list Z;
  ar_status : AuthorizationStatus;
  ar_created_at : Z;
  ar_updated_at : Z;
  ar_expires_at : Z;
  ar_prepared : StoredPreparedCharge;
  ar_approval_nonce : option string;
  ar_credential_digest : option (list Z);
  ar_host_observation : option HostObservation;
  ar_ledger_outcome : LedgerOutcome;
  ar_policy_accounted : bool;
}.

(** Half of the fingerprint, in hexadecimal. *)
Definition id_of_fingerprint (fingerprint : list Z) : string := "mpp_" +:+ String.substring 0 32 (encode fingerprint).

Definition record_new (profile_name network_passphrase : string) (p : PreparedSponsoredCharge) (now_unix : Z)
  : result MppError AuthorizationRecord :=
  fingerprint ← authorization_fingerprint profile_name network_passphrase (pc_payer p) (pc_selected p);
  stored ← to_stored p;
  Ok (MkAuthorization (id_of_fingerprint fingerprint) fingerprint StPrepared now_unix now_unix
        (sc_effective_expires_at (pc_selected p)) stored None None None LoUnknown false).

Definition prepared_charge (r : AuthorizationRecord) : result MppError PreparedSponsoredCharge :=
  map_err (fun _ => mpp_error StateUnavailable "stored MPP authorization failed validation") (from_stored (ar_prepared r)).

Definition is_nonce_byte (a : ascii) : bool :=
  is_ascii_alphanumeric a || bool_decide (a = "-"%char) || bool_decide (a = "_"%char).
Definition nonce_shape (nonce : string) : bool := (len nonce =? 22) && str_all is_nonce_byte nonce.

Definition status_in (s : AuthorizationStatus) (l : list AuthorizationStatus) : bool := bool_decide (s ∈ l).

Definition outcome_matches (o : LedgerOutcome) (s : AuthorizationStatus) : bool :=
  match o, s with
  | LoSettled ledger _, StSettled | LoFailed ledger _, StFailed => 0 <? ledger
  | LoUnknown, StSettled => false
  | LoSettled _ _, _ | LoFailed _ _, _ => false
  | LoUnknown, _ => true
  end.

(** What the fields say together, without the artifact. *)
Definition fields_valid (r : AuthorizationRecord) : bool :=
  let s := ar_status r in
  bool_decide (ar_authorization_id r = id_of_fingerprint (ar_fingerprint r))
  && (ar_created_at r <=? ar_updated_at r) && (ar_created_at r <=? ar_expires_at r)
  && (match ar_approval_nonce r with Some nonce => nonce_shape nonce | None => true end)
  && negb (bool_decide (s = StApprovalPending) && bool_decide (ar_approval_nonce r = None))
  && negb (bool_decide (s = StPrepared) && bool_decide (is_Some (ar_approval_nonce r)))
  && negb (ar_policy_accounted r && status_in s [StPrepared; StRefused; StApprovalPending; StReady])
  && negb (bool_decide (is_Some (ar_credential_digest r))
           && status_in s [StPrepared; StRefused; StApprovalPending; StReady; StAuthorizing])
  && negb (status_in s [StDeliveryPending; StAuthorized; StAuthorizedWithheld; StReceiptObserved; StSettled]
           && bool_decide (ar_credential_digest r = None))
  && negb (bool_decide (is_Some (ar_host_observation r))
           && (negb (status_in s [StReceiptObserved; StSettled; StFailed; StExpiredUnresolved])
               || bool_decide (ar_credential_digest r = None)))
  && outcome_matches (ar_ledger_outcome r) s.

Definition record_validate (r : AuthorizationRecord) : result MppError unit :=
  if negb (fields_valid r) then Err state_error
  else
    p ← prepared_charge r;
    if negb (sc_effective_expires_at (pc_selected p) =? ar_expires_at r) then Err state_error else Ok ().

Definition set_status (r : AuthorizationRecord) (s : AuthorizationStatus) (now_unix : Z) : AuthorizationRecord :=
  MkAuthorization (ar_authorization_id r) (ar_fingerprint r) s (ar_created_at r) now_unix (ar_expires_at r) (ar_prepared r)
    (ar_approval_nonce r) (ar_credential_digest r) (ar_host_observation r) (ar_ledger_outcome r) (ar_policy_accounted r).
Definition set_approval_nonce (r : AuthorizationRecord) (nonce : string) : AuthorizationRecord :=
  MkAuthorization (ar_authorization_id r) (ar_fingerprint r) (ar_status r) (ar_created_at r) (ar_updated_at r) (ar_expires_at r)
    (ar_prepared r) (Some nonce) (ar_credential_digest r) (ar_host_observation r) (ar_ledger_outcome r) (ar_policy_accounted r).
Definition set_credential_digest (r : AuthorizationRecord) (digest : list Z) : AuthorizationRecord :=
  MkAuthorization (ar_authorization_id r) (ar_fingerprint r) (ar_status r) (ar_created_at r) (ar_updated_at r) (ar_expires_at r)
    (ar_prepared r) (ar_approval_nonce r) (Some digest) (ar_host_observation r) (ar_ledger_outcome r) (ar_policy_accounted r).
Definition set_host_observation (r : AuthorizationRecord) (o : HostObservation) : AuthorizationRecord :=
  MkAuthorization (ar_authorization_id r) (ar_fingerprint r) (ar_status r) (ar_created_at r) (ar_updated_at r) (ar_expires_at r)
    (ar_prepared r) (ar_approval_nonce r) (ar_credential_digest r) (Some o) (ar_ledger_outcome r) (ar_policy_accounted r).
Definition set_ledger_outcome (r : AuthorizationRecord) (o : LedgerOutcome) : AuthorizationRecord :=
  MkAuthorization (ar_authorization_id r) (ar_fingerprint r) (ar_status r) (ar_created_at r) (ar_updated_at r) (ar_expires_at r)
    (ar_prepared r) (ar_approval_nonce r) (ar_credential_digest r) (ar_host_observation r) o (ar_policy_accounted r).
Definition set_policy_accounted (r : AuthorizationRecord) : AuthorizationRecord :=
  MkAuthorization (ar_authorization_id r) (ar_fingerprint r) (ar_status r) (ar_created_at r) (ar_updated_at r) (ar_expires_at r)
    (ar_prepared r) (ar_approval_nonce r) (ar_credential_digest r) (ar_host_observation r) (ar_ledger_outcome r) true.

Definition transition (r : AuthorizationRecord) (next : AuthorizationStatus) (now_unix : Z) : result MppError AuthorizationRecord :=
  if negb (status_allows (ar_status r) next)
  then Err (mpp_error AuthorizationReplayed "MPP authorization cannot transition from its current state")
  else Ok (set_status r next now_unix).

Definition require_approval (r : AuthorizationRecord) (nonce : string) (now_unix : Z) : result MppError AuthorizationRecord :=
  transition (set_approval_nonce r nonce) StApprovalPending now_unix.
Definition allow_commit (r : AuthorizationRecord) (now_unix : Z) : result MppError AuthorizationRecord :=
  transition r StReady now_unix.

End artifact.
