(* ===== verification/MppStore.v ===== *)
(** * Machine payments: the store (stellar-agent-mpp, [store.rs])

    The records of a profile are one file, authenticated by an HMAC key and anchored by a
    generation counter, both in the credential store.  Every call takes the lock, reads and verifies
    the file, and a call that changes it advances the counter before it publishes the next
    file.  Calls run over what is on disk and in the credential store; the system's
    answers are an environment per call. *)

From S2P Require Import Prelude RustStr Json Bytes Keyring Mpp.
From stdpp Require Import options.

Local Open Scope string_scope.
Local Open Scope list_scope.
Local Open Scope Z_scope.

Definition MPP_TAG_BYTES : Z := 32.
Definition MPP_HMAC_DOMAIN : list Z := as_bytes "stellar-agent-mpp-state:v1" ++ [0].
Definition STORE_VERSION : Z := 2.
Definition MAX_STORE_BYTES : Z := 8 * 1024 * 1024.
Definition MAX_ACTIVE_RECORDS : Z := 1000.
Definition MAX_TOTAL_RECORDS : Z := MAX_ACTIVE_RECORDS * 2.
Definition TERMINAL_RETENTION_SECS : Z := 30 * 24 * 60 * 60.

Record WireStore := MkWireStore {
  mw_version : Z;
  mw_generation : Z;
  mw_records : list AuthorizationRecord;
}.

(** [serde_json] of the file's body. *)
Class MppJson := {
  store_to_json : WireStore -> list Z;
  store_from_json : list Z -> result string WireStore;
}.
Class MppJsonLaws `{!MppJson} := { store_from_to w : store_from_json (store_to_json w) = Ok w }.

Definition rollback_error : MppError :=
  mpp_error StateUnavailable "MPP authorization state is rolled back; recover with stellar-agent profile reset-mpp-state <NAME> --acknowledge --reason <REASON>".
Definition concurrent_update_error : MppError :=
  mpp_error StateUnavailable "MPP authorization state changed during this update; retry the operation".
Definition anchor_error : MppError :=
  mpp_error StateUnavailable "MPP authorization state generation anchor is missing or invalid; recover with stellar-agent profile reset-mpp-state <NAME> --acknowledge --reason <REASON>".
Definition owner_key_error : MppError :=
  mpp_error StateUnavailable "MPP authorization state key is refused: it is an owner public key or sits in the owner key namespace".

(** ** The disk and the system's answers *)

Inductive FileNode := NodeAbsent | NodeFile (bytes : list Z) | NodeSymlink | NodeDirectory.

(** [md_made]: every file content that was written with an advanced counter, published
    or left in a temporary file. *)
Record MppDisk := MkMppDisk {
  md_file : FileNode;
  md_ring : gmap KeyringEntryRef string;
  md_made : list (list Z);
}.

Inductive ParentAnswer := PaDirectory | PaNotDirectory | PaMissing (created sound : bool) | PaError.
Inductive LockNode := LnAbsent | LnSymlink | LnUnreadable | LnFile.

(** How the publishing of a file fails: before the temporary file is complete, in the
    rename, or after it. *)
Inductive PublishFault := PfTemporary | PfRename | PfSync.

Record MppEnv := MkMppEnv {
  mv_ring : RingEnv;
  mv_parent : ParentAnswer;
  mv_lock_node : LockNode;
  mv_lock_open : bool;
  mv_try_lock : bool;
  mv_stat : nat -> bool;
  mv_metadata : bool;
  mv_read : bool;
  mv_publish : option PublishFault;
  mv_random : list Z;
  mv_remove : bool;
  mv_sync : bool;
}.

Definition MppM (A : Type) : Type := MppDisk -> result MppError A * MppDisk.
Global Instance MppM_ret : MRet MppM := fun A a d => (Ok a, d).
Global Instance MppM_bind : MBind MppM := fun A B f m d =>
  match m d with (Ok a, d') => f a d' | (Err e, d') => (Err e, d') end.
Definition mlift {A} (f : MppDisk -> result MppError A) : MppM A := fun d => (f d, d).
Definition mfail {A} (e : MppError) : MppM A := fun d => (Err e, d).

Definition mpp_generation_ref (key : KeyringEntryRef) : KeyringEntryRef :=
  MkRef (service key) (account key +:+ "-generation").

(** A handle. *)
Record MppAuthorizationStore := MkMppStore {
  mh_key : list Z;
  mh_generation_entry : KeyringEntryRef;
  mh_state_key_entry : option KeyringEntryRef;
  mh_owner : option OwnerKeyContext;
}.
Definition at_path (key : list Z) (generation_entry : KeyringEntryRef) : MppAuthorizationStore :=
  MkMppStore key generation_entry None None.

(** [PaymentReceipt], as far as the store looks at it. *)
Record PaymentReceipt := MkPaymentReceipt { pr_reference : string; pr_challenge_id : option string; pr_digest : list Z }.

(** The calls that change the store. *)
Inductive MCall :=
| McInsert (r : AuthorizationRecord) (now_unix : Z)
| McReady (id : string) (now_unix : Z)
| McApprovalPending (id nonce : string) (now_unix : Z)
| McClaim (id : string) (now_unix : Z)
| McAccounted (id : string)
| McDelivery (id : string) (digest : list Z) (now_unix : Z)
| McAuthorized (id : string) (now_unix : Z)
| McIndeterminate (id : string) (now_unix : Z)
| McFailed (id : string) (now_unix : Z)
| McRefused (id : string) (now_unix : Z)
| McWithheld (id : string) (now_unix : Z)
| McReceipt (id : string) (receipt : PaymentReceipt) (now_unix : Z)
| McLedger (id : string) (outcome : LedgerOutcome) (now_unix : Z)
| McPrune (now_unix : Z).

Definition call_time (c : MCall) : option Z :=
  match c with
  | McInsert _ t | McReady _ t | McApprovalPending _ _ t | McClaim _ t | McDelivery _ _ t | McAuthorized _ t | McIndeterminate _ t
  | McFailed _ t | McRefused _ t | McWithheld _ t | McReceipt _ _ t | McLedger _ _ t | McPrune t => Some t
  | McAccounted _ => None
  end.

Section store.
Context `{S2 : !Sha2, BB : !Base64, SK : !Strkey, U : !UrlCrate, SX : !SponsoredXdr, CJ : !ContextJson, MJ : !MppJson}.

Definition mpp_tag (key body : list Z) : list Z := hmac_sha256 key (MPP_HMAC_DOMAIN ++ body).
Definition mpp_file (key : list Z) (w : WireStore) : list Z := mpp_tag key (store_to_json w) ++ store_to_json w.

Section call.
Variable env : MppEnv.

(** ** Paths and the lock *)

(** [symlink_metadata] answers at this moment. *)
Definition provably_absent (moment : nat) (d : MppDisk) : bool :=
  mv_stat env moment && (match md_file d with NodeAbsent => true | _ => false end).

Definition reject_symlink (moment : nat) : MppM unit := fun d =>
  if negb (mv_stat env moment) then (Err state_error, d)
  else match md_file d with NodeAbsent | NodeSymlink => (Err state_error, d) | _ => (Ok (), d) end.

Definition mpp_ensure_parent : result MppError unit :=
  match mv_parent env with
  | PaDirectory => Ok ()
  | PaNotDirectory | PaError => Err state_error
  | PaMissing created sound => if created && sound then Ok () else Err state_error
  end.

Definition mpp_acquire_lock : MppM unit :=
  _ ← mlift (fun _ => mpp_ensure_parent);
  _ ← mlift (fun _ => match mv_lock_node env with LnAbsent | LnFile => Ok () | LnSymlink | LnUnreadable => Err state_error end);
  if mv_lock_open env && mv_try_lock env then mret () else mfail state_error.

(** ** The credential store *)

Definition load_generation_value (moment : nat) (r : KeyringEntryRef) (d : MppDisk) : result MppError (option string) :=
  _ ← map_err (fun _ => state_error) (entry_new (mv_ring env) r);
  match get_password (mv_ring env) moment r (md_ring d) with
  | Ok value => Ok (Some value)
  | Err NoEntry => Ok None
  | Err _ => Err state_error
  end.

Definition mpp_load_generation (moment : nat) (r : KeyringEntryRef) (d : MppDisk) : result MppError (option Z) :=
  value ← load_generation_value moment r d;
  match value with
  | None => Ok None
  | Some value => g ← map_err (fun _ => anchor_error) (parse_int u64 value); Ok (Some g)
  end.

Definition mpp_write_generation (r : KeyringEntryRef) (generation : Z) : MppM unit := fun d =>
  match entry_new (mv_ring env) r with
  | Err _ => (Err state_error, d)
  | Ok _ => let '(res, ring') := set_password (mv_ring env) r (show_Z generation) (md_ring d) in
            (map_err (fun _ => state_error) res, MkMppDisk (md_file d) ring' (md_made d))
  end.

Definition key_is_absent (moment : nat) (r : KeyringEntryRef) (d : MppDisk) : result MppError bool :=
  _ ← map_err (fun _ => state_error) (entry_new (mv_ring env) r);
  match get_password (mv_ring env) moment r (md_ring d) with
  | Ok _ => Ok false
  | Err NoEntry => Ok true
  | Err _ => Err state_error
  end.

Definition mpp_load_key (moment : nat) (r : KeyringEntryRef) (d : MppDisk) : result MppError (list Z) :=
  map_err (fun _ => state_error) (load_hmac_key_32 (mv_ring env) moment r (md_ring d)).

Definition mpp_refuse_owner_coordinate (r : KeyringEntryRef) : result MppError unit :=
  map_err (fun _ => owner_key_error) (refuse_owner_key_coordinate r).

Definition mpp_refuse_owner_key (key : list Z) (owner : OwnerKeyContext) (d : MppDisk) : result MppError unit :=
  map_err (fun e => match e with KeyMatchesOwnerPublicKey => owner_key_error | _ => state_error end)
    (refuse_owner_public_key (mv_ring env) key owner (md_ring d)).

(** ** Reading *)

Definition version_valid (w : WireStore) : bool :=
  (mw_version w =? 1) && (mw_generation w =? 0) || (mw_version w =? STORE_VERSION) && (1 <=? mw_generation w).

(** Each record is valid, and none repeats an identifier, a fingerprint or a nonce. *)
Fixpoint check_records (ids : list string) (fingerprints : list (list Z)) (nonces : list string) (rs : list AuthorizationRecord)
  : result MppError unit :=
  match rs with
  | [] => Ok ()
  | r :: rs' =>
      _ ← record_validate r;
      if bool_decide (ar_authorization_id r ∈ ids) || bool_decide (ar_fingerprint r ∈ fingerprints)
         || (match ar_approval_nonce r with Some n => bool_decide (n ∈ nonces) | None => false end)
      then Err state_error
      else check_records (ar_authorization_id r :: ids) (ar_fingerprint r :: fingerprints)
             (match ar_approval_nonce r with Some n => n :: nonces | None => nonces end) rs'
  end.

(** The file's content under the key. *)
Definition authenticate (key bytes : list Z) : result MppError WireStore :=
  if count bytes <? MPP_TAG_BYTES then Err state_error
  else
    let tag := take 32 bytes in
    let body := drop 32 bytes in
    if negb (bool_decide (tag = mpp_tag key body)) then Err state_error
    else
      w ← map_err (fun _ => state_error) (store_from_json body);
      if negb (version_valid w) || (MAX_TOTAL_RECORDS <? count (mw_records w)) then Err state_error
      else _ ← check_records [] [] [] (mw_records w); Ok w.

Definition read_authenticated (h : MppAuthorizationStore) : MppM WireStore :=
  _ ← reject_symlink 2;
  if negb (mv_metadata env) then mfail state_error
  else mlift (fun d =>
    match md_file d with
    | NodeFile bytes =>
        if MAX_STORE_BYTES <? count bytes then Err state_error
        else if negb (mv_read env) then Err state_error
        else authenticate (mh_key h) bytes
    | _ => Err state_error
    end).

(** The handle's key is still the one in the credential store. *)
Definition recheck_key (h : MppAuthorizationStore) : MppM unit := mlift (fun d =>
  match mh_state_key_entry h with
  | None => Ok ()
  | Some r =>
      current ← mpp_load_key 0 r d;
      _ ← match mh_owner h with Some owner => mpp_refuse_owner_key current owner d | None => Ok () end;
      if bool_decide (mh_key h = current) then Ok () else Err rollback_error
  end).

Definition mpp_read_verified (h : MppAuthorizationStore) : MppM WireStore :=
  _ ← recheck_key h;
  absent ← mlift (fun d => Ok (provably_absent 1 d));
  if absent : bool then
    mlift (fun d =>
      generation ← mpp_load_generation 1 (mh_generation_entry h) d;
      match generation with
      | Some 0 => Ok (MkWireStore STORE_VERSION 0 [])
      | Some _ => Err rollback_error
      | None => Err anchor_error
      end)
  else
    w ← read_authenticated h;
    mlift (fun d =>
      generation ← mpp_load_generation 1 (mh_generation_entry h) d;
      generation ← ok_or anchor_error generation;
      if negb (mw_version w =? STORE_VERSION) || negb (mw_generation w =? generation) || (generation =? 0)
      then Err rollback_error
      else Ok w).

(** ** Writing *)

Definition publish (bytes : list Z) : MppM unit := fun d =>
  match mv_publish env with
  | None => (Ok (), MkMppDisk (NodeFile bytes) (md_ring d) (bytes :: md_made d))
  | Some PfSync => (Err state_error, MkMppDisk (NodeFile bytes) (md_ring d) (bytes :: md_made d))
  | Some PfRename => (Err state_error, MkMppDisk (md_file d) (md_ring d) (bytes :: md_made d))
  | Some PfTemporary => (Err state_error, d)
  end.

(** The counter advances before any file with the new generation exists. *)
Definition mpp_write_atomic (h : MppAuthorizationStore) (w : WireStore) (expected_generation : option Z) : MppM unit :=
  if MAX_STORE_BYTES <? count (store_to_json w) then mfail state_error
  else
    generation ← mlift (mpp_load_generation 2 (mh_generation_entry h));
    if negb (bool_decide (generation = expected_generation)) then mfail concurrent_update_error
    else
      _ ← mpp_write_generation (mh_generation_entry h) (mw_generation w);
      publish (mpp_file (mh_key h) w).

Definition mutate {T} (h : MppAuthorizationStore) (update : WireStore -> result MppError (T * WireStore)) : MppM T :=
  _ ← mpp_acquire_lock;
  w ← mpp_read_verified h;
  '(t, w') ← mlift (fun _ => update w);
  generation ← mlift (fun _ => ok_or state_error (checked u64 (mw_generation w + 1)));
  _ ← mpp_write_atomic h (MkWireStore (mw_version w') generation (mw_records w')) (Some (mw_generation w));
  mret t.

(** ** Changing records *)

Definition validate_authorization_id (value : string) : result MppError unit :=
  if negb (len value =? 36) then Err state_error
  else match strip_prefix "mpp_" value with
       | Some rest => if str_all is_hex_byte rest then Ok () else Err state_error
       | None => Err state_error
       end.
Definition validate_approval_nonce (value : string) : result MppError unit :=
  if nonce_shape value then Ok () else Err state_error.

(** What a lookup answers where there is no store. *)
Definition absent_state_lookup_error (id : string) : MppError :=
  match validate_authorization_id id with Ok _ => authorization_not_found | Err e => e end.
Definition absent_state_approval_lookup_error (nonce : string) : MppError :=
  match validate_approval_nonce nonce with Ok _ => authorization_not_found | Err e => e end.

(** The first record under the identifier is changed in place. *)
Fixpoint mpp_update_first (id : string) (on_missing : MppError) (f : AuthorizationRecord -> result MppError AuthorizationRecord)
    (rs : list AuthorizationRecord) : result MppError (AuthorizationRecord * list AuthorizationRecord) :=
  match rs with
  | [] => Err on_missing
  | r :: rs' =>
      if bool_decide (ar_authorization_id r = id) then r' ← f r; Ok (r', r' :: rs')
      else '(r', l) ← mpp_update_first id on_missing f rs'; Ok (r', r :: l)
  end.

Definition with_mpp_records (w : WireStore) (rs : list AuthorizationRecord) : WireStore :=
  MkWireStore (mw_version w) (mw_generation w) rs.

Definition record_update (id : string) (on_missing : MppError) (f : AuthorizationRecord -> result MppError AuthorizationRecord)
    (w : WireStore) : result MppError (AuthorizationRecord * WireStore) :=
  '(r, rs) ← mpp_update_first id on_missing f (mw_records w); Ok (r, with_mpp_records w rs).

Definition update_record (h : MppAuthorizationStore) (id : string) (on_missing : MppError)
    (f : AuthorizationRecord -> result MppError AuthorizationRecord) : MppM AuthorizationRecord :=
  _ ← mlift (fun _ => validate_authorization_id id);
  mutate h (record_update id on_missing f).

Definition insertable (now_unix : Z) (existing : AuthorizationRecord) : bool :=
  status_in (ar_status existing) [StPrepared; StApprovalPending; StReady] && (now_unix <=? ar_expires_at existing).

Definition insert_update (r : AuthorizationRecord) (now_unix : Z) (w : WireStore) : result MppError (AuthorizationRecord * WireStore) :=
  match find (fun e => bool_decide (ar_fingerprint e = ar_fingerprint r)) (mw_records w) with
  | Some existing => if insertable now_unix existing then Ok (existing, w) else Err replay_error
  | None =>
      if MAX_ACTIVE_RECORDS <=? count (filter (fun e => status_is_terminal (ar_status e) = false) (mw_records w))
      then Err state_error
      else if MAX_TOTAL_RECORDS <=? count (mw_records w) then Err state_error
      else Ok (r, with_mpp_records w (mw_records w ++ [r]))
  end.

Definition insert_prepared (h : MppAuthorizationStore) (r : AuthorizationRecord) (now_unix : Z) : MppM AuthorizationRecord :=
  mutate h (insert_update r now_unix).

Definition mpp_load (h : MppAuthorizationStore) (id : string) : MppM AuthorizationRecord :=
  _ ← mlift (fun _ => validate_authorization_id id);
  _ ← mpp_acquire_lock;
  w ← mpp_read_verified h;
  mlift (fun _ => ok_or authorization_not_found (find (fun r => bool_decide (ar_authorization_id r = id)) (mw_records w))).

Definition load_by_approval_nonce (h : MppAuthorizationStore) (nonce : string) : MppM AuthorizationRecord :=
  _ ← mlift (fun _ => validate_approval_nonce nonce);
  _ ← mpp_acquire_lock;
  w ← mpp_read_verified h;
  mlift (fun _ => match filter (fun r => ar_approval_nonce r = Some nonce) (mw_records w) with
                  | [] => Err authorization_not_found
                  | [r] => Ok r
                  | _ => Err state_error
                  end).

Definition store_transition (h : MppAuthorizationStore) (id : string) (s : AuthorizationStatus) (now_unix : Z)
  : MppM AuthorizationRecord :=
  update_record h id state_error (fun r => transition r s now_unix).

Definition mark_ready h id now_unix := store_transition h id StReady now_unix.
Definition mark_authorized h id now_unix := store_transition h id StAuthorized now_unix.
Definition mark_indeterminate h id now_unix := store_transition h id StIndeterminate now_unix.
Definition mark_failed h id now_unix := store_transition h id StFailed now_unix.
Definition mark_refused h id now_unix := store_transition h id StRefused now_unix.
Definition mark_authorized_withheld h id now_unix := store_transition h id StAuthorizedWithheld now_unix.

Definition mark_approval_pending (h : MppAuthorizationStore) (id nonce : string) (now_unix : Z) : MppM AuthorizationRecord :=
  update_record h id state_error (fun r => transition (set_approval_nonce r nonce) StApprovalPending now_unix).

Definition claim (now_unix : Z) (r : AuthorizationRecord) : result MppError AuthorizationRecord :=
  if sat_sub i64 (ar_expires_at r) now_unix <? MIN_CHALLENGE_LIFETIME_SECS
  then Err (mpp_error ChallengeExpired "challenge is expired or too close to expiry")
  else transition r StAuthorizing now_unix.
Definition claim_ready (h : MppAuthorizationStore) (id : string) (now_unix : Z) : MppM AuthorizationRecord :=
  update_record h id state_error (claim now_unix).

Definition account_policy (r : AuthorizationRecord) : result MppError AuthorizationRecord :=
  if negb (bool_decide (ar_status r = StAuthorizing)) then Err replay_error else Ok (set_policy_accounted r).
Definition mark_policy_accounted (h : MppAuthorizationStore) (id : string) : MppM AuthorizationRecord :=
  update_record h id state_error account_policy.

Definition mark_delivery_pending (h : MppAuthorizationStore) (id : string) (digest : list Z) (now_unix : Z)
  : MppM AuthorizationRecord :=
  update_record h id state_error (fun r => transition (set_credential_digest r digest) StDeliveryPending now_unix).

Definition observe_receipt (receipt : PaymentReceipt) (now_unix : Z) (r : AuthorizationRecord)
  : result MppError AuthorizationRecord :=
  match ar_host_observation r with
  | Some existing =>
      if bool_decide (ob_receipt_digest existing = pr_digest receipt) then Ok r
      else Err (mpp_error ReceiptConflict "receipt conflicts with the recorded observation")
  | None =>
      if negb (bool_decide (ar_status r = StAuthorized)) then Err replay_error
      else
        prepared ← prepared_charge r;
        if match pr_challenge_id receipt with
           | Some c => negb (bool_decide (sc_echo_id (pc_selected prepared) = Some c))
           | None => false
           end
        then Err (mpp_error ReceiptConflict "receipt challenge identifier does not match the authorization")
        else transition (set_host_observation r (MkObservation (pr_digest receipt) (sha256 (as_bytes (pr_reference receipt))) now_unix))
               StReceiptObserved now_unix
  end.
Definition record_receipt (h : MppAuthorizationStore) (id : string) (receipt : PaymentReceipt) (now_unix : Z)
  : MppM AuthorizationRecord :=
  update_record h id authorization_not_found (observe_receipt receipt now_unix).

Definition same_outcome (a b : LedgerOutcome) : bool :=
  match a, b with
  | LoSettled l1 _, LoSettled l2 _ | LoFailed l1 _, LoFailed l2 _ => l1 =? l2
  | _, _ => false
  end.
Definition settle_ledger (outcome : LedgerOutcome) (now_unix : Z) (r : AuthorizationRecord) : result MppError AuthorizationRecord :=
  match ar_ledger_outcome r with
  | LoUnknown =>
      match outcome with
      | LoUnknown => Ok r
      | LoSettled _ _ => transition (set_ledger_outcome r outcome) StSettled now_unix
      | LoFailed _ _ => transition (set_ledger_outcome r outcome) StFailed now_unix
      end
  | recorded => if same_outcome recorded outcome then Ok r
                else Err (mpp_error ReceiptConflict "ledger outcome conflicts with the recorded result")
  end.
Definition record_ledger_outcome (h : MppAuthorizationStore) (id : string) (outcome : LedgerOutcome) (now_unix : Z)
  : MppM AuthorizationRecord :=
  update_record h id state_error (settle_ledger outcome now_unix).

Definition expire (now_unix : Z) (r : AuthorizationRecord) : result MppError AuthorizationRecord :=
  if (ar_expires_at r <=? now_unix)
     && status_in (ar_status r) [StPrepared; StApprovalPending; StReady; StAuthorized; StReceiptObserved]
  then transition r StExpiredUnresolved now_unix
  else Ok r.
Definition retained (now_unix : Z) (r : AuthorizationRecord) : bool :=
  bool_decide (ar_status r = StIndeterminate) || negb (status_is_terminal (ar_status r))
  || (now_unix <=? sat_add i64 (ar_expires_at r) TERMINAL_RETENTION_SECS).
Definition prune_update (now_unix : Z) (w : WireStore) : result MppError (Z * WireStore) :=
  rs ← mapM_res (expire now_unix) (mw_records w);
  let kept := filter (fun r => retained now_unix r = true) rs in
  Ok (count rs - count kept, with_mpp_records w kept).
Definition mpp_prune (h : MppAuthorizationStore) (now_unix : Z) : MppM Z := mutate h (prune_update now_unix).

(** ** Opening and resetting *)

(** A first version without a counter is taken over once, after its audit row. *)
Definition verify_or_adopt (h : MppAuthorizationStore) (audit : Z -> result MppError unit) : MppM unit :=
  generation ← mlift (mpp_load_generation 3 (mh_generation_entry h));
  match generation with
  | Some _ => _ ← mpp_read_verified h; mret ()
  | None =>
      absent ← mlift (fun d => Ok (provably_absent 3 d));
      if absent : bool then mfail anchor_error
      else
        w ← read_authenticated h;
        if negb (mw_version w =? 1) then mfail anchor_error
        else
          _ ← mlift (fun _ => audit 1);
          mpp_write_atomic h (MkWireStore STORE_VERSION 1 (mw_records w)) None
  end.

Definition mpp_mint_key (r : KeyringEntryRef) : MppM unit := fun d =>
  let '(res, ring') := rotate_keyring_secret_32 (mv_ring env) (mv_random env) r (md_ring d) in
  (map_err (fun _ => state_error) res, MkMppDisk (md_file d) ring' (md_made d)).

Definition advanced (generation : option Z) : bool := match generation with Some g => 0 <? g | None => false end.

Definition open_for_prepare (entry : KeyringEntryRef) (profile_name : string) (adopt : Z -> result MppError unit)
  : MppM MppAuthorizationStore :=
  _ ← mlift (fun _ => mpp_refuse_owner_coordinate entry);
  let generation_entry := mpp_generation_ref entry in
  _ ← mpp_acquire_lock;
  generation ← mlift (mpp_load_generation 0 generation_entry);
  absent ← mlift (fun d => Ok (provably_absent 0 d));
  if advanced generation && absent then mfail rollback_error
  else
    minted ← mlift (key_is_absent 0 entry);
    _ ← (if minted : bool then
           absent ← mlift (fun d => Ok (provably_absent 4 d));
           if negb absent || advanced generation then mfail state_error
           else
             _ ← (if bool_decide (generation = None) then mpp_write_generation generation_entry 0 else mret ());
             mpp_mint_key entry
         else mret ());
    key ← mlift (mpp_load_key 3 entry);
    let owner := for_profile_name profile_name in
    _ ← (if minted : bool then mret () else mlift (mpp_refuse_owner_key key owner));
    let store := MkMppStore key generation_entry (Some entry) (Some owner) in
    _ ← verify_or_adopt store adopt;
    mret store.

Definition open_for_read (entry : KeyringEntryRef) (profile_name : string) (adopt : Z -> result MppError unit)
  : MppM (option MppAuthorizationStore) :=
  _ ← mlift (fun _ => mpp_refuse_owner_coordinate entry);
  let generation_entry := mpp_generation_ref entry in
  _ ← mpp_acquire_lock;
  generation ← mlift (mpp_load_generation 0 generation_entry);
  absent ← mlift (fun d => Ok (provably_absent 0 d));
  if advanced generation && absent then mfail rollback_error
  else
    no_key ← mlift (key_is_absent 0 entry);
    if no_key : bool then
      absent ← mlift (fun d => Ok (provably_absent 4 d));
      if absent : bool then mret None else mfail state_error
    else
      key ← mlift (mpp_load_key 3 entry);
      let owner := for_profile_name profile_name in
      _ ← mlift (mpp_refuse_owner_key key owner);
      let store := MkMppStore key generation_entry (Some entry) (Some owner) in
      _ ← verify_or_adopt store adopt;
      mret (Some store).

(** The history is discarded: a new key first, then the file, then the counter. *)
Definition reset_at (entry : KeyringEntryRef) (audit : option Z -> result MppError unit) : MppM (option Z) :=
  let generation_entry := mpp_generation_ref entry in
  _ ← mpp_acquire_lock;
  value ← mlift (load_generation_value 0 generation_entry);
  let discarded := value ≫= fun v => match parse_int u64 v with Ok g => Some g | Err _ => None end in
  _ ← mlift (fun _ => audit discarded);
  _ ← mpp_mint_key entry;
  _ ← (fun d => match md_file d with
                | NodeAbsent => (Ok (), d)
                | NodeDirectory => (Err state_error, d)
                | _ => if mv_remove env then (Ok (), MkMppDisk NodeAbsent (md_ring d) (md_made d)) else (Err state_error, d)
                end : result MppError unit * MppDisk);
  _ ← mlift (fun _ => if mv_sync env then Ok () else Err state_error);
  _ ← mpp_write_generation generation_entry 0;
  mret discarded.
(** ** Calls *)

(** A call of either kind, with what it answers. *)
Definition call_result (c : MCall) : Type := match c with McPrune _ => Z | _ => AuthorizationRecord end.

Definition mcall (h : MppAuthorizationStore) (c : MCall) : MppM (call_result c) :=
  match c with
  | McInsert r t => insert_prepared h r t
  | McReady id t => mark_ready h id t
  | McApprovalPending id nonce t => mark_approval_pending h id nonce t
  | McClaim id t => claim_ready h id t
  | McAccounted id => mark_policy_accounted h id
  | McDelivery id digest t => mark_delivery_pending h id digest t
  | McAuthorized id t => mark_authorized h id t
  | McIndeterminate id t => mark_indeterminate h id t
  | McFailed id t => mark_failed h id t
  | McRefused id t => mark_refused h id t
  | McWithheld id t => mark_authorized_withheld h id t
  | McReceipt id receipt t => record_receipt h id receipt t
  | McLedger id outcome t => record_ledger_outcome h id outcome t
  | McPrune t => mpp_prune h t
  end.

Definition acked {A} (x : result MppError A * MppDisk) : bool * MppDisk := (is_ok (fst x), snd x).
Definition mexec (h : MppAuthorizationStore) (c : MCall) (d : MppDisk) : bool * MppDisk := acked (mcall h c d).
End call.
End store.
