(* ===== verification/MppProps.v ===== *)
(** * Properties of the payment store

    Whatever calls processes make, whichever of their writes fail, and whatever earlier file
    someone puts back, the files that are accepted form one line of history, and an
    authorization is claimed at most once. *)

From S2P Require Import Prelude RustStr Json Bytes Keyring Mpp MppStore.
From stdpp Require Import options.

Local Open Scope string_scope.
Local Open Scope list_scope.
Local Open Scope Z_scope.
Set Default Proof Using "Type*".

Section runs.
Context `{S2 : !Sha2, SL : !Sha2Laws, BB : !Base64, SK : !Strkey, U : !UrlCrate, SX : !SponsoredXdr, MJ : !MppJson, ML : !MppJsonLaws}.

(** What a call makes of the records of one authorization. *)
Definition call_record (c : MCall) : option (string * (AuthorizationRecord -> result MppError AuthorizationRecord)) :=
  match c with
  | McReady id t => Some (id, fun r => transition r StReady t)
  | McApprovalPending id nonce t => Some (id, fun r => transition (set_approval_nonce r nonce) StApprovalPending t)
  | McClaim id t => Some (id, claim t)
  | McAccounted id => Some (id, account_policy)
  | McDelivery id digest t => Some (id, fun r => transition (set_credential_digest r digest) StDeliveryPending t)
  | McAuthorized id t => Some (id, fun r => transition r StAuthorized t)
  | McIndeterminate id t => Some (id, fun r => transition r StIndeterminate t)
  | McFailed id t => Some (id, fun r => transition r StFailed t)
  | McRefused id t => Some (id, fun r => transition r StRefused t)
  | McWithheld id t => Some (id, fun r => transition r StAuthorizedWithheld t)
  | McReceipt id receipt t => Some (id, observe_receipt receipt t)
  | McLedger id outcome t => Some (id, settle_ledger outcome t)
  | McInsert _ _ | McPrune _ => None
  end.

(** The records after a call that reaches its write. *)
Definition changes (c : MCall) (rs rs' : list AuthorizationRecord) : Prop :=
  match c with
  | McInsert r t => rs' = rs \/ rs' = rs ++ [r] /\ find (fun e => bool_decide (ar_fingerprint e = ar_fingerprint r)) rs = None
  | McPrune t => exists rs1, mapM_res (expire t) rs = Ok rs1 /\ rs' = filter (fun r => retained t r = true) rs1
  | _ => exists id f on_missing r, call_record c = Some (id, f) /\ mpp_update_first id on_missing f rs = Ok (r, rs')
  end.

(** ** A call *)

(** What a call leaves: nothing new, an advanced counter, or a new file as well. *)
Definition written (h : MppAuthorizationStore) (w : WireStore) (ok : bool) (d d' : MppDisk) : Prop :=
  md_ring d' = <[mh_generation_entry h := show_Z (mw_generation w)]> (md_ring d) /\
  (md_file d' = md_file d /\ md_made d' = md_made d /\ ok = false \/
   md_made d' = mpp_file (mh_key h) w :: md_made d /\
     (md_file d' = md_file d /\ ok = false \/ md_file d' = NodeFile (mpp_file (mh_key h) w))).

Lemma mpp_bind_inv {A B} (m : MppM A) (f : A -> MppM B) d r d' :
  (m ≫= f) d = (r, d') -> (exists e, m d = (Err e, d') /\ r = Err e) \/ exists a d1, m d = (Ok a, d1) /\ f a d1 = (r, d').
Proof using Type. unfold mbind, MppM_bind. destruct (m d) as [[a|e] d1]; [eauto|]. intros [= <- <-]. eauto. Qed.

Lemma lock_same env d r d' : mpp_acquire_lock env d = (r, d') -> d' = d.
Proof using Type.
  intros [(e & H & _)|(u & d1 & H1 & H)]%mpp_bind_inv; [by injection H|]. injection H1 as _ <-.
  apply mpp_bind_inv in H as [(e & H & _)|(u' & d1 & H1 & H)]; [by injection H|]. injection H1 as _ <-.
  destruct (_ && _); by injection H.
Qed.

Lemma read_authenticated_same env h d r d' :
  read_authenticated env h d = (r, d') -> d' = d /\
  forall w, r = Ok w -> exists bytes, md_file d = NodeFile bytes /\ authenticate (mh_key h) bytes = Ok w.
Proof using Type.
  intros [(e & H & ->)|(u & d1 & H1 & H)]%mpp_bind_inv.
  - assert (d' = d) as -> by (unfold reject_symlink in H; destruct (negb _); [|destruct (md_file d)]; by injection H). done.
  - assert (d1 = d) as -> by (unfold reject_symlink in H1; destruct (negb _); [done|]; destruct (md_file d); by injection H1).
    destruct (negb _); [by injection H as <- <-|]. injection H as <- <-. split; [done|]. intros w.
    destruct (md_file d) as [|bytes| |]; [done| |done|done]. destruct (_ <? _); [done|]. destruct (negb _); [done|]. eauto.
Qed.

Lemma recheck_inv env h d r d' :
  recheck_key env h d = (r, d') -> d' = d /\
  (r = Ok () -> forall k, mh_state_key_entry h = Some k -> mpp_load_key env 0 k d = Ok (mh_key h)).
Proof using Type.
  intros H. injection H as Hr <-. split; [done|]. intros -> k E. rewrite E in Hr. res_inv.
  match type of Hr with (if ?b then _ else _) = _ => destruct b eqn:Eb; [|done] end. apply bool_decide_eq_true in Eb. by subst.
Qed.

(** What a successful read says. *)
Definition read_as (env : MppEnv) (h : MppAuthorizationStore) (d : MppDisk) (w : WireStore) : Prop :=
  (forall k, mh_state_key_entry h = Some k -> mpp_load_key env 0 k d = Ok (mh_key h)) /\
  mpp_load_generation env 1 (mh_generation_entry h) d = Ok (Some (mw_generation w)) /\ mw_version w = STORE_VERSION /\
  (md_file d = NodeAbsent /\ w = MkWireStore STORE_VERSION 0 [] \/
   exists bytes, md_file d = NodeFile bytes /\ authenticate (mh_key h) bytes = Ok w).

Lemma read_verified_inv env h d r d' :
  mpp_read_verified env h d = (r, d') -> d' = d /\ forall w, r = Ok w -> read_as env h d w.
Proof using Type.
  intros [(e & H & ->)|(u & d1 & H1 & H)]%mpp_bind_inv; [by apply recheck_inv in H as [-> _]|].
  apply recheck_inv in H1 as [-> Hk]. destruct u. specialize (Hk eq_refl).
  apply mpp_bind_inv in H as [(e & H & _)|(absent & d1 & H1 & H)]; [done|]. injection H1 as <- <-.
  destruct (provably_absent env 1 d) eqn:Ea.
  - injection H as H <-. split; [done|]. intros w ->. res_inv. destruct x as [[| |]|]; try done. injection H as <-.
    split_and!; [done..|]. left. apply andb_true_iff in Ea as [_ Ea]. by destruct (md_file d).
  - apply mpp_bind_inv in H as [(e & H & ->)|(w & d1 & H1 & H)]; [by apply read_authenticated_same in H as [-> _]|].
    apply read_authenticated_same in H1 as [-> Hw]. injection H as H <-. split; [done|]. intros w0 ->. res_inv.
    destruct (_ || _ || _) eqn:Eg; [done|]. injection H as ->.
    destruct (Hw w0 eq_refl) as (bytes & Hb & Hau).
    apply orb_false_iff in Eg as [Eg _]. apply orb_false_iff in Eg as [E1 E2].
    apply negb_false_iff, Z.eqb_eq in E1. apply negb_false_iff, Z.eqb_eq in E2. subst. split_and!; eauto.
Qed.

Lemma mpp_write_atomic_inv env h w expected d r d' :
  mpp_write_atomic env h w expected d = (r, d') ->
  d' = d /\ is_ok r = false \/
  mpp_load_generation env 2 (mh_generation_entry h) d = Ok expected /\ written h w (is_ok r) d d'.
Proof using Type.
  unfold mpp_write_atomic. destruct (_ <? _); [intros [= <- <-]; eauto|].
  intros [(e & H & ->)|(g & d1 & H1 & H)]%mpp_bind_inv; [injection H as _ <-; eauto|]. injection H1 as Hg <-.
  case_bool_decide as E; [subst g|injection H as <- <-; eauto]. cbn [negb] in H.
  apply mpp_bind_inv in H as [(e & H & ->)|(u & d1 & H1 & H)].
  - unfold mpp_write_generation, set_password in H. destruct (entry_new _ _); [|injection H as _ <-; eauto].
    destruct (re_write _ _) as [[f [|]]|]; [injection H as _ <-; right|injection H as _ <-; left; by destruct d|done].
    split; [done|]. split; [done|]. by left.
  - right. split; [done|]. unfold mpp_write_generation, set_password in H1. destruct (entry_new _ _); [|done].
    destruct (re_write _ _) as [[f [|]]|]; [done..|]. injection H1 as _ <-. unfold publish in H. destruct (mv_publish env) as [[]|];
      injection H as <- <-; (split; [done|]); cbn; [left; eauto|right; eauto..].
Qed.

Lemma mutate_inv {T} env h (update : WireStore -> result MppError (T * WireStore)) d r d' :
  mutate env h update d = (r, d') ->
  d' = d /\ is_ok r = false \/
  exists w t w', read_as env h d w /\ update w = Ok (t, w') /\ mw_generation w + 1 <= hi u64 /\ (forall x, r = Ok x -> x = t) /\
    written h (MkWireStore (mw_version w') (mw_generation w + 1) (mw_records w')) (is_ok r) d d'.
Proof using Type.
  intros [(e & H & ->)|(u & d1 & H1 & H)]%mpp_bind_inv; [apply lock_same in H as ->; eauto|]. apply lock_same in H1 as ->.
  apply mpp_bind_inv in H as [(e & H & ->)|(w & d1 & H1 & H)]; [apply read_verified_inv in H as [-> _]; eauto|].
  apply read_verified_inv in H1 as [-> Hr]. specialize (Hr w eq_refl).
  apply mpp_bind_inv in H as [(e & H & ->)|([t w'] & d1 & H1 & H)]; [injection H as _ <-; eauto|]. injection H1 as Hup <-.
  apply mpp_bind_inv in H as [(e & H & ->)|(g & d1 & H1 & H)]; [injection H as _ <-; eauto|]. injection H1 as Hg <-.
  apply ok_or_Ok in Hg. unfold checked, in_rangeb in Hg. destruct (_ && _) eqn:Hb; [|done]. injection Hg as <-.
  apply andb_true_iff in Hb as [_ Hb%Z.leb_le].
  apply mpp_bind_inv in H as [(e & H & ->)|(u' & d1 & H1 & H)].
  - apply mpp_write_atomic_inv in H as [[-> _]|[_ H]]; [eauto|]. right. by exists w, t, w'.
  - injection H as <- <-. apply mpp_write_atomic_inv in H1 as [[_ H1]|[_ H1]]; [done|]. right. exists w, t, w'. split_and!; try done. by intros x [= <-].
Qed.

(** A call changes nothing, or it writes the next store of the one it read. *)
Definition steps (env : MppEnv) (h : MppAuthorizationStore) (c : MCall) (ok : bool) (d d' : MppDisk) : Prop :=
  d' = d /\ ok = false \/
  exists w rs', read_as env h d w /\ changes c (mw_records w) rs' /\ mw_generation w + 1 <= hi u64 /\
    written h (MkWireStore STORE_VERSION (mw_generation w + 1) rs') ok d d'.

Lemma mutate_steps {T} env h c (update : WireStore -> result MppError (T * WireStore)) d ok d' :
  (forall w t w', update w = Ok (t, w') -> changes c (mw_records w) (mw_records w') /\ mw_version w' = mw_version w) ->
  acked (mutate env h update d) = (ok, d') -> steps env h c ok d d'.
Proof using Type.
  intros Hup. unfold acked. destruct (mutate env h update d) as [r d1] eqn:E. intros [= <- <-].
  apply mutate_inv in E as [E|(w & t & w' & Hr & Hu & Hg & _ & Hw)]; [by left|]. right. exists w, (mw_records w').
  apply Hup in Hu as [Hu Hv]. rewrite Hv in Hw. pose proof Hr as (_ & _ & Ev & _). rewrite Ev in Hw. done.
Qed.

Lemma record_steps env h c id on_missing f d ok d' :
  call_record c = Some (id, f) ->
  acked (update_record env h id on_missing f d) = (ok, d') -> steps env h c ok d d'.
Proof using Type.
  intros Hc H. assert (E : update_record env h id on_missing f d = mutate env h (record_update id on_missing f) d \/
    exists e, update_record env h id on_missing f d = (Err e, d)).
  { unfold update_record. unfold mbind, MppM_bind, mlift. destruct (validate_authorization_id id); eauto. }
  destruct E as [E|[e E]]; rewrite E in H; [|injection H as <- <-; by left]. eapply mutate_steps; [|exact H]. clear - Hc.
  intros w t w' E. unfold record_update in E. res_inv. destruct x as [r rs]. res_inv. split; [|done].
  destruct c; try done; cbn in Hc |- *; by exists id, f, on_missing, t.
Qed.

Lemma exec_steps env h c d ok d' : mexec env h c d = (ok, d') -> steps env h c ok d d'.
Proof using Type.
  unfold mexec. destruct c as [r t| | | | | | | | | | | | |t]; cbn [mcall call_result]; try (by eapply record_steps).
  - apply mutate_steps. intros w x w' E. unfold insert_update in E. cases_in E; res_inv; subst; cbn; (split; [|done]).
    + by left.
    + right. split; done.
  - apply mutate_steps. intros w x w' E. unfold prune_update in E. res_inv. split; [|done]. cbn. eauto.
Qed.

(** ** The history of the accepted files *)

(** Newest first: each store is what its call made of the one before, which was valid when it was read. *)
Definition Chain : Type := list (MCall * WireStore).
Definition top (chain : Chain) : WireStore :=
  match chain with (_, w) :: _ => w | [] => MkWireStore STORE_VERSION 0 [] end.

Fixpoint linked (chain : Chain) : Prop :=
  match chain with
  | [] => True
  | (c, w) :: rest =>
      linked rest /\ check_records [] [] [] (mw_records (top rest)) = Ok () /\ changes c (mw_records (top rest)) (mw_records w) /\
      mw_version w = STORE_VERSION /\ mw_generation w = mw_generation (top rest) + 1
  end.

Lemma linked_generation chain : linked chain -> mw_generation (top chain) = Z.of_nat (length chain).
Proof using Type. induction chain as [|[c w] rest IH]; [done|]. intros (Hl & _ & _ & _ & E). cbn. rewrite E, IH by done. lia. Qed.

Lemma linked_member chain c w : linked chain -> (c, w) ∈ chain -> mw_generation (top chain) <= mw_generation w -> w = top chain.
Proof using Type.
  destruct chain as [|[c0 w0] rest]; [by intros _ ?%elem_of_nil|]. intros (Hl & _ & _ & _ & E) [[= -> ->]|H]%elem_of_cons Hg; [done|].
  cbn in Hg. exfalso. assert (mw_generation w <= mw_generation (top rest)); [|lia]. clear - Hl H.
  induction rest as [|[c1 w1] rest IH]; [by apply elem_of_nil in H|]. destruct Hl as (Hl & _ & _ & _ & E).
  apply elem_of_cons in H as [[= -> ->]|H]; [done|]. specialize (IH Hl H). cbn. lia.
Qed.

Lemma authenticate_made key w : 
  authenticate key (mpp_file key w) = Ok w \/ exists e, authenticate key (mpp_file key w) = Err e.
Proof.
  destruct (authenticate key (mpp_file key w)) as [x|e] eqn:E; [|eauto]. left. f_equal.
  unfold authenticate, mpp_file in E. destruct (_ <? _); [done|].
  rewrite drop_app_length' in E by (symmetry; apply hmac_length). destruct (negb _); [done|]. rewrite store_from_to in E. cbn in E.
  destruct (_ || _); [done|]. res_inv. done.
Qed.

Lemma authenticate_checked key bytes w : authenticate key bytes = Ok w -> check_records [] [] [] (mw_records w) = Ok ().
Proof using Type.
  unfold authenticate. destruct (_ <? _); [done|]. destruct (negb _); [done|]. intros H. res_inv. destruct (_ || _); [done|]. res_inv.
  by destruct x0.
Qed.

(** ** Runs *)

Inductive MEvent := EvMpp (c : MCall) (ack : bool) | EvReplaced.

Definition event_call (e : MEvent) : option MCall := match e with EvMpp c _ => Some c | EvReplaced => None end.
Definition event_acked (e : MEvent) : option MCall := match e with EvMpp c true => Some c | _ => None end.

(** Newest event first.  Processes call the store through any handle of its entry, open it
    again for preparing or for reading, and someone replaces the file by one that was made before or that
    does not carry the key's tag.  A reset, by which the operator gives up the records and with them
    what was claimed, is not a step: a run ends where the store is reset. *)
Inductive mstep (entry : KeyringEntryRef) (key : list Z) (evs : list MEvent) (d : MppDisk) : list MEvent -> MppDisk -> Prop :=
| mstep_call env h c ok d' :
    mh_state_key_entry h = Some entry -> mh_generation_entry h = mpp_generation_ref entry ->
    mexec env h c d = (ok, d') -> mstep entry key evs d (EvMpp c ok :: evs) d'
| mstep_open env profile_name adopt r d' :
    open_for_prepare env entry profile_name adopt d = (r, d') -> mstep entry key evs d evs d'
| mstep_read env profile_name adopt r d' :
    open_for_read env entry profile_name adopt d = (r, d') -> mstep entry key evs d evs d'
| mstep_replaced f :
    (forall bytes, f = NodeFile bytes -> bytes ∈ md_made d \/ exists e, authenticate key bytes = Err e) ->
    mstep entry key evs d (EvReplaced :: evs) (MkMppDisk f (md_ring d) (md_made d)).

(** The first opening is where there is no file. *)
Inductive mrun (entry : KeyringEntryRef) (key : list Z) : list MEvent -> MppDisk -> Prop :=
| mrun_start env profile_name adopt d h d' :
    md_file d = NodeAbsent -> md_made d = [] -> open_for_prepare env entry profile_name adopt d = (Ok h, d') -> mh_key h = key ->
    mrun entry key [] d'
| mrun_step evs d evs' d' : mrun entry key evs d -> mstep entry key evs d evs' d' -> mrun entry key evs' d'.

Definition coherent (entry : KeyringEntryRef) (key : list Z) (chain : Chain) (d : MppDisk) : Prop :=
  linked chain /\ md_made d = (fun x => mpp_file key (snd x)) <$> chain /\
  (exists s, md_ring d !! entry = Some s /\ base64_decode s = Some key) /\
  (exists s g, md_ring d !! mpp_generation_ref entry = Some s /\ parse_int u64 s = Ok g /\ Z.of_nat (length chain) <= g) /\
  (forall bytes, md_file d = NodeFile bytes -> bytes ∈ md_made d \/ exists e, authenticate key bytes = Err e).

Lemma generation_ref_other entry : mpp_generation_ref entry <> entry.
Proof using Type.
  destruct entry as [sv ac]. unfold mpp_generation_ref. cbn. intros [= E]. apply (f_equal String.length) in E.
  rewrite str_length_app in E. cbn in E. lia.
Qed.

Lemma load_generation_inv env n r d g :
  mpp_load_generation env n r d = Ok (Some g) -> exists s, md_ring d !! r = Some s /\ parse_int u64 s = Ok g.
Proof using Type.
  unfold mpp_load_generation, load_generation_value, get_password. intros H. res_inv. destruct (re_read _ _ _); [done|].
  destruct (md_ring d !! r) as [s|] eqn:E; cbn in H0; res_inv; [|done]. res_inv. eauto.
Qed.

Lemma load_key_inv env n r d key :
  mpp_load_key env n r d = Ok key -> exists s, md_ring d !! r = Some s /\ base64_decode s = Some key.
Proof using Type.
  unfold mpp_load_key, load_hmac_key_32. intros H. res_inv. destruct (negb _); [done|]. res_inv.
  unfold classified, get_password in H1. destruct (re_read _ _ _); [done|]. destruct (md_ring d !! r) eqn:E; [|done].
  cbn in H1. res_inv. eauto.
Qed.

(** A read that is accepted shows the newest store. *)
Lemma read_newest entry key chain env h d w :
  coherent entry key chain d -> mh_state_key_entry h = Some entry -> mh_generation_entry h = mpp_generation_ref entry ->
  read_as env h d w -> mh_key h = key /\ w = top chain /\ check_records [] [] [] (mw_records w) = Ok ().
Proof.
  intros (Hl & Hm & (s & Hs & Hk) & (sg & g & Hg & Hp & Hle) & Hf) He Hge (Hkey & Hgen & _ & Hfile).
  specialize (Hkey entry He). apply load_key_inv in Hkey as (s' & Hs' & Hk'). rewrite Hs in Hs'. injection Hs' as <-.
  assert (mh_key h = key) as <- by congruence. split; [done|].
  rewrite Hge in Hgen. apply load_generation_inv in Hgen as (s' & Hs' & Hp'). rewrite Hg in Hs'. injection Hs' as <-.
  rewrite Hp in Hp'. injection Hp' as ->. destruct Hfile as [[_ ->]|(bytes & Hb & Hau)].
  - cbn in Hle. destruct chain; [done|]. cbn in Hle. lia.
  - split; [|by eapply authenticate_checked]. destruct (Hf bytes Hb) as [Hin|[e E]]; [|by rewrite Hau in E].
    rewrite Hm in Hin. apply list_elem_of_fmap in Hin as ([c w'] & -> & Hin). cbn in Hau.
    destruct (authenticate_made (mh_key h) w') as [E|[e E]]; [|by rewrite Hau in E]. rewrite Hau in E. injection E as ->.
    eapply linked_member; [done..|]. rewrite linked_generation by done. done.
Qed.

Lemma coherent_ring entry key chain d r z :
  coherent entry key chain d -> Z.of_nat (length chain) <= z <= hi u64 ->
  md_ring r = <[mpp_generation_ref entry := show_Z z]> (md_ring d) ->
  (exists s, md_ring r !! entry = Some s /\ base64_decode s = Some key) /\
  (exists s g, md_ring r !! mpp_generation_ref entry = Some s /\ parse_int u64 s = Ok g /\ g = z).
Proof using Type.
  intros (_ & _ & Hk & _) Hz ->. rewrite lookup_insert_ne by apply generation_ref_other. split; [done|].
  exists (show_Z z), z. rewrite lookup_insert_eq. split; [done|]. split; [|done]. apply parse_int_show; [done|]. unfold in_range. cbn in *. lia.
Qed.

Lemma step_coherent entry key chain env h c ok d d' :
  coherent entry key chain d -> mh_state_key_entry h = Some entry -> mh_generation_entry h = mpp_generation_ref entry ->
  mexec env h c d = (ok, d') ->
  coherent entry key chain d' /\ ok = false \/ exists w, coherent entry key ((c, w) :: chain) d'.
Proof.
  intros Hc He Hge [[-> ->]|(w & rs' & Hr & Hch & Hmax & Hring & Hw)]%exec_steps; [by left|].
  destruct (read_newest _ _ _ _ _ _ _ Hc He Hge Hr) as (<- & -> & Hck). rewrite Hge in Hring. cbn [mw_generation] in *.
  pose proof Hc as (Hl & Hm & _ & _ & Hf). pose proof (linked_generation _ Hl) as Hgen.
  destruct (coherent_ring _ _ _ _ d' (mw_generation (top chain) + 1) Hc ltac:(lia) Hring) as [Hk (s & g & Hs & Hp & ->)].
  destruct Hw as [(Ef & Em & ->)|[Em Ef]].
  - left. split; [|done]. unfold coherent. rewrite Em, Ef. split_and!; [done..| |done]. eexists s, _. split_and!; [done..|lia].
  - right. exists (MkWireStore STORE_VERSION (mw_generation (top chain) + 1) rs'). unfold coherent. rewrite Em, Hm. split_and!; [|done..| |].
    + cbn. by split_and!.
    + eexists s, _. split_and!; [done..|]. cbn [length]. lia.
    + intros bytes Hb. destruct Ef as [[Ef _]|Ef]; rewrite Ef in Hb.
      * destruct (Hf _ Hb) as [H|H]; [left|by right]. rewrite Hm in H. set_solver.
      * injection Hb as <-. left. set_solver.
Qed.

Lemma mpp_bind_Ok {A B} (m : MppM A) (f : A -> MppM B) d b d' :
  (m ≫= f) d = (Ok b, d') -> exists a d1, m d = (Ok a, d1) /\ f a d1 = (Ok b, d').
Proof using Type. intros [(e & _ & H)|H]%mpp_bind_inv; [done|]. exact H. Qed.

Lemma coherent_generation entry key chain env n d r :
  coherent entry key chain d -> mpp_load_generation env n (mpp_generation_ref entry) d = Ok r -> is_Some r.
Proof using Type.
  intros (_ & _ & _ & (s & g & Hs & Hp & _) & _). unfold mpp_load_generation, load_generation_value, get_password. rewrite Hs.
  intros H. res_inv. destruct (re_read _ _ _); cbn in H0; [done|]. res_inv. res_inv. eauto.
Qed.

Lemma coherent_has_key entry key chain env n d b :
  coherent entry key chain d -> key_is_absent env n entry d = Ok b -> b = false.
Proof using Type.
  intros (_ & _ & (s & Hs & _) & _) H. unfold key_is_absent, get_password in H. rewrite Hs in H. res_inv.
  destruct (re_read _ _ _); cbn in H; [done|]. by injection H.
Qed.

(** An existing store is opened without a write. *)
Lemma verify_same entry key chain env profile_name adopt d k r d' :
  coherent entry key chain d ->
  verify_or_adopt env (MkMppStore k (mpp_generation_ref entry) (Some entry) (Some (for_profile_name profile_name))) adopt d = (r, d') -> d' = d.
Proof using Type.
  intros Hc [(e & H0 & _)|(g0 & d1 & H1 & H0)]%mpp_bind_inv; [by injection H0|]. injection H1 as Hg <-.
  apply (coherent_generation _ _ _ _ _ _ _ Hc) in Hg as [g' ->].
  apply mpp_bind_inv in H0 as [(e & H0 & _)|(w & d1 & H1 & H0)]; [by apply read_verified_inv in H0 as [-> _]|].
  apply read_verified_inv in H1 as [-> _]. by injection H0.
Qed.

Lemma open_read_same entry key chain env profile_name adopt d r d' :
  coherent entry key chain d -> open_for_read env entry profile_name adopt d = (r, d') -> d' = d.
Proof using Type.
  intros Hc. unfold open_for_read.
  intros [(e & H & _)|(u & d1 & H1 & H)]%mpp_bind_inv; [by injection H|]. injection H1 as _ <-.
  apply mpp_bind_inv in H as [(e & H & _)|(u' & d1 & H1 & H)]; [by apply lock_same in H|]. apply lock_same in H1 as ->.
  apply mpp_bind_inv in H as [(e & H & _)|(g & d1 & H1 & H)]; [by injection H|]. injection H1 as _ <-.
  apply mpp_bind_inv in H as [(e & H & _)|(ab & d1 & H1 & H)]; [by injection H|]. injection H1 as _ <-.
  destruct (_ && _); [by injection H|].
  apply mpp_bind_inv in H as [(e & H & _)|(no_key & d1 & H1 & H)]; [by injection H|]. injection H1 as Hk <-.
  apply (coherent_has_key _ _ _ _ _ _ _ Hc) in Hk as ->.
  apply mpp_bind_inv in H as [(e & H & _)|(k & d1 & H1 & H)]; [by injection H|]. injection H1 as _ <-.
  apply mpp_bind_inv in H as [(e & H & _)|(u3 & d1 & H1 & H)]; [by injection H|]. injection H1 as _ <-.
  apply mpp_bind_inv in H as [(e & H & _)|(u4 & d1 & H1 & H)]; [by eapply verify_same in H|].
  eapply verify_same in H1 as ->; [|exact Hc]. by injection H.
Qed.

Lemma open_same entry key chain env profile_name adopt d r d' :
  coherent entry key chain d -> open_for_prepare env entry profile_name adopt d = (r, d') -> d' = d.
Proof using Type.
  intros Hc. unfold open_for_prepare.
  intros [(e & H & _)|(u & d1 & H1 & H)]%mpp_bind_inv; [by injection H|]. injection H1 as _ <-.
  apply mpp_bind_inv in H as [(e & H & _)|(u' & d1 & H1 & H)]; [by apply lock_same in H|]. apply lock_same in H1 as ->.
  apply mpp_bind_inv in H as [(e & H & _)|(g & d1 & H1 & H)]; [by injection H|]. injection H1 as _ <-.
  apply mpp_bind_inv in H as [(e & H & _)|(ab & d1 & H1 & H)]; [by injection H|]. injection H1 as _ <-.
  destruct (_ && _); [by injection H|].
  apply mpp_bind_inv in H as [(e & H & _)|(minted & d1 & H1 & H)]; [by injection H|]. injection H1 as Hk <-.
  apply (coherent_has_key _ _ _ _ _ _ _ Hc) in Hk as ->.
  apply mpp_bind_inv in H as [(e & H & _)|(u2 & d1 & H1 & H)]; [by injection H|]. injection H1 as _ <-.
  apply mpp_bind_inv in H as [(e & H & _)|(k & d1 & H1 & H)]; [by injection H|]. injection H1 as _ <-.
  apply mpp_bind_inv in H as [(e & H & _)|(u3 & d1 & H1 & H)]; [by injection H|]. injection H1 as _ <-.
  apply mpp_bind_inv in H as [(e & H & _)|(u4 & d1 & H1 & H)]; [by eapply verify_same in H|].
  eapply verify_same in H1 as ->; [|exact Hc]. by injection H.
Qed.

(** A step that touches neither the file nor what was made. *)
Definition ring_only {A} (m : MppM A) : Prop := forall d r d', m d = (r, d') -> md_file d' = md_file d /\ md_made d' = md_made d.

Lemma ring_only_bind {A B} (m : MppM A) (f : A -> MppM B) : ring_only m -> (forall a, ring_only (f a)) -> ring_only (m ≫= f).
Proof using Type.
  intros Hm Hf d r d' [(e & H & _)|(a & d1 & H1 & H)]%mpp_bind_inv; [by eapply Hm|].
  destruct (Hm _ _ _ H1) as [<- <-]. by eapply Hf.
Qed.
Lemma ring_only_lift {A} (f : MppDisk -> result MppError A) : ring_only (mlift f).
Proof using Type. intros d r d' [= _ <-]. done. Qed.
Lemma ring_only_ret {A} (a : A) : ring_only (mret a).
Proof using Type. intros d r d' [= _ <-]. done. Qed.
Lemma ring_only_fail {A} e : ring_only (A := A) (mfail e).
Proof using Type. intros d r d' [= _ <-]. done. Qed.
Lemma ring_only_write env r g : ring_only (mpp_write_generation env r g).
Proof using Type.
  intros d x d'. unfold mpp_write_generation. destruct (entry_new _ _); [|by intros [= _ <-]].
  destruct (set_password _ _ _ _). by intros [= _ <-].
Qed.
Lemma ring_only_mint env r : ring_only (mpp_mint_key env r).
Proof using Type. intros d x d'. unfold mpp_mint_key. destruct (rotate_keyring_secret_32 _ _ _ _). by intros [= _ <-]. Qed.

(** Where there is no file, a store is opened at the beginning of its history. *)
Lemma open_fresh entry env profile_name adopt d h d' :
  md_file d = NodeAbsent -> md_made d = [] -> open_for_prepare env entry profile_name adopt d = (Ok h, d') ->
  coherent entry (mh_key h) [] d'.
Proof using Type.
  intros Hf Hm H. unfold open_for_prepare in H.
  apply mpp_bind_Ok in H as (u & d1 & [= _ <-] & H). apply mpp_bind_Ok in H as (u' & d1 & ->%lock_same & H).
  apply mpp_bind_Ok in H as (g & d1 & [= _ <-] & H). apply mpp_bind_Ok in H as (ab & d1 & [= _ <-] & H).
  destruct (_ && _); [done|]. apply mpp_bind_Ok in H as (minted & d1 & [= _ <-] & H).
  apply mpp_bind_Ok in H as (u2 & d1 & H1 & H).
  assert (md_file d1 = md_file d /\ md_made d1 = md_made d) as [Hf1 Hm1].
  { revert H1. apply (fun P => P : ring_only _). destruct minted; [|apply ring_only_ret].
    apply ring_only_bind; [apply ring_only_lift|]. intros ab'. destruct (_ || _); [apply ring_only_fail|].
    apply ring_only_bind; [|intros _; apply ring_only_mint]. case_bool_decide; [apply ring_only_write|apply ring_only_ret]. }
  rewrite Hf in Hf1. rewrite Hm in Hm1. clear H1.
  apply mpp_bind_Ok in H as (k & d2 & [= _ <-] & H). apply mpp_bind_Ok in H as (u3 & d2 & H1 & H).
  assert (d2 = d1) as -> by (destruct minted; by injection H1). clear H1.
  apply mpp_bind_Ok in H as (u4 & d2 & H1 & [= <- <-]). unfold verify_or_adopt in H1.
  apply mpp_bind_Ok in H1 as (g' & d3 & [= _ <-] & H1). destruct g' as [g'|].
  - apply mpp_bind_Ok in H1 as (w & d3 & Hr & [= <- <-]). apply read_verified_inv in Hr as [-> Hr].
    destruct (Hr w eq_refl) as (Hk & Hg & _ & [[_ ->]|(b & Hb & _)]); [|by rewrite Hf1 in Hb].
    unfold coherent. rewrite Hf1, Hm1. split_and!; [done..| | |done].
    + cbn. specialize (Hk entry eq_refl). by apply load_key_inv in Hk.
    + apply load_generation_inv in Hg as (s & Hs & Hp). by exists s, 0.
  - exfalso. apply mpp_bind_Ok in H1 as (ab' & d3 & [= _ <-] & H1). destruct ab'; [done|].
    apply mpp_bind_Ok in H1 as (w & d3 & Hr & _). apply read_authenticated_same in Hr as [_ Hr].
    destruct (Hr w eq_refl) as (b & Hb & _). by rewrite Hf1 in Hb.
Qed.

(** Whatever happened, there is one history: every acknowledged call is in it, in order. *)
Lemma run_history entry key evs d :
  mrun entry key evs d ->
  exists chain, coherent entry key chain d /\ omap event_acked evs `sublist_of` (fst <$> chain) /\
    (fst <$> chain) `sublist_of` omap event_call evs.
Proof.
  induction 1 as [env profile_name adopt d h d' Hf Hm Ho <-|evs d evs' d' _ (chain & Hc & H1 & H2)
    [env h c ok d2 He Hge Hx|env profile_name adopt r d2 Ho|env profile_name adopt r d2 Ho|f Hf]].
  - exists []. split; [by eapply open_fresh|]. done.
  - destruct (step_coherent _ _ _ _ _ _ _ _ _ Hc He Hge Hx) as [[Hc' ->]|[w Hc']].
    + exists chain. cbn. split_and!; [done..|by apply sublist_cons].
    + exists ((c, w) :: chain). cbn. split_and!; [done| |by apply sublist_skip].
      destruct ok; [by apply sublist_skip|by apply sublist_cons].
  - exists chain. apply (open_same _ _ _ _ _ _ _ _ _ Hc) in Ho as ->. done.
  - exists chain. apply (open_read_same _ _ _ _ _ _ _ _ _ Hc) in Ho as ->. done.
  - exists chain. split; [|done]. destruct Hc as (? & ? & ? & ? & _). by split_and!.
Qed.

(** ** One authorization *)

Definition spent (s : AuthorizationStatus) : bool := negb (status_in s [StPrepared; StApprovalPending; StReady]).

(** What a change of one record leaves alone. *)
Definition follows (r r' : AuthorizationRecord) : Prop :=
  ar_authorization_id r' = ar_authorization_id r /\ ar_expires_at r' = ar_expires_at r /\
  (ar_status r' = ar_status r \/ status_allows (ar_status r) (ar_status r') = true).

Lemma follows_spent r r' : follows r r' -> spent (ar_status r) = true -> spent (ar_status r') = true.
Proof using Type. intros (_ & _ & [->|H]); [done|]. by destruct (ar_status r), (ar_status r'). Qed.

Lemma transition_follows r0 r s t r' :
  transition r0 s t = Ok r' -> ar_authorization_id r0 = ar_authorization_id r -> ar_expires_at r0 = ar_expires_at r ->
  ar_status r0 = ar_status r -> follows r r'.
Proof using Type.
  unfold transition. destruct (status_allows _ _) eqn:E; [|done]. intros [= <-] H1 H2 H3. rewrite H3 in E. split_and!; [done..|by right].
Qed.

Lemma claim_inv t r r' :
  claim t r = Ok r' -> ar_status r = StReady /\ ar_status r' = StAuthorizing /\ t < ar_expires_at r /\ follows r r'.
Proof using Type.
  unfold claim. destruct (_ <? _) eqn:E; [done|]. intros H. pose proof H as H'. unfold transition in H.
  destruct (status_allows _ _) eqn:Ea; [|done]. injection H as <-. apply Z.ltb_ge in E. split_and!.
  - by destruct (ar_status r).
  - done.
  - unfold sat_sub, clamp, MIN_CHALLENGE_LIFETIME_SECS in E. cbn in E. lia.
  - by eapply transition_follows.
Qed.

Lemma call_follows c id f r r' : call_record c = Some (id, f) -> f r = Ok r' -> follows r r'.
Proof using Type.
  destruct c; cbn; try done; intros [= _ <-] H; try (by eapply transition_follows).
  - by apply claim_inv in H as (_ & _ & _ & H).
  - unfold account_policy in H. destruct (negb _); [done|]. injection H as <-. split_and!; [done..|by left].
  - unfold observe_receipt in H. destruct (ar_host_observation r).
    { destruct (bool_decide _); [|done]. injection H as <-. split_and!; [done..|by left]. }
    destruct (negb _); [done|]. res_inv. destruct (match pr_challenge_id receipt with Some _ => _ | None => _ end); [done|].
    by eapply transition_follows.
  - unfold settle_ledger in H. destruct (ar_ledger_outcome r).
    + destruct outcome; [injection H as <-; split_and!; [done..|by left]|by eapply transition_follows..].
    + destruct (same_outcome _ _); [|done]. injection H as <-. split_and!; [done..|by left].
    + destruct (same_outcome _ _); [|done]. injection H as <-. split_and!; [done..|by left].
Qed.

Lemma mpp_update_first_inv id on_missing f rs r' rs' :
  mpp_update_first id on_missing f rs = Ok (r', rs') ->
  exists l1 r l2, rs = l1 ++ r :: l2 /\ ar_authorization_id r = id /\ f r = Ok r' /\ rs' = l1 ++ r' :: l2.
Proof using Type.
  revert rs'. induction rs as [|r rs IH]; intros rs' H; [done|]. cbn in H. case_bool_decide as E.
  - res_inv. by exists [], r, rs.
  - res_inv. destruct x as [x l]. res_inv. destruct (IH _ H0) as (l1 & r0 & l2 & -> & ? & ? & ->).
    by exists (r :: l1), r0, l2.
Qed.

Lemma expire_follows t r r' : expire t r = Ok r' -> follows r r'.
Proof using Type.
  unfold expire. destruct (_ && _); [intros H; by eapply transition_follows|]. intros [= <-]. split_and!; [done..|by left].
Qed.

Lemma not_retained t r : t <= hi i64 -> retained t r = false -> ar_expires_at r + TERMINAL_RETENTION_SECS < t.
Proof using Type.
  intros Ht H. unfold retained in H. apply orb_false_iff in H as [_ H%Z.leb_gt]. unfold sat_add, clamp in H.
  cbn in H, Ht. unfold TERMINAL_RETENTION_SECS in *. lia.
Qed.

Lemma check_records_unique ids fs ns rs :
  check_records ids fs ns rs = Ok () ->
  NoDup (ar_authorization_id <$> rs) /\ forall r, r ∈ rs -> ar_authorization_id r ∉ ids.
Proof.
  revert ids fs ns. induction rs as [|r rs IH]; intros ids fs ns H; [by split; [constructor|intros r ?%elem_of_nil]|].
  cbn in H. res_inv. destruct (_ || _) eqn:E in H; [done|]. destruct (IH _ _ _ H) as [Hn Hi].
  apply orb_false_iff in E as [E _]. apply orb_false_iff in E as [E _]. apply bool_decide_eq_false in E. split.
  - cbn. constructor; [|done]. intros (r0 & Eq & Hin)%list_elem_of_fmap. apply (Hi _ Hin). rewrite <- Eq. left.
  - intros r0 [->|Hin]%elem_of_cons; [done|]. intros H'. apply (Hi _ Hin). by right.
Qed.

Lemma same_id_same_record rs r1 r2 :
  check_records [] [] [] rs = Ok () -> r1 ∈ rs -> r2 ∈ rs -> ar_authorization_id r1 = ar_authorization_id r2 -> r1 = r2.
Proof.
  intros [Hn _]%check_records_unique (i & Hi)%list_elem_of_lookup (k & Hk)%list_elem_of_lookup E.
  assert (i = k) as ->; [|by rewrite Hi in Hk; injection Hk]. eapply (NoDup_lookup _ _ _ (ar_authorization_id r1) Hn).
  - by rewrite list_lookup_fmap, Hi.
  - by rewrite list_lookup_fmap, Hk, E.
Qed.

Definition claims (id : string) (c : MCall) : bool :=
  match c with McClaim id' _ => bool_decide (id' = id) | _ => false end.

(** ** The line of history claims an authorization once *)

Section once.
Variable expiry : string -> Z.

Definition inserts_expire (cs : list MCall) : Prop :=
  forall r t, McInsert r t ∈ cs -> ar_expires_at r = expiry (ar_authorization_id r).
(** Newest first: a call's time is an [i64], at most the retention period older than that of any call before it. *)
Definition times_ordered (cs : list MCall) : Prop :=
  StronglySorted (fun t t' => t' <= t + TERMINAL_RETENTION_SECS) (omap call_time cs) /\ Forall (in_range i64) (omap call_time cs).

Lemma changes_follow c rs rs' r' :
  changes c rs rs' -> r' ∈ rs' -> (exists r, r ∈ rs /\ follows r r') \/ exists t, c = McInsert r' t.
Proof using Type.
  assert (Hrefl : forall r, follows r r) by (intros r; split_and!; [done..|by left]).
  assert (Hrec : (exists id f om r, call_record c = Some (id, f) /\ mpp_update_first id om f rs = Ok (r, rs')) -> r' ∈ rs' ->
    exists r, r ∈ rs /\ follows r r').
  { intros (id & f & om & r & Hc & Hu) Hin. apply mpp_update_first_inv in Hu as (l1 & r0 & l2 & -> & _ & Hf & ->).
    apply elem_of_app in Hin as [Hin|[->|Hin]%elem_of_cons].
    - exists r'. split; [apply elem_of_app; by left|done].
    - exists r0. split; [apply elem_of_app; right; left|]. by eapply call_follows.
    - exists r'. split; [apply elem_of_app; right; by right|done]. }
  destruct c; try (intros Hc Hin; left; by apply Hrec).
  - intros [->|[-> _]] Hin; [eauto|]. apply elem_of_app in Hin as [Hin|Hin]; [eauto|]. apply list_elem_of_singleton in Hin as ->. eauto.
  - intros (rs1 & Hm & ->) Hin. left. apply list_elem_of_filter in Hin as [_ Hin]. apply mapM_res_Ok in Hm.
    apply list_elem_of_lookup in Hin as [i Hi]. destruct (Forall2_lookup_r _ _ _ _ _ Hm Hi) as (r & Hr & He).
    exists r. split; [by eapply list_elem_of_lookup_2|by eapply expire_follows].
Qed.

Lemma chain_expiry chain : linked chain -> inserts_expire (fst <$> chain) ->
  forall r, r ∈ mw_records (top chain) -> ar_expires_at r = expiry (ar_authorization_id r).
Proof using Type.
  induction chain as [|[c w] rest IH]; [by intros _ _ r ?%elem_of_nil|]. intros (Hl & _ & Hc & _) Hi r Hin. cbn in Hin.
  destruct (changes_follow _ _ _ _ Hc Hin) as [(r0 & Hr0 & (E1 & E2 & _))|[t ->]].
  - rewrite E1, E2. apply IH; [done| |done]. intros r1 t H. apply (Hi r1 t). by right.
  - apply (Hi r t). by left.
Qed.

(** A spent record stays, or the time of a call is past its expiry. *)
Lemma spent_stays c rs rs' r :
  changes c rs rs' -> r ∈ rs -> spent (ar_status r) = true -> (forall t, call_time c = Some t -> t <= hi i64) ->
  (exists r', r' ∈ rs' /\ ar_authorization_id r' = ar_authorization_id r /\ spent (ar_status r') = true) \/
  exists t, call_time c = Some t /\ ar_expires_at r + TERMINAL_RETENTION_SECS < t.
Proof using Type.
  intros Hc Hin Hs Ht.
  assert (Hrec : (exists id f om r, call_record c = Some (id, f) /\ mpp_update_first id om f rs = Ok (r, rs')) ->
    exists r', r' ∈ rs' /\ ar_authorization_id r' = ar_authorization_id r /\ spent (ar_status r') = true).
  { intros (id & f & om & r1 & Hcr & Hu). apply mpp_update_first_inv in Hu as (l1 & r0 & l2 & -> & _ & Hf & ->).
    apply elem_of_app in Hin as [Hin|[->|Hin]%elem_of_cons].
    - exists r. split; [apply elem_of_app; by left|done].
    - exists r1. apply (call_follows _ _ _ _ _ Hcr) in Hf. split; [apply elem_of_app; right; left|].
      split; [apply Hf|by eapply follows_spent].
    - exists r. split; [apply elem_of_app; right; by right|done]. }
  destruct c; try (left; by apply Hrec).
  - left. exists r. split; [|done]. destruct Hc as [->|[-> _]]; [done|]. apply elem_of_app. by left.
  - destruct Hc as (rs1 & Hm & ->). apply mapM_res_Ok in Hm. apply list_elem_of_lookup in Hin as [i Hi].
    destruct (Forall2_lookup_l _ _ _ _ _ Hm Hi) as (r1 & Hr1 & He). apply expire_follows in He.
    destruct (retained now_unix r1) eqn:Er.
    + left. exists r1. split; [apply list_elem_of_filter; split; [done|by eapply list_elem_of_lookup_2]|].
      split; [apply He|by eapply follows_spent].
    + right. exists now_unix. split; [done|]. destruct He as (_ & <- & _). apply not_retained; [by apply Ht|done].
Qed.

Definition claimed (id : string) (chain : Chain) : Prop := exists c, c ∈ fst <$> chain /\ claims id c = true.

Lemma claims_inv id c : claims id c = true -> exists t, c = McClaim id t.
Proof using Type. destruct c; try done. cbn. intros ->%bool_decide_eq_true. eauto. Qed.

Lemma times_tail c cs : times_ordered (c :: cs) -> times_ordered cs /\ forall t, call_time c = Some t ->
  t <= hi i64 /\ forall t', t' ∈ omap call_time cs -> t' <= t + TERMINAL_RETENTION_SECS.
Proof using Type.
  intros [Hs Hr]. cbn in Hs, Hr. destruct (call_time c) as [t|]; [|done].
  apply StronglySorted_inv in Hs as [Hs Hall]. apply Forall_cons in Hr as [Ht Hr]. split; [done|]. intros ? [= <-].
  split; [apply Ht|]. intros t' Hin. rewrite Forall_forall in Hall. specialize (Hall _ Hin). lia.
Qed.

Lemma claimed_is_spent id chain :
  linked chain -> inserts_expire (fst <$> chain) -> times_ordered (fst <$> chain) -> claimed id chain ->
  (exists r, r ∈ mw_records (top chain) /\ ar_authorization_id r = id /\ spent (ar_status r) = true) \/
  exists t, t ∈ omap call_time (fst <$> chain) /\ expiry id + TERMINAL_RETENTION_SECS < t.
Proof.
  induction chain as [|[c w] rest IH]; [by intros _ _ _ (c & ?%elem_of_nil & _)|].
  intros (Hl & Hck & Hc & _) Hi Ho (c0 & Hin & Hcl). cbn [fmap list_fmap fst] in Hi, Ho, Hin. cbn [top].
  apply times_tail in Ho as [Ho Ht]. assert (Hi' : inserts_expire (fst <$> rest)) by (intros r t H; apply (Hi r t); by right).
  apply elem_of_cons in Hin as [->|Hin].
  - apply claims_inv in Hcl as [t ->]. destruct Hc as (id' & f & om & r & [= <- <-] & Hu).
    apply mpp_update_first_inv in Hu as (l1 & r0 & l2 & _ & Hid & Hf & Hrs). apply claim_inv in Hf as (_ & Hst & _ & (Hid' & _)).
    left. exists r. rewrite Hrs, Hst. split; [apply elem_of_app; right; left|]. by rewrite Hid'.
  - destruct (IH Hl Hi' Ho (ex_intro _ c0 (conj Hin Hcl))) as [(r & Hr & <- & Hs)|(t & Hin' & Hlt)].
    + destruct (spent_stays _ _ _ _ Hc Hr Hs) as [?|(t & Et & Hlt)]; [intros t Et; apply (Ht t Et)|by left|].
      right. exists t. cbn. rewrite Et. split; [by left|]. rewrite <- (chain_expiry rest); done.
    + right. exists t. split; [|done]. cbn. destruct (call_time c); [by right|done].
Qed.

Lemma chain_claims_once id chain :
  linked chain -> inserts_expire (fst <$> chain) -> times_ordered (fst <$> chain) ->
  (length (filter (fun c => claims id c = true) (fst <$> chain)) <= 1)%nat.
Proof.
  induction chain as [|[c w] rest IH]; [cbn; lia|]. intros (Hl & Hck & Hc & _) Hi Ho. cbn [fmap list_fmap fst] in *.
  assert (Hi' : inserts_expire (fst <$> rest)) by (intros r t H; apply (Hi r t); by right).
  destruct (times_tail _ _ Ho) as [Ho' Ht]. specialize (IH Hl Hi' Ho'). rewrite filter_cons. case_decide as Hcl; [|done].
  cbn [length]. enough (filter (fun c => claims id c = true) (fst <$> rest) = []) as -> by done.
  destruct (filter _ _) as [|c0 l] eqn:Ef; [done|]. exfalso.
  assert (Hclaimed : claimed id rest).
  { assert (Hc0 : c0 ∈ filter (fun c => claims id c = true) (fst <$> rest)) by (rewrite Ef; left).
    apply list_elem_of_filter in Hc0 as [??]. by exists c0. }
  apply claims_inv in Hcl as [t ->]. destruct Hc as (id' & f & om & r & [= <- <-] & Hu).
  apply mpp_update_first_inv in Hu as (l1 & r0 & l2 & Hrs & Hid & Hf & _). apply claim_inv in Hf as (Hst & _ & Hlt & _).
  assert (Hr0 : r0 ∈ mw_records (top rest)) by (rewrite Hrs; apply elem_of_app; right; left).
  destruct (claimed_is_spent _ _ Hl Hi' Ho' Hclaimed) as [(r1 & Hr1 & Hid1 & Hs)|(t' & Hin & Hlt')].
  - assert (r1 = r0) as -> by (eapply same_id_same_record; [done..|congruence]). by rewrite Hst in Hs.
  - destruct (Ht t eq_refl) as [_ Hle]. specialize (Hle _ Hin). rewrite (chain_expiry rest) in Hlt by done. rewrite Hid in Hlt. lia.
Qed.
End once.

Lemma times_sublist cs cs' : cs' `sublist_of` cs -> times_ordered cs -> times_ordered cs'.
Proof using Type.
  induction 1 as [|c cs1 cs2 Hs IH|c cs1 cs2 Hs IH]; [done| |].
  - intros Ho. destruct (times_tail _ _ Ho) as [Ho2 Ht]. specialize (IH Ho2). destruct IH as [I1 I2]. unfold times_ordered. cbn.
    destruct (call_time c) as [t|] eqn:E; [|done]. destruct (Ht t eq_refl) as [Hmax Hle]. destruct Ho as [_ Hr]. cbn in Hr. rewrite E in Hr.
    split; [|by apply Forall_cons in Hr as [? _]; constructor]. constructor; [done|]. apply Forall_forall. intros t' Hin.
    assert (t' ∈ omap call_time cs2); [|specialize (Hle t'); naive_solver lia].
    apply list_elem_of_omap in Hin as (c' & Hin & E'). apply list_elem_of_omap. exists c'. split; [|done]. by eapply elem_of_sublist.
  - intros Ho. by apply IH, (times_tail _ _ Ho).
Qed.

Lemma filter_sublist_mono {A} (P : A -> Prop) `{!forall x, Decision (P x)} l1 l2 :
  l1 `sublist_of` l2 -> filter P l1 `sublist_of` filter P l2.
Proof using Type.
  induction 1; [done| |]; rewrite ?filter_cons; case_decide; try done; [by apply sublist_skip|by apply sublist_cons].
Qed.

(** Over any run of a profile's payment store from its opening where there was no file,
    with writes that fail at any point, with
    the file replaced by an earlier one, and with an entry that is deleted 30 days after
    its expiry and entered again, a charge is claimed for signing at most once: as long as
    no call's time is more than 30 days older than that of a call before it, and an
    authorization's expiry is part of its identity. *)
Lemma claimed_once entry key evs d expiry id :
  mrun entry key evs d -> inserts_expire expiry (omap event_call evs) -> times_ordered (omap event_call evs) ->
  (length (filter (fun c => claims id c = true) (omap event_acked evs)) <= 1)%nat.
Proof.
  intros (chain & (Hl & _) & Hs1 & Hs2)%run_history Hi Ho.
  etransitivity; [|apply (chain_claims_once expiry id chain Hl)].
  - by apply sublist_length, filter_sublist_mono.
  - intros r t Hin. apply (Hi r t). by eapply elem_of_sublist.
  - by eapply times_sublist.
Qed.

(** ** Records that are not valid *)

Lemma check_records_valid ids fs ns rs r : check_records ids fs ns rs = Ok () -> r ∈ rs -> record_validate r = Ok ().
Proof using Type.
  revert ids fs ns. induction rs as [|r0 rs IH]; intros ids fs ns H Hin; [by apply elem_of_nil in Hin|].
  cbn in H. res_inv. destruct (_ || _) in H; [done|]. apply elem_of_cons in Hin as [->|Hin]; [by destruct x|by eapply IH].
Qed.

(** C40: A change of a record is written and acknowledged without validating the record it
    makes; when that record is not valid, as after a clock that was set back or an outcome in
    ledger 0, every later read refuses the file, and every authorization of the profile is out of
    reach until the store is reset. *)
Theorem invalid_record_locks_the_store env h id on_missing f d r d' env' h' :
  update_record env h id on_missing f d = (Ok r, d') -> record_validate r <> Ok () -> mh_key h' = mh_key h ->
  exists e, mpp_read_verified env' h' d' = (Err e, d').
Proof.
  intros H Hr Hk. unfold update_record in H. apply mpp_bind_Ok in H as (u & d1 & [= _ <-] & H).
  apply mutate_inv in H as [[_ H]|(w & r' & w' & _ & Hu & _ & Hx & Hw)]; [done|]. rewrite (Hx r eq_refl) in *.
  destruct Hw as (_ & [(_ & _ & Hw)|(_ & [[_ Hw]|Hw])]); [done..|].
  destruct (mpp_read_verified env' h' d') as [[w2|e] d2] eqn:E; [exfalso|by apply read_verified_inv in E as [-> _]; eauto].
  apply read_verified_inv in E as [_ E]. destruct (E w2 eq_refl) as (_ & _ & _ & [[E' _]|(bytes & E' & Hau)]); [congruence|].
  rewrite Hw in E'. injection E' as <-. rewrite Hk in Hau.
  match type of Hau with authenticate _ (mpp_file _ ?x) = _ => destruct (authenticate_made (mh_key h) x) as [E1|[e E1]] end;
    rewrite Hau in E1; [injection E1 as ->|done].
  apply authenticate_checked in Hau. cbn in Hau. unfold record_update in Hu. res_inv. destruct x as [r0 rs]. res_inv. cbn in Hau.
  apply mpp_update_first_inv in Hu0 as (l1 & r1 & l2 & _ & _ & _ & ->).
  apply Hr. eapply check_records_valid; [done|]. apply elem_of_app. right. left.
Qed.
End runs.
