(* ===== verification/MppCharge.v ===== *)
(** * Machine payments: preparing and signing a charge (stellar-agent-mpp, [sponsored.rs], [credential.rs])

    A charge is simulated unsigned, and later its one authorization entry is signed,
    simulated again and wrapped into a credential.  The transaction that carries the entry
    has a placeholder as its source: the paid server supplies source, sequence number
    and fee.  The RPC and the signer are functions; building an envelope and XDR are
    classes, and every envelope built is inspected before use. *)

From S2P Require Import Prelude RustStr Json Bytes Value Network Mpp.
From stdpp Require Import options.

Local Open Scope string_scope.
Local Open Scope list_scope.
Local Open Scope Z_scope.

Definition BASE_FEE_STROOPS : Z := 100.
Definition MAX_RESOURCE_FEE_STROOPS : Z := 10000000.
Definition ESTIMATED_LEDGER_CLOSE_SECONDS : Z := 5.
Definition MAX_CREDENTIAL_BYTES : Z := 128 * 1024.
Definition TESTNET_NETWORK : string := "stellar:testnet".

Definition signing_error : MppError := mpp_error SigningFailed "sponsored authorization signing failed".

(** ** Envelopes, as far as a charge looks into them *)

Inductive HostFunction := InvokeContract (i : InvokeContractArgs) | OtherHostFunction (xdr : list Z).
Inductive ChargeBody := InvokeHostFunction (f : HostFunction) (auth : list SorobanAuthorizationEntry) | OtherChargeBody (xdr : list Z).
Record ChargeOperation := MkChargeOp { co_source_account : option MuxedAccount; co_body : ChargeBody }.
Inductive Memo := MemoNone | MemoOther (xdr : list Z).
Inductive TransactionExt := ExtV0 | ExtV1 (soroban_data : list Z).
Record ChargeTx := MkChargeTx {
  ct_source_account : MuxedAccount;
  ct_fee : Z;
  ct_seq_num : Z;
  ct_cond : Preconditions;
  ct_memo : Memo;
  ct_operations : list ChargeOperation;
  ct_ext : TransactionExt;
}.
Record ChargeV1 := MkChargeV1 { cv_tx : ChargeTx; cv_signatures : list DecoratedSignature }.
Inductive ChargeEnvelope := CeTxV0 (xdr : list Z) | CeTx (v : ChargeV1) | CeTxFeeBump (inner : ChargeV1) (outer : list Z).

(** [SimulateTransactionResponse]. *)
Record SimulateResult := MkSimResult { sr_auth : list string; sr_xdr : string }.
Record SimulateResponse := MkSimResponse {
  sim_error : option string;
  sim_min_resource_fee : Z;
  sim_transaction_data : string;
  sim_results : list SimulateResult;
  sim_latest_ledger : Z;
}.

(** XDR and base64 of what a charge encodes and decodes. *)
Class ChargeXdr := {
  preimage_to_xdr : list Z -> Z -> Z -> AuthorizedInvocation -> result string (list Z);
  preimage_to_base64 : list Z -> Z -> Z -> AuthorizedInvocation -> result string string;
  scval_from_base64 : string -> result string ScVal;
  soroban_data_from_base64 : string -> result string (list Z);
  charge_to_base64 : ChargeEnvelope -> result string string;
  standard_base64_decode : string -> result string (list Z);
  (** the signature payload of a transaction *)
  charge_payload_to_xdr : list Z -> ChargeTx -> result string (list Z);
}.

(** [stellar_baselib]: the placeholder account's next transaction, with these bounds, fee,
    operation and data, unsigned. *)
Class ChargeBuilder := { build_for_simulation : Z -> Z -> ChargeOperation -> option (list Z) -> result string ChargeEnvelope }.

(** [serde_json] of the credential. *)
Class CredentialWire := {
  wire_to_vec : SelectedChallenge -> string -> string -> result string (list Z);
  wire_to_value : SelectedChallenge -> string -> string -> result string JsonValue;
}.

Inductive CredentialOutput := CredentialHttp (authorization : string) | CredentialMcp (credential : JsonValue).

(** The side of the signed simulation's send an error came from. *)
Inductive CommitStage := PreSigning | Signing | Resimulation.
Definition stage_label (s : CommitStage) : string :=
  match s with PreSigning => "pre_signing" | Signing => "signing" | Resimulation => "resimulation" end.
Definition stage_key_access_began (s : CommitStage) : bool := match s with PreSigning => false | _ => true end.
Definition at_stage {A} (s : CommitStage) (r : result MppError A) : result (MppError * CommitStage) A := map_err (fun e => (e, s)) r.

Section charge.
Context `{S2 : !Sha2, BB : !Base64, SK : !Strkey, SX : !SponsoredXdr, CX : !ChargeXdr, CB : !ChargeBuilder, CW : !CredentialWire}.

Definition require_testnet (passphrase : string) : result MppError unit :=
  if negb (bool_decide (passphrase = TESTNET_PASSPHRASE))
  then Err (mpp_error NetworkForbidden "MPP charge is enabled only on Stellar testnet") else Ok ().

(** Rounded down, at least one ledger. *)
Definition compute_expiration_ledger (latest_ledger remaining_seconds : Z) : Z :=
  let seconds := default 0 (checked u64 remaining_seconds) in
  let ledgers := Z.max (seconds / ESTIMATED_LEDGER_CLOSE_SECONDS) 1 in
  sat_add u32 latest_ledger (default (hi u32) (checked u32 ledgers)).

Definition build_sep41_transfer_invoke (contract : list Z) (from to : ScAddress) (amount : Z) : InvokeContractArgs :=
  MkInvoke (ScContract contract) "transfer" [SvAddress from; SvAddress to; SvI128 amount].

Definition contract_id (value : string) : result MppError (list Z) := map_err (fun _ => simulation_error) (contract_from_string value).
Definition recipient_sc_address (value : string) : result MppError ScAddress :=
  match public_key_from_string value with
  | Ok key => Ok (ScAccount key)
  | Err _ => match contract_from_string value with Ok c => Ok (ScContract c) | Err _ => Err simulation_error end
  end.

Definition symbol (value : string) : result MppError ScVal := if len value <=? 32 then Ok (SvSymbol value) else Err signing_error.
Definition account_signature_scval (key signature : list Z) : result MppError ScVal :=
  public_key ← symbol "public_key";
  sig ← symbol "signature";
  Ok (SvVec (Some [SvMap (Some [(public_key, SvBytes key); (sig, SvBytes signature)])])).

(** ** Envelopes *)

Definition invoke_operation (invoke : InvokeContractArgs) (auth : list SorobanAuthorizationEntry) : ChargeOperation :=
  MkChargeOp None (InvokeHostFunction (InvokeContract invoke) auth).

Definition build_envelope (operation : ChargeOperation) (expires_at fee : Z) (soroban_data : option (list Z))
  : result MppError ChargeEnvelope :=
  max_time ← ok_or simulation_error (checked u64 expires_at);
  map_err (fun _ => simulation_error) (build_for_simulation max_time fee operation soroban_data).

Definition time_bounds_of (c : Preconditions) : option TimeBounds :=
  match c with PreTime b => Some b | PreV2 b _ => b | PreNone => None end.
Definition is_ext_v1 (e : TransactionExt) : bool := match e with ExtV1 _ => true | ExtV0 => false end.
Definition is_memo_none (m : Memo) : bool := match m with MemoNone => true | MemoOther _ => false end.
Definition source_key (m : MuxedAccount) : list Z := match m with MuxEd25519 key => key | MuxMuxed _ key => key end.

Definition is_invoke_of (invoke : InvokeContractArgs) (f : HostFunction) : bool :=
  match f with InvokeContract i => bool_decide (i = invoke) | OtherHostFunction _ => false end.

(** Exactly one invocation, from nobody yet, until the challenge expires. *)
Definition inspect_envelope (envelope : ChargeEnvelope) (invoke : InvokeContractArgs) (auth : list SorobanAuthorizationEntry)
    (expires_at : Z) (require_soroban_data : bool) : result MppError unit :=
  match envelope with
  | CeTx v =>
      let tx := cv_tx v in
      expected_max ← ok_or simulation_error (checked u64 expires_at);
      time_bounds ← ok_or simulation_error (time_bounds_of (ct_cond tx));
      if negb (bool_decide (source_key (ct_source_account tx) = replicate 32 0)) || negb (ct_seq_num tx =? 1)
         || negb (count (cv_signatures v) =? 0) || negb (is_memo_none (ct_memo tx)) || negb (min_time time_bounds =? 0)
         || negb (max_time time_bounds =? expected_max) || negb (count (ct_operations tx) =? 1)
         || negb (Bool.eqb require_soroban_data (is_ext_v1 (ct_ext tx)))
      then Err simulation_error
      else
        operation ← ok_or simulation_error (head (ct_operations tx));
        match co_body operation with
        | InvokeHostFunction f entries =>
            if bool_decide (is_Some (co_source_account operation)) || negb (is_invoke_of invoke f)
               || negb (bool_decide (entries = auth))
            then Err simulation_error else Ok ()
        | OtherChargeBody _ => Err simulation_error
        end
  | _ => Err simulation_error
  end.

(** ** Simulations *)

Definition XDR_TEXT_LIMIT : Z := sat_mul u64 MAX_XDR_BYTES 2.

Definition validate_simulation_response (r : SimulateResponse) : result MppError unit :=
  if bool_decide (is_Some (sim_error r)) || (sim_min_resource_fee r =? 0) || is_empty (sim_transaction_data r)
     || (XDR_TEXT_LIMIT <? len (sim_transaction_data r)) || negb (count (sim_results r) =? 1)
     || existsb (fun x => (XDR_TEXT_LIMIT <? len (sr_xdr x)) || existsb (fun e => XDR_TEXT_LIMIT <? len e) (sr_auth x)) (sim_results r)
  then Err simulation_error else Ok ().

Definition decode_simulation_results (r : SimulateResponse) : result MppError (list (list SorobanAuthorizationEntry * ScVal)) :=
  mapM_res (fun x =>
    auth ← mapM_res (fun e => map_err (fun _ => simulation_error) (auth_from_base64 e)) (sr_auth x);
    value ← map_err (fun _ => simulation_error) (scval_from_base64 (sr_xdr x));
    Ok (auth, value)) (sim_results r).

Definition validate_resimulation_auth (r : SimulateResponse) (expected : list SorobanAuthorizationEntry) : result MppError unit :=
  results ← decode_simulation_results r;
  match results with
  | [] => Err simulation_error
  | (auth, _) :: _ => if negb (bool_decide (auth = [])) && negb (bool_decide (auth = expected)) then Err simulation_error else Ok ()
  end.

(** The fee the simulation asks for, within the wallet's bound. *)
Definition bounded_resource_fee (r : SimulateResponse) : result MppError Z :=
  resource_fee ← ok_or simulation_error (checked u32 (sim_min_resource_fee r));
  if MAX_RESOURCE_FEE_STROOPS <? resource_fee then Err simulation_error else Ok resource_fee.

Definition prepare_sponsored (selected : SelectedChallenge) (payer network_passphrase : string)
    (simulate : ChargeEnvelope -> result MppError SimulateResponse) : result MppError PreparedSponsoredCharge :=
  _ ← require_testnet network_passphrase;
  payer_address ← payer_sc_address payer;
  contract ← contract_id (ch_currency (sc_request selected));
  recipient ← recipient_sc_address (ch_recipient (sc_request selected));
  let invoke := build_sep41_transfer_invoke contract payer_address recipient (ch_amount (sc_request selected)) in
  envelope ← build_envelope (invoke_operation invoke []) (sc_effective_expires_at selected) BASE_FEE_STROOPS None;
  _ ← inspect_envelope envelope invoke [] (sc_effective_expires_at selected) false;
  response ← simulate envelope;
  _ ← validate_simulation_response response;
  results ← decode_simulation_results response;
  match results with
  | [([auth_entry], _)] =>
      _ ← validate_auth_entry auth_entry payer_address invoke;
      resource_fee ← bounded_resource_fee response;
      simulated_fee_stroops ← ok_or simulation_error (checked u32 (BASE_FEE_STROOPS + resource_fee));
      artifact_hash ← prepared_artifact_hash selected payer invoke auth_entry (sim_latest_ledger response) simulated_fee_stroops;
      Ok (MkPrepared selected payer invoke auth_entry (sim_latest_ledger response) simulated_fee_stroops artifact_hash)
  | _ => Err simulation_error
  end.

(** ** The credential *)

Definition credential_too_large : MppError := mpp_error CredentialTooLarge "MPP credential exceeds the size limit".

Definition build_credential (selected : SelectedChallenge) (payer transaction_xdr : string) : result MppError CredentialOutput :=
  _ ← map_err (fun _ => mpp_error ChallengeInvalid "credential payer must be a classic account") (public_key_from_string payer);
  if XDR_TEXT_LIMIT <? len transaction_xdr then Err credential_too_large
  else
    decoded ← map_err (fun _ => mpp_error ChallengeInvalid "transaction credential contains invalid XDR encoding")
                (standard_base64_decode transaction_xdr);
    if MAX_XDR_BYTES <? count decoded then Err credential_too_large
    else
      let source := "did:pkh:" +:+ TESTNET_NETWORK +:+ ":" +:+ payer in
      bytes ← map_err (fun _ => mpp_error ChallengeInvalid "credential serialization failed") (wire_to_vec selected transaction_xdr source);
      if MAX_CREDENTIAL_BYTES <? count bytes then Err credential_too_large
      else match sc_context selected with
           | CtxHttp _ => Ok (CredentialHttp ("Payment " +:+ base64_encode bytes))
           | CtxMcp _ => value ← map_err (fun _ => mpp_error ChallengeInvalid "credential serialization failed")
                                   (wire_to_value selected transaction_xdr source);
                         Ok (CredentialMcp value)
           end.

(** ** Signing *)

(** The entry with the signature's last ledger, and later with the signature. *)
Definition with_expiration (c : AddressCredentials) (ledger : Z) : AddressCredentials :=
  MkCredentials (cr_address c) (cr_nonce c) ledger (cr_signature c).
Definition with_signature (c : AddressCredentials) (signature : ScVal) : AddressCredentials :=
  MkCredentials (cr_address c) (cr_nonce c) (cr_signature_expiration_ledger c) signature.

Definition finish_after_send (p : PreparedSponsoredCharge) (simulate : ChargeEnvelope -> result MppError SimulateResponse)
    (resim_envelope : ChargeEnvelope) (signed_entries : list SorobanAuthorizationEntry) : result MppError CredentialOutput :=
  response ← simulate resim_envelope;
  _ ← validate_simulation_response response;
  _ ← validate_resimulation_auth response signed_entries;
  resource_fee ← bounded_resource_fee response;
  soroban_data ← map_err (fun _ => simulation_error) (soroban_data_from_base64 (sim_transaction_data response));
  if MAX_XDR_BYTES <? count soroban_data then Err simulation_error
  else
    final_envelope ← build_envelope (invoke_operation (pc_invoke p) signed_entries) (sc_effective_expires_at (pc_selected p))
                       (sat_add u32 BASE_FEE_STROOPS resource_fee) (Some soroban_data);
    _ ← inspect_envelope final_envelope (pc_invoke p) signed_entries (sc_effective_expires_at (pc_selected p)) true;
    transaction_xdr ← map_err (fun _ => simulation_error) (charge_to_base64 final_envelope);
    build_credential (pc_selected p) (pc_payer p) transaction_xdr.

(** [public_key]: the signer's answer.  [sign]: [sign_soroban_auth_entry] with the
    signer, on the preimage's base64 form, answering a base64 signature. *)
Definition commit_sponsored_staged (p : PreparedSponsoredCharge) (now_unix : Z) (network_passphrase : string)
    (public_key : result string (list Z)) (sign : string -> list Z -> result string string)
    (simulate : ChargeEnvelope -> result MppError SimulateResponse) : result (MppError * CommitStage) CredentialOutput :=
  _ ← at_stage PreSigning (require_testnet network_passphrase);
  let remaining := sat_sub i64 (sc_effective_expires_at (pc_selected p)) now_unix in
  if remaining <? MIN_CHALLENGE_LIFETIME_SECS
  then Err (mpp_error ChallengeExpired "challenge is expired or too close to expiry", PreSigning)
  else
    signer_key ← map_err (fun _ => (signing_error, PreSigning)) public_key;
    if negb (bool_decide (public_key_to_string signer_key = pc_payer p)) then Err (signing_error, PreSigning)
    else
      let expiration_ledger := compute_expiration_ledger (pc_latest_ledger p) remaining in
      match au_credentials (pc_auth_entry p) with
      | CredOther _ => Err (simulation_error, PreSigning)
      | CredAddress c =>
          let c := with_expiration c expiration_ledger in
          let invocation := au_root_invocation (pc_auth_entry p) in
          preimage_xdr ← map_err (fun _ => (signing_error, PreSigning))
                           (preimage_to_base64 (network_id network_passphrase) (cr_nonce c) expiration_ledger invocation);
          encoded ← map_err (fun _ => (signing_error, Signing)) (sign preimage_xdr signer_key);
          signature ← map_err (fun _ => (signing_error, Signing)) (standard_base64_decode encoded);
          if negb (count signature =? 64) then Err (signing_error, Signing)
          else
            payer_key ← map_err (fun _ => (signing_error, Signing)) (public_key_from_string (pc_payer p));
            signature_value ← at_stage Signing (account_signature_scval payer_key signature);
            let signed_entries := [MkAuth (CredAddress (with_signature c signature_value)) invocation] in
            resim_envelope ← at_stage Signing
              (build_envelope (invoke_operation (pc_invoke p) signed_entries) (sc_effective_expires_at (pc_selected p)) BASE_FEE_STROOPS None);
            _ ← at_stage Signing
                  (inspect_envelope resim_envelope (pc_invoke p) signed_entries (sc_effective_expires_at (pc_selected p)) false);
            at_stage Resimulation (finish_after_send p simulate resim_envelope signed_entries)
      end.

Definition commit_sponsored (p : PreparedSponsoredCharge) (now_unix : Z) (network_passphrase : string)
    (public_key : result string (list Z)) (sign : string -> list Z -> result string string)
    (simulate : ChargeEnvelope -> result MppError SimulateResponse) : result MppError CredentialOutput :=
  map_err fst (commit_sponsored_staged p now_unix network_passphrase public_key sign simulate).
End charge.
