(* ===== verification/MppService.v ===== *)
(** * Machine payments: preparing and committing (stellar-agent-mpp, [service.rs], [reconcile.rs])

    The calls behind the command line and the MCP tools.  A commit is a program that asks
    its surroundings for one thing at a time: the payment store, the policy gate, the
    signing step, the audit gate.  Other processes run between any two of its requests.  Reconciliation
    with the ledger comes last. *)

From S2P Require Import Prelude RustStr Json Bytes PolicyTypes Value Attestation Approval ApprovalStore Keyring Network Mpp MppStore MppCharge.
From stdpp Require Import options.

Local Open Scope string_scope.
Local Open Scope list_scope.
Local Open Scope Z_scope.

(** ** Programs *)

Inductive Prog (E : Type -> Type) (A : Type) :=
| Ret (a : A)
| Vis {X : Type} (e : E X) (k : X -> Prog E A).
Arguments Ret {E A} _.
Arguments Vis {E A X} _ _.

(** [?] on a request and on a value. *)
Notation "'let?' x := e 'in' k" := (Vis e (fun r => match r with Ok x => k | Err err => Ret (Err err) end))
  (at level 10, x name, e at level 200, k at level 200).
Notation "'let!' x := r 'in' k" := (match r with Ok x => k | Err err => Ret (Err err) end)
  (at level 10, x name, r at level 200, k at level 200).

Inductive ApprovalDisposition := DispositionAllow | DispositionRequireApproval.
Global Instance ApprovalDisposition_eq_dec : EqDecision ApprovalDisposition.
Proof. solve_decision. Defined.

Record AuthorizationPreview := MkPreview {
  pv_authorization_id : string;
  pv_status : AuthorizationStatus;
  pv_authorization_fingerprint : string;
  pv_prepared_artifact_hash : string;
  pv_amount : string;
  pv_currency : string;
  pv_recipient : string;
  pv_payer : string;
  pv_transport : string;
  pv_authority : string;
  pv_target : string;
  pv_expires_at_unix : Z;
  pv_simulated_fee_stroops : Z;
  pv_approval_id : option string;
}.

Record AuthorizationStatusView := MkStatusView {
  sv_authorization_id : string;
  sv_status : AuthorizationStatus;
  sv_updated_at_unix : Z;
  sv_expires_at_unix : Z;
  sv_policy_accounted : bool;
  sv_approval_required : bool;
  sv_credential_constructed : bool;
  sv_receipt_observed : bool;
  sv_ledger_outcome : LedgerOutcome;
}.

Inductive BeforeSignError := PolicyRefused (e : MppError) | Accounting (e : MppError).

Class CredentialJson := { credential_to_vec : CredentialOutput -> result string (list Z) }.

Record WithheldCharge := MkWithheld {
  wc_record : AuthorizationRecord;
  wc_failure_stage : string;
  wc_key_access_began : bool;
  wc_policy_budget_consumed : bool;
}.

(** What the ledger says of a transaction ([reconcile.rs]). *)
Inductive TransactionStatus := TsSuccess | TsFailed | TsNotFound.
Record TransactionObservation := MkTxObservation {
  to_status : TransactionStatus;
  to_ledger : option Z;
  to_transaction_hash : option string;
  to_envelope : option ChargeEnvelope;
}.

(** ** Requests *)

(** What a program asks for.  The gates and the notification are the caller's closures;
    the signing step is [commit_sponsored_staged] on the prepared charge. *)
Inductive SvcE : Type -> Type :=
| SeLoad (id : string) : SvcE (result MppError AuthorizationRecord)
| SeStore (c : MCall) : SvcE (result MppError (call_result c))
| SeApproval (p : PendingApproval) (now_unix_ms : Z) : SvcE (result ApprovalError unit)
| SeBeforeSign (r : AuthorizationRecord) (p : PreparedSponsoredCharge) (v : ValueEffects) : SvcE (result BeforeSignError unit)
| SeCommitSponsored (p : PreparedSponsoredCharge) (now_unix : Z) : SvcE (result (MppError * CommitStage) CredentialOutput)
| SeBeforeDelivery (r : AuthorizationRecord) (payer : string) (v : ValueEffects) : SvcE (result MppError unit)
| SeWithheld (w : WithheldCharge) : SvcE unit
| SeTransaction (hash : list Z) : SvcE (result MppError TransactionObservation).

Definition Svc (A : Type) : Type := Prog SvcE (result MppError A).

Definition approval_error : MppError := mpp_error ApprovalInvalid "MPP approval is missing, invalid, or expired".

Section service.
Context {Text : Type} `{S2 : !Sha2, BB : !Base64, SK : !Strkey, U : !UrlCrate, SX : !SponsoredXdr, CJ : !ContextJson, XJ : !CredentialJson, ED : !EscapeDebug}.

(** [u64::try_from(..).unwrap_or(0).saturating_mul(1_000)]. *)
Definition now_ms_of (now_unix : Z) : Z := sat_mul u64 (default 0 (checked u64 now_unix)) 1000.

Definition preview (r : AuthorizationRecord) : result MppError AuthorizationPreview :=
  p ← prepared_charge r;
  let '(transport, authority, target) := context_terms (sc_context (pc_selected p)) in
  let request := sc_request (pc_selected p) in
  Ok (MkPreview (ar_authorization_id r) (ar_status r) (encode (ar_fingerprint r)) (encode (pc_artifact_hash p))
        (ch_amount_decimal request) (ch_currency request) (ch_recipient request) (pc_payer p) transport authority target
        (ar_expires_at r) (pc_simulated_fee_stroops p) (ar_approval_nonce r)).

Definition status_view (now_unix : Z) (r : AuthorizationRecord) : AuthorizationStatusView :=
  let status :=
    if (ar_expires_at r <=? now_unix)
       && status_in (ar_status r) [StPrepared; StApprovalPending; StReady; StAuthorized; StReceiptObserved]
    then StExpiredUnresolved else ar_status r in
  MkStatusView (ar_authorization_id r) status (ar_updated_at r) (ar_expires_at r) (ar_policy_accounted r)
    (bool_decide (is_Some (ar_approval_nonce r))) (bool_decide (is_Some (ar_credential_digest r))) (bool_decide (is_Some (ar_host_observation r))) (ar_ledger_outcome r).
Definition authorization_status (id : string) (now_unix : Z) : Svc AuthorizationStatusView :=
  let? r := SeLoad id in Ret (Ok (status_view now_unix r)).

(** [raw]: the nonce's random bytes. *)
Definition new_pending_approval (raw : list Z) (r : AuthorizationRecord) (p : PreparedSponsoredCharge) (profile_name process_uid : string)
    (now_unix : Z) : result MppError PendingApproval :=
  let '(transport, authority, target) := context_terms (sc_context (pc_selected p)) in
  let request := sc_request (pc_selected p) in
  challenge_expiry ← ok_or state_error (checked u64 (sc_effective_expires_at (pc_selected p)));
  now_s ← ok_or state_error (checked u64 now_unix);
  map_err (fun _ => state_error)
    (new_mpp_charge_pending_at raw
       {| mpp_authorization_fingerprint := ar_fingerprint r; mpp_prepared_artifact_hash := pc_artifact_hash p;
          mpp_profile := profile_name; mpp_chain_id := TESTNET_NETWORK; mpp_payer := pc_payer p; mpp_transport := transport;
          mpp_authority := authority; mpp_target := target; mpp_amount := ch_amount_decimal request; mpp_currency := ch_currency request;
          mpp_recipient := ch_recipient request; mpp_challenge_expires_at_unix := challenge_expiry;
          mpp_simulated_fee_stroops := pc_simulated_fee_stroops p |}
       process_uid MPP_APPROVAL_MAX_TTL_MS (sat_mul u64 now_s 1000)).

(** A fresh record, or one prepared before, which a later requirement of an approval still reaches while it is ready. *)
Definition persist_prepared_authorization (raw : list Z) (profile_name network_passphrase : string) (p : PreparedSponsoredCharge)
    (disposition : ApprovalDisposition) (process_uid : string) (now_unix : Z) (has_approvals : bool) : Svc AuthorizationPreview :=
  let! record := record_new profile_name network_passphrase p now_unix in
  Vis (SeLoad (ar_authorization_id record)) (fun loaded =>
  match loaded with
  | Ok existing =>
      if bool_decide (disposition = DispositionRequireApproval) && bool_decide (ar_approval_nonce existing = None) then
        if negb (bool_decide (ar_status existing = StReady)) then Ret (Err state_error)
        else if negb has_approvals then Ret (Err state_error)
        else
          let! pending := new_pending_approval raw existing p profile_name process_uid now_unix in
          Vis (SeApproval pending (now_ms_of now_unix)) (fun inserted =>
          match inserted with
          | Err _ => Ret (Err state_error)
          | Ok _ =>
              let? pending_record :=
                SeStore (McApprovalPending (ar_authorization_id existing) (approval_nonce pending) now_unix) in
              Ret (preview pending_record)
          end)
      else Ret (preview existing)
  | Err _ =>
      match disposition with
      | DispositionAllow =>
          let! record := allow_commit record now_unix in
          let? persisted := SeStore (McInsert record now_unix) in Ret (preview persisted)
      | DispositionRequireApproval =>
          if negb has_approvals then Ret (Err state_error)
          else
            let! pending := new_pending_approval raw record p profile_name process_uid now_unix in
            Vis (SeApproval pending (now_ms_of now_unix)) (fun inserted =>
            match inserted with
            | Err _ => Ret (Err state_error)
            | Ok _ =>
                let! record := require_approval record (approval_nonce pending) now_unix in
                let? persisted := SeStore (McInsert record now_unix) in Ret (preview persisted)
            end)
      end
  end).

(** The record's approval is in the store, for this record, with a valid attestation. *)
Definition approval_checked (approvals : option (Store Text)) (key : option (list Z)) (binding : AttestationBinding)
    (r : AuthorizationRecord) (now_unix : Z) : result MppError unit :=
  nonce ← ok_or approval_error (ar_approval_nonce r);
  approvals ← ok_or approval_error approvals;
  key ← ok_or approval_error key;
  p ← prepared_charge r;
  if negb (verify_mpp_charge_attestation approvals key binding nonce (ar_fingerprint r) (pc_artifact_hash p) (now_ms_of now_unix))
  then Err approval_error else Ok ().

Definition verify_pending_approval (approvals : option (Store Text)) (key : option (list Z)) (binding : AttestationBinding)
    (id : string) (now_unix : Z) : Svc AuthorizationRecord :=
  let? r := SeLoad id in
  if bool_decide (ar_status r = StReady) then Ret (Ok r)
  else if negb (bool_decide (ar_status r = StApprovalPending)) then Ret (Err replay_error)
  else
    let! checked := approval_checked approvals key binding r now_unix in
    let? ready := SeStore (McReady id now_unix) in Ret (Ok ready).

(** ** Committing *)

(** The notification of a refusal, with the record as it can be read now. *)
Definition withheld_row {A} (id stage : string) (key_access_began policy_budget_consumed : bool) (after : Svc A) : Svc A :=
  Vis (SeLoad id) (fun loaded =>
  match loaded with
  | Ok r => Vis (SeWithheld (MkWithheld r stage key_access_began policy_budget_consumed)) (fun _ => after)
  | Err _ => after
  end).
Definition notify_withheld {A} (id : string) (now_unix : Z) (stage : string) (key_access_began policy_budget_consumed : bool)
    (after : Svc A) : Svc A :=
  Vis (SeStore (McIndeterminate id now_unix)) (fun _ => withheld_row id stage key_access_began policy_budget_consumed after).

(** From the constructed credential to its release. *)
Definition deliver (id : string) (now_unix : Z) (effects : ValueEffects) (credential : CredentialOutput) : Svc CredentialOutput :=
  match credential_to_vec credential with
  | Err _ => notify_withheld id now_unix "credential_encoding" true true (Ret (Err state_error))
  | Ok bytes =>
      Vis (SeStore (McDelivery id (sha256 bytes) now_unix)) (fun marked =>
      match marked with
      | Err e => notify_withheld id now_unix "delivery_state" true true (Ret (Err e))
      | Ok record =>
          let! prepared := prepared_charge record in
          Vis (SeBeforeDelivery record (pc_payer prepared) effects) (fun audited =>
          match audited with
          | Err e => Vis (SeStore (McWithheld id now_unix)) (fun _ => withheld_row id "authorization_audit" true true (Ret (Err e)))
          | Ok _ =>
              Vis (SeStore (McAuthorized id now_unix)) (fun authorized =>
              match authorized with
              | Err e => Vis (SeStore (McWithheld id now_unix)) (fun _ => withheld_row id "final_state" true true (Ret (Err e)))
              | Ok _ => Ret (Ok credential)
              end)
          end)
      end)
  end.

(** From the claim to the constructed credential. *)
Definition authorize (id : string) (now_unix : Z) : Svc CredentialOutput :=
  let? record := SeStore (McClaim id now_unix) in
  let! prepared := prepared_charge record in
  let effects := mpp_value_effects (pc_selected prepared) in
  Vis (SeBeforeSign record prepared effects) (fun gate =>
  match gate with
  | Err (PolicyRefused e) =>
      Vis (SeStore (McRefused id now_unix)) (fun marked =>
      match marked with
      | Err persistence =>
          Vis (SeWithheld (MkWithheld record "policy_refusal_persist_failed" false false)) (fun _ => Ret (Err persistence))
      | Ok refused => Vis (SeWithheld (MkWithheld refused "policy_refusal" false false)) (fun _ => Ret (Err e))
      end)
  | Err (Accounting e) => notify_withheld id now_unix "policy_accounting" false true (Ret (Err e))
  | Ok _ =>
      Vis (SeStore (McAccounted id)) (fun accounted =>
      match accounted with
      | Err e => notify_withheld id now_unix "policy_state" false true (Ret (Err e))
      | Ok _ =>
          Vis (SeCommitSponsored prepared now_unix) (fun signed =>
          match signed with
          | Err (e, stage) => notify_withheld id now_unix (stage_label stage) (stage_key_access_began stage) true (Ret (Err e))
          | Ok credential => deliver id now_unix effects credential
          end)
      end)
  end).

Definition commit_authorization (approvals : option (Store Text)) (key : option (list Z)) (binding : AttestationBinding)
    (id : string) (now_unix : Z) : Svc CredentialOutput :=
  let? record := SeLoad id in
  if bool_decide (ar_status record = StApprovalPending) then
    let! checked := approval_checked approvals key binding record now_unix in
    let? ready := SeStore (McReady id now_unix) in
    if negb (bool_decide (ar_status ready = StReady)) then Ret (Err replay_error) else authorize id now_unix
  else if negb (bool_decide (ar_status record = StReady)) then Ret (Err replay_error)
  else authorize id now_unix.
End service.

(** ** Machine payments: reconciling with the ledger (stellar-agent-mpp, [reconcile.rs])

    A transaction that reached the ledger is compared with the prepared charge, its two
    signatures are checked, and the outcome is recorded. *)

Local Open Scope string_scope.
Local Open Scope list_scope.
Local Open Scope Z_scope.

Definition unavailable : MppError :=
  mpp_error ReconciliationUnavailable "ledger reconciliation could not verify the MPP transaction".
Definition envelope_undecodable : MppError :=
  mpp_error ReconciliationUnavailable "the ledger's transaction envelope could not be decoded".

Record ReconciliationResult := MkReconciliation {
  rr_authorization_id : string;
  rr_outcome : string;
  rr_ledger : Z;
  rr_transaction_reference_redacted : string;
}.

(** The answer of [getTransaction] as an observation. *)
Definition observe_record (status : string) (ledger : option Z) (tx_hash : option string) (envelope : result string (option ChargeEnvelope))
  : result MppError TransactionObservation :=
  status ← (if bool_decide (status = "SUCCESS") then Ok TsSuccess
            else if bool_decide (status = "FAILED") then Ok TsFailed
            else if bool_decide (status = "NOT_FOUND") then Ok TsNotFound
            else Err unavailable);
  envelope ← map_err (fun _ => envelope_undecodable) envelope;
  Ok (MkTxObservation status ledger tx_hash envelope).

Definition parse_hash (value : string) : result MppError (list Z) :=
  if negb (len value =? 64) || negb (str_all is_hex_byte value) then Err unavailable
  else map_err (fun _ => unavailable) (decode_hex32 value).

Definition redact_reference (value : string) : string :=
  String.substring 0 8 value +:+ "..." +:+ String.substring (String.length value - 8) 8 value.

Section reconcile.
Context `{S2 : !Sha2, SK : !Strkey, U : !UrlCrate, SX : !SponsoredXdr, CX : !ChargeXdr, V : !Ed25519Verify}.

Definition validate_receipt_reference (r : AuthorizationRecord) (transaction_hash : string) : result MppError unit :=
  match ar_host_observation r with
  | Some receipt => if negb (bool_decide (ob_reference_digest receipt = sha256 (as_bytes transaction_hash))) then Err unavailable else Ok ()
  | None => Ok ()
  end.

(** The paid server's own signature on the transaction it submitted. *)
Definition verify_server_envelope_signature (v : ChargeV1) : result MppError unit :=
  match ct_source_account (cv_tx v) with
  | MuxEd25519 public_key =>
      if bool_decide (public_key = replicate 32 0) || negb (count (cv_signatures v) =? 1) then Err unavailable
      else
        signature ← ok_or unavailable (head (cv_signatures v));
        if negb (bool_decide (ds_hint signature = drop 28 public_key)) then Err unavailable
        else if negb (count (ds_signature signature) =? 64) then Err unavailable
        else
          payload ← map_err (fun _ => unavailable) (charge_payload_to_xdr (network_id TESTNET_PASSPHRASE) (cv_tx v));
          if dalek_verify_strict public_key (sha256 payload) (ds_signature signature) then Ok () else Err unavailable
  | MuxMuxed _ _ => Err unavailable
  end.

(** The two fields of a signature, whichever order they come in. *)
Fixpoint signature_fields (public_key signature : option (list Z)) (fields : list (ScVal * ScVal))
  : result MppError (option (list Z) * option (list Z)) :=
  match fields with
  | [] => Ok (public_key, signature)
  | (SvSymbol name, value) :: rest =>
      if bool_decide (name = "public_key") then
        match value with
        | SvBytes b => if count b =? 32 then signature_fields (Some b) signature rest else Err unavailable
        | _ => Err unavailable
        end
      else if bool_decide (name = "signature") then
        match value with
        | SvBytes b => if count b =? 64 then signature_fields public_key (Some b) rest else Err unavailable
        | _ => Err unavailable
        end
      else Err unavailable
  | _ :: _ => Err unavailable
  end.

Definition verify_address_signature (c : AddressCredentials) (invocation : AuthorizedInvocation) : result MppError unit :=
  match cr_signature c with
  | SvVec (Some [SvMap (Some fields)]) =>
      if negb (count fields =? 2) then Err unavailable
      else
        '(public_key, signature) ← signature_fields None None fields;
        public_key ← ok_or unavailable public_key;
        signature ← ok_or unavailable signature;
        match cr_address c with
        | ScAccount account_key =>
            if negb (bool_decide (public_key = account_key)) then Err unavailable
            else
              preimage ← map_err (fun _ => unavailable)
                           (preimage_to_xdr (network_id TESTNET_PASSPHRASE) (cr_nonce c) (cr_signature_expiration_ledger c) invocation);
              if dalek_verify_strict public_key (sha256 preimage) signature then Ok () else Err unavailable
        | _ => Err unavailable
        end
  | _ => Err unavailable
  end.

Definition inspect_inner (r : AuthorizationRecord) (v : ChargeV1) : result MppError unit :=
  prepared ← prepared_charge r;
  expected_expiry ← ok_or unavailable (checked u64 (ar_expires_at r));
  let tx := cv_tx v in
  time_bounds ← ok_or unavailable (time_bounds_of (ct_cond tx));
  if (ct_seq_num tx <=? 0) || negb (is_memo_none (ct_memo tx)) || negb (min_time time_bounds =? 0)
     || negb (max_time time_bounds =? expected_expiry) || negb (count (ct_operations tx) =? 1) || negb (is_ext_v1 (ct_ext tx))
  then Err unavailable
  else
    _ ← verify_server_envelope_signature v;
    operation ← ok_or unavailable (head (ct_operations tx));
    match co_body operation with
    | InvokeHostFunction f auth =>
        if bool_decide (is_Some (co_source_account operation)) || negb (is_invoke_of (pc_invoke prepared) f) || negb (count auth =? 1)
        then Err unavailable
        else
          entry ← ok_or unavailable (head auth);
          match au_credentials entry, au_credentials (pc_auth_entry prepared) with
          | CredAddress credentials, CredAddress expected =>
              if negb (bool_decide (cr_address credentials = cr_address expected)) || (cr_signature_expiration_ledger credentials =? 0)
                 || bool_decide (cr_signature credentials = SvVoid)
                 || negb (bool_decide (au_root_invocation entry = au_root_invocation (pc_auth_entry prepared)))
              then Err unavailable
              else verify_address_signature credentials (au_root_invocation entry)
          | _, _ => Err unavailable
          end
    | OtherChargeBody _ => Err unavailable
    end.

Definition inspect_observed_envelope (r : AuthorizationRecord) (envelope : ChargeEnvelope) : result MppError unit :=
  match envelope with
  | CeTx inner => inspect_inner r inner
  | CeTxFeeBump inner _ => inspect_inner r inner
  | CeTxV0 _ => Err unavailable
  end.

Definition outcome_of (o : TransactionObservation) (ledger now_unix : Z) : result MppError (LedgerOutcome * string) :=
  match to_status o with
  | TsSuccess => Ok (LoSettled ledger now_unix, "settled")
  | TsFailed => Ok (LoFailed ledger now_unix, "failed")
  | TsNotFound => Err unavailable
  end.

Definition reconcile_transaction (id transaction_hash : string) (now_unix : Z) : Svc ReconciliationResult :=
  let! hash := parse_hash transaction_hash in
  let? record := SeLoad id in
  let! referenced := validate_receipt_reference record transaction_hash in
  let? observation := SeTransaction hash in
  if (match to_status observation with TsNotFound => true | _ => false end)
     || negb (bool_decide (to_transaction_hash observation = Some transaction_hash))
  then Ret (Err unavailable)
  else
    let! ledger := ok_or unavailable (to_ledger observation) in
    let! envelope := ok_or unavailable (to_envelope observation) in
    let! inspected := inspect_observed_envelope record envelope in
    let! outcome := outcome_of observation ledger now_unix in
    let? recorded := SeStore (McLedger id (fst outcome) now_unix) in
    Ret (Ok (MkReconciliation id (snd outcome) ledger (redact_reference transaction_hash))).
End reconcile.
