(* ===== verification/MppServiceProps.v ===== *)
(** * Properties of commits

    A credential leaves a commit along one path only, and any number of commits of one
    authorization, interleaved with each other and with anyone else who uses the store,
    release one credential at most.  What a commit signs is what was prepared, and the
    transaction the paid server makes of it passes reconciliation. *)

From S2P Require Import Prelude RustStr Json Bytes PolicyTypes Value Attestation Approval ApprovalStore Keyring Network Mpp MppStore MppProps MppCharge MppService.
From stdpp Require Import options.

Local Open Scope string_scope.
Local Open Scope list_scope.
Local Open Scope Z_scope.
Set Default Proof Using "Type*".

(** ** One execution *)

(** A request and its answer. *)
Inductive Answered :=
| Ans {X : Type} (e : SvcE X) (x : X).

(** [p] asks what [tr] says, gets those answers, and ends with [a]. *)
Inductive ends {A} : Prog SvcE A -> list Answered -> A -> Prop :=
| ends_ret a : ends (Ret a) [] a
| ends_vis X (e : SvcE X) (k : X -> Prog SvcE A) x tr a : ends (k x) tr a -> ends (Vis e k) (Ans e x :: tr) a.

Lemma ends_ret_inv {A} (a b : A) tr : ends (Ret a) tr b -> tr = [] /\ a = b.
Proof. inversion 1; subst; by split. Qed.
Lemma ends_vis_inv {A X} (e : SvcE X) (k : X -> Prog SvcE A) tr a :
  ends (Vis e k) tr a -> exists x tr', tr = Ans e x :: tr' /\ ends (k x) tr' a.
Proof.
  set (p := Vis e k). intros H. assert (E : p = Vis e k) by done. revert E. clearbody p.
  destruct H as [|Y e' k' x tr a H]; [done|]. intros E.
  refine (match E in _ = q return match q with Ret _ => True | Vis e0 k0 => exists x0 tr', Ans e' x :: tr = Ans e0 x0 :: tr' /\ ends (k0 x0) tr' a end
          with eq_refl => _ end). by exists x, tr.
Qed.

Section paths.
Context {Text : Type} `{S2 : !Sha2, BB : !Base64, SK : !Strkey, U : !UrlCrate, SX : !SponsoredXdr, XJ : !CredentialJson}.

(** No path through a notification releases anything. *)
Lemma withheld_row_inv {A} id stage key budget e tr (a : A) :
  ~ ends (withheld_row id stage key budget (Ret (Err e))) tr (Ok a).
Proof using Type.
  unfold withheld_row. intros (x & tr' & _ & H)%ends_vis_inv. destruct x as [r|e'].
  - apply ends_vis_inv in H as (y & tr2 & _ & H). by apply ends_ret_inv in H as [_ H].
  - by apply ends_ret_inv in H as [_ H].
Qed.
Lemma notify_withheld_inv {A} id t stage key budget e tr (a : A) :
  ~ ends (notify_withheld id t stage key budget (Ret (Err e))) tr (Ok a).
Proof using Type. intros (x & tr' & _ & H)%ends_vis_inv. by apply withheld_row_inv in H. Qed.

Lemma deliver_inv id t effects credential tr c :
  ends (deliver id t effects credential) tr (Ok c) ->
  c = credential /\ exists bytes record prepared authorized,
    credential_to_vec credential = Ok bytes /\ prepared_charge record = Ok prepared /\
    tr = [Ans (SeStore (McDelivery id (sha256 bytes) t)) (Ok record);
          Ans (SeBeforeDelivery record (pc_payer prepared) effects) (Ok ());
          Ans (SeStore (McAuthorized id t)) (Ok authorized)].
Proof using Type.
  unfold deliver. destruct (credential_to_vec credential) as [bytes|e0]; [|by intros H%notify_withheld_inv].
  intros (x & tr1 & -> & H)%ends_vis_inv. destruct x as [record|e0]; [|by apply notify_withheld_inv in H].
  destruct (prepared_charge record) as [prepared|e0] eqn:Ep; [|by apply ends_ret_inv in H as [_ H]].
  apply ends_vis_inv in H as (x & tr2 & -> & H). destruct x as [[]|e0].
  - apply ends_vis_inv in H as (x & tr3 & -> & H). destruct x as [authorized|e0].
    + apply ends_ret_inv in H as [-> [= <-]]. split; [done|]. by exists bytes, record, prepared, authorized.
    + apply ends_vis_inv in H as (y & tr4 & _ & H). by apply withheld_row_inv in H.
  - apply ends_vis_inv in H as (y & tr4 & _ & H). by apply withheld_row_inv in H.
Qed.

(** The requests that precede a release, in order, with the answers they got. *)
Definition release_path (id : string) (t : Z) (c : CredentialOutput) (tr : list Answered) : Prop :=
  exists claimed prepared accounted bytes record prepared' authorized,
    prepared_charge claimed = Ok prepared /\ credential_to_vec c = Ok bytes /\ prepared_charge record = Ok prepared' /\
    tr = [Ans (SeStore (McClaim id t)) (Ok claimed);
          Ans (SeBeforeSign claimed prepared (mpp_value_effects (pc_selected prepared))) (Ok ());
          Ans (SeStore (McAccounted id)) (Ok accounted);
          Ans (SeCommitSponsored prepared t) (Ok c);
          Ans (SeStore (McDelivery id (sha256 bytes) t)) (Ok record);
          Ans (SeBeforeDelivery record (pc_payer prepared') (mpp_value_effects (pc_selected prepared))) (Ok ());
          Ans (SeStore (McAuthorized id t)) (Ok authorized)].

Lemma authorize_inv id t tr c : ends (authorize id t) tr (Ok c) -> release_path id t c tr.
Proof using Type.
  intros (x & tr1 & -> & H)%ends_vis_inv. destruct x as [claimed|e0]; [|by apply ends_ret_inv in H as [_ H]].
  destruct (prepared_charge claimed) as [prepared|e0] eqn:Ep; [|by apply ends_ret_inv in H as [_ H]].
  apply ends_vis_inv in H as (x & tr2 & -> & H). destruct x as [[]|[e0|e0]].
  - apply ends_vis_inv in H as (x & tr3 & -> & H). destruct x as [accounted|e0]; [|by apply notify_withheld_inv in H].
    apply ends_vis_inv in H as (x & tr4 & -> & H). destruct x as [credential|[e0 stage]]; [|by apply notify_withheld_inv in H].
    apply deliver_inv in H as (-> & bytes & record & prepared' & authorized & Hb & Hp & ->).
    by exists claimed, prepared, accounted, bytes, record, prepared', authorized.
  - apply ends_vis_inv in H as (x & tr3 & _ & H).
    destruct x; apply ends_vis_inv in H as (y & tr4 & _ & H); by apply ends_ret_inv in H as [_ H].
  - by apply notify_withheld_inv in H.
Qed.

(** The record was loaded ready, or pending with an attested approval and then marked ready. *)
Definition release_trace (approvals : option (Store Text)) (key : option (list Z)) (binding : AttestationBinding) (id : string) (t : Z)
    (tr : list Answered) (c : CredentialOutput) : Prop :=
  exists loaded rest,
    (ar_status loaded = StReady /\ tr = Ans (SeLoad id) (Ok loaded) :: rest \/
     exists ready, ar_status loaded = StApprovalPending /\ approval_checked approvals key binding loaded t = Ok () /\
       ar_status ready = StReady /\ tr = Ans (SeLoad id) (Ok loaded) :: Ans (SeStore (McReady id t)) (Ok ready) :: rest) /\
    release_path id t c rest.

Lemma release_trace_ends (approvals : option (Store Text)) key binding id t tr c :
  release_trace approvals key binding id t tr c -> ends (commit_authorization approvals key binding id t) tr (Ok c).
Proof using Type.
  intros (loaded & rest & Hl & claimed & prepared & accounted & bytes & record & prepared' & authorized & Hc & Hb & Hr & ->).
  assert (Ha : ends (authorize id t)
    [Ans (SeStore (McClaim id t)) (Ok claimed);
     Ans (SeBeforeSign claimed prepared (mpp_value_effects (pc_selected prepared))) (Ok ());
     Ans (SeStore (McAccounted id)) (Ok accounted);
     Ans (SeCommitSponsored prepared t) (Ok c);
     Ans (SeStore (McDelivery id (sha256 bytes) t)) (Ok record);
     Ans (SeBeforeDelivery record (pc_payer prepared') (mpp_value_effects (pc_selected prepared))) (Ok ());
     Ans (SeStore (McAuthorized id t)) (Ok authorized)] (Ok c)).
  { unfold authorize. constructor. rewrite Hc. constructor. constructor. constructor. unfold deliver. rewrite Hb. constructor.
    rewrite Hr. constructor. constructor. constructor. }
  destruct Hl as [[Hs ->]|(ready & Hs & Hap & Hr' & ->)]; unfold commit_authorization; constructor; rewrite Hs.
  - by rewrite bool_decide_eq_false_2, bool_decide_eq_true_2.
  - rewrite bool_decide_eq_true_2 by done. rewrite Hap. constructor. by rewrite Hr', bool_decide_eq_true_2.
Qed.

(** C12: The credential of a commit is released exactly along one path: the record was loaded ready, or
    pending with an attested approval for exactly this fingerprint and artifact and then marked
    ready, and then the claim, the policy gate, its accounting, the signing step, the
    digest of exactly this credential, the audit gate and the last mark were all
    acknowledged, in this order and each once. *)
Theorem released_along_one_path (approvals : option (Store Text)) key binding id t tr c :
  ends (commit_authorization approvals key binding id t) tr (Ok c) <-> release_trace approvals key binding id t tr c.
Proof using Type.
  split; [|apply release_trace_ends].
  intros (x & tr1 & -> & H)%ends_vis_inv. destruct x as [loaded|e0]; [|by apply ends_ret_inv in H as [_ H]].
  exists loaded. case_bool_decide as E1.
  - destruct (approval_checked _ _ _ _ _) as [[]|e0] eqn:Ea; [|by apply ends_ret_inv in H as [_ H]].
    apply ends_vis_inv in H as (x & tr2 & -> & H). destruct x as [ready|e0]; [|by apply ends_ret_inv in H as [_ H]].
    case_bool_decide as E2; [|by apply ends_ret_inv in H as [_ H]]. apply authorize_inv in H. exists tr2. split; [right; by exists ready|done].
  - case_bool_decide as E2; [|by apply ends_ret_inv in H as [_ H]]. apply authorize_inv in H. exists tr1. split; [by left|done].
Qed.

(** What the approval of a committed record says. *)
Lemma approval_checked_inv (approvals : option (Store Text)) key binding r t :
  approval_checked approvals key binding r t = Ok () ->
  exists nonce s k p, ar_approval_nonce r = Some nonce /\ approvals = Some s /\ key = Some k /\ prepared_charge r = Ok p /\
    verify_mpp_charge_attestation s k binding nonce (ar_fingerprint r) (pc_artifact_hash p) (now_ms_of t) = true.
Proof using Type.
  unfold approval_checked. intros H. res_inv. destruct (verify_mpp_charge_attestation _ _ _ _ _ _ _) eqn:E; [|done].
  by eexists _, _, _, _.
Qed.
End paths.

(** ** Many commits *)

Section system.
Context {Text : Type} `{S2 : !Sha2, SL : !Sha2Laws, BB : !Base64, SK : !Strkey, U : !UrlCrate, SX : !SponsoredXdr, XJ : !CredentialJson, MJ : !MppJson, ML : !MppJsonLaws}.

(** A commit of [th_id], with whether one of its claims was acknowledged so far. *)
Record Thread := MkThread { th_id : string; th_claimed : bool; th_prog : Svc CredentialOutput }.

Definition claim_answer (id : string) {X} (e : SvcE X) : X -> bool :=
  match e in SvcE Y return Y -> bool with
  | SeStore c => fun r => claims id c && is_ok r
  | _ => fun _ => false
  end.
Definition advance {X} (th : Thread) (e : SvcE X) (x : X) (p : Svc CredentialOutput) : Thread :=
  MkThread (th_id th) (th_claimed th || claim_answer (th_id th) e x) p.

(** Requests the store does not answer. *)
Definition outside {X} (e : SvcE X) : bool := match e with SeLoad _ | SeStore _ => false | _ => true end.

(** Commits start at any time with any arguments.  One of them makes its next request, or
    someone else acts; a commit that stops for ever is one that is not chosen again. *)
Inductive system (entry : KeyringEntryRef) (key : list Z) : list MEvent -> MppDisk -> list Thread -> Prop :=
| sys_run evs d : mrun entry key evs d -> system entry key evs d []
| sys_spawn evs d ts approvals akey binding id t :
    system entry key evs d ts ->
    system entry key evs d (MkThread id false (commit_authorization (Text := Text) approvals akey binding id t) :: ts)
| sys_other evs d ts evs' d' : system entry key evs d ts -> mstep entry key evs d evs' d' -> system entry key evs' d' ts
| sys_load evs d ts1 th ts2 env h id k r d' :
    system entry key evs d (ts1 ++ th :: ts2) -> th_prog th = Vis (SeLoad id) k ->
    mpp_load env h id d = (r, d') -> system entry key evs d' (ts1 ++ advance th (SeLoad id) r (k r) :: ts2)
| sys_store evs d ts1 th ts2 env h c k r d' :
    system entry key evs d (ts1 ++ th :: ts2) -> th_prog th = Vis (SeStore c) k ->
    mh_state_key_entry h = Some entry -> mh_generation_entry h = mpp_generation_ref entry ->
    mcall env h c d = (r, d') -> system entry key (EvMpp c (is_ok r) :: evs) d' (ts1 ++ advance th (SeStore c) r (k r) :: ts2)
| sys_outside evs d ts1 th ts2 X (e : SvcE X) k x :
    system entry key evs d (ts1 ++ th :: ts2) -> th_prog th = Vis e k -> outside e = true ->
    system entry key evs d (ts1 ++ advance th e x (k x) :: ts2).

(** A program that runs to its end while nobody else acts. *)
Inductive alone {A} (entry : KeyringEntryRef) : list MEvent -> MppDisk -> Svc A -> list MEvent -> MppDisk -> result MppError A -> Prop :=
| alone_ret evs d a : alone entry evs d (Ret a) evs d a
| alone_load evs d env h id k r d1 evs' d' a :
    mpp_load env h id d = (r, d1) -> alone entry evs d1 (k r) evs' d' a -> alone entry evs d (Vis (SeLoad id) k) evs' d' a
| alone_store evs d env h c k r d1 evs' d' a :
    mh_state_key_entry h = Some entry -> mh_generation_entry h = mpp_generation_ref entry -> mcall env h c d = (r, d1) ->
    alone entry (EvMpp c (is_ok r) :: evs) d1 (k r) evs' d' a -> alone entry evs d (Vis (SeStore c) k) evs' d' a
| alone_outside evs d X (e : SvcE X) k x evs' d' a :
    outside e = true -> alone entry evs d (k x) evs' d' a -> alone entry evs d (Vis e k) evs' d' a.

Lemma alone_system entry key evs d p evs' d' a ts1 id b ts2 :
  alone entry evs d p evs' d' a -> system entry key evs d (ts1 ++ MkThread id b p :: ts2) ->
  exists b', system entry key evs' d' (ts1 ++ MkThread id b' (Ret a) :: ts2).
Proof using Type.
  intros H. revert b. induction H as [|evs d env h i k r d1 evs' d' a Hl _ IH|evs d env h c k r d1 evs' d' a H1 H2 Hc _ IH|evs d X e k x evs' d' a Ho _ IH];
    intros b Hs; [by exists b|..]; eapply IH.
  - by eapply (sys_load _ _ _ _ _ _ _ env h i k r) in Hs.
  - by eapply (sys_store _ _ _ _ _ _ _ env h c k r) in Hs.
  - by eapply (sys_outside _ _ _ _ _ _ _ _ e k x) in Hs.
Qed.

(** A ready record's commit that is left alone, and that no gate refuses, releases its credential. *)
Lemma commit_alone (approvals : option (Store Text)) akey binding id t entry env h evs d d1 d2 d3 d4 loaded claimed accounted prepared c bytes record prepared' authorized :
  mh_state_key_entry h = Some entry -> mh_generation_entry h = mpp_generation_ref entry ->
  mpp_load env h id d = (Ok loaded, d) -> ar_status loaded = StReady -> mcall env h (McClaim id t) d = (Ok claimed, d1) ->
  prepared_charge claimed = Ok prepared -> mcall env h (McAccounted id) d1 = (Ok accounted, d2) -> credential_to_vec c = Ok bytes ->
  mcall env h (McDelivery id (sha256 bytes) t) d2 = (Ok record, d3) -> prepared_charge record = Ok prepared' ->
  mcall env h (McAuthorized id t) d3 = (Ok authorized, d4) ->
  alone entry evs d (commit_authorization approvals akey binding id t)
    (EvMpp (McAuthorized id t) true :: EvMpp (McDelivery id (sha256 bytes) t) true :: EvMpp (McAccounted id) true :: EvMpp (McClaim id t) true :: evs)
    d4 (Ok c).
Proof using Type.
  intros H1 H2 Hl Hs Hc Hp Ha Hb Hd Hr Hz. unfold commit_authorization. eapply alone_load; [exact Hl|]. cbn beta iota. rewrite Hs.
  rewrite bool_decide_eq_false_2, bool_decide_eq_true_2 by done. cbn [negb]. unfold authorize.
  eapply (alone_store _ _ _ env h (McClaim id t)); [done..|exact Hc|]. cbn beta iota. rewrite Hp. eapply (alone_outside _ _ _ _ _ _ (Ok ())); [done|].
  eapply (alone_store _ _ _ env h (McAccounted id)); [done..|exact Ha|]. eapply (alone_outside _ _ _ _ _ _ (Ok c)); [done|]. unfold deliver. rewrite Hb.
  eapply (alone_store _ _ _ env h (McDelivery id (sha256 bytes) t)); [done..|exact Hd|]. cbn beta iota. rewrite Hr. eapply (alone_outside _ _ _ _ _ _ (Ok ())); [done|].
  eapply (alone_store _ _ _ env h (McAuthorized id t)); [done..|exact Hz|]. apply alone_ret.
Qed.

(** No credential comes out of [p] unless the claim is acknowledged. *)
Fixpoint claims_first (id : string) (claimed : bool) (p : Svc CredentialOutput) : Prop :=
  match p with
  | Ret (Ok _) => claimed = true
  | Ret (Err _) => True
  | Vis e k => forall x, claims_first id (claimed || claim_answer id e x) (k x)
  end.

Lemma withheld_claims_first id b id' stage key budget e : claims_first id b (withheld_row id' stage key budget (Ret (Err e))).
Proof using Type. intros [r|e']; [intros []|]; done. Qed.
Lemma notify_claims_first id b id' t stage key budget e :
  claims_first id b (notify_withheld id' t stage key budget (Ret (Err e))).
Proof using Type. intros x. apply withheld_claims_first. Qed.

Lemma deliver_claims_first id id' t effects credential : claims_first id true (deliver id' t effects credential).
Proof using Type.
  unfold deliver. destruct (credential_to_vec credential) as [bytes|e]; [|apply notify_claims_first].
  intros [record|e]; [|apply notify_claims_first]. destruct (prepared_charge record); [|done].
  intros [[]|e]; [intros [r|e]; [done|]|]; intros y; apply withheld_claims_first.
Qed.

Lemma commit_claims_first (approvals : option (Store Text)) akey binding id t :
  claims_first id false (commit_authorization approvals akey binding id t).
Proof using Type.
  assert (Ha : claims_first id false (authorize id t)).
  { intros [record|e]; [|done]. cbn [claim_answer claims is_ok]. rewrite bool_decide_eq_true_2 by done. cbn [orb andb].
    destruct (prepared_charge record); [|done]. intros [[]|[e|e]]; [|intros [r|e']; intros []; done|apply notify_claims_first].
    intros [accounted|e]; [|apply notify_claims_first]. intros [credential|[e stage]]; [apply deliver_claims_first|apply notify_claims_first]. }
  intros [record|e]; [|done]. case_bool_decide.
  - destruct (approval_checked _ _ _ _ _); [|done]. intros [ready|e]; [|done]. case_bool_decide; done.
  - case_bool_decide; done.
Qed.

Definition claimants (id : string) (ts : list Thread) : nat :=
  length (filter (fun th => th_claimed th && bool_decide (th_id th = id) = true) ts).
Definition claim_count (id : string) (evs : list MEvent) : nat :=
  length (filter (fun c => claims id c = true) (omap event_acked evs)).

Lemma claimants_middle id ts1 th ts2 :
  claimants id (ts1 ++ th :: ts2) = (claimants id (ts1 ++ ts2) + claimants id [th])%nat.
Proof using Type. unfold claimants. rewrite !filter_app, !length_app, filter_cons, filter_cons, filter_nil. case_decide; cbn; lia. Qed.

Lemma claimants_same id ts1 th p ts2 :
  claimants id (ts1 ++ MkThread (th_id th) (th_claimed th) p :: ts2) = claimants id (ts1 ++ th :: ts2).
Proof using Type. rewrite !claimants_middle. f_equal. unfold claimants. rewrite !filter_cons. cbn [th_claimed th_id]. by case_decide. Qed.

Lemma claimants_one id th : claimants id [th] = Nat.b2n (th_claimed th && bool_decide (th_id th = id)).
Proof using Type. unfold claimants. rewrite filter_cons, filter_nil. case_decide as E; [by rewrite E|]. apply not_true_is_false in E. by rewrite E. Qed.

Lemma claim_count_cons id c ok evs : claim_count id (EvMpp c ok :: evs) = (Nat.b2n (ok && claims id c) + claim_count id evs)%nat.
Proof using Type.
  unfold claim_count. cbn [omap list_omap event_acked]. destruct ok; [|done]. rewrite filter_cons.
  case_decide as E; [by rewrite E|]. apply not_true_is_false in E. by rewrite E.
Qed.

Lemma load_same env h id d r d' : mpp_load env h id d = (r, d') -> d' = d.
Proof using Type.
  intros [(e & H & _)|(u & d1 & H1 & H)]%mpp_bind_inv; [by injection H|]. injection H1 as _ <-.
  apply mpp_bind_inv in H as [(e & H & _)|(u' & d1 & H1 & H)]; [by apply lock_same in H|]. apply lock_same in H1 as ->.
  apply mpp_bind_inv in H as [(e & H & _)|(w & d1 & H1 & H)]; [by apply read_verified_inv in H as [-> _]|].
  apply read_verified_inv in H1 as [-> _]. by injection H.
Qed.

Lemma step_counts entry key evs d evs' d' id : mstep entry key evs d evs' d' -> (claim_count id evs <= claim_count id evs')%nat.
Proof using Type.
  destruct 1 as [env h c ok d' _ _ _| | |]; [|done..]. rewrite claim_count_cons. lia.
Qed.

(** Threads that claimed are no more than the acknowledged claims. *)
Lemma system_inv entry key evs d ts :
  system entry key evs d ts ->
  mrun entry key evs d /\ Forall (fun th => claims_first (th_id th) (th_claimed th) (th_prog th)) ts /\
  forall id, (claimants id ts <= claim_count id evs)%nat.
Proof using Type.
  induction 1 as [evs d Hr|evs d ts approvals akey binding id t _ (Hr & Hf & Hc)|evs d ts evs' d' _ (Hr & Hf & Hc) Hs
    |evs d ts1 th ts2 env h id k r d' _ (Hr & Hf & Hc) Hp Hl|evs d ts1 th ts2 env h c k r d' _ (Hr & Hf & Hc) Hp He Hge Hx
    |evs d ts1 th ts2 X e k x _ (Hr & Hf & Hc) Hp Ho].
  - split_and!; [done..|]. intros id. unfold claimants. cbn. lia.
  - split_and!; [done|constructor; [apply commit_claims_first|done]|]. intros id'. unfold claimants. rewrite filter_cons. apply Hc.
  - split_and!; [by eapply mrun_step|done|]. intros id. etransitivity; [apply Hc|by eapply step_counts].
  - apply load_same in Hl as ->. split_and!; [done| |].
    + apply Forall_app in Hf as [H1 [H2 H3]%Forall_cons]. rewrite Hp in H2. apply Forall_app. split; [done|]. constructor; [apply H2|done].
    + intros id'. unfold advance, claim_answer. rewrite orb_false_r, claimants_same. apply Hc.
  - split_and!.
    + eapply mrun_step; [done|]. eapply mstep_call; [done..|]. unfold mexec. by rewrite Hx.
    + apply Forall_app in Hf as [H1 [H2 H3]%Forall_cons]. rewrite Hp in H2. apply Forall_app. split; [done|]. constructor; [apply H2|done].
    + intros id. specialize (Hc id). rewrite claimants_middle, claimants_one in Hc |- *. rewrite claim_count_cons. unfold advance.
      cbn [claim_answer th_claimed th_id]. destruct (is_ok r); [|rewrite andb_false_r, orb_false_r; cbn; lia].
      case_bool_decide as E; [subst id; destruct (th_claimed th), (claims (th_id th) c)|rewrite !andb_false_r in *]; cbn in *; lia.
  - split_and!; [done| |].
    + apply Forall_app in Hf as [H1 [H2 H3]%Forall_cons]. rewrite Hp in H2. apply Forall_app. split; [done|]. constructor; [apply H2|done].
    + intros id'. unfold advance. assert (claim_answer (th_id th) e x = false) as -> by (by destruct e).
      rewrite orb_false_r, claimants_same. apply Hc.
Qed.

Definition released (id : string) (th : Thread) : bool :=
  bool_decide (th_id th = id) && match th_prog th with Ret (Ok _) => true | _ => false end.

(** C11: Take a store that was opened where there was no file and has not been reset since, in which the
    calls' times go back by at most 30 days (the time after which an old claim may be pruned) and two
    records of one authorization expire at the same time.  However many commits of an
    authorization run, in whatever interleaving with each other
    and with the rest of the store's users, with failing writes and with the
    file replaced by earlier ones, at most one of them ends with a credential. *)
Theorem one_credential_per_authorization entry key evs d ts expiry id :
  system entry key evs d ts -> inserts_expire expiry (omap event_call evs) -> times_ordered (omap event_call evs) ->
  (length (filter (fun th => released id th = true) ts) <= 1)%nat.
Proof.
  intros (Hr & Hf & Hc)%system_inv Hi Ho. transitivity (claim_count id evs); [|by eapply claimed_once].
  etransitivity; [|apply Hc]. clear - Hf. unfold claimants. induction Hf as [|th ts Hth Hts IH]; [done|].
  rewrite !filter_cons. case_decide as E; [|case_decide; cbn; lia].
  rewrite decide_True; [cbn; lia|]. apply andb_true_iff in E as [E1 E2]. rewrite E1, andb_true_r.
  destruct (th_prog th) as [[c|e]|]; done.
Qed.
End system.

(** ** Properties of charges

    What a commit signs is the prepared charge and nothing else, and the ledger's record of
    it is recognised again. *)

Local Open Scope string_scope.
Local Open Scope list_scope.
Local Open Scope Z_scope.
Set Default Proof Using "Type*".

(** The two encodings of a preimage are the same bytes. *)
Class ChargeXdrLaws `{!ChargeXdr} := {
  preimage_base64 nid nonce ledger invocation s :
    preimage_to_base64 nid nonce ledger invocation = Ok s ->
    exists bytes, preimage_to_xdr nid nonce ledger invocation = Ok bytes /\ standard_base64_decode s = Ok bytes;
}.

Section charges.
Context `{S2 : !Sha2, BB : !Base64, SK : !Strkey, U : !UrlCrate, SX : !SponsoredXdr, CX : !ChargeXdr, XL : !ChargeXdrLaws, CB : !ChargeBuilder, CW : !CredentialWire, V : !Ed25519Verify}.

(** ** Inspection *)

(** What an inspected envelope is. *)
Definition carries (e : ChargeEnvelope) (invoke : InvokeContractArgs) (auth : list SorobanAuthorizationEntry) (expires_at : Z)
    (soroban : bool) : Prop :=
  exists v tb, e = CeTx v /\ source_key (ct_source_account (cv_tx v)) = replicate 32 0 /\ ct_seq_num (cv_tx v) = 1 /\
    cv_signatures v = [] /\ ct_memo (cv_tx v) = MemoNone /\ time_bounds_of (ct_cond (cv_tx v)) = Some tb /\ min_time tb = 0 /\
    max_time tb = expires_at /\ in_rangeb u64 expires_at = true /\ ct_operations (cv_tx v) = [invoke_operation invoke auth] /\ is_ext_v1 (ct_ext (cv_tx v)) = soroban.

Lemma count_0 {A} (l : list A) : count l = 0 -> l = [].
Proof using Type. destruct l; [done|]. unfold count. cbn. lia. Qed.
Lemma count_1 {A} (l : list A) : count l = 1 -> exists x, l = [x].
Proof using Type. destruct l as [|x [|y l]]; [done|eauto|]. unfold count. cbn. lia. Qed.

Lemma checked_u64 z x : checked u64 z = Some x -> x = z /\ in_rangeb u64 z = true.
Proof using Type. unfold checked. destruct (in_rangeb _ _) eqn:E; [|done]. by intros [= <-]. Qed.

Lemma is_invoke_of_inv invoke f : is_invoke_of invoke f = true -> f = InvokeContract invoke.
Proof using Type. destruct f; [|done]. cbn. by intros ->%bool_decide_eq_true. Qed.

Lemma not_source (o : option MuxedAccount) : ~ is_Some o -> o = None.
Proof using Type. destruct o; [|done]. intros H. exfalso. apply H. eauto. Qed.

Lemma memo_none m : is_memo_none m = true -> m = MemoNone.
Proof using Type. by destruct m. Qed.

(** A chain of refusals that did not fire, as facts. *)
Ltac passed :=
  repeat match goal with
  | H : orb _ _ = false |- _ => apply orb_false_iff in H as [H ?]
  | H : negb _ = false |- _ => apply negb_false_iff in H
  | H : Z.eqb _ _ = true |- _ => apply Z.eqb_eq in H
  | H : Z.leb _ _ = false |- _ => apply Z.leb_gt in H
  | H : bool_decide _ = true |- _ => apply bool_decide_eq_true in H
  | H : bool_decide _ = false |- _ => apply bool_decide_eq_false in H
  | H : Bool.eqb _ _ = true |- _ => apply Bool.eqb_prop in H
  | H : is_invoke_of _ _ = true |- _ => apply is_invoke_of_inv in H; subst
  | H : count _ = 0 |- _ => apply count_0 in H
  | H : count _ = 1 |- _ => apply count_1 in H as [? H]
  | H : ~ is_Some _ |- _ => apply not_source in H
  | H : checked u64 _ = Some _ |- _ => apply checked_u64 in H as [-> ?]
  | H : is_memo_none ?m = true |- _ => apply memo_none in H
  end.

Lemma inspect_carries e invoke auth expires_at soroban :
  inspect_envelope e invoke auth expires_at soroban = Ok () -> carries e invoke auth expires_at soroban.
Proof using Type.
  destruct e as [|v|]; [done| |done]. unfold inspect_envelope. intros H. res_inv.
  match type of H with (if ?b then _ else _) = _ => destruct b eqn:E end; [done|]. res_inv. passed.
  match goal with E : ct_operations _ = [_] |- _ => rename E into Eop end. rewrite Eop in *. cbn in *.
  match goal with E : Some _ = Some _ |- _ => injection E as <- end.
  destruct (co_body _) as [f entries|] eqn:Eb; [|done]. match type of H with (if ?b then _ else _) = _ => destruct b eqn:E' end; [done|].
  passed. subst. eexists v, _. split_and!; try done. rewrite Eop. f_equal.
  match goal with |- ?op = _ => destruct op as [src body] end. cbn in *. by subst.
Qed.

(** ** Signing *)

(** The prepared entry with its last ledger and the payer's signature, and no other change. *)
Definition signed_entry (p : PreparedSponsoredCharge) (c : AddressCredentials) (ledger : Z) (key signature : list Z)
  : SorobanAuthorizationEntry :=
  MkAuth (CredAddress (MkCredentials (cr_address c) (cr_nonce c) ledger
            (SvVec (Some [SvMap (Some [(SvSymbol "public_key", SvBytes key); (SvSymbol "signature", SvBytes signature)])]))))
    (au_root_invocation (pc_auth_entry p)).

(** The credential carries one transaction, and that transaction carries the prepared
    invocation with the prepared entry, signed by the payer. *)
Definition signs (p : PreparedSponsoredCharge) (now_unix : Z) (public_key : result string (list Z))
    (sign : string -> list Z -> result string string) (cred : CredentialOutput) (entry : SorobanAuthorizationEntry) (final : ChargeEnvelope) : Prop :=
  exists c signer_key key b64 encoded signature xdr,
    let ledger := compute_expiration_ledger (pc_latest_ledger p) (sat_sub i64 (sc_effective_expires_at (pc_selected p)) now_unix) in
    au_credentials (pc_auth_entry p) = CredAddress c /\ public_key = Ok signer_key /\ public_key_to_string signer_key = pc_payer p /\
    public_key_from_string (pc_payer p) = Ok key /\
    preimage_to_base64 (network_id TESTNET_PASSPHRASE) (cr_nonce c) ledger (au_root_invocation (pc_auth_entry p)) = Ok b64 /\
    sign b64 signer_key = Ok encoded /\ standard_base64_decode encoded = Ok signature /\ count signature = 64 /\
    entry = signed_entry p c ledger key signature /\
    carries final (pc_invoke p) [entry] (sc_effective_expires_at (pc_selected p)) true /\
    charge_to_base64 final = Ok xdr /\ build_credential (pc_selected p) (pc_payer p) xdr = Ok cred.

Lemma finish_inv p simulate resim entries cred :
  finish_after_send p simulate resim entries = Ok cred ->
  exists final xdr, carries final (pc_invoke p) entries (sc_effective_expires_at (pc_selected p)) true /\
    charge_to_base64 final = Ok xdr /\ build_credential (pc_selected p) (pc_payer p) xdr = Ok cred.
Proof using Type.
  unfold finish_after_send. intros H. res_inv. match type of H with (if ?b then _ else _) = _ => destruct b end; [done|]. res_inv.
  match goal with E : inspect_envelope _ _ _ _ _ = Ok ?u |- _ => destruct u; apply inspect_carries in E end. eauto 10.
Qed.

Lemma at_stage_Ok {A} s (r : result MppError A) a : at_stage s r = Ok a -> r = Ok a.
Proof using Type. apply map_err_Ok. Qed.

Lemma commit_signs p now_unix passphrase public_key sign simulate cred :
  commit_sponsored_staged p now_unix passphrase public_key sign simulate = Ok cred ->
  passphrase = TESTNET_PASSPHRASE /\ MIN_CHALLENGE_LIFETIME_SECS <= sat_sub i64 (sc_effective_expires_at (pc_selected p)) now_unix /\
  exists entry final, signs p now_unix public_key sign cred entry final.
Proof using Type.
  unfold commit_sponsored_staged. intros H. apply res_bind_Ok in H as (u & Ht & H). apply at_stage_Ok in Ht.
  unfold require_testnet in Ht. case_bool_decide as Hp; [|done]. subst passphrase. split; [done|].
  destruct (_ <? _) eqn:El; [done|]. apply Z.ltb_ge in El. split; [done|]. res_inv.
  case_bool_decide as Hk; [|done]. destruct (au_credentials (pc_auth_entry p)) as [c|] eqn:Ec; [|done]. cbn [negb] in H. res_inv.
  destruct (count _ =? 64) eqn:E64; [|done]. apply Z.eqb_eq in E64. cbn [negb] in H. res_inv.
  repeat match goal with E : at_stage _ _ = Ok _ |- _ => apply at_stage_Ok in E end.
  match goal with E : account_signature_scval _ _ = Ok _ |- _ => injection E as <- end.
  apply finish_inv in H as (final & xdr & Hc & Hx & Hb).
  eexists _, final. unfold signs. eexists c, _, _, _, _, _, xdr. split_and!; try eassumption; try reflexivity.
Qed.

(** ** Reconciling *)

(** The paid server's transaction: its own source, sequence number, fee, resources and signature around
    what the credential carried. *)
Definition completes (final : ChargeEnvelope) (v : ChargeV1) : Prop :=
  exists v0, final = CeTx v0 /\ ct_cond (cv_tx v) = ct_cond (cv_tx v0) /\ ct_memo (cv_tx v) = ct_memo (cv_tx v0) /\
    ct_operations (cv_tx v) = ct_operations (cv_tx v0) /\ is_ext_v1 (ct_ext (cv_tx v)) = true /\ 0 < ct_seq_num (cv_tx v) /\
    verify_server_envelope_signature v = Ok ().

(** A signature of the signer verifies under its key, over the preimage's bytes. *)
Definition honest_signer (sign : string -> list Z -> result string string) : Prop :=
  forall b64 bytes key encoded signature,
    sign b64 key = Ok encoded -> standard_base64_decode b64 = Ok bytes -> standard_base64_decode encoded = Ok signature ->
    dalek_verify_strict key (sha256 bytes) signature = true.

Lemma expiration_ledger_positive latest remaining : 0 <= latest -> 1 <= compute_expiration_ledger latest remaining.
Proof using Type.
  intros Hl. unfold compute_expiration_ledger, sat_add, clamp, checked, in_rangeb. cbn.
  match goal with |- context [Z.max ?x 1] => generalize x; intros n end. destruct (_ && _) eqn:E; cbn; lia.
Qed.

(** What a stored charge is made of. *)
Lemma prepared_entry r p :
  prepared_charge r = Ok p -> exists c key, public_key_from_string (pc_payer p) = Ok key /\
    au_credentials (pc_auth_entry p) = CredAddress c /\ cr_address c = ScAccount key /\
    au_root_invocation (pc_auth_entry p) = MkInvocation (ContractFn (pc_invoke p)) [].
Proof using Type.
  unfold prepared_charge, from_stored. intros H. res_inv. destruct (_ || _) in H; [done|]. res_inv.
  match type of H with (if ?b then _ else _) = _ => destruct b end; [done|]. res_inv. cbn.
  match goal with E : payer_sc_address _ = Ok ?a |- _ => unfold payer_sc_address in E; res_inv end.
  match goal with E : validate_auth_entry _ _ _ = Ok _ |- _ => unfold validate_auth_entry in E; revert E end.
  match goal with |- context [au_credentials ?e] => destruct e as [[c|] [fn subs]] end; cbn; [|done].
  match goal with |- (if ?b then _ else _) = _ -> _ => destruct b eqn:Eb end; [done|]. intros _. passed. subst. eauto 10.
Qed.

Lemma signature_accepted c key signature bytes invocation :
  cr_address c = ScAccount key -> count key = 32 -> count signature = 64 ->
  cr_signature c = SvVec (Some [SvMap (Some [(SvSymbol "public_key", SvBytes key); (SvSymbol "signature", SvBytes signature)])]) ->
  preimage_to_xdr (network_id TESTNET_PASSPHRASE) (cr_nonce c) (cr_signature_expiration_ledger c) invocation = Ok bytes ->
  dalek_verify_strict key (sha256 bytes) signature = true ->
  verify_address_signature c invocation = Ok ().
Proof using Type.
  intros Ha Hk Hs Hc Hx Hv. unfold verify_address_signature. rewrite Hc, Ha.
  assert (Hf : signature_fields None None [(SvSymbol "public_key", SvBytes key); (SvSymbol "signature", SvBytes signature)] =
    Ok (Some key, Some signature)).
  { unfold signature_fields. rewrite bool_decide_eq_true_2 by done. rewrite Hk, Z.eqb_refl. rewrite bool_decide_eq_false_2 by done.
    rewrite bool_decide_eq_true_2 by done. by rewrite Hs, Z.eqb_refl. }
  rewrite Hf. cbn. rewrite bool_decide_eq_true_2 by done. cbn. rewrite Hx. cbn. by rewrite Hv.
Qed.

Lemma inner_accepts r p v tb c expected entry :
  prepared_charge r = Ok p -> in_rangeb u64 (ar_expires_at r) = true -> time_bounds_of (ct_cond (cv_tx v)) = Some tb ->
  min_time tb = 0 -> max_time tb = ar_expires_at r -> 0 < ct_seq_num (cv_tx v) -> ct_memo (cv_tx v) = MemoNone ->
  ct_operations (cv_tx v) = [invoke_operation (pc_invoke p) [entry]] -> is_ext_v1 (ct_ext (cv_tx v)) = true ->
  verify_server_envelope_signature v = Ok () -> au_credentials entry = CredAddress c ->
  au_credentials (pc_auth_entry p) = CredAddress expected -> cr_address c = cr_address expected ->
  0 < cr_signature_expiration_ledger c -> cr_signature c <> SvVoid ->
  au_root_invocation entry = au_root_invocation (pc_auth_entry p) ->
  verify_address_signature c (au_root_invocation entry) = Ok () -> inspect_inner r v = Ok ().
Proof using Type.
  intros Hp Hr Htb Hmin Hmax Hseq Hm Hop Hext Hsv Hc He Ha Hl Hs Hroot Hv. unfold inspect_inner. rewrite Hp. unfold checked. rewrite Hr.
  cbn [mbind result_bind ok_or]. rewrite Htb. cbn [mbind result_bind ok_or]. rewrite Hm, Hop, Hext, Hmin, Hmax, !Z.eqb_refl.
  rewrite (proj2 (Z.leb_gt _ _) Hseq). cbn [is_memo_none negb orb]. change (count [invoke_operation (pc_invoke p) [entry]] =? 1) with true.
  cbn [Z.eqb negb orb]. rewrite Hsv. cbn [mbind result_bind ok_or head]. cbn [invoke_operation co_body co_source_account is_invoke_of].
  rewrite bool_decide_eq_false_2 by (by intros [? ?]). rewrite bool_decide_eq_true_2 by done. change (count [entry] =? 1) with true.
  cbn [negb orb mbind result_bind ok_or head]. rewrite Hc, He, Hroot, Ha. rewrite bool_decide_eq_true_2 by done.
  rewrite bool_decide_eq_false_2 by done. rewrite bool_decide_eq_true_2 by done. destruct (_ =? 0) eqn:E0; [lia|]. cbn [negb orb]. by rewrite <- Hroot.
Qed.

(** C28: A validated record's charge that a commit signed, with an honest signer, is recognised on the ledger:
    the credential carries one transaction with exactly the prepared invocation and the prepared
    entry, in which only the signature and its last ledger are new, until the challenge
    expires; and whatever account, sequence number, fee and resources the server completes it
    with, reconciliation accepts it. *)
Theorem signed_charge_reconciles r p now_unix passphrase public_key sign simulate cred :
  record_validate r = Ok () -> prepared_charge r = Ok p -> 0 <= pc_latest_ledger p ->
  (forall k, public_key = Ok k -> count k = 32 /\ public_key_from_string (public_key_to_string k) = Ok k) -> honest_signer sign ->
  commit_sponsored_staged p now_unix passphrase public_key sign simulate = Ok cred ->
  exists entry final, signs p now_unix public_key sign cred entry final /\ forall v, completes final v -> inspect_inner r v = Ok ().
Proof.
  intros Hv Hp Hl Hpk Hs (_ & _ & entry & final & Hsig)%commit_signs. exists entry, final. split; [done|].
  intros v (v0 & -> & Hcond & Hmemo & Hops & Hext & Hseq & Hsv).
  destruct Hsig as (c & signer_key & key & b64 & encoded & signature & xdr & Hc & Hpub & Hk1 & Hk2 & Hb & Hsg & Hd & H64 & -> & Hcar & _).
  destruct (Hpk _ Hpub) as [Hk32 Hkt]. rewrite Hk1, Hk2 in Hkt. injection Hkt as ->.
  destruct (prepared_entry _ _ Hp) as (c' & key' & Hk' & Hc' & Haddr & _). rewrite Hk2 in Hk'. injection Hk' as <-.
  rewrite Hc in Hc'. injection Hc' as <-.
  destruct Hcar as (v1 & tb & [= <-] & _ & _ & _ & Hm & Htb & Hmin & Hmax & Hr & Hop & _).
  destruct (preimage_base64 _ _ _ _ _ Hb) as (bytes & Hx & Hxd).
  assert (Hexp : ar_expires_at r = sc_effective_expires_at (pc_selected p)).
  { unfold record_validate in Hv. destruct (negb _); [done|]. rewrite Hp in Hv. cbn in Hv. destruct (_ =? _) eqn:E; [|done]. lia. }
  pose proof (expiration_ledger_positive (pc_latest_ledger p)
    (sat_sub i64 (sc_effective_expires_at (pc_selected p)) now_unix) Hl) as Hpos.
  eapply (inner_accepts r p v tb _ c); [done|congruence|congruence|done|congruence|done|congruence|by rewrite Hops|done|done|reflexivity
    |done|done|cbn; lia|done|done|].
  eapply signature_accepted; [done..|exact Hx|]. by eapply Hs.
Qed.

(** C39: Reconciliation tells two authorizations apart by payer, transfer and expiry only: the
    nonce of the prepared entry is not compared with the one on the ledger, so one
    transaction passes as the settlement of every authorization of the same payer for the
    same transfer that expires in the same second. *)
Theorem reconciliation_ignores_nonce r1 r2 p1 p2 envelope :
  prepared_charge r1 = Ok p1 -> prepared_charge r2 = Ok p2 -> ar_expires_at r1 = ar_expires_at r2 ->
  pc_payer p1 = pc_payer p2 -> pc_invoke p1 = pc_invoke p2 ->
  inspect_observed_envelope r1 envelope = inspect_observed_envelope r2 envelope.
Proof using Type.
  intros H1 H2 He Hp Hi. destruct (prepared_entry _ _ H1) as (c1 & k1 & Hk1 & Hc1 & Ha1 & Hr1).
  destruct (prepared_entry _ _ H2) as (c2 & k2 & Hk2 & Hc2 & Ha2 & Hr2). rewrite Hp, Hk2 in Hk1. injection Hk1 as ->.
  assert (E : forall v, inspect_inner r1 v = inspect_inner r2 v).
  { intros v. unfold inspect_inner. rewrite H1, H2, He. cbn [mbind result_bind]. by rewrite Hc1, Hc2, Ha1, Ha2, Hr1, Hr2, Hi. }
  by destruct envelope; cbn.
Qed.
End charges.
