(* ===== verification/MppDemo.v ===== *)
(** * A payment, for the witnesses

    A codec of the store's file, a prepared charge, and a run in which it is claimed,
    signed and released. *)

From S2P Require Import Prelude RustStr Json Bytes AssetId PolicyTypes Value Attestation Approval ApprovalStore ApprovalDemo AuditDemo Keyring WindowDemo Network Mpp MppStore MppProps MppCharge MppService MppServiceProps.
From stdpp Require Import options.

Local Open Scope string_scope.
Local Open Scope list_scope.
Local Open Scope Z_scope.

#[local] Existing Instances rfc4648 quick_sha2 quick_sha2_laws demo_strkey.

(** ** A codec *)

(** Values that can be read back from the front of a list. *)
Class Wire (A : Type) := {
  put : A -> list Z;
  grab : list Z -> option (A * list Z);
  grab_put a rest : grab (put a ++ rest) = Some (a, rest);
}.

#[local] Instance wire_Z : Wire Z.
Proof. refine {| put z := [z]; grab l := match l with z :: l' => Some (z, l') | [] => None end |}. done. Defined.

#[local] Instance wire_prod {A B} `{!Wire A, !Wire B} : Wire (A * B).
Proof.
  refine {| put x := put (fst x) ++ put (snd x);
            grab l := match grab l with Some (a, l1) => match grab l1 with Some (b, l2) => Some ((a, b), l2) | None => None end | None => None end |}.
  intros [a b] rest. cbn. by rewrite <- (assoc_L app), !grab_put.
Defined.

Fixpoint grab_n {A} `{!Wire A} (n : nat) (l : list Z) : option (list A * list Z) :=
  match n with
  | O => Some ([], l)
  | S n' => match grab l with
            | Some (a, l1) => match grab_n n' l1 with Some (r, l2) => Some (a :: r, l2) | None => None end
            | None => None
            end
  end.
#[local] Instance wire_list {A} `{!Wire A} : Wire (list A).
Proof.
  refine {| put x := Z.of_nat (length x) :: concat (put <$> x);
            grab l := match l with n :: l' => grab_n (Z.to_nat n) l' | [] => None end |}.
  intros x rest. cbn. rewrite Nat2Z.id. induction x as [|a x IH]; [done|]. cbn. rewrite <- (assoc_L app), grab_put. by rewrite IH.
Defined.

(** Another view of the same values. *)
Definition wire_view {A B} `{!Wire B} (f : A -> B) (g : B -> A) (E : forall a, g (f a) = a) : Wire A.
Proof.
  refine {| put a := put (f a); grab l := match grab l with Some (b, r) => Some (g b, r) | None => None end |}.
  intros a rest. by rewrite grab_put, E.
Defined.

#[local] Instance wire_option {A} `{!Wire A} : Wire (option A).
Proof. refine (wire_view (fun o => match o with Some a => [a] | None => [] end) (fun l => head l) _). by intros [a|]. Defined.
#[local] Instance wire_string : Wire string.
Proof.
  refine (wire_view as_bytes (fun l => String.string_of_list_ascii ((fun z => Ascii.ascii_of_N (Z.to_N z)) <$> l)) _).
  intros s. unfold as_bytes. rewrite <- list_fmap_compose. rewrite <- (String.string_of_list_ascii_of_string s) at 2. f_equal.
  rewrite <- (list_fmap_id (String.list_ascii_of_string s)) at 2. apply list_fmap_ext. intros i a _. cbn.
  unfold byte_val. by rewrite N2Z.id, Ascii.ascii_N_embedding.
Defined.
#[local] Instance wire_bool : Wire bool.
Proof. refine (wire_view (fun b : bool => if b then 1 else 0) (fun z => z =? 1) _). by intros []. Defined.

Definition statuses : list AuthorizationStatus :=
  [StPrepared; StApprovalPending; StReady; StAuthorizing; StDeliveryPending; StAuthorized; StAuthorizedWithheld; StReceiptObserved;
   StSettled; StFailed; StRefused; StExpiredUnresolved; StIndeterminate].
Definition status_index (s : AuthorizationStatus) : Z :=
  match s with
  | StPrepared => 0 | StApprovalPending => 1 | StReady => 2 | StAuthorizing => 3 | StDeliveryPending => 4 | StAuthorized => 5
  | StAuthorizedWithheld => 6 | StReceiptObserved => 7 | StSettled => 8 | StFailed => 9 | StRefused => 10
  | StExpiredUnresolved => 11 | StIndeterminate => 12
  end.
#[local] Instance wire_status : Wire AuthorizationStatus.
Proof. refine (wire_view status_index (fun z => default StPrepared (statuses !! Z.to_nat z)) _). by intros []. Defined.

#[local] Instance wire_outcome : Wire LedgerOutcome.
Proof.
  refine (wire_view (fun o => match o with LoUnknown => (0, (0, 0)) | LoSettled l t => (1, (l, t)) | LoFailed l t => (2, (l, t)) end)
    (fun x => let '(k, (l, t)) := x in if k =? 0 then LoUnknown else if k =? 1 then LoSettled l t else LoFailed l t) _).
  by intros [].
Defined.
#[local] Instance wire_observation : Wire HostObservation.
Proof.
  refine (wire_view (fun o => (ob_receipt_digest o, ob_reference_digest o, ob_observed_at o)) (fun x => let '(a, b, c) := x in MkObservation a b c) _).
  by intros [].
Defined.
#[local] Instance wire_http : Wire HttpRequestContext.
Proof.
  refine (wire_view (fun c => (http_origin c, http_method c, canonical_resource c, content_digest c, idempotency_key_hash c))
    (fun x => let '(a, b, c, d, e) := x in MkHttp a b c d e) _). by intros [].
Defined.
#[local] Instance wire_mcp : Wire McpRequestContext.
Proof.
  refine (wire_view (fun c => (server_identity c, match mcp_operation c with OpTool => 0 | OpResource => 1 | OpPrompt => 2 end,
                               mcp_target c, params_digest c))
    (fun x => let '(a, k, b, c) := x in MkMcp a (if k =? 0 then OpTool else if k =? 1 then OpResource else OpPrompt) b c) _).
  by intros [? [] ? ?].
Defined.
(** Either kind, the other one being absent; a context is one of them. *)
Definition no_mcp : McpRequestContext := MkMcp "" OpTool "" "".
#[local] Instance wire_context : Wire RequestContext.
Proof.
  refine (wire_view (fun c => match c with CtxHttp h => (Some h, no_mcp) | CtxMcp m => (None, m) end)
    (fun x => match x with (Some h, _) => CtxHttp h | (None, m) => CtxMcp m end) _). by intros [].
Defined.
#[local] Instance wire_request : Wire StellarChargeRequest.
Proof.
  refine (wire_view (fun c => (ch_amount c, ch_amount_decimal c, ch_currency c, ch_recipient c, ch_rest c))
    (fun x => let '(a, b, c, d, e) := x in MkCharge a b c d e) _). by intros [].
Defined.
#[local] Instance wire_selected : Wire SelectedChallenge.
Proof.
  refine (wire_view (fun c => (sc_echo_id c, sc_echo_rest c, sc_request c, sc_context c, sc_effective_expires_at c, sc_challenge_digest c))
    (fun x => let '(a, b, c, d, e, f) := x in MkSelected a b c d e f) _). by intros [].
Defined.
#[local] Instance wire_stored : Wire StoredPreparedCharge.
Proof.
  refine (wire_view (fun c => (sp_selected c, sp_payer c, sp_invoke_xdr c, sp_auth_entry_xdr c, sp_latest_ledger c, sp_simulated_fee_stroops c, sp_artifact_hash c))
    (fun x => let '(a, b, c, d, e, f, g) := x in MkStored a b c d e f g) _). by intros [].
Defined.
#[local] Instance wire_record : Wire AuthorizationRecord.
Proof.
  refine (wire_view (fun r => (ar_authorization_id r, ar_fingerprint r, ar_status r, ar_created_at r, ar_updated_at r, ar_expires_at r,
                               ar_prepared r, ar_approval_nonce r, ar_credential_digest r, ar_host_observation r, ar_ledger_outcome r,
                               ar_policy_accounted r))
    (fun x => let '(a, b, c, d, e, f, g, h, i, j, k, l) := x in MkAuthorization a b c d e f g h i j k l) _). by intros [].
Defined.
#[local] Instance wire_store : Wire WireStore.
Proof.
  refine (wire_view (fun w => (mw_version w, mw_generation w, mw_records w)) (fun x => let '(a, b, c) := x in MkWireStore a b c) _).
  by intros [].
Defined.

#[local] Instance demo_mpp_json : MppJson := {|
  store_to_json := put;
  store_from_json l := match grab l with Some (w, []) => Ok w | _ => Err "invalid" end;
|}.
#[local] Instance demo_mpp_json_laws : MppJsonLaws.
Proof. split. intros w. cbn [store_from_json store_to_json demo_mpp_json]. rewrite <- (app_nil_r (put w)). by rewrite grab_put. Qed.

(** ** A prepared charge *)

#[local] Instance demo_urls : UrlCrate := {| parse_url _ := None; url_stripped _ := "" |}.

Definition demo_payer : string := String "G" (letters 31 "A").
Definition demo_payer_key : list Z := bytes_of demo_payer.
Definition demo_invoke : InvokeContractArgs :=
  build_sep41_transfer_invoke (bytes_of "CTOKEN") (ScAccount demo_payer_key) (ScContract (bytes_of "CSHOP")) 100.
(** The entry the simulation answered, by its nonce. *)
Definition demo_entry (nonce : Z) : SorobanAuthorizationEntry :=
  MkAuth (CredAddress (MkCredentials (ScAccount demo_payer_key) nonce 0 SvVoid)) (MkInvocation (ContractFn demo_invoke) []).

#[local] Instance demo_sponsored_xdr : SponsoredXdr := {|
  invoke_to_xdr _ := Ok [1];
  invoke_to_base64 _ := Ok "invoke";
  invoke_from_base64 s := if bool_decide (s = "invoke") then Ok demo_invoke else Err "invalid";
  auth_to_xdr e := match au_credentials e with CredAddress c => Ok [cr_nonce c] | CredOther _ => Err "invalid" end;
  auth_to_base64 e := match au_credentials e with CredAddress c => Ok (show_Z (cr_nonce c)) | CredOther _ => Err "invalid" end;
  auth_from_base64 s := match parse_int i64 s with Ok n => Ok (demo_entry n) | Err _ => Err "invalid" end;
|}.

Definition demo_selected : SelectedChallenge :=
  MkSelected (Some "challenge") "" (MkCharge 100 "100" "CTOKEN" "CSHOP" "")
    (CtxMcp (MkMcp "shop.example" OpTool "paid_tool" (encode (replicate 32 1)))) 1300 (replicate 32 2).
Definition demo_artifact (nonce : Z) : list Z :=
  match prepared_artifact_hash demo_selected demo_payer demo_invoke (demo_entry nonce) 50 1100 with Ok h => h | Err _ => [] end.
Definition demo_prepared (nonce : Z) : PreparedSponsoredCharge :=
  MkPrepared demo_selected demo_payer demo_invoke (demo_entry nonce) 50 1100 (demo_artifact nonce).
Definition demo_stored (nonce : Z) : StoredPreparedCharge :=
  MkStored demo_selected demo_payer "invoke" (show_Z nonce) 50 1100 (demo_artifact nonce).

Definition demo_fingerprint : list Z := replicate 32 7.
Definition demo_id : string := id_of_fingerprint demo_fingerprint.
Definition demo_record (nonce : Z) (s : AuthorizationStatus) : AuthorizationRecord :=
  MkAuthorization demo_id demo_fingerprint s 1000 1000 1300 (demo_stored nonce) None None None LoUnknown false.

(** ** Signing *)

#[local] Instance demo_charge_xdr : ChargeXdr := {|
  preimage_to_xdr _ nonce ledger _ := Ok (as_bytes (show_Z nonce +:+ "/" +:+ show_Z ledger));
  preimage_to_base64 _ nonce ledger _ := Ok (show_Z nonce +:+ "/" +:+ show_Z ledger);
  scval_from_base64 _ := Ok SvVoid;
  soroban_data_from_base64 s := Ok (as_bytes s);
  charge_to_base64 _ := Ok "envelope";
  standard_base64_decode s := Ok (as_bytes s);
  charge_payload_to_xdr _ tx := Ok [ct_seq_num tx];
|}.
#[local] Instance demo_charge_xdr_laws : ChargeXdrLaws.
Proof. split. intros nid nonce ledger invocation s [= <-]. by eexists. Qed.
#[local] Instance demo_builder : ChargeBuilder := {|
  build_for_simulation max_time fee op data :=
    Ok (CeTx (MkChargeV1 (MkChargeTx (MuxEd25519 (replicate 32 0)) fee 1 (PreTime (MkTimeBounds 0 max_time)) MemoNone [op]
                            (match data with Some d => ExtV1 d | None => ExtV0 end)) []));
|}.
#[local] Instance demo_credential_wire : CredentialWire := {|
  wire_to_vec _ tx source := Ok (as_bytes (tx +:+ source));
  wire_to_value _ tx source := Ok (JArray [JString tx; JString source]);
|}.
#[local] Instance demo_credential_json : CredentialJson := {|
  credential_to_vec c := match c with CredentialHttp a => Ok (as_bytes a) | CredentialMcp (JArray [JString tx; _]) => Ok (as_bytes tx) | CredentialMcp _ => Err "invalid" end;
|}.
(** A signature names its key and what it signs. *)
#[local] Instance demo_dalek : Ed25519Verify := {| dalek_verify_strict key h s := bool_decide (s = key ++ h) |}.
Definition demo_sign (b64 : string) (key : list Z) : result string string :=
  let signature := key ++ sha256 (as_bytes b64) in
  if bool_decide (as_bytes (text_of signature) = signature) then Ok (text_of signature) else Err "refused".
Definition demo_simulate (_ : ChargeEnvelope) : result MppError SimulateResponse :=
  Ok (MkSimResponse None 1000 "data" [MkSimResult [] "value"] 50).

Lemma demo_sign_honest : honest_signer demo_sign.
Proof.
  intros b64 bytes key encoded signature H [= <-] [= <-]. unfold demo_sign in H. case_bool_decide as E; [|done]. injection H as <-.
  cbn. by apply bool_decide_eq_true.
Qed.

Definition demo_commit : result (MppError * CommitStage) CredentialOutput :=
  commit_sponsored_staged (demo_prepared 5) 1100 TESTNET_PASSPHRASE (Ok demo_payer_key) demo_sign demo_simulate.
Definition demo_credential : CredentialOutput := Eval vm_compute in match demo_commit with Ok c => c | Err _ => CredentialHttp "" end.

Lemma signed_charge_reconciles_witness :
  demo_commit = Ok demo_credential /\
  exists entry final, signs (demo_prepared 5) 1100 (Ok demo_payer_key) demo_sign demo_credential entry final /\
    forall v, completes final v -> inspect_inner (demo_record 5 StReady) v = Ok ().
Proof.
  split; [vm_compute; reflexivity|].
  eapply (signed_charge_reconciles (demo_record 5 StReady) (demo_prepared 5) 1100 TESTNET_PASSPHRASE (Ok demo_payer_key) demo_sign demo_simulate).
  - vm_compute. reflexivity.
  - vm_compute. reflexivity.
  - cbn. lia.
  - intros k [= <-]. split; vm_compute; reflexivity.
  - apply demo_sign_honest.
  - vm_compute. reflexivity.
Defined.

(** ** On the ledger *)

Definition demo_server_key : list Z := bytes_of (String "G" (letters 31 "B")).
(** The signed entry of nonce 5, completed and signed by the paid server. *)
Definition demo_signed : SorobanAuthorizationEntry :=
  signed_entry (demo_prepared 5) (MkCredentials (ScAccount demo_payer_key) 5 0 SvVoid) 90 demo_payer_key
    (demo_payer_key ++ sha256 (as_bytes "5/90")).
Definition demo_on_ledger : ChargeEnvelope :=
  CeTxFeeBump
    (MkChargeV1 (MkChargeTx (MuxEd25519 demo_server_key) 1100 77 (PreTime (MkTimeBounds 0 1300)) MemoNone
                   [invoke_operation demo_invoke [demo_signed]] (ExtV1 [4]))
       [MkDecorated (drop 28 demo_server_key) (demo_server_key ++ sha256 [77])]) [].

Lemma reconciliation_ignores_nonce_witness :
  inspect_observed_envelope (demo_record 5 StAuthorized) demo_on_ledger = Ok () /\
  inspect_observed_envelope (demo_record 6 StAuthorized) demo_on_ledger = Ok ().
Proof.
  assert (H : inspect_observed_envelope (demo_record 5 StAuthorized) demo_on_ledger = Ok ()) by (vm_compute; reflexivity).
  split; [exact H|]. rewrite <- H. symmetry.
  apply (reconciliation_ignores_nonce _ _ (demo_prepared 5) (demo_prepared 6)); vm_compute; reflexivity.
Defined.

(** ** A commit *)

Definition demo_mpp_env : MppEnv :=
  MkMppEnv demo_ring PaDirectory LnFile true true (fun _ => true) true true None (replicate 32 9) true true.
Definition demo_mpp_entry : KeyringEntryRef := MkRef "stellar-agent-mpp-a" "default".
Definition demo_opened : result MppError MppAuthorizationStore * MppDisk :=
  Eval vm_compute in open_for_prepare demo_mpp_env demo_mpp_entry "a" (fun _ => Ok ()) (MkMppDisk NodeAbsent ∅ []).
Definition demo_handle : MppAuthorizationStore := Eval vm_compute in match fst demo_opened with Ok h => h | Err _ => at_path [] demo_mpp_entry end.

(** The disk after each call of the run. *)
Definition demo_after (c : MCall) (d : MppDisk) : MppDisk := snd (mcall demo_mpp_env demo_handle c d).
Definition demo_disk0 : MppDisk := Eval vm_compute in snd demo_opened.
Definition demo_insert : MCall := McInsert (demo_record 5 StReady) 1000.
Definition demo_disk1 : MppDisk := Eval vm_compute in demo_after demo_insert demo_disk0.
Definition demo_disk2 : MppDisk := Eval vm_compute in demo_after (McClaim demo_id 1100) demo_disk1.
Definition demo_disk3 : MppDisk := Eval vm_compute in demo_after (McAccounted demo_id) demo_disk2.
Definition demo_digest : list Z := Eval vm_compute in match credential_to_vec demo_credential with Ok b => sha256 b | Err _ => [] end.
Definition demo_disk4 : MppDisk := Eval vm_compute in demo_after (McDelivery demo_id demo_digest 1100) demo_disk3.
Definition demo_disk5 : MppDisk := Eval vm_compute in demo_after (McAuthorized demo_id 1100) demo_disk4.

Definition demo_claimed : AuthorizationRecord :=
  MkAuthorization demo_id demo_fingerprint StAuthorizing 1000 1100 1300 (demo_stored 5) None None None LoUnknown false.
Definition demo_delivered : AuthorizationRecord :=
  MkAuthorization demo_id demo_fingerprint StDeliveryPending 1000 1100 1300 (demo_stored 5) None (Some demo_digest) None LoUnknown true.

Definition demo_binding : AttestationBinding := {| profile_name := "a"; binding_chain_id := "stellar:testnet" |}.

Lemma demo_run : mrun demo_mpp_entry (mh_key demo_handle) [EvMpp demo_insert true] demo_disk1.
Proof.
  eapply mrun_step.
  - eapply (mrun_start _ _ demo_mpp_env "a" (fun _ => Ok ()) (MkMppDisk NodeAbsent ∅ []) demo_handle demo_disk0);
      [reflexivity|reflexivity|vm_compute; reflexivity|reflexivity].
  - apply (mstep_call _ _ _ _ demo_mpp_env demo_handle demo_insert); vm_compute; reflexivity.
Qed.

Definition demo_accounted : AuthorizationRecord := set_policy_accounted demo_claimed.
Definition demo_authorized : AuthorizationRecord := set_status demo_delivered StAuthorized 1100.
Definition demo_bytes : list Z := Eval vm_compute in match credential_to_vec demo_credential with Ok b => b | Err _ => [] end.

Lemma demo_alone :
  alone demo_mpp_entry [EvMpp demo_insert true] demo_disk1 (commit_authorization (Text := string) None None demo_binding demo_id 1100)
    (EvMpp (McAuthorized demo_id 1100) true :: EvMpp (McDelivery demo_id (sha256 demo_bytes) 1100) true :: EvMpp (McAccounted demo_id) true
     :: EvMpp (McClaim demo_id 1100) true :: [EvMpp demo_insert true]) demo_disk5 (Ok demo_credential).
Proof.
  assert (Hl : mpp_load demo_mpp_env demo_handle demo_id demo_disk1 = (Ok (demo_record 5 StReady), demo_disk1)) by (vm_compute; reflexivity).
  assert (Hc : mcall demo_mpp_env demo_handle (McClaim demo_id 1100) demo_disk1 = (Ok demo_claimed, demo_disk2)) by (vm_compute; reflexivity).
  assert (Hp : prepared_charge demo_claimed = Ok (demo_prepared 5)) by (vm_compute; reflexivity).
  assert (Ha : mcall demo_mpp_env demo_handle (McAccounted demo_id) demo_disk2 = (Ok demo_accounted, demo_disk3)) by (vm_compute; reflexivity).
  assert (Hb : credential_to_vec demo_credential = Ok demo_bytes) by (vm_compute; reflexivity).
  assert (Hd : mcall demo_mpp_env demo_handle (McDelivery demo_id (sha256 demo_bytes) 1100) demo_disk3 = (Ok demo_delivered, demo_disk4))
    by (vm_compute; reflexivity).
  assert (Hr : prepared_charge demo_delivered = Ok (demo_prepared 5)) by (vm_compute; reflexivity).
  assert (Hz : mcall demo_mpp_env demo_handle (McAuthorized demo_id 1100) demo_disk4 = (Ok demo_authorized, demo_disk5))
    by (vm_compute; reflexivity).
  exact (commit_alone None None demo_binding demo_id 1100 demo_mpp_entry demo_mpp_env demo_handle _ demo_disk1 demo_disk2 demo_disk3
    demo_disk4 demo_disk5 _ _ _ _ _ _ _ _ _ eq_refl eq_refl Hl eq_refl Hc Hp Ha Hb Hd Hr Hz).
Qed.

Definition demo_events : list MEvent :=
  [EvMpp (McAuthorized demo_id 1100) true; EvMpp (McDelivery demo_id (sha256 demo_bytes) 1100) true; EvMpp (McAccounted demo_id) true;
   EvMpp (McClaim demo_id 1100) true; EvMpp demo_insert true].
Definition demo_final (b : bool) : list Thread := [MkThread demo_id b (Ret (Ok demo_credential))].

Lemma demo_system : exists b, system (Text := string) demo_mpp_entry (mh_key demo_handle) demo_events demo_disk5 (demo_final b).
Proof. eapply (alone_system _ _ _ _ _ _ _ _ [] _ false []); [apply demo_alone|]. apply sys_spawn, sys_run, demo_run. Qed.

Lemma one_credential_per_authorization_witness :
  exists b, system (Text := string) demo_mpp_entry (mh_key demo_handle) demo_events demo_disk5 (demo_final b) /\
    length (filter (fun th => released demo_id th = true) (demo_final b)) = 1%nat /\
    (length (filter (fun th => released demo_id th = true) (demo_final b)) <= 1)%nat.
Proof.
  destruct demo_system as [b H]. exists b. split; [exact H|]. split; [vm_compute; reflexivity|].
  apply (one_credential_per_authorization (Text := string) demo_mpp_entry (mh_key demo_handle) demo_events demo_disk5 (demo_final b) (fun _ => 1300) demo_id).
  - exact H.
  - intros r t Hin. cbn in Hin. rewrite !elem_of_cons in Hin. destruct Hin as [E|[E|[E|[E|[E|E]]]]]; try done; [|by apply elem_of_nil in E].
    injection E as -> _. reflexivity.
  - assert (E : omap call_time (omap event_call demo_events) = [1100; 1100; 1100; 1000]) by (vm_compute; reflexivity).
    unfold times_ordered. rewrite E. split.
    + repeat first [apply SSorted_nil|apply SSorted_cons|apply Forall_nil_2|apply Forall_cons_2]; unfold TERMINAL_RETENTION_SECS; lia.
    + repeat first [apply Forall_nil_2|apply Forall_cons_2]; unfold in_range; cbn; lia.
Defined.


(** A claim at 900 of a record that was created at 1000. *)
Definition demo_back : result MppError AuthorizationRecord * MppDisk :=
  Eval vm_compute in update_record demo_mpp_env demo_handle demo_id state_error (claim 900) demo_disk1.
Definition demo_back_record : AuthorizationRecord := set_status (demo_record 5 StReady) StAuthorizing 900.

Lemma invalid_record_locks_the_store_witness :
  update_record demo_mpp_env demo_handle demo_id state_error (claim 900) demo_disk1 = (Ok demo_back_record, snd demo_back) /\
  exists e, mpp_read_verified demo_mpp_env demo_handle (snd demo_back) = (Err e, snd demo_back).
Proof.
  assert (H : update_record demo_mpp_env demo_handle demo_id state_error (claim 900) demo_disk1 = (Ok demo_back_record, snd demo_back))
    by (vm_compute; reflexivity).
  split; [exact H|].
  apply (invalid_record_locks_the_store demo_mpp_env demo_handle demo_id state_error (claim 900) demo_disk1 demo_back_record (snd demo_back)
    demo_mpp_env demo_handle H); [vm_compute; discriminate|reflexivity].
Defined.

(** The other way: a transaction that the ledger reports in ledger 0. *)
Definition demo_zero : result MppError AuthorizationRecord * MppDisk :=
  Eval vm_compute in update_record demo_mpp_env demo_handle demo_id state_error (settle_ledger (LoSettled 0 1200) 1200) demo_disk5.

Example ledger_zero_locks :
  (is_ok (fst demo_zero), is_ok (fst (mpp_read_verified demo_mpp_env demo_handle (snd demo_zero)))) = (true, false).
Proof. vm_compute. reflexivity. Qed.
